(* ===== verification/_CoqProject ===== *)
-Q . S2P
Prelude.v
ByteStrings.v
JournalModel.v
JournalValidation.v
JournalMachine.v
JournalSuccessors.v
JournalAtomicity.v
JournalLiveness.v
JournalRollback.v
JournalRecovery.v
JournalCodec.v
JournalFs.v
JournalStore.v
JournalStoreSpec.v
JournalCrash.v
JournalDurability.v
JournalProgress.v
JournalRuns.v
StoneWire.v
StoneRecords.v
StoneHeader.v
StoneRead.v
StoneWrite.v
StoneArchive.v
StoneRoundTrip.v
StoneTheorems.v
Ordered.v
StoneRelation.v
PackageMeta.v
PackageMetaTheorems.v
DagGraph.v
DagSpec.v
DagTheorems.v
Fnmatch.v
FnmatchTheorems.v
Triggers.v
TriggersTheorems.v
SqlDb.v
MetaDb.v
MetaDbSpec.v
MetaDbTheorems.v
Registry.v
RegistryTheorems.v
Transaction.v
TransactionTheorems.v
Vfs.v
VfsSpec.v
VfsReading.v
VfsBuilder.v
VfsTrees.v
VfsArena.v
LayoutPlanning.v
LayoutTrees.v
LayoutCollisions.v
LayoutFrozen.v
LayoutTheorems.v
SqlTx.v
StateDb.v
StateDbExact.v
StateDbInvariant.v
StateDbTheorems.v
StateDbRemoval.v
StartupEvidence.v
StartupEvidenceTheorems.v
StateDbSamples.v
Coordinator.v
CoordinatorTheorems.v
Namespace.v
NamespaceMoves.v
StartupMachine.v
StartupPlans.v
StartupHandlers.v
StartupLogic.v
Arrangements.v
ArrangementMoves.v
StartupCheckpoints.v
StartupInvariant.v
StartupSafety.v
StartupLiveness.v
StartupSamples.v
