(* ===== verification/Prelude.v ===== *)
(** * Cast: a verification library

    Cast is a package manager and system-state tool.  This library models, definition by
    definition, the parts of it on which the integrity of a system rests, and proves what
    makes them correct.  The definitions are translated from the Rust sources under
    [src/crates] and keep their names; they can be evaluated, and the theorems that have
    hypotheses are accompanied by a concrete input at which these hold.

    ** The parts and how they fit together

    A package is a Stone archive: headers and records ([stone]).  Its metadata record
    ([forge/src/package/meta.rs]) carries relations to other packages
    ([stone/src/relation.rs]).  The metadata of installed and available packages is kept
    in an SQLite database ([forge/src/db/meta]); the registry
    ([forge/src/registry]) answers queries over the databases and local archives; a
    transaction ([forge/src/registry/transaction.rs]) closes a set of packages under their
    dependencies in a graph ([dag]) and orders them.  The layout records of the chosen
    packages become one tree of files ([vfs], [forge/src/client/materialization]), which
    is materialised in a new [/usr]; the paths of the tree fire triggers ([triggers]),
    whose patterns are globs with named groups ([fnmatch]).  Replacing the old [/usr] by the new one is a
    transition of many steps, recorded in a journal ([forge/src/transition_journal]) so
    that a crash at any point leaves a state from which the system goes forward or back.
    The states themselves are rows of another database ([forge/src/db/state]).  The
    coordinator of a transition ([forge/src/transition_identity/journal_coordinator])
    writes the journal and these rows; when the program starts again it compares the
    journal with the database and the directories it finds
    ([forge/src/client/startup_reconciliation]) and, one checkpoint an entry, rolls an
    interrupted transition back ([forge/src/client/startup_gate.rs], [startup_recovery]).

    ** Files

    - This file: the result monad of fallible code with its inversion tactics ([inv_ok],
      [step_ok], [bool_prop]), bytes, machine integers with their width, big-endian
      numbers, UTF-8.  [ByteStrings]: the operations of [str] on byte strings and the
      hexadecimal format.  [Ordered]: Rust's [Ord], stable sorting, [BTreeSet] and
      [BTreeMap] as sorted lists.

    - The journal's records: [JournalModel] (the data of [model.rs]), [JournalValidation]
      ([validation.rs]: which records are well formed and which follow each other),
      [JournalMachine] (the phases as a transition relation), [JournalSuccessors]
      ([successors.rs], [recovery.rs]: the typed constructors of next records,
      with complete runs).  [JournalAtomicity], [JournalLiveness],
      [JournalRollback] and [JournalRecovery] hold the theorems on them.

    - The journal on disk: [JournalCodec] ([codec.rs]: frames with a checksum), [JournalFs]
      (a file system with volatile and durable state, crashes and failing calls),
      [JournalStore] ([store.rs]: load, create, advance, delete, cleaning of temporaries),
      [JournalStoreSpec] (a program logic with a crash condition), [JournalCrash],
      [JournalDurability], [JournalProgress] (theorems), [JournalRuns] (a file system that
      satisfies the laws, and runs on it).

    - Stone archives: [StoneWire] and [StoneRecords] ([ext.rs], [payload]), [StoneHeader]
      ([header]), [StoneRead] ([read]), [StoneWrite] ([write.rs], [write]), [StoneArchive]
      (the shape of what the writer emits), [StoneRoundTrip] and [StoneTheorems].  [StoneRelation]: [relation.rs].

    - Package metadata: [PackageMeta] ([package/meta.rs]), [PackageMetaTheorems].

    - Graphs: [DagGraph] ([dag/src]), [DagSpec] (graphs as relations on node weights),
      [DagTheorems] (with a graph that satisfies petgraph's laws).

    - Triggers: [Fnmatch] ([fnmatch/src/lib.rs]; the syntax and the leftmost-first
      semantics of the regular expressions it prints, and globs as a specification),
      [FnmatchTheorems], [Triggers] ([triggers/src/format.rs], [spec.rs], [lib.rs] and
      their use in [client/postblit.rs]), [TriggersTheorems].

    - Databases: [SqlDb] (what the code relies on of SQLite and diesel), [SqlTx]
      (transactions whose statements and commits fail).  The metadata database: [MetaDb]
      ([db/mod.rs], [db/meta]), [MetaDbSpec] (the tables as a map from ids to metadata),
      [MetaDbTheorems].  The state database: [StateDb] ([state.rs], [db/state/mod.rs],
      [metadata_provenance.rs], [declaration_migrations.rs]), [StateDbExact] (the exact
      removals), [StateDbInvariant], [StateDbTheorems], [StateDbRemoval], [StateDbSamples].

    - The registry: [Registry] ([package/mod.rs], [registry/mod.rs], [registry/plugin]),
      [RegistryTheorems].  Transactions: [Transaction], [TransactionTheorems].

    - Trees of files: [Vfs] ([vfs/src]), [VfsSpec] (canonical paths as lists of names,
      trees that hold a list of files), [VfsReading] (iterating them),
      [VfsBuilder] and [VfsTrees] (what the builder makes), [VfsArena] (an arena that
      satisfies indextree's laws).

    - Planning a materialisation: [LayoutPlanning] ([materialization/layout_planning.rs],
      [pending_file.rs], the limits of [frozen/model.rs]), [LayoutTrees] (admitted targets
      and the tree of a set of layouts), [LayoutCollisions] (computations with a deadline,
      and collisions), [LayoutFrozen], [LayoutTheorems].

    - Preparing a transition: [Coordinator] ([journal_coordinator]: requests, allocation,
      preparation of the candidate, on the journal's record and the state database),
      [StartupEvidence] and [StartupEvidenceTheorems] ([database_evidence.rs],
      [metadata_provenance.rs]: which rows a record admits), [CoordinatorTheorems].

    - Recovering one: [Namespace] ([activation_namespace/policy.rs], [capture/model.rs]:
      the snapshot of the directories and the arrangements a record allows),
      [NamespaceMoves] (the evidence that one movement happened between two snapshots),
      [StartupMachine] (the machine the handlers run on: journal, tables, the visible
      namespace and those a crash may leave; captures, revalidation, durability barriers,
      publication of records), [StartupPlans] (which records and evidence a handler
      takes), [StartupHandlers] (the handlers of a fresh state and [enter], the startup
      gate).  Proofs: [StartupLogic] (a program logic with a crash condition),
      [Arrangements] and [ArrangementMoves] (the namespaces of a transition and the effect
      of each movement), [StartupCheckpoints], [StartupInvariant], [StartupSafety],
      [StartupLiveness], [StartupSamples] (a file system that satisfies the laws, and a
      recovery evaluated on it).

    State is passed explicitly.  Fallible code is in [result]; the store is a program over
    system calls; a database transaction is a computation over the tables and the list of
    statements that fail; a handler of startup is a computation over the machine and the
    list of its operations that fail, take effect and report an error, or crash; the
    frozen plan reads a clock.  Third-party code is a class of
    operations with the laws its documentation gives: JSON and SHA-256 of the codec, zstd
    and XXH3 of archives, petgraph, regular expressions, SQLite and its LIKE operator, chrono, the URL
    parser, indextree, the system calls that move directories.  Each class has an instance, which the witnesses use.

    ** The theorems

    - Recovery of an interrupted activation: whatever fails or crashes in any number of
      startup entries both trees survive and journal, rows and directories agree
      ([entries_keep_both_trees]); twelve entries without faults finish the rollback
      ([rollback_recovery_completes]); records no handler takes are left alone
      ([unattended_records_stay]).

    - Coordinator and state database: wherever preparation stops startup finds stores that
      agree ([coordinator_crash_consistent]); the rows a record admits
      ([admits_iff]); a candidate without provenance is stranded
      ([missing_provenance_strands]); the constraints of the tables
      ([operations_preserve_tables]), additions ([add_exact]) and removals that answer
      truthfully ([fresh_removal_truthful], [archived_removal_truthful]).

    - Records: a finished transition went through every enabled phase in order or had
      exactly its started effects undone ([transition_atomic]); every admitted advance is
      a step of the abstract machine ([advance_refines_outcome]), and on current records
      exactly what the typed constructors build ([successors_exact]); recovery reaches a
      deletable record from every record not parked for repair ([recovery_completes]);
      histories are bounded ([journal_bounded]); rollback actions are resolved in order.

    - Codec and store: valid records and the frames that decode are in bijection
      ([codec_exact]); under any failing call and any crash the canonical name holds the
      old or the new record, what was acknowledged is durable, over any requests and
      crashes the journal holds one history that never goes back, and on a kernel whose
      calls do not fail every admissible operation succeeds.

    - Archives: what the writer emits the reader reads back; whatever the reader accepts
      is tiled by its payloads within every limit; a record field longer than the
      encoder's read size cannot be read back.

    - Relations and metadata: printing and parsing, encoding and decoding are inverse
      exactly where stated, and the strict decoding refines the lenient one.

    - Graphs: no cycle can be built, an edge is refused exactly when it closes one,
      batches are a schedule, a subgraph is what its nodes reach.

    - Triggers: a pattern of wildcards, text and groups matches what its glob describes
      ([pattern_means_glob]), except that a group directly after text is compiled before it
      ([group_before_text]); the handlers of a tree are those its paths hit, once and in
      the order of the constraints ([triggers_scheduled]).

    - Metadata database and registry: the tables refine a map and an optional snapshot,
      all or nothing whatever statement fails; queries return exactly what is stored,
      whatever order rows come in; the registry's two ways to query providers agree.

    - Transactions: adding packages ends, closes under dependencies with nothing
      superfluous, and reports only true errors; removing removes exactly the dependents.

    - Trees: admitted targets are canonical; the tree of a set of layouts is exactly these
      at the paths they declare; a frozen closure is refused exactly when it collides or
      exceeds a limit, and its tree depends neither on the order of packages and rows nor
      on the clock.

    ** Fuel and bounds

    Recursion that is not structural takes fuel, and the theorems show the fuel given is
    enough.  Adding packages takes one round more than there are known packages, since
    each round but the last adds one; batches of a graph take as many rounds as it has
    nodes; the nested elements of a tree go down one level a step and get one step more
    than there are files; walking up a path gets its length.  The reader of an archive and
    the rounds of the writer get the length of their input.  Twelve startup entries suffice
    for a rollback because each entry settles at least one of the checkpoints it can stand
    at, of which there are at most twelve ([ranked]).  Machine integers are [Z] with
    the width written out where the code checks or truncates; lengths of byte strings in
    memory are not bounded.

    ** Not modelled

    The read-only view of the journal and the residue of an interrupted deletion; the
    layout database, and opening or migrating any database; the stateful reader of the C
    interface of archives; reading an archive into the local plugin of the registry; how a
    snapshot of the directories is read from descriptors, which is system calls, as are
    the blit of a tree and the work on mounts, namespaces and boot files; the startup
    handlers of an archived state and of a rebuilt one, which repeat those of a fresh
    state for other operations; evaluation of configuration, triggers and recipes,
    which is third-party engines; running a handler of a trigger, which is a process; the command line and downloads.  A full petgraph graph (2^32
    nodes) and allocation failure are not modelled either. *)

From stdpp Require Export prelude gmap strings.
From Stdlib Require Export Strings.Byte.
From Stdlib Require Import ZifyBool.
Export ListNotations.

Declare Scope cast_scope.
Delimit Scope cast_scope with cast.
Open Scope cast_scope.

(** ** Rust's [Result] *)

Inductive result (E A : Type) : Type :=
  | Ok (a : A)
  | Err (e : E).
Arguments Ok {E A} a.
Arguments Err {E A} e.

#[global] Instance result_ret E : MRet (result E) := fun A a => Ok a.
#[global] Instance result_bind E : MBind (result E) :=
  fun A B f m => match m with Ok a => f a | Err e => Err e end.
#[global] Instance result_fmap E : FMap (result E) :=
  fun A B f m => match m with Ok a => Ok (f a) | Err e => Err e end.
#[global] Instance result_eq_dec E A `{EqDecision E, EqDecision A} : EqDecision (result E A).
Proof. solve_decision. Defined.

(** [if b { return Err(e) }] *)
Definition reject_if {E} (b : bool) (e : E) : result E unit :=
  if b then Err e else Ok tt.
Notation "'reject' e 'when' b" := (reject_if b e)
  (at level 59, e at level 9, b at level 58) : cast_scope.

(** [Option::ok_or] *)
Definition ok_or {E A} (o : option A) (e : E) : result E A :=
  match o with Some a => Ok a | None => Err e end.

(** [Result::map_err] *)
Definition map_err {E F A} (f : E -> F) (m : result E A) : result F A :=
  match m with Ok a => Ok a | Err e => Err (f e) end.

(** [Result::ok] *)
Definition result_ok {E A} (m : result E A) : option A :=
  match m with Ok a => Some a | Err _ => None end.

Definition is_ok {E A} (m : result E A) : bool :=
  match m with Ok _ => true | Err _ => false end.

Section result_lemmas.
Context {E : Type}.

Lemma bind_ok_iff {A B} (m : result E A) (f : A -> result E B) b :
  (m ≫= f) = Ok b <-> exists a, m = Ok a /\ f a = Ok b.
Proof. destruct m; cbn; naive_solver. Qed.

Lemma seq_ok_iff {B} (m : result E unit) (k : result E B) b :
  (m ≫= fun _ => k) = Ok b <-> m = Ok tt /\ k = Ok b.
Proof. destruct m as [[]|]; cbn; naive_solver. Qed.

Lemma reject_ok_iff b (e : E) u : reject_if b e = Ok u <-> b = false.
Proof. destruct b, u; cbn; naive_solver. Qed.

Lemma reject_err_iff b (e e' : E) : reject_if b e = Err e' <-> b = true /\ e = e'.
Proof. destruct b; cbn; naive_solver. Qed.

Lemma ok_or_ok_iff {A} (o : option A) (e : E) a : ok_or o e = Ok a <-> o = Some a.
Proof. destruct o; cbn; naive_solver. Qed.

Lemma map_err_ok_iff {F A} (f : E -> F) (m : result E A) a :
  map_err f m = Ok a <-> m = Ok a.
Proof. destruct m; cbn; naive_solver. Qed.

Lemma is_ok_iff {A} (m : result E A) : is_ok m = true <-> exists a, m = Ok a.
Proof. destruct m; cbn; naive_solver. Qed.
End result_lemmas.

Create HintDb cast.
Create Rewrite HintDb cast.

(** [inv_ok] decomposes every hypothesis that says a monadic computation
    returned [Ok]: each bind, guard, [ok_or] and [map_err] of it. *)
Ltac inv_ok_step :=
  match goal with
  | H : Ok _ = Ok _ |- _ => injection H; clear H; intros; subst
  | H : Ok _ = Err _ |- _ => discriminate H
  | H : Err _ = Ok _ |- _ => discriminate H
  | H : reject_if _ _ = Ok _ |- _ => apply reject_ok_iff in H
  | H : ok_or _ _ = Ok _ |- _ => apply ok_or_ok_iff in H
  | H : map_err _ _ = Ok _ |- _ => apply map_err_ok_iff in H
  | H : mret _ = Ok _ |- _ => unfold mret, result_ret in H
  | H : (_ ≫= _) = Ok _ |- _ =>
      let x := fresh "x" in let H1 := fresh "Hr" in let H2 := fresh "Hr" in
      apply bind_ok_iff in H; destruct H as (x & H1 & H2);
      try match type of x with unit => destruct x end
  end.
Ltac inv_ok := repeat inv_ok_step.

(** Boolean guards to propositions, both in hypotheses and in the goal. *)
Ltac bool_prop :=
  repeat match goal with
  | H : orb _ _ = false |- _ => apply orb_false_iff in H; destruct H
  | H : andb _ _ = true |- _ => apply andb_true_iff in H; destruct H
  | H : negb _ = false |- _ => apply negb_false_iff in H
  | H : negb _ = true |- _ => apply negb_true_iff in H
  | H : bool_decide _ = true |- _ => apply bool_decide_eq_true in H
  | H : bool_decide _ = false |- _ => apply bool_decide_eq_false in H
  | H : (_ =? _)%Z = true |- _ => apply Z.eqb_eq in H
  | H : (_ =? _)%Z = false |- _ => apply Z.eqb_neq in H
  end.

(** [step_ok] runs a monadic goal forward with the hypotheses that decide its
    guards: the converse of [inv_ok]. *)
Ltac step_ok :=
  repeat first
    [ progress cbn [negb orb andb reject_if ok_or map_err mbind result_bind mret result_ret]
    | match goal with
      | H : ?x = Ok _ |- context [?x] => rewrite H
      | H : ?x = true |- context [?x] => rewrite H
      | H : ?x = false |- context [?x] => rewrite H
      | H : ?P |- context [bool_decide ?P] => rewrite (bool_decide_eq_true_2 P H)
      | H : ~ ?P |- context [bool_decide ?P] => rewrite (bool_decide_eq_false_2 P H)
      | H : ?x <> ?y |- context [(?x =? ?y)%Z] => rewrite (proj2 (Z.eqb_neq x y) H)
      | H : ?x = ?y |- context [(?x =? ?y)%Z] => rewrite (proj2 (Z.eqb_eq x y) H)
      end ].

(** A computation that never ends in the error [e]. *)
Definition avoids {E A} (e : E) (m : result E A) : Prop := m <> Err e.

Lemma avoids_bind {E A B} (e : E) (m : result E A) (f : A -> result E B) :
  avoids e m -> (forall a, avoids e (f a)) -> avoids e (m ≫= f).
Proof. unfold avoids. destruct m; cbn; [auto|]. intros H _ [= ->]. by apply H. Qed.

Lemma avoids_reject {E} (e e' : E) b : e' <> e -> avoids e (reject_if b e').
Proof. unfold avoids. destruct b; cbn; congruence. Qed.

Lemma avoids_ok_or {E A} (e e' : E) (o : option A) : e' <> e -> avoids e (ok_or o e').
Proof. unfold avoids. destruct o; cbn; congruence. Qed.

Create HintDb avoids.
Ltac avoid :=
  repeat first
    [ solve [auto with nocore avoids]
    | apply avoids_bind; [|intros ?]
    | apply avoids_reject; discriminate
    | apply avoids_ok_or; discriminate
    | match goal with |- avoids _ (match ?x with _ => _ end) => destruct x end
    | match goal with |- avoids _ (Err _) => discriminate | |- avoids _ (Ok _) => discriminate end ].

(** ** Bytes *)

#[global] Instance byte_eq_dec : EqDecision byte := Byte.byte_eq_dec.
#[global] Program Instance byte_countable : Countable byte :=
  inj_countable Byte.to_N Byte.of_N _.
Next Obligation. exact Byte.of_to_N. Qed.

Abbreviation bytes := (list byte).

(** Text literals of the sources as their UTF-8 bytes. *)
Definition bstr (s : string) : bytes := String.list_byte_of_string s.

Definition byte_Z (b : byte) : Z := Z.of_N (Byte.to_N b).
Definition Z_byte (z : Z) : byte := default x00 (Byte.of_N (Z.to_N (z mod 256))).

Lemma byte_Z_bound b : (0 <= byte_Z b < 256)%Z.
Proof. unfold byte_Z. pose proof (Byte.to_N_bounded b). lia. Qed.

Lemma byte_Z_Z_byte z : byte_Z (Z_byte z) = (z mod 256)%Z.
Proof.
  unfold byte_Z, Z_byte.
  pose proof (Z.mod_pos_bound z 256 ltac:(lia)) as Hb.
  destruct (Byte.of_N (Z.to_N (z mod 256))) as [b|] eqn:Hof; cbn.
  - apply Byte.to_of_N in Hof. rewrite Hof. lia.
  - apply Byte.of_N_None_iff in Hof. lia.
Qed.

Lemma Z_byte_byte_Z b : Z_byte (byte_Z b) = b.
Proof.
  unfold byte_Z, Z_byte. pose proof (Byte.to_N_bounded b).
  rewrite Z.mod_small by lia. rewrite N2Z.id, Byte.of_to_N. done.
Qed.

Lemma byte_Z_inj a b : byte_Z a = byte_Z b -> a = b.
Proof. intros H. rewrite <-(Z_byte_byte_Z a), <-(Z_byte_byte_Z b), H. done. Qed.

(** [u8::is_ascii_digit], [u8::is_ascii_lowercase] and the range test
    [(b'a'..=b'f').contains(byte)] *)
Definition in_byte_range (lo hi b : byte) : bool :=
  ((byte_Z lo <=? byte_Z b) && (byte_Z b <=? byte_Z hi))%Z.
Definition is_ascii_digit (b : byte) : bool := in_byte_range "0" "9" b.
Definition is_ascii_lowercase (b : byte) : bool := in_byte_range "a" "z" b.
Definition is_lower_hex (b : byte) : bool := is_ascii_digit b || in_byte_range "a" "f" b.

(** ** Machine integers *)

Definition in_width (w : Z) (z : Z) : Prop := (0 <= z < 2 ^ w)%Z.
Abbreviation in_u8 := (in_width 8).
Abbreviation in_u16 := (in_width 16).
Abbreviation in_u32 := (in_width 32).
Abbreviation in_u64 := (in_width 64).
Abbreviation in_u128 := (in_width 128).
#[global] Instance in_width_dec w z : Decision (in_width w z).
Proof. unfold in_width. apply _. Defined.

(** [u64::checked_add] and [u64::checked_mul] *)
Definition checked_width (w : Z) (z : Z) : option Z :=
  if (z <? 2 ^ w)%Z then Some z else None.
Definition checked_add (w a b : Z) : option Z := checked_width w (a + b).
Definition checked_mul (w a b : Z) : option Z := checked_width w (a * b).

Lemma checked_width_Some w z z' : checked_width w z = Some z' <-> z' = z /\ (z < 2 ^ w)%Z.
Proof. unfold checked_width. destruct (Z.ltb_spec z (2 ^ w)); naive_solver lia. Qed.

Lemma checked_add_Some w a b z :
  checked_add w a b = Some z <-> z = (a + b)%Z /\ (a + b < 2 ^ w)%Z.
Proof. apply checked_width_Some. Qed.

(** [as uN]: truncation to the width; [as iN]: two's complement. *)
Definition wrap (w z : Z) : Z := (z mod 2 ^ w)%Z.
Definition to_signed (w z : Z) : Z :=
  if (wrap w z <? 2 ^ (w - 1))%Z then wrap w z else (wrap w z - 2 ^ w)%Z.

Lemma wrap_small w z : in_width w z -> wrap w z = z.
Proof. intros H. apply Z.mod_small. exact H. Qed.

Lemma wrap_bound w z : (0 <= w)%Z -> in_width w (wrap w z).
Proof. intros H. apply Z.mod_pos_bound. apply Z.pow_pos_nonneg; lia. Qed.

Lemma to_signed_wrap w z :
  (0 < w)%Z -> (- 2 ^ (w - 1) <= z < 2 ^ (w - 1))%Z -> to_signed w (wrap w z) = z.
Proof.
  intros Hw Hz.
  assert (2 ^ w = 2 * 2 ^ (w - 1))%Z as Hpow.
  { rewrite <-Z.pow_succ_r by lia. f_equal. lia. }
  unfold to_signed, wrap. rewrite Z.mod_mod by lia.
  destruct (decide (0 <= z)%Z).
  - rewrite Z.mod_small by lia. destruct (Z.ltb_spec z (2 ^ (w - 1))); lia.
  - rewrite <-(Z.mod_unique_pos z (2 ^ w) (-1) (z + 2 ^ w)) by lia.
    destruct (Z.ltb_spec (z + 2 ^ w) (2 ^ (w - 1))); lia.
Qed.

(** ** Big-endian integers: [to_be_bytes] and [from_be_bytes] *)

Fixpoint be_bytes (n : nat) (z : Z) : bytes :=
  match n with
  | O => []
  | S n' => Z_byte (z / 256 ^ Z.of_nat n')%Z :: be_bytes n' z
  end.

Fixpoint be_value (bs : bytes) : Z :=
  match bs with
  | [] => 0%Z
  | b :: bs' => (byte_Z b * 256 ^ Z.of_nat (length bs') + be_value bs')%Z
  end.

Lemma length_be_bytes n z : length (be_bytes n z) = n.
Proof. induction n; cbn; congruence. Qed.

Lemma be_value_bound bs : (0 <= be_value bs < 256 ^ Z.of_nat (length bs))%Z.
Proof.
  induction bs as [|b bs IH]; cbn [be_value length]; [lia|].
  rewrite Nat2Z.inj_succ, Z.pow_succ_r by lia.
  pose proof (byte_Z_bound b). nia.
Qed.

Lemma be_value_be_bytes n z : be_value (be_bytes n z) = (z mod 256 ^ Z.of_nat n)%Z.
Proof.
  induction n as [|n IH]; cbn [be_bytes be_value]; [by rewrite Z.mod_1_r|].
  rewrite IH, length_be_bytes, byte_Z_Z_byte, Nat2Z.inj_succ, Z.pow_succ_r by lia.
  rewrite (Z.mul_comm 256), Z.rem_mul_r by lia. lia.
Qed.

Lemma be_bytes_mod n m z :
  (n <= m)%nat -> be_bytes n (z mod 256 ^ Z.of_nat m) = be_bytes n z.
Proof.
  intros Hnm. induction n as [|n IH]; cbn [be_bytes]; [done|].
  f_equal; [|apply IH; lia]. apply byte_Z_inj. rewrite !byte_Z_Z_byte.
  replace (Z.of_nat m) with (Z.of_nat n + (1 + (Z.of_nat m - Z.of_nat n - 1)))%Z by lia.
  rewrite Z.pow_add_r, (Z.pow_add_r 256 1), Z.pow_1_r by lia.
  rewrite Z.rem_mul_r by lia.
  rewrite (Z.mul_comm (256 ^ _)), Z.div_add, Z.div_small, Z.add_0_l by
    (try apply Z.mod_pos_bound; lia).
  rewrite Z.rem_mul_r, (Z.mul_comm 256), Z.mod_add by lia.
  apply Z.mod_mod. lia.
Qed.

Lemma be_bytes_be_value bs : be_bytes (length bs) (be_value bs) = bs.
Proof.
  induction bs as [|b bs IH]; cbn [be_bytes be_value length]; [done|].
  pose proof (be_value_bound bs).
  f_equal.
  - rewrite Z.div_add_l, Z.div_small, Z.add_0_r by lia. apply Z_byte_byte_Z.
  - rewrite <-(be_bytes_mod _ (length bs)) by lia.
    rewrite Z.add_comm, Z.mod_add, be_bytes_mod by lia. exact IH.
Qed.

Lemma be_bytes_value n bs : length bs = n -> be_bytes n (be_value bs) = bs.
Proof. intros <-. apply be_bytes_be_value. Qed.

Lemma be_value_inj bs1 bs2 :
  length bs1 = length bs2 -> be_value bs1 = be_value bs2 -> bs1 = bs2.
Proof.
  intros Hl Hv. rewrite <-(be_bytes_be_value bs1), <-(be_bytes_be_value bs2).
  by rewrite Hl, Hv.
Qed.

Lemma pow256 n : (256 ^ Z.of_nat n = 2 ^ (8 * Z.of_nat n))%Z.
Proof. rewrite Z.pow_mul_r by lia. done. Qed.

Lemma be_round_trip n z :
  in_width (8 * Z.of_nat n) z -> be_value (be_bytes n z) = z.
Proof. intros H. rewrite be_value_be_bytes, pow256. by apply wrap_small. Qed.

#[export] Hint Rewrite length_be_bytes be_value_be_bytes @length_app @length_cons : cast.

(** ** Lists *)

Section list_lemmas.
Context {A : Type}.

(** [slice.split_at(n)] on a concatenation whose first part has length [n] *)
Lemma take_app_exact (l1 l2 : list A) n : n = length l1 -> take n (l1 ++ l2) = l1.
Proof. intros ->. apply take_app_length. Qed.

Lemma drop_app_exact (l1 l2 : list A) n : n = length l1 -> drop n (l1 ++ l2) = l2.
Proof. intros ->. apply drop_app_length. Qed.

Lemma forallb_forall_iff (p : A -> bool) l :
  forallb p l = true <-> Forall (fun x => p x = true) l.
Proof. rewrite forallb_forall, Forall_forall. setoid_rewrite list_elem_of_In. done. Qed.
End list_lemmas.

(** ** UTF-8

    [str::from_utf8] accepts exactly the well-formed sequences of the Unicode
    standard: one to four bytes per scalar value, no surrogates, no overlong forms,
    nothing above U+10FFFF.  A Rust [String] is a byte list with [utf8_valid]. *)

Definition in_Z_range (lo hi : Z) (b : byte) : bool := ((lo <=? byte_Z b) && (byte_Z b <=? hi))%Z.
Definition utf8_cont (b : byte) : bool := in_Z_range 0x80 0xBF b.
Definition is_ascii (b : byte) : bool := (byte_Z b <? 128)%Z.

Definition utf8_second3 (first next : byte) : bool :=
  (in_Z_range 0xE0 0xE0 first && in_Z_range 0xA0 0xBF next)
  || (in_Z_range 0xE1 0xEC first && in_Z_range 0x80 0xBF next)
  || (in_Z_range 0xED 0xED first && in_Z_range 0x80 0x9F next)
  || (in_Z_range 0xEE 0xEF first && in_Z_range 0x80 0xBF next).

Definition utf8_second4 (first next : byte) : bool :=
  (in_Z_range 0xF0 0xF0 first && in_Z_range 0x90 0xBF next)
  || (in_Z_range 0xF1 0xF3 first && in_Z_range 0x80 0xBF next)
  || (in_Z_range 0xF4 0xF4 first && in_Z_range 0x80 0x8F next).

Fixpoint utf8_valid (bs : bytes) : bool :=
  match bs with
  | [] => true
  | b0 :: t0 =>
      if is_ascii b0 then utf8_valid t0
      else if in_Z_range 0xC2 0xDF b0 then
        match t0 with
        | b1 :: t1 => utf8_cont b1 && utf8_valid t1
        | [] => false
        end
      else if in_Z_range 0xE0 0xEF b0 then
        match t0 with
        | b1 :: b2 :: t2 => utf8_second3 b0 b1 && utf8_cont b2 && utf8_valid t2
        | _ => false
        end
      else if in_Z_range 0xF0 0xF4 b0 then
        match t0 with
        | b1 :: b2 :: b3 :: t3 =>
            utf8_second4 b0 b1 && utf8_cont b2 && utf8_cont b3 && utf8_valid t3
        | _ => false
        end
      else false
  end.

(** [String::from_utf8] *)
Definition from_utf8 (bs : bytes) : option bytes := if utf8_valid bs then Some bs else None.

Lemma utf8_valid_app_iff a b : utf8_valid a = true -> utf8_valid (a ++ b) = utf8_valid b.
Proof.
  induction a as [a IH] using (induction_ltof1 _ length); unfold ltof in IH.
  destruct a as [|b0 t0]; [done|]. cbn [utf8_valid app].
  destruct (is_ascii b0); [intros; apply IH; cbn; (done || lia)|].
  destruct (in_Z_range 0xC2 0xDF b0).
  { destruct t0 as [|b1 t1]; [done|]. cbn [app].
    destruct (utf8_cont b1); [|done]. intros; apply IH; cbn; (done || lia). }
  destruct (in_Z_range 0xE0 0xEF b0).
  { destruct t0 as [|b1 [|b2 t2]]; [done..|]. cbn [app].
    destruct (utf8_second3 b0 b1), (utf8_cont b2); cbn; try done.
    intros; apply IH; cbn; (done || lia). }
  destruct (in_Z_range 0xF0 0xF4 b0); [|done].
  destruct t0 as [|b1 [|b2 [|b3 t3]]]; [done..|]. cbn [app].
  destruct (utf8_second4 b0 b1), (utf8_cont b2), (utf8_cont b3); cbn; try done.
  intros; apply IH; cbn; (done || lia).
Qed.

Lemma utf8_valid_ascii bs : forallb is_ascii bs = true -> utf8_valid bs = true.
Proof.
  induction bs as [|b bs IH]; [done|]; cbn [forallb utf8_valid].
  destruct (is_ascii b); cbn [andb]; [exact IH | done].
Qed.
