(* ===== verification/ByteStrings.v ===== *)
(** * Operations of [str]

    The operations of Rust's [str] and [[u8]] the sources call on ASCII patterns, over
    byte strings: a pattern of ASCII bytes is found at the same places in the bytes of a
    string as in its characters. *)

From S2P Require Import Prelude.

(** [strip_prefix] of a string *)
Fixpoint strip_prefix (prefix s : bytes) : option bytes :=
  match prefix, s with
  | [], _ => Some s
  | a :: prefix', b :: s' => if bool_decide (a = b) then strip_prefix prefix' s' else None
  | _ :: _, [] => None
  end.

(** [contains] of a character and of a string *)
Definition contains (c : byte) (s : bytes) : bool := existsb (fun b => bool_decide (b = c)) s.

Fixpoint contains_str (needle s : bytes) : bool :=
  bool_decide (is_Some (strip_prefix needle s))
  || match s with
     | [] => false
     | _ :: s' => contains_str needle s'
     end.

(** [split_once] at a character *)
Fixpoint split_once (c : byte) (s : bytes) : option (bytes * bytes) :=
  match s with
  | [] => None
  | b :: s' =>
      if bool_decide (b = c) then Some ([], s')
      else p ← split_once c s'; Some (b :: p.1, p.2)
  end.

(** [split] at a character: never empty *)
Fixpoint split (c : byte) (s : bytes) : list bytes :=
  match s with
  | [] => [[]]
  | b :: s' =>
      if bool_decide (b = c) then [] :: split c s'
      else match split c s' with
           | w :: ws => (b :: w) :: ws
           | [] => [[b]]
           end
  end.

(** [is_char_boundary], and [get] of a range of bytes *)
Definition is_char_boundary (s : bytes) (i : nat) : bool :=
  (i =? 0)%nat || match s !! i with Some b => negb (utf8_cont b) | None => (i =? length s)%nat end.

Definition str_get (s : bytes) (a b : nat) : option bytes :=
  if (a <=? b)%nat && is_char_boundary s a && is_char_boundary s b then Some (take (b - a) (drop a s)) else None.

(** [starts_with] and [ends_with] of a character, and the string without its last byte *)
Definition starts_with (c : byte) (s : bytes) : bool := bool_decide (head s = Some c).
Definition ends_with (c : byte) (s : bytes) : bool := bool_decide (last s = Some c).
Definition but_last (s : bytes) : bytes := take (length s - 1) s.

(** [rfind] of a character *)
Fixpoint rfind (c : byte) (s : bytes) : option nat :=
  match s with
  | [] => None
  | b :: s' =>
      match rfind c s' with
      | Some i => Some (S i)
      | None => if bool_decide (b = c) then Some 0%nat else None
      end
  end.

(** [matches(c).count()] *)
Definition count (c : byte) (s : bytes) : nat := length (filter (fun b => b = c) s).

(** [format!("{value:0width$x}")] *)
Definition HEX : bytes := bstr "0123456789abcdef".
Definition hex_digit (n : Z) : byte := default x00 (HEX !! Z.to_nat n).
Fixpoint hex_digits (width : nat) (value : Z) : bytes :=
  match width with
  | 0%nat => []
  | S w => hex_digits w (value / 16) ++ [hex_digit (value mod 16)]
  end.

(** The strings joined with a character between them, inverse to [split]. *)
Fixpoint join_with (c : byte) (ws : list bytes) : bytes :=
  match ws with
  | [] => []
  | [w] => w
  | w :: ws' => w ++ c :: join_with c ws'
  end.

Lemma strip_prefix_app p s : strip_prefix p (p ++ s) = Some s.
Proof. induction p as [|x p IH]; cbn; [done|]. by rewrite bool_decide_eq_true_2. Qed.

Lemma strip_prefix_Some p s r : strip_prefix p s = Some r <-> s = p ++ r.
Proof.
  split; [|intros ->; apply strip_prefix_app]. revert s. induction p as [|x p IH]; intros s; cbn; [by intros [= ->]|].
  destruct s as [|y s]; [done|]. destruct (decide (x = y)) as [-> |]; [|by rewrite bool_decide_eq_false_2].
  rewrite bool_decide_eq_true_2 by done. by intros ->%IH.
Qed.

Lemma contains_false c s : contains c s = false <-> c ∉ s.
Proof.
  induction s as [|b s IH]; cbn; [split; [intros _; apply not_elem_of_nil|done]|].
  rewrite orb_false_iff, IH, not_elem_of_cons, bool_decide_eq_false. intuition congruence.
Qed.

Lemma contains_true c s : contains c s = true <-> c ∈ s.
Proof.
  rewrite <- not_false_iff_true, contains_false. split; [|tauto].
  destruct (decide (c ∈ s)); tauto.
Qed.

Lemma contains_str_false n s : contains_str n s = false <-> forall a b, s <> a ++ n ++ b.
Proof.
  induction s as [|x s IH]; cbn; rewrite orb_false_iff, bool_decide_eq_false.
  - split.
    + intros [H _] a b E. symmetry in E. apply app_nil in E as [-> E]. apply H. exists b. by apply strip_prefix_Some.
    + intros H. split; [|done]. intros [r Hr%strip_prefix_Some]. by apply (H [] r).
  - rewrite IH. split.
    + intros [H Hs] [|y a] b E; [apply H; exists b; by apply strip_prefix_Some|]. injection E as -> E. by eapply Hs.
    + intros H. split; [intros [r Hr%strip_prefix_Some]; by apply (H [] r)|].
      intros a b ->. by apply (H (x :: a) b).
Qed.

Lemma split_once_Some c s a b : split_once c s = Some (a, b) <-> s = a ++ c :: b /\ c ∉ a.
Proof.
  split.
  - revert a. induction s as [|x s IH]; intros a; cbn; [done|]. case_bool_decide as E.
    + subst x. intros [= <- <-]. split; [done|apply not_elem_of_nil].
    + destruct (split_once c s) as [[a' b']|]; cbn; [|done]. intros [= <- <-].
      destruct (IH a' eq_refl) as [-> ?]. split; [done|set_solver].
  - intros [-> Hn]. induction a as [|x a IH]; cbn; [by rewrite bool_decide_eq_true_2|].
    apply not_elem_of_cons in Hn as [Hx Hn]. rewrite bool_decide_eq_false_2 by done.
    by rewrite IH.
Qed.

Lemma split_plain c w : c ∉ w -> split c w = [w].
Proof.
  induction w as [|b w IH]; intros Hw; cbn; [done|]. apply not_elem_of_cons in Hw as [Hb Hw].
  by rewrite bool_decide_eq_false_2, IH by congruence.
Qed.

Lemma split_nonempty c s : split c s <> [].
Proof. destruct s as [|b s]; cbn; [done|]. case_bool_decide; [done|]. by destruct (split c s). Qed.

Lemma split_app c a s : split c (a ++ c :: s) = split c a ++ split c s.
Proof.
  induction a as [|b a IH]; cbn; [by rewrite bool_decide_eq_true_2|].
  case_bool_decide; rewrite IH; [done|]. pose proof (split_nonempty c a). by destruct (split c a).
Qed.

Lemma split_parts c s : Forall (fun w => c ∉ w) (split c s).
Proof.
  induction s as [|b s IH]; cbn; [repeat constructor; apply not_elem_of_nil|].
  case_bool_decide as E; [constructor; [apply not_elem_of_nil|done]|].
  destruct (split c s) as [|w ws]; [repeat constructor; apply not_elem_of_cons; split; [congruence|apply not_elem_of_nil]|].
  apply Forall_cons in IH as [Hw Hws]. constructor; [|done]. apply not_elem_of_cons. split; [congruence|done].
Qed.

Lemma join_split c s : join_with c (split c s) = s.
Proof.
  induction s as [|b s IH]; cbn; [done|]. pose proof (split_nonempty c s) as Hs. case_bool_decide as E.
  - subst. destruct (split c s); [done|]. cbn. by rewrite <- IH.
  - destruct (split c s) as [|w ws]; [done|]. rewrite <- IH. by destruct ws.
Qed.

Lemma split_join c ws : ws <> [] -> Forall (fun w => c ∉ w) ws -> split c (join_with c ws) = ws.
Proof.
  induction ws as [|w ws IH]; [done|]. intros _ [Hw Hws]%Forall_cons.
  destruct ws as [|w' ws]; [by apply split_plain|]. change (split c (w ++ c :: join_with c (w' :: ws)) = w :: w' :: ws).
  by rewrite split_app, split_plain, IH.
Qed.

Lemma join_with_app c ws vs :
  ws <> [] -> vs <> [] -> join_with c (ws ++ vs) = join_with c ws ++ c :: join_with c vs.
Proof.
  intros Hw Hv. induction ws as [|w ws IH]; [done|]. destruct ws as [|w' ws]; [by destruct vs|].
  change (w ++ c :: join_with c ((w' :: ws) ++ vs) = (w ++ c :: join_with c (w' :: ws)) ++ c :: join_with c vs).
  by rewrite IH, <- app_assoc.
Qed.

Lemma starts_with_true c s : starts_with c s = true <-> exists r, s = c :: r.
Proof.
  unfold starts_with. rewrite bool_decide_eq_true. destruct s as [|b s]; cbn; [split; [done|by intros []]|].
  split; [intros [= ->]; by eexists|]. by intros [r [= -> ->]].
Qed.

Lemma ends_with_true c s : ends_with c s = true <-> exists r, s = r ++ [c].
Proof. unfold ends_with. by rewrite bool_decide_eq_true, last_Some. Qed.

Lemma but_last_snoc s c : but_last (s ++ [c]) = s.
Proof. unfold but_last. rewrite length_app. apply take_app_length'. cbn. lia. Qed.

Lemma but_last_app c s : ends_with c s = true <-> s = but_last s ++ [c].
Proof.
  rewrite ends_with_true. split; [|by eexists]. intros [r ->]. by rewrite but_last_snoc.
Qed.

Lemma ends_with_snoc c s : ends_with c (s ++ [c]) = true.
Proof. apply ends_with_true. by eexists. Qed.

Lemma rfind_None c s : rfind c s = None <-> c ∉ s.
Proof.
  induction s as [|b s IH]; cbn; [split; [intros _; apply not_elem_of_nil|done]|].
  rewrite not_elem_of_cons, <- IH. destruct (rfind c s); [naive_solver|]. case_bool_decide; naive_solver.
Qed.

Lemma rfind_last c a b : c ∉ b -> rfind c (a ++ c :: b) = Some (length a).
Proof.
  intros Hb. induction a as [|x a IH]; cbn; [|by rewrite IH].
  by rewrite (proj2 (rfind_None c b) Hb), bool_decide_eq_true_2.
Qed.

Lemma count_app c a b : count c (a ++ b) = (count c a + count c b)%nat.
Proof. unfold count. by rewrite filter_app, length_app. Qed.

Lemma count_absent c s : c ∉ s -> count c s = 0%nat.
Proof.
  unfold count. induction s as [|b s IH]; [done|]. intros [Hb Hs]%not_elem_of_cons.
  rewrite filter_cons_False by congruence. by apply IH.
Qed.

(** ** Hexadecimal digits *)

Lemma hex_digit_lower k : (0 <= k < 16)%Z -> is_lower_hex (hex_digit k) = true.
Proof.
  intros Hk. assert (forallb (fun n => is_lower_hex (hex_digit (Z.of_nat n))) (seq 0 16) = true) as H
    by (vm_compute; reflexivity).
  rewrite forallb_forall in H. specialize (H (Z.to_nat k)). rewrite Z2Nat.id in H by lia.
  apply H, in_seq. lia.
Qed.

Lemma hex_digits_spec w z :
  length (hex_digits w z) = w /\ forallb is_lower_hex (hex_digits w z) = true.
Proof.
  revert z. induction w as [|w IH]; intros z; cbn [hex_digits]; [done|].
  destruct (IH (z / 16)%Z) as [Hl Hf]. rewrite length_app, Hl, forallb_app, Hf. cbn.
  rewrite hex_digit_lower by (apply Z.mod_pos_bound; lia). split; [lia|done].
Qed.

Lemma hex_digit_inj j k : (0 <= j < 16)%Z -> (0 <= k < 16)%Z -> hex_digit j = hex_digit k -> j = k.
Proof.
  intros Hj Hk. assert (forallb (fun m => forallb (fun n =>
    implb (bool_decide (hex_digit (Z.of_nat m) = hex_digit (Z.of_nat n))) (m =? n)%nat) (seq 0 16)) (seq 0 16) = true) as H
    by (by vm_compute).
  rewrite forallb_forall in H. specialize (H (Z.to_nat j) ltac:(apply in_seq; lia)). rewrite forallb_forall in H.
  specialize (H (Z.to_nat k) ltac:(apply in_seq; lia)). rewrite !Z2Nat.id in H by lia. intros E.
  rewrite bool_decide_eq_true_2 in H by done. apply Nat.eqb_eq in H. lia.
Qed.

Lemma hex_digits_inj w z z' :
  (0 <= z < 16 ^ Z.of_nat w)%Z -> (0 <= z' < 16 ^ Z.of_nat w)%Z -> hex_digits w z = hex_digits w z' -> z = z'.
Proof.
  revert z z'. induction w as [|w IH]; intros z z' Hz Hz' E; [cbn in Hz, Hz'; lia|].
  rewrite Nat2Z.inj_succ, Z.pow_succ_r in Hz, Hz' by lia. cbn [hex_digits] in E. apply app_inj_tail in E as [E1 E2].
  apply IH in E1; [|split; [apply Z.div_pos; lia|apply Z.div_lt_upper_bound; lia]..].
  apply hex_digit_inj in E2; [|apply Z.mod_pos_bound; lia..].
  rewrite (Z.div_mod z 16), (Z.div_mod z' 16), E1, E2 by lia. done.
Qed.
