(* ===== verification/JournalModel.v ===== *)
(** * The transition record: data of the crash journal

    The types of [crates/forge/src/transition_journal/model.rs], with the text
    identifiers they are built from ([QuarantineName], [BootId], [TreeToken] of the
    same file and [TransitionId] of [crates/forge/src/state.rs]), the receipt
    fingerprints of [boot_publication.rs], the errors of
    [transition_journal/codec.rs], and [parse_boot_id_bytes] of
    [transition_journal/runtime_evidence.rs].  Rust's unsigned and signed integers
    are [Z]; a Rust [String] is its UTF-8 bytes. *)

From S2P Require Import Prelude ByteStrings.

(** ** Limits and versions ([codec.rs]) *)

Definition MAX_QUARANTINE_NAME_BYTES : nat := 128.
Definition PAYLOAD_FORMAT : bytes := bstr "cast-state-transition".
Definition PAYLOAD_VERSION_V1 : Z := 1.
Definition PAYLOAD_VERSION_V2 : Z := 2.
Definition PAYLOAD_VERSION : Z := 3.

(** ** Enumerations *)

Inductive Operation := NewState | ActivateArchived | ActiveReblit.

Module CandidateOrigin.
Inductive t := Fresh | Archived | ActiveReblit.
End CandidateOrigin.

Module PreviousOrigin.
Inductive t := ActiveState | ActiveReblitCorrupt | SynthesizedEmpty | Unmanaged.
End PreviousOrigin.

Module AbortDisposition.
Inductive t := Rearchive | Quarantine.
End AbortDisposition.

Module CommitDisposition.
Inductive t := Archive | Discard | Quarantine.
End CommitDisposition.

Module Phase.
Inductive t :=
  | Preparing
  | FreshStateAllocating
  | FreshStateAllocated
  | CandidatePrepareStarted
  | CandidatePrepared
  | TransactionTriggersStarted
  | TransactionTriggersComplete
  | UsrExchangeIntent
  | UsrExchanged
  | RootLinksComplete
  | SystemTriggersStarted
  | SystemTriggersComplete
  | PreviousArchiveIntent
  | PreviousArchived
  | BootSyncStarted
  | BootSyncComplete
  | CommitDecided
  | CommitCleanupComplete
  | Complete
  | RollbackDecided
  | PreviousRestoreIntent
  | PreviousRestoredToStaging
  | ReverseExchangeIntent
  | UsrRestored
  | CandidatePreserveIntent
  | CandidatePreserved
  | FreshDbInvalidationIntent
  | FreshDbInvalidated
  | BootRepairRequired
  | BootRepairStarted
  | BootRepairComplete
  | BootRepairUnverified
  | RollbackComplete.
End Phase.

Module ForwardPhase.
Inductive t :=
  | Preparing
  | FreshStateAllocating
  | FreshStateAllocated
  | CandidatePrepareStarted
  | CandidatePrepared
  | TransactionTriggersStarted
  | TransactionTriggersComplete
  | UsrExchangeIntent
  | UsrExchanged
  | RootLinksComplete
  | SystemTriggersStarted
  | SystemTriggersComplete
  | PreviousArchiveIntent
  | PreviousArchived
  | BootSyncStarted
  | BootSyncComplete
  | CommitDecided
  | CommitCleanupComplete
  | Complete.
End ForwardPhase.

Module RollbackAction.
Inductive t := NotRequired | Pending | Applied | AlreadySatisfied.
End RollbackAction.

Module BootRollback.
Inductive t := NotRequired | PendingUnverifiable | Applied | AlreadySatisfied | Unverified.
End BootRollback.

#[global] Instance Operation_eq_dec : EqDecision Operation.
Proof. solve_decision. Defined.
#[global] Instance CandidateOrigin_eq_dec : EqDecision CandidateOrigin.t.
Proof. solve_decision. Defined.
#[global] Instance PreviousOrigin_eq_dec : EqDecision PreviousOrigin.t.
Proof. solve_decision. Defined.
#[global] Instance AbortDisposition_eq_dec : EqDecision AbortDisposition.t.
Proof. solve_decision. Defined.
#[global] Instance Phase_eq_dec : EqDecision Phase.t.
Proof. solve_decision. Defined.
#[global] Instance ForwardPhase_eq_dec : EqDecision ForwardPhase.t.
Proof. solve_decision. Defined.
#[global] Instance RollbackAction_eq_dec : EqDecision RollbackAction.t.
Proof. solve_decision. Defined.
#[global] Instance BootRollback_eq_dec : EqDecision BootRollback.t.
Proof. solve_decision. Defined.

(** ** Errors ([CodecError] of [codec.rs]); the payload of [serde_json::Error]
    is not kept. *)

Module CodecError.
Inductive t :=
  | RecordTooLarge (size : Z)
  | TruncatedHeader (size : Z)
  | InvalidMagic
  | UnsupportedFrameVersion (version : Z)
  | LengthMismatch (declared actual : Z)
  | ChecksumMismatch
  | Json
  | NonCanonicalPayload
  | UnsupportedPayloadFormat (format : bytes)
  | UnsupportedPayloadVersion (version : Z)
  | PayloadVersionPhaseMismatch (version : Z) (phase : Phase.t)
  | PayloadVersionBootRollbackMismatch (version : Z) (status : BootRollback.t)
  | PayloadVersionBootPublicationReceiptsMismatch (version : Z)
  | BootPublicationReceiptPresenceMismatch (phase : Phase.t) (required : bool)
  | ZeroGeneration
  | GenerationExhausted
  | GenerationMismatch (expected actual : Z)
  | InvalidBootId
  | InvalidTreeToken
  | InvalidQuarantineName
  | InvalidStateId (id : Z)
  | OperationOriginMismatch (operation : Operation) (origin : CandidateOrigin.t)
  | ExistingCandidateStateMissing
  | CandidateStateLayout
  | ActiveReblitStateMismatch
  | ArchivedActivationStateMismatch
  | PreviousOriginStateMismatch (origin : PreviousOrigin.t) (state_id : option Z)
  | PreviousOriginOperationMismatch (operation : Operation) (origin : PreviousOrigin.t)
  | ArchiveOptionMismatch (origin : PreviousOrigin.t) (archive_previous : bool)
  | ZeroMountNamespaceIdentity
  | ZeroRuntimeTreeIdentity
  | RollbackPlanOnForwardPhase
  | MissingRollbackPlan
  | InvalidRollbackSource (source : ForwardPhase.t)
  | DisabledPhase (phase : Phase.t)
  | FreshPhaseForExistingCandidate
  | CandidatePreviousTreeTokenCollision
  | CandidatePreviousObjectCollision
  | CandidatePreviousFilesystemMismatch (candidate previous : Z)
  | CandidatePreviousMountMismatch (candidate previous : Z)
  | CandidatePreviousStateCollision
  | InvalidRollbackRequirement (action : bytes) (status : RollbackAction.t) (possible : bool)
  | InvalidBootRollbackRequirement
  | InvalidCandidateDisposition (operation : Operation) (rollback_source : ForwardPhase.t)
      (expected actual : AbortDisposition.t)
  | InvalidExternalEffectsEvidence (expected actual : bool)
  | RollbackPlanPhaseMismatch (phase : Phase.t)
  | TransitionChanged
  | ImmutableTransitionDataChanged
  | TerminalPhaseAdvance
  | IllegalPhaseAdvance (current next : Phase.t)
  | RollbackPlanChangedIllegally
  | RollbackActionOutcomeMismatch
  | ExplicitBootRepairSuccessorRequired (phase : Phase.t)
  | ExplicitBootSyncStartedSuccessorRequired
  | ExplicitBootSyncCompleteSuccessorRequired
  | BootPublicationReceiptsChangedIllegally
  | CandidateStateChangedIllegally.
End CodecError.

Abbreviation codec := (result CodecError.t).

(** ** Text identifiers *)

Record QuarantineName := { quarantine_text : bytes }.
Record BootId := { boot_id_text : bytes }.
Record TreeToken := { tree_token_text : bytes }.
Record TransitionId := { transition_id_text : bytes }.

#[global] Instance QuarantineName_eq_dec : EqDecision QuarantineName.
Proof. solve_decision. Defined.
#[global] Instance BootId_eq_dec : EqDecision BootId.
Proof. solve_decision. Defined.
#[global] Instance TreeToken_eq_dec : EqDecision TreeToken.
Proof. solve_decision. Defined.
#[global] Instance TransitionId_eq_dec : EqDecision TransitionId.
Proof. solve_decision. Defined.

Definition quarantine_byte_forbidden (b : byte) : bool :=
  negb (is_ascii_lowercase b) && negb (is_ascii_digit b)
  && negb (bool_decide (b = "-"%byte \/ b = "_"%byte \/ b = "."%byte)).

Definition QuarantineName_parse (value : bytes) : codec QuarantineName :=
  if bool_decide (value = [])
     || (MAX_QUARANTINE_NAME_BYTES <? length value)%nat
     || bool_decide (value = bstr ".")
     || bool_decide (value = bstr "..")
     || existsb quarantine_byte_forbidden value
  then Err CodecError.InvalidQuarantineName
  else Ok {| quarantine_text := value |}.

Definition BootId_TEXT_LENGTH : nat := 36.

Definition boot_id_position (index : nat) (b : byte) : bool :=
  if bool_decide (index = 8 \/ index = 13 \/ index = 18 \/ index = 23)%nat
  then bool_decide (b = "-"%byte)
  else is_lower_hex b.

Definition BootId_validate (id : BootId) : codec unit :=
  let text := boot_id_text id in
  let canonical := (length text =? BootId_TEXT_LENGTH)%nat
    && forallb (fun '(i, b) => boot_id_position i b) (imap pair text) in
  let nonzero := existsb (fun b => negb (bool_decide (b = "0"%byte \/ b = "-"%byte))) text in
  if negb canonical || negb nonzero then Err CodecError.InvalidBootId else Ok tt.

Definition BootId_parse (value : bytes) : codec BootId :=
  BootId_validate {| boot_id_text := value |};;
  Ok {| boot_id_text := value |}.

Definition TreeToken_TEXT_LENGTH : nat := 32.
Definition RANDOM_BYTES : nat := 16.

Definition TreeToken_validate (token : TreeToken) : codec unit :=
  let text := tree_token_text token in
  if negb (length text =? TreeToken_TEXT_LENGTH)%nat
     || negb (forallb is_lower_hex text)
     || forallb (fun b => bool_decide (b = "0"%byte)) text
  then Err CodecError.InvalidTreeToken
  else Ok tt.

Definition TreeToken_parse (value : bytes) : codec TreeToken :=
  TreeToken_validate {| tree_token_text := value |};;
  Ok {| tree_token_text := value |}.

Definition TransitionId_TEXT_LENGTH : nat := 32.

Definition TransitionId_parse (value : bytes) : option TransitionId :=
  if negb (length value =? TransitionId_TEXT_LENGTH)%nat || negb (forallb is_lower_hex value)
  then None
  else Some {| transition_id_text := value |}.

(** The hexadecimal spelling both [generate] functions give the random bytes. *)
Definition hex_encode (random : bytes) : bytes :=
  b ← random; [hex_digit (Z.shiftr (byte_Z b) 4); hex_digit (Z.land (byte_Z b) 15)].

(** [TreeToken::generate] and [TransitionId::generate], given the sixteen bytes
    [getrandom] filled in; [None] is the [io::Error] of a noncanonical spelling. *)
Definition TreeToken_generate (random : bytes) : option TreeToken :=
  result_ok (TreeToken_parse (hex_encode random)).
Definition TransitionId_generate (random : bytes) : option TransitionId :=
  TransitionId_parse (hex_encode random).

(** [parse_boot_id_bytes] of [runtime_evidence.rs]: the boot-ID file is exactly
    one newline-terminated identifier. *)
Inductive RuntimeEvidenceError :=
  | NoncanonicalBootIdFile
  | EvidenceInvalidBootId (source : CodecError.t).

Definition BOOT_ID_FILE_BYTES : nat := BootId_TEXT_LENGTH + 1.

Definition parse_boot_id_bytes (file : bytes) : result RuntimeEvidenceError BootId :=
  reject NoncanonicalBootIdFile when
    (negb (length file =? BOOT_ID_FILE_BYTES)%nat || negb (bool_decide (last file = Some x0a)));;
  value ← ok_or (from_utf8 (take BootId_TEXT_LENGTH file)) NoncanonicalBootIdFile;
  map_err EvidenceInvalidBootId (BootId_parse value).

(** ** Identities and records *)

Record MountNamespaceIdentity := { mns_st_dev : Z; mns_inode : Z }.
Record RuntimeEpoch := { epoch_boot_id : BootId; epoch_mount_namespace : MountNamespaceIdentity }.
Record RuntimeTreeIdentity := { rti_st_dev : Z; rti_inode : Z; rti_mount_id : Z }.

Record Candidate := {
  cand_id : option Z;
  cand_origin : CandidateOrigin.t;
  cand_tree_token : TreeToken;
  cand_usr_runtime_identity : RuntimeTreeIdentity;
}.

Record Previous := {
  prev_id : option Z;
  prev_tree_token : TreeToken;
  prev_usr_runtime_identity : RuntimeTreeIdentity;
  prev_origin : PreviousOrigin.t;
}.

Record TransitionOptions := {
  archive_previous : bool;
  run_system_triggers : bool;
  run_boot_sync : bool;
}.

Record CandidateRollback := {
  cr_action : RollbackAction.t;
  cr_disposition : AbortDisposition.t;
}.

Record RollbackPlan := {
  rp_source : ForwardPhase.t;
  rp_previous_archive : RollbackAction.t;
  rp_usr_exchange : RollbackAction.t;
  rp_candidate : CandidateRollback;
  rp_fresh_db : RollbackAction.t;
  rp_boot : BootRollback.t;
  rp_external_effects_may_remain : bool;
}.

(** [boot_publication.rs]: SHA-256 fingerprints of the committed and the pending
    receipt. *)
Record BootPublicationReceiptPair := {
  receipt_committed : option bytes;
  receipt_pending : bytes;
}.

Record TransitionRecord := {
  format : bytes;
  version : Z;
  generation : Z;
  transition_id : TransitionId;
  creation_epoch : RuntimeEpoch;
  operation : Operation;
  phase : Phase.t;
  rollback : option RollbackPlan;
  boot_publication_receipts : option BootPublicationReceiptPair;
  candidate : Candidate;
  previous : Previous;
  options : TransitionOptions;
  quarantine_name : QuarantineName;
}.

#[global] Instance MountNamespaceIdentity_eq_dec : EqDecision MountNamespaceIdentity.
Proof. solve_decision. Defined.
#[global] Instance RuntimeEpoch_eq_dec : EqDecision RuntimeEpoch.
Proof. solve_decision. Defined.
#[global] Instance RuntimeTreeIdentity_eq_dec : EqDecision RuntimeTreeIdentity.
Proof. solve_decision. Defined.
#[global] Instance Candidate_eq_dec : EqDecision Candidate.
Proof. solve_decision. Defined.
#[global] Instance Previous_eq_dec : EqDecision Previous.
Proof. solve_decision. Defined.
#[global] Instance TransitionOptions_eq_dec : EqDecision TransitionOptions.
Proof. solve_decision. Defined.
#[global] Instance CandidateRollback_eq_dec : EqDecision CandidateRollback.
Proof. solve_decision. Defined.
#[global] Instance RollbackPlan_eq_dec : EqDecision RollbackPlan.
Proof. solve_decision. Defined.
#[global] Instance BootPublicationReceiptPair_eq_dec : EqDecision BootPublicationReceiptPair.
Proof. solve_decision. Defined.
#[global] Instance TransitionRecord_eq_dec : EqDecision TransitionRecord.
Proof. solve_decision. Defined.

(** Functional updates the successor constructors make on a cloned record. *)

Definition set_candidate_id (id : option Z) (c : Candidate) : Candidate :=
  {| cand_id := id; cand_origin := cand_origin c; cand_tree_token := cand_tree_token c;
     cand_usr_runtime_identity := cand_usr_runtime_identity c |}.

Definition with_step (g : Z) (p : Phase.t) (rb : option RollbackPlan)
    (receipts : option BootPublicationReceiptPair) (id : option Z)
    (r : TransitionRecord) : TransitionRecord :=
  {| format := format r; version := version r; generation := g;
     transition_id := transition_id r; creation_epoch := creation_epoch r;
     operation := operation r; phase := p; rollback := rb;
     boot_publication_receipts := receipts; candidate := set_candidate_id id (candidate r);
     previous := previous r; options := options r; quarantine_name := quarantine_name r |}.

(** [TransitionRecord::commit_disposition] *)
Definition commit_disposition (r : TransitionRecord) : CommitDisposition.t :=
  match prev_origin (previous r) with
  | PreviousOrigin.ActiveState => CommitDisposition.Archive
  | PreviousOrigin.ActiveReblitCorrupt | PreviousOrigin.SynthesizedEmpty =>
      CommitDisposition.Discard
  | PreviousOrigin.Unmanaged => CommitDisposition.Quarantine
  end.
