(* ===== verification/JournalValidation.v ===== *)
(** * The journal contract: what makes a transition record, and an advance, valid

    [crates/forge/src/transition_journal/validation.rs], function by function, with
    [TransitionRecord::preparing] of [model.rs].  [validate] is the well-formedness
    invariant of one durable record; [validate_advance] is the relation between two
    consecutive records of one transition. *)

From S2P Require Import Prelude JournalModel.

(** ** Phases *)

Definition ordinal (p : ForwardPhase.t) : nat :=
  match p with
  | ForwardPhase.Preparing => 0
  | ForwardPhase.FreshStateAllocating => 1
  | ForwardPhase.FreshStateAllocated => 2
  | ForwardPhase.CandidatePrepareStarted => 3
  | ForwardPhase.CandidatePrepared => 4
  | ForwardPhase.TransactionTriggersStarted => 5
  | ForwardPhase.TransactionTriggersComplete => 6
  | ForwardPhase.UsrExchangeIntent => 7
  | ForwardPhase.UsrExchanged => 8
  | ForwardPhase.RootLinksComplete => 9
  | ForwardPhase.SystemTriggersStarted => 10
  | ForwardPhase.SystemTriggersComplete => 11
  | ForwardPhase.PreviousArchiveIntent => 12
  | ForwardPhase.PreviousArchived => 13
  | ForwardPhase.BootSyncStarted => 14
  | ForwardPhase.BootSyncComplete => 15
  | ForwardPhase.CommitDecided => 16
  | ForwardPhase.CommitCleanupComplete => 17
  | ForwardPhase.Complete => 18
  end.

(** [impl From<ForwardPhase> for Phase] *)
Definition Phase_from (p : ForwardPhase.t) : Phase.t :=
  match p with
  | ForwardPhase.Preparing => Phase.Preparing
  | ForwardPhase.FreshStateAllocating => Phase.FreshStateAllocating
  | ForwardPhase.FreshStateAllocated => Phase.FreshStateAllocated
  | ForwardPhase.CandidatePrepareStarted => Phase.CandidatePrepareStarted
  | ForwardPhase.CandidatePrepared => Phase.CandidatePrepared
  | ForwardPhase.TransactionTriggersStarted => Phase.TransactionTriggersStarted
  | ForwardPhase.TransactionTriggersComplete => Phase.TransactionTriggersComplete
  | ForwardPhase.UsrExchangeIntent => Phase.UsrExchangeIntent
  | ForwardPhase.UsrExchanged => Phase.UsrExchanged
  | ForwardPhase.RootLinksComplete => Phase.RootLinksComplete
  | ForwardPhase.SystemTriggersStarted => Phase.SystemTriggersStarted
  | ForwardPhase.SystemTriggersComplete => Phase.SystemTriggersComplete
  | ForwardPhase.PreviousArchiveIntent => Phase.PreviousArchiveIntent
  | ForwardPhase.PreviousArchived => Phase.PreviousArchived
  | ForwardPhase.BootSyncStarted => Phase.BootSyncStarted
  | ForwardPhase.BootSyncComplete => Phase.BootSyncComplete
  | ForwardPhase.CommitDecided => Phase.CommitDecided
  | ForwardPhase.CommitCleanupComplete => Phase.CommitCleanupComplete
  | ForwardPhase.Complete => Phase.Complete
  end.

(** [Phase::forward] *)
Definition forward (p : Phase.t) : option ForwardPhase.t :=
  match p with
  | Phase.Preparing => Some ForwardPhase.Preparing
  | Phase.FreshStateAllocating => Some ForwardPhase.FreshStateAllocating
  | Phase.FreshStateAllocated => Some ForwardPhase.FreshStateAllocated
  | Phase.CandidatePrepareStarted => Some ForwardPhase.CandidatePrepareStarted
  | Phase.CandidatePrepared => Some ForwardPhase.CandidatePrepared
  | Phase.TransactionTriggersStarted => Some ForwardPhase.TransactionTriggersStarted
  | Phase.TransactionTriggersComplete => Some ForwardPhase.TransactionTriggersComplete
  | Phase.UsrExchangeIntent => Some ForwardPhase.UsrExchangeIntent
  | Phase.UsrExchanged => Some ForwardPhase.UsrExchanged
  | Phase.RootLinksComplete => Some ForwardPhase.RootLinksComplete
  | Phase.SystemTriggersStarted => Some ForwardPhase.SystemTriggersStarted
  | Phase.SystemTriggersComplete => Some ForwardPhase.SystemTriggersComplete
  | Phase.PreviousArchiveIntent => Some ForwardPhase.PreviousArchiveIntent
  | Phase.PreviousArchived => Some ForwardPhase.PreviousArchived
  | Phase.BootSyncStarted => Some ForwardPhase.BootSyncStarted
  | Phase.BootSyncComplete => Some ForwardPhase.BootSyncComplete
  | Phase.CommitDecided => Some ForwardPhase.CommitDecided
  | Phase.CommitCleanupComplete => Some ForwardPhase.CommitCleanupComplete
  | Phase.Complete => Some ForwardPhase.Complete
  | Phase.RollbackDecided | Phase.PreviousRestoreIntent | Phase.PreviousRestoredToStaging
  | Phase.ReverseExchangeIntent | Phase.UsrRestored | Phase.CandidatePreserveIntent
  | Phase.CandidatePreserved | Phase.FreshDbInvalidationIntent | Phase.FreshDbInvalidated
  | Phase.BootRepairRequired | Phase.BootRepairStarted | Phase.BootRepairComplete
  | Phase.BootRepairUnverified | Phase.RollbackComplete => None
  end.

Definition blocks_advance (p : Phase.t) : bool :=
  match p with
  | Phase.Complete | Phase.BootRepairUnverified | Phase.RollbackComplete => true
  | _ => false
  end.

Definition deletable (p : Phase.t) : bool :=
  match p with Phase.Complete | Phase.RollbackComplete => true | _ => false end.

Definition action_required (a : RollbackAction.t) : bool :=
  negb (bool_decide (a = RollbackAction.NotRequired)).

Definition action_resolved (a : RollbackAction.t) : bool :=
  match a with RollbackAction.Applied | RollbackAction.AlreadySatisfied => true | _ => false end.

(** ** Runtime identities *)

Definition MountNamespaceIdentity_validate (m : MountNamespaceIdentity) : codec unit :=
  reject CodecError.ZeroMountNamespaceIdentity when
    ((mns_st_dev m =? 0)%Z || (mns_inode m =? 0)%Z).

Definition RuntimeEpoch_validate (e : RuntimeEpoch) : codec unit :=
  BootId_validate (epoch_boot_id e);;
  MountNamespaceIdentity_validate (epoch_mount_namespace e).

Definition RuntimeTreeIdentity_validate (t : RuntimeTreeIdentity) : codec unit :=
  reject CodecError.ZeroRuntimeTreeIdentity when
    ((rti_st_dev t =? 0)%Z || (rti_inode t =? 0)%Z || (rti_mount_id t =? 0)%Z).

Definition same_object (a b : RuntimeTreeIdentity) : bool :=
  ((rti_st_dev a =? rti_st_dev b) && (rti_inode a =? rti_inode b))%Z.

Definition require_option_presence {T} (value : option T) (required : bool) (error : CodecError.t)
    : codec unit :=
  reject error when (negb (Bool.eqb (bool_decide (is_Some value)) required)).

(** ** Operations and phases *)

Definition runs_transaction_triggers (self : TransitionRecord) : bool :=
  match operation self with NewState | ActiveReblit => true | ActivateArchived => false end.

Definition candidate_disposition_for (self : TransitionRecord) (source : ForwardPhase.t)
    : AbortDisposition.t :=
  match operation self with
  | NewState | ActiveReblit => AbortDisposition.Quarantine
  | ActivateArchived =>
      if bool_decide (source = ForwardPhase.SystemTriggersStarted)
      then AbortDisposition.Quarantine
      else AbortDisposition.Rearchive
  end.

Definition next_forward_phase (record : TransitionRecord) (current : ForwardPhase.t)
    : option ForwardPhase.t :=
  let after_archive :=
    if run_boot_sync (options record) then ForwardPhase.BootSyncStarted
    else ForwardPhase.CommitDecided in
  let after_system :=
    if archive_previous (options record) then ForwardPhase.PreviousArchiveIntent
    else if run_boot_sync (options record) then ForwardPhase.BootSyncStarted
    else ForwardPhase.CommitDecided in
  match current with
  | ForwardPhase.Preparing =>
      if bool_decide (operation record = NewState) then Some ForwardPhase.FreshStateAllocating
      else Some ForwardPhase.CandidatePrepareStarted
  | ForwardPhase.FreshStateAllocating => Some ForwardPhase.FreshStateAllocated
  | ForwardPhase.FreshStateAllocated => Some ForwardPhase.CandidatePrepareStarted
  | ForwardPhase.CandidatePrepareStarted => Some ForwardPhase.CandidatePrepared
  | ForwardPhase.CandidatePrepared =>
      if runs_transaction_triggers record then Some ForwardPhase.TransactionTriggersStarted
      else Some ForwardPhase.UsrExchangeIntent
  | ForwardPhase.TransactionTriggersStarted => Some ForwardPhase.TransactionTriggersComplete
  | ForwardPhase.TransactionTriggersComplete => Some ForwardPhase.UsrExchangeIntent
  | ForwardPhase.UsrExchangeIntent => Some ForwardPhase.UsrExchanged
  | ForwardPhase.UsrExchanged => Some ForwardPhase.RootLinksComplete
  | ForwardPhase.RootLinksComplete =>
      if run_system_triggers (options record) then Some ForwardPhase.SystemTriggersStarted
      else Some after_system
  | ForwardPhase.SystemTriggersStarted => Some ForwardPhase.SystemTriggersComplete
  | ForwardPhase.SystemTriggersComplete => Some after_system
  | ForwardPhase.PreviousArchiveIntent => Some ForwardPhase.PreviousArchived
  | ForwardPhase.PreviousArchived => Some after_archive
  | ForwardPhase.BootSyncStarted => Some ForwardPhase.BootSyncComplete
  | ForwardPhase.BootSyncComplete => Some ForwardPhase.CommitDecided
  | ForwardPhase.CommitDecided => Some ForwardPhase.CommitCleanupComplete
  | ForwardPhase.CommitCleanupComplete => Some ForwardPhase.Complete
  | ForwardPhase.Complete => None
  end.

Definition rollback_allowed (_record : TransitionRecord) (source : ForwardPhase.t) : bool :=
  (ordinal source <? ordinal ForwardPhase.CommitDecided)%nat
  && negb (bool_decide (source = ForwardPhase.BootSyncComplete)).

Definition validate_rollback_requirement (action : bytes) (status : RollbackAction.t)
    (possible : bool) : codec unit :=
  if Bool.eqb possible (action_required status) then Ok tt
  else Err (CodecError.InvalidRollbackRequirement action status possible).

Definition rollback_actions (plan : RollbackPlan) : list RollbackAction.t :=
  [rp_previous_archive plan; rp_usr_exchange plan; cr_action (rp_candidate plan); rp_fresh_db plan].

Definition action_settled (a : RollbackAction.t) : bool :=
  bool_decide (a = RollbackAction.NotRequired) || action_resolved a.

Definition ordinary_actions_resolved (plan : RollbackPlan) : bool :=
  forallb action_settled (rollback_actions plan).

Definition rollback_action_phase (p : Phase.t) : option (nat * bool) :=
  match p with
  | Phase.PreviousRestoreIntent => Some (0, false)
  | Phase.PreviousRestoredToStaging => Some (0, true)
  | Phase.ReverseExchangeIntent => Some (1, false)
  | Phase.UsrRestored => Some (1, true)
  | Phase.CandidatePreserveIntent => Some (2, false)
  | Phase.CandidatePreserved => Some (2, true)
  | Phase.FreshDbInvalidationIntent => Some (3, false)
  | Phase.FreshDbInvalidated => Some (3, true)
  | _ => None
  end.

Definition boot_unsettled (b : BootRollback.t) : bool :=
  match b with BootRollback.NotRequired | BootRollback.PendingUnverifiable => true | _ => false end.

Definition boot_repaired (b : BootRollback.t) : bool :=
  match b with BootRollback.Applied | BootRollback.AlreadySatisfied => true | _ => false end.

Definition not_applied (a : RollbackAction.t) : bool :=
  negb (bool_decide (a = RollbackAction.Applied)).

Definition validate_rollback_phase (p : Phase.t) (plan : RollbackPlan) : codec unit :=
  let actions := rollback_actions plan in
  matches_phase ←
    match p with
    | Phase.RollbackDecided =>
        Ok (forallb not_applied actions && boot_unsettled (rp_boot plan))
    | Phase.BootRepairRequired | Phase.BootRepairStarted =>
        Ok (ordinary_actions_resolved plan
            && bool_decide (rp_boot plan = BootRollback.PendingUnverifiable))
    | Phase.BootRepairComplete =>
        Ok (ordinary_actions_resolved plan && boot_repaired (rp_boot plan))
    | Phase.BootRepairUnverified =>
        Ok (ordinary_actions_resolved plan && bool_decide (rp_boot plan = BootRollback.Unverified))
    | Phase.RollbackComplete =>
        Ok (ordinary_actions_resolved plan
            && (bool_decide (rp_boot plan = BootRollback.NotRequired)
                || boot_repaired (rp_boot plan)))
    | _ =>
        match rollback_action_phase p with
        | None => Err CodecError.RollbackPlanOnForwardPhase
        | Some (current, completed) =>
            let prior_resolved := forallb action_settled (take current actions) in
            let now := default RollbackAction.NotRequired (actions !! current) in
            let current_matches :=
              if completed then action_resolved now
              else bool_decide (now = RollbackAction.Pending) in
            let later_unapplied := forallb not_applied (drop (current + 1) actions) in
            Ok (prior_resolved && current_matches && later_unapplied
                && boot_unsettled (rp_boot plan))
        end
    end;
  if (matches_phase : bool) then Ok tt else Err (CodecError.RollbackPlanPhaseMismatch p).

Fixpoint first_pending (steps : list (RollbackAction.t * Phase.t)) : option Phase.t :=
  match steps with
  | [] => None
  | (action, intent) :: steps' =>
      if bool_decide (action = RollbackAction.Pending) then Some intent else first_pending steps'
  end.

Definition next_pending_phase (plan : RollbackPlan) : option Phase.t :=
  match first_pending (zip (rollback_actions plan)
    [Phase.PreviousRestoreIntent; Phase.ReverseExchangeIntent;
     Phase.CandidatePreserveIntent; Phase.FreshDbInvalidationIntent]) with
  | Some intent => Some intent
  | None =>
      match rp_boot plan with
      | BootRollback.PendingUnverifiable => Some Phase.BootRepairRequired
      | BootRollback.NotRequired => Some Phase.RollbackComplete
      | BootRollback.Applied | BootRollback.AlreadySatisfied | BootRollback.Unverified => None
      end
  end.

Definition next_rollback_phase (plan : RollbackPlan) (current : Phase.t) : option Phase.t :=
  match current with
  | Phase.PreviousRestoreIntent => Some Phase.PreviousRestoredToStaging
  | Phase.ReverseExchangeIntent => Some Phase.UsrRestored
  | Phase.CandidatePreserveIntent => Some Phase.CandidatePreserved
  | Phase.FreshDbInvalidationIntent => Some Phase.FreshDbInvalidated
  | Phase.BootRepairRequired => Some Phase.BootRepairStarted
  | Phase.BootRepairStarted => Some Phase.BootRepairUnverified
  | Phase.BootRepairComplete => Some Phase.RollbackComplete
  | Phase.BootRepairUnverified | Phase.RollbackComplete => None
  | Phase.RollbackDecided | Phase.PreviousRestoredToStaging | Phase.UsrRestored
  | Phase.CandidatePreserved | Phase.FreshDbInvalidated => next_pending_phase plan
  | _ => None
  end.

(** ** [TransitionRecord::validate] and its parts *)

Definition expected_candidate_origin (op : Operation) : CandidateOrigin.t :=
  match op with
  | NewState => CandidateOrigin.Fresh
  | ActivateArchived => CandidateOrigin.Archived
  | ActiveReblit => CandidateOrigin.ActiveReblit
  end.

Definition is_legacy_version (v : Z) : bool :=
  ((v =? PAYLOAD_VERSION_V1) || (v =? PAYLOAD_VERSION_V2))%Z.

Definition validate_boot_publication_receipts (self : TransitionRecord)
    (layout_phase : ForwardPhase.t) : codec unit :=
  if is_legacy_version (version self) then
    if bool_decide (boot_publication_receipts self = None) then Ok tt
    else Err (CodecError.PayloadVersionBootPublicationReceiptsMismatch (version self))
  else
    let required := run_boot_sync (options self)
      && (ordinal ForwardPhase.BootSyncStarted <=? ordinal layout_phase)%nat in
    if Bool.eqb (bool_decide (is_Some (boot_publication_receipts self))) required then Ok tt
    else Err (CodecError.BootPublicationReceiptPresenceMismatch (phase self) required).

Definition validate_option_reachability (self : TransitionRecord) (p : ForwardPhase.t)
    : codec unit :=
  reject CodecError.FreshPhaseForExistingCandidate when
    (bool_decide (p = ForwardPhase.FreshStateAllocating \/ p = ForwardPhase.FreshStateAllocated)
     && negb (bool_decide (operation self = NewState)));;
  reject (CodecError.DisabledPhase (Phase_from p)) when
    (bool_decide (p = ForwardPhase.TransactionTriggersStarted
                  \/ p = ForwardPhase.TransactionTriggersComplete)
     && negb (runs_transaction_triggers self));;
  reject (CodecError.DisabledPhase (Phase_from p)) when
    (bool_decide (p = ForwardPhase.SystemTriggersStarted \/ p = ForwardPhase.SystemTriggersComplete)
     && negb (run_system_triggers (options self)));;
  reject (CodecError.DisabledPhase (Phase_from p)) when
    (bool_decide (p = ForwardPhase.PreviousArchiveIntent \/ p = ForwardPhase.PreviousArchived)
     && negb (archive_previous (options self)));;
  reject (CodecError.DisabledPhase (Phase_from p)) when
    (bool_decide (p = ForwardPhase.BootSyncStarted \/ p = ForwardPhase.BootSyncComplete)
     && negb (run_boot_sync (options self))).

(** [None] is the early [return Ok(())] of an already satisfied invalidation. *)
Definition candidate_id_required (self : TransitionRecord) (p : ForwardPhase.t) : option bool :=
  match p with
  | ForwardPhase.Preparing => Some false
  | ForwardPhase.FreshStateAllocating =>
      match rollback self with
      | None => Some false
      | Some plan =>
          match rp_fresh_db plan with
          | RollbackAction.Pending | RollbackAction.Applied => Some true
          | RollbackAction.AlreadySatisfied => None
          | RollbackAction.NotRequired => Some false
          end
      end
  | _ => Some true
  end.

Definition validate_candidate_layout (self : TransitionRecord) (p : ForwardPhase.t) : codec unit :=
  match operation self with
  | NewState =>
      match candidate_id_required self p with
      | None => Ok tt
      | Some id_required =>
          require_option_presence (cand_id (candidate self)) id_required
            CodecError.CandidateStateLayout
      end
  | ActivateArchived | ActiveReblit =>
      reject CodecError.ExistingCandidateStateMissing when
        (bool_decide (cand_id (candidate self) = None))
  end.

Definition validate_operation_states (self : TransitionRecord) : codec unit :=
  let cid := cand_id (candidate self) in
  let pid := prev_id (previous self) in
  let origin := prev_origin (previous self) in
  let collision :=
    reject CodecError.CandidatePreviousStateCollision when
      (bool_decide (is_Some cid) && bool_decide (cid = pid)) in
  match operation self with
  | ActiveReblit =>
      reject CodecError.ActiveReblitStateMismatch when
        (negb (bool_decide (origin = PreviousOrigin.ActiveReblitCorrupt))
         || bool_decide (pid = None) || negb (bool_decide (cid = pid)))
  | ActivateArchived =>
      reject CodecError.ArchivedActivationStateMismatch when
        (negb (bool_decide (origin = PreviousOrigin.ActiveState))
         || bool_decide (pid = None) || bool_decide (cid = None));;
      collision
  | NewState =>
      match origin, pid with
      | PreviousOrigin.ActiveState, None =>
          Err (CodecError.PreviousOriginStateMismatch origin pid)
      | (PreviousOrigin.SynthesizedEmpty | PreviousOrigin.Unmanaged), Some _ =>
          Err (CodecError.PreviousOriginStateMismatch origin pid)
      | PreviousOrigin.ActiveReblitCorrupt, _ =>
          Err (CodecError.PreviousOriginOperationMismatch (operation self) origin)
      | _, _ => Ok tt
      end;;
      collision
  end.

Definition validate_relationships (self : TransitionRecord) : codec unit :=
  let cand := cand_usr_runtime_identity (candidate self) in
  let prev := prev_usr_runtime_identity (previous self) in
  reject CodecError.CandidatePreviousTreeTokenCollision when
    (bool_decide (cand_tree_token (candidate self) = prev_tree_token (previous self)));;
  reject CodecError.CandidatePreviousObjectCollision when (same_object cand prev);;
  reject (CodecError.CandidatePreviousFilesystemMismatch (rti_st_dev cand) (rti_st_dev prev)) when
    (negb (rti_st_dev cand =? rti_st_dev prev)%Z);;
  reject (CodecError.CandidatePreviousMountMismatch (rti_mount_id cand) (rti_mount_id prev)) when
    (negb (rti_mount_id cand =? rti_mount_id prev)%Z);;
  reject (CodecError.ArchiveOptionMismatch (prev_origin (previous self))
            (archive_previous (options self))) when
    (negb (Bool.eqb (archive_previous (options self))
             (bool_decide (prev_origin (previous self) = PreviousOrigin.ActiveState))));;
  validate_operation_states self.

Definition external_effects (self : TransitionRecord) (source : ForwardPhase.t) : bool :=
  (runs_transaction_triggers self
   && (ordinal ForwardPhase.TransactionTriggersStarted <=? ordinal source)%nat)
  || (run_system_triggers (options self)
      && (ordinal ForwardPhase.SystemTriggersStarted <=? ordinal source)%nat)
  || bool_decide (source = ForwardPhase.BootSyncStarted).

Definition previous_archive_possible (self : TransitionRecord) (source : ForwardPhase.t) : bool :=
  archive_previous (options self)
  && (ordinal ForwardPhase.PreviousArchiveIntent <=? ordinal source)%nat.
Definition usr_exchange_possible (source : ForwardPhase.t) : bool :=
  (ordinal ForwardPhase.UsrExchangeIntent <=? ordinal source)%nat.
Definition fresh_db_possible (self : TransitionRecord) (source : ForwardPhase.t) : bool :=
  bool_decide (operation self = NewState)
  && (ordinal ForwardPhase.FreshStateAllocating <=? ordinal source)%nat.

Definition validate_rollback_plan (self : TransitionRecord) (plan : RollbackPlan) : codec unit :=
  let source := rp_source plan in
  validate_rollback_requirement (bstr "previous-archive") (rp_previous_archive plan)
    (previous_archive_possible self source);;
  validate_rollback_requirement (bstr "usr-exchange") (rp_usr_exchange plan)
    (usr_exchange_possible source);;
  validate_rollback_requirement (bstr "candidate") (cr_action (rp_candidate plan)) true;;
  validate_rollback_requirement (bstr "fresh-db") (rp_fresh_db plan)
    (fresh_db_possible self source);;
  match bool_decide (source = ForwardPhase.BootSyncStarted), rp_boot plan with
  | false, BootRollback.NotRequired => Ok tt
  | true, (BootRollback.PendingUnverifiable | BootRollback.Applied
          | BootRollback.AlreadySatisfied | BootRollback.Unverified) => Ok tt
  | _, _ => Err CodecError.InvalidBootRollbackRequirement
  end;;
  let expected := candidate_disposition_for self source in
  reject (CodecError.InvalidCandidateDisposition (operation self) source expected
            (cr_disposition (rp_candidate plan))) when
    (negb (bool_decide (cr_disposition (rp_candidate plan) = expected)));;
  reject (CodecError.InvalidExternalEffectsEvidence (external_effects self source)
            (rp_external_effects_may_remain plan)) when
    (negb (Bool.eqb (rp_external_effects_may_remain plan) (external_effects self source))).

Fixpoint validate_state_ids (ids : list Z) : codec unit :=
  match ids with
  | [] => Ok tt
  | id :: ids' => reject (CodecError.InvalidStateId id) when (id <=? 0)%Z;; validate_state_ids ids'
  end.

Definition validate_v1 (self : TransitionRecord) : codec unit :=
  if (version self =? PAYLOAD_VERSION_V1)%Z then
    reject (CodecError.PayloadVersionPhaseMismatch (version self) (phase self)) when
      (bool_decide (phase self = Phase.BootRepairComplete));;
    match rp_boot <$> rollback self with
    | Some (BootRollback.Applied as status) | Some (BootRollback.AlreadySatisfied as status) =>
        Err (CodecError.PayloadVersionBootRollbackMismatch (version self) status)
    | _ => Ok tt
    end
  else Ok tt.

(** The [layout_phase] a record's phase and plan agree on. *)
Definition record_layout_phase (self : TransitionRecord) : codec ForwardPhase.t :=
  match forward (phase self), rollback self with
  | Some p, None => Ok p
  | Some _, Some _ => Err CodecError.RollbackPlanOnForwardPhase
  | None, Some plan =>
      if rollback_allowed self (rp_source plan) then Ok (rp_source plan)
      else Err (CodecError.InvalidRollbackSource (rp_source plan))
  | None, None => Err CodecError.MissingRollbackPlan
  end.

Definition validate (self : TransitionRecord) : codec unit :=
  reject (CodecError.UnsupportedPayloadFormat (format self)) when
    (negb (bool_decide (format self = PAYLOAD_FORMAT)));;
  reject (CodecError.UnsupportedPayloadVersion (version self)) when
    (negb (is_legacy_version (version self) || (version self =? PAYLOAD_VERSION)%Z));;
  validate_v1 self;;
  reject CodecError.ZeroGeneration when (generation self =? 0)%Z;;
  RuntimeEpoch_validate (creation_epoch self);;
  TreeToken_validate (prev_tree_token (previous self));;
  TreeToken_validate (cand_tree_token (candidate self));;
  RuntimeTreeIdentity_validate (prev_usr_runtime_identity (previous self));;
  RuntimeTreeIdentity_validate (cand_usr_runtime_identity (candidate self));;
  validate_state_ids (omap id [cand_id (candidate self); prev_id (previous self)]);;
  reject (CodecError.OperationOriginMismatch (operation self) (cand_origin (candidate self))) when
    (negb (bool_decide (cand_origin (candidate self) = expected_candidate_origin (operation self))));;
  layout_phase ← record_layout_phase self;
  validate_boot_publication_receipts self layout_phase;;
  validate_option_reachability self layout_phase;;
  validate_candidate_layout self layout_phase;;
  validate_relationships self;;
  match rollback self with
  | Some plan => validate_rollback_plan self plan;; validate_rollback_phase (phase self) plan
  | None => Ok tt
  end.

(** [TransitionRecord::boot_publication_receipt_correlation] *)
Definition boot_publication_receipt_correlation (self : TransitionRecord)
    : codec (option BootPublicationReceiptPair) :=
  validate self;; Ok (boot_publication_receipts self).

(** [TransitionRecord::preparing] ([model.rs]) *)
Definition preparing (tid : TransitionId) (epoch : RuntimeEpoch) (op : Operation)
    (candidate_id : option Z) (candidate_token : TreeToken)
    (candidate_identity : RuntimeTreeIdentity) (prev : Previous)
    (system_triggers boot_sync : bool) (qname : QuarantineName) : codec TransitionRecord :=
  let record :=
    {| format := PAYLOAD_FORMAT; version := PAYLOAD_VERSION; generation := 1;
       transition_id := tid; creation_epoch := epoch; operation := op;
       phase := Phase.Preparing; rollback := None; boot_publication_receipts := None;
       candidate := {| cand_id := candidate_id; cand_origin := expected_candidate_origin op;
                       cand_tree_token := candidate_token;
                       cand_usr_runtime_identity := candidate_identity |};
       previous := prev;
       options := {| archive_previous := bool_decide (prev_origin prev = PreviousOrigin.ActiveState);
                     run_system_triggers := system_triggers; run_boot_sync := boot_sync |};
       quarantine_name := qname |} in
  validate record;;
  Ok record.

(** ** [validate_advance] *)

Definition completed_action (current next : Phase.t) : option nat :=
  match current, next with
  | Phase.PreviousRestoreIntent, Phase.PreviousRestoredToStaging => Some 0
  | Phase.ReverseExchangeIntent, Phase.UsrRestored => Some 1
  | Phase.CandidatePreserveIntent, Phase.CandidatePreserved => Some 2
  | Phase.FreshDbInvalidationIntent, Phase.FreshDbInvalidated => Some 3
  | _, _ => None
  end%nat.

Fixpoint validate_actions_advance (index : nat) (completed : option nat)
    (steps : list (RollbackAction.t * RollbackAction.t)) : codec unit :=
  match steps with
  | [] => Ok tt
  | (before, after) :: steps' =>
      (if bool_decide (Some index = completed) then
         reject CodecError.RollbackPlanChangedIllegally when
           (negb (bool_decide (before = RollbackAction.Pending)) || negb (action_resolved after))
       else
         reject CodecError.RollbackPlanChangedIllegally when
           (negb (bool_decide (before = after))));;
      validate_actions_advance (S index) completed steps'
  end.

Definition boot_advance_allowed (expected next : BootRollback.t) (current_phase next_phase : Phase.t)
    : bool :=
  let repair_unverified :=
    bool_decide (current_phase = Phase.BootRepairStarted)
    && bool_decide (next_phase = Phase.BootRepairUnverified)
    && bool_decide (expected = BootRollback.PendingUnverifiable)
    && bool_decide (next = BootRollback.Unverified) in
  let repair_complete :=
    bool_decide (current_phase = Phase.BootRepairStarted)
    && bool_decide (next_phase = Phase.BootRepairComplete)
    && bool_decide (expected = BootRollback.PendingUnverifiable)
    && boot_repaired next in
  repair_unverified || repair_complete || bool_decide (expected = next).

Definition validate_rollback_plan_advance (expected next : RollbackPlan)
    (current_phase next_phase : Phase.t) : codec unit :=
  reject CodecError.RollbackPlanChangedIllegally when
    (negb (bool_decide (rp_source expected = rp_source next))
     || negb (bool_decide (cr_disposition (rp_candidate expected)
                           = cr_disposition (rp_candidate next)))
     || negb (bool_decide (rp_external_effects_may_remain expected
                           = rp_external_effects_may_remain next)));;
  validate_actions_advance 0 (completed_action current_phase next_phase)
    (zip (rollback_actions expected) (rollback_actions next));;
  reject CodecError.RollbackPlanChangedIllegally when
    (negb (boot_advance_allowed (rp_boot expected) (rp_boot next) current_phase next_phase)).

Definition validate_phase_advance (expected next : TransitionRecord) : codec unit :=
  let illegal := CodecError.IllegalPhaseAdvance (phase expected) (phase next) in
  match forward (phase expected), forward (phase next) with
  | Some current, Some actual =>
      wanted ← ok_or (next_forward_phase expected current) CodecError.TerminalPhaseAdvance;
      reject illegal when (negb (bool_decide (actual = wanted)))
  | Some current, None =>
      reject illegal when
        (negb (bool_decide (phase next = Phase.RollbackDecided))
         || negb (rollback_allowed expected current)
         || negb (bool_decide (rp_source <$> rollback next = Some current)))
  | None, Some _ => Err illegal
  | None, None =>
      match rollback expected, rollback next with
      | Some expected_plan, Some next_plan =>
          let boot_repair_completed :=
            bool_decide (phase expected = Phase.BootRepairStarted
                         /\ phase next = Phase.BootRepairComplete) in
          reject illegal when
            (negb boot_repair_completed
             && negb (bool_decide (next_rollback_phase expected_plan (phase expected)
                                   = Some (phase next))));;
          validate_rollback_plan_advance expected_plan next_plan (phase expected) (phase next)
      | _, _ =>
          (* [expect("validated rollback plan")]: unreachable, both records passed
             [validate]; see [valid_rollback_has_plan]. *)
          Err CodecError.MissingRollbackPlan
      end
  end.

Definition validate_advance (expected next : TransitionRecord) : codec unit :=
  validate expected;;
  validate next;;
  reject CodecError.TerminalPhaseAdvance when (blocks_advance (phase expected));;
  expected_generation ← ok_or (checked_add 64 (generation expected) 1) CodecError.GenerationExhausted;
  reject (CodecError.GenerationMismatch expected_generation (generation next)) when
    (negb (generation next =? expected_generation)%Z);;
  reject CodecError.TransitionChanged when
    (negb (bool_decide (transition_id expected = transition_id next)));;
  let receipt_entry :=
    (version expected =? PAYLOAD_VERSION)%Z
    && bool_decide (boot_publication_receipts expected = None)
    && bool_decide (is_Some (boot_publication_receipts next))
    && bool_decide (phase next = Phase.BootSyncStarted) in
  reject CodecError.BootPublicationReceiptsChangedIllegally when
    (negb (bool_decide (boot_publication_receipts expected = boot_publication_receipts next))
     && negb receipt_entry);;
  reject CodecError.ImmutableTransitionDataChanged when
    (negb (bool_decide (format expected = format next))
     || negb (version expected =? version next)%Z
     || negb (bool_decide (creation_epoch expected = creation_epoch next))
     || negb (bool_decide (operation expected = operation next))
     || negb (bool_decide (previous expected = previous next))
     || negb (bool_decide (options expected = options next))
     || negb (bool_decide (quarantine_name expected = quarantine_name next))
     || negb (bool_decide (cand_origin (candidate expected) = cand_origin (candidate next)))
     || negb (bool_decide (cand_tree_token (candidate expected) = cand_tree_token (candidate next)))
     || negb (bool_decide (cand_usr_runtime_identity (candidate expected)
                           = cand_usr_runtime_identity (candidate next))));;
  validate_phase_advance expected next;;
  let id_appears :=
    bool_decide (cand_id (candidate expected) = None)
    && bool_decide (is_Some (cand_id (candidate next))) in
  let allocation_completed :=
    bool_decide (phase expected = Phase.FreshStateAllocating)
    && bool_decide (phase next = Phase.FreshStateAllocated) && id_appears in
  let allocation_observed_during_rollback :=
    bool_decide (phase expected = Phase.FreshStateAllocating)
    && bool_decide (phase next = Phase.RollbackDecided) && id_appears
    && bool_decide (rp_fresh_db <$> rollback next = Some RollbackAction.Pending) in
  reject CodecError.CandidateStateChangedIllegally when
    (negb (bool_decide (cand_id (candidate expected) = cand_id (candidate next)))
     && negb allocation_completed && negb allocation_observed_during_rollback).
