(* ===== verification/JournalMachine.v ===== *)
(** * The journal state machine: reachability, progress of phases, atomicity

    The durable records of one transition form a chain of [validate_advance] steps
    that starts at a [preparing] record.  This file turns the executable validators
    into facts that proofs can use ([valid_facts], [advance_facts]) and proves the
    invariants of every reachable record by induction on the chain. *)

From S2P Require Import Prelude JournalModel JournalValidation.

(** ** What the validators establish *)

Abbreviation valid r := (validate r = Ok tt).
Abbreviation advances a b := (validate_advance a b = Ok tt).

Record valid_facts (r : TransitionRecord) (lp : ForwardPhase.t) : Prop := {
  vf_format : format r = PAYLOAD_FORMAT;
  vf_version : is_legacy_version (version r) = true \/ version r = PAYLOAD_VERSION;
  vf_v1 : validate_v1 r = Ok tt;
  vf_generation : generation r <> 0%Z;
  vf_epoch : RuntimeEpoch_validate (creation_epoch r) = Ok tt;
  vf_previous_token : TreeToken_validate (prev_tree_token (previous r)) = Ok tt;
  vf_candidate_token : TreeToken_validate (cand_tree_token (candidate r)) = Ok tt;
  vf_previous_identity :
    RuntimeTreeIdentity_validate (prev_usr_runtime_identity (previous r)) = Ok tt;
  vf_candidate_identity :
    RuntimeTreeIdentity_validate (cand_usr_runtime_identity (candidate r)) = Ok tt;
  vf_ids : validate_state_ids (omap id [cand_id (candidate r); prev_id (previous r)]) = Ok tt;
  vf_origin : cand_origin (candidate r) = expected_candidate_origin (operation r);
  vf_layout : record_layout_phase r = Ok lp;
  vf_receipts : validate_boot_publication_receipts r lp = Ok tt;
  vf_reachable : validate_option_reachability r lp = Ok tt;
  vf_candidate : validate_candidate_layout r lp = Ok tt;
  vf_relationships : validate_relationships r = Ok tt;
  vf_plan : forall plan, rollback r = Some plan ->
    validate_rollback_plan r plan = Ok tt /\ validate_rollback_phase (phase r) plan = Ok tt;
}.

Lemma valid_iff_facts r : valid r <-> exists lp, valid_facts r lp.
Proof.
  split.
  - intros H. unfold validate in H. inv_ok. bool_prop.
    match goal with H : record_layout_phase _ = Ok ?p |- _ => exists p end.
    constructor; try done.
    + match goal with H : _ || _ = true |- _ => apply orb_true_iff in H; destruct H as [|H];
        [by left | right; by apply Z.eqb_eq] end.
    + intros plan Hp. rewrite Hp in *. inv_ok. done.
  - intros [lp []]. unfold validate.
    assert (is_legacy_version (version r) || (version r =? PAYLOAD_VERSION)%Z = true) as Hv.
    { destruct vf_version0 as [-> | ->]; done. }
    step_ok. destruct (rollback r) as [plan|]; [|done].
    destruct (vf_plan0 plan eq_refl). step_ok. done.
Qed.

(** The data of a transition that no advance may touch. *)
Record same_transition (a b : TransitionRecord) : Prop := {
  st_format : format a = format b;
  st_version : version a = version b;
  st_transition : transition_id a = transition_id b;
  st_epoch : creation_epoch a = creation_epoch b;
  st_operation : operation a = operation b;
  st_previous : previous a = previous b;
  st_options : options a = options b;
  st_quarantine : quarantine_name a = quarantine_name b;
  st_candidate_origin : cand_origin (candidate a) = cand_origin (candidate b);
  st_candidate_token : cand_tree_token (candidate a) = cand_tree_token (candidate b);
  st_candidate_identity :
    cand_usr_runtime_identity (candidate a) = cand_usr_runtime_identity (candidate b);
}.

#[global] Instance same_transition_equivalence : Equivalence same_transition.
Proof. split; repeat intro; repeat match goal with H : same_transition _ _ |- _ => destruct H end;
  constructor; congruence. Qed.

(** How the receipt correlation and the candidate's state ID may change. *)
Definition receipts_advance (a b : TransitionRecord) : Prop :=
  boot_publication_receipts a = boot_publication_receipts b
  \/ (version a = PAYLOAD_VERSION /\ boot_publication_receipts a = None
      /\ is_Some (boot_publication_receipts b) /\ phase b = Phase.BootSyncStarted).

Definition candidate_id_advance (a b : TransitionRecord) : Prop :=
  cand_id (candidate a) = cand_id (candidate b)
  \/ (phase a = Phase.FreshStateAllocating
      /\ cand_id (candidate a) = None /\ is_Some (cand_id (candidate b))
      /\ (phase b = Phase.FreshStateAllocated
          \/ (phase b = Phase.RollbackDecided
              /\ rp_fresh_db <$> rollback b = Some RollbackAction.Pending))).

Record advance_facts (a b : TransitionRecord) : Prop := {
  af_source : valid a;
  af_target : valid b;
  af_open : blocks_advance (phase a) = false;
  af_generation : generation b = (generation a + 1)%Z;
  af_bound : (generation a + 1 < 2 ^ 64)%Z;
  af_same : same_transition a b;
  af_receipts : receipts_advance a b;
  af_phase : validate_phase_advance a b = Ok tt;
  af_candidate_id : candidate_id_advance a b;
}.

Lemma receipts_advance_guard a b :
  negb (bool_decide (boot_publication_receipts a = boot_publication_receipts b))
  && negb ((version a =? PAYLOAD_VERSION)%Z
           && bool_decide (boot_publication_receipts a = None)
           && bool_decide (is_Some (boot_publication_receipts b))
           && bool_decide (phase b = Phase.BootSyncStarted)) = false
  <-> receipts_advance a b.
Proof.
  unfold receipts_advance. rewrite andb_false_iff, !negb_false_iff, !andb_true_iff, Z.eqb_eq.
  rewrite !bool_decide_eq_true. tauto.
Qed.

Lemma candidate_id_advance_guard a b :
  let id_appears :=
    bool_decide (cand_id (candidate a) = None) && bool_decide (is_Some (cand_id (candidate b))) in
  negb (bool_decide (cand_id (candidate a) = cand_id (candidate b)))
  && negb (bool_decide (phase a = Phase.FreshStateAllocating)
           && bool_decide (phase b = Phase.FreshStateAllocated) && id_appears)
  && negb (bool_decide (phase a = Phase.FreshStateAllocating)
           && bool_decide (phase b = Phase.RollbackDecided) && id_appears
           && bool_decide (rp_fresh_db <$> rollback b = Some RollbackAction.Pending)) = false
  <-> candidate_id_advance a b.
Proof.
  unfold candidate_id_advance. cbv zeta.
  rewrite !andb_false_iff, !negb_false_iff, !andb_true_iff, !bool_decide_eq_true. tauto.
Qed.

Lemma advances_iff_facts a b : advances a b <-> advance_facts a b.
Proof.
  split.
  - intros H. unfold validate_advance in H. inv_ok.
    match goal with H : checked_add _ _ _ = Some _ |- _ => apply checked_width_Some in H as [-> ?] end.
    rewrite receipts_advance_guard, candidate_id_advance_guard in *. bool_prop.
    constructor; done.
  - intros []. destruct af_same0. unfold validate_advance.
    assert (checked_add 64 (generation a) 1 = Some (generation b)) as Hg.
    { apply checked_width_Some. done. }
    rewrite af_source0, af_target0, af_open0, Hg. cbn [mbind result_bind reject_if ok_or].
    rewrite Z.eqb_refl, (bool_decide_eq_true_2 _ st_transition0).
    cbn [mbind result_bind reject_if negb].
    rewrite (proj2 (receipts_advance_guard a b) af_receipts0).
    rewrite st_version0, Z.eqb_refl. step_ok.
    by rewrite (proj2 (candidate_id_advance_guard a b) af_candidate_id0).
Qed.

(** ** Shape of an advance *)

Lemma forward_iff p q : forward p = Some q <-> p = Phase_from q.
Proof. split; [destruct p; by intros [= <-] | intros ->; by destruct q]. Qed.

#[global] Instance Phase_from_inj : Inj (=) (=) Phase_from.
Proof. intros p q H%eq_sym%forward_iff. rewrite (proj2 (forward_iff _ _) eq_refl) in H. congruence. Qed.

Lemma valid_forward_no_plan r : valid r -> is_Some (forward (phase r)) -> rollback r = None.
Proof.
  intros [lp F]%valid_iff_facts [p Hp]. pose proof (vf_layout _ _ F) as Hl.
  unfold record_layout_phase in Hl. rewrite Hp in Hl. by destruct (rollback r).
Qed.

Lemma valid_rollback_has_plan r :
  valid r -> forward (phase r) = None ->
  exists plan, rollback r = Some plan /\ rollback_allowed r (rp_source plan) = true.
Proof.
  intros [lp F]%valid_iff_facts Hp. pose proof (vf_layout _ _ F) as Hl.
  unfold record_layout_phase in Hl. rewrite Hp in Hl.
  destruct (rollback r) as [plan|]; [|done].
  destruct (rollback_allowed r (rp_source plan)) eqn:?; [eauto|done].
Qed.

Inductive phase_step (a b : TransitionRecord) : Prop :=
  | step_forward cur nxt :
      phase a = Phase_from cur -> rollback a = None ->
      next_forward_phase a cur = Some nxt ->
      phase b = Phase_from nxt -> rollback b = None -> phase_step a b
  | step_decide cur plan :
      phase a = Phase_from cur -> rollback a = None -> rollback_allowed a cur = true ->
      phase b = Phase.RollbackDecided -> rollback b = Some plan -> rp_source plan = cur ->
      phase_step a b
  | step_rollback plan plan' :
      forward (phase a) = None -> rollback a = Some plan ->
      forward (phase b) = None -> rollback b = Some plan' ->
      (next_rollback_phase plan (phase a) = Some (phase b)
       \/ (phase a = Phase.BootRepairStarted /\ phase b = Phase.BootRepairComplete)) ->
      validate_rollback_plan_advance plan plan' (phase a) (phase b) = Ok tt ->
      phase_step a b.

Lemma advance_phase_step a b : advances a b -> phase_step a b.
Proof.
  intros F%advances_iff_facts.
  pose proof (af_phase _ _ F) as H. pose proof (af_source _ _ F) as Va.
  pose proof (af_target _ _ F) as Vb. unfold validate_phase_advance in H.
  destruct (forward (phase a)) as [p|] eqn:Ha, (forward (phase b)) as [q|] eqn:Hb; [..|done|].
  - inv_ok. bool_prop. subst.
    eapply step_forward; [by apply forward_iff| |eassumption|by apply forward_iff|];
      apply valid_forward_no_plan; eauto.
  - inv_ok. bool_prop. destruct (rollback b) as [plan|] eqn:Hr; [|done].
    eapply step_decide; eauto; [by apply forward_iff|apply valid_forward_no_plan; eauto|naive_solver].
  - destruct (rollback a) as [plan|] eqn:Hra; [|done].
    destruct (rollback b) as [plan'|] eqn:Hrb; [|done]. inv_ok.
    eapply step_rollback; eauto.
    match goal with H : _ && _ = false |- _ => apply andb_false_iff in H as [H|H] end; bool_prop;
      naive_solver.
Qed.

Lemma phase_step_advance a b : phase_step a b -> validate_phase_advance a b = Ok tt.
Proof.
  unfold validate_phase_advance. destruct 1.
  - rewrite (proj2 (forward_iff _ _) H), (proj2 (forward_iff _ _) H2), H1. cbn.
    by rewrite bool_decide_eq_true_2.
  - rewrite (proj2 (forward_iff _ _) H), H2, H3, H1. cbn.
    rewrite !bool_decide_eq_true_2 by congruence. done.
  - rewrite H, H1, H0, H2. destruct H3 as [Hn | [Hn1 Hn2]].
    + rewrite (bool_decide_eq_true_2 _ Hn). rewrite andb_false_r. done.
    + rewrite (bool_decide_eq_true_2 (_ /\ _) (conj Hn1 Hn2)). done.
Qed.

(** ** Phases only move onwards *)

(** Position of a phase in the declaration order of [Phase]. *)
Definition phase_index (p : Phase.t) : nat :=
  match p with
  | Phase.RollbackDecided => 19
  | Phase.PreviousRestoreIntent => 20
  | Phase.PreviousRestoredToStaging => 21
  | Phase.ReverseExchangeIntent => 22
  | Phase.UsrRestored => 23
  | Phase.CandidatePreserveIntent => 24
  | Phase.CandidatePreserved => 25
  | Phase.FreshDbInvalidationIntent => 26
  | Phase.FreshDbInvalidated => 27
  | Phase.BootRepairRequired => 28
  | Phase.BootRepairStarted => 29
  | Phase.BootRepairComplete => 30
  | Phase.BootRepairUnverified => 31
  | Phase.RollbackComplete => 32
  | _ => match forward p with Some q => ordinal q | None => 0 end
  end.

Lemma phase_index_from q : phase_index (Phase_from q) = ordinal q.
Proof. by destruct q. Qed.

Lemma phase_index_bound p : phase_index p <= 32.
Proof. destruct p; cbn; lia. Qed.

Lemma next_forward_phase_ordinal r p q :
  next_forward_phase r p = Some q -> ordinal p < ordinal q.
Proof.
  unfold next_forward_phase.
  destruct p; cbn; repeat case_match; intros; simplify_eq; cbn; lia.
Qed.

Lemma settled_not_pending a :
  action_settled a = true -> bool_decide (a = RollbackAction.Pending) = false.
Proof. by destruct a. Qed.

Lemma resolved_settled a : action_resolved a = true -> action_settled a = true.
Proof. by destruct a. Qed.

(** In a valid rollback record every action up to the current phase is settled, so
    the next pending one comes later. *)
Lemma next_rollback_phase_index plan p q :
  validate_rollback_phase p plan = Ok tt ->
  next_rollback_phase plan p = Some q -> phase_index p < phase_index q.
Proof.
  unfold validate_rollback_phase, next_rollback_phase, next_pending_phase, rollback_actions.
  intros Hv Hq.
  destruct p; try (simplify_eq/=; lia); cbn in Hv;
    match type of Hv with (if ?b then _ else _) = _ => destruct b eqn:? end; try done; bool_prop.
  all: cbn [zip zip_with first_pending] in Hq;
    repeat match goal with
    | H : action_resolved _ = true |- _ => apply resolved_settled in H
    | H : action_settled _ = true |- _ => rewrite (settled_not_pending _ H) in Hq; clear H
    end; repeat case_match; simplify_eq; cbn; lia.
Qed.

Lemma advance_phase_index a b : advances a b -> phase_index (phase a) < phase_index (phase b).
Proof.
  intros H. pose proof (af_source _ _ (proj1 (advances_iff_facts _ _) H)) as Va.
  apply advance_phase_step in H. destruct H.
  - rewrite H, H2, !phase_index_from. by eapply next_forward_phase_ordinal.
  - rewrite H, H2, phase_index_from. cbn. destruct cur; cbn; lia.
  - apply valid_iff_facts in Va as [lp F]. destruct (vf_plan _ _ F _ H0) as [_ Hv].
    destruct H3 as [Hn | [-> ->]]; [by eapply next_rollback_phase_index|cbn; lia].
Qed.

(** ** Histories

    [history a l b] is a sequence of durable records, one [validate_advance] after
    the other, from [a] to [b]. *)

Inductive history : TransitionRecord -> list TransitionRecord -> TransitionRecord -> Prop :=
  | history_one r : valid r -> history r [r] r
  | history_cons a b l c : advances a b -> history b l c -> history a (a :: l) c.

(** A record the coordinator can have made durable: some [preparing] record starts
    its history. *)
Definition preparing_record (r : TransitionRecord) : Prop :=
  exists tid epoch op cid ctok cident prev st bs q,
    preparing tid epoch op cid ctok cident prev st bs q = Ok r.

Definition reachable (r : TransitionRecord) : Prop :=
  exists r0 l, preparing_record r0 /\ history r0 l r.

Lemma advances_valid a b : advances a b -> valid a /\ valid b.
Proof. intros F%advances_iff_facts. split; [apply (af_source _ _ F)|apply (af_target _ _ F)]. Qed.

Lemma history_valid a l b : history a l b -> valid a /\ valid b.
Proof. induction 1 as [|? ? ? ? H%advances_valid]; naive_solver. Qed.

Lemma history_same a l b : history a l b -> same_transition a b.
Proof.
  induction 1 as [|? ? ? ? Had]; [done|]. etrans; [|done].
  by apply (af_same _ _ (proj1 (advances_iff_facts _ _) Had)).
Qed.

Lemma history_progress a l b :
  history a l b ->
  generation b = (generation a + Z.of_nat (length l) - 1)%Z
  /\ (phase_index (phase a) + length l <= phase_index (phase b) + 1)%nat.
Proof.
  induction 1 as [|a b l c Had Hh IH]; cbn; [lia|].
  pose proof (advance_phase_index _ _ Had).
  pose proof (af_generation _ _ (proj1 (advances_iff_facts _ _) Had)). lia.
Qed.

Lemma preparing_facts r :
  preparing_record r ->
  valid r /\ phase r = Phase.Preparing /\ generation r = 1%Z /\ version r = PAYLOAD_VERSION.
Proof.
  intros (? & ? & ? & ? & ? & ? & ? & ? & ? & ? & H). unfold preparing in H. inv_ok. done.
Qed.

Lemma history_app a l b m c :
  history a l b -> history b m c -> exists k, history a k c /\ length k + 1 = length l + length m.
Proof.
  induction 1 as [|a b l b' Had Hh IH]; intros Hm.
  - exists m. split; [done|cbn; lia].
  - destruct (IH Hm) as (k & Hk & ?). exists (a :: k). split; [by econstructor|cbn; lia].
Qed.

Lemma history_last a l b : history a l b -> last l = Some b /\ head l = Some a.
Proof. induction 1 as [|a b l c ? H [IH ?]]; [done|]. split; [|done]. by destruct l. Qed.

(** ** The forward path *)

(** The forward phases a transition goes through, by its operation and options. *)
Definition phase_enabled (r : TransitionRecord) (p : ForwardPhase.t) : bool :=
  match p with
  | ForwardPhase.FreshStateAllocating | ForwardPhase.FreshStateAllocated =>
      bool_decide (operation r = NewState)
  | ForwardPhase.TransactionTriggersStarted | ForwardPhase.TransactionTriggersComplete =>
      runs_transaction_triggers r
  | ForwardPhase.SystemTriggersStarted | ForwardPhase.SystemTriggersComplete =>
      run_system_triggers (options r)
  | ForwardPhase.PreviousArchiveIntent | ForwardPhase.PreviousArchived =>
      archive_previous (options r)
  | ForwardPhase.BootSyncStarted | ForwardPhase.BootSyncComplete => run_boot_sync (options r)
  | _ => true
  end.

Definition forward_phases : list ForwardPhase.t :=
  [ForwardPhase.Preparing; ForwardPhase.FreshStateAllocating; ForwardPhase.FreshStateAllocated;
   ForwardPhase.CandidatePrepareStarted; ForwardPhase.CandidatePrepared;
   ForwardPhase.TransactionTriggersStarted; ForwardPhase.TransactionTriggersComplete;
   ForwardPhase.UsrExchangeIntent; ForwardPhase.UsrExchanged; ForwardPhase.RootLinksComplete;
   ForwardPhase.SystemTriggersStarted; ForwardPhase.SystemTriggersComplete;
   ForwardPhase.PreviousArchiveIntent; ForwardPhase.PreviousArchived;
   ForwardPhase.BootSyncStarted; ForwardPhase.BootSyncComplete; ForwardPhase.CommitDecided;
   ForwardPhase.CommitCleanupComplete; ForwardPhase.Complete].

(** The enabled phases from [p] on, in order. *)
Definition path_from (r : TransitionRecord) (p : ForwardPhase.t) : list ForwardPhase.t :=
  List.filter (phase_enabled r) (drop (ordinal p) forward_phases).

Lemma option_reachability_enabled r p :
  validate_option_reachability r p = Ok tt <-> phase_enabled r p = true.
Proof.
  unfold validate_option_reachability, phase_enabled.
  unfold runs_transaction_triggers. destruct r as [? ? ? ? ? op ? ? ? ? ? [ar st bs] ?]. cbn.
  destruct p, op; try (vm_compute; done); destruct ar, st, bs; vm_compute; done.
Qed.

Lemma phase_enabled_same a b p : same_transition a b -> phase_enabled a p = phase_enabled b p.
Proof.
  intros []. unfold phase_enabled, runs_transaction_triggers. by rewrite st_operation0, st_options0.
Qed.

Lemma path_from_same a b p : same_transition a b -> path_from a p = path_from b p.
Proof.
  intros H. unfold path_from. generalize (drop (ordinal p) forward_phases) as l.
  induction l as [|q l IH]; [done|]. cbn. by rewrite (phase_enabled_same _ _ q H), IH.
Qed.

Lemma path_from_next r p :
  phase_enabled r p = true ->
  path_from r p = p :: match next_forward_phase r p with
                       | Some q => path_from r q
                       | None => []
                       end.
Proof.
  unfold path_from, next_forward_phase, phase_enabled, runs_transaction_triggers.
  destruct r as [? ? ? ? ? op ? ? ? ? ? [ar st bs] ?].
  destruct p, op, ar, st, bs; vm_compute; congruence.
Qed.

Lemma valid_phase_enabled r p : valid r -> phase r = Phase_from p -> phase_enabled r p = true.
Proof.
  intros [lp F]%valid_iff_facts Hp. pose proof (vf_layout _ _ F) as Hl.
  unfold record_layout_phase in Hl. rewrite (proj2 (forward_iff _ _) Hp) in Hl.
  destruct (rollback r); [done|]. simplify_eq. apply option_reachability_enabled, (vf_reachable _ _ F).
Qed.

Lemma rollback_stays a b : advances a b -> forward (phase a) = None -> forward (phase b) = None.
Proof.
  intros H Ha. apply advance_phase_step in H. destruct H; [| |done];
    rewrite (proj2 (forward_iff _ _) H) in Ha; done.
Qed.

Lemma history_rollback_stays a l b :
  history a l b -> forward (phase a) = None -> forward (phase b) = None.
Proof. induction 1; eauto using rollback_stays. Qed.

(** The enabled phases from [p] up to [s]. *)
Definition path_between (r : TransitionRecord) (p s : ForwardPhase.t) : list ForwardPhase.t :=
  List.filter (fun q => (ordinal q <=? ordinal s)%nat) (path_from r p).

Lemma path_from_ge r p q : In q (path_from r p) -> ordinal p <= ordinal q.
Proof.
  unfold path_from. rewrite filter_In. intros [H _]. revert H.
  destruct p; cbn; intuition (subst; cbn; lia).
Qed.

Lemma path_between_same a b p s : same_transition a b -> path_between a p s = path_between b p s.
Proof. intros H. unfold path_between. by rewrite (path_from_same a b). Qed.

Lemma filter_none {A} (f : A -> bool) l : (forall x, In x l -> f x = false) -> List.filter f l = [].
Proof.
  induction l as [|x l IH]; intros H; [done|]. cbn. rewrite (H x) by (by left).
  apply IH. intros y Hy. apply H. by right.
Qed.

Lemma path_between_refl r p : phase_enabled r p = true -> path_between r p p = [p].
Proof.
  intros He. unfold path_between. rewrite (path_from_next r p He). cbn. rewrite Nat.leb_refl.
  f_equal. destruct (next_forward_phase r p) as [q|] eqn:Hn; [|done].
  apply filter_none. intros x Hx%path_from_ge. apply next_forward_phase_ordinal in Hn.
  apply Nat.leb_gt. lia.
Qed.

Lemma path_between_next r p q s :
  phase_enabled r p = true -> next_forward_phase r p = Some q -> ordinal q <= ordinal s ->
  path_between r p s = p :: path_between r q s.
Proof.
  intros He Hn Hs. unfold path_between. rewrite (path_from_next r p He), Hn. cbn.
  apply next_forward_phase_ordinal in Hn.
  by rewrite (proj2 (Nat.leb_le (ordinal p) (ordinal s))) by lia.
Qed.

Lemma path_between_In r p s q :
  In q (path_between r p s)
  <-> phase_enabled r q = true /\ ordinal p <= ordinal q <= ordinal s.
Proof.
  unfold path_between, path_from. rewrite !filter_In, Nat.leb_le.
  split; intros H; [|split; [split; [|tauto]|lia]].
  - pose proof (path_from_ge r p q ltac:(unfold path_from; rewrite filter_In; tauto)). naive_solver lia.
  - destruct H as [_ [H _]]. destruct p, q; cbn in *; try lia; tauto.
Qed.

Lemma path_between_complete r :
  path_between r ForwardPhase.Preparing ForwardPhase.Complete
  = List.filter (phase_enabled r) forward_phases.
Proof.
  unfold path_between, path_from. cbn [ordinal]. rewrite drop_0.
  generalize (List.filter (phase_enabled r) forward_phases) as l.
  induction l as [|q l IH]; [done|]. cbn [List.filter].
  rewrite IH. by destruct q.
Qed.

(** The layout phase of a rollback record is the phase it rolled back from. *)
Lemma layout_phase_rollback r s :
  forward (phase r) = None -> record_layout_phase r = Ok s ->
  exists plan, rollback r = Some plan /\ rp_source plan = s /\ rollback_allowed r s = true.
Proof.
  unfold record_layout_phase. intros ->. destruct (rollback r) as [plan|]; [|done].
  destruct (rollback_allowed _ _) eqn:?; [|done]. naive_solver.
Qed.

Lemma layout_phase_forward r p s :
  phase r = Phase_from p -> record_layout_phase r = Ok s -> s = p.
Proof.
  intros Hp. unfold record_layout_phase. rewrite (proj2 (forward_iff _ _) Hp).
  destruct (rollback r); naive_solver.
Qed.

Lemma plan_advance_source p q cp np :
  validate_rollback_plan_advance p q cp np = Ok tt -> rp_source p = rp_source q.
Proof. unfold validate_rollback_plan_advance. intros H. inv_ok. bool_prop. done. Qed.

Lemma rollback_layout_phase a b s :
  advances a b -> forward (phase a) = None ->
  record_layout_phase b = Ok s -> record_layout_phase a = Ok s.
Proof.
  intros Had Hf Hs. pose proof (advances_valid _ _ Had) as [Va Vb].
  apply advance_phase_step in Had.
  destruct Had as [? ? H _ _ _ _|? ? H _ _ _ _ _|plan plan' _ Ha Hfb Hb _ Hadv];
    [by rewrite (proj2 (forward_iff _ _) H) in Hf..|].
  apply layout_phase_rollback in Hs as (pl & Hpl & Hsrc & _); [|done].
  apply plan_advance_source in Hadv. destruct (valid_rollback_has_plan a Va Hf) as (pl' & Hpl' & Hal).
  unfold record_layout_phase. rewrite Hf, Hpl', Hal. f_equal. congruence.
Qed.

Lemma history_rollback_part a l b s :
  history a l b -> forward (phase a) = None -> record_layout_phase b = Ok s ->
  Forall (fun r => forward (phase r) = None) l /\ record_layout_phase a = Ok s.
Proof.
  induction 1 as [r Hv|a b l c Had Hh IH]; intros Hf Hs; [by repeat constructor|].
  destruct IH as [Hl Hb]; [by eapply rollback_stays|done|].
  split; [by constructor|]. by eapply rollback_layout_phase.
Qed.

(** A history is the enabled forward phases up to the last record's layout phase,
    followed by rollback records only. *)
Lemma history_shape a l b p s :
  history a l b -> phase a = Phase_from p -> record_layout_phase b = Ok s ->
  ordinal p <= ordinal s /\
  exists fwd rb, l = fwd ++ rb
    /\ phase <$> fwd = Phase_from <$> path_between a p s
    /\ Forall (fun r => forward (phase r) = None) rb
    /\ (rb = [] <-> forward (phase b) <> None).
Proof.
  intros Hh. revert p. induction Hh as [r Hv|a b l c Had Hh IH]; intros p Ha Hs.
  - pose proof (layout_phase_forward _ _ _ Ha Hs) as ->. split; [lia|]. exists [r], [].
    rewrite path_between_refl by by apply valid_phase_enabled. cbn.
    rewrite Ha, (proj2 (forward_iff _ _) eq_refl). done.
  - destruct (advances_valid _ _ Had) as [Va _]. pose proof (valid_phase_enabled _ _ Va Ha) as He.
    pose proof (af_same _ _ (proj1 (advances_iff_facts _ _) Had)) as Hsame.
    destruct (advance_phase_step _ _ Had)
      as [cur nxt Hc _ Hn Hb _|cur plan Hc _ _ Hd Hpl Hsrc|? ? Hf _ _ _ _ _].
    + assert (cur = p) as -> by (apply (inj Phase_from); congruence).
      destruct (IH nxt Hb Hs) as (Hle & fwd & rb & -> & Hfwd & Hrb & Hnil).
      pose proof (next_forward_phase_ordinal _ _ _ Hn). split; [lia|].
      exists (a :: fwd), rb. rewrite (path_between_next a p nxt s), (path_between_same a b) by done.
      cbn. by rewrite Ha, Hfwd.
    + assert (cur = p) as -> by (apply (inj Phase_from); congruence).
      assert (forward (phase b) = None) as Hfb by by rewrite Hd.
      destruct (history_rollback_part _ _ _ _ Hh Hfb Hs) as [Hl Hlb].
      destruct (layout_phase_rollback _ _ Hfb Hlb) as (pl & ? & ? & _).
      assert (s = p) as -> by congruence. split; [lia|]. exists [a], l.
      rewrite path_between_refl by done. cbn. rewrite Ha. repeat split; try done.
      * intros ->. inversion Hh.
      * intros Hc'. by apply history_rollback_stays in Hh.
    + by rewrite Ha, (proj2 (forward_iff _ _) eq_refl) in Hf.
Qed.
