(* ===== verification/JournalSuccessors.v ===== *)
(** * Typed successor constructors and the recovery policy

    [crates/forge/src/transition_journal/successors.rs]: the only functions that
    build the next durable record of a transition, and [recovery.rs]: the direction
    in which startup resumes a record it finds.  The theorems show that the
    constructors build exactly the records [validate_advance] admits, and that they
    never leave an unfinished transition without a next step. *)

From S2P Require Import Prelude JournalModel JournalValidation JournalMachine.

(** ** Observations and outcomes *)

Module InitialRollbackAction.
Inductive t := Pending | AlreadySatisfied.
#[global] Instance t_eq_dec : EqDecision t.
Proof. solve_decision. Defined.

(** [impl From<InitialRollbackAction> for RollbackAction] *)
Definition into (v : t) : RollbackAction.t :=
  match v with
  | Pending => RollbackAction.Pending
  | AlreadySatisfied => RollbackAction.AlreadySatisfied
  end.
End InitialRollbackAction.

Record RollbackObservations := {
  obs_allocated_candidate_id : option Z;
  obs_previous_archive : option InitialRollbackAction.t;
  obs_usr_exchange : option InitialRollbackAction.t;
  obs_candidate : InitialRollbackAction.t;
  obs_fresh_db : option InitialRollbackAction.t;
}.

Module RollbackActionOutcome.
Inductive t := Applied | AlreadySatisfied.

(** [impl From<RollbackActionOutcome> for RollbackAction] *)
Definition into (v : t) : RollbackAction.t :=
  match v with
  | Applied => RollbackAction.Applied
  | AlreadySatisfied => RollbackAction.AlreadySatisfied
  end.
End RollbackActionOutcome.

Module BootRepairOutcome.
Inductive t := Applied | AlreadySatisfied.

(** [impl From<BootRepairOutcome> for BootRollback] *)
Definition into (v : t) : BootRollback.t :=
  match v with
  | Applied => BootRollback.Applied
  | AlreadySatisfied => BootRollback.AlreadySatisfied
  end.
End BootRepairOutcome.

(** ** Plan updates: the field assignments of [rollback_successor] *)

Definition set_previous_archive (a : RollbackAction.t) (p : RollbackPlan) : RollbackPlan :=
  {| rp_source := rp_source p; rp_previous_archive := a; rp_usr_exchange := rp_usr_exchange p;
     rp_candidate := rp_candidate p; rp_fresh_db := rp_fresh_db p; rp_boot := rp_boot p;
     rp_external_effects_may_remain := rp_external_effects_may_remain p |}.
Definition set_usr_exchange (a : RollbackAction.t) (p : RollbackPlan) : RollbackPlan :=
  {| rp_source := rp_source p; rp_previous_archive := rp_previous_archive p; rp_usr_exchange := a;
     rp_candidate := rp_candidate p; rp_fresh_db := rp_fresh_db p; rp_boot := rp_boot p;
     rp_external_effects_may_remain := rp_external_effects_may_remain p |}.
Definition set_candidate_action (a : RollbackAction.t) (p : RollbackPlan) : RollbackPlan :=
  {| rp_source := rp_source p; rp_previous_archive := rp_previous_archive p;
     rp_usr_exchange := rp_usr_exchange p;
     rp_candidate := {| cr_action := a; cr_disposition := cr_disposition (rp_candidate p) |};
     rp_fresh_db := rp_fresh_db p; rp_boot := rp_boot p;
     rp_external_effects_may_remain := rp_external_effects_may_remain p |}.
Definition set_fresh_db (a : RollbackAction.t) (p : RollbackPlan) : RollbackPlan :=
  {| rp_source := rp_source p; rp_previous_archive := rp_previous_archive p;
     rp_usr_exchange := rp_usr_exchange p; rp_candidate := rp_candidate p; rp_fresh_db := a;
     rp_boot := rp_boot p;
     rp_external_effects_may_remain := rp_external_effects_may_remain p |}.
Definition set_boot (b : BootRollback.t) (p : RollbackPlan) : RollbackPlan :=
  {| rp_source := rp_source p; rp_previous_archive := rp_previous_archive p;
     rp_usr_exchange := rp_usr_exchange p; rp_candidate := rp_candidate p;
     rp_fresh_db := rp_fresh_db p; rp_boot := b;
     rp_external_effects_may_remain := rp_external_effects_may_remain p |}.

(** ** The constructors *)

Definition next_generation (self : TransitionRecord) : codec Z :=
  ok_or (checked_add 64 (generation self) 1) CodecError.GenerationExhausted.

Definition forward_successor (allocated_candidate_id : option Z) (self : TransitionRecord)
    : codec TransitionRecord :=
  validate self;;
  current ← ok_or (forward (phase self)) (CodecError.IllegalPhaseAdvance (phase self) (phase self));
  next_phase ← ok_or (next_forward_phase self current) CodecError.TerminalPhaseAdvance;
  reject CodecError.ExplicitBootSyncStartedSuccessorRequired when
    (bool_decide (next_phase = ForwardPhase.BootSyncStarted));;
  reject CodecError.ExplicitBootSyncCompleteSuccessorRequired when
    (bool_decide (next_phase = ForwardPhase.BootSyncComplete));;
  let allocation_completed :=
    bool_decide ((current, next_phase)
                 = (ForwardPhase.FreshStateAllocating, ForwardPhase.FreshStateAllocated)) in
  reject CodecError.CandidateStateChangedIllegally when
    (negb allocation_completed && bool_decide (is_Some allocated_candidate_id));;
  g ← next_generation self;
  let next :=
    with_step g (Phase_from next_phase) (rollback self) (boot_publication_receipts self)
      (if allocation_completed then allocated_candidate_id else cand_id (candidate self)) self in
  validate_advance self next;;
  Ok next.

Definition boot_sync_started_successor (receipts : BootPublicationReceiptPair)
    (self : TransitionRecord) : codec TransitionRecord :=
  validate self;;
  reject (CodecError.PayloadVersionBootPublicationReceiptsMismatch (version self)) when
    (negb (version self =? PAYLOAD_VERSION)%Z);;
  let illegal := CodecError.IllegalPhaseAdvance (phase self) Phase.BootSyncStarted in
  current ← ok_or (forward (phase self)) illegal;
  reject illegal when
    (negb (bool_decide (next_forward_phase self current = Some ForwardPhase.BootSyncStarted)));;
  g ← next_generation self;
  let next :=
    with_step g Phase.BootSyncStarted (rollback self) (Some receipts)
      (cand_id (candidate self)) self in
  validate_advance self next;;
  Ok next.

Definition boot_sync_complete_successor (expected_pair : BootPublicationReceiptPair)
    (self : TransitionRecord) : codec TransitionRecord :=
  validate self;;
  reject (CodecError.PayloadVersionBootPublicationReceiptsMismatch (version self)) when
    (negb (version self =? PAYLOAD_VERSION)%Z);;
  reject (CodecError.IllegalPhaseAdvance (phase self) Phase.BootSyncComplete) when
    (negb (bool_decide (phase self = Phase.BootSyncStarted)));;
  reject CodecError.BootPublicationReceiptsChangedIllegally when
    (negb (bool_decide (boot_publication_receipts self = Some expected_pair)));;
  g ← next_generation self;
  let next :=
    with_step g Phase.BootSyncComplete (rollback self) (boot_publication_receipts self)
      (cand_id (candidate self)) self in
  validate_advance self next;;
  Ok next.

Definition observed_initial_action (action : bytes) (possible : bool)
    (observation : option InitialRollbackAction.t) : codec RollbackAction.t :=
  match possible, observation with
  | true, Some observation => Ok (InitialRollbackAction.into observation)
  | false, None => Ok RollbackAction.NotRequired
  | possible, observation =>
      Err (CodecError.InvalidRollbackRequirement action
             (from_option InitialRollbackAction.into RollbackAction.NotRequired observation)
             possible)
  end.

Definition rollback_decision (observations : RollbackObservations) (self : TransitionRecord)
    : codec TransitionRecord :=
  validate self;;
  source ← ok_or (forward (phase self))
             (CodecError.IllegalPhaseAdvance (phase self) Phase.RollbackDecided);
  reject (CodecError.InvalidRollbackSource source) when (negb (rollback_allowed self source));;
  let previous_possible :=
    archive_previous (options self)
    && (ordinal ForwardPhase.PreviousArchiveIntent <=? ordinal source)%nat in
  let usr_possible := (ordinal ForwardPhase.UsrExchangeIntent <=? ordinal source)%nat in
  let fresh_possible :=
    bool_decide (operation self = NewState)
    && (ordinal ForwardPhase.FreshStateAllocating <=? ordinal source)%nat in
  let boot_possible := bool_decide (source = ForwardPhase.BootSyncStarted) in
  g ← next_generation self;
  id ← match cand_id (candidate self) with
       | None => Ok (obs_allocated_candidate_id observations)
       | Some id =>
           reject CodecError.CandidateStateChangedIllegally when
             (bool_decide (is_Some (obs_allocated_candidate_id observations)));;
           Ok (Some id)
       end;
  previous_archive ← observed_initial_action (bstr "previous-archive") previous_possible
                       (obs_previous_archive observations);
  usr_exchange ← observed_initial_action (bstr "usr-exchange") usr_possible
                   (obs_usr_exchange observations);
  fresh_db ← observed_initial_action (bstr "fresh-db") fresh_possible (obs_fresh_db observations);
  let plan :=
    {| rp_source := source;
       rp_previous_archive := previous_archive;
       rp_usr_exchange := usr_exchange;
       rp_candidate :=
         {| cr_action := InitialRollbackAction.into (obs_candidate observations);
            cr_disposition := candidate_disposition_for self source |};
       rp_fresh_db := fresh_db;
       rp_boot := if boot_possible then BootRollback.PendingUnverifiable
                  else BootRollback.NotRequired;
       rp_external_effects_may_remain :=
         (runs_transaction_triggers self
          && (ordinal ForwardPhase.TransactionTriggersStarted <=? ordinal source)%nat)
         || (run_system_triggers (options self)
             && (ordinal ForwardPhase.SystemTriggersStarted <=? ordinal source)%nat)
         || boot_possible |} in
  let next :=
    with_step g Phase.RollbackDecided (Some plan) (boot_publication_receipts self) id self in
  validate_advance self next;;
  Ok next.

Definition apply_outcome (current next : Phase.t) (status : RollbackAction.t) (plan : RollbackPlan)
    : codec RollbackPlan :=
  match current, next with
  | Phase.PreviousRestoreIntent, Phase.PreviousRestoredToStaging =>
      Ok (set_previous_archive status plan)
  | Phase.ReverseExchangeIntent, Phase.UsrRestored => Ok (set_usr_exchange status plan)
  | Phase.CandidatePreserveIntent, Phase.CandidatePreserved => Ok (set_candidate_action status plan)
  | Phase.FreshDbInvalidationIntent, Phase.FreshDbInvalidated => Ok (set_fresh_db status plan)
  | _, _ => Err CodecError.RollbackActionOutcomeMismatch
  end.

Definition ordinary_completion (current next : Phase.t) : bool :=
  match rollback_action_phase current with Some (_, completed) => negb completed | None => false end
  && match rollback_action_phase next with Some (_, completed) => completed | None => false end.

Definition rollback_successor (outcome : option RollbackActionOutcome.t) (self : TransitionRecord)
    : codec TransitionRecord :=
  validate self;;
  reject (CodecError.ExplicitBootRepairSuccessorRequired (phase self)) when
    (bool_decide (phase self = Phase.BootRepairRequired \/ phase self = Phase.BootRepairStarted
                  \/ phase self = Phase.BootRepairComplete));;
  plan ← ok_or (rollback self) CodecError.MissingRollbackPlan;
  next_phase ← ok_or (next_rollback_phase plan (phase self))
                 (if blocks_advance (phase self) then CodecError.TerminalPhaseAdvance
                  else CodecError.IllegalPhaseAdvance (phase self) (phase self));
  reject CodecError.RollbackActionOutcomeMismatch when
    (negb (Bool.eqb (ordinary_completion (phase self) next_phase)
             (bool_decide (is_Some outcome))));;
  g ← next_generation self;
  next_plan ← match outcome with
              | Some outcome =>
                  apply_outcome (phase self) next_phase (RollbackActionOutcome.into outcome) plan
              | None => Ok plan
              end;
  let next :=
    with_step g next_phase (Some next_plan) (boot_publication_receipts self)
      (cand_id (candidate self)) self in
  validate_advance self next;;
  Ok next.

(** The four boot-repair constructors share their shape: one admitted phase, one
    next phase and an optional new status of the plan's boot action. *)
Definition boot_repair_successor (at_phase next_phase : Phase.t) (boot : option BootRollback.t)
    (self : TransitionRecord) : codec TransitionRecord :=
  validate self;;
  reject (CodecError.IllegalPhaseAdvance (phase self) next_phase) when
    (negb (bool_decide (phase self = at_phase)));;
  g ← next_generation self;
  rb ← match boot with
       | None => Ok (rollback self)
       | Some boot =>
           plan ← ok_or (rollback self) CodecError.MissingRollbackPlan;
           Ok (Some (set_boot boot plan))
       end;
  let next :=
    with_step g next_phase rb (boot_publication_receipts self) (cand_id (candidate self)) self in
  validate_advance self next;;
  Ok next.

Definition boot_repair_started_successor : TransitionRecord -> codec TransitionRecord :=
  boot_repair_successor Phase.BootRepairRequired Phase.BootRepairStarted None.

Definition boot_repair_complete_successor (outcome : BootRepairOutcome.t)
    : TransitionRecord -> codec TransitionRecord :=
  boot_repair_successor Phase.BootRepairStarted Phase.BootRepairComplete
    (Some (BootRepairOutcome.into outcome)).

Definition boot_repair_unverified_successor : TransitionRecord -> codec TransitionRecord :=
  boot_repair_successor Phase.BootRepairStarted Phase.BootRepairUnverified
    (Some BootRollback.Unverified).

Definition boot_repair_rollback_complete_successor : TransitionRecord -> codec TransitionRecord :=
  boot_repair_successor Phase.BootRepairComplete Phase.RollbackComplete None.

(** ** [recovery.rs] *)

Module RecoveryDisposition.
Inductive t :=
  | BeginRollback (source : ForwardPhase.t)
  | ResumeRollback (phase : Phase.t)
  | RollForward (phase : ForwardPhase.t)
  | FinalizeRollback
  | ManualBootRepair.
End RecoveryDisposition.

(** [Phase::recovery_disposition]; the [expect]s hold the phase [forward] returns. *)
Definition Phase_recovery_disposition (p : Phase.t) : RecoveryDisposition.t :=
  match p with
  | Phase.Preparing | Phase.FreshStateAllocating | Phase.FreshStateAllocated
  | Phase.CandidatePrepareStarted | Phase.CandidatePrepared | Phase.TransactionTriggersStarted
  | Phase.TransactionTriggersComplete | Phase.UsrExchangeIntent | Phase.UsrExchanged
  | Phase.RootLinksComplete | Phase.SystemTriggersStarted | Phase.SystemTriggersComplete
  | Phase.PreviousArchiveIntent | Phase.PreviousArchived | Phase.BootSyncStarted =>
      RecoveryDisposition.BeginRollback (default ForwardPhase.Preparing (forward p))
  | Phase.BootSyncComplete | Phase.CommitDecided | Phase.CommitCleanupComplete | Phase.Complete =>
      RecoveryDisposition.RollForward (default ForwardPhase.Preparing (forward p))
  | Phase.RollbackDecided | Phase.PreviousRestoreIntent | Phase.PreviousRestoredToStaging
  | Phase.ReverseExchangeIntent | Phase.UsrRestored | Phase.CandidatePreserveIntent
  | Phase.CandidatePreserved | Phase.FreshDbInvalidationIntent | Phase.FreshDbInvalidated
  | Phase.BootRepairRequired | Phase.BootRepairStarted | Phase.BootRepairComplete =>
      RecoveryDisposition.ResumeRollback p
  | Phase.BootRepairUnverified => RecoveryDisposition.ManualBootRepair
  | Phase.RollbackComplete => RecoveryDisposition.FinalizeRollback
  end.

Definition recovery_disposition (self : TransitionRecord) : RecoveryDisposition.t :=
  Phase_recovery_disposition (phase self).

(** ** All constructors as one family *)

Module Call.
Inductive t :=
  | Forward (allocated_candidate_id : option Z)
  | BootSyncStarted (receipts : BootPublicationReceiptPair)
  | BootSyncComplete (expected_pair : BootPublicationReceiptPair)
  | Decide (observations : RollbackObservations)
  | Rollback (outcome : option RollbackActionOutcome.t)
  | BootRepairStarted
  | BootRepairComplete (outcome : BootRepairOutcome.t)
  | BootRepairUnverified
  | BootRepairRollbackComplete.
End Call.

Definition successor (c : Call.t) : TransitionRecord -> codec TransitionRecord :=
  match c with
  | Call.Forward id => forward_successor id
  | Call.BootSyncStarted rs => boot_sync_started_successor rs
  | Call.BootSyncComplete rs => boot_sync_complete_successor rs
  | Call.Decide obs => rollback_decision obs
  | Call.Rollback outcome => rollback_successor outcome
  | Call.BootRepairStarted => boot_repair_started_successor
  | Call.BootRepairComplete outcome => boot_repair_complete_successor outcome
  | Call.BootRepairUnverified => boot_repair_unverified_successor
  | Call.BootRepairRollbackComplete => boot_repair_rollback_complete_successor
  end.

Lemma successor_advances c a b : successor c a = Ok b -> advances a b.
Proof.
  destruct c; cbn; unfold forward_successor, boot_sync_started_successor,
    boot_sync_complete_successor, rollback_decision, rollback_successor,
    boot_repair_started_successor, boot_repair_complete_successor,
    boot_repair_unverified_successor, boot_repair_rollback_complete_successor,
    boot_repair_successor; intros H; cbv zeta in *; inv_ok; done.
Qed.

Lemma same_transition_with_step a b :
  same_transition a b ->
  b = with_step (generation b) (phase b) (rollback b) (boot_publication_receipts b)
        (cand_id (candidate b)) a.
Proof.
  intros []. destruct a as [? ? ? ? ? ? ? ? ? [] ? ? ?], b as [? ? ? ? ? ? ? ? ? [] ? ? ?].
  unfold with_step, set_candidate_id. cbn in *. congruence.
Qed.

(** ** Every admitted advance has a constructor *)

Section complete.
Context (a b : TransitionRecord) (Had : advances a b).

Let F : advance_facts a b := proj1 (advances_iff_facts a b) Had.

Lemma advance_next_generation : next_generation a = Ok (generation b).
Proof.
  unfold next_generation. apply ok_or_ok_iff, checked_width_Some.
  split; [apply (af_generation _ _ F)|apply (af_bound _ _ F)].
Qed.

(** A constructor that rebuilds [b]'s step from [a] returns [b]. *)
Lemma finish_successor g p rb receipts cid :
  g = generation b -> p = phase b -> rb = rollback b ->
  receipts = boot_publication_receipts b -> cid = cand_id (candidate b) ->
  (validate_advance a (with_step g p rb receipts cid a);; Ok (with_step g p rb receipts cid a))
  = Ok b.
Proof.
  intros -> -> -> -> ->. rewrite <- (same_transition_with_step a b) by apply F. by rewrite Had.
Qed.

Lemma receipts_same : phase b <> Phase.BootSyncStarted ->
  boot_publication_receipts a = boot_publication_receipts b.
Proof. intros Hn. destruct (af_receipts _ _ F) as [? | (? & ? & ? & ?)]; done. Qed.

Lemma candidate_id_same : phase a <> Phase.FreshStateAllocating ->
  cand_id (candidate a) = cand_id (candidate b).
Proof. intros Hn. destruct (af_candidate_id _ _ F) as [? | (? & ? & ? & ?)]; done. Qed.

Lemma valid_source_ok : validate a = Ok tt.
Proof. apply F. Qed.

Lemma forward_complete cur nxt :
  phase a = Phase_from cur -> rollback a = None -> next_forward_phase a cur = Some nxt ->
  phase b = Phase_from nxt -> rollback b = None ->
  nxt <> ForwardPhase.BootSyncStarted -> nxt <> ForwardPhase.BootSyncComplete ->
  exists cid, forward_successor cid a = Ok b.
Proof.
  intros Ha Hra Hn Hb Hrb Hn1 Hn2.
  exists (if bool_decide (cur = ForwardPhase.FreshStateAllocating)
          then cand_id (candidate b) else None).
  unfold forward_successor. rewrite valid_source_ok, (proj2 (forward_iff _ _) Ha). cbn.
  rewrite Hn. cbn. rewrite (bool_decide_eq_false_2 _ Hn1), (bool_decide_eq_false_2 _ Hn2). cbn.
  destruct (decide (cur = ForwardPhase.FreshStateAllocating)) as [-> | Hc].
  - cbn in Hn. simplify_eq. rewrite !bool_decide_eq_true_2 by done. cbn.
    rewrite advance_next_generation. cbn.
    apply finish_successor; rewrite ?Hra, ?Hrb; try done. apply receipts_same. by rewrite Hb.
  - rewrite (bool_decide_eq_false_2 _ Hc).
    rewrite (bool_decide_eq_false_2 ((_, _) = _)) by (by intros ?; simplify_eq). cbn.
    rewrite advance_next_generation. cbn.
    apply finish_successor; rewrite ?Hra, ?Hrb; try done.
    + apply receipts_same. rewrite Hb. by intros ?%(inj Phase_from nxt ForwardPhase.BootSyncStarted).
    + apply candidate_id_same. rewrite Ha.
      by intros ?%(inj Phase_from cur ForwardPhase.FreshStateAllocating).
Qed.

Lemma boot_receipts_present r :
  valid r -> version r = PAYLOAD_VERSION ->
  phase r = Phase.BootSyncStarted \/ phase r = Phase.BootSyncComplete ->
  is_Some (boot_publication_receipts r).
Proof using.
  intros Hv Hver Hp.
  assert (exists p, phase r = Phase_from p /\ (ordinal ForwardPhase.BootSyncStarted <= ordinal p)%nat
                    /\ phase_enabled r p = run_boot_sync (options r)) as (p & Hfp & Ho & He).
  { destruct Hp as [-> | ->]; [by exists ForwardPhase.BootSyncStarted; cbn; auto|].
    exists ForwardPhase.BootSyncComplete. cbn. auto. }
  pose proof (valid_phase_enabled _ _ Hv Hfp) as Hen.
  apply valid_iff_facts in Hv as [lp V].
  pose proof (layout_phase_forward _ _ _ Hfp (vf_layout _ _ V)) as ->.
  pose proof (vf_receipts _ _ V) as Hr. unfold validate_boot_publication_receipts in Hr.
  rewrite Hver, <- He, Hen, (proj2 (Nat.leb_le _ _) Ho) in Hr. cbn in Hr.
  by case_bool_decide.
Qed.

Lemma boot_sync_started_complete cur :
  version a = PAYLOAD_VERSION -> phase a = Phase_from cur -> rollback a = None ->
  next_forward_phase a cur = Some ForwardPhase.BootSyncStarted ->
  phase b = Phase.BootSyncStarted -> rollback b = None ->
  exists receipts, boot_sync_started_successor receipts a = Ok b.
Proof.
  intros Hver Ha Hra Hn Hb Hrb.
  destruct (boot_receipts_present b) as [rs Hrs]; [apply F| |by left|].
  { by rewrite <- (st_version _ _ (af_same _ _ F)). }
  exists rs. unfold boot_sync_started_successor. rewrite valid_source_ok, Hver. cbn.
  rewrite (proj2 (forward_iff _ _) Ha). cbn. rewrite bool_decide_eq_true_2 by done. cbn.
  rewrite advance_next_generation. cbn. apply finish_successor; try congruence.
  apply candidate_id_same. rewrite Ha. by destruct cur.
Qed.

Lemma boot_sync_complete_complete :
  version a = PAYLOAD_VERSION -> phase a = Phase.BootSyncStarted -> rollback a = None ->
  phase b = Phase.BootSyncComplete -> rollback b = None ->
  exists receipts, boot_sync_complete_successor receipts a = Ok b.
Proof.
  intros Hver Ha Hra Hb Hrb.
  destruct (boot_receipts_present a) as [rs Hrs]; [apply F|done|by left|].
  exists rs. unfold boot_sync_complete_successor. rewrite valid_source_ok, Hver. cbn.
  rewrite !bool_decide_eq_true_2 by done. cbn. rewrite advance_next_generation. cbn.
  apply finish_successor; try congruence.
  - apply receipts_same. by rewrite Hb.
  - apply candidate_id_same. by rewrite Ha.
Qed.

(** The observation that stands for a status of a fresh plan. *)
Definition observed (a : RollbackAction.t) : option InitialRollbackAction.t :=
  match a with
  | RollbackAction.Pending => Some InitialRollbackAction.Pending
  | RollbackAction.AlreadySatisfied => Some InitialRollbackAction.AlreadySatisfied
  | _ => None
  end.

Lemma observed_initial n act possible :
  not_applied act = true -> action_required act = possible ->
  observed_initial_action n possible (observed act) = Ok act.
Proof using. by intros H <-; destruct act. Qed.

Lemma rollback_decided_plan plan :
  phase b = Phase.RollbackDecided -> rollback b = Some plan ->
  forallb not_applied (rollback_actions plan) = true
  /\ boot_unsettled (rp_boot plan) = true /\ validate_rollback_plan b plan = Ok tt.
Proof.
  intros Hb Hr. pose proof (af_target _ _ F) as [lp V]%valid_iff_facts.
  destruct (vf_plan _ _ V _ Hr) as [Hp Hph]. unfold validate_rollback_phase in Hph.
  rewrite Hb in Hph. cbn in Hph. case_match; [|done]. bool_prop. cbn. by step_ok.
Qed.

Lemma validate_rollback_plan_facts r plan :
  validate_rollback_plan r plan = Ok tt ->
  action_required (rp_previous_archive plan) = previous_archive_possible r (rp_source plan)
  /\ action_required (rp_usr_exchange plan) = usr_exchange_possible (rp_source plan)
  /\ action_required (cr_action (rp_candidate plan)) = true
  /\ action_required (rp_fresh_db plan) = fresh_db_possible r (rp_source plan)
  /\ (rp_boot plan = BootRollback.NotRequired <-> rp_source plan <> ForwardPhase.BootSyncStarted)
  /\ cr_disposition (rp_candidate plan) = candidate_disposition_for r (rp_source plan)
  /\ rp_external_effects_may_remain plan = external_effects r (rp_source plan).
Proof using.
  unfold validate_rollback_plan. intros H. inv_ok. bool_prop.
  repeat match goal with H : validate_rollback_requirement _ _ _ = Ok tt |- _ =>
    unfold validate_rollback_requirement in H; destruct (Bool.eqb _ _) eqn:? in H; [|done];
    clear H end.
  repeat match goal with H : Bool.eqb _ _ = true |- _ => apply eqb_prop in H end.
  split_and!; try done. case_bool_decide; destruct (rp_boot plan); naive_solver.
Qed.

Lemma decide_candidate_id :
  match cand_id (candidate a) with
  | None => Ok (if cand_id (candidate a) is Some _ then None else cand_id (candidate b))
  | Some id =>
      reject CodecError.CandidateStateChangedIllegally when
        (bool_decide (is_Some
           (if cand_id (candidate a) is Some _ then None else cand_id (candidate b))));;
      Ok (Some id)
  end = Ok (cand_id (candidate b)).
Proof.
  destruct (af_candidate_id _ _ F) as [H | (_ & H & _)]; rewrite H; [|done].
  by destruct (cand_id (candidate b)).
Qed.

Lemma decide_complete cur plan :
  phase a = Phase_from cur -> rollback a = None -> rollback_allowed a cur = true ->
  phase b = Phase.RollbackDecided -> rollback b = Some plan -> rp_source plan = cur ->
  exists obs, rollback_decision obs a = Ok b.
Proof.
  intros Ha Hra Hal Hb Hrb <-.
  destruct (rollback_decided_plan plan Hb Hrb) as (Hna & Hbu & Hvp).
  cbn in Hna. bool_prop. destruct (validate_rollback_plan_facts _ _ Hvp)
    as (Hpa & Hue & Hca & Hfd & Hbt & Hdi & Hex).
  pose proof (st_options _ _ (af_same _ _ F)) as Hops.
  pose proof (st_operation _ _ (af_same _ _ F)) as Hop.
  exists {| obs_allocated_candidate_id :=
           if cand_id (candidate a) is Some _ then None else cand_id (candidate b);
         obs_previous_archive := observed (rp_previous_archive plan);
         obs_usr_exchange := observed (rp_usr_exchange plan);
         obs_candidate :=
           default InitialRollbackAction.Pending (observed (cr_action (rp_candidate plan)));
         obs_fresh_db := observed (rp_fresh_db plan) |}.
  unfold rollback_decision. rewrite valid_source_ok, (proj2 (forward_iff _ _) Ha).
  cbn -[ordinal bstr]. rewrite Hal, advance_next_generation. cbn -[ordinal bstr].
  rewrite decide_candidate_id. cbn -[ordinal bstr].
  unfold candidate_disposition_for, external_effects, previous_archive_possible,
    usr_exchange_possible, fresh_db_possible, runs_transaction_triggers in *.
  rewrite <- Hops in Hpa, Hex. rewrite <- Hop in Hfd, Hdi, Hex.
  rewrite !observed_initial by done. cbn -[ordinal bstr].
  apply finish_successor; try done.
  - rewrite Hrb. destruct plan as [src pa ue [ca cd] fd bt ext]. cbn -[ordinal] in *. subst.
    f_equal. f_equal; [f_equal; by destruct ca|].
    destruct (decide (src = ForwardPhase.BootSyncStarted)) as [E|E];
      [rewrite (bool_decide_eq_true_2 _ E)
      |by rewrite (bool_decide_eq_false_2 _ E), (proj2 Hbt E)].
    destruct bt; try done. by destruct (proj1 Hbt eq_refl).
  - apply receipts_same. by rewrite Hb.
Qed.

Definition action_advance (completed : option nat) (i : nat) (x y : RollbackAction.t) : Prop :=
  match completed with
  | Some c => if (i =? c)%nat then x = RollbackAction.Pending /\ action_resolved y = true else x = y
  | None => x = y
  end.

Lemma validate_actions_advance_ok i c l j x y :
  validate_actions_advance i c l = Ok tt -> l !! j = Some (x, y) -> action_advance c (i + j) x y.
Proof using.
  unfold action_advance. revert i j. induction l as [|[x' y'] l IH]; intros i j H Hj; [done|].
  cbn in H. inv_ok. destruct j as [|j]; cbn in Hj; simplify_eq.
  - rewrite Nat.add_0_r. case_bool_decide as Hc; inv_ok; bool_prop.
    + subst c. by rewrite Nat.eqb_refl.
    + destruct c as [c|]; [|done]. by rewrite (proj2 (Nat.eqb_neq i c)) by congruence.
  - rewrite Nat.add_succ_r. by apply (IH (S i)).
Qed.

Lemma plan_advance_facts plan plan' cp np :
  validate_rollback_plan_advance plan plan' cp np = Ok tt ->
  let adv := action_advance (completed_action cp np) in
  rp_source plan = rp_source plan'
  /\ cr_disposition (rp_candidate plan) = cr_disposition (rp_candidate plan')
  /\ rp_external_effects_may_remain plan = rp_external_effects_may_remain plan'
  /\ adv 0 (rp_previous_archive plan) (rp_previous_archive plan')
  /\ adv 1 (rp_usr_exchange plan) (rp_usr_exchange plan')
  /\ adv 2 (cr_action (rp_candidate plan)) (cr_action (rp_candidate plan'))
  /\ adv 3 (rp_fresh_db plan) (rp_fresh_db plan')
  /\ boot_advance_allowed (rp_boot plan) (rp_boot plan') cp np = true.
Proof using.
  unfold validate_rollback_plan_advance. intros H. inv_ok. bool_prop. cbv zeta.
  split_and!; try done.
  all: by eapply (validate_actions_advance_ok 0).
Qed.

Lemma plan_eq plan plan' :
  rp_source plan = rp_source plan' ->
  cr_disposition (rp_candidate plan) = cr_disposition (rp_candidate plan') ->
  rp_external_effects_may_remain plan = rp_external_effects_may_remain plan' ->
  rollback_actions plan = rollback_actions plan' -> rp_boot plan = rp_boot plan' -> plan = plan'.
Proof using.
  destruct plan as [? ? ? [] ? ? ?], plan' as [? ? ? [] ? ? ?].
  unfold rollback_actions. cbn. intros. by simplify_eq.
Qed.

Definition outcome_of (y : RollbackAction.t) : RollbackActionOutcome.t :=
  match y with
  | RollbackAction.Applied => RollbackActionOutcome.Applied
  | _ => RollbackActionOutcome.AlreadySatisfied
  end.

Lemma outcome_of_into y :
  action_resolved y = true -> RollbackActionOutcome.into (outcome_of y) = y.
Proof using. by destruct y. Qed.

(** Outside boot repair an advance changes the completed action only. *)
Lemma rollback_outcome_complete plan plan' :
  validate_rollback_plan_advance plan plan' (phase a) (phase b) = Ok tt ->
  next_rollback_phase plan (phase a) = Some (phase b) ->
  phase a <> Phase.BootRepairRequired -> phase a <> Phase.BootRepairStarted ->
  phase a <> Phase.BootRepairComplete ->
  exists o, bool_decide (is_Some o) = ordinary_completion (phase a) (phase b)
    /\ match o with
       | Some o => apply_outcome (phase a) (phase b) (RollbackActionOutcome.into o) plan
       | None => Ok plan
       end = Ok plan'.
Proof using.
  intros Hadv Hn Hp1 Hp2 Hp3.
  destruct (plan_advance_facts _ _ _ _ Hadv) as (Hs & Hd & He & H0 & H1 & H2 & H3 & Hb).
  assert (rp_boot plan = rp_boot plan') as Hboot.
  { unfold boot_advance_allowed in Hb. rewrite (bool_decide_eq_false_2 _ Hp2) in Hb.
    cbn in Hb. by bool_prop. }
  unfold action_advance in *.
  destruct (rollback_action_phase (phase a)) as [[i []]|] eqn:Hra; swap 1 2.
  - destruct (phase a); try done; cbn in Hn; simplify_eq;
      rewrite <- Hn in *; cbn in *; destruct_and!;
      match goal with H : action_resolved ?y = true |- _ =>
        exists (Some (outcome_of y)); split; [done|]; rewrite (outcome_of_into y H) end;
      cbn; f_equal; apply plan_eq; try done; unfold rollback_actions; cbn; congruence.
  - exists None. destruct (phase a); try done; cbn in *;
      (split; [|f_equal; apply plan_eq; try done; unfold rollback_actions; cbn; congruence]);
      unfold ordinary_completion; cbn; destruct (phase b); done.
  - exists None. destruct (phase a); try done; cbn in *;
      (split; [|f_equal; apply plan_eq; try done; unfold rollback_actions; cbn; congruence]);
      unfold ordinary_completion; cbn; destruct (phase b); done.
Qed.

Lemma next_rollback_phase_rollback plan p q :
  next_rollback_phase plan p = Some q -> forward q = None.
Proof using.
  unfold next_rollback_phase, next_pending_phase, rollback_actions.
  cbn [zip zip_with first_pending]. intros H. destruct p; repeat case_match; by simplify_eq.
Qed.

Lemma rollback_complete plan plan' :
  rollback a = Some plan -> rollback b = Some plan' ->
  validate_rollback_plan_advance plan plan' (phase a) (phase b) = Ok tt ->
  next_rollback_phase plan (phase a) = Some (phase b) ->
  phase a <> Phase.BootRepairRequired -> phase a <> Phase.BootRepairStarted ->
  phase a <> Phase.BootRepairComplete ->
  exists o, rollback_successor o a = Ok b.
Proof.
  intros Hra Hrb Hadv Hn Hp1 Hp2 Hp3.
  destruct (rollback_outcome_complete _ _ Hadv Hn Hp1 Hp2 Hp3) as (o & Ho & Happ).
  exists o. unfold rollback_successor. rewrite valid_source_ok. cbn.
  rewrite (bool_decide_eq_false_2 (_ \/ _)) by (by intros [? | [? | ?]]). cbn. rewrite Hra. cbn. rewrite Hn. cbn.
  rewrite Ho, Bool.eqb_reflx. cbn. rewrite advance_next_generation. cbn. rewrite Happ. cbn.
  apply finish_successor; try done.
  - apply receipts_same. intros E. by rewrite E in Hn; apply next_rollback_phase_rollback in Hn.
  - apply candidate_id_same. intros E. by rewrite E in Hn.
Qed.

Lemma boot_repair_complete at_phase plan plan' bt :
  rollback a = Some plan -> rollback b = Some plan' ->
  validate_rollback_plan_advance plan plan' (phase a) (phase b) = Ok tt ->
  phase a = at_phase -> completed_action (phase a) (phase b) = None ->
  phase b <> Phase.BootSyncStarted -> at_phase <> Phase.FreshStateAllocating ->
  rp_boot plan' = default (rp_boot plan) bt ->
  boot_repair_successor at_phase (phase b) bt a = Ok b.
Proof.
  intros Hra Hrb Hadv Hp Hc Hnb Hna Hbt. unfold boot_repair_successor.
  rewrite valid_source_ok. cbn. rewrite bool_decide_eq_true_2 by done. cbn.
  rewrite advance_next_generation. cbn. rewrite Hra. cbn.
  destruct (plan_advance_facts _ _ _ _ Hadv) as (Hs & Hd & He & H0 & H1 & H2 & H3 & _).
  rewrite Hc in *. cbn in *.
  transitivity (validate_advance a (with_step (generation b) (phase b)
      (Some (from_option (fun x => set_boot x plan) plan bt)) (boot_publication_receipts a)
      (cand_id (candidate a)) a);;
    Ok (with_step (generation b) (phase b)
      (Some (from_option (fun x => set_boot x plan) plan bt)) (boot_publication_receipts a)
      (cand_id (candidate a)) a)); [by destruct bt|].
  apply finish_successor; try done.
  - rewrite Hrb. f_equal. apply plan_eq; destruct bt; cbn; try done;
      unfold rollback_actions; cbn; congruence.
  - by apply receipts_same.
  - apply candidate_id_same. by rewrite Hp.
Qed.

Lemma rollback_repair_cases plan plan' :
  rollback a = Some plan -> rollback b = Some plan' ->
  validate_rollback_plan_advance plan plan' (phase a) (phase b) = Ok tt ->
  next_rollback_phase plan (phase a) = Some (phase b)
  \/ (phase a = Phase.BootRepairStarted /\ phase b = Phase.BootRepairComplete) ->
  exists c, successor c a = Ok b.
Proof.
  intros Hra Hrb Hadv Hn.
  destruct (plan_advance_facts _ _ _ _ Hadv) as (_ & _ & _ & _ & _ & _ & _ & Hb).
  pose proof (boot_repair_complete (phase a) plan plan') as Hrep.
  assert (phase a = Phase.BootRepairStarted ->
          exists bt, rp_boot plan' = bt /\
            (phase b = Phase.BootRepairComplete -> boot_repaired bt = true)
            /\ (phase b = Phase.BootRepairUnverified -> bt = BootRollback.Unverified)) as Hstarted.
  { intros _. exists (rp_boot plan'). split; [done|].
    pose proof (af_target _ _ F) as [lp V]%valid_iff_facts.
    destruct (vf_plan _ _ V _ Hrb) as [_ Hph]. unfold validate_rollback_phase in Hph.
    split; intros E; rewrite E in Hph; cbn in Hph; case_match; try done; by bool_prop. }
  destruct (decide (phase a = Phase.BootRepairStarted)) as [E|E].
  { destruct (Hstarted E) as (bt & Hbt & Hc & Hu). rewrite E in Hn, Hrep, Hadv. cbn in Hn.
    assert (phase b = Phase.BootRepairComplete \/ phase b = Phase.BootRepairUnverified) as [Eb | Eb]
      by (destruct Hn as [[= <-] | [_ ?]]; auto).
    - specialize (Hc Eb). exists (Call.BootRepairComplete
        (if bool_decide (bt = BootRollback.Applied) then BootRepairOutcome.Applied
         else BootRepairOutcome.AlreadySatisfied)).
      cbn. unfold boot_repair_complete_successor. rewrite <- Eb. apply Hrep; try done;
        rewrite ?Eb; try done. cbn. rewrite Hbt. by destruct bt.
    - exists Call.BootRepairUnverified. cbn. unfold boot_repair_unverified_successor.
      rewrite <- Eb. apply Hrep; try done; rewrite ?Eb; try done. cbn. rewrite Hbt. auto. }
  assert (rp_boot plan = rp_boot plan') as Hboot.
  { unfold boot_advance_allowed in Hb. rewrite (bool_decide_eq_false_2 _ E) in Hb.
    cbn in Hb. by bool_prop. }
  destruct Hn as [Hn | [? _]]; [|done].
  destruct (decide (phase a = Phase.BootRepairRequired)) as [E1|E1].
  { exists Call.BootRepairStarted. cbn. unfold boot_repair_started_successor.
    rewrite E1 in Hn, Hrep, Hadv. cbn in Hn. injection Hn as Hn.
    rewrite Hn. apply Hrep; try done; by rewrite <- ?Hn. }
  destruct (decide (phase a = Phase.BootRepairComplete)) as [E2|E2].
  { exists Call.BootRepairRollbackComplete. cbn. unfold boot_repair_rollback_complete_successor.
    rewrite E2 in Hn, Hrep, Hadv. cbn in Hn. injection Hn as Hn.
    rewrite Hn. apply Hrep; try done; by rewrite <- ?Hn. }
  destruct (rollback_complete plan plan') as [o Ho]; try done. by exists (Call.Rollback o).
Qed.
End complete.

Lemma advance_has_successor a b :
  advances a b ->
  (exists c, successor c a = Ok b)
  \/ (version a <> PAYLOAD_VERSION
      /\ (phase b = Phase.BootSyncStarted \/ phase b = Phase.BootSyncComplete)).
Proof.
  intros Had. destruct (advance_phase_step _ _ Had)
    as [cur nxt Hc Hr Hn Hb Hrb|cur plan Hc Hr Hal Hd Hpl Hsrc|plan plan' Hf Ha Hfb Hb Hn Hadv].
  - destruct (decide (version a = PAYLOAD_VERSION)) as [Hv|Hv].
    + left. destruct (decide (nxt = ForwardPhase.BootSyncStarted)) as [-> | H1].
      { destruct (boot_sync_started_complete a b Had cur) as [rs Hrs]; try done.
        by exists (Call.BootSyncStarted rs). }
      destruct (decide (nxt = ForwardPhase.BootSyncComplete)) as [-> | H2].
      { assert (cur = ForwardPhase.BootSyncStarted) as ->.
        { unfold next_forward_phase in Hn. destruct cur; repeat case_match; naive_solver. }
        destruct (boot_sync_complete_complete a b Had) as [rs Hrs]; try done.
        by exists (Call.BootSyncComplete rs). }
      destruct (forward_complete a b Had cur nxt) as [id Hid]; try done. by exists (Call.Forward id).
    + destruct (decide (nxt = ForwardPhase.BootSyncStarted)) as [-> | H1]; [by right; auto|].
      destruct (decide (nxt = ForwardPhase.BootSyncComplete)) as [-> | H2]; [by right; auto|].
      left. destruct (forward_complete a b Had cur nxt) as [id Hid]; try done.
      by exists (Call.Forward id).
  - left. destruct (decide_complete a b Had cur plan) as [obs Hobs]; try done. by exists (Call.Decide obs).
  - left. destruct (rollback_repair_cases a b Had plan plan') as [c Hc]; eauto.
Qed.

(** ** Sample transitions

    A concrete new-state transition with every option on, run through the typed
    constructors to its commit and to its rollback.  The witnesses of the journal
    theorems evaluate the definitions on these records. *)

Definition sample_epoch : RuntimeEpoch :=
  {| epoch_boot_id := {| boot_id_text := bstr "0c8f3a52-7d41-4e6b-9a10-5b2c3d4e5f60" |};
     epoch_mount_namespace := {| mns_st_dev := 4; mns_inode := 4026531841 |} |}.

Definition sample_tree (inode : Z) : RuntimeTreeIdentity :=
  {| rti_st_dev := 66306; rti_inode := inode; rti_mount_id := 29 |}.

Definition sample_previous : Previous :=
  {| prev_id := Some 6%Z;
     prev_tree_token := {| tree_token_text := bstr "00112233445566778899aabbccddeeff" |};
     prev_usr_runtime_identity := sample_tree 131;
     prev_origin := PreviousOrigin.ActiveState |}.

Definition sample : TransitionRecord :=
  {| format := PAYLOAD_FORMAT; version := PAYLOAD_VERSION; generation := 1;
     transition_id := {| transition_id_text := bstr "0123456789abcdef0123456789abcdef" |};
     creation_epoch := sample_epoch; operation := NewState; phase := Phase.Preparing;
     rollback := None; boot_publication_receipts := None;
     candidate := {| cand_id := None; cand_origin := CandidateOrigin.Fresh;
       cand_tree_token := {| tree_token_text := bstr "ffeeddccbbaa99887766554433221100" |};
       cand_usr_runtime_identity := sample_tree 977 |};
     previous := sample_previous;
     options := {| archive_previous := true; run_system_triggers := true; run_boot_sync := true |};
     quarantine_name := {| quarantine_text := bstr "failed-7" |} |}.

Lemma sample_preparing : preparing_record sample.
Proof.
  exists (transition_id sample), sample_epoch, NewState, None,
    (cand_tree_token (candidate sample)), (sample_tree 977), sample_previous, true, true,
    (quarantine_name sample).
  vm_compute. reflexivity.
Qed.

Definition sample_receipts : BootPublicationReceiptPair :=
  {| receipt_committed := None; receipt_pending := repeat x5a 32 |}.

(** A sequence of constructor calls, and every record it makes durable. *)
Fixpoint run_calls (calls : list Call.t) (r : TransitionRecord) : codec (list TransitionRecord) :=
  match calls with
  | [] => validate r;; Ok [r]
  | c :: calls' => r' ← successor c r; l ← run_calls calls' r'; Ok (r :: l)
  end.

Lemma run_calls_history calls r l :
  run_calls calls r = Ok l -> exists b, last l = Some b /\ history r l b.
Proof.
  revert r l. induction calls as [|c calls IH]; intros r l H; cbn in H; inv_ok.
  - exists r. split; [done|by constructor].
  - match goal with H : run_calls _ _ = Ok _ |- _ => apply IH in H as (b & Hl & Hh) end.
    exists b. split; [by rewrite last_cons, Hl|].
    econstructor; [by eapply successor_advances|done].
Qed.

Definition forward_to_boot : list Call.t :=
  [Call.Forward None; Call.Forward (Some 7%Z)] ++ repeat (Call.Forward None) 11
  ++ [Call.BootSyncStarted sample_receipts].

Definition commit_calls : list Call.t :=
  forward_to_boot
  ++ [Call.BootSyncComplete sample_receipts; Call.Forward None; Call.Forward None; Call.Forward None].

Definition sample_observations : RollbackObservations :=
  {| obs_allocated_candidate_id := None;
     obs_previous_archive := Some InitialRollbackAction.Pending;
     obs_usr_exchange := Some InitialRollbackAction.Pending;
     obs_candidate := InitialRollbackAction.Pending;
     obs_fresh_db := Some InitialRollbackAction.AlreadySatisfied |}.

Definition rollback_calls : list Call.t :=
  forward_to_boot ++ [Call.Decide sample_observations;
    Call.Rollback None; Call.Rollback (Some RollbackActionOutcome.Applied);
    Call.Rollback None; Call.Rollback (Some RollbackActionOutcome.AlreadySatisfied);
    Call.Rollback None; Call.Rollback (Some RollbackActionOutcome.Applied);
    Call.Rollback None; Call.BootRepairStarted;
    Call.BootRepairComplete BootRepairOutcome.Applied; Call.BootRepairRollbackComplete].

Definition records (calls : list Call.t) : list TransitionRecord :=
  default [] (result_ok (run_calls calls sample)).

Definition sample_at (calls : list Call.t) : TransitionRecord :=
  default sample (last (records calls)).

Lemma records_ok calls :
  is_ok (run_calls calls sample) = true -> history sample (records calls) (sample_at calls).
Proof.
  unfold records, sample_at, records. destruct (run_calls calls sample) as [l|] eqn:H; [|done].
  intros _. destruct (run_calls_history _ _ _ H) as (b & Hl & Hh). cbn. by rewrite Hl.
Qed.
