(* ===== verification/JournalAtomicity.v ===== *)
(** * The journal contract: a transition commits or rolls back, and nothing between

    The abstract specification of a transition ([Outcome.t] with its step relation),
    the refinement of it by [validate_advance], and what the history of a finished
    transition guarantees: a committed one went through every enabled phase in
    order, a rolled back one has undone exactly the effects it had started.  Models
    of [crates/forge/src/transition_journal/validation.rs] are in
    [JournalValidation]; this file holds their specification and theorems. *)

From S2P Require Import Prelude JournalModel JournalValidation JournalMachine JournalSuccessors.

(** ** The abstract transition *)

Module Outcome.
Inductive t :=
  | Open
  | Committing
  | Committed
  | RollingBack (source : ForwardPhase.t)
  | RolledBack (source : ForwardPhase.t)
  | Unverified (source : ForwardPhase.t).

(** A transition may commit or begin to roll back while it is open; either
    decision is final, and three outcomes end it. *)
Inductive step : t -> t -> Prop :=
  | open_stays : step Open Open
  | open_commits : step Open Committing
  | open_rolls_back s : step Open (RollingBack s)
  | committing_stays : step Committing Committing
  | committing_ends : step Committing Committed
  | rolling_back_stays s : step (RollingBack s) (RollingBack s)
  | rolling_back_ends s : step (RollingBack s) (RolledBack s)
  | rolling_back_stops s : step (RollingBack s) (Unverified s).

Definition committing (o : t) : bool :=
  match o with Committing | Committed => true | _ => false end.
Definition rolling_back (o : t) : option ForwardPhase.t :=
  match o with RollingBack s | RolledBack s | Unverified s => Some s | _ => None end.

Lemma step_committing o o' : step o o' -> committing o = true -> committing o' = true.
Proof. by destruct 1. Qed.

Lemma step_rolling_back o o' s : step o o' -> rolling_back o = Some s -> rolling_back o' = Some s.
Proof. by destruct 1. Qed.
End Outcome.

Definition forward_outcome (p : ForwardPhase.t) : Outcome.t :=
  match p with
  | ForwardPhase.BootSyncComplete | ForwardPhase.CommitDecided
  | ForwardPhase.CommitCleanupComplete => Outcome.Committing
  | ForwardPhase.Complete => Outcome.Committed
  | _ => Outcome.Open
  end.

Definition rollback_outcome (p : Phase.t) (source : ForwardPhase.t) : Outcome.t :=
  match p with
  | Phase.RollbackComplete => Outcome.RolledBack source
  | Phase.BootRepairUnverified => Outcome.Unverified source
  | _ => Outcome.RollingBack source
  end.

(** The abstraction function: [None] for the records no valid history holds. *)
Definition outcome (r : TransitionRecord) : option Outcome.t :=
  match forward (phase r), rollback r with
  | Some p, None => Some (forward_outcome p)
  | None, Some plan => Some (rollback_outcome (phase r) (rp_source plan))
  | _, _ => None
  end.

(** ** Effects of a transition and their rollback *)

Module Effect.
Inductive t := PreviousArchive | UsrExchange | CandidateTree | FreshDb | BootSync.

(** The phase that is durable before the effect may be observed. *)
Definition started_at (e : t) : ForwardPhase.t :=
  match e with
  | PreviousArchive => ForwardPhase.PreviousArchiveIntent
  | UsrExchange => ForwardPhase.UsrExchangeIntent
  | CandidateTree => ForwardPhase.Preparing
  | FreshDb => ForwardPhase.FreshStateAllocating
  | BootSync => ForwardPhase.BootSyncStarted
  end.

Definition required (e : t) (plan : RollbackPlan) : bool :=
  match e with
  | PreviousArchive => action_required (rp_previous_archive plan)
  | UsrExchange => action_required (rp_usr_exchange plan)
  | CandidateTree => action_required (cr_action (rp_candidate plan))
  | FreshDb => action_required (rp_fresh_db plan)
  | BootSync => negb (bool_decide (rp_boot plan = BootRollback.NotRequired))
  end.

Definition undone (e : t) (plan : RollbackPlan) : bool :=
  match e with
  | PreviousArchive => action_resolved (rp_previous_archive plan)
  | UsrExchange => action_resolved (rp_usr_exchange plan)
  | CandidateTree => action_resolved (cr_action (rp_candidate plan))
  | FreshDb => action_resolved (rp_fresh_db plan)
  | BootSync => boot_repaired (rp_boot plan)
  end.
End Effect.

Definition effect_started (e : Effect.t) (l : list TransitionRecord) : Prop :=
  exists r, r ∈ l /\ phase r = Phase_from (Effect.started_at e).

(** ** Lemmas *)

Lemma valid_outcome r : valid r -> is_Some (outcome r).
Proof.
  intros Hv. unfold outcome. destruct (forward (phase r)) as [p|] eqn:Hf.
  - rewrite (valid_forward_no_plan r Hv) by eauto. eauto.
  - destruct (valid_rollback_has_plan r Hv Hf) as (? & -> & _). eauto.
Qed.

Lemma outcome_forward r p :
  phase r = Phase_from p -> rollback r = None -> outcome r = Some (forward_outcome p).
Proof. intros H1 H2. unfold outcome. by rewrite (proj2 (forward_iff _ _) H1), H2. Qed.

Lemma outcome_rollback r plan :
  forward (phase r) = None -> rollback r = Some plan ->
  outcome r = Some (rollback_outcome (phase r) (rp_source plan)).
Proof. intros H1 H2. unfold outcome. by rewrite H1, H2. Qed.

Lemma advance_outcome a b :
  advances a b ->
  exists o o', outcome a = Some o /\ outcome b = Some o' /\ Outcome.step o o'.
Proof.
  intros H. pose proof (af_open _ _ (proj1 (advances_iff_facts _ _) H)) as Hopen.
  destruct (advance_phase_step _ _ H)
    as [cur nxt Hc Hr Hn Hb Hrb|cur plan Hc Hr Hal Hd Hpl Hsrc|plan plan' Hf Ha Hfb Hb Hn Hadv].
  - rewrite (outcome_forward a cur), (outcome_forward b nxt) by done. do 2 eexists. split_and!; eauto.
    unfold next_forward_phase in Hn. destruct cur; cbn in Hn; repeat case_match; simplify_eq; constructor.
  - rewrite (outcome_forward a cur), (outcome_rollback b plan), Hd by (by rewrite ?Hd).
    do 2 eexists. split_and!; eauto. destruct cur; try done; constructor.
  - rewrite (outcome_rollback a plan), (outcome_rollback b plan') by done.
    rewrite (plan_advance_source _ _ _ _ Hadv). do 2 eexists. split_and!; eauto.
    destruct (phase a); try done; destruct (phase b); try done; constructor.
Qed.

Lemma history_outcome a l b :
  history a l b ->
  exists o o', outcome a = Some o /\ outcome b = Some o' /\ rtc Outcome.step o o'.
Proof.
  induction 1 as [r [o Ho]%valid_outcome|a b l c Had _ (o1 & o2 & H1 & H2 & H3)]; [by exists o, o|].
  destruct (advance_outcome _ _ Had) as (o & o' & Ha & Hb & Hs). exists o, o2.
  split_and!; try done. eapply rtc_l; [done|]. congruence.
Qed.

Lemma valid_layout_phase r : valid r -> exists s, record_layout_phase r = Ok s /\ phase_enabled r s = true.
Proof.
  intros [s F]%valid_iff_facts. exists s. split; [apply F|].
  apply option_reachability_enabled, (vf_reachable _ _ F).
Qed.

Lemma validate_rollback_requirement_ok n a possible :
  validate_rollback_requirement n a possible = Ok tt <-> action_required a = possible.
Proof.
  unfold validate_rollback_requirement. destruct (Bool.eqb _ _) eqn:H.
  - apply eqb_prop in H. naive_solver.
  - apply eqb_false_iff in H. naive_solver.
Qed.

(** A valid plan requires exactly the effects whose first phase is enabled and not
    after the phase it rolls back from. *)
Lemma valid_plan_required r plan e :
  valid r -> rollback r = Some plan ->
  Effect.required e plan = phase_enabled r (Effect.started_at e)
    && (ordinal (Effect.started_at e) <=? ordinal (rp_source plan))%nat.
Proof.
  intros Hv Hr. pose proof Hv as [lp F]%valid_iff_facts.
  destruct (vf_plan _ _ F _ Hr) as [Hp _]. unfold validate_rollback_plan in Hp. inv_ok. bool_prop.
  rewrite !validate_rollback_requirement_ok in *.
  destruct e; cbn [Effect.required Effect.started_at phase_enabled ordinal]; try done.
  assert (forward (phase r) = None) as Hf.
  { destruct (forward (phase r)) eqn:Hf; [|done].
    by rewrite (valid_forward_no_plan r Hv (ex_intro _ _ Hf)) in Hr. }
  assert (lp = rp_source plan) as ->.
  { destruct (layout_phase_rollback _ _ Hf (vf_layout _ _ F)) as (? & ? & ? & _). congruence. }
  destruct (valid_rollback_has_plan r Hv Hf) as (pl & Hpl & Hal). simplify_eq.
  pose proof (vf_reachable _ _ F) as He%option_reachability_enabled.
  destruct (rp_source plan); try done; destruct (rp_boot plan); cbn in *; try done;
    destruct (run_boot_sync _); done.
Qed.

Lemma rollback_complete_undone r plan e :
  valid r -> rollback r = Some plan -> phase r = Phase.RollbackComplete ->
  Effect.undone e plan = Effect.required e plan.
Proof.
  intros [lp F]%valid_iff_facts Hr Hp. destruct (vf_plan _ _ F _ Hr) as [_ H].
  unfold validate_rollback_phase in H. rewrite Hp in H. cbn in H.
  match type of H with (if ?b then _ else _) = _ => destruct b eqn:Hb end; [|done].
  unfold ordinary_actions_resolved in Hb. cbn in Hb. bool_prop. cbn in *. bool_prop.
  destruct e; cbn.
  all: repeat match goal with
    | H : action_settled ?x = true |- context [?x] => by destruct x
    | H : _ || boot_repaired ?x = true |- _ => destruct x; cbn in *
    end; done.
Qed.

Lemma effect_started_iff r0 l r plan e :
  phase r0 = Phase.Preparing -> history r0 l r -> rollback r = Some plan ->
  effect_started e l <-> Effect.required e plan = true.
Proof.
  intros Hp Hh Hr. destruct (history_valid _ _ _ Hh) as [_ Hv].
  assert (forward (phase r) = None) as Hf.
  { destruct (forward (phase r)) eqn:Hf; [|done].
    by rewrite (valid_forward_no_plan r Hv (ex_intro _ _ Hf)) in Hr. }
  destruct (valid_layout_phase r Hv) as (s & Hs & _).
  destruct (layout_phase_rollback r s Hf Hs) as (plan' & ? & Hsrc & _). simplify_eq.
  destruct (history_shape r0 l r ForwardPhase.Preparing _ Hh Hp Hs)
    as (_ & fwd & rb & -> & Hfwd & Hrb & _).
  rewrite (valid_plan_required r plan e Hv Hr), andb_true_iff, Nat.leb_le.
  rewrite <- (phase_enabled_same r0 r) by by eapply history_same.
  set (st := Effect.started_at e). transitivity (st ∈ path_between r0 ForwardPhase.Preparing (rp_source plan)).
  2:{ rewrite list_elem_of_In, path_between_In. cbn. split; [naive_solver lia|naive_solver lia]. }
  transitivity (Phase_from st ∈ phase <$> fwd).
  2:{ rewrite Hfwd, list_elem_of_fmap. split; [intros (x & ->%(inj Phase_from) & ?); done|eauto]. }
  rewrite list_elem_of_fmap. split.
  - intros (x & [Hx | Hx]%elem_of_app & Hpx); [eauto|].
    rewrite Forall_forall in Hrb. specialize (Hrb x Hx). by rewrite Hpx, (proj2 (forward_iff _ _) eq_refl) in Hrb.
  - intros (x & Hpx & Hx). exists x. split; [apply elem_of_app; by left|done].
Qed.

Lemma history_decision_final a l b o :
  history a l b -> outcome a = Some o ->
  exists o', outcome b = Some o' /\ rtc Outcome.step o o'.
Proof. intros Hh Ho. destruct (history_outcome _ _ _ Hh) as (? & o' & ? & ? & ?). simplify_eq. eauto. Qed.

Lemma rtc_committing o o' :
  rtc Outcome.step o o' -> Outcome.committing o = true -> Outcome.committing o' = true.
Proof. induction 1; eauto using Outcome.step_committing. Qed.

Lemma rtc_rolling_back o o' s :
  rtc Outcome.step o o' -> Outcome.rolling_back o = Some s -> Outcome.rolling_back o' = Some s.
Proof. induction 1; eauto using Outcome.step_rolling_back. Qed.

(** ** Theorems *)

(** C3: a finished transition is all or nothing.  Take any history that starts at a
    [preparing] record and ends at a record the journal may delete.  Either the
    transition completed, and its durable phases are exactly the phases its operation
    and options enable, in order; or it was rolled back from a phase before the point
    of no return, and for every effect (archive, [/usr] exchange, candidate tree,
    database row, boot sync) the final plan reports the effect undone exactly when
    the history shows it was started. *)
Theorem transition_atomic r0 l r :
  preparing_record r0 -> history r0 l r -> deletable (phase r) = true ->
  (phase r = Phase.Complete
   /\ phase <$> l = Phase_from <$> List.filter (phase_enabled r0) forward_phases)
  \/ (exists plan, phase r = Phase.RollbackComplete /\ rollback r = Some plan
       /\ rollback_allowed r (rp_source plan) = true
       /\ forall e, (effect_started e l <-> Effect.undone e plan = true)
                    /\ Effect.required e plan = Effect.undone e plan).
Proof.
  intros (_ & Hp & _)%preparing_facts Hh Hd. destruct (history_valid _ _ _ Hh) as [_ Hv].
  assert (phase r = Phase.Complete \/ phase r = Phase.RollbackComplete) as [Hc | Hc]
    by (destruct (phase r); try done; auto).
  - left. split; [done|]. destruct (valid_layout_phase r Hv) as (s & Hs & _).
    pose proof (layout_phase_forward r ForwardPhase.Complete s Hc Hs) as ->.
    destruct (history_shape _ _ _ ForwardPhase.Preparing _ Hh Hp Hs)
      as (_ & fwd & rb & -> & Hfwd & _ & Hnil).
    rewrite (proj2 Hnil), app_nil_r, Hfwd by by rewrite Hc.
    f_equal. apply path_between_complete.
  - right. assert (forward (phase r) = None) as Hf by by rewrite Hc.
    destruct (valid_rollback_has_plan r Hv Hf) as (plan & Hr & Hal).
    exists plan. split_and!; [done..|]. intros e.
    rewrite (effect_started_iff _ _ _ _ e Hp Hh Hr), (rollback_complete_undone r plan e Hv Hr Hc). done.
Qed.

Lemma transition_atomic_witness :
  exists plan, rollback (sample_at rollback_calls) = Some plan
    /\ effect_started Effect.BootSync (records rollback_calls)
    /\ forall e, effect_started e (records rollback_calls) <-> Effect.undone e plan = true.
Proof.
  destruct (transition_atomic sample (records rollback_calls) (sample_at rollback_calls)
    sample_preparing (records_ok rollback_calls ltac:(vm_compute; reflexivity))
    ltac:(vm_compute; reflexivity)) as [[H _] | (plan & _ & Hr & _ & He)].
  - vm_compute in H. discriminate H.
  - exists plan. split_and!; [done| |intros e; apply He]. apply He.
    vm_compute in Hr. injection Hr as <-. reflexivity.
Defined.

(** C4: refinement of the abstract transition.  Every advance the journal admits is a
    step of the abstract machine between the abstractions of its two records, so
    along any history a commit decision stays a commit and a rollback decision stays
    a rollback from the same source phase. *)
Theorem advance_refines_outcome a b l c :
  validate_advance a b = Ok tt -> history b l c ->
  exists oa ob oc,
    outcome a = Some oa /\ outcome b = Some ob /\ outcome c = Some oc
    /\ Outcome.step oa ob
    /\ (Outcome.committing oa = true -> Outcome.committing oc = true)
    /\ (forall s, Outcome.rolling_back oa = Some s -> Outcome.rolling_back oc = Some s).
Proof.
  intros Had Hh. destruct (advance_outcome _ _ Had) as (oa & ob & Ha & Hb & Hs).
  destruct (history_decision_final _ _ _ _ Hh Hb) as (oc & Hc & Hrtc).
  exists oa, ob, oc. split_and!; try done.
  - intros Hcm. by eapply rtc_committing, Outcome.step_committing.
  - intros s Hrb. by eapply rtc_rolling_back, Outcome.step_rolling_back.
Qed.

Lemma advance_refines_outcome_witness :
  exists oa ob oc, outcome (sample_at forward_to_boot) = Some oa
    /\ outcome (sample_at (forward_to_boot ++ [Call.BootSyncComplete sample_receipts])) = Some ob
    /\ outcome (sample_at (forward_to_boot ++ [Call.BootSyncComplete sample_receipts])) = Some oc
    /\ Outcome.step oa ob
    /\ (Outcome.committing oa = true -> Outcome.committing oc = true)
    /\ (forall s, Outcome.rolling_back oa = Some s -> Outcome.rolling_back oc = Some s).
Proof.
  refine (advance_refines_outcome _ _
    [sample_at (forward_to_boot ++ [Call.BootSyncComplete sample_receipts])] _ _ _).
  - vm_compute. reflexivity.
  - constructor. vm_compute. reflexivity.
Defined.
