(* ===== verification/JournalLiveness.v ===== *)
(** * The journal never gets stuck: every unfinished transition has its next record

    For each typed constructor of [JournalSuccessors] the inputs it accepts on a
    valid record, and from them the liveness of recovery: whatever durable record a
    crash leaves, the direction [recovery_disposition] names can be followed to a
    record that ends the transition. *)

From S2P Require Import Prelude JournalModel JournalValidation JournalMachine JournalSuccessors.

(** A record's generation leaves room for [n] more advances. *)
Definition room (n : Z) (r : TransitionRecord) : Prop := (0 <= generation r /\ generation r + n < 2 ^ 64)%Z.

Lemma room_next_generation r : room 1 r -> next_generation r = Ok (generation r + 1)%Z.
Proof. intros H. apply ok_or_ok_iff, checked_width_Some. split; [done|apply H]. Qed.

(** A positive state ID that is not the previous state's. *)
Definition fresh_id (r : TransitionRecord) (id : Z) : Prop :=
  (0 < id)%Z /\ prev_id (previous r) <> Some id.

Lemma relationships_same a b :
  same_transition a b -> validate_relationships a = Ok tt ->
  validate_operation_states b = Ok tt -> validate_relationships b = Ok tt.
Proof.
  intros [] H Hop. unfold validate_relationships in *.
  rewrite <- st_candidate_token, <- st_previous, <- st_candidate_identity, <- st_options.
  inv_ok. by step_ok.
Qed.

Section step.
Context (a : TransitionRecord) (lp : ForwardPhase.t) (V : valid_facts a lp).
Context (Hroom : room 1 a).

Let next p rb rs cid := with_step (generation a + 1) p rb rs cid a.

Lemma next_same p rb rs cid : same_transition a (next p rb rs cid).
Proof using. by constructor. Qed.

(** The candidate's state ID in the next record: kept, or a fresh one. *)
Definition id_admitted (cid : option Z) : Prop :=
  cid = cand_id (candidate a)
  \/ (cand_id (candidate a) = None /\ operation a = NewState
      /\ exists id, cid = Some id /\ fresh_id a id).

Lemma next_ids p rb rs cid :
  id_admitted cid ->
  validate_state_ids (omap id [cand_id (candidate (next p rb rs cid)); prev_id (previous a)]) = Ok tt.
Proof using V.
  intros [-> | (Hn & _ & id & -> & Hid & _)]; [apply (vf_ids _ _ V)|].
  pose proof (vf_ids _ _ V) as H. rewrite Hn in H. cbn in *.
  by rewrite (proj2 (Z.leb_gt id 0) Hid).
Qed.

Lemma next_operation_states p rb rs cid :
  id_admitted cid -> validate_operation_states a = Ok tt ->
  validate_operation_states (next p rb rs cid) = Ok tt.
Proof using.
  unfold validate_operation_states.
  intros [-> | (Hn & Hop & id & -> & Hid)] H; [exact H|]. cbn. rewrite Hop, Hn in *.
  apply seq_ok_iff in H as [-> _]. cbn.
  apply reject_ok_iff, bool_decide_eq_false_2. intros E. by apply Hid.
Qed.

Lemma next_relationships p rb rs cid :
  id_admitted cid -> validate_relationships (next p rb rs cid) = Ok tt.
Proof using V.
  intros Hid. apply (relationships_same a); [apply next_same|apply V|].
  apply next_operation_states; [done|]. pose proof (vf_relationships _ _ V) as H.
  unfold validate_relationships in H. by inv_ok.
Qed.

Lemma next_valid p rb rs cid lp' :
  id_admitted cid ->
  validate_v1 (next p rb rs cid) = Ok tt ->
  record_layout_phase (next p rb rs cid) = Ok lp' ->
  validate_boot_publication_receipts (next p rb rs cid) lp' = Ok tt ->
  phase_enabled a lp' = true ->
  validate_candidate_layout (next p rb rs cid) lp' = Ok tt ->
  (forall plan, rb = Some plan ->
    validate_rollback_plan a plan = Ok tt /\ validate_rollback_phase p plan = Ok tt) ->
  valid (next p rb rs cid).
Proof using V Hroom.
  intros Hid Hv1 Hl Hr He Hc Hp. apply valid_iff_facts. exists lp'. constructor; try done; try apply V.
  - cbn. destruct Hroom. lia.
  - by apply next_ids.
  - by apply option_reachability_enabled.
  - by apply next_relationships.
Qed.

Lemma next_advances p rb rs cid :
  valid (next p rb rs cid) -> blocks_advance (phase a) = false ->
  receipts_advance a (next p rb rs cid) -> phase_step a (next p rb rs cid) ->
  candidate_id_advance a (next p rb rs cid) ->
  advances a (next p rb rs cid).
Proof using V Hroom.
  intros Hv Hb Hr Hs Hc. apply advances_iff_facts. constructor; try done.
  - apply valid_iff_facts. eauto.
  - apply Hroom.
  - by apply phase_step_advance.
Qed.

Lemma valid_source : valid a.
Proof using V. apply valid_iff_facts. eauto. Qed.
End step.

#[export] Hint Resolve valid_source : cast.

(** ** Forward *)

Lemma enabled_next r p q :
  phase_enabled r p = true -> next_forward_phase r p = Some q -> phase_enabled r q = true.
Proof.
  unfold next_forward_phase, phase_enabled, runs_transaction_triggers.
  destruct r as [? ? ? ? ? op ? ? ? ? ? [ar st bs] ?].
  destruct p, op, ar, st, bs; vm_compute; intros ? [= <-]; congruence.
Qed.

Lemma receipts_ok_iff r lp :
  validate_boot_publication_receipts r lp = Ok tt <->
  if is_legacy_version (version r) then boot_publication_receipts r = None
  else bool_decide (is_Some (boot_publication_receipts r))
       = run_boot_sync (options r) && (ordinal ForwardPhase.BootSyncStarted <=? ordinal lp)%nat.
Proof.
  unfold validate_boot_publication_receipts. destruct (is_legacy_version _).
  - case_bool_decide; naive_solver.
  - cbv zeta. match goal with |- context [Bool.eqb ?x ?y] => destruct (Bool.eqb x y) eqn:E end.
    + apply eqb_prop in E. naive_solver.
    + apply eqb_false_iff in E. naive_solver.
Qed.

Lemma next_before_boot r p q :
  phase_enabled r p = true -> next_forward_phase r p = Some q -> q <> ForwardPhase.BootSyncStarted ->
  run_boot_sync (options r) && (ordinal ForwardPhase.BootSyncStarted <=? ordinal q)%nat
  = run_boot_sync (options r) && (ordinal ForwardPhase.BootSyncStarted <=? ordinal p)%nat.
Proof.
  unfold next_forward_phase, phase_enabled, runs_transaction_triggers.
  destruct r as [? ? ? ? ? op ? ? ? ? ? [ar st bs] ?].
  destruct p, op, ar, st, bs; vm_compute; intros ? [= <-]; congruence.
Qed.

(** Where an ordinary forward step takes a state ID. *)
Definition forward_id (a : TransitionRecord) (p : ForwardPhase.t) (arg cid : option Z) : Prop :=
  if bool_decide (p = ForwardPhase.FreshStateAllocating)
  then cid = arg /\ exists id, arg = Some id /\ fresh_id a id
  else cid = cand_id (candidate a) /\ arg = None.

Section forward.
Context (a : TransitionRecord) (p q : ForwardPhase.t) (V : valid_facts a p).
Context (Hroom : room 1 a) (Hp : phase a = Phase_from p).
Context (Hn : next_forward_phase a p = Some q).

Let Va : valid a := proj2 (valid_iff_facts a) (ex_intro _ p V).

Lemma forward_no_plan : rollback a = None.
Proof using Hp V. apply (valid_forward_no_plan a Va). rewrite (proj2 (forward_iff _ _) Hp). eauto. Qed.

Lemma forward_candidate_layout rs arg cid :
  forward_id a p arg cid ->
  validate_candidate_layout (with_step (generation a + 1) (Phase_from q) None rs cid a) q = Ok tt
  /\ id_admitted a cid.
Proof using V Hp Hn Va.
  intros Hid. pose proof (vf_candidate _ _ V) as Hc. pose proof (valid_phase_enabled a p Va Hp) as He.
  pose proof forward_no_plan as Hr.
  unfold validate_candidate_layout, candidate_id_required, require_option_presence, forward_id,
    id_admitted in *. cbn in *. rewrite Hr in Hc.
  destruct (decide (p = ForwardPhase.FreshStateAllocating)) as [Hfp|Hfp];
    [rewrite (bool_decide_eq_true_2 _ Hfp) in Hid|rewrite (bool_decide_eq_false_2 _ Hfp) in Hid].
  - destruct Hid as (-> & id & -> & Hid). subst p. cbn in Hn, He. injection Hn as <-. bool_prop.
    rewrite He in *. cbn in Hc. inv_ok. bool_prop. apply eqb_prop in Hc. bool_prop.
    split; [done|]. right. apply eq_None_not_Some in Hc. eauto.
  - destruct Hid as [-> _]. split; [|by left]. destruct (operation a) eqn:Hop; [|done..].
    destruct p, q; try done; unfold next_forward_phase in Hn; rewrite ?Hop in Hn; cbn in Hn;
      repeat case_match; done.
Qed.

Lemma forward_step_ok rs arg cid :
  forward_id a p arg cid ->
  validate_boot_publication_receipts
    (with_step (generation a + 1) (Phase_from q) None rs cid a) q = Ok tt ->
  receipts_advance a (with_step (generation a + 1) (Phase_from q) None rs cid a) ->
  advances a (with_step (generation a + 1) (Phase_from q) None rs cid a).
Proof.
  intros Hid Hrs Hra. destruct (forward_candidate_layout rs arg cid Hid) as [Hl Hadm].
  pose proof (valid_phase_enabled a p Va Hp) as He. pose proof forward_no_plan as Hr.
  apply (next_advances a p); try done.
  - apply (next_valid a p V Hroom _ _ _ _ q); try done.
    + unfold validate_v1. cbn. destruct (_ =? _)%Z; [|done].
      rewrite bool_decide_eq_false_2; [done|]. by destruct q.
    + unfold record_layout_phase. cbn. by rewrite (proj2 (forward_iff _ _) eq_refl).
    + by eapply enabled_next.
  - rewrite Hp. by destruct p.
  - by eapply step_forward.
  - unfold candidate_id_advance. cbn. unfold forward_id in Hid. case_bool_decide as E.
    + destruct Hid as (-> & id & -> & _). subst p. cbn in Hn. injection Hn as <-.
      destruct Hadm as [<- | (? & _)]; [by left|]. right. rewrite Hp. eauto.
    + left. by destruct Hid.
Qed.

(** [forward_successor] succeeds on every enabled edge but the two boot ones. *)
Lemma forward_progress arg cid :
  q <> ForwardPhase.BootSyncStarted -> q <> ForwardPhase.BootSyncComplete ->
  forward_id a p arg cid ->
  forward_successor arg a
  = Ok (with_step (generation a + 1) (Phase_from q) None (boot_publication_receipts a) cid a).
Proof.
  intros Hq1 Hq2 Hid. pose proof forward_no_plan as Hr.
  assert (advances a
    (with_step (generation a + 1) (Phase_from q) None (boot_publication_receipts a) cid a)) as Had.
  { apply (forward_step_ok _ arg); [done| |by left].
    apply receipts_ok_iff. cbn. pose proof (vf_receipts _ _ V) as H. apply receipts_ok_iff in H.
    destruct (is_legacy_version _); [done|]. rewrite H. symmetry.
    apply next_before_boot; [by apply valid_phase_enabled|done..]. }
  unfold forward_successor. rewrite Va, (proj2 (forward_iff _ _) Hp). cbn. rewrite Hn. cbn.
  rewrite (bool_decide_eq_false_2 _ Hq1), (bool_decide_eq_false_2 _ Hq2). cbn.
  unfold forward_id in Hid. destruct (decide (p = ForwardPhase.FreshStateAllocating)) as [E|E].
  - rewrite (bool_decide_eq_true_2 _ E) in Hid. destruct Hid as (-> & id & -> & _). subst p.
    cbn in Hn. injection Hn as <-. rewrite !bool_decide_eq_true_2 by done. cbn.
    rewrite (room_next_generation a Hroom), Hr. cbn in Had |- *. by rewrite Had.
  - rewrite (bool_decide_eq_false_2 _ E) in Hid. destruct Hid as (-> & ->).
    rewrite (bool_decide_eq_false_2 ((_, _) = _)) by (by intros ?; simplify_eq). cbn.
    rewrite (room_next_generation a Hroom), Hr. cbn. by rewrite Had.
Qed.
End forward.

Lemma boot_sync_started_progress a p rs :
  valid_facts a p -> room 1 a -> phase a = Phase_from p -> version a = PAYLOAD_VERSION ->
  next_forward_phase a p = Some ForwardPhase.BootSyncStarted ->
  boot_sync_started_successor rs a
  = Ok (with_step (generation a + 1) Phase.BootSyncStarted None (Some rs) (cand_id (candidate a)) a).
Proof.
  intros V Hroom Hp Hver Hn. pose proof (forward_no_plan a p V Hp) as Hr.
  pose proof (valid_source a p V) as Va. pose proof (valid_phase_enabled a p Va Hp) as He.
  assert (forall q, next_forward_phase a p = Some q -> phase_enabled a q = true) as Heq
    by eauto using enabled_next. specialize (Heq _ Hn). cbn in Heq.
  assert (boot_publication_receipts a = None) as Hnone.
  { pose proof (vf_receipts _ _ V) as H. apply receipts_ok_iff in H. rewrite Hver in H. cbn in H.
    apply next_forward_phase_ordinal in Hn. cbn in Hn.
    assert ((ordinal ForwardPhase.BootSyncStarted <=? ordinal p)%nat = false) as Hlt
      by (apply Nat.leb_gt; cbn; lia). cbn in Hlt. rewrite Hlt, andb_false_r in H.
    bool_prop. by apply eq_None_not_Some. }
  assert (advances a (with_step (generation a + 1) Phase.BootSyncStarted None (Some rs)
    (cand_id (candidate a)) a)) as Had.
  { apply (forward_step_ok a p ForwardPhase.BootSyncStarted V Hroom Hp Hn _ None).
    - unfold forward_id. rewrite bool_decide_eq_false_2; [done|]. intros ->. by cbn in Hn.
    - apply receipts_ok_iff. cbn. by rewrite Hver, Heq.
    - right. cbn. eauto. }
  unfold boot_sync_started_successor. rewrite Va, Hver. cbn.
  rewrite (proj2 (forward_iff _ _) Hp). cbn. rewrite bool_decide_eq_true_2 by done. cbn.
  rewrite (room_next_generation a Hroom), Hr. cbn. by rewrite Had.
Qed.

Lemma boot_sync_complete_progress a :
  valid a -> room 1 a -> phase a = Phase.BootSyncStarted -> version a = PAYLOAD_VERSION ->
  exists rs, boot_publication_receipts a = Some rs /\
    boot_sync_complete_successor rs a
    = Ok (with_step (generation a + 1) Phase.BootSyncComplete None (Some rs)
            (cand_id (candidate a)) a).
Proof.
  intros Va Hroom Hp Hver. pose proof Va as [p V]%valid_iff_facts.
  pose proof (layout_phase_forward a ForwardPhase.BootSyncStarted p Hp (vf_layout _ _ V)) as ->.
  pose proof (forward_no_plan a _ V Hp) as Hr.
  destruct (boot_receipts_present a Va Hver (or_introl Hp)) as [rs Hrs]. exists rs. split; [done|].
  assert (advances a (with_step (generation a + 1) Phase.BootSyncComplete None (Some rs)
    (cand_id (candidate a)) a)) as Had.
  { apply (forward_step_ok a ForwardPhase.BootSyncStarted ForwardPhase.BootSyncComplete
      V Hroom Hp eq_refl _ None); [done| |by left].
    pose proof (vf_receipts _ _ V) as H. apply receipts_ok_iff in H. apply receipts_ok_iff. cbn in *.
    rewrite Hver in *. cbn in *. by rewrite Hrs in H. }
  unfold boot_sync_complete_successor. rewrite Va, Hver. cbn.
  rewrite !bool_decide_eq_true_2 by done. cbn.
  rewrite (room_next_generation a Hroom), Hr, Hrs. cbn. by rewrite Had.
Qed.

(** ** The rollback decision *)

(** Observations that classify exactly the effects the source phase makes possible,
    and name the allocated state when its database row must be invalidated. *)
Definition observations_fit (a : TransitionRecord) (p : ForwardPhase.t) (obs : RollbackObservations)
    : Prop :=
  bool_decide (is_Some (obs_previous_archive obs)) = previous_archive_possible a p
  /\ bool_decide (is_Some (obs_usr_exchange obs)) = usr_exchange_possible p
  /\ bool_decide (is_Some (obs_fresh_db obs)) = fresh_db_possible a p
  /\ if bool_decide (p = ForwardPhase.FreshStateAllocating
                     /\ obs_fresh_db obs = Some InitialRollbackAction.Pending)
     then exists id, obs_allocated_candidate_id obs = Some id /\ fresh_id a id
     else obs_allocated_candidate_id obs = None.

Definition initial_action (o : option InitialRollbackAction.t) : RollbackAction.t :=
  from_option InitialRollbackAction.into RollbackAction.NotRequired o.

Definition decided_plan (a : TransitionRecord) (p : ForwardPhase.t) (obs : RollbackObservations)
    : RollbackPlan :=
  {| rp_source := p;
     rp_previous_archive := initial_action (obs_previous_archive obs);
     rp_usr_exchange := initial_action (obs_usr_exchange obs);
     rp_candidate :=
       {| cr_action := InitialRollbackAction.into (obs_candidate obs);
          cr_disposition := candidate_disposition_for a p |};
     rp_fresh_db := initial_action (obs_fresh_db obs);
     rp_boot := if bool_decide (p = ForwardPhase.BootSyncStarted)
                then BootRollback.PendingUnverifiable else BootRollback.NotRequired;
     rp_external_effects_may_remain := external_effects a p |}.

Definition decided (a : TransitionRecord) (p : ForwardPhase.t) (obs : RollbackObservations)
    : TransitionRecord :=
  with_step (generation a + 1) Phase.RollbackDecided (Some (decided_plan a p obs))
    (boot_publication_receipts a)
    (if cand_id (candidate a) is Some id then Some id else obs_allocated_candidate_id obs) a.

Lemma initial_action_required o : action_required (initial_action o) = bool_decide (is_Some o).
Proof. by destruct o as [[]|]. Qed.

Lemma initial_not_applied o : not_applied (initial_action o) = true.
Proof. by destruct o as [[]|]. Qed.

Lemma observed_initial_ok n possible o :
  bool_decide (is_Some o) = possible -> observed_initial_action n possible o = Ok (initial_action o).
Proof. intros <-. by destruct o as [[]|]. Qed.

Lemma requirement_ok n act possible :
  action_required act = possible -> validate_rollback_requirement n act possible = Ok tt.
Proof. intros <-. unfold validate_rollback_requirement. by rewrite Bool.eqb_reflx. Qed.

Lemma decided_plan_valid a p obs :
  observations_fit a p obs ->
  validate_rollback_plan a (decided_plan a p obs) = Ok tt
  /\ validate_rollback_phase Phase.RollbackDecided (decided_plan a p obs) = Ok tt.
Proof.
  intros (Hpa & Hue & Hfd & _). split.
  - unfold validate_rollback_plan. cbn [decided_plan rp_source rp_previous_archive rp_usr_exchange
      rp_candidate cr_action cr_disposition rp_fresh_db rp_boot rp_external_effects_may_remain].
    rewrite !requirement_ok by
      first [by rewrite initial_action_required | by destruct (obs_candidate obs)].
    cbn [mbind result_bind]. rewrite (bool_decide_eq_true_2 (candidate_disposition_for a p = _)) by done.
    rewrite Bool.eqb_reflx. by destruct (bool_decide (p = ForwardPhase.BootSyncStarted)).
  - unfold validate_rollback_phase. cbn. rewrite !initial_not_applied.
    destruct (obs_candidate obs); cbn; by destruct (bool_decide (p = ForwardPhase.BootSyncStarted)).
Qed.

Lemma allocating_id_none a p :
  valid_facts a p -> phase a = Phase_from p -> p = ForwardPhase.FreshStateAllocating ->
  cand_id (candidate a) = None /\ operation a = NewState /\ fresh_db_possible a p = true.
Proof.
  intros V Hp ->. pose proof (valid_phase_enabled a _ (valid_source a _ V) Hp) as He.
  cbn in He. bool_prop.
  pose proof (vf_candidate _ _ V) as Hc. unfold validate_candidate_layout, candidate_id_required in Hc.
  rewrite He, (forward_no_plan a _ V Hp) in Hc. unfold require_option_presence in Hc. cbn in Hc.
  inv_ok. bool_prop. apply eqb_prop in Hc. bool_prop. unfold fresh_db_possible. rewrite He.
  split_and!; [by apply eq_None_not_Some|done..].
Qed.

Section decide.
Context (a : TransitionRecord) (p : ForwardPhase.t) (obs : RollbackObservations).
Context (V : valid_facts a p) (Hroom : room 1 a) (Hp : phase a = Phase_from p).
Context (Hal : rollback_allowed a p = true) (Hfit : observations_fit a p obs).

Let Va : valid a := proj2 (valid_iff_facts a) (ex_intro _ p V).
Let cid := if cand_id (candidate a) is Some id then Some id else obs_allocated_candidate_id obs.

(** What the observed allocation may be. *)
Lemma allocation_cases :
  (obs_allocated_candidate_id obs = None
   /\ (p = ForwardPhase.FreshStateAllocating ->
       obs_fresh_db obs = Some InitialRollbackAction.AlreadySatisfied))
  \/ (p = ForwardPhase.FreshStateAllocating
      /\ obs_fresh_db obs = Some InitialRollbackAction.Pending
      /\ exists id, obs_allocated_candidate_id obs = Some id /\ fresh_id a id).
Proof.
  pose proof Hfit as (_ & _ & Hfd & Hid).
  destruct (decide (p = ForwardPhase.FreshStateAllocating
                    /\ obs_fresh_db obs = Some InitialRollbackAction.Pending)) as [E|E].
  - rewrite (bool_decide_eq_true_2 _ E) in Hid. right. by destruct E.
  - rewrite (bool_decide_eq_false_2 _ E) in Hid. left. split; [done|]. intros Hfsa.
    destruct (allocating_id_none a p V Hp Hfsa) as (_ & _ & Hpos). rewrite Hpos in Hfd. bool_prop.
    destruct Hfd as [[] Hfd]; [|done]. by destruct E.
Qed.

Lemma decide_id_admitted : id_admitted a cid.
Proof.
  unfold id_admitted, cid. destruct (cand_id (candidate a)) as [id|] eqn:Hid; [by left|].
  destruct allocation_cases as [[-> _] | (Hfsa & _ & id & -> & Hfr)]; [by left|].
  right. destruct (allocating_id_none a p V Hp Hfsa) as (_ & ? & _). eauto.
Qed.

Lemma decide_candidate_layout : validate_candidate_layout (decided a p obs) p = Ok tt.
Proof.
  pose proof (vf_candidate _ _ V) as Hc. pose proof (forward_no_plan a p V Hp) as Hr.
  unfold validate_candidate_layout, candidate_id_required, require_option_presence in *.
  cbn in *. rewrite Hr in Hc.
  destruct (operation a) eqn:Hop; [|by destruct (cand_id (candidate a))..].
  destruct allocation_cases as [[Hn Hsat] | (Hfsa & Hpend & id & Hid & Hfr)].
  - rewrite Hn. destruct (cand_id (candidate a)) as [i|] eqn:Hi; destruct p; try done;
      by rewrite (Hsat eq_refl).
  - destruct (allocating_id_none a p V Hp Hfsa) as (Hnone & _). rewrite Hfsa. rewrite Hpend, Hnone, Hid. done.
Qed.

Lemma decide_advances : advances a (decided a p obs).
Proof.
  destruct (decided_plan_valid a p obs Hfit) as [Hvp Hph].
  apply (next_advances a p V Hroom).
  - apply (next_valid a p V Hroom _ _ _ _ p); try done.
    + apply decide_id_admitted.
    + unfold validate_v1. cbn. destruct (_ =? _)%Z; [|done].
      by destruct (bool_decide (p = ForwardPhase.BootSyncStarted)).
    + unfold record_layout_phase. cbn. unfold rollback_allowed in *. cbn in *. by rewrite Hal.
    + apply receipts_ok_iff. pose proof (vf_receipts _ _ V) as H. by apply receipts_ok_iff in H.
    + by apply valid_phase_enabled.
    + apply decide_candidate_layout.
    + by intros plan [= <-].
  - rewrite Hp. by destruct p.
  - by left.
  - eapply step_decide; [done|by apply (forward_no_plan a p)|done..].
  - unfold candidate_id_advance. cbn.
    destruct (cand_id (candidate a)) as [id|] eqn:Hid; [by left|].
    destruct allocation_cases as [[-> _] | (Hfsa & Hpend & id & -> & Hfr)]; [by left|].
    right. rewrite Hp, Hfsa, Hpend. cbn. eauto 10.
Qed.

Lemma decide_progress : rollback_decision obs a = Ok (decided a p obs).
Proof.
  pose proof decide_advances as Had. pose proof Hfit as (Hpa & Hue & Hfd & _).
  unfold rollback_decision. rewrite Va, (proj2 (forward_iff _ _) Hp). cbn -[ordinal bstr].
  rewrite Hal, (room_next_generation a Hroom). cbn -[ordinal bstr].
  transitivity (Ok cid ≫= fun id : option Z =>
    validate_advance a (with_step (generation a + 1) Phase.RollbackDecided
      (Some (decided_plan a p obs)) (boot_publication_receipts a) id a);;
    Ok (with_step (generation a + 1) Phase.RollbackDecided
      (Some (decided_plan a p obs)) (boot_publication_receipts a) id a)).
  - unfold previous_archive_possible, usr_exchange_possible, fresh_db_possible in *.
    rewrite !observed_initial_ok by done. unfold cid.
    destruct (cand_id (candidate a)) as [i|] eqn:Hi; [|done].
    destruct allocation_cases as [[-> _] | (Hfsa & _)]; [done|].
    destruct (allocating_id_none a p V Hp Hfsa) as (? & _). congruence.
  - cbn. unfold decided in Had. fold cid in Had. by rewrite Had.
Qed.
End decide.
