(* ===== verification/JournalRollback.v ===== *)
(** * Carrying out a rollback plan

    Routing to the next pending action and completing the current one keep the plan
    and phase invariants of [validation.rs], so [rollback_successor] and the
    boot-repair constructors succeed on every valid rollback record, down to
    [RollbackComplete]. *)

From S2P Require Import Prelude JournalModel JournalValidation JournalMachine JournalSuccessors JournalLiveness.

Lemma unapplied_settled x :
  not_applied x = true -> bool_decide (x = RollbackAction.Pending) = false -> action_settled x = true.
Proof. by destruct x. Qed.

Lemma settled_resolved_or x : action_settled x = true -> not_applied x = true \/ action_resolved x = true.
Proof. destruct x; auto. Qed.

Ltac settle :=
  repeat match goal with
  | H1 : not_applied ?x = true, H2 : bool_decide (?x = RollbackAction.Pending) = false |- _ =>
      lazymatch goal with
      | _ : action_settled x = true |- _ => fail
      | _ => pose proof (unapplied_settled x H1 H2)
      end
  | H : action_resolved ?x = true |- _ =>
      lazymatch goal with
      | _ : action_settled x = true |- _ => fail
      | _ => pose proof (resolved_settled x H)
      end
  end.

(** Routing to the next pending action establishes that action's phase invariant. *)
Lemma next_pending_phase_valid plan p q :
  match p with
  | Phase.RollbackDecided | Phase.PreviousRestoredToStaging | Phase.UsrRestored
  | Phase.CandidatePreserved | Phase.FreshDbInvalidated => true
  | _ => false
  end = true ->
  validate_rollback_phase p plan = Ok tt -> next_pending_phase plan = Some q ->
  validate_rollback_phase q plan = Ok tt.
Proof.
  unfold next_pending_phase, validate_rollback_phase, ordinary_actions_resolved, rollback_actions.
  cbn [zip zip_with first_pending]. intros Hp Hv Hn.
  destruct p; try done; clear Hp; cbn in Hv;
    match type of Hv with (if ?b then _ else _) = _ => destruct b eqn:Hb end; try done; clear Hv;
    bool_prop; settle; repeat first
      [ match goal with H : action_settled ?x = true |- _ =>
          rewrite (settled_not_pending x H) in Hn end
      | match type of Hn with context [bool_decide (?x = RollbackAction.Pending)] =>
          destruct (bool_decide (x = RollbackAction.Pending)) eqn:? end ];
    settle; simplify_eq; cbn; step_ok; try done; destruct (rp_boot plan); try done; simplify_eq;
    cbn; by step_ok.
Qed.

Lemma completion_phase_valid plan plan' p q o :
  apply_outcome p q (RollbackActionOutcome.into o) plan = Ok plan' ->
  validate_rollback_phase p plan = Ok tt -> validate_rollback_phase q plan' = Ok tt.
Proof.
  intros Ha Hv.
  destruct p, q; try done; cbn in Ha; simplify_eq;
    unfold validate_rollback_phase, rollback_actions in *; cbn in *;
    match type of Hv with (if ?b then _ else _) = _ => destruct b eqn:Hb end; try done;
    bool_prop; step_ok; by destruct o.
Qed.

Lemma actions_advance_intro i c l :
  (forall j x y, l !! j = Some (x, y) -> action_advance c (i + j) x y) ->
  validate_actions_advance i c l = Ok tt.
Proof.
  revert i. induction l as [|[x y] l IH]; intros i H; [done|]. cbn.
  rewrite (IH (S i)) by (intros j x' y' Hj; rewrite Nat.add_succ_comm; by apply H).
  specialize (H 0 x y eq_refl). unfold action_advance in H. rewrite Nat.add_0_r in H.
  case_bool_decide as Hc.
  - subst c. rewrite Nat.eqb_refl in H. destruct H as [-> Hy]. by step_ok.
  - assert (x = y) as Hxy.
    { destruct c as [c|]; [|done]. by rewrite (proj2 (Nat.eqb_neq i c)) in H by congruence. }
    by rewrite (bool_decide_eq_true_2 _ Hxy).
Qed.

Lemma plan_advance_intro plan plan' p q :
  let adv := action_advance (completed_action p q) in
  rp_source plan = rp_source plan' ->
  cr_disposition (rp_candidate plan) = cr_disposition (rp_candidate plan') ->
  rp_external_effects_may_remain plan = rp_external_effects_may_remain plan' ->
  adv 0 (rp_previous_archive plan) (rp_previous_archive plan') ->
  adv 1 (rp_usr_exchange plan) (rp_usr_exchange plan') ->
  adv 2 (cr_action (rp_candidate plan)) (cr_action (rp_candidate plan')) ->
  adv 3 (rp_fresh_db plan) (rp_fresh_db plan') ->
  boot_advance_allowed (rp_boot plan) (rp_boot plan') p q = true ->
  validate_rollback_plan_advance plan plan' p q = Ok tt.
Proof.
  intros adv Hs Hd He H0 H1 H2 H3 Hb. unfold validate_rollback_plan_advance.
  rewrite !(bool_decide_eq_true_2 (_ = _)) by done. cbn [negb orb reject_if mbind result_bind].
  rewrite actions_advance_intro; [by rewrite Hb|].
  intros [|[|[|[|j]]]] x y Hj; cbn in Hj; by simplify_eq.
Qed.

Lemma action_advance_required c i x y :
  action_advance c i x y -> action_required y = action_required x.
Proof.
  unfold action_advance. destruct c as [c|]; [|by intros ->].
  destruct (i =? c)%nat; [|by intros ->]. intros [-> ?]. by destruct y.
Qed.

Lemma boot_advance_same b p q : boot_advance_allowed b b p q = true.
Proof.
  unfold boot_advance_allowed. rewrite (bool_decide_eq_true_2 (b = b)) by done. by rewrite orb_true_r.
Qed.

Lemma same_plan_advance plan p q :
  completed_action p q = None -> validate_rollback_plan_advance plan plan p q = Ok tt.
Proof.
  intros Hc. apply plan_advance_intro; try apply boot_advance_same; by rewrite ?Hc.
Qed.

Lemma apply_outcome_advance plan plan' p q o :
  apply_outcome p q (RollbackActionOutcome.into o) plan = Ok plan' ->
  validate_rollback_phase p plan = Ok tt ->
  validate_rollback_plan_advance plan plan' p q = Ok tt
  /\ next_rollback_phase plan p = Some q /\ rp_boot plan' = rp_boot plan.
Proof.
  intros Ha Hv. assert (action_resolved (RollbackActionOutcome.into o) = true) by by destruct o.
  destruct p, q; try done; cbn in Ha; simplify_eq;
    unfold validate_rollback_phase, rollback_actions in Hv; cbn in Hv;
    match type of Hv with (if ?b then _ else _) = _ => destruct b eqn:Hb end; try done;
    bool_prop; (split; [|done]); apply plan_advance_intro; try apply boot_advance_same;
    cbn; done.
Qed.

(** The requirements of a plan do not depend on how far it has been carried out. *)
Lemma plan_advance_valid a plan plan' p q :
  validate_rollback_plan a plan = Ok tt ->
  validate_rollback_plan_advance plan plan' p q = Ok tt ->
  (rp_boot plan' = BootRollback.NotRequired <-> rp_boot plan = BootRollback.NotRequired) ->
  validate_rollback_plan a plan' = Ok tt.
Proof.
  intros Hv Hadv Hboot.
  destruct (plan_advance_facts _ _ _ _ Hadv) as (Hs & Hd & He & H0 & H1 & H2 & H3 & _).
  destruct (validate_rollback_plan_facts _ _ Hv) as (Hpa & Hue & Hca & Hfd & Hbt & Hdi & Hex).
  unfold validate_rollback_plan. rewrite <- Hs, <- Hd, <- He, Hdi, Hex.
  rewrite !requirement_ok by (by erewrite action_advance_required by eassumption).
  cbn [mbind result_bind]. rewrite bool_decide_eq_true_2, Bool.eqb_reflx by done. cbn.
  assert (rp_boot plan' = BootRollback.NotRequired <-> rp_source plan <> ForwardPhase.BootSyncStarted)
    as Hb by by rewrite Hboot.
  case_bool_decide as E; destruct (rp_boot plan'); try done; by destruct Hb as [Hb1 Hb2];
    first [destruct (Hb1 eq_refl) | specialize (Hb2 E)].
Qed.

(** ** One rollback step *)

Section rollback_step.
Context (a : TransitionRecord) (plan : RollbackPlan).
Context (Va : valid a) (Hroom : room 1 a) (Hf : forward (phase a) = None).
Context (Hplan : rollback a = Some plan).

Definition rolled (q : Phase.t) (plan' : RollbackPlan) : TransitionRecord :=
  with_step (generation a + 1) q (Some plan') (boot_publication_receipts a)
    (cand_id (candidate a)) a.

Lemma rollback_facts :
  valid_facts a (rp_source plan) /\ rollback_allowed a (rp_source plan) = true
  /\ validate_rollback_plan a plan = Ok tt /\ validate_rollback_phase (phase a) plan = Ok tt.
Proof using Va Hf Hplan.
  pose proof Va as [lp V]%valid_iff_facts.
  destruct (layout_phase_rollback a lp Hf (vf_layout _ _ V)) as (plan' & Hp' & Hs & Hal).
  assert (plan' = plan) as -> by congruence. subst lp.
  destruct (vf_plan _ _ V plan Hplan). done.
Qed.

Lemma rolled_candidate_layout q plan' c :
  rp_source plan = rp_source plan' -> action_advance c 3 (rp_fresh_db plan) (rp_fresh_db plan') ->
  validate_candidate_layout (rolled q plan') (rp_source plan) = Ok tt.
Proof using Va Hf Hplan.
  intros Hs Hfd. destruct rollback_facts as (V & _). pose proof (vf_candidate _ _ V) as H.
  unfold validate_candidate_layout, candidate_id_required, rolled in *. cbn in *. rewrite Hplan in H.
  unfold action_advance in Hfd.
  destruct c as [c|]; [destruct (3 =? c)%nat|]; [|by rewrite <- Hfd..].
  destruct Hfd as [Hpend Hres]. rewrite Hpend in H.
  destruct (operation a); try done. destruct (rp_source plan); try done.
  by destruct (rp_fresh_db plan').
Qed.

Lemma rolled_advances q plan' :
  blocks_advance (phase a) = false -> forward q = None ->
  next_rollback_phase plan (phase a) = Some q
  \/ (phase a = Phase.BootRepairStarted /\ q = Phase.BootRepairComplete) ->
  validate_rollback_plan_advance plan plan' (phase a) q = Ok tt ->
  (rp_boot plan' = BootRollback.NotRequired <-> rp_boot plan = BootRollback.NotRequired) ->
  validate_rollback_phase q plan' = Ok tt ->
  validate_v1 (rolled q plan') = Ok tt ->
  advances a (rolled q plan').
Proof.
  intros Hb Hq Hn Hadv Hboot Hph Hv1. destruct rollback_facts as (V & Hal & Hvp & _).
  destruct (plan_advance_facts _ _ _ _ Hadv) as (Hs & _ & _ & _ & _ & _ & Hfd & _).
  apply (next_advances a (rp_source plan) V Hroom); [|done|by left| |by left].
  - apply (next_valid a (rp_source plan) V Hroom _ _ _ _ (rp_source plan)).
    + by left.
    + done.
    + unfold record_layout_phase. cbn. rewrite Hq, <- Hs. unfold rollback_allowed in *. by rewrite Hal.
    + apply receipts_ok_iff. pose proof (vf_receipts _ _ V) as H. by apply receipts_ok_iff in H.
    + apply option_reachability_enabled, (vf_reachable _ _ V).
    + by eapply rolled_candidate_layout.
    + intros p [= <-]. split; [by eapply plan_advance_valid|done].
  - eapply step_rollback; try done.
Qed.

Lemma v1_kept q plan' :
  q <> Phase.BootRepairComplete -> rp_boot plan' = rp_boot plan ->
  validate_v1 (rolled q plan') = Ok tt.
Proof using Va Hf Hplan.
  intros Hq Hb. destruct rollback_facts as (V & _). pose proof (vf_v1 _ _ V) as H.
  unfold validate_v1 in *. cbn. destruct (_ =? _)%Z; [|done].
  apply seq_ok_iff in H as [_ H]. rewrite (bool_decide_eq_false_2 _ Hq). cbn.
  rewrite Hplan in H. cbn in H. by rewrite Hb.
Qed.
End rollback_step.

Lemma next_rollback_not_repaired plan p q :
  next_rollback_phase plan p = Some q -> q <> Phase.BootRepairComplete.
Proof.
  unfold next_rollback_phase, next_pending_phase, rollback_actions.
  cbn [zip zip_with first_pending]. intros H. destruct p; repeat case_match; by simplify_eq.
Qed.

Lemma next_rollback_unverified plan p :
  next_rollback_phase plan p = Some Phase.BootRepairUnverified -> p = Phase.BootRepairStarted.
Proof.
  unfold next_rollback_phase, next_pending_phase, rollback_actions.
  cbn [zip zip_with first_pending]. intros H. destruct p; repeat case_match; by simplify_eq.
Qed.

(** [rollback_successor] succeeds with an outcome exactly where one is due. *)
Lemma rollback_progress a plan q o :
  valid a -> room 1 a -> rollback a = Some plan -> forward (phase a) = None ->
  blocks_advance (phase a) = false ->
  phase a <> Phase.BootRepairRequired -> phase a <> Phase.BootRepairStarted ->
  phase a <> Phase.BootRepairComplete ->
  next_rollback_phase plan (phase a) = Some q ->
  bool_decide (is_Some o) = ordinary_completion (phase a) q ->
  exists plan', rollback_successor o a = Ok (rolled a q plan').
Proof.
  intros Va Hroom Hr Hf Hblk H1 H2 H3 Hn Ho.
  destruct (rollback_facts a plan Va Hf Hr) as (V & _ & _ & Hph).
  assert (exists plan', match o with
            | Some o => apply_outcome (phase a) q (RollbackActionOutcome.into o) plan
            | None => Ok plan
            end = Ok plan' /\ advances a (rolled a q plan')) as (plan' & Happ & Had).
  { destruct o as [o|].
    - assert (exists plan', apply_outcome (phase a) q (RollbackActionOutcome.into o) plan = Ok plan')
        as [plan' Happ].
      { rewrite bool_decide_eq_true_2 in Ho by eauto. symmetry in Ho.
        unfold ordinary_completion in Ho. destruct (phase a); try done; cbn in Hn; simplify_eq; eauto. }
      exists plan'. split; [done|].
      destruct (apply_outcome_advance _ _ _ _ _ Happ Hph) as (Hadv & _ & Hb).
      apply (rolled_advances a plan); try done; [by eapply next_rollback_phase_rollback|by left|by rewrite Hb| |].
      + by eapply completion_phase_valid.
      + by eapply v1_kept; [..|by eapply next_rollback_not_repaired|].
    - exists plan. split; [done|]. rewrite bool_decide_eq_false_2 in Ho by (by intros []).
      assert (completed_action (phase a) q = None) as Hc
        by (unfold ordinary_completion in Ho; by destruct (phase a), q).
      apply (rolled_advances a plan); try done; [by eapply next_rollback_phase_rollback|by left| | |].
      + by apply same_plan_advance.
      + eapply next_pending_phase_valid; [|exact Hph|].
        all: destruct (phase a); try done; cbn in Hn; simplify_eq; done.
      + by eapply v1_kept; [..|by eapply next_rollback_not_repaired|]. }
  exists plan'. unfold rollback_successor. rewrite Va. cbn.
  rewrite (bool_decide_eq_false_2 (_ \/ _)) by (by intros [? | [? | ?]]). cbn. rewrite Hr. cbn.
  rewrite Hn. cbn. rewrite Ho, Bool.eqb_reflx. cbn. rewrite (room_next_generation a Hroom). cbn.
  rewrite Happ. cbn. unfold rolled in Had. by rewrite Had.
Qed.

Lemma boot_repair_progress a plan q bt :
  let plan' := from_option (fun x => set_boot x plan) plan bt in
  valid a -> room 1 a -> rollback a = Some plan -> advances a (rolled a q plan') ->
  boot_repair_successor (phase a) q bt a = Ok (rolled a q plan').
Proof.
  intros plan' Va Hroom Hr Had. unfold boot_repair_successor. rewrite Va. cbn.
  rewrite bool_decide_eq_true_2 by done. cbn. rewrite (room_next_generation a Hroom). cbn.
  rewrite Hr. unfold rolled, plan' in *. destruct bt; cbn in *; by rewrite Had.
Qed.

Lemma boot_pending a plan :
  valid a -> rollback a = Some plan ->
  phase a = Phase.BootRepairRequired \/ phase a = Phase.BootRepairStarted ->
  ordinary_actions_resolved plan = true /\ rp_boot plan = BootRollback.PendingUnverifiable.
Proof.
  intros Va Hr Hp. assert (forward (phase a) = None) as Hf by by destruct Hp as [-> | ->].
  destruct (rollback_facts a plan Va Hf Hr) as (_ & _ & _ & H).
  unfold validate_rollback_phase in H. destruct Hp as [E | E]; rewrite E in H;
    cbn -[ordinary_actions_resolved] in H; case_match; try done; by bool_prop.
Qed.

(** A started repair may end verified, or be recorded as unverified. *)
Lemma boot_started_advances a plan q bt :
  valid a -> room 1 a -> rollback a = Some plan -> phase a = Phase.BootRepairStarted ->
  (q = Phase.BootRepairComplete /\ boot_repaired bt = true /\ version a <> PAYLOAD_VERSION_V1)
  \/ (q = Phase.BootRepairUnverified /\ bt = BootRollback.Unverified) ->
  advances a (rolled a q (set_boot bt plan)).
Proof.
  intros Va Hroom Hr Hp Hq. destruct (boot_pending a plan Va Hr (or_intror Hp)) as [Hres Hb].
  apply (rolled_advances a plan); try done; rewrite ?Hp; try done.
  - by destruct Hq as [(-> & _) | (-> & _)].
  - destruct Hq as [(-> & _) | (-> & _)]; [by right|by left].
  - apply plan_advance_intro; try by destruct q.
    unfold boot_advance_allowed. cbn. rewrite Hb.
    destruct Hq as [(-> & Hbt & _) | (-> & ->)]; [|done]. by destruct bt.
  - cbn. rewrite Hb. destruct Hq as [(_ & Hbt & _) | (_ & ->)]; [|done]. by destruct bt.
  - unfold validate_rollback_phase. change (ordinary_actions_resolved (set_boot bt plan))
      with (ordinary_actions_resolved plan). destruct Hq as [(-> & Hbt & _) | (-> & ->)];
      cbn -[ordinary_actions_resolved]; rewrite Hres; [by rewrite Hbt|done].
  - pose proof Va as [lp V]%valid_iff_facts. unfold validate_v1. cbn.
    destruct Hq as [(-> & _ & Hv) | (-> & ->)].
    + by rewrite (proj2 (Z.eqb_neq _ _) Hv).
    + by destruct (_ =? _)%Z.
Qed.

Lemma boot_route_advances a plan q :
  valid a -> room 1 a -> rollback a = Some plan ->
  (phase a = Phase.BootRepairRequired /\ q = Phase.BootRepairStarted)
  \/ (phase a = Phase.BootRepairComplete /\ q = Phase.RollbackComplete) ->
  advances a (rolled a q plan).
Proof.
  intros Va Hroom Hr Hq. assert (forward (phase a) = None) as Hf by by destruct Hq as [[-> _] | [-> _]].
  destruct (rollback_facts a plan Va Hf Hr) as (_ & _ & _ & H).
  apply (rolled_advances a plan); try done.
  - by destruct Hq as [[-> _] | [-> _]].
  - by destruct Hq as [[_ ->] | [_ ->]].
  - left. by destruct Hq as [[-> ->] | [-> ->]].
  - apply same_plan_advance. by destruct Hq as [[-> ->] | [-> ->]].
  - unfold validate_rollback_phase in *.
    destruct Hq as [[E ->] | [E ->]]; rewrite E in H; cbn -[ordinary_actions_resolved] in *;
      (match type of H with (if ?b then _ else _) = _ => destruct b eqn:Hb end; [|done]); [done|].
    bool_prop. step_ok. by rewrite orb_true_r.
  - eapply v1_kept; try done. by destruct Hq as [[_ ->] | [_ ->]].
Qed.

(** ** Driving a rollback to its end *)

(** What recovery does with a persisted rollback record: the constructor its phase
    calls for, with the outcomes the reconciliation reports. *)
Definition resume_step (outcomes : Phase.t -> RollbackActionOutcome.t)
    (repair : BootRepairOutcome.t) (r : TransitionRecord) : codec TransitionRecord :=
  match phase r with
  | Phase.BootRepairRequired => boot_repair_started_successor r
  | Phase.BootRepairStarted => boot_repair_complete_successor repair r
  | Phase.BootRepairComplete => boot_repair_rollback_complete_successor r
  | p =>
      rollback_successor
        (match rollback_action_phase p with Some (_, false) => Some (outcomes p) | _ => None end) r
  end.

Fixpoint resume_rollback (fuel : nat) (outcomes : Phase.t -> RollbackActionOutcome.t)
    (repair : BootRepairOutcome.t) (r : TransitionRecord) : codec TransitionRecord :=
  match fuel with
  | 0%nat => Ok r
  | S fuel' =>
      if blocks_advance (phase r) then Ok r
      else r' ← resume_step outcomes repair r; resume_rollback fuel' outcomes repair r'
  end.

Lemma rollback_next_exists a plan :
  valid a -> rollback a = Some plan -> forward (phase a) = None -> blocks_advance (phase a) = false ->
  exists q, next_rollback_phase plan (phase a) = Some q.
Proof.
  intros Va Hr Hf Hb. destruct (rollback_facts a plan Va Hf Hr) as (_ & _ & _ & H).
  unfold next_rollback_phase, next_pending_phase, validate_rollback_phase in *.
  destruct (first_pending _) as [x|] eqn:?; [destruct (phase a); eauto; done|].
  destruct (phase a); eauto; try done; cbn in H;
    match type of H with (if ?b then _ else _) = _ => destruct b eqn:? end; try done; bool_prop;
    destruct (rp_boot plan); eauto; done.
Qed.

Lemma resume_step_progress outcomes repair a :
  valid a -> room 1 a -> forward (phase a) = None -> blocks_advance (phase a) = false ->
  version a <> PAYLOAD_VERSION_V1 ->
  exists b, resume_step outcomes repair a = Ok b /\ advances a b
    /\ phase b <> Phase.BootRepairUnverified /\ forward (phase b) = None.
Proof.
  intros Va Hroom Hf Hb Hv. destruct (valid_rollback_has_plan a Va Hf) as (plan & Hr & _).
  unfold resume_step.
  destruct (decide (phase a = Phase.BootRepairRequired)) as [E1|E1].
  { pose proof (boot_route_advances a plan Phase.BootRepairStarted Va Hroom Hr ltac:(auto)) as Had.
    exists (rolled a Phase.BootRepairStarted plan). split; [|done].
    pose proof (boot_repair_progress a plan Phase.BootRepairStarted None Va Hroom Hr Had) as H.
    by rewrite E1 in H |- *. }
  destruct (decide (phase a = Phase.BootRepairStarted)) as [E2|E2].
  { pose proof (boot_started_advances a plan Phase.BootRepairComplete (BootRepairOutcome.into repair)
      Va Hroom Hr E2 ltac:(left; by destruct repair)) as Had.
    exists (rolled a Phase.BootRepairComplete (set_boot (BootRepairOutcome.into repair) plan)).
    split; [|done].
    pose proof (boot_repair_progress a plan Phase.BootRepairComplete
      (Some (BootRepairOutcome.into repair)) Va Hroom Hr Had) as H. by rewrite E2 in H |- *. }
  destruct (decide (phase a = Phase.BootRepairComplete)) as [E3|E3].
  { pose proof (boot_route_advances a plan Phase.RollbackComplete Va Hroom Hr ltac:(auto)) as Had.
    exists (rolled a Phase.RollbackComplete plan). split; [|done].
    pose proof (boot_repair_progress a plan Phase.RollbackComplete None Va Hroom Hr Had) as H.
    by rewrite E3 in H |- *. }
  destruct (rollback_next_exists a plan Va Hr Hf Hb) as [q Hq].
  set (o := match rollback_action_phase (phase a) with
            | Some (_, false) => Some (outcomes (phase a)) | _ => None end).
  assert (bool_decide (is_Some o) = ordinary_completion (phase a) q) as Ho.
  { subst o. unfold ordinary_completion. destruct (phase a); try done; cbn in Hq; by simplify_eq. }
  destruct (rollback_progress a plan q o Va Hroom Hr Hf Hb E1 E2 E3 Hq Ho) as [plan' Hs].
  exists (rolled a q plan'). split_and!.
  - destruct (phase a); done.
  - by apply (successor_advances (Call.Rollback o)).
  - cbn. intros ->. by apply next_rollback_unverified in Hq.
  - by eapply next_rollback_phase_rollback.
Qed.

Lemma room_weaken m n r : room n r -> (m <= n)%Z -> room m r.
Proof. unfold room. lia. Qed.

Lemma resume_rollback_end outcomes repair fuel a :
  valid a -> forward (phase a) = None -> phase a <> Phase.BootRepairUnverified ->
  version a <> PAYLOAD_VERSION_V1 -> room (Z.of_nat fuel) a ->
  32 <= phase_index (phase a) + fuel ->
  exists b, resume_rollback fuel outcomes repair a = Ok b /\ phase b = Phase.RollbackComplete
    /\ exists l, history a l b.
Proof.
  revert a. induction fuel as [|fuel IH]; intros a Va Hf Hu Hv Hroom Hfuel; cbn.
  { exists a. split_and!; [done| |by exists [a]; constructor].
    destruct (phase a); cbn in *; try lia; done. }
  destruct (blocks_advance (phase a)) eqn:Hb.
  { exists a. split_and!; [done| |by exists [a]; constructor]. by destruct (phase a). }
  destruct (resume_step_progress outcomes repair a) as (b & Hs & Had & Hnu & Hfb); try done.
  { eapply room_weaken; [done|lia]. }
  rewrite Hs. cbn. pose proof (advance_phase_index _ _ Had) as Hidx.
  pose proof Had as F%advances_iff_facts. destruct (advances_valid _ _ Had) as [_ Vb].
  destruct (IH b) as (c & Hc & Hpc & l & Hl); try done.
  - by rewrite <- (st_version _ _ (af_same _ _ F)).
  - unfold room in *. rewrite (af_generation _ _ F). lia.
  - lia.
  - exists c. split_and!; [done..|]. exists (a :: l). by econstructor.
Qed.
