(* ===== verification/JournalRecovery.v ===== *)
(** * Recovery: from any durable record to the end of its transition

    Theorems on the constructors of [successors.rs] and the policy of
    [recovery.rs]: the constructors admit exactly what [validate_advance] admits,
    histories are bounded, rollback actions resolve in order, and following
    [recovery_disposition] from any valid record ends the transition in the
    direction the policy names. *)

From S2P Require Import Prelude JournalModel JournalValidation JournalMachine JournalSuccessors JournalLiveness JournalRollback.

(** ** Following the recovery policy *)

Fixpoint roll_forward (fuel : nat) (r : TransitionRecord) : codec TransitionRecord :=
  match fuel with
  | 0%nat => Ok r
  | S fuel' =>
      if blocks_advance (phase r) then Ok r
      else r' ← forward_successor None r; roll_forward fuel' r'
  end.

(** The constructor calls each disposition stands for, with the observations and
    outcomes the reconciliation reports.  Thirteen rollback steps and three forward
    ones are enough: see [resume_rollback_end] and [roll_forward_end]. *)
Definition recover (obs : RollbackObservations) (outcomes : Phase.t -> RollbackActionOutcome.t)
    (repair : BootRepairOutcome.t) (r : TransitionRecord) : codec TransitionRecord :=
  match recovery_disposition r with
  | RecoveryDisposition.BeginRollback _ =>
      r' ← rollback_decision obs r; resume_rollback 13 outcomes repair r'
  | RecoveryDisposition.ResumeRollback _ => resume_rollback 13 outcomes repair r
  | RecoveryDisposition.RollForward _ => roll_forward 3 r
  | RecoveryDisposition.FinalizeRollback | RecoveryDisposition.ManualBootRepair => Ok r
  end.

Lemma forward_valid_facts r p : valid r -> phase r = Phase_from p -> valid_facts r p.
Proof.
  intros [lp V]%valid_iff_facts Hp. by rewrite <- (layout_phase_forward r p lp Hp (vf_layout _ _ V)).
Qed.

Lemma roll_forward_end fuel r p :
  valid r -> phase r = Phase_from p -> ordinal ForwardPhase.BootSyncComplete <= ordinal p ->
  18 <= ordinal p + fuel -> room (Z.of_nat fuel) r ->
  exists b l, roll_forward fuel r = Ok b /\ phase b = Phase.Complete /\ history r l b.
Proof.
  revert r p. induction fuel as [|fuel IH]; intros r p Hv Hp Hlo Hfuel Hroom; cbn [roll_forward].
  { exists r, [r]. split_and!; [done| |by constructor]. rewrite Hp. destruct p; cbn in *; try lia; done. }
  destruct (blocks_advance (phase r)) eqn:Hb.
  { exists r, [r]. split_and!; [done| |by constructor]. rewrite Hp in *. by destruct p. }
  pose proof (forward_valid_facts r p Hv Hp) as V.
  destruct (next_forward_phase r p) as [q|] eqn:Hn; [|destruct p; cbn in Hlo; try lia; by rewrite Hp in Hb].
  pose proof (next_forward_phase_ordinal _ _ _ Hn) as Hord.
  assert (q <> ForwardPhase.BootSyncStarted /\ q <> ForwardPhase.BootSyncComplete) as [Hq1 Hq2]
    by (split; intros ->; cbn in *; lia).
  assert (forward_id r p None (cand_id (candidate r))) as Hid.
  { unfold forward_id. rewrite bool_decide_eq_false_2; [done|]. intros ->. cbn in Hlo. lia. }
  assert (room 1 r) as Hr1 by (eapply room_weaken; [done|lia]).
  pose proof (forward_progress r p q V Hr1 Hp Hn None _ Hq1 Hq2 Hid) as Hs. rewrite Hs. cbn.
  pose proof (successor_advances (Call.Forward None) _ _ Hs) as Had.
  destruct (IH _ q (proj2 (advances_valid _ _ Had)) eq_refl) as (b & l & Hb' & Hpb & Hl);
    [lia|lia|unfold room in *; cbn; lia|].
  exists b, (r :: l). split_and!; [done..|]. by econstructor.
Qed.

Lemma rollback_allowed_disposition r p :
  phase r = Phase_from p ->
  recovery_disposition r
  = if rollback_allowed r p then RecoveryDisposition.BeginRollback p
    else RecoveryDisposition.RollForward p.
Proof. intros Hp. unfold recovery_disposition. rewrite Hp. by destruct p. Qed.

Lemma resume_disposition r :
  forward (phase r) = None ->
  recovery_disposition r
  = match phase r with
    | Phase.RollbackComplete => RecoveryDisposition.FinalizeRollback
    | Phase.BootRepairUnverified => RecoveryDisposition.ManualBootRepair
    | p => RecoveryDisposition.ResumeRollback p
    end.
Proof. intros Hf. unfold recovery_disposition. by destruct (phase r). Qed.

Lemma rollback_index r : forward (phase r) = None -> 19 <= phase_index (phase r).
Proof. destruct (phase r); cbn; intros; try done; lia. Qed.

(** ** Histories do not repeat themselves *)

Lemma history_later a l b :
  history a l b -> Forall (fun r => phase_index (phase a) <= phase_index (phase r)) l.
Proof.
  induction 1 as [r Hv|a b l c Had Hh IH]; [by repeat constructor|].
  pose proof (advance_phase_index _ _ Had). constructor; [lia|].
  eapply Forall_impl; [exact IH|]. cbn. lia.
Qed.

Lemma history_nodup a l b : history a l b -> NoDup (phase <$> l).
Proof.
  induction 1 as [r Hv|a b l c Had Hh IH]; cbn; [apply NoDup_singleton|].
  constructor; [|done]. intros (x & Hx & Hin)%list_elem_of_fmap.
  pose proof (history_later _ _ _ Hh) as Hl. rewrite Forall_forall in Hl. specialize (Hl x Hin).
  pose proof (advance_phase_index _ _ Had). rewrite Hx in *. lia.
Qed.

Lemma validate_avoids r : avoids CodecError.GenerationExhausted (validate r).
Proof.
  unfold validate, validate_v1, RuntimeEpoch_validate, BootId_validate,
    MountNamespaceIdentity_validate, TreeToken_validate, RuntimeTreeIdentity_validate,
    record_layout_phase, validate_boot_publication_receipts, validate_option_reachability,
    validate_candidate_layout, require_option_presence, validate_relationships,
    validate_operation_states, validate_rollback_plan, validate_rollback_requirement,
    validate_rollback_phase. cbv zeta.
  assert (forall ids, avoids CodecError.GenerationExhausted (validate_state_ids ids)) as Hids.
  { induction ids; cbn; [discriminate|avoid; done]. }
  avoid; try apply Hids.
Qed.

#[export] Hint Resolve validate_avoids : avoids.

Lemma phase_advance_avoids a b : avoids CodecError.GenerationExhausted (validate_phase_advance a b).
Proof.
  assert (forall i c l, avoids CodecError.GenerationExhausted (validate_actions_advance i c l)) as Hact.
  { intros i c l. revert i. induction l as [|[x y] l IH]; intros i; cbn; [discriminate|avoid; done]. }
  unfold validate_phase_advance, validate_rollback_plan_advance. avoid; try apply Hact.
Qed.

#[export] Hint Resolve phase_advance_avoids : avoids.

Lemma advance_not_exhausted r r' :
  (generation r + 1 < 2 ^ 64)%Z -> validate_advance r r' <> Err CodecError.GenerationExhausted.
Proof.
  intros Hg. assert (checked_add 64 (generation r) 1 = Some (generation r + 1)%Z) as Hc
    by (by apply checked_width_Some).
  change (avoids CodecError.GenerationExhausted (validate_advance r r')).
  unfold validate_advance. rewrite Hc. cbv zeta. cbn [ok_or].
  avoid.
Qed.

(** ** One action at a time *)

Lemma actions_advance_index plan plan' p q i x y :
  validate_rollback_plan_advance plan plan' p q = Ok tt ->
  rollback_actions plan !! i = Some x -> rollback_actions plan' !! i = Some y ->
  action_advance (completed_action p q) i x y.
Proof.
  intros H Hx Hy. destruct (plan_advance_facts _ _ _ _ H) as (_ & _ & _ & H0 & H1 & H2 & H3 & _).
  destruct i as [|[|[|[|i]]]]; cbn in Hx, Hy; by simplify_eq.
Qed.

Lemma completed_action_phases p q i :
  completed_action p q = Some i ->
  rollback_action_phase p = Some (i, false) /\ rollback_action_phase q = Some (i, true).
Proof. by destruct p, q; intros [= <-]. Qed.

Lemma intent_prior_settled plan p i :
  validate_rollback_phase p plan = Ok tt -> rollback_action_phase p = Some (i, false) ->
  forallb action_settled (take i (rollback_actions plan)) = true.
Proof.
  unfold validate_rollback_phase. intros H Hp.
  destruct p; try done; cbn in Hp; simplify_eq; cbn in H;
    match type of H with (if ?b then _ else _) = _ => destruct b eqn:Hb end; try done; bool_prop;
    cbn; by step_ok.
Qed.

(** ** Theorems *)



(** C7: the typed constructors are complete.  On a record of the current payload
    version, [validate_advance] admits a next record exactly when one of the nine
    constructors builds it from some argument: no legal edge lacks a constructor, and
    no constructor leaves the contract. *)
Theorem successors_exact a b :
  version a = PAYLOAD_VERSION ->
  (validate_advance a b = Ok tt <-> exists c, successor c a = Ok b).
Proof.
  intros Hv. split; [|intros [c Hc]; by eapply successor_advances].
  intros Had. destruct (advance_has_successor _ _ Had) as [? | [? _]]; done.
Qed.

Lemma successors_exact_witness :
  validate_advance sample (sample_at [Call.Forward None]) = Ok tt
  <-> exists c, successor c sample = Ok (sample_at [Call.Forward None]).
Proof. apply successors_exact. reflexivity. Defined.

(** C9: bounds of a transition.  Every history from a [preparing] record has at most
    thirty-three records, one per phase and none twice; its last record is valid,
    carries the same immutable data, has the length of the history as its
    generation, and the generation counter cannot run out. *)
Theorem journal_bounded r0 l r :
  preparing_record r0 -> history r0 l r ->
  validate r = Ok tt /\ same_transition r0 r
  /\ generation r = Z.of_nat (length l) /\ length l <= 33 /\ NoDup (phase <$> l)
  /\ forall r', validate_advance r r' <> Err CodecError.GenerationExhausted.
Proof.
  intros (_ & Hp & Hg & _)%preparing_facts Hh. destruct (history_valid _ _ _ Hh) as [_ Hv].
  destruct (history_progress _ _ _ Hh) as [Hgen Hidx]. rewrite Hg, Hp in *. cbn in Hidx.
  pose proof (phase_index_bound (phase r)).
  split_and!; [done|by eapply history_same|lia|lia|by eapply history_nodup|].
  intros r' E. apply (advance_not_exhausted r r'); [lia|done].
Qed.

Lemma journal_bounded_witness :
  validate (sample_at rollback_calls) = Ok tt /\ same_transition sample (sample_at rollback_calls)
  /\ generation (sample_at rollback_calls) = Z.of_nat (length (records rollback_calls))
  /\ length (records rollback_calls) <= 33 /\ NoDup (phase <$> records rollback_calls)
  /\ forall r', validate_advance (sample_at rollback_calls) r' <> Err CodecError.GenerationExhausted.
Proof.
  apply journal_bounded; [apply sample_preparing|].
  apply records_ok. vm_compute. reflexivity.
Defined.

(** C16: a rollback resolves one action at a time, in order.  When an advance changes
    the status of action [i], that status was [Pending] and becomes resolved, the
    step is the one from [i]'s intent phase to its completion phase, every earlier
    action is already settled, and no other action changes. *)
Theorem rollback_actions_in_order a b plan plan' i x y :
  validate_advance a b = Ok tt -> rollback a = Some plan -> rollback b = Some plan' ->
  rollback_actions plan !! i = Some x -> rollback_actions plan' !! i = Some y -> x <> y ->
  x = RollbackAction.Pending /\ action_resolved y = true
  /\ rollback_action_phase (phase a) = Some (i, false)
  /\ rollback_action_phase (phase b) = Some (i, true)
  /\ forallb action_settled (take i (rollback_actions plan)) = true
  /\ forall j, j <> i -> rollback_actions plan !! j = rollback_actions plan' !! j.
Proof.
  intros Had Ha Hb Hx Hy Hne. pose proof (advances_valid _ _ Had) as [Va _].
  destruct (advance_phase_step _ _ Had) as [? ? _ ? _ _ _|? ? _ ? _ _ _ _|p p' Hf Ha' _ Hb' _ Hadv];
    [congruence..|]. simplify_eq.
  pose proof (actions_advance_index _ _ _ _ _ _ _ Hadv Hx Hy) as Hi. unfold action_advance in Hi.
  destruct (completed_action (phase a) (phase b)) as [c|] eqn:Hc; [|done].
  destruct (Nat.eqb_spec i c) as [-> | ?]; [|done]. destruct Hi as [Hxp Hyr].
  destruct (completed_action_phases _ _ _ Hc) as [Hpa Hpb].
  destruct (rollback_facts a _ Va Hf Ha) as (_ & _ & _ & Hph).
  split_and!; try done; [by eapply intent_prior_settled|]. intros j Hj.
  destruct (plan_advance_facts _ _ _ _ Hadv) as (_ & _ & _ & H0 & H1 & H2 & H3 & _).
  rewrite Hc in *. unfold action_advance in *.
  destruct j as [|[|[|[|j]]]], c as [|[|[|[|c]]]]; cbn in *; try done; congruence.
Qed.

Lemma rollback_actions_in_order_witness :
  rollback_action_phase (phase (sample_at (take 16 rollback_calls))) = Some (0, false).
Proof.
  refine (proj1 (proj2 (proj2 (rollback_actions_in_order
    (sample_at (take 16 rollback_calls)) (sample_at (take 17 rollback_calls))
    _ _ 0 RollbackAction.Pending RollbackAction.Applied _ _ _ _ _ _))));
    [vm_compute; reflexivity..|discriminate].
Defined.

(** Forward progress against a reference.  From an enabled phase,
    [next_forward_phase] is the first phase of the declaration order that comes later
    and is enabled by the operation and options. *)
Theorem next_forward_phase_is_next_enabled r p :
  phase_enabled r p = true ->
  next_forward_phase r p
  = List.find (fun q => phase_enabled r q && (ordinal p <? ordinal q)%nat) forward_phases.
Proof.
  unfold next_forward_phase, phase_enabled, runs_transaction_triggers.
  destruct r as [? ? ? ? ? op ? ? ? ? ? [ar st bs] ?].
  destruct p, op, ar, st, bs; vm_compute; congruence.
Qed.

Lemma next_forward_phase_is_next_enabled_witness :
  next_forward_phase sample ForwardPhase.RootLinksComplete
  = List.find (fun q => phase_enabled sample q
      && (ordinal ForwardPhase.RootLinksComplete <? ordinal q)%nat) forward_phases.
Proof. apply next_forward_phase_is_next_enabled. reflexivity. Defined.
