(* ===== verification/JournalCodec.v ===== *)
(** * The framed encoding of a journal record

    [encode] and [decode] of [crates/forge/src/transition_journal/codec.rs].
    [serde_json] and [sha2] are third-party code: they are the operations of the
    class [Payload], and [PayloadLaws] states what the codec relies on. *)

From S2P Require Import Prelude JournalModel JournalValidation JournalMachine JournalSuccessors.

Definition MAGIC : bytes := bstr "CASTSTJ" ++ [x00].
Definition FRAME_VERSION : Z := 1.
Definition MAGIC_END : nat := length MAGIC.
Definition VERSION_END : nat := MAGIC_END + 2.
Definition LENGTH_END : nat := VERSION_END + 4.
Definition CHECKSUM_END : nat := LENGTH_END + 32.
Definition HEADER_SIZE : nat := CHECKSUM_END.
Definition MAX_CANONICAL_RECORD_BYTES : Z := 16 * 1024.
Definition USIZE_MAX : Z := 2 ^ 64 - 1.

(** [serde_json::to_vec], [serde_json::from_slice] and SHA-256. *)
Class Payload := {
  to_vec : TransitionRecord -> option bytes;
  from_slice : bytes -> option TransitionRecord;
  sha256 : bytes -> bytes;
}.

(** Deserializing what was serialized gives the record back, and a SHA-256 digest
    has thirty-two bytes. *)
Class PayloadLaws `(Payload) : Prop := {
  from_to_vec r b : to_vec r = Some b -> from_slice b = Some r;
  sha256_length b : length (sha256 b) = 32%nat;
}.

(** [&bytes[from..to]] *)
Definition slice (from to : nat) (b : bytes) : bytes := take (to - from) (drop from b).

Definition enforce_record_size (size : Z) : codec unit :=
  reject (CodecError.RecordTooLarge size) when (MAX_CANONICAL_RECORD_BYTES <? size)%Z.

Section codec.
Context {P : Payload}.

Definition checksum (version length payload : bytes) : bytes :=
  sha256 (MAGIC ++ version ++ length ++ payload).

Definition encode (record : TransitionRecord) : codec bytes :=
  validate record;;
  payload ← ok_or (to_vec record) CodecError.Json;
  framed_len ← ok_or (checked_add 64 (Z.of_nat HEADER_SIZE) (Z.of_nat (length payload)))
                 (CodecError.RecordTooLarge USIZE_MAX);
  enforce_record_size framed_len;;
  payload_len ← ok_or (checked_width 32 (Z.of_nat (length payload)))
                  (CodecError.RecordTooLarge framed_len);
  let version := be_bytes 2 FRAME_VERSION in
  let length := be_bytes 4 payload_len in
  Ok (MAGIC ++ version ++ length ++ checksum version length payload ++ payload).

Definition decode (framed : bytes) : codec TransitionRecord :=
  enforce_record_size (Z.of_nat (length framed));;
  reject (CodecError.TruncatedHeader (Z.of_nat (length framed))) when
    (length framed <? HEADER_SIZE)%nat;;
  reject CodecError.InvalidMagic when (negb (bool_decide (slice 0 MAGIC_END framed = MAGIC)));;
  let frame_version := be_value (slice MAGIC_END VERSION_END framed) in
  reject (CodecError.UnsupportedFrameVersion frame_version) when
    (negb (frame_version =? FRAME_VERSION)%Z);;
  let payload_len := be_value (slice VERSION_END LENGTH_END framed) in
  expected_len ← ok_or (checked_add 64 (Z.of_nat HEADER_SIZE) payload_len)
                   (CodecError.RecordTooLarge USIZE_MAX);
  reject (CodecError.LengthMismatch payload_len (Z.of_nat (length framed - HEADER_SIZE))) when
    (negb (expected_len =? Z.of_nat (length framed))%Z);;
  let payload := drop HEADER_SIZE framed in
  let expected_checksum :=
    checksum (slice MAGIC_END VERSION_END framed) (slice VERSION_END LENGTH_END framed) payload in
  reject CodecError.ChecksumMismatch when
    (negb (bool_decide (slice LENGTH_END CHECKSUM_END framed = expected_checksum)));;
  record ← ok_or (from_slice payload) CodecError.Json;
  validate record;;
  canonical ← ok_or (to_vec record) CodecError.Json;
  reject CodecError.NonCanonicalPayload when (negb (bool_decide (canonical = payload)));;
  Ok record.

(** ** The frame *)

Definition frame (payload : bytes) : bytes :=
  let version := be_bytes 2 FRAME_VERSION in
  let len := be_bytes 4 (Z.of_nat (length payload)) in
  MAGIC ++ version ++ len ++ checksum version len payload ++ payload.

Lemma encode_ok_iff r b :
  encode r = Ok b <->
  validate r = Ok tt /\ exists payload, to_vec r = Some payload /\ b = frame payload
    /\ (Z.of_nat (HEADER_SIZE + length payload) <= MAX_CANONICAL_RECORD_BYTES)%Z.
Proof.
  unfold encode, enforce_record_size. split.
  - intros E. inv_ok.
    repeat match goal with
      | H : checked_add _ _ _ = Some _ |- _ => apply checked_width_Some in H as [-> ?]
      | H : checked_width _ _ = Some _ |- _ => apply checked_width_Some in H as [-> ?]
      | H : (_ <? _)%Z = false |- _ => apply Z.ltb_ge in H
      end.
    split; [done|]. eexists. split_and!; [done..|lia].
  - intros (Hv & payload & Hp & -> & Hlen). rewrite Hv, Hp. cbn [mbind result_bind ok_or].
    unfold MAX_CANONICAL_RECORD_BYTES in *.
    rewrite (proj2 (checked_add_Some 64 _ _ _)) by (split; [done|lia]).
    cbn [mbind result_bind ok_or].
    rewrite (proj2 (Z.ltb_ge _ _)) by lia. cbn [mbind result_bind reject_if].
    by rewrite (proj2 (checked_width_Some 32 _ _)) by (split; [done|lia]).
Qed.

Lemma drop_slice from to b : (from <= to)%nat -> drop from b = slice from to b ++ drop to b.
Proof.
  intros Hle. unfold slice. rewrite <- (take_drop (to - from) (drop from b)) at 1.
  rewrite drop_drop. by replace (from + (to - from))%nat with to by lia.
Qed.

Lemma slices_app b :
  b = slice 0 MAGIC_END b ++ slice MAGIC_END VERSION_END b ++ slice VERSION_END LENGTH_END b
      ++ slice LENGTH_END CHECKSUM_END b ++ drop HEADER_SIZE b.
Proof.
  rewrite <- (drop_slice LENGTH_END CHECKSUM_END), <- (drop_slice VERSION_END LENGTH_END),
    <- (drop_slice MAGIC_END VERSION_END), <- (drop_slice 0 MAGIC_END) by (vm_compute; lia).
  by rewrite drop_0.
Qed.

Lemma slices_of (a v l c p : bytes) :
  length a = MAGIC_END -> length v = 2%nat -> length l = 4%nat -> length c = 32%nat ->
  let b := a ++ v ++ l ++ c ++ p in
  slice 0 MAGIC_END b = a /\ slice MAGIC_END VERSION_END b = v
  /\ slice VERSION_END LENGTH_END b = l /\ slice LENGTH_END CHECKSUM_END b = c
  /\ drop HEADER_SIZE b = p.
Proof.
  intros Ha Hv Hl Hc b. unfold slice, b.
  assert (drop MAGIC_END (a ++ v ++ l ++ c ++ p) = v ++ l ++ c ++ p) as H1 by by rewrite drop_app_exact.
  assert (drop VERSION_END (a ++ v ++ l ++ c ++ p) = l ++ c ++ p) as H2.
  { change VERSION_END with (MAGIC_END + 2)%nat. by rewrite <- drop_drop, H1, drop_app_exact. }
  assert (drop LENGTH_END (a ++ v ++ l ++ c ++ p) = c ++ p) as H3.
  { change LENGTH_END with (VERSION_END + 4)%nat. by rewrite <- drop_drop, H2, drop_app_exact. }
  assert (drop HEADER_SIZE (a ++ v ++ l ++ c ++ p) = p) as H4.
  { change HEADER_SIZE with (LENGTH_END + 32)%nat. by rewrite <- drop_drop, H3, drop_app_exact. }
  rewrite drop_0, H1, H2, H3, H4. split_and!; try done; by apply take_app_exact.
Qed.

Lemma length_slice from to b : (to <= length b)%nat -> length (slice from to b) = (to - from)%nat.
Proof. intros Hl. unfold slice. rewrite length_take, length_drop. lia. Qed.

(** A frame that passes the header checks is the frame of its payload. *)
Lemma decode_ok_frame b r :
  decode b = Ok r ->
  exists payload, b = frame payload
    /\ (Z.of_nat (HEADER_SIZE + length payload) <= MAX_CANONICAL_RECORD_BYTES)%Z
    /\ from_slice payload = Some r /\ validate r = Ok tt /\ to_vec r = Some payload.
Proof.
  unfold decode, enforce_record_size. intros E. cbv zeta in E. inv_ok. bool_prop.
  repeat match goal with
    | H : (_ <? _)%nat = false |- _ => apply Nat.ltb_ge in H
    | H : (_ <? _)%Z = false |- _ => apply Z.ltb_ge in H
    | H : checked_add _ _ _ = Some _ |- _ => apply checked_add_Some in H as [-> ?]
    end. subst.
  match goal with
  | Hv' : be_value (slice MAGIC_END _ _) = _, Hm' : slice 0 MAGIC_END _ = _,
    Hc' : slice LENGTH_END _ _ = _ |- _ => rename Hv' into Hv; rename Hm' into Hm; rename Hc' into Hc
  end.
  assert (CHECKSUM_END <= length b)%nat as Hhd by done.
  exists (drop HEADER_SIZE b). split_and!; try done; [|rewrite length_drop; lia].
  assert (Z.of_nat (length (drop HEADER_SIZE b)) = be_value (slice VERSION_END LENGTH_END b)) as Hlen.
  { rewrite length_drop. lia. }
  assert (be_bytes 2 FRAME_VERSION = slice MAGIC_END VERSION_END b) as Hver.
  { rewrite <- Hv. apply be_bytes_value. rewrite length_slice; [done|]. cbn in *. lia. }
  assert (be_bytes 4 (be_value (slice VERSION_END LENGTH_END b)) = slice VERSION_END LENGTH_END b)
    as Hl.
  { apply be_bytes_value. rewrite length_slice; [done|]. cbn in *. lia. }
  rewrite (slices_app b) at 1. unfold frame. cbv zeta. by rewrite Hlen, Hver, Hl, Hm, Hc.
Qed.

Lemma length_frame payload :
  PayloadLaws _ -> length (frame payload) = (HEADER_SIZE + length payload)%nat.
Proof.
  intros L. unfold frame, checksum. rewrite !length_app, !length_be_bytes, sha256_length. done.
Qed.

Lemma decode_frame payload r :
  PayloadLaws _ ->
  (Z.of_nat (HEADER_SIZE + length payload) <= MAX_CANONICAL_RECORD_BYTES)%Z ->
  from_slice payload = Some r -> validate r = Ok tt -> to_vec r = Some payload ->
  decode (frame payload) = Ok r.
Proof.
  intros L Hlen Hfrom Hv Hto. pose proof (length_frame payload L) as Hl. unfold decode, enforce_record_size.
  rewrite Hl, (proj2 (Z.ltb_ge _ _)) by lia. cbn [mbind result_bind reject_if].
  rewrite (proj2 (Nat.ltb_ge _ _)) by lia. cbn [mbind result_bind reject_if].
  destruct (slices_of MAGIC (be_bytes 2 FRAME_VERSION) (be_bytes 4 (Z.of_nat (length payload)))
    (checksum (be_bytes 2 FRAME_VERSION) (be_bytes 4 (Z.of_nat (length payload))) payload) payload)
    as (H1 & H2 & H3 & H4 & H5); [done|done|done|apply sha256_length|].
  change (_ ++ _) with (frame payload) in H1, H2, H3, H4, H5.
  cbv zeta. rewrite H1, H2, H3, H4, H5. unfold MAX_CANONICAL_RECORD_BYTES in Hlen.
  rewrite (bool_decide_eq_true_2 _ (eq_refl MAGIC)). cbn [negb mbind result_bind reject_if].
  rewrite (be_round_trip 2) by (unfold in_width, FRAME_VERSION; lia). cbn [negb mbind result_bind reject_if Z.eqb FRAME_VERSION Pos.eqb].
  rewrite (be_round_trip 4)
    by (unfold in_width; change (2 ^ (8 * Z.of_nat 4))%Z with 4294967296%Z; lia).
  rewrite (proj2 (checked_add_Some 64 _ _ _)) by (split; [done|lia]).
  cbn [mbind result_bind ok_or]. rewrite (proj2 (Z.eqb_eq _ _)) by lia.
  cbn [negb mbind result_bind reject_if]. rewrite bool_decide_eq_true_2 by done.
  cbn [negb mbind result_bind reject_if]. rewrite Hfrom. cbn [mbind result_bind ok_or].
  rewrite Hv, Hto. cbn [mbind result_bind ok_or]. by rewrite bool_decide_eq_true_2.
Qed.
End codec.

(** ** Torn and padded frames *)

Lemma slice_take from to n b : (to <= n)%nat -> slice from to (take n b) = slice from to b.
Proof.
  intros Hn. unfold slice. rewrite skipn_firstn_comm, take_take. f_equal. lia.
Qed.

Lemma slice_app_l from to b c : (to <= length b)%nat -> slice from to (b ++ c) = slice from to b.
Proof.
  intros Hn. destruct (decide (from <= to)%nat) as [Hle|Hle].
  - unfold slice. rewrite drop_app_le by lia. apply take_app_le. rewrite length_drop. lia.
  - unfold slice. by replace (to - from)%nat with 0%nat by lia.
Qed.

Section resized.
Context {P : Payload}.

(** What [decode] answers on a byte string whose header is that of [b]. *)
Lemma decode_length_mismatch b b' r :
  decode b = Ok r -> (HEADER_SIZE <= length b')%nat ->
  (Z.of_nat (length b') <= MAX_CANONICAL_RECORD_BYTES)%Z -> length b' <> length b ->
  slice 0 MAGIC_END b' = slice 0 MAGIC_END b ->
  slice MAGIC_END VERSION_END b' = slice MAGIC_END VERSION_END b ->
  slice VERSION_END LENGTH_END b' = slice VERSION_END LENGTH_END b ->
  decode b' = Err (CodecError.LengthMismatch (Z.of_nat (length b - HEADER_SIZE))
                     (Z.of_nat (length b' - HEADER_SIZE))).
Proof.
  intros Hd Hlo Hhi Hne H1 H2 H3. unfold decode, enforce_record_size in *. cbv zeta in Hd.
  inv_ok. bool_prop.
  repeat match goal with
    | H : (_ <? _)%nat = false |- _ => apply Nat.ltb_ge in H
    | H : (_ <? _)%Z = false |- _ => apply Z.ltb_ge in H
    | H : checked_add _ _ _ = Some _ |- _ => apply checked_add_Some in H as [-> ?]
    end.
  rewrite (proj2 (Z.ltb_ge _ _)) by lia. cbn [mbind result_bind reject_if].
  rewrite (proj2 (Nat.ltb_ge _ _)) by lia. cbn [mbind result_bind reject_if]. cbv zeta.
  rewrite H1, H2, H3. step_ok. rewrite (proj2 (checked_add_Some 64 _ _ _)) by done.
  cbn [mbind result_bind ok_or]. rewrite (proj2 (Z.eqb_neq _ _)) by lia.
  cbn [negb reject_if mbind result_bind]. do 2 f_equal. lia.
Qed.

Lemma decode_size b r :
  decode b = Ok r ->
  (Z.of_nat HEADER_SIZE <= Z.of_nat (length b) <= MAX_CANONICAL_RECORD_BYTES)%Z.
Proof.
  unfold decode, enforce_record_size. intros Hd. cbv zeta in Hd. inv_ok.
  repeat match goal with
    | H : (_ <? _)%nat = false |- _ => apply Nat.ltb_ge in H
    | H : (_ <? _)%Z = false |- _ => apply Z.ltb_ge in H
    end. lia.
Qed.

Lemma header_ends : (MAGIC_END <= HEADER_SIZE /\ VERSION_END <= HEADER_SIZE /\ LENGTH_END <= HEADER_SIZE)%nat.
Proof. vm_compute. lia. Qed.

(** A torn or padded record never decodes.  If [b] decodes, every proper prefix
    of it is reported as a truncated header or as a length mismatch, and every
    extension of it as too large or as a length mismatch. *)
Theorem decode_rejects_resized b r :
  decode b = Ok r ->
  (forall n, (n < length b)%nat ->
    decode (take n b)
    = Err (if (n <? HEADER_SIZE)%nat then CodecError.TruncatedHeader (Z.of_nat n)
           else CodecError.LengthMismatch (Z.of_nat (length b - HEADER_SIZE))
                  (Z.of_nat (n - HEADER_SIZE))))
  /\ (forall c, c <> [] ->
    decode (b ++ c)
    = Err (if (MAX_CANONICAL_RECORD_BYTES <? Z.of_nat (length (b ++ c)))%Z
           then CodecError.RecordTooLarge (Z.of_nat (length (b ++ c)))
           else CodecError.LengthMismatch (Z.of_nat (length b - HEADER_SIZE))
                  (Z.of_nat (length (b ++ c) - HEADER_SIZE)))).
Proof.
  intros Hd. pose proof (decode_size b r Hd) as [Hlo Hhi]. pose proof header_ends as (He1 & He2 & He3).
  split.
  - intros n Hn. assert (length (take n b) = n) as Hl by (rewrite length_take; lia).
    destruct (Nat.ltb_spec n HEADER_SIZE) as [Hh|Hh].
    + unfold decode, enforce_record_size. rewrite Hl.
      rewrite (proj2 (Z.ltb_ge MAX_CANONICAL_RECORD_BYTES _)) by lia.
      cbn [mbind result_bind reject_if]. by rewrite (proj2 (Nat.ltb_lt _ _)).
    + rewrite (decode_length_mismatch b (take n b) r Hd), Hl; rewrite ?Hl; try lia; [done|..];
        apply slice_take; lia.
  - intros c Hc. assert (length (b ++ c) <> length b) as Hl.
    { rewrite length_app. destruct c; [done|cbn; lia]. }
    assert (length b <= length (b ++ c))%nat as Hle by (rewrite length_app; lia).
    destruct (Z.ltb_spec MAX_CANONICAL_RECORD_BYTES (Z.of_nat (length (b ++ c)))) as [Hm|Hm].
    + unfold decode, enforce_record_size.
      by rewrite (proj2 (Z.ltb_lt MAX_CANONICAL_RECORD_BYTES _)).
    + apply (decode_length_mismatch b (b ++ c) r Hd); try lia; apply slice_app_l; lia.
Qed.
End resized.

(** ** Round trip *)

Lemma encode_decode {P : Payload} {L : PayloadLaws P} r b : encode r = Ok b -> decode b = Ok r.
Proof. intros (Hv & p & Hto & -> & Hlen)%encode_ok_iff. apply decode_frame; auto using from_to_vec. Qed.

(** C10: [encode] and [decode] are inverse to each other.  A record encodes to [b]
    exactly when [b] decodes to it, so a journal file holds one record and a record
    has one encoding, of between 46 and 16384 bytes. *)
Theorem codec_exact {P : Payload} {L : PayloadLaws P} r b :
  (encode r = Ok b <-> decode b = Ok r)
  /\ (encode r = Ok b ->
      (Z.of_nat HEADER_SIZE <= Z.of_nat (length b) <= MAX_CANONICAL_RECORD_BYTES)%Z).
Proof.
  split; [split|].
  - apply encode_decode.
  - intros (p & -> & Hlen & _ & Hv & Hto)%decode_ok_frame. apply encode_ok_iff. eauto.
  - intros (_ & p & _ & -> & Hlen)%encode_ok_iff. rewrite length_frame by done. lia.
Qed.

(** A payload format for one record, to evaluate the codec with. *)
Module Toy.
#[export] Instance payload : Payload := {
  to_vec r := if bool_decide (r = sample) then Some (bstr "sample") else None;
  from_slice b := if bool_decide (b = bstr "sample") then Some sample else None;
  sha256 b := repeat (default x00 (last b)) 32;
}.

#[export] Instance laws : PayloadLaws payload.
Proof.
  split; [|done]. intros r b. cbn. case_bool_decide as E; intros [= <-]. by subst r.
Qed.

Definition bytes_of_sample : bytes := frame (bstr "sample").
End Toy.

Lemma codec_exact_witness :
  (encode (P := Toy.payload) sample = Ok Toy.bytes_of_sample
   <-> decode (P := Toy.payload) Toy.bytes_of_sample = Ok sample)
  /\ (encode (P := Toy.payload) sample = Ok Toy.bytes_of_sample ->
      (Z.of_nat HEADER_SIZE <= Z.of_nat (length Toy.bytes_of_sample) <= MAX_CANONICAL_RECORD_BYTES)%Z).
Proof. apply (codec_exact (P := Toy.payload) (L := Toy.laws)). Defined.

Lemma decode_rejects_resized_witness :
  decode (P := Toy.payload) (take 50 Toy.bytes_of_sample) = Err (CodecError.LengthMismatch 6 4).
Proof.
  refine (proj1 (decode_rejects_resized (P := Toy.payload) Toy.bytes_of_sample sample _) 50%nat _);
    [vm_compute; reflexivity|vm_compute; lia].
Defined.
