(* ===== verification/JournalFs.v ===== *)
(** * The file system interface of the journal store

    The store of [crates/forge/src/transition_journal/store.rs] is written against
    the kernel: [openat2], [renameat2], [unlinkat], [fsync], [fstat] and the like on
    one retained directory descriptor.  A store operation is a program ([prog]) of
    such calls.  The kernel itself is a parameter (class [Kernel]); [KernelLaws]
    states its documented behaviour through the observable file system [FS], failing
    calls and crashes included.  [wp] is the weakest precondition of a program
    together with the condition a crash at any of its points must find. *)

From S2P Require Import Prelude.

(** ** Calls and programs *)

(** [io::ErrorKind], as far as the store tells kinds apart or makes errors up. *)
Inductive errno :=
  | NotFound
  | AlreadyExists
  | Interrupted
  | PermissionDenied
  | InvalidData
  | OtherError (code : Z).
#[global] Instance errno_eq_dec : EqDecision errno.
Proof. solve_decision. Defined.

Abbreviation io := (result errno).

(** [std::fs::Metadata] of an open descriptor. *)
Record metadata := {
  md_dev : Z;
  md_ino : N;
  md_is_file : bool;
  md_uid : Z;
  md_nlink : Z;
  md_mode : Z;
  md_len : Z;
}.

(** The calls, with their answers.  A descriptor is the inode it pins. *)
Inductive call : Type -> Type :=
  | OpenRead (name : bytes) : call (io N)
  | OpenPath (name : bytes) : call (io N)
  | OpenExcl (name : bytes) (mode : Z) : call (io N)
  | Fstat (fd : N) : call (io metadata)
  | Fchmod (fd : N) (mode : Z) : call (io unit)
  | WriteAll (fd : N) (data : bytes) : call (io unit)
  | ReadToEnd (fd : N) (limit : Z) : call (io bytes)
  | Fsync (fd : N) : call (io unit)
  | SyncDirectory : call (io unit)
  | RenameNoReplace (from to : bytes) : call (io unit)
  | RenameExchange (from to : bytes) : call (io unit)
  | Unlink (name : bytes) : call (io unit)
  | ReadDirectory : call (io (list bytes))
  | EffectiveUid : call Z
  | ProcessId : call Z
  | FetchAddSequence : call Z.

Inductive prog (A : Type) : Type :=
  | Ret (a : A)
  | Sys {B : Type} (c : call B) (k : B -> prog A).
Arguments Ret {A} a.
Arguments Sys {A B} c k.

Fixpoint prog_bind {A B} (p : prog A) (f : A -> prog B) : prog B :=
  match p with
  | Ret a => f a
  | Sys c k => Sys c (fun b => prog_bind (k b) f)
  end.

(** Programs that end in a [Result]: the [?] operator is their bind. *)
Definition iom (E A : Type) : Type := prog (result E A).

#[global] Instance iom_ret E : MRet (iom E) := fun A a => Ret (Ok a).
#[global] Instance iom_bind E : MBind (iom E) :=
  fun A B f p => prog_bind p (fun r => match r with Ok a => f a | Err e => Ret (Err e) end).

Definition throw {E A} (e : E) : iom E A := Ret (Err e).
Definition lift {E A} (r : result E A) : iom E A := Ret r.
Definition sys {B} (c : call B) : prog B := Sys c Ret.
(** [.map_err(f)?] on a call *)
Definition sys_err {E A} (c : call (io A)) (f : errno -> E) : iom E A :=
  Sys c (fun r => Ret (map_err f r)).
Definition iom_map_err {E F A} (f : E -> F) (p : iom E A) : iom F A :=
  prog_bind p (fun r => Ret (map_err f r)).
(** The [Result] of a program as a value: [match p { Ok.. Err.. }]. *)
Definition attempt {E F A} (p : iom E A) : iom F (result E A) :=
  prog_bind p (fun r => Ret (Ok r)).
Definition lift_prog {E A} (p : prog A) : iom E A := prog_bind p (fun a => Ret (Ok a)).

(** ** The observable file system *)

Record file := {
  f_data : bytes;
  f_is_file : bool;
  f_uid : Z;
  f_mode : Z;
}.

(** The journal directory: its names, the inodes they pin, the inodes whose data and
    mode are durable, and the earlier name sets a crash may still bring back. *)
Record FS := {
  fs_names : gmap bytes N;
  fs_files : gmap N file;
  fs_synced : gset N;
  fs_pending : list (gmap bytes N);
  fs_uid : Z;
  fs_dev : Z;
}.

Definition links (d : gmap bytes N) (i : N) : Z :=
  Z.of_nat (length (List.filter (fun '(_, j) => (i =? j)%N) (map_to_list d))).

Definition with_names (d : gmap bytes N) (v : FS) : FS :=
  {| fs_names := d; fs_files := fs_files v; fs_synced := fs_synced v;
     fs_pending := fs_names v :: fs_pending v; fs_uid := fs_uid v; fs_dev := fs_dev v |}.

(** A file that changed is no longer durable. *)
Definition with_file (i : N) (f : file) (v : FS) : FS :=
  {| fs_names := fs_names v; fs_files := <[i := f]> (fs_files v); fs_synced := fs_synced v ∖ {[i]};
     fs_pending := fs_pending v; fs_uid := fs_uid v; fs_dev := fs_dev v |}.

Definition with_synced (i : N) (v : FS) : FS :=
  {| fs_names := fs_names v; fs_files := fs_files v; fs_synced := fs_synced v ∪ {[i]};
     fs_pending := fs_pending v; fs_uid := fs_uid v; fs_dev := fs_dev v |}.

Definition with_directory_synced (v : FS) : FS :=
  {| fs_names := fs_names v; fs_files := fs_files v; fs_synced := fs_synced v;
     fs_pending := []; fs_uid := fs_uid v; fs_dev := fs_dev v |}.

Definition append_data (b : bytes) (f : file) : file :=
  {| f_data := f_data f ++ b; f_is_file := f_is_file f; f_uid := f_uid f; f_mode := f_mode f |}.
Definition set_mode (m : Z) (f : file) : file :=
  {| f_data := f_data f; f_is_file := f_is_file f; f_uid := f_uid f; f_mode := m |}.

(** A new inode is named by no directory a crash could leave. *)
Definition fresh_inode (v : FS) (i : N) : Prop :=
  forall d n, In d (fs_names v :: fs_pending v) -> d !! n <> Some i.

(** The effect a call may have: none, or the one it documents.  A call that reports
    an error may still have taken effect; a call that reports success has. *)
Definition effect (ok : bool) (v v' applied : FS) : Prop :=
  if ok then v' = applied else v' = v \/ v' = applied.

Definition renamed_exchange (from to : bytes) (v v' : FS) : Prop :=
  exists i j, fs_names v !! from = Some i /\ fs_names v !! to = Some j /\
    v' = with_names (<[from := j]> (<[to := i]> (fs_names v))) v.

Definition renamed_noreplace (from to : bytes) (v v' : FS) : Prop :=
  exists i, fs_names v !! from = Some i /\ fs_names v !! to = None /\
    v' = with_names (<[to := i]> (delete from (fs_names v))) v.

Definition fs_post {B} (v : FS) (c : call B) : B -> FS -> Prop :=
  match c in call B return B -> FS -> Prop with
  | OpenRead n | OpenPath n => fun r v' =>
      v' = v /\ match r with
                | Ok i => fs_names v !! n = Some i
                | Err NotFound => fs_names v !! n = None
                | Err _ => True
                end
  | OpenExcl n mode => fun r v' =>
      match r with
      | Ok i =>
          fs_names v !! n = None /\ fresh_inode v i
          /\ exists m, (0 <= m)%Z /\ Z.ldiff m mode = 0%Z /\
             v' = with_file i {| f_data := []; f_is_file := true; f_uid := fs_uid v; f_mode := m |}
                    (with_names (<[n := i]> (fs_names v)) v)
      | Err _ => v' = v
      end
  | Fstat fd => fun r v' =>
      v' = v /\ match r with
                | Ok md => exists f, fs_files v !! fd = Some f
                    /\ md = {| md_dev := fs_dev v; md_ino := fd; md_is_file := f_is_file f;
                               md_uid := f_uid f; md_nlink := links (fs_names v) fd;
                               md_mode := f_mode f; md_len := Z.of_nat (length (f_data f)) |}
                | Err _ => True
                end
  | Fchmod fd mode => fun r v' =>
      match fs_files v !! fd with
      | Some f => effect (is_ok r) v v' (with_file fd (set_mode mode f) v)
      | None => is_ok r = false /\ v' = v
      end
  | WriteAll fd data => fun r v' =>
      match fs_files v !! fd with
      | Some f =>
          exists written rest, data = written ++ rest /\ (is_ok r = true -> rest = [])
            /\ v' = with_file fd (append_data written f) v
      | None => is_ok r = false /\ v' = v
      end
  | ReadToEnd fd limit => fun r v' =>
      v' = v /\ match r with
                | Ok b => exists f, fs_files v !! fd = Some f /\ b = take (Z.to_nat limit) (f_data f)
                | Err _ => True
                end
  | Fsync fd => fun r v' => effect (is_ok r) v v' (with_synced fd v)
  | SyncDirectory => fun r v' => effect (is_ok r) v v' (with_directory_synced v)
  | RenameNoReplace from to => fun r v' =>
      renamed_noreplace from to v v' \/ (is_ok r = false /\ v' = v)
  | RenameExchange from to => fun r v' =>
      renamed_exchange from to v v' \/ (is_ok r = false /\ v' = v)
  | Unlink n => fun r v' =>
      (is_Some (fs_names v !! n) /\ v' = with_names (delete n (fs_names v)) v)
      \/ (is_ok r = false /\ v' = v)
  | ReadDirectory => fun r v' =>
      v' = v /\ match r with
                | Ok l => NoDup l /\ forall n, n ∈ l <->
                    is_Some (fs_names v !! n) \/ n = bstr "." \/ n = bstr ".."
                | Err _ => True
                end
  | EffectiveUid => fun r v' => v' = v /\ r = fs_uid v
  | ProcessId => fun r v' => v' = v /\ in_u32 r
  | FetchAddSequence => fun r v' => v' = v /\ in_u64 r
  end.

(** A crash keeps one of the name sets since the last directory sync, and the data
    of every synced inode. *)
Definition fs_crash (v v' : FS) : Prop :=
  In (fs_names v') (fs_names v :: fs_pending v)
  /\ fs_pending v' = [] /\ fs_uid v' = fs_uid v /\ fs_dev v' = fs_dev v
  /\ fs_synced v' = fs_synced v
  /\ forall i, i ∈ fs_synced v -> fs_files v' !! i = fs_files v !! i.

(** ** The kernel *)

Class Kernel := {
  kstate : Type;
  answer : forall {B}, call B -> kstate -> B * kstate;
  view : kstate -> FS;
}.

Class KernelLaws (K : Kernel) : Prop :=
  answer_post : forall B (c : call B) s, fs_post (view s) c (answer c s).1 (view (answer c s).2).

Fixpoint run {K : Kernel} {A} (p : prog A) (s : kstate) : A * kstate :=
  match p with
  | Ret a => (a, s)
  | Sys c k => let '(b, s') := answer c s in run (k b) s'
  end.

(** Every state the run goes through, first and last included. *)
Fixpoint states {K : Kernel} {A} (p : prog A) (s : kstate) : list kstate :=
  match p with
  | Ret _ => [s]
  | Sys c k => let '(b, s') := answer c s in s :: states (k b) s'
  end.

(** ** Weakest preconditions with a crash condition *)

Fixpoint wp {A} (C : FS -> Prop) (Q : A -> FS -> Prop) (p : prog A) (v : FS) : Prop :=
  match p with
  | Ret a => C v /\ Q a v
  | Sys c k => C v /\ forall b v', fs_post v c b v' -> wp C Q (k b) v'
  end.

Lemma wp_sound `{KernelLaws} {A} C Q (p : prog A) s :
  wp C Q p (view s) ->
  Forall (fun s' => C (view s')) (states p s) /\ Q (run p s).1 (view (run p s).2).
Proof.
  revert s. induction p as [a|B c k IH]; intros s Hwp; cbn in *.
  - split; [by repeat constructor; apply Hwp|apply Hwp].
  - destruct Hwp as [HC Hk]. pose proof (answer_post B c s) as Hpost.
    destruct (answer c s) as [b s']. cbn in Hpost. destruct (IH b s' (Hk _ _ Hpost)).
    split; [by constructor|done].
Qed.

Lemma wp_crash {A} C Q (p : prog A) v : wp C Q p v -> C v.
Proof. by destruct p; intros []. Qed.

Lemma wp_mono {A} (C C' : FS -> Prop) (Q Q' : A -> FS -> Prop) (p : prog A) v :
  wp C Q p v -> (forall v, C v -> C' v) -> (forall a v, C v -> Q a v -> Q' a v) -> wp C' Q' p v.
Proof.
  intros Hwp HC HQ. revert v Hwp.
  induction p as [a|B c k IH]; cbn; intros v [Hc Hk]; split; eauto.
Qed.

Lemma wp_bind {A B} C Q (p : prog A) (f : A -> prog B) v :
  wp C (fun a v => wp C Q (f a) v) p v -> wp C Q (prog_bind p f) v.
Proof.
  revert v. induction p as [a|D c k IH]; cbn; intros v Hwp.
  - apply Hwp.
  - destruct Hwp as [HC Hk]. split; [done|]. intros b v' Hb. apply IH. by apply Hk.
Qed.

Lemma wp_ret {A} (C : FS -> Prop) (Q : A -> FS -> Prop) a v : C v -> Q a v -> wp C Q (Ret a) v.
Proof. done. Qed.

Lemma wp_sys {A B} (C : FS -> Prop) (Q : A -> FS -> Prop) (c : call B) k v :
  C v -> (forall b v', fs_post v c b v' -> wp C Q (k b) v') -> wp C Q (Sys c k) v.
Proof. done. Qed.

(** The [?] operator: an error ends the program with it. *)
Lemma wp_iom_bind {E A B} C (Q : result E B -> FS -> Prop) (p : iom E A) (f : A -> iom E B) v :
  wp C (fun r v => match r with Ok a => wp C Q (f a) v | Err e => Q (Err e) v end) p v ->
  wp C Q (p ≫= f) v.
Proof.
  intros Hwp. apply wp_bind. eapply wp_mono; [exact Hwp|done|].
  intros [a|e] v' HC HQ; [done|]. by apply wp_ret.
Qed.

Lemma wp_sys_err {E A} C (Q : result E A -> FS -> Prop) (c : call (io A)) (f : errno -> E) v :
  C v -> (forall r v', fs_post v c r v' -> C v' /\ Q (map_err f r) v') -> wp C Q (sys_err c f) v.
Proof. intros HC Hk. split; [done|]. intros r v' Hr. by apply Hk. Qed.
