(* ===== verification/JournalStore.v ===== *)
(** * The durable journal store

    [TransitionJournalStore] of [crates/forge/src/transition_journal/store.rs], with
    [store/stale_temporary_cleanup.rs] and the helpers of
    [crates/forge/src/transition_journal.rs]: loading, creating, advancing and
    deleting the one canonical record through a private temporary file, a rename and
    directory syncs.  [storage_fault] and the checkpoints are test hooks that do
    nothing in a release build; a failing call is a failing answer of the kernel. *)

From S2P Require Import Prelude ByteStrings JournalModel JournalValidation JournalCodec JournalFs.

(** ** Names and limits ([transition_journal.rs]) *)

Definition CANONICAL_NAME : bytes := bstr "state-transition".
Definition LOCK_NAME : bytes := bstr "state-transition.lock".
Definition JOURNAL_FILE_MODE : Z := 384.  (* 0o600 *)
Definition MAX_STALE_TEMPORARIES : nat := 256.
Definition TEMPORARY_PREFIX : bytes := bstr ".state-transition.tmp-".
Definition DELETE_PREFIX : bytes := bstr ".state-transition.delete-".
Definition MAX_ATTEMPTS : nat := 128.

Record InodeIdentity := { id_device : Z; id_inode : N }.
#[global] Instance InodeIdentity_eq_dec : EqDecision InodeIdentity.
Proof. solve_decision. Defined.

Module StorageError.
Inductive t :=
  | OperationLockPoisoned
  | OpenCanonical (source : errno)
  | ValidateCanonical (source : errno)
  | ReadCanonical (source : errno)
  | Decode (source : CodecError.t)
  | Encode (source : CodecError.t)
  | InvalidCreationRecord
  | CanonicalAlreadyExists
  | CanonicalMissing
  | ExpectedRecordMismatch
  | InvalidAdvance (source : CodecError.t)
  | DeleteNonterminal
  | UnexpectedJournalEntry (name : bytes)
  | TooManyStaleTemporaries
  | EnumerateJournal (source : errno)
  | ValidateStaleTemporary (name : bytes) (source : errno)
  | CleanupTemporary (name : bytes) (source : errno)
  | CreateTemporary (source : errno)
  | TemporaryNamesExhausted
  | ValidateTemporary (source : errno)
  | WriteTemporary (source : errno)
  | SyncTemporary (source : errno)
  | PublishCanonical (source : errno)
  | CanonicalChanged
  | DeleteCanonical (source : errno)
  | DeleteDisplaced (source : errno)
  | SyncJournalDirectory (source : errno).
End StorageError.

Abbreviation storage := (iom StorageError.t).

Definition temporary_name_of (process sequence : Z) : bytes :=
  TEMPORARY_PREFIX ++ hex_digits 8 process ++ bstr "-" ++ hex_digits 16 sequence.

Definition temporary_name : storage bytes :=
  process ← lift_prog (sys ProcessId);
  sequence ← lift_prog (sys FetchAddSequence);
  mret (temporary_name_of process sequence).

Definition valid_private_tail (tail : bytes) : bool :=
  (length tail =? 8 + 1 + 16)%nat
  && bool_decide (tail !! 8%nat = Some "-"%byte)
  && forallb is_lower_hex (take 8 tail ++ drop 9 tail).

Definition valid_temporary_name (name : bytes) : bool :=
  match strip_prefix TEMPORARY_PREFIX name with
  | None => false
  | Some tail => valid_private_tail tail
  end.

Definition valid_delete_name (name : bytes) : bool :=
  match strip_prefix DELETE_PREFIX name with
  | None => false
  | Some tail => valid_private_tail tail
  end.

Definition not_dot (name : bytes) : bool :=
  negb (bool_decide (name = bstr ".")) && negb (bool_decide (name = bstr "..")).

Definition directory_entries : iom errno (list bytes) :=
  listing ← sys_err ReadDirectory id;
  let entries := List.filter not_dot listing in
  if (MAX_STALE_TEMPORARIES + 3 <? length entries)%nat then throw InvalidData else mret entries.

(** ** Metadata checks *)

Definition permissions (md : metadata) : Z := Z.land (md_mode md) 4095.  (* 0o7777 *)

Definition require_safe_regular_file_metadata (md : metadata) (expected_owner : Z) : io unit :=
  reject PermissionDenied when
    (negb (md_is_file md) || negb (md_uid md =? expected_owner)%Z || negb (md_nlink md =? 1)%Z
     || negb (permissions md =? JOURNAL_FILE_MODE)%Z).

Definition require_safe_regular_file (fd : N) : iom errno unit :=
  md ← sys_err (Fstat fd) id;
  euid ← lift_prog (sys EffectiveUid);
  lift (require_safe_regular_file_metadata md euid).

Definition require_safe_stale_temporary (fd : N) : iom errno unit :=
  md ← sys_err (Fstat fd) id;
  euid ← lift_prog (sys EffectiveUid);
  lift (reject PermissionDenied when
    (negb (md_is_file md) || negb (md_uid md =? euid)%Z || negb (md_nlink md =? 1)%Z
     || negb (Z.ldiff (permissions md) JOURNAL_FILE_MODE =? 0)%Z)).

Definition inode_identity (fd : N) : iom errno InodeIdentity :=
  md ← sys_err (Fstat fd) id;
  mret {| id_device := md_dev md; id_inode := md_ino md |}.

Definition require_same_inode (expected actual : InodeIdentity) : storage unit :=
  lift (reject StorageError.CanonicalChanged when (negb (bool_decide (expected = actual)))).

Definition read_bounded (fd : N) : iom errno bytes :=
  initial ← sys_err (Fstat fd) id;
  euid ← lift_prog (sys EffectiveUid);
  lift (require_safe_regular_file_metadata initial euid);;
  let initial_len := md_len initial in
  lift (reject InvalidData when (MAX_CANONICAL_RECORD_BYTES <? initial_len)%Z);;
  data ← sys_err (ReadToEnd fd (MAX_CANONICAL_RECORD_BYTES + 1)) id;
  lift (reject InvalidData when (MAX_CANONICAL_RECORD_BYTES <? Z.of_nat (length data))%Z);;
  final ← sys_err (Fstat fd) id;
  euid ← lift_prog (sys EffectiveUid);
  lift (require_safe_regular_file_metadata final euid);;
  lift (reject InvalidData when
    (negb (Z.of_nat (length data) =? initial_len)%Z || negb (md_len final =? md_len initial)%Z));;
  mret data.

(** ** Reading the canonical record ([store.rs]) *)

Record LoadedRecord := {
  lr_record : TransitionRecord;
  lr_framed : bytes;
  lr_file : N;
  lr_identity : InodeIdentity;
}.

Record TemporaryRecord := {
  tmp_name : bytes;
  tmp_file : N;
  tmp_identity : InodeIdentity;
}.

Definition open_named (name : bytes) : storage (option N) :=
  opened ← attempt (sys_err (OpenRead name) id);
  match opened with
  | Ok file =>
      iom_map_err StorageError.ValidateCanonical (require_safe_regular_file file);;
      mret (Some file)
  | Err NotFound => mret None
  | Err source => throw (StorageError.OpenCanonical source)
  end.

(** [self.open_named(name)?.ok_or(CanonicalChanged)?] and its identity *)
Definition named_identity (name : bytes) : storage InodeIdentity :=
  named ← open_named name;
  match named with
  | None => throw StorageError.CanonicalChanged
  | Some file => iom_map_err StorageError.ValidateCanonical (inode_identity file)
  end.

Section store.
Context {P : Payload}.

Definition load_pinned : storage (option LoadedRecord) :=
  opened ← open_named CANONICAL_NAME;
  match opened with
  | None => mret None
  | Some file =>
      ident ← iom_map_err StorageError.ValidateCanonical (inode_identity file);
      framed ← iom_map_err StorageError.ReadCanonical (read_bounded file);
      iom_map_err StorageError.ValidateCanonical (require_safe_regular_file file);;
      record ← lift (map_err StorageError.Decode (decode framed));
      mret (Some {| lr_record := record; lr_framed := framed; lr_file := file;
                    lr_identity := ident |})
  end.

(** ** Temporary files *)

Definition cleanup_temporary_identity (name : bytes) (expected : InodeIdentity) : storage unit :=
  named ← sys_err (OpenPath name) (StorageError.CleanupTemporary name);
  actual ← iom_map_err (StorageError.CleanupTemporary name) (inode_identity named);
  if bool_decide (actual = expected) then
    sys_err (Unlink name) (StorageError.CleanupTemporary name);;
    sys_err SyncDirectory StorageError.SyncJournalDirectory
  else throw StorageError.CanonicalChanged.

Definition cleanup_temporary (temporary : TemporaryRecord) : storage unit :=
  cleanup_temporary_identity (tmp_name temporary) (tmp_identity temporary).

Fixpoint create_temporary_attempts (attempts : nat) : storage TemporaryRecord :=
  match attempts with
  | 0%nat => throw StorageError.TemporaryNamesExhausted
  | S attempts' =>
      name ← temporary_name;
      opened ← attempt (sys_err (OpenExcl name JOURNAL_FILE_MODE) id);
      match opened with
      | Ok file =>
          identified ← attempt (inode_identity file);
          match identified with
          | Err source =>
              sys_err (Unlink name) (StorageError.CleanupTemporary name);;
              sys_err SyncDirectory StorageError.SyncJournalDirectory;;
              throw (StorageError.ValidateTemporary source)
          | Ok ident =>
              permitted ← attempt (sys_err (Fchmod file JOURNAL_FILE_MODE) id);
              match permitted with
              | Err source =>
                  cleanup_temporary_identity name ident;;
                  throw (StorageError.CreateTemporary source)
              | Ok _ =>
                  safe ← attempt (require_safe_regular_file file);
                  match safe with
                  | Err source =>
                      cleanup_temporary_identity name ident;;
                      throw (StorageError.ValidateTemporary source)
                  | Ok _ =>
                      mret {| tmp_name := name; tmp_file := file; tmp_identity := ident |}
                  end
              end
          end
      | Err AlreadyExists => create_temporary_attempts attempts'
      | Err source => throw (StorageError.CreateTemporary source)
      end
  end.

Definition create_temporary : storage TemporaryRecord := create_temporary_attempts MAX_ATTEMPTS.

(** ** Publication *)

Definition publish_initial (temporary : TemporaryRecord) : storage unit :=
  published ← attempt (sys_err (RenameNoReplace (tmp_name temporary) CANONICAL_NAME) id);
  match published with
  | Err source =>
      cleanup_temporary temporary;;
      throw (StorageError.PublishCanonical source)
  | Ok _ =>
      canonical ← named_identity CANONICAL_NAME;
      require_same_inode (tmp_identity temporary) canonical;;
      sys_err SyncDirectory StorageError.SyncJournalDirectory
  end.

Definition publish_update (temporary : TemporaryRecord) (existing : LoadedRecord) : storage unit :=
  named ← named_identity CANONICAL_NAME;
  require_same_inode (lr_identity existing) named;;
  exchanged ← attempt (sys_err (RenameExchange (tmp_name temporary) CANONICAL_NAME) id);
  match exchanged with
  | Err source =>
      cleanup_temporary temporary;;
      throw (StorageError.PublishCanonical source)
  | Ok _ =>
      canonical ← named_identity CANONICAL_NAME;
      require_same_inode (tmp_identity temporary) canonical;;
      displaced ← named_identity (tmp_name temporary);
      require_same_inode (lr_identity existing) displaced;;
      sys_err SyncDirectory StorageError.SyncJournalDirectory;;
      sys_err (Unlink (tmp_name temporary)) StorageError.DeleteDisplaced;;
      sys_err SyncDirectory StorageError.SyncJournalDirectory
  end.

Definition publish_record_inode (framed : bytes) (existing : option LoadedRecord)
    : storage TemporaryRecord :=
  temporary ← create_temporary;
  let file := tmp_file temporary in
  written ← attempt (sys_err (WriteAll file framed) id);
  match written with
  | Err source => cleanup_temporary temporary;; throw (StorageError.WriteTemporary source)
  | Ok _ =>
      synced ← attempt (sys_err (Fsync file) id);
      match synced with
      | Err source => cleanup_temporary temporary;; throw (StorageError.SyncTemporary source)
      | Ok _ =>
          safe ← attempt (require_safe_regular_file file);
          match safe with
          | Err source => cleanup_temporary temporary;; throw (StorageError.ValidateTemporary source)
          | Ok _ =>
              identified ← attempt (inode_identity file);
              match identified with
              | Err source =>
                  cleanup_temporary temporary;; throw (StorageError.ValidateTemporary source)
              | Ok ident =>
                  let temporary :=
                    {| tmp_name := tmp_name temporary; tmp_file := file; tmp_identity := ident |} in
                  match existing with
                  | None => publish_initial temporary
                  | Some existing => publish_update temporary existing
                  end;;
                  mret temporary
              end
          end
      end
  end.

Definition publish_record (framed : bytes) (existing : option LoadedRecord) : storage unit :=
  publish_record_inode framed existing;; mret tt.

(** ** The store's operations *)

Record TransitionJournalStore := { operation_lock_poisoned : bool }.

Definition lock_operation (self : TransitionJournalStore) : storage unit :=
  lift (reject StorageError.OperationLockPoisoned when (operation_lock_poisoned self)).

Definition load (self : TransitionJournalStore) : storage (option TransitionRecord) :=
  lock_operation self;;
  loaded ← load_pinned;
  mret (lr_record <$> loaded).

Definition create (self : TransitionJournalStore) (record : TransitionRecord) : storage unit :=
  lock_operation self;;
  framed ← lift (map_err StorageError.Encode (encode record));
  lift (reject StorageError.InvalidCreationRecord when
    (negb (generation record =? 1)%Z || negb (bool_decide (phase record = Phase.Preparing))
     || bool_decide (is_Some (rollback record))));;
  existing ← load_pinned;
  match existing with
  | Some _ => throw StorageError.CanonicalAlreadyExists
  | None => publish_record framed None
  end.

Definition advance (self : TransitionJournalStore) (expected next : TransitionRecord)
    : storage unit :=
  lock_operation self;;
  lift (map_err StorageError.InvalidAdvance (validate_advance expected next));;
  framed ← lift (map_err StorageError.Encode (encode next));
  existing ← load_pinned;
  match existing with
  | None => throw StorageError.CanonicalMissing
  | Some existing =>
      if bool_decide (lr_record existing = expected) then publish_record framed (Some existing)
      else throw StorageError.ExpectedRecordMismatch
  end.

(** [delete]: [delete_locked] without a retained [.cast] descriptor to revalidate. *)
Definition delete (self : TransitionJournalStore) (expected : TransitionRecord) : storage bool :=
  lock_operation self;;
  lift (map_err StorageError.Decode (validate expected));;
  lift (reject StorageError.DeleteNonterminal when (negb (deletable (phase expected))));;
  existing ← load_pinned;
  match existing with
  | None => mret false
  | Some existing =>
      if bool_decide (lr_record existing = expected) then
        named ← named_identity CANONICAL_NAME;
        require_same_inode (lr_identity existing) named;;
        sys_err (Unlink CANONICAL_NAME) StorageError.DeleteCanonical;;
        sys_err SyncDirectory StorageError.SyncJournalDirectory;;
        mret true
      else throw StorageError.ExpectedRecordMismatch
  end.

(** ** Stale temporaries ([store/stale_temporary_cleanup.rs]) *)

Fixpoint collect_stale (entries : list bytes) (stale : list bytes) : storage (list bytes) :=
  match entries with
  | [] => mret stale
  | name :: entries' =>
      if bool_decide (name = CANONICAL_NAME \/ name = LOCK_NAME) then collect_stale entries' stale
      else if valid_temporary_name name then
        let stale := stale ++ [name] in
        if (MAX_STALE_TEMPORARIES <? length stale)%nat then throw StorageError.TooManyStaleTemporaries
        else collect_stale entries' stale
      else throw (StorageError.UnexpectedJournalEntry name)
  end.

Fixpoint authenticate_stale (stale : list bytes) : storage (list (bytes * InodeIdentity)) :=
  match stale with
  | [] => mret []
  | name :: stale' =>
      file ← sys_err (OpenPath name) (StorageError.ValidateStaleTemporary name);
      iom_map_err (StorageError.ValidateStaleTemporary name) (require_safe_stale_temporary file);;
      ident ← iom_map_err (StorageError.ValidateStaleTemporary name) (inode_identity file);
      rest ← authenticate_stale stale';
      mret ((name, ident) :: rest)
  end.

Fixpoint cleanup_authenticated (authenticated : list (bytes * InodeIdentity)) : storage unit :=
  match authenticated with
  | [] => mret tt
  | (name, ident) :: rest =>
      cleanup_temporary_identity name ident;;
      cleanup_authenticated rest
  end.

Definition cleanup_stale_temporaries : storage unit :=
  entries ← iom_map_err StorageError.EnumerateJournal directory_entries;
  stale ← collect_stale entries [];
  authenticated ← authenticate_stale stale;
  cleanup_authenticated authenticated.
End store.
