(* ===== verification/JournalStoreSpec.v ===== *)
(** * What the journal directory holds

    The invariant of the journal directory ([journal_in]): whichever name set a crash
    brings back, the canonical name is absent or names one durable, owner-private
    regular file with admitted bytes.  Each call of the store keeps it; the
    specifications of the store's read-only functions follow. *)

From S2P Require Import Prelude JournalModel JournalValidation JournalCodec JournalFs JournalStore.

(** ** The directory invariant *)

Definition private_file (v : FS) (i : N) (f : file) : Prop :=
  fs_files v !! i = Some f /\ f_is_file f = true /\ f_uid f = fs_uid v
  /\ Z.land (f_mode f) 4095 = JOURNAL_FILE_MODE.

Definition dir_inj (d : gmap bytes N) : Prop :=
  forall n m i, d !! n = Some i -> d !! m = Some i -> n = m.

Definition known_name (n : bytes) : Prop :=
  n = CANONICAL_NAME \/ n = LOCK_NAME \/ valid_temporary_name n = true.

(** Directory [d] holds [o]: the bytes of its canonical file, or nothing. *)
Definition dir_holds (v : FS) (d : gmap bytes N) (o : option bytes) : Prop :=
  match d !! CANONICAL_NAME with
  | None => o = None
  | Some i => i ∈ fs_synced v /\ exists f, private_file v i f /\ o = Some (f_data f)
  end.

Definition dir_ok (v : FS) (d : gmap bytes N) : Prop :=
  dir_inj d /\ forall n, is_Some (d !! n) -> known_name n.

Definition dirs (v : FS) : list (gmap bytes N) := fs_names v :: fs_pending v.

Definition journal_in (R : option bytes -> Prop) (v : FS) : Prop :=
  forall d, In d (dirs v) -> dir_ok v d /\ exists o, R o /\ dir_holds v d o.

Lemma journal_in_mono (R R' : option bytes -> Prop) v :
  (forall o, R o -> R' o) -> journal_in R v -> journal_in R' v.
Proof. intros HR H d Hd. destruct (H d Hd) as (? & o & ? & ?). eauto. Qed.

(** A crash leaves the invariant as it is. *)
Lemma journal_in_crash R v v' : journal_in R v -> fs_crash v v' -> journal_in R v'.
Proof.
  intros H (Hn & Hp & Hu & Hd & Hs & Hf) d Hin. unfold dirs in Hin. rewrite Hp in Hin.
  destruct Hin as [<- | []]. destruct (H _ Hn) as (Hok & o & HR & Ho). split; [done|].
  exists o. split; [done|]. unfold dir_holds, private_file in *.
  destruct (fs_names v' !! CANONICAL_NAME) as [i|]; [|done].
  destruct Ho as (Hi & f & (Hfi & ? & ? & ?) & ->). rewrite Hs, (Hf i Hi), Hu. eauto 10.
Qed.

(** ** Each change keeps it *)

Lemma dir_holds_with_names v d d' o : dir_holds (with_names d' v) d o <-> dir_holds v d o.
Proof. done. Qed.

Lemma journal_in_names R v d' :
  journal_in R v -> dir_ok v d' -> (exists o, R o /\ dir_holds v d' o) ->
  journal_in R (with_names d' v).
Proof. intros H Hok Ho d [<- | Hd]; [by split|]. apply (H d Hd). Qed.

Lemma journal_in_visible R v : journal_in R v -> dir_ok v (fs_names v) /\ exists o, R o /\ dir_holds v (fs_names v) o.
Proof. intros H. apply H. by left. Qed.

Lemma dir_ok_delete v d n : dir_ok v d -> dir_ok v (base.delete n d).
Proof.
  intros [Hi Hk]. split.
  - intros m m' i Hm Hm'. apply lookup_delete_Some in Hm as [_ Hm], Hm' as [_ Hm']. eauto.
  - intros m [i Hm%lookup_delete_Some]. apply Hk. exists i. tauto.
Qed.

Lemma journal_in_unlink R v n :
  n <> CANONICAL_NAME -> journal_in R v -> journal_in R (with_names (base.delete n (fs_names v)) v).
Proof.
  intros Hn H. destruct (journal_in_visible R v H) as (Hok & o & HR & Ho).
  apply journal_in_names; [done|by apply dir_ok_delete|]. exists o. split; [done|].
  unfold dir_holds. by rewrite lookup_delete_ne by done.
Qed.

Lemma journal_in_directory_synced R v : journal_in R v -> journal_in R (with_directory_synced v).
Proof. intros H d [<- | []]. apply (journal_in_visible R v H). Qed.

Lemma journal_in_synced R v i : journal_in R v -> journal_in R (with_synced i v).
Proof.
  intros H d Hd. destruct (H d Hd) as (Hok & o & HR & Ho). split; [done|]. exists o. split; [done|].
  unfold dir_holds in *. destruct (d !! CANONICAL_NAME); [|done]. destruct Ho as [? ?].
  split; [set_solver|done].
Qed.

(** Inode [i] is no canonical record, whatever a crash brings back. *)
Definition not_canonical (v : FS) (i : N) : Prop :=
  forall d, In d (dirs v) -> d !! CANONICAL_NAME <> Some i.

Lemma journal_in_file R v i f : not_canonical v i -> journal_in R v -> journal_in R (with_file i f v).
Proof.
  intros Hn H d Hd. destruct (H d Hd) as (Hok & o & HR & Ho). split; [done|]. exists o. split; [done|].
  specialize (Hn d Hd). unfold dir_holds, private_file in *.
  destruct (d !! CANONICAL_NAME) as [j|]; [|done]. assert (i <> j) by congruence.
  destruct Ho as (Hj & g & Hg & ->). cbn. rewrite lookup_insert_ne by done. split; [set_solver|eauto].
Qed.

Lemma dir_ok_insert v d n i :
  dir_ok v d -> known_name n -> (forall m, d !! m <> Some i) -> dir_ok v (<[n := i]> d).
Proof.
  intros [Hi Hk] Hn Hf. split.
  - intros m m' j Hm Hm'. apply lookup_insert_Some in Hm as [[<- <-] | [? Hm]];
      apply lookup_insert_Some in Hm' as [[<- Hj] | [? Hm']]; try done; [|subst j|]; [..|eauto].
    + exfalso. by apply (Hf m').
    + exfalso. by apply (Hf m).
  - intros m [j Hm]. apply lookup_insert_Some in Hm as [[<- _] | [_ Hm]]; eauto.
Qed.

(** ** Read-only functions *)

Section read_only.
Context (C : FS -> Prop) (v : FS) (HC : C v).

Lemma wp_map_err {E F A} (f : E -> F) (Q : result F A -> FS -> Prop) (p : iom E A) w :
  wp C (fun r w => Q (map_err f r) w) p w -> wp C Q (iom_map_err f p) w.
Proof using.
  intros H. apply wp_bind. eapply wp_mono; [exact H|done|]. intros r u Hu HQ. by apply wp_ret.
Qed.

Lemma wp_attempt {E F A} (Q : result F (result E A) -> FS -> Prop) (p : iom E A) w :
  wp C (fun r w => Q (Ok r) w) p w -> wp C Q (attempt p) w.
Proof using.
  intros H. apply wp_bind. eapply wp_mono; [exact H|done|]. intros r u Hu HQ. by apply wp_ret.
Qed.

Lemma wp_lift {E A} (Q : result E A -> FS -> Prop) (r : result E A) : Q r v -> wp C Q (lift r) v.
Proof using HC. by apply wp_ret. Qed.

Lemma wp_lift_bind {E A B} (Q : result E B -> FS -> Prop) (r : result E A) (k : A -> iom E B) :
  (forall e, r = Err e -> Q (Err e) v) -> (forall a, r = Ok a -> wp C Q (k a) v) ->
  wp C Q (lift r ≫= k) v.
Proof using HC. intros He Hk. apply wp_iom_bind, wp_lift. destruct r; eauto. Qed.

Lemma wp_guard {E B} (Q : result E B -> FS -> Prop) b e (k : unit -> iom E B) :
  (b = true -> Q (Err e) v) -> (b = false -> wp C Q (k tt) v) ->
  wp C Q (lift (reject_if b e) ≫= k) v.
Proof using HC.
  intros He Hk. apply wp_lift_bind.
  - intros e' [? <-]%reject_err_iff. auto.
  - intros [] ?%reject_ok_iff. auto.
Qed.

(** What [fstat] tells of a descriptor. *)
Definition stat (w : FS) (fd : N) (f : file) : metadata :=
  {| md_dev := fs_dev w; md_ino := fd; md_is_file := f_is_file f; md_uid := f_uid f;
     md_nlink := links (fs_names w) fd; md_mode := f_mode f;
     md_len := Z.of_nat (length (f_data f)) |}.

Lemma wp_fstat {E} (g : errno -> E) (Q : result E metadata -> FS -> Prop) fd :
  (forall r, (forall md, r = Ok md -> exists f, fs_files v !! fd = Some f /\ md = stat v fd f) -> Q r v) ->
  wp C Q (sys_err (Fstat fd) g) v.
Proof using HC.
  intros HQ. apply wp_sys_err; [done|]. intros r v' [-> Hr]. split; [done|]. apply HQ.
  intros md Hmd. destruct r as [md'|e]; [|done]. injection Hmd as ->.
  destruct Hr as (f & Hf & ->). eauto.
Qed.

Lemma wp_euid {E} (Q : result E Z -> FS -> Prop) :
  Q (Ok (fs_uid v)) v -> wp C Q (lift_prog (sys EffectiveUid)) v.
Proof using HC. intros HQ. split; [done|]. intros b v' [-> ->]. by split. Qed.

(** A descriptor that passed the metadata checks. *)
Definition private (w : FS) (i : N) : Prop := exists f, private_file w i f.

Lemma safe_metadata_private fd f :
  fs_files v !! fd = Some f -> require_safe_regular_file_metadata (stat v fd f) (fs_uid v) = Ok tt ->
  private_file v fd f.
Proof using.
  unfold require_safe_regular_file_metadata, permissions, private_file. cbn.
  intros Hf Hs. apply reject_ok_iff in Hs. bool_prop. done.
Qed.

Lemma wp_require_safe (Q : result errno unit -> FS -> Prop) fd :
  (forall r, (r = Ok tt -> private v fd) -> Q r v) -> wp C Q (require_safe_regular_file fd) v.
Proof using HC.
  intros HQ. unfold require_safe_regular_file. apply wp_iom_bind, wp_fstat. intros r Hr.
  destruct r as [md|e]; [|by apply HQ]. destruct (Hr md eq_refl) as (f & Hf & ->).
  apply wp_iom_bind, wp_euid, wp_lift, HQ. intros Hs. exists f. by apply safe_metadata_private.
Qed.

Definition identity_of (w : FS) (i : N) : InodeIdentity := {| id_device := fs_dev w; id_inode := i |}.

Lemma wp_inode_identity (Q : result errno InodeIdentity -> FS -> Prop) fd :
  (forall r, (forall id, r = Ok id -> id = identity_of v fd) -> Q r v) ->
  wp C Q (inode_identity fd) v.
Proof using HC.
  intros HQ. unfold inode_identity. apply wp_iom_bind, wp_fstat. intros r Hr.
  destruct r as [md|e]; [|by apply HQ]. destruct (Hr md eq_refl) as (f & Hf & ->).
  apply wp_ret; [done|]. apply HQ. by intros id [= <-].
Qed.

Lemma wp_read_bounded (Q : result errno bytes -> FS -> Prop) fd :
  (forall r, (forall b, r = Ok b -> exists f, private_file v fd f /\ f_data f = b) -> Q r v) ->
  wp C Q (read_bounded fd) v.
Proof using HC.
  intros HQ. assert (forall e, Q (Err e) v) as He by (intros e; by apply HQ).
  unfold read_bounded. apply wp_iom_bind, wp_fstat. intros [md|e] Hr; [|done].
  destruct (Hr md eq_refl) as (f & Hf & ->). apply wp_iom_bind, wp_euid.
  apply wp_lift_bind; [done|]. intros [] Hs%safe_metadata_private; [|done].
  apply wp_guard; [done|]. intros Hl1.
  apply wp_iom_bind, wp_sys_err; [done|]. intros r w [-> Hb]. split; [done|].
  destruct r as [b|e]; [|apply He]. destruct Hb as (f' & Hf' & ->). cbn [map_err id]. simplify_eq.
  apply wp_guard; [done|]. intros Hl2.
  apply wp_iom_bind, wp_fstat. intros [md'|e] Hr'; [|done].
  apply wp_iom_bind, wp_euid. apply wp_lift_bind; [done|]. intros [] _.
  apply wp_guard; [done|]. intros Hl3.
  apply wp_ret; [done|]. apply HQ. intros b [= <-]. exists f. split; [done|].
  cbn [stat md_len] in Hl1. apply Z.ltb_ge in Hl1. by rewrite take_ge by lia.
Qed.

Lemma wp_open_named (Q : result StorageError.t (option N) -> FS -> Prop) n :
  (forall r, (forall i, r = Ok (Some i) -> fs_names v !! n = Some i /\ private v i) ->
             (r = Ok None -> fs_names v !! n = None) -> Q r v) ->
  wp C Q (open_named n) v.
Proof using HC.
  intros HQ. unfold open_named. apply wp_iom_bind, wp_attempt, wp_sys_err; [done|].
  intros r w [-> Hr]. split; [done|]. destruct r as [i|e]; cbn [map_err id].
  - apply wp_iom_bind, wp_map_err, wp_require_safe. intros [[]|e] Hs; cbn [map_err]; [|by apply HQ].
    apply wp_ret; [done|]. apply HQ; [|done]. intros j [= <-]. auto.
  - destruct e; apply wp_ret; try done; apply HQ; done.
Qed.

Lemma wp_named_identity (Q : result StorageError.t InodeIdentity -> FS -> Prop) n :
  (forall r, (forall id, r = Ok id ->
                exists i, fs_names v !! n = Some i /\ private v i /\ id = identity_of v i) -> Q r v) ->
  wp C Q (named_identity n) v.
Proof using HC.
  intros HQ. unfold named_identity. apply wp_iom_bind, wp_open_named.
  intros [[i|]|e] Hi Hn; [|apply wp_ret; [done|]; by apply HQ|by apply HQ].
  destruct (Hi i eq_refl) as [Hni Hp]. apply wp_map_err, wp_inode_identity.
  intros r Hr. apply HQ. intros id Hid. exists i. split_and!; [done..|]. apply Hr. destruct r; naive_solver.
Qed.

Lemma wp_require_same_inode (Q : result StorageError.t unit -> FS -> Prop) a b :
  (forall r, (r = Ok tt -> a = b) -> Q r v) -> wp C Q (require_same_inode a b) v.
Proof using HC.
  intros HQ. apply wp_lift, HQ. intros H%reject_ok_iff. by bool_prop.
Qed.

Context {P : Payload}.

(** [load_pinned] reports the record the canonical name holds, and changes nothing. *)
Lemma wp_load_pinned (Q : result StorageError.t (option LoadedRecord) -> FS -> Prop) :
  (forall r, (r = Ok None -> fs_names v !! CANONICAL_NAME = None) ->
             (forall l, r = Ok (Some l) -> exists f,
                fs_names v !! CANONICAL_NAME = Some (lr_file l) /\ private_file v (lr_file l) f
                /\ f_data f = lr_framed l /\ lr_identity l = identity_of v (lr_file l)
                /\ decode (lr_framed l) = Ok (lr_record l)) -> Q r v) ->
  wp C Q load_pinned v.
Proof using HC.
  intros HQ. assert (forall e, Q (Err e) v) as He by (intros e; by apply HQ).
  unfold load_pinned. apply wp_iom_bind, wp_open_named. intros [[i|]|e] Hi Hn; [| |done].
  2:{ apply wp_ret; [done|]. apply HQ; [auto|done]. }
  destruct (Hi i eq_refl) as [Hni Hp].
  apply wp_iom_bind, wp_map_err, wp_inode_identity. intros [id|e] Hid; [|apply He].
  apply wp_iom_bind, wp_map_err, wp_read_bounded. intros [b|e] Hb; [|apply He].
  destruct (Hb b eq_refl) as (f & Hf & Hd).
  apply wp_iom_bind, wp_map_err, wp_require_safe. intros [[]|e] _; [|apply He]. cbn [map_err].
  apply wp_lift_bind; [intros ? _; apply He|]. intros rec Hdec%map_err_ok_iff.
  apply wp_ret; [done|]. apply HQ; [done|]. intros l [= <-]. exists f. cbn. auto 10.
Qed.
End read_only.
