(* ===== verification/JournalCrash.v ===== *)
(** * Crash safety of the journal store

    Every operation of [JournalStore] is run against an arbitrary kernel that obeys
    [KernelLaws], with any call failing at any time.  At every point of the run, and
    after a crash at that point, the canonical name holds the old or the new record;
    when the operation reports success, a crash cannot bring the old one back. *)

From S2P Require Import Prelude ByteStrings JournalModel JournalValidation JournalMachine JournalSuccessors JournalCodec JournalFs JournalStore JournalStoreSpec.

(** ** Private names *)

Lemma temporary_not_canonical n : valid_temporary_name n = true -> n <> CANONICAL_NAME.
Proof. intros H ->. vm_compute in H. discriminate. Qed.

Lemma temporary_name_valid process sequence :
  valid_temporary_name (temporary_name_of process sequence) = true.
Proof.
  unfold valid_temporary_name, temporary_name_of. rewrite strip_prefix_app.
  destruct (hex_digits_spec 8 process) as [Hl1 Hf1], (hex_digits_spec 16 sequence) as [Hl2 Hf2].
  change (bstr "-") with ["-"%byte]. revert Hl1 Hf1 Hl2 Hf2.
  generalize (hex_digits 8 process) (hex_digits 16 sequence). intros h1 h2 Hl1 Hf1 Hl2 Hf2.
  unfold valid_private_tail. rewrite take_app_exact by done.
  rewrite drop_app_ge, lookup_app_r, !length_app, Hl1, Hl2 by lia. cbn.
  by rewrite drop_0, forallb_app, Hf1, Hf2, bool_decide_true.
Qed.

(** ** Cleaning up *)

Section crash.
Context (R : option bytes -> Prop).

Lemma wp_unlink (Q : result StorageError.t unit -> FS -> Prop) n e v :
  n <> CANONICAL_NAME -> journal_in R v -> (forall r v', journal_in R v' -> Q r v') ->
  wp (journal_in R) Q (sys_err (Unlink n) e) v.
Proof.
  intros Hn Hv HQ. apply wp_sys_err; [done|]. intros r v' Hpost.
  assert (journal_in R v') as Hv'.
  { destruct Hpost as [[_ ->] | [_ ->]]; [by apply journal_in_unlink|done]. }
  auto.
Qed.

Lemma wp_sync_directory (Q : result StorageError.t unit -> FS -> Prop) e v :
  journal_in R v -> (forall r v', journal_in R v' -> Q r v') ->
  wp (journal_in R) Q (sys_err SyncDirectory e) v.
Proof.
  intros Hv HQ. apply wp_sys_err; [done|]. intros r w Hpost.
  assert (journal_in R w) as Hw.
  { unfold fs_post, effect in Hpost. destruct (is_ok r); [subst; by apply journal_in_directory_synced|].
    destruct Hpost as [-> | ->]; [done|by apply journal_in_directory_synced]. }
  auto.
Qed.

Lemma wp_cleanup_identity (Q : result StorageError.t unit -> FS -> Prop) n id v :
  n <> CANONICAL_NAME -> journal_in R v -> (forall r v', journal_in R v' -> Q r v') ->
  wp (journal_in R) Q (cleanup_temporary_identity n id) v.
Proof.
  intros Hn Hv HQ. unfold cleanup_temporary_identity.
  apply wp_iom_bind, wp_sys_err; [done|]. intros r w [-> _]. split; [done|].
  destruct r as [i|e]; [|by apply HQ]. apply wp_iom_bind, wp_map_err, wp_inode_identity; [done|].
  intros [id'|e] _; [|by apply HQ]. cbn [map_err].
  destruct (bool_decide (id' = id)); [|by apply wp_ret; [|apply HQ]].
  apply wp_iom_bind, wp_unlink; [done..|]. intros [[]|e] v' Hv'; [|by apply HQ].
  by apply wp_sync_directory.
Qed.

(** A cleanup that precedes reporting an error. *)
Lemma wp_cleanup_then {A} (Q : result StorageError.t A -> FS -> Prop) n id e v :
  n <> CANONICAL_NAME -> journal_in R v -> (forall e v', journal_in R v' -> Q (Err e) v') ->
  wp (journal_in R) Q (cleanup_temporary_identity n id;; throw e) v.
Proof.
  intros Hn Hv HQ. apply wp_iom_bind, wp_cleanup_identity; [done..|].
  intros [[]|e'] v' Hv'; [by apply wp_ret; [|apply HQ]|by apply HQ].
Qed.

(** ** The temporary file *)

(** The store's own temporary: privately named in a directory that was [d] before,
    naming no record, and holding [data]. *)
Record temporary_ready (v : FS) (d : gmap bytes N) (t : TemporaryRecord) (data : bytes) : Prop := {
  tr_journal : journal_in R v;
  tr_name : valid_temporary_name (tmp_name t) = true;
  tr_names : fs_names v = <[tmp_name t := tmp_file t]> d;
  tr_new : d !! tmp_name t = None;
  tr_fresh : forall n, d !! n <> Some (tmp_file t);
  tr_apart : not_canonical v (tmp_file t);
  tr_data : exists f, fs_files v !! tmp_file t = Some f /\ f_data f = data;
}.

Lemma temporary_created v n i m id :
  journal_in R v -> valid_temporary_name n = true -> fs_names v !! n = None -> fresh_inode v i ->
  temporary_ready
    (with_file i {| f_data := []; f_is_file := true; f_uid := fs_uid v; f_mode := m |}
      (with_names (<[n := i]> (fs_names v)) v))
    (fs_names v) {| tmp_name := n; tmp_file := i; tmp_identity := id |} [].
Proof.
  intros Hv Hn Hnone Hfresh. destruct (journal_in_visible R v Hv) as (Hok & o & HR & Ho).
  pose proof (temporary_not_canonical n Hn) as Hnc.
  assert (not_canonical (with_names (<[n := i]> (fs_names v)) v) i) as Hapart.
  { intros d [<- | Hd]; cbn; [rewrite lookup_insert_ne by done|].
    - apply Hfresh. by left.
    - apply Hfresh. exact Hd. }
  constructor; cbn; try done.
  - apply journal_in_file; [done|]. apply journal_in_names; [done| |].
    + apply dir_ok_insert; [done|by right; right|]. intros m'. apply Hfresh. by left.
    + exists o. split; [done|]. unfold dir_holds. by rewrite lookup_insert_ne by done.
  - intros m'. apply Hfresh. by left.
  - rewrite lookup_insert_eq. by eexists.
Qed.

(** Writing to the temporary leaves it the store's own. *)
Lemma temporary_with_file v d t data f :
  temporary_ready v d t data -> temporary_ready (with_file (tmp_file t) f v) d t (f_data f).
Proof.
  intros []. constructor; try done.
  - by apply journal_in_file.
  - exists f. cbn. by rewrite lookup_insert_eq.
Qed.

Lemma temporary_synced v d t data :
  temporary_ready v d t data -> temporary_ready (with_synced (tmp_file t) v) d t data.
Proof. intros []. constructor; try done. by apply journal_in_synced. Qed.

Lemma temporary_identity v d t data ident :
  temporary_ready v d t data ->
  temporary_ready v d {| tmp_name := tmp_name t; tmp_file := tmp_file t; tmp_identity := ident |} data.
Proof. by intros []; constructor. Qed.

Lemma wp_temporary_name (Q : result StorageError.t bytes -> FS -> Prop) v :
  journal_in R v -> (forall n, valid_temporary_name n = true -> Q (Ok n) v) ->
  wp (journal_in R) Q temporary_name v.
Proof.
  intros Hv HQ. split; [done|]. intros p w [-> _]. split; [done|]. intros q w [-> _].
  split; [done|]. apply HQ, temporary_name_valid.
Qed.

Lemma wp_create_attempts (Q : result StorageError.t TemporaryRecord -> FS -> Prop) k v :
  journal_in R v ->
  (forall t v', temporary_ready v' (fs_names v) t [] -> Q (Ok t) v') ->
  (forall e v', journal_in R v' -> Q (Err e) v') ->
  wp (journal_in R) Q (create_temporary_attempts k) v.
Proof.
  revert v. induction k as [|k IH]; intros v Hv HOk HErr; cbn [create_temporary_attempts].
  { by apply wp_ret; [|apply HErr]. }
  apply wp_iom_bind, wp_temporary_name; [done|]. intros n Hn.
  pose proof (temporary_not_canonical n Hn) as Hnc.
  apply wp_iom_bind, wp_attempt, wp_sys_err; [done|]. intros [i|e] w Hpost; cbn [map_err id fs_post] in *.
  2:{ subst w. split; [done|]. destruct e; try (by apply wp_ret; [|apply HErr]). by apply IH. }
  destruct Hpost as (Hnone & Hfresh & m & _ & _ & ->).
  assert (forall ident, temporary_ready _ _ _ _) as Hready
    by (intros ident; exact (temporary_created v n i m ident Hv Hn Hnone Hfresh)).
  pose proof (tr_journal _ _ _ _ (Hready (identity_of v i))) as Hw.
  split; [exact Hw|]. revert Hready Hw. generalize (with_file i {| f_data := []; f_is_file := true; f_uid := fs_uid v; f_mode := m |} (with_names (<[n := i]> (fs_names v)) v)).
  intros w Hready Hw. apply wp_iom_bind, wp_attempt, wp_inode_identity; [done|]. intros [ident|e] Hid.
  2:{ apply wp_iom_bind, wp_unlink; [done..|]. intros [[]|e'] v' Hv'; [|by apply HErr].
      apply wp_iom_bind, wp_sync_directory; [done|]. intros [[]|e'] v2 Hv2; [|by apply HErr].
      by apply wp_ret; [|apply HErr]. }
  apply wp_iom_bind, wp_attempt, wp_sys_err; [done|]. cbn [fs_post].
  intros r u Hpost. destruct (tr_data _ _ _ _ (Hready ident)) as (f & Hf & Hd). cbn in Hf. rewrite Hf in Hpost.
  assert (temporary_ready u (fs_names v) {| tmp_name := n; tmp_file := i; tmp_identity := ident |} []) as Hu.
  { assert (temporary_ready (with_file i (set_mode JOURNAL_FILE_MODE f) w) (fs_names v)
      {| tmp_name := n; tmp_file := i; tmp_identity := ident |} []) as Hch.
    { rewrite <- Hd. exact (temporary_with_file _ _ _ _ (set_mode JOURNAL_FILE_MODE f) (Hready ident)). }
    destruct r as [[]|e]; cbn in Hpost; [by subst|]. by destruct Hpost as [-> | ->]. }
  pose proof (tr_journal _ _ _ _ Hu) as Hju. split; [done|].
  destruct r as [[]|e]; cbn [map_err id]; [|by apply wp_cleanup_then].
  apply wp_iom_bind, wp_attempt, wp_require_safe; [done|]. intros [[]|e] _; [|by apply wp_cleanup_then].
  by apply wp_ret; [|apply HOk].
Qed.

(** ** Publication *)

(** The temporary once its data is durable and its metadata checked. *)
Definition publishable (v : FS) (d : gmap bytes N) (t : TemporaryRecord) (data : bytes) : Prop :=
  temporary_ready v d t data /\ tmp_file t ∈ fs_synced v /\ private v (tmp_file t).

Lemma publishable_holds v d t data d' :
  publishable v d t data -> d' !! CANONICAL_NAME = Some (tmp_file t) -> dir_holds v d' (Some data).
Proof.
  intros ([] & Hs & f & Hf) Hd'. unfold dir_holds. rewrite Hd'. split; [done|]. exists f. split; [done|].
  destruct tr_data0 as (g & Hg & <-). destruct Hf as [Hf _]. congruence.
Qed.

Lemma publishable_known v d t data :
  publishable v d t data -> dir_inj d /\ forall n, is_Some (d !! n) -> known_name n.
Proof.
  intros ([] & _). destruct (journal_in_visible R v tr_journal0) as [[Hi Hk] _].
  rewrite tr_names0 in Hi, Hk. split.
  - intros n m i Hn Hm. apply (Hi n m i); rewrite lookup_insert_ne; congruence.
  - intros n [i Hn]. apply Hk. exists i. rewrite lookup_insert_ne; congruence.
Qed.

(** Publishing in an empty journal: the name moves to the canonical one. *)
Lemma publish_initial_names v d t data v' :
  R (Some data) -> publishable v d t data -> renamed_noreplace (tmp_name t) CANONICAL_NAME v v' ->
  journal_in R v' /\ dir_holds v' (fs_names v') (Some data)
  /\ fs_names v' = <[CANONICAL_NAME := tmp_file t]> d.
Proof.
  intros HR Hp (i & Hi & Hnone & ->). pose proof Hp as ([] & _).
  pose proof (publishable_known _ _ _ _ Hp) as Hd.
  pose proof (temporary_not_canonical _ tr_name0) as Hnc.
  rewrite tr_names0, lookup_insert_eq in Hi. injection Hi as <-.
  assert (base.delete (tmp_name t) (fs_names v) = d) as Hdel
    by (rewrite tr_names0; by apply delete_insert_id).
  rewrite Hdel. assert (dir_holds v (<[CANONICAL_NAME := tmp_file t]> d) (Some data)) as Hh
    by (apply (publishable_holds v d t data _ Hp), lookup_insert_eq).
  split_and!; [|done..]. apply journal_in_names; [done| |by eauto].
  apply dir_ok_insert; [exact Hd|by left|done].
Qed.

(** Publishing over a record: the two names trade places. *)
Lemma publish_update_names v d t data j v' :
  R (Some data) -> publishable v d t data -> d !! CANONICAL_NAME = Some j ->
  renamed_exchange (tmp_name t) CANONICAL_NAME v v' ->
  journal_in R v' /\ dir_holds v' (fs_names v') (Some data)
  /\ fs_names v' = <[tmp_name t := j]> (<[CANONICAL_NAME := tmp_file t]> d).
Proof.
  intros HR Hp Hj (i & j' & Hi & Hj' & ->). pose proof Hp as ([] & _).
  pose proof (publishable_known _ _ _ _ Hp) as [Hinj Hk].
  pose proof (temporary_not_canonical _ tr_name0) as Hnc.
  rewrite tr_names0, lookup_insert_eq in Hi. injection Hi as <-.
  rewrite tr_names0, lookup_insert_ne, Hj in Hj' by done. injection Hj' as <-.
  assert (<[tmp_name t:=j]> (<[CANONICAL_NAME:=tmp_file t]> (fs_names v))
    = <[tmp_name t := j]> (<[CANONICAL_NAME := tmp_file t]> d)) as ->.
  { by rewrite tr_names0, (insert_insert_ne _ CANONICAL_NAME), insert_insert_eq by done. }
  set (d' := <[tmp_name t := j]> (<[CANONICAL_NAME := tmp_file t]> d)).
  assert (dir_holds v d' (Some data)) as Hh.
  { apply (publishable_holds v d t data d' Hp). unfold d'.
    by rewrite lookup_insert_ne, lookup_insert_eq by done. }
  split_and!; [|done..]. apply journal_in_names; [done| |by eauto].
  unfold d'. apply dir_ok_insert; [|by right; right|].
  - apply dir_ok_insert; [by split|by left|done].
  - intros m Hm. apply lookup_insert_Some in Hm as [[_ Hm] | [Hne Hm]].
    + apply (tr_fresh0 CANONICAL_NAME). congruence.
    + apply Hne, (Hinj _ _ _ Hj Hm).
Qed.

(** A synced directory holds what it shows. *)
Lemma wp_sync_settled (Q : result StorageError.t unit -> FS -> Prop) g o v :
  journal_in R v -> dir_holds v (fs_names v) o ->
  (forall e v', journal_in R v' -> Q (Err e) v') ->
  (forall v', journal_in (eq o) v' -> fs_names v' = fs_names v -> Q (Ok tt) v') ->
  wp (journal_in R) Q (sys_err SyncDirectory g) v.
Proof.
  intros Hv Ho HErr HOk. pose proof (journal_in_directory_synced R v Hv) as Hs.
  apply wp_sys_err; [done|]. intros [[]|e] w Hpost; cbn [map_err].
  - cbn in Hpost. subst w. split; [done|]. apply HOk; [|done]. intros d [<- | []].
    split; [apply (journal_in_visible R v Hv)|by eauto].
  - cbn in Hpost. assert (journal_in R w) by (by destruct Hpost as [-> | ->]). auto.
Qed.

(** Deleting the displaced record. *)
Lemma wp_unlink_sync (Q : result StorageError.t unit -> FS -> Prop) n e e' v :
  n <> CANONICAL_NAME -> journal_in R v -> (forall e v', journal_in R v' -> Q (Err e) v') ->
  (forall v', journal_in R v' -> fs_names v' = base.delete n (fs_names v) -> Q (Ok tt) v') ->
  wp (journal_in R) Q (sys_err (Unlink n) e;; sys_err SyncDirectory e') v.
Proof.
  intros Hn Hv HErr HOk. pose proof (journal_in_unlink R v n Hn Hv) as Hu.
  apply wp_iom_bind, wp_sys_err; [done|]. intros [[]|x] w Hpost; cbn [map_err].
  2:{ assert (journal_in R w) by (by destruct Hpost as [[_ ->] | [_ ->]]). auto. }
  destruct Hpost as [[_ ->] | [? _]]; [|done]. split; [done|].
  pose proof (journal_in_directory_synced R _ Hu) as Hs.
  apply wp_sys_err; [done|]. intros [[]|x] w Hpost; cbn [map_err]; cbn in Hpost.
  - subst w. split; [done|]. by apply HOk.
  - assert (journal_in R w) by (by destruct Hpost as [-> | ->]). auto.
Qed.
End crash.

Section publish.
Context {P : Payload} (R : option bytes -> Prop) (data : bytes) (HR : R (Some data)).

(** What a reported publication leaves: the new record, durably, under the canonical
    name of a directory that is otherwise [d]. *)
Definition published (d : gmap bytes N) (v : FS) : Prop :=
  journal_in (eq (Some data)) v /\ exists i, fs_names v = <[CANONICAL_NAME := i]> d.

Lemma settled_in v : journal_in (eq (Some data)) v -> journal_in R v.
Proof using HR. apply journal_in_mono. by intros o <-. Qed.

Lemma wp_publish_initial (Q : result StorageError.t unit -> FS -> Prop) v d t :
  publishable R v d t data ->
  (forall e v', journal_in R v' -> Q (Err e) v') ->
  (forall v', published d v' -> Q (Ok tt) v') ->
  wp (journal_in R) Q (publish_initial t) v.
Proof using HR.
  intros Hp HErr HOk. pose proof Hp as ([Hj Hn _ _ _ _ _] & _).
  apply temporary_not_canonical in Hn. unfold publish_initial.
  apply wp_iom_bind, wp_attempt, wp_sys_err; [done|]. intros r w Hpost.
  assert (journal_in R w) as Hw.
  { destruct Hpost as [Hren | [_ ->]]; [|done]. by eapply publish_initial_names. }
  split; [done|]. destruct r as [[]|e]; cbn [map_err id]; [|by apply wp_cleanup_then].
  destruct Hpost as [Hren | [? _]]; [|done].
  destruct (publish_initial_names R v d t data w HR Hp Hren) as (_ & Hh & Hnames).
  apply wp_iom_bind, wp_named_identity; [done|]. intros [ident|e] _; [|by apply HErr].
  apply wp_iom_bind, wp_require_same_inode; [done|]. intros [[]|e] _; [|by apply HErr].
  apply wp_sync_settled with (o := Some data); [done..|]. intros v' Hv' Hnames'.
  apply HOk. split; [done|]. exists (tmp_file t). congruence.
Qed.

Lemma wp_publish_update (Q : result StorageError.t unit -> FS -> Prop) v d t existing :
  publishable R v d t data -> is_Some (d !! CANONICAL_NAME) ->
  (forall e v', journal_in R v' -> Q (Err e) v') ->
  (forall v', published d v' -> Q (Ok tt) v') ->
  wp (journal_in R) Q (publish_update t existing) v.
Proof using HR.
  intros Hp [j Hj] HErr HOk. pose proof Hp as ([Hjr Hn Hnames _ _ _ _] & _).
  pose proof (tr_new _ _ _ _ _ (proj1 Hp)) as Hnew.
  apply temporary_not_canonical in Hn. unfold publish_update.
  apply wp_iom_bind, wp_named_identity; [done|]. intros [ident|e] _; [|by apply HErr].
  apply wp_iom_bind, wp_require_same_inode; [done|]. intros [[]|e] _; [|by apply HErr].
  apply wp_iom_bind, wp_attempt, wp_sys_err; [done|]. intros r w Hpost.
  assert (journal_in R w) as Hw.
  { destruct Hpost as [Hren | [_ ->]]; [|done]. by eapply publish_update_names. }
  split; [done|]. destruct r as [[]|e]; cbn [map_err id]; [|by apply wp_cleanup_then].
  destruct Hpost as [Hren | [? _]]; [|done].
  destruct (publish_update_names R v d t data j w HR Hp Hj Hren) as (_ & Hh & Hw').
  apply wp_iom_bind, wp_named_identity; [done|]. intros [ident'|e] _; [|by apply HErr].
  apply wp_iom_bind, wp_require_same_inode; [done|]. intros [[]|e] _; [|by apply HErr].
  apply wp_iom_bind, wp_named_identity; [done|]. intros [ident2|e] _; [|by apply HErr].
  apply wp_iom_bind, wp_require_same_inode; [done|]. intros [[]|e] _; [|by apply HErr].
  apply wp_iom_bind, wp_sync_settled with (o := Some data); [done..|]. intros u Hu Hnames'.
  eapply wp_mono with (C := journal_in (eq (Some data))); [|apply settled_in|intros ???; exact id].
  apply wp_unlink_sync; [done..| |].
  - intros e u' Hu'. apply HErr. by apply settled_in.
  - intros u' Hu' Hdel. apply HOk. split; [done|]. exists (tmp_file t). rewrite Hdel, Hnames', Hw'.
    rewrite delete_insert_id; [done|]. by rewrite lookup_insert_ne by done.
Qed.

Lemma wp_publish_record (Q : result StorageError.t unit -> FS -> Prop) v existing :
  journal_in R v ->
  is_Some (fs_names v !! CANONICAL_NAME) \/ existing = None ->
  (forall e v', journal_in R v' -> Q (Err e) v') ->
  (forall v', published (fs_names v) v' -> Q (Ok tt) v') ->
  wp (journal_in R) Q (publish_record data existing) v.
Proof using HR.
  intros Hv Hex HErr HOk. unfold publish_record, publish_record_inode.
  apply wp_iom_bind, wp_iom_bind. apply wp_create_attempts; [done| |by apply HErr].
  intros t w Hready. pose proof (tr_name _ _ _ _ _ Hready) as Hn%temporary_not_canonical.
  pose proof (tr_journal _ _ _ _ _ Hready) as Hjw.
  apply wp_iom_bind, wp_attempt, wp_sys_err; [done|]. cbn [fs_post]. intros r u Hpost.
  destruct (tr_data _ _ _ _ _ Hready) as (f & Hf & Hd). rewrite Hf in Hpost.
  destruct Hpost as (written & rest & Hw & Hr & Hu).
  assert (temporary_ready R u (fs_names v) t written) as Hru.
  { subst u. pose proof (temporary_with_file R w _ t _ (append_data written f) Hready) as H.
    unfold append_data in H at 2. cbn in H. by rewrite Hd in H. }
  pose proof (tr_journal _ _ _ _ _ Hru) as Hju. split; [done|].
  destruct r as [[]|e]; cbn [map_err id]; [|by apply wp_cleanup_then].
  rewrite (Hr eq_refl), app_nil_r in Hw. subst written.
  apply wp_iom_bind, wp_attempt, wp_sys_err; [done|]. intros r x Hpost.
  assert (journal_in R x) as Hjx.
  { cbn in Hpost. pose proof (journal_in_synced R u (tmp_file t) Hju).
    destruct r as [[]|e]; cbn in Hpost; [by subst|]. by destruct Hpost as [-> | ->]. }
  split; [done|]. destruct r as [[]|e]; cbn [map_err id]; [|by apply wp_cleanup_then].
  cbn in Hpost. subst x. apply wp_iom_bind, wp_attempt, wp_require_safe; [done|].
  intros [[]|e] Hsafe; [|by apply wp_cleanup_then].
  apply wp_iom_bind, wp_attempt, wp_inode_identity; [done|].
  intros [ident|e] _; [|by apply wp_cleanup_then]. apply wp_iom_bind.
  assert (publishable R (with_synced (tmp_file t) u) (fs_names v)
    {| tmp_name := tmp_name t; tmp_file := tmp_file t; tmp_identity := ident |} data) as Hp.
  { split_and!; [|cbn; set_solver|by apply Hsafe].
    by apply temporary_identity, temporary_synced. }
  destruct existing as [existing|].
  - destruct Hex as [Hex|]; [|done]. eapply wp_publish_update; [done..|].
    intros v' Hv'. assert (journal_in R v') by apply settled_in, Hv'.
    by apply wp_ret; [|apply wp_ret; [|apply HOk]].
  - eapply wp_publish_initial; [done..|].
    intros v' Hv'. assert (journal_in R v') by apply settled_in, Hv'.
    by apply wp_ret; [|apply wp_ret; [|apply HOk]].
Qed.
End publish.
