(* ===== verification/JournalDurability.v ===== *)
(** * The journal store keeps one record, whatever crashes

    What each operation of [JournalStore] does to the canonical record, on an
    arbitrary kernel that obeys [KernelLaws]: loading reports it, creating and
    advancing replace it atomically and durably, deleting removes it, cleaning up
    stale temporaries leaves it alone.  Over any sequence of operations, failures and
    crashes the journal holds nothing or the latest record of one history of
    [validate_advance] steps. *)

From S2P Require Import Prelude JournalModel JournalValidation JournalMachine JournalSuccessors JournalCodec JournalFs JournalStore JournalStoreSpec JournalCrash.

(** The bytes the canonical name shows. *)
Definition holds (v : FS) (o : option bytes) : Prop := dir_holds v (fs_names v) o.

Lemma dir_holds_fun v d o o' : dir_holds v d o -> dir_holds v d o' -> o = o'.
Proof.
  unfold dir_holds, private_file. destruct (d !! CANONICAL_NAME); [|congruence].
  intros (_ & f & (Hf & _) & ->) (_ & g & (Hg & _) & ->). congruence.
Qed.

Lemma journal_in_holds R v o : journal_in R v -> holds v o -> R o.
Proof.
  intros (_ & o' & HR & Ho')%journal_in_visible Ho.
  by rewrite (dir_holds_fun _ _ _ _ Ho Ho').
Qed.

Lemma journal_in_crash_holds R v v' : journal_in R v -> fs_crash v v' -> exists o, R o /\ holds v' o.
Proof. intros H Hc. apply (journal_in_visible R v'), (journal_in_crash R v v' H Hc). Qed.

Lemma journal_in_absent R v : journal_in R v -> fs_names v !! CANONICAL_NAME = None -> holds v None.
Proof. intros _ H. unfold holds, dir_holds. by rewrite H. Qed.

Lemma journal_in_private R v i f :
  journal_in R v -> fs_names v !! CANONICAL_NAME = Some i -> private_file v i f ->
  holds v (Some (f_data f)).
Proof.
  intros (_ & o & _ & Ho)%journal_in_visible Hi (Hf & _). unfold holds, dir_holds in *.
  rewrite Hi in *. destruct Ho as (Hs & g & Hg & ->). split; [done|]. exists g.
  destruct Hg as (Hg & Hrest). assert (f = g) by congruence. by subst.
Qed.

(** ** What the operations accept *)

Section operations.
Context {P : Payload}.

(** A record [create] admits. *)
Definition creatable (r : TransitionRecord) : Prop :=
  valid r /\ generation r = 1%Z /\ phase r = Phase.Preparing /\ rollback r = None.

(** The directory may come to hold [new], the frame of [next]: over the record
    [expected] it decodes to, or in an empty journal. *)
Definition may_publish (v : FS) (expected : option TransitionRecord) (next : TransitionRecord)
    (new : bytes) : Prop :=
  encode next = Ok new /\
  match expected with
  | Some e => validate_advance e next = Ok tt /\ exists old, holds v (Some old) /\ decode old = Ok e
  | None => creatable next /\ holds v None
  end.

(** The old contents or the new. *)
Definition old_or_new (R : option bytes -> Prop) (v : FS) (expected : option TransitionRecord)
    (next : TransitionRecord) (o : option bytes) : Prop :=
  R o \/ exists new, may_publish v expected next new /\ o = Some new.

(** What a publishing operation promises, the crash condition aside. *)
Definition publish_post (R : option bytes -> Prop) (v : FS) (expected : option TransitionRecord)
    (next : TransitionRecord) (r : result StorageError.t unit) (v' : FS) : Prop :=
  match r with
  | Ok _ => exists new, may_publish v expected next new /\ published new (fs_names v) v'
  | Err _ => journal_in (old_or_new R v expected next) v'
             /\ (v' = v \/ exists new, may_publish v expected next new)
  end.

Section one.
Context (R : option bytes -> Prop) (v : FS) (Hv : journal_in R v).

Lemma old_in expected next : journal_in (old_or_new R v expected next) v.
Proof using Hv. eapply journal_in_mono; [|exact Hv]. by left. Qed.

Lemma refused expected next e : publish_post R v expected next (Err e) v.
Proof using Hv. split; [apply old_in|by left]. Qed.

Lemma wp_publish expected next new existing :
  may_publish v expected next new ->
  is_Some (fs_names v !! CANONICAL_NAME) \/ existing = None ->
  wp (journal_in (old_or_new R v expected next)) (publish_post R v expected next)
     (publish_record new existing) v.
Proof using Hv.
  intros Hm He. apply wp_publish_record; [|apply old_in|done|..].
  - right. eauto.
  - intros e v' Hv'. split; [done|eauto].
  - intros v' Hv'. exists new. eauto.
Qed.

Lemma wp_lock (self : TransitionJournalStore) {A} C (Q : result StorageError.t A -> FS -> Prop)
    (k : unit -> storage A) :
  C v -> (forall e, Q (Err e) v) -> wp C Q (k tt) v -> wp C Q (lock_operation self ≫= k) v.
Proof using. intros HC HErr Hk. by apply wp_guard. Qed.

(** [create] fills an empty journal with a valid first record. *)
Lemma wp_create self record :
  wp (journal_in (old_or_new R v None record)) (publish_post R v None record)
     (create self record) v.
Proof using Hv.
  pose proof (old_in None record) as HC. pose proof (refused None record) as Href.
  unfold create. apply wp_lock; [done..|].
  apply wp_lift_bind; [done..|]. intros framed Henc%map_err_ok_iff.
  apply wp_guard; [done..|]. intros Hg.
  apply wp_iom_bind, wp_load_pinned; [done|]. intros [[l|]|e] Hn Hl; [by apply wp_ret| |done].
  apply wp_publish; [|by right]. split; [done|]. split.
  - apply encode_ok_iff in Henc as [Hval _]. bool_prop. split_and!; [done..|].
    match goal with H : ~ is_Some _ |- _ => by apply eq_None_not_Some in H end.
  - by apply journal_in_absent with R, Hn.
Qed.

(** What a loaded record says of the directory. *)
Lemma loaded_holds l f :
  fs_names v !! CANONICAL_NAME = Some (lr_file l) -> private_file v (lr_file l) f ->
  f_data f = lr_framed l -> decode (lr_framed l) = Ok (lr_record l) ->
  exists old, holds v (Some old) /\ decode old = Ok (lr_record l).
Proof using Hv.
  intros Hn Hf Hd Hdec. exists (lr_framed l). split; [|done]. rewrite <- Hd.
  by eapply journal_in_private.
Qed.

(** [advance] replaces the expected record by a valid successor. *)
Lemma wp_advance self expected next :
  wp (journal_in (old_or_new R v (Some expected) next)) (publish_post R v (Some expected) next)
     (advance self expected next) v.
Proof using Hv.
  pose proof (old_in (Some expected) next) as HC.
  pose proof (refused (Some expected) next) as Href.
  unfold advance. apply wp_lock; [done..|].
  apply wp_lift_bind; [done..|]. intros [] Hadv%map_err_ok_iff.
  apply wp_lift_bind; [done..|]. intros framed Henc%map_err_ok_iff.
  apply wp_iom_bind, wp_load_pinned; [done|]. intros [[l|]|e] Hn Hl; [|by apply wp_ret|done].
  destruct (Hl l eq_refl) as (f & Hname & Hf & Hd & _ & Hdec).
  destruct (bool_decide (lr_record l = expected)) eqn:Hexp; [|by apply wp_ret].
  apply bool_decide_eq_true in Hexp. subst expected.
  apply wp_publish; [|left; by eexists]. split; [done|]. split; [done|]. by eapply loaded_holds.
Qed.

(** [load] reports what the canonical name holds, and changes nothing. *)
Lemma wp_load self :
  wp (journal_in R)
     (fun r w => w = v /\ match r with
                          | Ok (Some record) => exists old, holds v (Some old) /\ decode old = Ok record
                          | Ok None => holds v None
                          | Err _ => True
                          end) (load self) v.
Proof using Hv.
  unfold load. apply wp_lock; [done..|].
  apply wp_iom_bind, wp_load_pinned; [done|]. intros [[l|]|e] Hn Hl; [| |done].
  - destruct (Hl l eq_refl) as (f & Hname & Hf & Hd & _ & Hdec).
    apply wp_ret; [done|]. split; [done|]. by eapply loaded_holds.
  - apply wp_ret; [done|]. split; [done|]. by apply journal_in_absent with R, Hn.
Qed.

(** The directory may come to hold nothing: it holds the finished record [expected]. *)
Definition may_delete (expected : TransitionRecord) : Prop :=
  valid expected /\ deletable (phase expected) = true
  /\ exists old, holds v (Some old) /\ decode old = Ok expected.

Definition old_or_none (expected : TransitionRecord) (o : option bytes) : Prop :=
  R o \/ may_delete expected /\ o = None.

Definition delete_post (expected : TransitionRecord) (r : result StorageError.t bool) (v' : FS)
    : Prop :=
  match r with
  | Ok true => may_delete expected /\ journal_in (eq None) v'
               /\ fs_names v' = base.delete CANONICAL_NAME (fs_names v)
  | Ok false => v' = v /\ holds v None
  | Err _ => journal_in (old_or_none expected) v' /\ (v' = v \/ may_delete expected)
  end.

Lemma journal_in_unlinked expected :
  may_delete expected ->
  journal_in (old_or_none expected) (with_names (base.delete CANONICAL_NAME (fs_names v)) v)
  /\ holds (with_names (base.delete CANONICAL_NAME (fs_names v)) v) None.
Proof using Hv.
  intros Hm. assert (dir_holds v (base.delete CANONICAL_NAME (fs_names v)) None) as Hh
    by (unfold dir_holds; by rewrite lookup_delete_eq).
  split; [|done]. apply journal_in_names.
  - eapply journal_in_mono; [|exact Hv]. by left.
  - apply dir_ok_delete, (journal_in_visible R v Hv).
  - exists None. split; [by right|done].
Qed.

(** [delete] removes a finished record, and no other. *)
Lemma wp_delete self expected :
  wp (journal_in (old_or_none expected)) (delete_post expected) (delete self expected) v.
Proof using Hv.
  assert (journal_in (old_or_none expected) v) as HC by (eapply journal_in_mono; [by left|exact Hv]).
  assert (forall e, delete_post expected (Err e) v) as Href by (intros e; split; [done|by left]).
  unfold delete. apply wp_lock; [done..|].
  apply wp_lift_bind; [done..|]. intros [] Hval%map_err_ok_iff.
  apply wp_guard; [done..|]. intros Hdel.
  apply wp_iom_bind, wp_load_pinned; [done|]. intros [[l|]|e] Hn Hl; [| |done].
  2:{ apply wp_ret; [done|]. split; [done|]. by apply journal_in_absent with R, Hn. }
  destruct (Hl l eq_refl) as (f & Hname & Hf & Hd & _ & Hdec).
  destruct (bool_decide (lr_record l = expected)) eqn:Hexp; [|by apply wp_ret].
  apply bool_decide_eq_true in Hexp. subst expected.
  assert (may_delete (lr_record l)) as Hm.
  { split_and!; [done|by bool_prop|]. by eapply loaded_holds. }
  apply wp_iom_bind, wp_named_identity; [done|]. intros [ident|e] _; [|by apply Href].
  apply wp_iom_bind, wp_require_same_inode; [done|]. intros [[]|e] _; [|by apply Href].
  destruct (journal_in_unlinked _ Hm) as [Hu Hh].
  apply wp_iom_bind, wp_sys_err; [done|]. intros [[]|e] w Hpost; cbn [map_err].
  2:{ assert (journal_in (old_or_none (lr_record l)) w) as Hw by (by destruct Hpost as [[_ ->] | [_ ->]]).
      split; [done|]. split; [done|by right]. }
  destruct Hpost as [[_ ->] | [? _]]; [|done]. split; [done|].
  apply wp_iom_bind, wp_sync_settled with (o := None); [done..| |].
  - intros e v' Hv'. split; [done|by right].
  - intros v' Hv' Hnames. apply wp_ret; [|by split_and!].
    eapply journal_in_mono; [|exact Hv']. intros o <-. by right.
Qed.
End one.

(** ** Stale temporaries *)

Lemma wp_collect_stale C (Q : result StorageError.t (list bytes) -> FS -> Prop) v entries stale :
  C v -> (forall e, Q (Err e) v) ->
  (forall names, (forall n, n ∈ entries -> valid_temporary_name n = true -> n ∈ names) ->
                 stale ⊆ names -> (forall n, n ∈ names -> n ∈ stale \/ valid_temporary_name n = true) ->
                 Q (Ok names) v) ->
  wp C Q (collect_stale entries stale) v.
Proof.
  intros HC HErr. revert stale. induction entries as [|n entries IH]; intros stale HOk;
    cbn [collect_stale].
  { apply wp_ret; [done|]. apply HOk; [set_solver..|auto]. }
  destruct (bool_decide (n = CANONICAL_NAME \/ n = LOCK_NAME)) eqn:Hk.
  { apply IH. intros names Hin Hsub Hval. apply HOk; [|done..]. intros m [->|Hm]%elem_of_cons Hvm; [|auto].
    apply bool_decide_eq_true in Hk. exfalso. destruct Hk; subst n; vm_compute in Hvm; done. }
  destruct (valid_temporary_name n) eqn:Hn; [|by apply wp_ret].
  destruct (_ <? _)%nat; [by apply wp_ret|]. apply IH. intros names Hin Hsub Hval. apply HOk.
  - intros m [->|Hm]%elem_of_cons Hvm; [set_solver|auto].
  - set_solver.
  - intros m Hm. destruct (Hval m Hm) as [Hs|]; [|auto]. apply elem_of_app in Hs as [?|Hs]; [auto|].
    apply list_elem_of_singleton in Hs. subst m. auto.
Qed.

Lemma wp_authenticate_stale C (Q : result StorageError.t (list (bytes * InodeIdentity)) -> FS -> Prop) v stale :
  C v -> (forall e, Q (Err e) v) ->
  (forall authenticated, authenticated.*1 = stale -> Q (Ok authenticated) v) ->
  wp C Q (authenticate_stale stale) v.
Proof.
  intros HC. revert Q. induction stale as [|n stale IH]; intros Q HErr HOk; cbn [authenticate_stale].
  { apply wp_ret; [done|]. by apply HOk. }
  apply wp_iom_bind, wp_sys_err; [done|]. intros [i|e] w [-> _]; (split; [done|]); [|apply HErr].
  cbn [map_err]. apply wp_iom_bind, wp_map_err. unfold require_safe_stale_temporary.
  apply wp_iom_bind, wp_fstat; [done|]. intros [md|e] _; [|apply HErr].
  apply wp_iom_bind, wp_euid; [done|]. apply wp_lift; [done|].
  destruct (reject_if _ _) as [[]|e]; [|apply HErr]. cbn [map_err].
  apply wp_iom_bind, wp_map_err, wp_inode_identity; [done|]. intros [ident|e] _; [|apply HErr].
  cbn [map_err]. apply wp_iom_bind, IH; [done|]. intros rest Hrest.
  apply wp_ret; [done|]. apply HOk. cbn. by rewrite Hrest.
Qed.

(** Deleting [names] from a directory leaves the others. *)
Definition without (names : list bytes) (d d' : gmap bytes N) : Prop :=
  forall n, d' !! n = if bool_decide (n ∈ names) then None else d !! n.

Lemma wp_cleanup_named R (Q : result StorageError.t unit -> FS -> Prop) v n ident :
  n <> CANONICAL_NAME -> journal_in R v ->
  (forall e v', journal_in R v' -> fs_names v' !! CANONICAL_NAME = fs_names v !! CANONICAL_NAME ->
                Q (Err e) v') ->
  (forall v', journal_in R v' -> fs_names v' = base.delete n (fs_names v) -> Q (Ok tt) v') ->
  wp (journal_in R) Q (cleanup_temporary_identity n ident) v.
Proof.
  intros Hn Hv HErr HOk. unfold cleanup_temporary_identity.
  apply wp_iom_bind, wp_sys_err; [done|]. intros [i|e] w [-> _]; (split; [done|]); [|by apply HErr].
  apply wp_iom_bind, wp_map_err, wp_inode_identity; [done|]. intros [actual|e] _; [|by apply HErr].
  cbn [map_err]. destruct (bool_decide _); [|by apply wp_ret; [|apply HErr]].
  pose proof (journal_in_unlink R v n Hn Hv) as Hu.
  pose proof (journal_in_directory_synced R _ Hu) as Hs.
  apply wp_iom_bind, wp_sys_err; [done|]. intros [[]|x] w Hpost; cbn [map_err].
  2:{ destruct Hpost as [[_ ->] | [_ ->]]; (split; [done|]); apply HErr; try done. cbn.
      by rewrite lookup_delete_ne. }
  destruct Hpost as [[_ ->] | [? _]]; [|done]. split; [done|].
  apply wp_sys_err; [done|]. intros [[]|x] w Hpost; cbn [map_err]; cbn in Hpost.
  - subst w. split; [done|]. by apply HOk.
  - destruct Hpost as [-> | ->]; (split; [done|]); apply HErr; try done; cbn; by rewrite lookup_delete_ne.
Qed.

Lemma wp_cleanup_authenticated R (Q : result StorageError.t unit -> FS -> Prop) v l :
  Forall (fun n => n <> CANONICAL_NAME) l.*1 -> journal_in R v ->
  (forall e v', journal_in R v' -> fs_names v' !! CANONICAL_NAME = fs_names v !! CANONICAL_NAME ->
                Q (Err e) v') ->
  (forall v', journal_in R v' -> without l.*1 (fs_names v) (fs_names v') -> Q (Ok tt) v') ->
  wp (journal_in R) Q (cleanup_authenticated l) v.
Proof.
  revert v. induction l as [|[n ident] l IH]; intros v Hn Hv HErr HOk; cbn [cleanup_authenticated].
  { apply wp_ret; [done|]. apply HOk; [done|]. intros m. by rewrite bool_decide_eq_false_2 by apply not_elem_of_nil. }
  cbn in Hn. apply Forall_cons_1 in Hn as [Hn Hl].
  apply wp_iom_bind, wp_cleanup_named; [done..|]. intros v1 Hv1 Hd1. apply IH; [done..| |].
  - intros e v2 Hv2 Hc. apply HErr; [done|]. by rewrite Hc, Hd1, lookup_delete_ne.
  - intros v2 Hv2 Hd2. apply HOk; [done|]. intros m. rewrite (Hd2 m), Hd1. cbn.
    destruct (decide (m ∈ l.*1)) as [Hm|Hm].
    + by rewrite !bool_decide_eq_true_2 by (by rewrite ?elem_of_cons; auto).
    + rewrite (bool_decide_eq_false_2 (m ∈ l.*1)) by done. destruct (decide (m = n)) as [->|Hne].
      * rewrite lookup_delete_eq, bool_decide_eq_true_2; [done|]. apply elem_of_cons. by left.
      * rewrite lookup_delete_ne by done. rewrite bool_decide_eq_false_2; [done|].
        rewrite elem_of_cons. tauto.
Qed.

(** [cleanup_stale_temporaries] removes every temporary and touches nothing else. *)
Definition cleanup_post (R : option bytes -> Prop) (v : FS) (r : result StorageError.t unit) (v' : FS)
    : Prop :=
  journal_in R v' /\ fs_names v' !! CANONICAL_NAME = fs_names v !! CANONICAL_NAME
  /\ (r = Ok tt -> forall n, fs_names v' !! n
                          = if valid_temporary_name n then None else fs_names v !! n).

Lemma wp_cleanup_stale R v :
  journal_in R v -> wp (journal_in R) (cleanup_post R v) cleanup_stale_temporaries v.
Proof.
  intros Hv. assert (forall e, cleanup_post R v (Err e) v) as Href by done.
  unfold cleanup_stale_temporaries, directory_entries.
  apply wp_iom_bind, wp_map_err, wp_iom_bind, wp_sys_err; [done|].
  intros [listing|e] w [-> Hlist]; (split; [done|]); [|apply Href]. cbn [map_err id].
  destruct Hlist as [_ Hlist]. destruct (_ <? _)%nat; [by apply wp_ret|].
  apply wp_ret; [done|]. cbn [map_err]. apply wp_iom_bind, wp_collect_stale; [done..|].
  intros names Hin _ Hval. apply wp_iom_bind, wp_authenticate_stale; [done..|]. intros l Hl.
  apply wp_cleanup_authenticated; rewrite ?Hl; [|done..|].
  { apply Forall_forall. intros n Hn. destruct (Hval n Hn) as [?%not_elem_of_nil|]; [done|].
    by apply temporary_not_canonical. }
  intros v' Hv' Hw. assert (forall n, fs_names v' !! n
      = if valid_temporary_name n then None else fs_names v !! n) as Hall.
  { intros n. rewrite (Hw n). destruct (valid_temporary_name n) eqn:Hn.
    - destruct (decide (n ∈ names)); [by rewrite bool_decide_eq_true_2|].
      rewrite bool_decide_eq_false_2 by done. apply eq_None_not_Some. intros Hs.
      apply n0, Hin; [|done]. apply list_elem_of_In, filter_In. split.
      + apply list_elem_of_In, Hlist. by left.
      + destruct (not_dot n) eqn:Hd; [done|]. exfalso. unfold not_dot in Hd.
        apply andb_false_iff in Hd as [Hd | Hd]; apply negb_false_iff, bool_decide_eq_true in Hd;
          subst n; by vm_compute in Hn.
    - rewrite bool_decide_eq_false_2; [done|]. intros Hm.
      destruct (Hval n Hm) as [?%not_elem_of_nil|]; congruence. }
  split_and!; [done| |done]. rewrite Hall. done.
Qed.
End operations.

(** ** Sessions *)

(** The requests a store serves, on whichever handle ([open] builds a new one after a
    crash). *)
Inductive request :=
  | Load
  | Create (record : TransitionRecord)
  | Advance (expected next : TransitionRecord)
  | Delete (expected : TransitionRecord)
  | Cleanup.

Section sessions.
Context {P : Payload} {L : PayloadLaws P}.

Definition ignore {A} (p : prog A) : prog unit := prog_bind p (fun _ => Ret tt).

Definition perform (self : TransitionJournalStore) (q : request) : prog unit :=
  match q with
  | Load => ignore (load self)
  | Create record => ignore (create self record)
  | Advance expected next => ignore (advance self expected next)
  | Delete expected => ignore (delete self expected)
  | Cleanup => ignore cleanup_stale_temporaries
  end.

Lemma wp_ignore {A} C (Q : A -> FS -> Prop) (p : prog A) v :
  wp C Q p v -> wp C (fun _ w => C w) (ignore p) v.
Proof. intros H. apply wp_bind. eapply wp_mono; [exact H|done|]. intros a w Hw _. by apply wp_ret. Qed.

(** A set of contents that every request of [allowed] keeps. *)
Definition closed (allowed : request -> Prop) (R : option bytes -> Prop) : Prop :=
  (forall v r new, allowed (Create r) -> journal_in R v -> may_publish v None r new -> R (Some new))
  /\ (forall v e n new, allowed (Advance e n) -> journal_in R v -> may_publish v (Some e) n new ->
        R (Some new))
  /\ (forall v e, allowed (Delete e) -> journal_in R v -> may_delete v e -> R None).

Lemma wp_perform allowed R self q v :
  closed allowed R -> allowed q -> journal_in R v ->
  wp (journal_in R) (fun _ => journal_in R) (perform self q) v.
Proof.
  intros (Hc & Ha & Hd) Hq Hv. destruct q as [|r|e n|e|]; cbn [perform].
  - eapply wp_ignore, wp_load. done.
  - eapply wp_mono; [eapply wp_ignore, (wp_create R v Hv)|..]; intros;
      (eapply journal_in_mono; [|done]); intros o [?|(new & Hm & ->)]; eauto.
  - eapply wp_mono; [eapply wp_ignore, (wp_advance R v Hv)|..]; intros;
      (eapply journal_in_mono; [|done]); intros o [?|(new & Hm & ->)]; eauto.
  - eapply wp_mono; [eapply wp_ignore, (wp_delete R v Hv)|..]; intros;
      (eapply journal_in_mono; [|done]); intros o [?|(Hm & ->)]; eauto.
  - by eapply wp_ignore, wp_cleanup_stale.
Qed.

Section kernel.
Context {K : Kernel} {KL : KernelLaws K}.

(** The kernel states a journal goes through: requests run to their end or are cut
    short by a crash, in any order. *)
Inductive session (start : option bytes -> Prop) (allowed : request -> Prop) : kstate -> Prop :=
  | session_start s : journal_in start (view s) -> session start allowed s
  | session_done s self q :
      session start allowed s -> allowed q -> session start allowed (run (perform self q) s).2
  | session_crash s self q s1 s2 :
      session start allowed s -> allowed q -> In s1 (states (perform self q) s) ->
      fs_crash (view s1) (view s2) -> session start allowed s2.

Lemma session_in start allowed R s :
  (forall o, start o -> R o) -> closed allowed R -> session start allowed s -> journal_in R (view s).
Proof.
  intros Hstart Hclosed. induction 1 as [s Hs|s self q _ IH Hq|s self q s1 s2 _ IH Hq Hs1 Hcrash].
  - by eapply journal_in_mono.
  - apply (wp_sound _ _ _ _ (wp_perform allowed R self q (view s) Hclosed Hq IH)).
  - pose proof (wp_sound _ _ _ _ (wp_perform allowed R self q (view s) Hclosed Hq IH)) as [Hall _].
    rewrite List.Forall_forall in Hall. eapply journal_in_crash; [by apply Hall|done].
Qed.

(** Bytes of a record with a history from one that [start] admits. *)
Definition recorded (start : TransitionRecord -> Prop) (b : bytes) : Prop :=
  exists r0 l r, start r0 /\ history r0 l r /\ decode b = Ok r.

Lemma recorded_publish start e n old new :
  recorded start old -> decode old = Ok e -> validate_advance e n = Ok tt -> encode n = Ok new ->
  recorded start new.
Proof.
  intros (r0 & l & r & Hr0 & Hl & Hr) He Ha Hn.
  rewrite He in Hr. injection Hr as <-.
  assert (history e [e; n] n) as H2.
  { econstructor; [exact Ha|]. constructor. by apply (advances_valid e n). }
  destruct (history_app _ _ _ _ _ Hl H2) as (k & Hk & _). exists r0, k, n.
  split_and!; [done..|]. by apply encode_decode.
Qed.

(** A publishing operation, run to its end or cut short. *)
Lemma publish_run R s expected next (p : storage unit) :
  journal_in R (view s) ->
  wp (journal_in (old_or_new R (view s) expected next)) (publish_post R (view s) expected next) p (view s) ->
  (forall s1 v, In s1 (states p s) -> fs_crash (view s1) v ->
     exists o, old_or_new R (view s) expected next o /\ holds v o)
  /\ ((run p s).1 = Ok tt ->
        exists new, may_publish (view s) expected next new
          /\ published new (fs_names (view s)) (view (run p s).2))
  /\ ((forall new, ~ may_publish (view s) expected next new) ->
        (run p s).1 <> Ok tt /\ view (run p s).2 = view s).
Proof.
  intros Hs [Hall Hpost]%wp_sound. rewrite List.Forall_forall in Hall. split_and!.
  - intros s1 v Hs1 Hc. by eapply journal_in_crash_holds; [apply Hall|].
  - intros E. by rewrite E in Hpost.
  - intros Hno. destruct (run p s).1 as [[]|e]; cbn in Hpost.
    + destruct Hpost as (new & Hm & _). by destruct (Hno new).
    + destruct Hpost as [_ [Hv|[new Hm]]]; [done|]. by destruct (Hno new).
Qed.

(** C11: advancing the journal is atomic and durable.  The directory durably holds
    [old].  Wherever a crash interrupts [advance], on any kernel and whichever calls
    fail, the canonical name holds [old] or the frame of [next], and the latter only
    if [old] decodes to [expected] and [validate_advance] admits the step.  If the
    operation reports success, the directory is as before but for the canonical name,
    and the new frame is there whatever crashes later.  If the step is not admitted,
    the operation fails and has changed nothing. *)
Theorem advance_crash_atomic self expected next s old :
  journal_in (eq (Some old)) (view s) ->
  (forall s1 v, In s1 (states (advance self expected next) s) -> fs_crash (view s1) v ->
     holds v (Some old)
     \/ exists new, may_publish (view s) (Some expected) next new /\ holds v (Some new))
  /\ ((run (advance self expected next) s).1 = Ok tt ->
        exists new, may_publish (view s) (Some expected) next new
          /\ published new (fs_names (view s)) (view (run (advance self expected next) s).2))
  /\ ((forall new, ~ may_publish (view s) (Some expected) next new) ->
        (run (advance self expected next) s).1 <> Ok tt
        /\ view (run (advance self expected next) s).2 = view s).
Proof using KL.
  intros Hs. destruct (publish_run _ s _ _ _ Hs (wp_advance _ _ Hs self expected next)) as (H1 & H2 & H3).
  split_and!; [|done..]. intros s1 v Hs1 Hc.
  destruct (H1 s1 v Hs1 Hc) as (o & [<-|(new & Hm & ->)] & Ho); eauto.
Qed.

(** Creating the journal record is atomic and durable: as for [advance], from an
    empty journal, for a valid first record in [Preparing] at generation 1. *)
Theorem create_crash_atomic self record s :
  journal_in (eq None) (view s) ->
  (forall s1 v, In s1 (states (create self record) s) -> fs_crash (view s1) v ->
     holds v None \/ exists new, may_publish (view s) None record new /\ holds v (Some new))
  /\ ((run (create self record) s).1 = Ok tt ->
        exists new, may_publish (view s) None record new
          /\ published new (fs_names (view s)) (view (run (create self record) s).2))
  /\ ((forall new, ~ may_publish (view s) None record new) ->
        (run (create self record) s).1 <> Ok tt
        /\ view (run (create self record) s).2 = view s).
Proof using KL.
  intros Hs. destruct (publish_run _ s _ _ _ Hs (wp_create _ _ Hs self record)) as (H1 & H2 & H3).
  split_and!; [|done..]. intros s1 v Hs1 Hc.
  destruct (H1 s1 v Hs1 Hc) as (o & [<-|(new & Hm & ->)] & Ho); eauto.
Qed.

(** C17: deleting the journal record is atomic, durable and confined to finished
    transitions.  A crash during [delete] leaves the record or nothing, nothing only
    if the record is the expected one in a deletable phase.  [Ok true] means it is gone
    for good and no other name changed; [Ok false] that there was none. *)
Theorem delete_crash_atomic self expected s R :
  journal_in R (view s) ->
  (forall s1 v, In s1 (states (delete self expected) s) -> fs_crash (view s1) v ->
     exists o, holds v o /\ (R o \/ may_delete (view s) expected /\ o = None))
  /\ match (run (delete self expected) s).1 with
     | Ok true =>
         may_delete (view s) expected /\ journal_in (eq None) (view (run (delete self expected) s).2)
         /\ fs_names (view (run (delete self expected) s).2)
            = base.delete CANONICAL_NAME (fs_names (view s))
     | Ok false => holds (view s) None /\ view (run (delete self expected) s).2 = view s
     | Err _ => may_delete (view s) expected \/ view (run (delete self expected) s).2 = view s
     end.
Proof using KL.
  intros Hs. destruct (wp_sound _ _ _ _ (wp_delete R (view s) Hs self expected)) as [Hall Hpost].
  rewrite List.Forall_forall in Hall. split.
  - intros s1 v Hs1 Hc.
    destruct (journal_in_crash_holds _ _ v (Hall _ Hs1) Hc) as (o & Ho & Hh). eauto.
  - destruct (run (delete self expected) s).1 as [[]|e]; cbn in Hpost; tauto.
Qed.

(** Loading is exact and read-only.  Whatever the operation answers, it has
    changed nothing; a record it reports is the one the canonical bytes decode to, and
    none is reported only for an absent canonical name. *)
Theorem load_exact self s R :
  journal_in R (view s) ->
  view (run (load self) s).2 = view s
  /\ match (run (load self) s).1 with
     | Ok (Some record) => exists old, holds (view s) (Some old) /\ decode old = Ok record
     | Ok None => holds (view s) None
     | Err _ => True
     end.
Proof using KL. intros Hs. apply (wp_sound _ _ _ _ (wp_load R (view s) Hs self)). Qed.

(** Cleaning up stale temporaries never touches the record.  At every point of
    [cleanup_stale_temporaries], crashes included, the journal holds what it held; on
    success every temporary is gone and every other name is as before. *)
Theorem cleanup_keeps_record s R :
  journal_in R (view s) ->
  (forall s1 v, In s1 (states cleanup_stale_temporaries s) -> fs_crash (view s1) v ->
     exists o, R o /\ holds v o)
  /\ ((run cleanup_stale_temporaries s).1 = Ok tt ->
      forall n, fs_names (view (run cleanup_stale_temporaries s).2) !! n
              = if valid_temporary_name n then None else fs_names (view s) !! n).
Proof using KL.
  intros Hs. destruct (wp_sound _ _ _ _ (wp_cleanup_stale R (view s) Hs)) as [Hall Hpost].
  rewrite List.Forall_forall in Hall. split; [|apply Hpost].
  intros s1 v Hs1 Hc. by eapply journal_in_crash_holds; [apply Hall|].
Qed.

Lemma created_recorded v r new : may_publish v None r new -> recorded creatable new.
Proof using L.
  intros (He & Hc & _). exists r, [r], r. split_and!; [done| |by apply encode_decode].
  constructor. apply Hc.
Qed.

Lemma closed_recorded :
  closed (fun _ => True) (fun o => o = None \/ exists b, o = Some b /\ recorded creatable b).
Proof using L.
  split_and!; [| |by left].
  - intros v r new _ Hv Hm. right. eexists. split; [done|]. by eapply created_recorded.
  - intros v e n new _ Hv (He & Ha & old & Ho & Hd). right. eexists. split; [done|].
    destruct (journal_in_holds _ _ _ Hv Ho) as [|(b & [= <-] & Hb)]; [done|].
    by eapply recorded_publish.
Qed.

(** C12: from an empty journal, whatever is requested of the store and wherever it
    crashes, the journal holds nothing or one record that decodes and that a sequence
    of valid steps leads to from a created record. *)
Theorem journal_holds_history s :
  session (eq None) (fun _ => True) s ->
  exists o, holds (view s) o
    /\ match o with
       | None => True
       | Some b => exists r0 l r, creatable r0 /\ history r0 l r /\ decode b = Ok r
       end.
Proof using L KL.
  intros Hs. eapply session_in
    with (R := fun o => o = None \/ exists b, o = Some b /\ recorded creatable b) in Hs.
  - destruct (journal_in_visible _ _ Hs) as (_ & o & HR & Ho). exists o. split; [exact Ho|].
    destruct HR as [-> | (b & -> & Hb)]; [done|exact Hb].
  - intros o <-. by left.
  - exact closed_recorded.
Qed.

(** C18: what the journal has made durable is never undone.  Once a record [r0] is
    durable, every later state, over any requests but the deletion of the finished
    record and any crashes, holds a record that valid steps lead to from [r0]. *)
Theorem journal_never_goes_back b0 r0 s :
  decode b0 = Ok r0 ->
  session (eq (Some b0)) (fun q => forall e, q <> Delete e) s ->
  exists b r l, holds (view s) (Some b) /\ decode b = Ok r /\ history r0 l r.
Proof using L KL.
  intros Hd Hs. assert (valid r0) as Hv0.
  { by apply decode_ok_frame in Hd as (? & _ & _ & _ & ? & _). }
  eapply session_in with (R := fun o => exists b, o = Some b /\ recorded (eq r0) b) in Hs.
  - destruct (journal_in_visible _ _ Hs) as (_ & o & (b & -> & r0' & l & r & <- & Hl & Hr) & Ho). eauto 6.
  - intros o <-. exists b0. split; [done|]. exists r0, [r0], r0. split_and!; [done|by constructor|done].
  - split_and!.
    + intros v r new _ Hv (_ & _ & Hn). by destruct (journal_in_holds _ _ _ Hv Hn) as (b & ? & _).
    + intros v e n new _ Hv (He & Ha & old & Ho & Hold).
      destruct (journal_in_holds _ _ _ Hv Ho) as (b & [= <-] & Hb). eexists. split; [done|].
      by eapply recorded_publish.
    + intros v e He. by destruct (He e).
Qed.
End kernel.
End sessions.
