(* ===== verification/JournalProgress.v ===== *)
(** * The journal store succeeds where it can

    The theorems of [JournalDurability] hold of a store that always fails.  On a
    kernel whose calls do not fail without a reason ([ReliableKernel]), loading,
    creating, advancing and deleting succeed exactly where their conditions hold. *)

From S2P Require Import Prelude JournalModel JournalValidation JournalMachine JournalSuccessors JournalCodec JournalFs JournalStore JournalStoreSpec JournalCrash JournalDurability.

(** ** A kernel without spurious failures *)

Definition fs_fine {B} (v : FS) (c : call B) : B -> Prop :=
  match c in call B return B -> Prop with
  | OpenRead n | OpenPath n => fun r => r = ok_or (fs_names v !! n) NotFound
  | OpenExcl n _ => fun r => fs_names v !! n = None -> is_ok r = true
  | Fstat fd => fun r => is_Some (fs_files v !! fd) -> is_ok r = true
  | Fchmod fd _ => fun r => is_Some (fs_files v !! fd) -> is_ok r = true
  | WriteAll fd _ => fun r => is_Some (fs_files v !! fd) -> is_ok r = true
  | ReadToEnd fd _ => fun r => is_Some (fs_files v !! fd) -> is_ok r = true
  | Fsync _ => fun r => is_ok r = true
  | SyncDirectory => fun r => is_ok r = true
  | RenameNoReplace from to => fun r =>
      is_Some (fs_names v !! from) -> fs_names v !! to = None -> is_ok r = true
  | RenameExchange from to => fun r =>
      is_Some (fs_names v !! from) -> is_Some (fs_names v !! to) -> is_ok r = true
  | Unlink n => fun r => is_Some (fs_names v !! n) -> is_ok r = true
  | ReadDirectory => fun r =>
      fs_names v !! bstr "." = None -> fs_names v !! bstr ".." = None -> is_ok r = true
  | EffectiveUid => fun _ => True
  | ProcessId => fun _ => True
  | FetchAddSequence => fun _ => True
  end.

Class ReliableKernel (K : Kernel) : Prop :=
  answer_fine : forall B (c : call B) s, fs_fine (view s) c (answer c s).1.

(** Weakest preconditions on such a kernel. *)
Fixpoint wpr {A} (Q : A -> FS -> Prop) (p : prog A) (v : FS) : Prop :=
  match p with
  | Ret a => Q a v
  | Sys c k => forall b v', fs_post v c b v' -> fs_fine v c b -> wpr Q (k b) v'
  end.

Lemma wpr_sound {K : Kernel} {KL : KernelLaws K} {RK : ReliableKernel K} {A} Q (p : prog A) s :
  wpr Q p (view s) -> Q (run p s).1 (view (run p s).2).
Proof.
  revert s. induction p as [a|B c k IH]; intros s Hwp; cbn in *; [done|].
  pose proof (answer_post B c s) as Hpost. pose proof (answer_fine B c s) as Hfine.
  destruct (answer c s) as [b s']. cbn in Hpost, Hfine. by apply IH, Hwp.
Qed.

Lemma wpr_mono {A} (Q Q' : A -> FS -> Prop) (p : prog A) v :
  wpr Q p v -> (forall a v, Q a v -> Q' a v) -> wpr Q' p v.
Proof.
  intros Hwp HQ. revert v Hwp. induction p as [a|B c k IH]; cbn; intros v Hwp; [auto|].
  intros b v' Hp Hf. apply IH. by apply Hwp.
Qed.

Lemma wpr_bind {A B} Q (p : prog A) (f : A -> prog B) v :
  wpr (fun a v => wpr Q (f a) v) p v -> wpr Q (prog_bind p f) v.
Proof. revert v. induction p as [a|D c k IH]; cbn; intros v Hwp; [done|]. intros. by apply IH, Hwp. Qed.

(** A step that succeeds. *)
Lemma wpr_step {E A B} (Q : result E B -> FS -> Prop) (p : iom E A) (f : A -> iom E B) v :
  wpr (fun r v => exists a, r = Ok a /\ wpr Q (f a) v) p v -> wpr Q (p ≫= f) v.
Proof. intros H. apply wpr_bind. eapply wpr_mono; [exact H|]. by intros r w (a & -> & Hw). Qed.

Lemma wpr_map_err {E F A} (f : E -> F) (Q : result F A -> FS -> Prop) (p : iom E A) v :
  wpr (fun r w => exists a, r = Ok a /\ Q (Ok a) w) p v -> wpr Q (iom_map_err f p) v.
Proof. intros H. apply wpr_bind. eapply wpr_mono; [exact H|]. by intros r w (a & -> & Hw). Qed.

Lemma wpr_attempt {E F A} (Q : result F (result E A) -> FS -> Prop) (p : iom E A) v :
  wpr (fun r w => exists a, r = Ok a /\ Q (Ok (Ok a)) w) p v -> wpr Q (attempt p) v.
Proof. intros H. apply wpr_bind. eapply wpr_mono; [exact H|]. by intros r w (a & -> & Hw). Qed.

Lemma wpr_lift {E A B} (Q : result E B -> FS -> Prop) (r : result E A) a (k : A -> iom E B) v :
  r = Ok a -> wpr Q (k a) v -> wpr Q (lift r ≫= k) v.
Proof. by intros ->. Qed.

(** A call that succeeds, with its effect. *)
Lemma wpr_call {E A} (Q : result E A -> FS -> Prop) (c : call (io A)) (g : errno -> E) v :
  (forall r, fs_fine v c r -> is_ok r = true) ->
  (forall a v', fs_post v c (Ok a) v' -> Q (Ok a) v') -> wpr Q (sys_err c g) v.
Proof.
  intros Hf HQ r v' Hp Hr. specialize (Hf r Hr). destruct r as [a|e]; [|done]. by apply HQ.
Qed.

(** ** Links *)

Lemma links_one d n i : dir_inj d -> d !! n = Some i -> links d i = 1%Z.
Proof.
  intros Hinj Hn. unfold links. assert (length (List.filter (fun '(_, j) => (i =? j)%N) (map_to_list d)) = 1) as ->; [|done].
  assert (map_to_list d ≡ₚ (n, i) :: map_to_list (base.delete n d)) as Hperm.
  { rewrite <- (insert_delete_id d n i Hn) at 1. apply map_to_list_insert, lookup_delete_eq. }
  assert (forall l l' : list (bytes * N), l ≡ₚ l' ->
    length (List.filter (fun '(_, j) => (i =? j)%N) l) = length (List.filter (fun '(_, j) => (i =? j)%N) l')) as Hlen.
  { induction 1 as [|[m j] l l' _ IH|[m j] [m' j'] l|l l' l'' _ IH _ IH']; cbn;
      [done|by destruct (i =? j)%N; cbn; rewrite IH|by destruct (i =? j)%N, (i =? j')%N|congruence]. }
  rewrite (Hlen _ _ Hperm). cbn. rewrite N.eqb_refl. cbn. f_equal.
  assert (forall x, In x (map_to_list (base.delete n d)) -> (i =? x.2)%N = false) as Hnone.
  { intros [m j] Hin%list_elem_of_In%elem_of_map_to_list. apply lookup_delete_Some in Hin as [Hne Hm].
    apply N.eqb_neq. cbn. intros <-. by apply Hne, (Hinj _ _ _ Hn Hm). }
  clear Hperm Hlen. induction (map_to_list (base.delete n d)) as [|[m j] l IH]; [done|]. cbn in *.
  rewrite (Hnone (m, j) (or_introl eq_refl) : (i =? j)%N = false). apply IH. auto.
Qed.

(** ** The steps of the store *)

(** A descriptor the metadata checks admit. *)
Record safe (v : FS) (n : bytes) (i : N) (f : file) : Prop := {
  safe_inj : dir_inj (fs_names v);
  safe_name : fs_names v !! n = Some i;
  safe_file : private_file v i f;
}.

Lemma safe_metadata v n i f :
  safe v n i f -> require_safe_regular_file_metadata (stat v i f) (fs_uid v) = Ok tt.
Proof.
  intros [Hinj Hn (_ & Hfile & Huid & Hmode)]. unfold require_safe_regular_file_metadata, permissions.
  cbn [stat md_is_file md_uid md_nlink md_mode].
  by rewrite Hfile, Huid, Hmode, (links_one _ n i Hinj Hn), !Z.eqb_refl.
Qed.

Section steps.
Context (v : FS) (n : bytes) (i : N) (f : file) (Hsafe : safe v n i f).

Lemma wpr_fstat {E} (g : errno -> E) (Q : result E metadata -> FS -> Prop) :
  Q (Ok (stat v i f)) v -> wpr Q (sys_err (Fstat i) g) v.
Proof using Hsafe.
  pose proof Hsafe as [_ _ (Hf & _)]. intros HQ. apply wpr_call.
  - intros r Hr. apply Hr. by exists f.
  - intros md v' (-> & g' & Hg & ->). simplify_eq. exact HQ.
Qed.

Lemma wpr_euid {E A} (Q : result E A -> FS -> Prop) (k : Z -> iom E A) :
  wpr Q (k (fs_uid v)) v -> wpr Q (lift_prog (sys EffectiveUid) ≫= k) v.
Proof using. intros HQ b v' [-> ->] _. exact HQ. Qed.

Lemma wpr_require_safe (Q : result errno unit -> FS -> Prop) :
  Q (Ok tt) v -> wpr Q (require_safe_regular_file i) v.
Proof using Hsafe.
  intros HQ. apply wpr_step, wpr_fstat. eexists. split; [done|]. apply wpr_euid.
  unfold lift. by rewrite (safe_metadata v n i f Hsafe).
Qed.

Lemma wpr_inode_identity (Q : result errno InodeIdentity -> FS -> Prop) :
  Q (Ok (identity_of v i)) v -> wpr Q (inode_identity i) v.
Proof using Hsafe. intros HQ. apply wpr_step, wpr_fstat. by eexists. Qed.

Lemma wpr_open_named (Q : result StorageError.t (option N) -> FS -> Prop) :
  Q (Ok (Some i)) v -> wpr Q (open_named n) v.
Proof using Hsafe.
  intros HQ. pose proof (safe_name _ _ _ _ Hsafe) as Hn. apply wpr_step, wpr_attempt, wpr_call.
  - intros r ->. by rewrite Hn.
  - intros j v' [-> Hj]. simplify_eq. eexists. split; [done|]. eexists. split; [done|].
    apply wpr_step, wpr_map_err, wpr_require_safe. eexists. split; [done|]. by eexists.
Qed.

Lemma wpr_named_identity (Q : result StorageError.t InodeIdentity -> FS -> Prop) :
  Q (Ok (identity_of v i)) v -> wpr Q (named_identity n) v.
Proof using Hsafe.
  intros HQ. apply wpr_step, wpr_open_named. eexists. split; [done|].
  apply wpr_map_err, wpr_inode_identity. by eexists.
Qed.

Lemma wpr_same_inode {A} (Q : result StorageError.t A -> FS -> Prop) (k : unit -> storage A) w id :
  wpr Q (k tt) w -> wpr Q (require_same_inode id id ≫= k) w.
Proof using. intros HQ. eapply wpr_lift; [|exact HQ]. by rewrite bool_decide_eq_true_2. Qed.

Lemma wpr_read_bounded (Q : result errno bytes -> FS -> Prop) :
  (Z.of_nat (length (f_data f)) <= MAX_CANONICAL_RECORD_BYTES)%Z ->
  Q (Ok (f_data f)) v -> wpr Q (read_bounded i) v.
Proof using Hsafe.
  intros Hlen HQ. pose proof (safe_metadata v n i f Hsafe) as Hmeta.
  assert ((MAX_CANONICAL_RECORD_BYTES <? Z.of_nat (length (f_data f)))%Z = false) as Hle
    by (apply Z.ltb_ge; lia).
  apply wpr_step, wpr_fstat. eexists. split; [done|]. apply wpr_euid.
  eapply wpr_lift; [exact Hmeta|]. eapply wpr_lift; [cbn [stat md_len]; by rewrite Hle|].
  apply wpr_step, wpr_call.
  { intros r Hr. apply Hr. pose proof Hsafe as [_ _ (? & _)]. by eexists. }
  intros b v' (-> & g & Hg & ->). pose proof Hsafe as [_ _ (Hf & _)].
  assert (g = f) as -> by congruence. rewrite take_ge by lia. eexists. split; [done|]. eapply wpr_lift; [by rewrite Hle|].
  apply wpr_step, wpr_fstat. eexists. split; [done|]. apply wpr_euid.
  eapply wpr_lift; [exact Hmeta|]. eapply wpr_lift; [|exact HQ].
  cbn [stat md_len]. by rewrite Z.eqb_refl.
Qed.
End steps.

(** ** Loading *)

Lemma journal_in_inj R v : journal_in R v -> dir_inj (fs_names v).
Proof. intros [[H _] _]%journal_in_visible. exact H. Qed.

Lemma journal_in_safe R v old :
  journal_in R v -> holds v (Some old) -> exists i f, safe v CANONICAL_NAME i f /\ f_data f = old.
Proof.
  intros Hv Ho. pose proof (journal_in_inj R v Hv). unfold holds, dir_holds in Ho.
  destruct (fs_names v !! CANONICAL_NAME) as [i|] eqn:Hi; [|done].
  destruct Ho as (_ & f & Hf & [= ->]). exists i, f. by split.
Qed.

Section operations.
Context {P : Payload}.

Lemma wpr_load_pinned (Q : result StorageError.t (option LoadedRecord) -> FS -> Prop) v i f r :
  safe v CANONICAL_NAME i f -> decode (f_data f) = Ok r ->
  Q (Ok (Some {| lr_record := r; lr_framed := f_data f; lr_file := i;
                 lr_identity := identity_of v i |})) v ->
  wpr Q load_pinned v.
Proof.
  intros Hs Hd HQ. pose proof (decode_size _ _ Hd) as [_ Hlen].
  apply wpr_step. eapply wpr_open_named; [done|]. eexists. split; [done|].
  apply wpr_step, wpr_map_err. eapply wpr_inode_identity; [done|]. do 2 (eexists; split; [done|]).
  apply wpr_step, wpr_map_err. eapply wpr_read_bounded; [done..|]. do 2 (eexists; split; [done|]).
  apply wpr_step, wpr_map_err. eapply wpr_require_safe; [done|]. do 2 (eexists; split; [done|]).
  by eapply wpr_lift; [rewrite Hd|].
Qed.

Lemma wpr_load_absent (Q : result StorageError.t (option LoadedRecord) -> FS -> Prop) v :
  fs_names v !! CANONICAL_NAME = None -> Q (Ok None) v -> wpr Q load_pinned v.
Proof.
  intros Hn HQ r v' [-> _] ->. by rewrite Hn.
Qed.

Lemma wpr_lock (self : TransitionJournalStore) {A} (Q : result StorageError.t A -> FS -> Prop)
    (k : unit -> storage A) v :
  operation_lock_poisoned self = false -> wpr Q (k tt) v -> wpr Q (lock_operation self ≫= k) v.
Proof. intros H Hk. eapply wpr_lift; [|exact Hk]. by rewrite H. Qed.

(** ** The temporary *)

(** The temporary [t] over the directory of [v], which is otherwise unchanged. *)
Record prepared (R : option bytes -> Prop) (v w : FS) (t : TemporaryRecord) (f : file) : Prop := {
  pr_ready : temporary_ready R w (fs_names v) t (f_data f);
  pr_file : private_file w (tmp_file t) f;
  pr_identity : tmp_identity t = identity_of w (tmp_file t);
  pr_uid : fs_uid w = fs_uid v;
  pr_dev : fs_dev w = fs_dev v;
  pr_others : forall k, k <> tmp_file t -> fs_files w !! k = fs_files v !! k;
}.

Lemma prepared_safe R v w t f : prepared R v w t f -> safe w (tmp_name t) (tmp_file t) f.
Proof.
  intros []. destruct pr_ready0. split; [by eapply journal_in_inj| |done].
  by rewrite tr_names, lookup_insert_eq.
Qed.

(** The record [j] of the directory stays as it is. *)
Lemma prepared_canonical R v w t f j g :
  prepared R v w t f -> safe v CANONICAL_NAME j g -> safe w CANONICAL_NAME j g /\ identity_of w j = identity_of v j.
Proof.
  intros [] [Hinj Hn (Hg & Hrest)]. pose proof pr_ready0 as []. pose proof (temporary_not_canonical _ tr_name) as Hnc.
  split; [|unfold identity_of; congruence]. split; [by eapply journal_in_inj| |].
  - by rewrite tr_names, lookup_insert_ne.
  - unfold private_file. rewrite pr_uid0, pr_others0; [by split|]. intros ->. by apply (tr_fresh CANONICAL_NAME).
Qed.

Definition no_temporaries (v : FS) : Prop :=
  forall n, valid_temporary_name n = true -> fs_names v !! n = None.

Lemma wpr_create_temporary R (Q : result StorageError.t TemporaryRecord -> FS -> Prop) v :
  journal_in R v -> no_temporaries v ->
  (forall t w f, prepared R v w t f -> f_data f = [] -> Q (Ok t) w) -> wpr Q create_temporary v.
Proof.
  intros Hv Hno HQ. unfold create_temporary, MAX_ATTEMPTS. cbn [create_temporary_attempts].
  apply wpr_step. intros p w1 [-> _] _ q w2 [-> _] _. eexists. split; [done|].
  pose proof (temporary_name_valid p q) as Hval. set (n := temporary_name_of p q) in *. clearbody n.
  apply wpr_step, wpr_attempt, wpr_call; [intros r Hr; by apply Hr, Hno|].
  intros i w (Hnone & Hfresh & m & _ & _ & ->). do 2 (eexists; split; [done|]). cbn beta iota.
  pose proof (temporary_created R v n i m (identity_of v i) Hv Hval Hnone Hfresh) as Hready.
  set (w := with_file _ _ _) in *.
  apply wpr_step, wpr_attempt, wpr_step, wpr_call.
  { intros r Hr. apply Hr. cbn. rewrite lookup_insert_eq. by eexists. }
  intros md w' (-> & f & Hf & ->). do 2 (eexists; split; [done|]). cbn beta iota.
  eexists. split; [done|]. cbn beta iota. apply wpr_step, wpr_attempt, wpr_call.
  { intros r Hr. apply Hr. by eexists. }
  intros [] u Hu. cbn in Hu, Hf. rewrite Hf in Hu. cbn in Hu. subst u.
  assert (f = {| f_data := []; f_is_file := true; f_uid := fs_uid v; f_mode := m |}) as ->
    by (rewrite lookup_insert_eq in Hf; congruence).
  do 2 (eexists; split; [done|]). cbn beta iota.
  set (f := set_mode _ _). set (t := {| tmp_name := n; tmp_file := i; tmp_identity := identity_of v i |}) in *.
  assert (prepared R v (with_file i f w) t f) as Hp.
  { split; [|split_and!; [cbn; by rewrite lookup_insert_eq|done..]|done..|].
    - exact (temporary_with_file R w (fs_names v) t [] f Hready).
    - intros k Hk. cbn. by rewrite !lookup_insert_ne. }
  apply wpr_step, wpr_attempt. eapply wpr_require_safe; [exact (prepared_safe _ _ _ _ _ Hp)|].
  do 2 (eexists; split; [done|]). by apply (HQ t _ f Hp).
Qed.

(** ** Publication *)

Section publish.
Context (R : option bytes -> Prop) (v : FS) (data : bytes) (HR : R (Some data)).

Lemma prepared_written w t f :
  prepared R v w t f -> f_data f = [] ->
  prepared R v (with_file (tmp_file t) (append_data data f) w) t (append_data data f)
  /\ f_data (append_data data f) = data.
Proof using.
  intros Hp Hd. pose proof Hp as []. split; [|cbn; by rewrite Hd].
  destruct pr_file0 as (Hf & H1 & H2 & H3). split; try done.
  - exact (temporary_with_file R w (fs_names v) t _ (append_data data f) pr_ready0).
  - split; [cbn; by rewrite lookup_insert_eq|done].
  - intros k Hk. cbn. by rewrite lookup_insert_ne, pr_others0.
Qed.

Lemma prepared_synced w t f :
  prepared R v w t f ->
  prepared R v (with_synced (tmp_file t) w) t f
  /\ publishable R (with_synced (tmp_file t) w) (fs_names v) t (f_data f).
Proof using HR.
  intros Hp. pose proof Hp as []. split; [split; try done; by apply temporary_synced|].
  split; [by apply temporary_synced|]. split; [cbn; set_solver|]. by exists f.
Qed.

Lemma wpr_publish_initial (Q : result StorageError.t unit -> FS -> Prop) w t f :
  prepared R v w t f -> publishable R w (fs_names v) t data -> f_data f = data ->
  fs_names v !! CANONICAL_NAME = None -> (forall w', Q (Ok tt) w') -> wpr Q (publish_initial t) w.
Proof using HR.
  intros Hp Hpub Hd Hnone HQ. pose proof (prepared_safe _ _ _ _ _ Hp) as [_ Hn Hf].
  pose proof Hpub as [[_ Hval Hnames _ _ _ _] _]. apply temporary_not_canonical in Hval as Hnc.
  apply wpr_step, wpr_attempt, wpr_call.
  { intros r Hr. apply Hr; [by eexists|]. by rewrite Hnames, lookup_insert_ne. }
  intros [] w' Hpost. do 2 (eexists; split; [done|]). cbn beta iota.
  destruct Hpost as [Hren|[? _]]; [|done].
  destruct (publish_initial_names R w _ t data w' HR Hpub Hren) as (Hj & _ & Hw').
  destruct Hren as (i & _ & _ & ->). cbn [with_names fs_names] in Hw'.
  apply wpr_step. eapply wpr_named_identity with (i := tmp_file t) (f := f).
  { split; [by eapply journal_in_inj| |exact Hf]. cbn [with_names fs_names]. by rewrite Hw', lookup_insert_eq. }
  eexists. split; [done|]. rewrite (pr_identity _ _ _ _ _ Hp). apply wpr_same_inode.
  apply wpr_call; [by intros r Hr|by intros []].
Qed.

Lemma wpr_publish_update (Q : result StorageError.t unit -> FS -> Prop) w t f j g existing :
  prepared R v w t f -> publishable R w (fs_names v) t data -> f_data f = data ->
  safe v CANONICAL_NAME j g -> lr_identity existing = identity_of v j ->
  (forall w', Q (Ok tt) w') -> wpr Q (publish_update t existing) w.
Proof using HR.
  intros Hp Hpub Hd Hj Hid HQ. destruct (prepared_canonical _ _ _ _ _ _ _ Hp Hj) as [Hjw Hident].
  pose proof (prepared_safe _ _ _ _ _ Hp) as [_ Hn Hf].
  pose proof Hpub as [[_ Hval Hnames _ _ _ _] _]. apply temporary_not_canonical in Hval as Hnc.
  apply wpr_step. eapply wpr_named_identity; [done|]. eexists. split; [done|].
  rewrite Hid, <- Hident. apply wpr_same_inode. apply wpr_step, wpr_attempt, wpr_call.
  { intros r Hr. apply Hr; [by eexists|]. exists j. by destruct Hjw. }
  intros [] w' Hpost. do 2 (eexists; split; [done|]). cbn beta iota.
  destruct Hpost as [Hren|[? _]]; [|done].
  destruct (publish_update_names R w _ t data j w' HR Hpub (safe_name _ _ _ _ Hj) Hren) as (Hjr & _ & Hw').
  destruct Hren as (i & i' & _ & _ & ->). cbn [with_names fs_names] in Hw'.
  apply journal_in_inj in Hjr as Hinj.
  apply wpr_step. eapply wpr_named_identity with (i := tmp_file t) (f := f).
  { split; [done| |exact Hf]. cbn [with_names fs_names]. by rewrite Hw', lookup_insert_ne, lookup_insert_eq. }
  eexists. split; [done|]. rewrite (pr_identity _ _ _ _ _ Hp). apply wpr_same_inode.
  apply wpr_step. eapply wpr_named_identity with (i := j) (f := g).
  { split; [done| |by destruct Hjw]. cbn [with_names fs_names]. by rewrite Hw', lookup_insert_eq. }
  eexists. split; [done|]. apply wpr_same_inode.
  apply wpr_step, wpr_call; [by intros r Hr|]. intros [] u Hu. cbn in Hu. subst u.
  eexists. split; [done|]. apply wpr_step, wpr_call.
  { intros r Hr. apply Hr. cbn [with_directory_synced with_names fs_names]. rewrite lookup_insert_eq. by eexists. }
  intros [] u _. eexists. split; [done|]. apply wpr_call; [by intros r Hr|by intros []].
Qed.

Lemma wpr_publish_record (Q : result StorageError.t unit -> FS -> Prop) existing :
  journal_in R v -> no_temporaries v ->
  match existing with
  | None => fs_names v !! CANONICAL_NAME = None
  | Some l => exists j g, safe v CANONICAL_NAME j g /\ lr_identity l = identity_of v j
  end ->
  (forall w', Q (Ok tt) w') -> wpr Q (publish_record data existing) v.
Proof using HR.
  intros Hv Hno Hex HQ. apply wpr_step, wpr_step, wpr_create_temporary with R; [done..|].
  intros t w f Hp Hf. eexists. split; [done|]. cbn beta zeta.
  apply wpr_step, wpr_attempt, wpr_call.
  { intros r Hr. apply Hr. exists f. apply (pr_file _ _ _ _ _ Hp). }
  intros [] u Hu. do 2 (eexists; split; [done|]). cbn beta iota.
  assert (u = with_file (tmp_file t) (append_data data f) w) as ->.
  { cbn in Hu. rewrite (proj1 (pr_file _ _ _ _ _ Hp)) in Hu. destruct Hu as (a & b & -> & Hb & ->).
    by rewrite (Hb eq_refl), app_nil_r. }
  destruct (prepared_written w t f Hp Hf) as [Hp1 Hd].
  apply wpr_step, wpr_attempt, wpr_call; [by intros r Hr|]. intros [] u Hs. cbn in Hs. subst u.
  do 2 (eexists; split; [done|]). cbn beta iota.
  destruct (prepared_synced _ t _ Hp1) as [Hp2 Hpub]. rewrite Hd in Hpub.
  pose proof (prepared_safe _ _ _ _ _ Hp2) as Hsafe.
  apply wpr_step, wpr_attempt. eapply wpr_require_safe; [exact Hsafe|].
  do 2 (eexists; split; [done|]). cbn beta iota.
  apply wpr_step, wpr_attempt. eapply wpr_inode_identity; [exact Hsafe|].
  do 2 (eexists; split; [done|]). cbn beta iota zeta.
  rewrite <- (pr_identity _ _ _ _ _ Hp2). destruct t as [n i ident]. cbn [tmp_name tmp_file tmp_identity].
  apply wpr_step. destruct existing as [l|].
  - destruct Hex as (j & g & Hj & Hl). eapply wpr_publish_update; [done..|].
    intros w'. eexists. split; [done|]. eexists. split; [done|]. apply HQ.
  - eapply wpr_publish_initial; [done..|].
    intros w'. eexists. split; [done|]. eexists. split; [done|]. apply HQ.
Qed.
End publish.

(** ** The operations *)

Section store.
Context (self : TransitionJournalStore) (Hlock : operation_lock_poisoned self = false).
Context (R : option bytes -> Prop) (v : FS) (Hv : journal_in R v).

Lemma wpr_load_none : holds v None -> wpr (fun r _ => r = Ok None) (load self) v.
Proof using Hlock.
  intros Hn. apply wpr_lock, wpr_step, wpr_load_absent; [done| |by eexists].
  unfold holds, dir_holds in Hn. destruct (fs_names v !! CANONICAL_NAME); [|done].
  by destruct Hn as (_ & f & _ & ?).
Qed.

Lemma wpr_load_some old r :
  holds v (Some old) -> decode old = Ok r -> wpr (fun x _ => x = Ok (Some r)) (load self) v.
Proof using Hlock Hv.
  intros Ho Hd. destruct (journal_in_safe R v old Hv Ho) as (i & f & Hs & <-).
  apply wpr_lock; [done|]. eapply wpr_step, wpr_load_pinned; [done..|]. by eexists.
Qed.

Lemma wpr_create record new :
  may_publish v None record new -> no_temporaries v -> wpr (fun r _ => r = Ok tt) (create self record) v.
Proof using Hlock Hv.
  intros Hm Hno. pose proof Hm as (Henc & (Hval & Hgen & Hphase & Hroll) & Hnone).
  assert (fs_names v !! CANONICAL_NAME = None) as Hn.
  { unfold holds, dir_holds in Hnone. destruct (fs_names v !! CANONICAL_NAME); [|done].
    by destruct Hnone as (_ & f & _ & ?). }
  apply wpr_lock; [done|]. eapply wpr_lift; [by rewrite Henc|]. eapply wpr_lift.
  { rewrite Hgen, Hphase, Hroll. rewrite (bool_decide_eq_false_2 (is_Some None)) by (by intros []).
    by rewrite bool_decide_eq_true_2. }
  apply wpr_step, wpr_load_absent; [done|]. eexists. split; [done|].
  eapply wpr_publish_record with (R := old_or_new R v None record) (v := v) (existing := None).
  - right. by exists new.
  - by apply old_in.
  - done.
  - done.
  - done.
Qed.

Lemma wpr_advance expected next new :
  may_publish v (Some expected) next new -> no_temporaries v ->
  wpr (fun r _ => r = Ok tt) (advance self expected next) v.
Proof using Hlock Hv.
  intros Hm Hno. pose proof Hm as (Henc & Hadv & old & Ho & Hd).
  destruct (journal_in_safe R v old Hv Ho) as (i & f & Hs & <-).
  apply wpr_lock; [done|]. eapply wpr_lift; [by rewrite Hadv|]. eapply wpr_lift; [by rewrite Henc|].
  eapply wpr_step, wpr_load_pinned; [done..|]. eexists. split; [done|]. cbn [lr_record].
  rewrite bool_decide_eq_true_2 by done.
  eapply wpr_publish_record with (R := old_or_new R v (Some expected) next) (v := v).
  - right. by exists new.
  - by apply old_in.
  - done.
  - by exists i, f.
  - done.
Qed.

Lemma wpr_delete expected :
  may_delete v expected -> wpr (fun r _ => r = Ok true) (delete self expected) v.
Proof using Hlock Hv.
  intros (Hval & Hdel & old & Ho & Hd). destruct (journal_in_safe R v old Hv Ho) as (i & f & Hs & <-).
  apply wpr_lock; [done|]. eapply wpr_lift; [by rewrite (Hval : validate expected = Ok tt)|].
  eapply wpr_lift; [by rewrite Hdel|].
  eapply wpr_step, wpr_load_pinned; [done..|]. eexists. split; [done|]. cbn [lr_record lr_identity].
  rewrite bool_decide_eq_true_2 by done.
  apply wpr_step. eapply wpr_named_identity; [done|]. eexists. split; [done|]. apply wpr_same_inode.
  apply wpr_step, wpr_call.
  { intros r Hr. apply Hr. destruct Hs as [_ -> _]. by eexists. }
  intros [] u _. eexists. split; [done|]. apply wpr_step, wpr_call; [by intros r Hr|].
  intros [] w _. by eexists.
Qed.
End store.

Section kernel.
Context {K : Kernel} {KL : KernelLaws K} {RK : ReliableKernel K}.

End kernel.
End operations.
