(* ===== verification/JournalRuns.v ===== *)
(** * A kernel to run the store on

    An executable instance of [Kernel]: one directory, and a budget of calls after
    which every call fails; and the same kernel without a budget.  [sim_laws] and
    [steady_reliable] show that they obey [KernelLaws] and [ReliableKernel], so the
    theorems about arbitrary kernels apply to them, and the store's operations
    evaluate on them. *)

From S2P Require Import Prelude JournalModel JournalValidation JournalMachine JournalSuccessors JournalCodec JournalFs JournalStore JournalStoreSpec JournalCrash JournalDurability JournalProgress.

Record sim := { sim_fs : FS; sim_budget : nat; sim_sequence : Z }.

Definition inodes (v : FS) : list N :=
  concat (map (fun d => (map_to_list d).*2) (fs_names v :: fs_pending v)).

Definition next_inode (v : FS) : N := (1 + foldr N.max 0 (inodes v))%N.

(** A call of the budget: its answer and effect, or a failure without effect. *)
Definition budgeted {A} (s : sim) (r : io A) (v : FS) : io A * sim :=
  match sim_budget s with
  | 0%nat => (Err (OtherError 5), s)
  | S budget =>
      (r, {| sim_fs := v; sim_budget := budget; sim_sequence := sim_sequence s |})
  end.

Definition sim_open (v : FS) (n : bytes) : io N := ok_or (fs_names v !! n) NotFound.

Definition sim_listing (v : FS) : list bytes := (map_to_list (fs_names v)).*1 ++ [bstr "."; bstr ".."].

Definition sim_answer {B} (c : call B) (s : sim) : B * sim :=
  let v := sim_fs s in
  match c in call B return B * sim with
  | OpenRead n => budgeted s (sim_open v n) v
  | OpenPath n => budgeted s (sim_open v n) v
  | OpenExcl n mode =>
      match fs_names v !! n with
      | Some _ => budgeted s (Err AlreadyExists) v
      | None =>
          let i := next_inode v in
          budgeted s (Ok i)
            (with_file i {| f_data := []; f_is_file := true; f_uid := fs_uid v; f_mode := Z.land mode 4095 |}
               (with_names (<[n := i]> (fs_names v)) v))
      end
  | Fstat fd =>
      match fs_files v !! fd with
      | Some f => budgeted s (Ok (stat v fd f)) v
      | None => budgeted s (Err (OtherError 9)) v
      end
  | Fchmod fd mode =>
      match fs_files v !! fd with
      | Some f => budgeted s (Ok tt) (with_file fd (set_mode mode f) v)
      | None => budgeted s (Err (OtherError 9)) v
      end
  | WriteAll fd data =>
      match fs_files v !! fd with
      | Some f =>
          let '(written, r) :=
            match sim_budget s with
            | 0%nat => (take 1 data, Err (OtherError 28))
            | _ => (data, Ok tt)
            end in
          (r, {| sim_fs := with_file fd (append_data written f) v;
                 sim_budget := pred (sim_budget s); sim_sequence := sim_sequence s |})
      | None => budgeted s (Err (OtherError 9)) v
      end
  | ReadToEnd fd limit =>
      match fs_files v !! fd with
      | Some f => budgeted s (Ok (take (Z.to_nat limit) (f_data f))) v
      | None => budgeted s (Err (OtherError 9)) v
      end
  | Fsync fd => budgeted s (Ok tt) (with_synced fd v)
  | SyncDirectory => budgeted s (Ok tt) (with_directory_synced v)
  | RenameNoReplace from to =>
      match fs_names v !! from, fs_names v !! to with
      | Some i, None => budgeted s (Ok tt) (with_names (<[to := i]> (base.delete from (fs_names v))) v)
      | Some _, Some _ => budgeted s (Err AlreadyExists) v
      | None, _ => budgeted s (Err NotFound) v
      end
  | RenameExchange from to =>
      match fs_names v !! from, fs_names v !! to with
      | Some i, Some j =>
          budgeted s (Ok tt) (with_names (<[from := j]> (<[to := i]> (fs_names v))) v)
      | _, _ => budgeted s (Err NotFound) v
      end
  | Unlink n =>
      match fs_names v !! n with
      | Some _ => budgeted s (Ok tt) (with_names (base.delete n (fs_names v)) v)
      | None => budgeted s (Err NotFound) v
      end
  | ReadDirectory =>
      if bool_decide (NoDup (sim_listing v)) then budgeted s (Ok (sim_listing v)) v
      else budgeted s (Err (OtherError 5)) v
  | EffectiveUid => (fs_uid v, s)
  | ProcessId => (1%Z, s)
  | FetchAddSequence =>
      ((sim_sequence s mod 2 ^ 64)%Z,
       {| sim_fs := v; sim_budget := sim_budget s; sim_sequence := (sim_sequence s + 1)%Z |})
  end.

#[export] Instance sim_kernel : Kernel := {
  kstate := sim;
  answer := @sim_answer;
  view := sim_fs;
}.

Lemma next_inode_fresh v : fresh_inode v (next_inode v).
Proof.
  assert (forall l i, In i l -> (i < 1 + foldr N.max 0 l)%N) as Hmax.
  { induction l as [|j l IH]; cbn; [done|]. intros i [-> | Hi]; [lia|]. specialize (IH i Hi). lia. }
  intros d n Hd Hn. apply (N.lt_irrefl (next_inode v)). unfold next_inode at 2. apply Hmax.
  unfold inodes. apply in_concat. exists (map_to_list d).*2. split; [by apply (in_map (fun d => (map_to_list d).*2))|].
  apply list_elem_of_In, list_elem_of_fmap. exists (n, next_inode v). split; [done|].
  by apply elem_of_map_to_list.
Qed.

Lemma sim_listing_iff v n :
  n ∈ sim_listing v <-> is_Some (fs_names v !! n) \/ n = bstr "." \/ n = bstr "..".
Proof.
  unfold sim_listing. rewrite elem_of_app, list_elem_of_fmap, !elem_of_cons.
  assert ((exists y, n = y.1 /\ y ∈ map_to_list (fs_names v)) <-> is_Some (fs_names v !! n)) as ->.
  { split.
    - intros ([m i] & -> & H%elem_of_map_to_list). by exists i.
    - intros [i Hi]. exists (n, i). split; [done|by apply elem_of_map_to_list]. }
  pose proof (not_elem_of_nil n). tauto.
Qed.

#[export] Instance sim_laws : KernelLaws sim_kernel.
Proof.
  intros B c [v budget q]. destruct c; cbn -[Z.pow];
    try (destruct (fs_names v !! from) as [i|] eqn:Hfrom, (fs_names v !! to) as [j|] eqn:Hto);
    try (destruct (fs_names v !! name) as [i|] eqn:Hname);
    try (destruct (fs_files v !! fd) as [f|] eqn:Hfd);
    unfold budgeted, sim_open; cbn -[Z.pow]; try rewrite Hname; destruct budget as [|budget]; cbn -[Z.pow];
    eauto 8.
  - split_and!; [done|apply next_inode_fresh|]. exists (Z.land mode 4095). split_and!; [|apply Z.bits_inj'; intros k Hk; rewrite Z.ldiff_spec, Z.land_spec, Z.bits_0 by done; by destruct (Z.testbit mode k); rewrite ?andb_false_r|done].
    apply Z.land_nonneg. by right.
  - exists (take 1 data), (drop 1 data). by rewrite take_drop.
  - exists data, []. by rewrite app_nil_r.
  - left. by exists i.
  - left. by exists i, j.
  - by destruct (bool_decide _).
  - destruct (bool_decide _) eqn:Hd; [|done]. split; [done|]. apply bool_decide_eq_true in Hd.
    split; [done|]. apply sim_listing_iff.
  - split; [done|]. unfold in_width. lia.
  - split; [done|]. unfold in_width. lia.
  - split; [done|]. apply Z.mod_pos_bound. lia.
  - split; [done|]. apply Z.mod_pos_bound. lia.
Qed.

(** ** Without a budget *)

Definition refill (s : sim) : sim :=
  {| sim_fs := sim_fs s; sim_budget := 1; sim_sequence := sim_sequence s |}.

#[export] Instance steady_kernel : Kernel := {
  kstate := sim;
  answer B c s := sim_answer c (refill s);
  view := sim_fs;
}.

#[export] Instance steady_laws : KernelLaws steady_kernel.
Proof. intros B c s. exact (sim_laws B c (refill s)). Qed.

Lemma sim_listing_nodup v :
  fs_names v !! bstr "." = None -> fs_names v !! bstr ".." = None -> NoDup (sim_listing v).
Proof.
  intros H1 H2. apply NoDup_app. split_and!.
  - apply NoDup_fst_map_to_list.
  - intros n ([m i] & -> & Hm%elem_of_map_to_list)%list_elem_of_fmap Hn. cbn [fst] in Hn.
    apply elem_of_cons in Hn as [->|Hn]; [congruence|].
    apply list_elem_of_singleton in Hn as ->. congruence.
  - by apply (bool_decide_unpack _).
Qed.

#[export] Instance steady_reliable : ReliableKernel steady_kernel.
Proof.
  intros B c [v budget q]. destruct c; cbn -[Z.pow bstr]; try done; try (by intros [f ->]).
  - by intros ->.
  - by intros [i ->] ->.
  - by intros [i ->] [j ->].
  - intros H1 H2. by rewrite (bool_decide_eq_true_2 _ (sim_listing_nodup v H1 H2)).
Qed.

(** ** A payload format for the sample records *)

Module Numbered.
Definition table : list TransitionRecord := Eval vm_compute in records commit_calls.

#[export] Instance payload : Payload := {
  to_vec r := (fun p => be_bytes 1 (Z.of_nat p.1)) <$> list_find (fun r' => r' = r) table;
  from_slice b := table !! Z.to_nat (be_value b);
  sha256 b := repeat (default x00 (last b)) 32;
}.

#[export] Instance laws : PayloadLaws payload.
Proof.
  split; [|done]. intros r b. cbn [to_vec from_slice payload].
  intros ([i r'] & Hf & ->)%fmap_Some. apply list_find_Some in Hf as (Hi & -> & _).
  cbn [fst]. assert (i < 19)%nat by (apply lookup_lt_Some in Hi; exact Hi).
  rewrite be_round_trip by (unfold in_width; cbn; lia). by rewrite Nat2Z.id.
Qed.

Definition record (i : nat) : TransitionRecord := default sample (table !! i).
Definition framed (i : nat) : bytes := frame (be_bytes 1 (Z.of_nat i)).
End Numbered.

Definition sim_empty (budget : nat) : sim :=
  {| sim_fs :=
       {| fs_names := {[LOCK_NAME := 1%N]};
          fs_files := {[1%N := {| f_data := []; f_is_file := true; f_uid := 0; f_mode := 384 |}]};
          fs_synced := {[1%N]}; fs_pending := []; fs_uid := 0; fs_dev := 7 |};
     sim_budget := budget; sim_sequence := 0 |}.

Definition handle : TransitionJournalStore := {| operation_lock_poisoned := false |}.

(** ** Concrete runs of the journal store

    The store's operations on the simulated kernels of [JournalSim], with the sample
    records: a journal is created, advanced, cut short by failing calls and deleted,
    and the theorems of [JournalDurability] and [JournalProgress] apply to each run. *)

Local Existing Instance Numbered.payload.
Local Existing Instance Numbered.laws.

Abbreviation sim_run := (run (K := sim_kernel)).
Abbreviation sim_states := (states (K := sim_kernel)).

(** An empty journal, the journal after [create], and after it with a budget left. *)
Lemma sim_empty_in budget : journal_in (eq None) (sim_fs (sim_empty budget)).
Proof.
  intros d [<- | []]. cbn [sim_empty sim_fs fs_names]. split; [split|].
  - intros n m i Hn Hm. apply lookup_singleton_Some in Hn as [<- _], Hm as [<- _]. done.
  - intros n [i Hn]. apply lookup_singleton_Some in Hn as [<- _]. right. by left.
  - exists None. split; [done|]. unfold dir_holds. by rewrite lookup_singleton_ne by done.
Qed.

Definition sim_created (budget : nat) : sim :=
  (sim_run (create handle (Numbered.record 0)) (sim_empty budget)).2.

Lemma sim_created_in budget :
  is_ok (sim_run (create handle (Numbered.record 0)) (sim_empty budget)).1 = true ->
  journal_in (eq (Some (Numbered.framed 0))) (sim_fs (sim_created budget)).
Proof.
  intros Hok.
  destruct (publish_run (K := sim_kernel) _ (sim_empty budget) None (Numbered.record 0)
    (create handle (Numbered.record 0)) (sim_empty_in budget)
    (wp_create _ _ (sim_empty_in budget) handle (Numbered.record 0))) as (_ & Hrun & _).
  destruct (sim_run _ _).1 as [[]|e]; [|done]. destruct (Hrun eq_refl) as (new & [Henc _] & [Hj _]).
  assert (encode (Numbered.record 0) = Ok (Numbered.framed 0)) as Hf by (vm_compute; reflexivity).
  rewrite Hf in Henc. injection Henc as <-. exact Hj.
Qed.

Lemma advance_crash_atomic_witness :
  exists new,
    may_publish (sim_fs (sim_created 100)) (Some (Numbered.record 0)) (Numbered.record 1) new
    /\ published new (fs_names (sim_fs (sim_created 100)))
         (sim_fs (sim_run (advance handle (Numbered.record 0) (Numbered.record 1)) (sim_created 100)).2).
Proof.
  refine (proj1 (proj2 (advance_crash_atomic (K := sim_kernel) handle (Numbered.record 0)
    (Numbered.record 1) (sim_created 100) (Numbered.framed 0) _)) _).
  - apply sim_created_in. vm_compute. reflexivity.
  - vm_compute. reflexivity.
Defined.

Lemma create_crash_atomic_witness :
  exists new, may_publish (sim_fs (sim_empty 100)) None (Numbered.record 0) new
    /\ published new (fs_names (sim_fs (sim_empty 100)))
         (sim_fs (sim_run (create handle (Numbered.record 0)) (sim_empty 100)).2).
Proof.
  refine (proj1 (proj2 (create_crash_atomic (K := sim_kernel) handle (Numbered.record 0)
    (sim_empty 100) (sim_empty_in 100))) _).
  vm_compute. reflexivity.
Defined.

(** A durable record, beside the lock file and one stale temporary. *)
Definition stale_name : bytes := Eval vm_compute in temporary_name_of 1 5.

Definition private_inode (data : bytes) : file :=
  {| f_data := data; f_is_file := true; f_uid := 0; f_mode := 384 |}.

Definition sim_holding (i : nat) (stale : bool) (budget : nat) : sim :=
  {| sim_fs :=
       {| fs_names := (if stale then <[stale_name := 3%N]> else id)
                        (<[CANONICAL_NAME := 2%N]> {[LOCK_NAME := 1%N]});
          fs_files := <[3%N := private_inode []]> (<[2%N := private_inode (Numbered.framed i)]>
                        {[1%N := private_inode []]});
          fs_synced := {[1%N; 2%N; 3%N]}; fs_pending := []; fs_uid := 0; fs_dev := 7 |};
     sim_budget := budget; sim_sequence := 0 |}.

Lemma sim_holding_in i stale budget :
  journal_in (eq (Some (Numbered.framed i))) (sim_fs (sim_holding i stale budget)).
Proof.
  intros d [<- | []]. cbn [sim_holding sim_fs fs_names].
  set (base := <[CANONICAL_NAME := 2%N]> {[LOCK_NAME := 1%N]}).
  assert (dir_ok (sim_fs (sim_holding i stale budget)) base) as Hbase.
  { apply dir_ok_insert; [split| |].
    - intros n m j [<- _]%lookup_singleton_Some [<- _]%lookup_singleton_Some. done.
    - intros n [j [<- _]%lookup_singleton_Some]. right. by left.
    - by left.
    - by intros m [_ ?]%lookup_singleton_Some. }
  split.
  - destruct stale; [|exact Hbase]. apply dir_ok_insert; [exact Hbase|right; right; vm_compute; reflexivity|].
    intros m [[_ ?]|[_ [_ ?]%lookup_singleton_Some]]%lookup_insert_Some; done.
  - exists (Some (Numbered.framed i)). split; [done|]. unfold dir_holds.
    assert ((if stale then <[stale_name := 3%N]> else id) base !! CANONICAL_NAME = Some 2%N) as ->
      by (destruct stale; [rewrite lookup_insert_ne by done|]; apply lookup_insert_eq).
    split; [cbn; set_solver|]. by exists (private_inode (Numbered.framed i)).
Qed.

Lemma delete_crash_atomic_witness :
  may_delete (sim_fs (sim_holding 18 false 100)) (Numbered.record 18)
  /\ journal_in (eq None) (sim_fs (sim_run (delete handle (Numbered.record 18)) (sim_holding 18 false 100)).2).
Proof.
  pose proof (proj2 (delete_crash_atomic (K := sim_kernel) handle (Numbered.record 18)
    (sim_holding 18 false 100) _ (sim_holding_in 18 false 100))) as H.
  assert ((sim_run (delete handle (Numbered.record 18)) (sim_holding 18 false 100)).1 = Ok true) as E
    by (vm_compute; reflexivity).
  rewrite E in H. destruct H as (Hm & Hj & _). exact (conj Hm Hj).
Defined.

Lemma load_exact_witness :
  (sim_run (load handle) (sim_holding 4 true 100)).1 = Ok (Some (Numbered.record 4))
  /\ exists old, holds (sim_fs (sim_holding 4 true 100)) (Some old)
       /\ decode old = Ok (Numbered.record 4).
Proof.
  assert ((sim_run (load handle) (sim_holding 4 true 100)).1 = Ok (Some (Numbered.record 4))) as E
    by (vm_compute; reflexivity).
  split; [exact E|].
  pose proof (proj2 (load_exact (K := sim_kernel) handle (sim_holding 4 true 100) _
    (sim_holding_in 4 true 100))) as H.
  rewrite E in H. exact H.
Defined.

Lemma cleanup_keeps_record_witness :
  fs_names (sim_fs (sim_holding 4 true 100)) !! stale_name = Some 3%N
  /\ fs_names (sim_fs (sim_run cleanup_stale_temporaries (sim_holding 4 true 100)).2) !! stale_name = None.
Proof.
  split; [vm_compute; reflexivity|].
  refine (eq_trans (proj2 (cleanup_keeps_record (K := sim_kernel) (sim_holding 4 true 100) _
    (sim_holding_in 4 true 100)) _ stale_name) _); vm_compute; reflexivity.
Defined.

(** A crash that brings back the oldest name set since the last directory sync. *)
Definition crash_back (s : sim) : sim :=
  let v := sim_fs s in
  {| sim_fs :=
       {| fs_names := List.last (fs_pending v) (fs_names v); fs_files := fs_files v;
          fs_synced := fs_synced v; fs_pending := []; fs_uid := fs_uid v; fs_dev := fs_dev v |};
     sim_budget := 100; sim_sequence := 0 |}.

Lemma crash_back_crash s : fs_crash (sim_fs s) (sim_fs (crash_back s)).
Proof.
  split; [|by split_and!]. cbn [crash_back sim_fs fs_names].
  induction (fs_pending (sim_fs s)) as [|d l IH]; [by left|]. destruct l as [|d' l]; [by right; left|].
  destruct IH as [IH|IH]; [left|right; right]; exact IH.
Qed.

(** The journal is created, an advance is cut short once the names are exchanged, and
    the crash brings the old record back. *)
Definition cut_short : sim :=
  List.nth 30 (sim_states (perform handle (Advance (Numbered.record 0) (Numbered.record 1)))
                 (sim_run (perform handle (Create (Numbered.record 0))) (sim_empty 100)).2) (sim_empty 0).

Lemma journal_holds_history_witness :
  exists o, holds (sim_fs (crash_back cut_short)) o
    /\ match o with
       | None => True
       | Some b => exists r0 l r, creatable r0 /\ history r0 l r /\ decode b = Ok r
       end.
Proof.
  refine (journal_holds_history (K := sim_kernel) (crash_back cut_short) _).
  refine (session_crash (K := sim_kernel) _ _
    (sim_run (perform handle (Create (Numbered.record 0))) (sim_empty 100)).2 handle
    (Advance (Numbered.record 0) (Numbered.record 1)) cut_short _ _ I _ (crash_back_crash _)).
  - refine (session_done (K := sim_kernel) _ _ _ handle _ _ I). apply session_start, sim_empty_in.
  - unfold cut_short. apply nth_In. vm_compute. lia.
Defined.

Lemma advance_not_delete e n e' : Advance e n <> Delete e'.
Proof. done. Qed.

Lemma journal_never_goes_back_witness :
  exists b r l,
    holds (sim_fs (sim_run (perform handle (Advance (Numbered.record 4) (Numbered.record 5)))
      (sim_holding 4 false 20)).2) (Some b)
    /\ decode b = Ok r /\ history (Numbered.record 4) l r.
Proof.
  assert (session (K := sim_kernel) (eq (Some (Numbered.framed 4))) (fun q => forall e, q <> Delete e)
    (sim_run (perform handle (Advance (Numbered.record 4) (Numbered.record 5)))
      (sim_holding 4 false 20)).2) as Hs.
  { apply (session_done (K := sim_kernel) _ _ (sim_holding 4 false 20));
      [apply session_start, sim_holding_in|apply advance_not_delete]. }
  assert (decode (Numbered.framed 4) = Ok (Numbered.record 4)) as E by (vm_compute; reflexivity).
  destruct (journal_never_goes_back (K := sim_kernel) (Numbered.framed 4) (Numbered.record 4) _ E Hs)
    as (b & r & l & H1 & H2 & H3).
  exists b, r, l. exact (conj H1 (conj H2 H3)).
Defined.

