(* ===== verification/StoneWire.v ===== *)
(** * Reading and writing stone records

    [crates/stone/src/ext.rs] and the record machinery of
    [crates/stone/src/payload/mod.rs]: big-endian reads over [std::io::Read], the
    byte budget of a [RecordReader], and the [Record] trait.  A reader is a state
    type with an instance of [Read]; [ReadLaws] says which bytes it has to give, and
    [yields] is the specification of a decoder on the bytes an encoder wrote.  An
    encoder is the list of buffers it passes to [Write::write_all]. *)

From S2P Require Import Prelude.

(** ** [std::io] *)

(** [io::ErrorKind], as far as the crate tells kinds apart. *)
Inductive io_error := UnexpectedEof | InvalidData | OtherIo (code : Z).
#[global] Instance io_error_eq_dec : EqDecision io_error.
Proof. solve_decision. Defined.

(** A computation on a reader.  The state survives an error. *)
Definition rd (S E A : Type) : Type := S -> result E A * S.

#[global] Instance rd_ret S E : MRet (rd S E) := fun A a s => (Ok a, s).
#[global] Instance rd_bind S E : MBind (rd S E) :=
  fun A B f p s => match p s with (Ok a, s') => f a s' | (Err e, s') => (Err e, s') end.

(** A [Result] in the middle of a computation, and [map_err]. *)
Definition rd_lift {S E A} (r : result E A) : rd S E A := fun s => (r, s).
Definition rd_map_err {S E F A} (f : E -> F) (p : rd S E A) : rd S F A :=
  fun s => let '(r, s') := p s in (map_err f r, s').

Lemma rd_bind_ok {S E A B} (p : rd S E A) (k : A -> rd S E B) s b s' :
  (p ≫= k) s = (Ok b, s') <-> exists a s1, p s = (Ok a, s1) /\ k a s1 = (Ok b, s').
Proof.
  unfold mbind, rd_bind. destruct (p s) as [[a|e] s1]; [naive_solver|].
  split; [done|]. by intros (? & ? & ? & _).
Qed.

Lemma rd_map_err_ok {S E F A} (f : E -> F) (p : rd S E A) s a s' :
  rd_map_err f p s = (Ok a, s') <-> p s = (Ok a, s').
Proof. unfold rd_map_err. destruct (p s) as [[x|e] s1]; cbn; naive_solver. Qed.

(** Decomposes a computation that returned [Ok]. *)
Ltac inv_rd :=
  repeat match goal with
  | H : (_ ≫= _) _ = (Ok _, _) |- _ => apply rd_bind_ok in H as (? & ? & ? & ?)
  | H : rd_map_err _ _ _ = (Ok _, _) |- _ => apply rd_map_err_ok in H
  | H : mret _ _ = (Ok _, _) |- _ => unfold mret, rd_ret in H
  | H : (Ok _, _) = (Ok _, _) |- _ => progress simplify_eq
  end.

(** [Read::read] with a buffer of the given length. *)
Class Read (S : Type) := read : nat -> S -> result io_error bytes * S.

Section read_exact.
Context {S : Type} `{Read S}.

(** [Read::read_exact]: an empty answer before the buffer is full is an error.  Every
    round fills at least one byte, so [n] rounds are enough. *)
Fixpoint read_exact_rounds (fuel n : nat) : rd S io_error bytes :=
  match n, fuel with
  | 0%nat, _ => mret []
  | _, 0%nat => rd_lift (Err UnexpectedEof)
  | _, Datatypes.S fuel' =>
      b ← read n;
      match b with
      | [] => rd_lift (Err UnexpectedEof)
      | _ => rest ← read_exact_rounds fuel' (n - length b); mret (b ++ rest)
      end
  end.

Definition read_exact (n : nat) : rd S io_error bytes := read_exact_rounds n n.

(** ** [ReadExt] *)

Definition read_array (n : nat) : rd S io_error bytes := read_exact n.
Definition read_u8 : rd S io_error Z := b ← read_array 1; mret (be_value b).
Definition read_u16 : rd S io_error Z := b ← read_array 2; mret (be_value b).
Definition read_u32 : rd S io_error Z := b ← read_array 4; mret (be_value b).
Definition read_u64 : rd S io_error Z := b ← read_array 8; mret (be_value b).
Definition read_u128 : rd S io_error Z := b ← read_array 16; mret (be_value b).

(** The allocation of [read_vec] cannot fail in the model. *)
Definition read_vec (length : Z) : rd S io_error bytes := read_exact (Z.to_nat length).

Definition read_string (length : Z) : rd S io_error bytes :=
  b ← read_vec length;
  rd_lift (ok_or (from_utf8 b) InvalidData).
End read_exact.

(** ** [StonePayloadDecodeError] *)

Module PayloadDecodeError.
Inductive t :=
  | LimitExceeded (field : bytes) (limit actual : Z)
  | InvalidLength (field : bytes) (expected actual : Z)
  | LengthTooSmall (field : bytes) (minimum actual : Z)
  | LengthOverflow (field : bytes)
  | Allocation (field : bytes) (requested : Z)
  | Io (source : io_error).
#[global] Instance eq_dec : EqDecision t.
Proof. solve_decision. Defined.
End PayloadDecodeError.

(** ** [RecordReader] *)

Record RecordReader (S : Type) := {
  rr_inner : S;
  rr_limit : Z;
  rr_consumed : Z;
}.
Arguments rr_inner {S}.
Arguments rr_limit {S}.
Arguments rr_consumed {S}.

Definition record_reader {S} (inner : S) (limit : Z) : RecordReader S :=
  {| rr_inner := inner; rr_limit := limit; rr_consumed := 0 |}.

#[global] Instance RecordReader_read S `{Read S} : Read (RecordReader S) := fun n r =>
  match n with
  | 0%nat => (Ok [], r)
  | _ =>
      let remaining := Z.max 0 (rr_limit r - rr_consumed r) in
      if (remaining =? 0)%Z then (Err InvalidData, r)
      else
        let allowed := Z.to_nat (Z.min remaining (Z.of_nat n)) in
        let '(got, inner) := read allowed (rr_inner r) in
        match got with
        | Err e => (Err e, {| rr_inner := inner; rr_limit := rr_limit r; rr_consumed := rr_consumed r |})
        | Ok b =>
            match checked_add 64 (rr_consumed r) (Z.of_nat (length b)) with
            | None => (Err InvalidData,
                {| rr_inner := inner; rr_limit := rr_limit r; rr_consumed := rr_consumed r |})
            | Some consumed =>
                (Ok b, {| rr_inner := inner; rr_limit := rr_limit r; rr_consumed := consumed |})
            end
        end
  end.

Abbreviation decoder S := (rd (RecordReader S) PayloadDecodeError.t).

Section record_reader.
Context {S : Type} `{Read S}.

(** The [?] operator on an [io::Result] *)
Definition io {A} (p : rd (RecordReader S) io_error A) : decoder S A :=
  rd_map_err PayloadDecodeError.Io p.

Definition ensure_additional (field : bytes) (length : Z) : decoder S unit := fun r =>
  (requested ← ok_or (checked_add 64 (rr_consumed r) length) (PayloadDecodeError.LengthOverflow field);
   reject (PayloadDecodeError.LimitExceeded field (rr_limit r) requested) when (rr_limit r <? requested)%Z, r).

Definition read_sized_vec (field : bytes) (length : Z) : decoder S bytes :=
  ensure_additional field length;; io (read_vec length).

Definition read_sized_string (field : bytes) (length : Z) : decoder S bytes :=
  ensure_additional field length;; io (read_string length).
End record_reader.

(** [str::trim_end_matches('\0')] *)
Fixpoint trim_end_nul (s : bytes) : bytes :=
  match s with
  | [] => []
  | b :: s' =>
      match trim_end_nul s' with
      | [] => if bool_decide (b = x00) then [] else [b]
      | t => b :: t
      end
  end.

(** ** The [Record] trait *)

Class Record (T : Type) := {
  record_decode : forall {S} `{Read S}, decoder S T;
  record_encode : T -> list bytes;
  record_size : T -> Z;
}.

Section records.
Context {T : Type} `{Record T}.

Fixpoint decode_records {S} `{Read S} (num_records : nat) (max_record_bytes : Z)
    : rd S PayloadDecodeError.t (list T) :=
  match num_records with
  | 0%nat => mret []
  | Datatypes.S n =>
      record ← (fun s => let '(r, rr) := record_decode (record_reader s max_record_bytes) in (r, rr_inner rr));
      records ← decode_records n max_record_bytes;
      mret (record :: records)
  end.

Definition encode_records (records : list T) : list bytes := records ≫= record_encode.

Definition records_total_size (records : list T) : Z := foldr Z.add 0%Z (record_size <$> records).
End records.

(** ** What a reader has to give *)

Class Available (S : Type) := {
  avail : S -> bytes;
  advance : nat -> S -> S;
}.

Class ReadLaws (S : Type) `{Read S, Available S} : Prop := {
  advance_0 s : advance 0 s = s;
  advance_add a b s : (a + b <= length (avail s))%nat -> advance (a + b) s = advance b (advance a s);
  avail_advance k s : (k <= length (avail s))%nat -> avail (advance k s) = drop k (avail s);
  (** A read of a nonempty buffer gives some of the bytes there are. *)
  read_some n s : (0 < n)%nat -> avail s <> [] ->
    exists k, (0 < k <= n)%nat /\ (k <= length (avail s))%nat
      /\ read n s = (Ok (take k (avail s)), advance k s);
}.

Section read_laws.
Context {S : Type} `{ReadLaws S}.

Lemma read_exact_rounds_ok fuel n s :
  (n <= fuel)%nat -> (n <= length (avail s))%nat ->
  read_exact_rounds fuel n s = (Ok (take n (avail s)), advance n s).
Proof.
  revert n s. induction fuel as [|fuel IH]; intros n s Hf Hn; (destruct n as [|n]; [by rewrite advance_0|]).
  { lia. }
  destruct (read_some (Datatypes.S n) s) as (k & Hk & Hkl & Hread); [lia|by destruct (avail s); cbn in *; [lia|]|].
  cbn [read_exact_rounds]. unfold mbind, rd_bind at 1. rewrite Hread.
  assert (length (take k (avail s)) = k) as Hlk by (rewrite length_take; lia).
  destruct (take k (avail s)) as [|b l] eqn:Ht; [cbn in Hlk; lia|]. rewrite <- Ht.
  unfold mbind, rd_bind. rewrite Ht, Hlk, <- Ht, IH; [|lia|rewrite avail_advance, length_drop by lia; lia].
  cbn [mret rd_ret]. rewrite avail_advance by lia. unfold mret, rd_ret. f_equal.
  - f_equal. rewrite take_take_drop. f_equal. lia.
  - rewrite <- advance_add by lia. f_equal. lia.
Qed.

Lemma read_exact_ok n s :
  (n <= length (avail s))%nat -> read_exact n s = (Ok (take n (avail s)), advance n s).
Proof. intros. by apply read_exact_rounds_ok. Qed.
End read_laws.

(** A record reader gives what its budget and its source allow. *)
#[global] Instance RecordReader_available S `{Available S} : Available (RecordReader S) := {
  avail r := if (rr_limit r <? 2 ^ 64)%Z
             then take (Z.to_nat (rr_limit r - rr_consumed r)) (avail (rr_inner r)) else [];
  advance k r := {| rr_inner := advance k (rr_inner r); rr_limit := rr_limit r;
                    rr_consumed := rr_consumed r + Z.of_nat k |};
}.

#[global] Instance RecordReader_laws S `{ReadLaws S} : ReadLaws (RecordReader S).
Proof.
  split.
  - intros [i l c]. cbn. by rewrite advance_0, Z.add_0_r.
  - intros a b [i l c]. cbn -[Z.pow]. intros Hle. f_equal; [|lia]. apply advance_add.
    destruct (l <? 2 ^ 64)%Z; [rewrite length_take in Hle; lia|cbn in Hle; lia].
  - intros k [i l c]. cbn -[Z.pow]. intros Hle. destruct (l <? 2 ^ 64)%Z; [|by destruct k].
    rewrite length_take in Hle. rewrite avail_advance, skipn_firstn_comm by lia. f_equal. lia.
  - intros n [i l c] Hn Hav. cbn -[Z.pow] in Hav. cbn -[Z.pow].
    destruct (l <? 2 ^ 64)%Z eqn:Hl; [|done]. apply Z.ltb_lt in Hl.
    assert (0 < l - c)%Z as Hrem.
    { destruct (Z.ltb_spec 0 (l - c)); [done|]. by replace (Z.to_nat (l - c)) with 0 in Hav by lia. }
    assert (avail i <> []) as Hi by (intros E; by rewrite E, take_nil in Hav).
    set (allowed := Z.to_nat (Z.min (Z.max 0 (l - c)) (Z.of_nat n))).
    destruct (read_some allowed i) as (k & Hk & Hkl & Hread); [lia|done|].
    exists k. rewrite length_take. split_and!; [lia..|]. unfold read, RecordReader_read.
    destruct n as [|n]; [lia|]. cbn -[Z.pow Z.max Z.min]. rewrite (proj2 (Z.eqb_neq _ _)) by lia.
    fold allowed. rewrite Hread, length_take.
    rewrite (proj2 (checked_add_Some 64 c _ (c + Z.of_nat k))) by (split; lia).
    f_equal. rewrite take_take. f_equal. f_equal. lia.
Qed.

(** ** Decoders on encoded bytes *)

Section yields.
Context {S : Type} `{ReadLaws S}.

(** On a reader whose next bytes are [input], [p] consumes exactly them and returns
    [a]. *)
Definition yields {E A} (p : rd (RecordReader S) E A) (input : bytes) (a : A) : Prop :=
  forall r rest, avail (rr_inner r) = input ++ rest -> (0 <= rr_consumed r)%Z ->
    (rr_consumed r + Z.of_nat (length input) <= rr_limit r < 2 ^ 64)%Z ->
    p r = (Ok a, advance (length input) r).

Lemma yields_ret {E A} (a : A) : yields (mret (M := rd _ E) a) [] a.
Proof. intros [i l c] rest _ _ _. cbn. by rewrite advance_0, Z.add_0_r. Qed.

Lemma yields_bind {E A B} (p : rd (RecordReader S) E A) (k : A -> rd (RecordReader S) E B) i1 i2 a b :
  yields p i1 a -> yields (k a) i2 b -> yields (p ≫= k) (i1 ++ i2) b.
Proof.
  intros Hp Hk r rest Hav Hc Hl. rewrite length_app in *. rewrite <- app_assoc in Hav.
  unfold mbind, rd_bind. erewrite Hp by (try exact Hav; lia).
  erewrite Hk; cbn [rr_inner rr_consumed rr_limit advance RecordReader_available]; [..|lia|lia].
  - f_equal. destruct r as [i l c]. cbn in *. f_equal; [|lia].
    symmetry. apply advance_add. rewrite Hav, !length_app. lia.
  - rewrite avail_advance, Hav by (rewrite Hav, length_app; lia). by apply drop_app_exact.
Qed.

Lemma yields_map_err {E F A} (f : E -> F) (p : rd (RecordReader S) E A) input a :
  yields p input a -> yields (rd_map_err f p) input a.
Proof. intros Hp r rest Hav Hc Hl. unfold rd_map_err. by rewrite (Hp r rest Hav Hc Hl). Qed.

Lemma yields_lift {E A} (x : result E A) a : x = Ok a -> yields (rd_lift x) [] a.
Proof. intros -> [i l c] rest _ _ _. cbn. by rewrite advance_0, Z.add_0_r. Qed.

Lemma yields_read_exact n input :
  length input = n -> yields (read_exact n) input input.
Proof.
  intros Hn [i l c] rest Hav Hc Hl. cbn in *.
  assert (avail {| rr_inner := i; rr_limit := l; rr_consumed := c |}
    = take (Z.to_nat (l - c)) (input ++ rest)) as Ha.
  { cbn -[Z.pow]. rewrite (proj2 (Z.ltb_lt _ _)) by lia. by rewrite Hav. }
  rewrite read_exact_ok; rewrite Ha.
  - rewrite take_take, take_app_exact by lia. by rewrite Hn.
  - rewrite length_take, length_app. lia.
Qed.

Lemma yields_array n input : length input = n -> yields (read_array n) input input.
Proof. apply yields_read_exact. Qed.

Lemma yields_be n z :
  in_width (8 * Z.of_nat n) z ->
  yields (b ← read_array n; mret (be_value b)) (be_bytes n z) z.
Proof.
  intros Hz. rewrite <- (app_nil_r (be_bytes n z)).
  eapply yields_bind; [apply yields_array, length_be_bytes|].
  rewrite (be_round_trip n z Hz) at 1. apply yields_ret.
Qed.

(** A check of the budget consumes nothing. *)
Lemma yields_ensure {B} field length (k : unit -> decoder S B) input b :
  (0 <= length <= Z.of_nat (List.length input))%Z -> yields (k tt) input b ->
  yields (ensure_additional field length ≫= k) input b.
Proof.
  intros Hlen Hk r rest Hav Hc Hl. unfold mbind, rd_bind, ensure_additional.
  rewrite (proj2 (checked_add_Some 64 _ _ (rr_consumed r + length)%Z)) by (split; lia).
  cbn [ok_or mbind result_bind]. rewrite (proj2 (Z.ltb_ge _ _)) by lia. by apply (Hk r rest).
Qed.

Lemma yields_sized_vec field length input :
  length = Z.of_nat (List.length input) -> yields (read_sized_vec field length) input input.
Proof.
  intros ->. apply yields_ensure; [lia|]. apply yields_map_err, yields_read_exact. lia.
Qed.

Lemma yields_sized_string field length input :
  length = Z.of_nat (List.length input) -> utf8_valid input = true ->
  yields (read_sized_string field length) input input.
Proof.
  intros -> Hu. apply yields_ensure; [lia|]. apply yields_map_err.
  rewrite <- (app_nil_r input) at 2. eapply yields_bind; [apply yields_read_exact; lia|].
  apply yields_lift. unfold from_utf8. by rewrite Hu.
Qed.
End yields.
