(* ===== verification/StoneRecords.v ===== *)
(** * The records of stone payloads

    [crates/stone/src/payload/{index,attribute,layout,meta}.rs]: the four record
    types with their [decode], [encode] and [size].  [RecordLaws] is what the archive
    reader and writer rely on: a record's declared size is the number of bytes it
    writes, and a well-formed record reads back as itself. *)

From S2P Require Import Prelude StoneWire.

Class RecordLaws (T : Type) `{Record T} (wf : T -> Prop) : Prop := {
  record_size_exact t : record_size t = Z.of_nat (length (concat (record_encode t)));
  record_round_trip t :
    wf t -> forall S `{ReadLaws S}, yields (S := S) record_decode (concat (record_encode t)) t;
}.

(** ** Index records *)

Record StonePayloadIndexRecord := {
  ix_start : Z;
  ix_end : Z;
  ix_digest : Z;
}.
#[global] Instance index_eq_dec : EqDecision StonePayloadIndexRecord.
Proof. solve_decision. Defined.

Definition index_decode {S} `{Read S} : decoder S StonePayloadIndexRecord :=
  start ← io read_u64;
  end_ ← io read_u64;
  digest ← io read_u128;
  mret {| ix_start := start; ix_end := end_; ix_digest := digest |}.

Definition index_encode (r : StonePayloadIndexRecord) : list bytes :=
  [be_bytes 8 (ix_start r); be_bytes 8 (ix_end r); be_bytes 16 (ix_digest r)].

(** [size_of::<Self>()] of two [u64] and one [u128] *)
Definition index_size (r : StonePayloadIndexRecord) : Z := 32.

#[global] Instance index_record : Record StonePayloadIndexRecord := {
  record_decode := @index_decode;
  record_encode := index_encode;
  record_size := index_size;
}.

Definition index_wf (r : StonePayloadIndexRecord) : Prop :=
  in_u64 (ix_start r) /\ in_u64 (ix_end r) /\ in_u128 (ix_digest r).

(** ** Attribute records *)

Record StonePayloadAttributeRecord := {
  attr_key : bytes;
  attr_value : bytes;
}.
#[global] Instance attribute_eq_dec : EqDecision StonePayloadAttributeRecord.
Proof. solve_decision. Defined.

Abbreviation blen b := (Z.of_nat (length b)).

Definition attribute_decode {S} `{Read S} : decoder S StonePayloadAttributeRecord :=
  key_length ← io read_u64;
  value_length ← io read_u64;
  variable_length ← rd_lift (ok_or (checked_add 64 key_length value_length)
    (PayloadDecodeError.LengthOverflow (bstr "attribute key and value")));
  ensure_additional (bstr "attribute key and value") variable_length;;
  key ← read_sized_vec (bstr "attribute key") key_length;
  value ← read_sized_vec (bstr "attribute value") value_length;
  mret {| attr_key := key; attr_value := value |}.

Definition attribute_encode (r : StonePayloadAttributeRecord) : list bytes :=
  [be_bytes 8 (blen (attr_key r)); be_bytes 8 (blen (attr_value r)); attr_key r; attr_value r].

Definition attribute_size (r : StonePayloadAttributeRecord) : Z :=
  8 + 8 + blen (attr_key r) + blen (attr_value r).

#[global] Instance attribute_record : Record StonePayloadAttributeRecord := {
  record_decode := @attribute_decode;
  record_encode := attribute_encode;
  record_size := attribute_size;
}.

Definition attribute_wf (r : StonePayloadAttributeRecord) : Prop :=
  in_u64 (blen (attr_key r) + blen (attr_value r)).

(** ** Layout records *)

Module LayoutFileType.
Inductive t :=
  | Regular | Symlink | Directory | CharacterDevice | BlockDevice | Fifo | Socket | Unknown.
Definition as_u8 (x : t) : Z :=
  match x with
  | Regular => 1 | Symlink => 2 | Directory => 3 | CharacterDevice => 4
  | BlockDevice => 5 | Fifo => 6 | Socket => 7 | Unknown => 255
  end.
Definition of_u8 (z : Z) : t :=
  match z with
  | 1 => Regular | 2 => Symlink | 3 => Directory | 4 => CharacterDevice
  | 5 => BlockDevice | 6 => Fifo | 7 => Socket | _ => Unknown
  end%Z.
End LayoutFileType.

Module LayoutFile.
Inductive t :=
  | Regular (hash : Z) (target : bytes)
  | Symlink (source target : bytes)
  | Directory (target : bytes)
  | CharacterDevice (target : bytes)
  | BlockDevice (target : bytes)
  | Fifo (target : bytes)
  | Socket (target : bytes)
  | Unknown (source target : bytes).
#[global] Instance eq_dec : EqDecision t.
Proof. solve_decision. Defined.

Definition source (f : t) : bytes :=
  match f with
  | Regular hash _ => be_bytes 16 hash
  | Symlink source _ => source
  | Directory _ => []
  | CharacterDevice _ => []
  | BlockDevice _ => []
  | Fifo _ => []
  | Socket _ => []
  | Unknown source _ => source
  end.

Definition target (f : t) : bytes :=
  match f with
  | Regular _ target | Symlink _ target | Directory target | CharacterDevice target
  | BlockDevice target | Fifo target | Socket target | Unknown _ target => target
  end.

Definition file_type (f : t) : LayoutFileType.t :=
  match f with
  | Regular _ _ => LayoutFileType.Regular
  | Symlink _ _ => LayoutFileType.Symlink
  | Directory _ => LayoutFileType.Directory
  | CharacterDevice _ => LayoutFileType.CharacterDevice
  | BlockDevice _ => LayoutFileType.BlockDevice
  | Fifo _ => LayoutFileType.Fifo
  | Socket _ => LayoutFileType.Socket
  | Unknown _ _ => LayoutFileType.Unknown
  end.
End LayoutFile.

Record StonePayloadLayoutRecord := {
  lay_uid : Z;
  lay_gid : Z;
  lay_mode : Z;
  lay_tag : Z;
  lay_file : LayoutFile.t;
}.
#[global] Instance layout_eq_dec : EqDecision StonePayloadLayoutRecord.
Proof. solve_decision. Defined.

Definition require_empty_source (source_length : Z) (file_type : LayoutFileType.t)
    : result PayloadDecodeError.t unit :=
  if (source_length =? 0)%Z then Ok tt
  else Err (PayloadDecodeError.InvalidLength
    (match file_type with
     | LayoutFileType.Directory => bstr "directory layout source"
     | LayoutFileType.CharacterDevice => bstr "character-device layout source"
     | LayoutFileType.BlockDevice => bstr "block-device layout source"
     | LayoutFileType.Fifo => bstr "FIFO layout source"
     | LayoutFileType.Socket => bstr "socket layout source"
     | _ => bstr "layout source"
     end) 0 source_length).

(** [sanitize(&reader.read_sized_string(..)?).into()] *)
Definition read_sanitized {S} `{Read S} (field : bytes) (length : Z) : decoder S bytes :=
  s ← read_sized_string field length;
  mret (trim_end_nul s).

Definition layout_entry {S} `{Read S} (file_type : LayoutFileType.t) (source_length target_length : Z)
    : decoder S LayoutFile.t :=
  match file_type with
  | LayoutFileType.Regular =>
      rd_lift (reject (PayloadDecodeError.InvalidLength (bstr "regular layout digest") 16 source_length)
        when (negb (source_length =? 16)%Z));;
      source ← read_sized_vec (bstr "regular layout digest") source_length;
      rd_lift (reject (PayloadDecodeError.InvalidLength (bstr "regular layout digest") 16 (blen source))
        when (negb (blen source =? 16)%Z));;
      target ← read_sanitized (bstr "layout target") target_length;
      mret (LayoutFile.Regular (be_value source) target)
  | LayoutFileType.Symlink =>
      source ← read_sanitized (bstr "symlink source") source_length;
      target ← read_sanitized (bstr "layout target") target_length;
      mret (LayoutFile.Symlink source target)
  | LayoutFileType.Directory =>
      rd_lift (require_empty_source source_length file_type);;
      target ← read_sanitized (bstr "layout target") target_length;
      mret (LayoutFile.Directory target)
  | LayoutFileType.CharacterDevice =>
      rd_lift (require_empty_source source_length file_type);;
      target ← read_sanitized (bstr "layout target") target_length;
      mret (LayoutFile.CharacterDevice target)
  | LayoutFileType.BlockDevice =>
      rd_lift (require_empty_source source_length file_type);;
      target ← read_sanitized (bstr "layout target") target_length;
      mret (LayoutFile.BlockDevice target)
  | LayoutFileType.Fifo =>
      rd_lift (require_empty_source source_length file_type);;
      target ← read_sanitized (bstr "layout target") target_length;
      mret (LayoutFile.Fifo target)
  | LayoutFileType.Socket =>
      rd_lift (require_empty_source source_length file_type);;
      target ← read_sanitized (bstr "layout target") target_length;
      mret (LayoutFile.Socket target)
  | LayoutFileType.Unknown =>
      source ← read_sanitized (bstr "unknown layout source") source_length;
      target ← read_sanitized (bstr "layout target") target_length;
      mret (LayoutFile.Unknown source target)
  end.

Definition layout_decode {S} `{Read S} : decoder S StonePayloadLayoutRecord :=
  uid ← io read_u32;
  gid ← io read_u32;
  mode ← io read_u32;
  tag ← io read_u32;
  source_length ← io read_u16;
  target_length ← io read_u16;
  type_byte ← io read_u8;
  let file_type := LayoutFileType.of_u8 type_byte in
  _ ← io (read_array 11);
  variable_length ← rd_lift (ok_or (checked_add 64 source_length target_length)
    (PayloadDecodeError.LengthOverflow (bstr "layout source and target")));
  ensure_additional (bstr "layout source and target") variable_length;;
  entry ← layout_entry file_type source_length target_length;
  mret {| lay_uid := uid; lay_gid := gid; lay_mode := mode; lay_tag := tag; lay_file := entry |}.

Definition layout_encode (r : StonePayloadLayoutRecord) : list bytes :=
  let source := LayoutFile.source (lay_file r) in
  let target := LayoutFile.target (lay_file r) in
  [be_bytes 4 (lay_uid r); be_bytes 4 (lay_gid r); be_bytes 4 (lay_mode r); be_bytes 4 (lay_tag r);
   be_bytes 2 (wrap 16 (blen source)); be_bytes 2 (wrap 16 (blen target));
   be_bytes 1 (LayoutFileType.as_u8 (LayoutFile.file_type (lay_file r)));
   repeat x00 11; source; target].

Definition layout_size (r : StonePayloadLayoutRecord) : Z :=
  4 + 4 + 4 + 4 + 2 + 2 + 1 + 11 + blen (LayoutFile.source (lay_file r))
  + blen (LayoutFile.target (lay_file r)).

#[global] Instance layout_record : Record StonePayloadLayoutRecord := {
  record_decode := @layout_decode;
  record_encode := layout_encode;
  record_size := layout_size;
}.

(** A string that [trim_end_matches] leaves alone. *)
Definition text (s : bytes) : Prop := utf8_valid s = true /\ trim_end_nul s = s.

Definition layout_file_wf (f : LayoutFile.t) : Prop :=
  text (LayoutFile.target f) /\ in_u16 (blen (LayoutFile.target f))
  /\ in_u16 (blen (LayoutFile.source f))
  /\ match f with
     | LayoutFile.Regular hash _ => in_u128 hash
     | LayoutFile.Symlink source _ | LayoutFile.Unknown source _ => text source
     | _ => True
     end.

Definition layout_wf (r : StonePayloadLayoutRecord) : Prop :=
  in_u32 (lay_uid r) /\ in_u32 (lay_gid r) /\ in_u32 (lay_mode r) /\ in_u32 (lay_tag r)
  /\ layout_file_wf (lay_file r).

(** ** Metadata records *)

Module MetaDependency.
Inductive t :=
  | PackageName | SharedLibrary | PkgConfig | Interpreter | CMake | Python | Binary
  | SystemBinary | PkgConfig32 | Unknown.
#[global] Instance eq_dec : EqDecision t.
Proof. solve_decision. Defined.
Definition as_u8 (d : t) : Z :=
  match d with
  | PackageName => 0 | SharedLibrary => 1 | PkgConfig => 2 | Interpreter => 3 | CMake => 4
  | Python => 5 | Binary => 6 | SystemBinary => 7 | PkgConfig32 => 8 | Unknown => 255
  end.
End MetaDependency.

Module MetaPrimitive.
Inductive t :=
  | Int8 (i : Z) | Uint8 (i : Z) | Int16 (i : Z) | Uint16 (i : Z)
  | Int32 (i : Z) | Uint32 (i : Z) | Int64 (i : Z) | Uint64 (i : Z)
  | String (s : bytes)
  | Dependency (kind : MetaDependency.t) (s : bytes)
  | Provider (kind : MetaDependency.t) (s : bytes)
  | Unknown (data : bytes).
#[global] Instance eq_dec : EqDecision t.
Proof. solve_decision. Defined.

Definition size (p : t) : Z :=
  match p with
  | Int8 _ => 1 | Uint8 _ => 1 | Int16 _ => 2 | Uint16 _ => 2
  | Int32 _ => 4 | Uint32 _ => 4 | Int64 _ => 8 | Uint64 _ => 8
  | String s => blen s + 1
  | Dependency _ s => blen s + 2
  | Provider _ s => blen s + 2
  | Unknown data => blen data
  end.

Definition kind (p : t) : Z :=
  match p with
  | Int8 _ => 1 | Uint8 _ => 2 | Int16 _ => 3 | Uint16 _ => 4
  | Int32 _ => 5 | Uint32 _ => 6 | Int64 _ => 7 | Uint64 _ => 8
  | String _ => 9 | Dependency _ _ => 10 | Provider _ _ => 11 | Unknown _ => 255
  end.
End MetaPrimitive.

Module MetaTag.
Inductive t :=
  | Name | Architecture | Version | Summary | Description | Homepage | SourceID | Depends
  | Provides | Conflicts | Release | License | BuildRelease | PackageURI | PackageHash
  | PackageSize | BuildDepends | SourceURI | SourcePath | SourceRef | Unknown.
#[global] Instance eq_dec : EqDecision t.
Proof. solve_decision. Defined.

Definition as_u16 (x : t) : Z :=
  match x with
  | Name => 1 | Architecture => 2 | Version => 3 | Summary => 4 | Description => 5
  | Homepage => 6 | SourceID => 7 | Depends => 8 | Provides => 9 | Conflicts => 10
  | Release => 11 | License => 12 | BuildRelease => 13 | PackageURI => 14 | PackageHash => 15
  | PackageSize => 16 | BuildDepends => 17 | SourceURI => 18 | SourcePath => 19
  | SourceRef => 20 | Unknown => 65535
  end.

Definition of_u16 (z : Z) : t :=
  match z with
  | 1 => Name | 2 => Architecture | 3 => Version | 4 => Summary | 5 => Description
  | 6 => Homepage | 7 => SourceID | 8 => Depends | 9 => Provides | 10 => Conflicts
  | 11 => Release | 12 => License | 13 => BuildRelease | 14 => PackageURI | 15 => PackageHash
  | 16 => PackageSize | 17 => BuildDepends | 18 => SourceURI | 19 => SourcePath
  | 20 => SourceRef | _ => Unknown
  end%Z.
End MetaTag.

Record StonePayloadMetaRecord := {
  meta_tag : MetaTag.t;
  meta_primitive : MetaPrimitive.t;
}.
#[global] Instance meta_eq_dec : EqDecision StonePayloadMetaRecord.
Proof. solve_decision. Defined.

Definition decode_dependency (i : Z) : MetaDependency.t :=
  match i with
  | 0 => MetaDependency.PackageName | 1 => MetaDependency.SharedLibrary
  | 2 => MetaDependency.PkgConfig | 3 => MetaDependency.Interpreter
  | 4 => MetaDependency.CMake | 5 => MetaDependency.Python | 6 => MetaDependency.Binary
  | 7 => MetaDependency.SystemBinary | 8 => MetaDependency.PkgConfig32
  | _ => MetaDependency.Unknown
  end%Z.

Definition require_length (length expected : Z) : result PayloadDecodeError.t unit :=
  if (length =? expected)%Z then Ok tt
  else Err (PayloadDecodeError.InvalidLength (bstr "metadata primitive") expected length).

Definition meta_dependency {S} `{Read S} (kind length : Z) : decoder S MetaPrimitive.t :=
  rd_lift (reject (PayloadDecodeError.LengthTooSmall (bstr "metadata dependency/provider") 1 0)
    when (length =? 0)%Z);;
  i ← io read_u8;
  let dependency := decode_dependency i in
  value ← read_sanitized (bstr "metadata dependency/provider string") (length - 1);
  mret (if (kind =? 10)%Z then MetaPrimitive.Dependency dependency value
        else MetaPrimitive.Provider dependency value).

Definition meta_primitive_decode {S} `{Read S} (kind length : Z) : decoder S MetaPrimitive.t :=
  match kind with
  | 1 => rd_lift (require_length length 1);; i ← io read_u8; mret (MetaPrimitive.Int8 (to_signed 8 i))
  | 2 => rd_lift (require_length length 1);; i ← io read_u8; mret (MetaPrimitive.Uint8 i)
  | 3 => rd_lift (require_length length 2);; i ← io read_u16; mret (MetaPrimitive.Int16 (to_signed 16 i))
  | 4 => rd_lift (require_length length 2);; i ← io read_u16; mret (MetaPrimitive.Uint16 i)
  | 5 => rd_lift (require_length length 4);; i ← io read_u32; mret (MetaPrimitive.Int32 (to_signed 32 i))
  | 6 => rd_lift (require_length length 4);; i ← io read_u32; mret (MetaPrimitive.Uint32 i)
  | 7 => rd_lift (require_length length 8);; i ← io read_u64; mret (MetaPrimitive.Int64 (to_signed 64 i))
  | 8 => rd_lift (require_length length 8);; i ← io read_u64; mret (MetaPrimitive.Uint64 i)
  | 9 => s ← read_sanitized (bstr "metadata string") length; mret (MetaPrimitive.String s)
  | 10 | 11 => meta_dependency kind length
  | _ =>
      data ← read_sized_vec (bstr "unknown metadata primitive") length;
      mret (MetaPrimitive.Unknown data)
  end%Z.

Definition meta_decode {S} `{Read S} : decoder S StonePayloadMetaRecord :=
  length ← io read_u32;
  tag ← io read_u16;
  kind ← io read_u8;
  _ ← io (read_array 1);
  ensure_additional (bstr "metadata primitive") length;;
  primitive ← meta_primitive_decode kind length;
  mret {| meta_tag := MetaTag.of_u16 tag; meta_primitive := primitive |}.

Definition meta_primitive_encode (p : MetaPrimitive.t) : list bytes :=
  match p with
  | MetaPrimitive.Int8 i => [be_bytes 1 (wrap 8 i)]
  | MetaPrimitive.Uint8 i => [be_bytes 1 i]
  | MetaPrimitive.Int16 i => [be_bytes 2 (wrap 16 i)]
  | MetaPrimitive.Uint16 i => [be_bytes 2 i]
  | MetaPrimitive.Int32 i => [be_bytes 4 (wrap 32 i)]
  | MetaPrimitive.Uint32 i => [be_bytes 4 i]
  | MetaPrimitive.Int64 i => [be_bytes 8 (wrap 64 i)]
  | MetaPrimitive.Uint64 i => [be_bytes 8 i]
  | MetaPrimitive.String s => [s; [x00]]
  | MetaPrimitive.Dependency dep s | MetaPrimitive.Provider dep s =>
      [be_bytes 1 (MetaDependency.as_u8 dep); s; [x00]]
  | MetaPrimitive.Unknown data => [data]
  end.

Definition meta_encode (r : StonePayloadMetaRecord) : list bytes :=
  [be_bytes 4 (wrap 32 (MetaPrimitive.size (meta_primitive r)));
   be_bytes 2 (MetaTag.as_u16 (meta_tag r));
   be_bytes 1 (MetaPrimitive.kind (meta_primitive r)); [x00]]
  ++ meta_primitive_encode (meta_primitive r).

Definition meta_size (r : StonePayloadMetaRecord) : Z :=
  4 + 2 + 1 + 1 + MetaPrimitive.size (meta_primitive r).

#[global] Instance meta_record : Record StonePayloadMetaRecord := {
  record_decode := @meta_decode;
  record_encode := meta_encode;
  record_size := meta_size;
}.

Definition in_signed (w z : Z) : Prop := (- 2 ^ (w - 1) <= z < 2 ^ (w - 1))%Z.

Definition meta_wf (r : StonePayloadMetaRecord) : Prop :=
  in_u32 (MetaPrimitive.size (meta_primitive r)) /\
  match meta_primitive r with
  | MetaPrimitive.Int8 i => in_signed 8 i
  | MetaPrimitive.Uint8 i => in_u8 i
  | MetaPrimitive.Int16 i => in_signed 16 i
  | MetaPrimitive.Uint16 i => in_u16 i
  | MetaPrimitive.Int32 i => in_signed 32 i
  | MetaPrimitive.Uint32 i => in_u32 i
  | MetaPrimitive.Int64 i => in_signed 64 i
  | MetaPrimitive.Uint64 i => in_u64 i
  | MetaPrimitive.String s | MetaPrimitive.Dependency _ s | MetaPrimitive.Provider _ s => text s
  | MetaPrimitive.Unknown _ => True
  end.

(** ** The laws *)

Lemma trim_end_nul_app s : trim_end_nul s = s -> trim_end_nul (s ++ [x00]) = s.
Proof.
  assert (trim_end_nul (s ++ [x00]) = trim_end_nul s) as ->; [|done].
  induction s as [|b s IH]; [done|]. cbn. by rewrite IH.
Qed.

(** Solves the range conditions of fixed-width fields. *)
Ltac width := unfold in_width, in_signed in *; change (8 * Z.of_nat 1)%Z with 8%Z;
  change (8 * Z.of_nat 2)%Z with 16%Z; change (8 * Z.of_nat 4)%Z with 32%Z;
  change (8 * Z.of_nat 8)%Z with 64%Z; change (8 * Z.of_nat 16)%Z with 128%Z; lia.

(** One field of a record. *)
Ltac field :=
  first [ eapply yields_bind; [apply yields_map_err, yields_be; width|]
        | eapply yields_bind; [apply yields_map_err, yields_array; reflexivity|] ].

Section laws.
Context {S : Type} `{ReadLaws S}.

Lemma yields_pure {A B} (x : result PayloadDecodeError.t A) a (k : A -> decoder S B) input b :
  x = Ok a -> yields (k a) input b -> yields (rd_lift x ≫= k) input b.
Proof. intros Hx Hk. change input with ([] ++ input). eapply yields_bind; [by apply yields_lift|done]. Qed.

Lemma yields_last {A B} (p : decoder S A) (f : A -> B) input a :
  yields p input a -> yields (p ≫= fun x => mret (f x)) input (f a).
Proof.
  intros Hp. rewrite <- (app_nil_r input). eapply yields_bind; [exact Hp|apply yields_ret].
Qed.

Lemma yields_sanitized field length s :
  length = blen s -> text s -> yields (S := S) (read_sanitized field length) s s.
Proof.
  intros Hl [Hu Ht]. rewrite <- Ht at 2. apply (yields_last _ trim_end_nul). by apply yields_sized_string.
Qed.

Lemma yields_sanitized_nul field length s :
  length = (blen s + 1)%Z -> text s -> yields (S := S) (read_sanitized field length) (s ++ [x00]) s.
Proof.
  intros Hl [Hu Ht]. rewrite <- (trim_end_nul_app s Ht) at 2. apply (yields_last _ trim_end_nul).
  apply yields_sized_string; [rewrite length_app; cbn; lia|]. by rewrite utf8_valid_app_iff.
Qed.

Lemma index_yields r : index_wf r -> yields (S := S) index_decode (concat (index_encode r)) r.
Proof.
  intros (Hs & He & Hd). unfold index_decode, index_encode. cbn [concat].
  do 3 field. destruct r. apply yields_ret.
Qed.

Lemma attribute_yields r : attribute_wf r -> yields (S := S) attribute_decode (concat (attribute_encode r)) r.
Proof.
  intros Hwf. unfold attribute_wf in Hwf. unfold attribute_decode, attribute_encode. cbn [concat].
  do 2 field. eapply yields_pure; [apply ok_or_ok_iff, checked_add_Some; split; [done|width]|].
  apply yields_ensure; [rewrite !length_app; lia|].
  do 2 (eapply yields_bind; [by apply yields_sized_vec|]). destruct r. apply yields_ret.
Qed.

Lemma layout_entry_yields f :
  layout_file_wf f ->
  yields (S := S) (layout_entry (LayoutFile.file_type f) (blen (LayoutFile.source f)) (blen (LayoutFile.target f)))
    (LayoutFile.source f ++ LayoutFile.target f) f.
Proof.
  intros (Ht & Hlt & Hls & Hf). destruct f; cbn [LayoutFile.file_type LayoutFile.source LayoutFile.target layout_entry app length] in *.
  - rewrite length_be_bytes. eapply yields_pure; [done|].
    eapply yields_bind; [apply yields_sized_vec; by rewrite length_be_bytes|].
    eapply yields_pure; [by rewrite length_be_bytes|].
    rewrite be_round_trip by width. by apply yields_last, yields_sanitized.
  - eapply yields_bind; [by apply yields_sanitized|]. by apply yields_last, yields_sanitized.
  - eapply yields_pure; [done|]. by apply yields_last, yields_sanitized.
  - eapply yields_pure; [done|]. by apply yields_last, yields_sanitized.
  - eapply yields_pure; [done|]. by apply yields_last, yields_sanitized.
  - eapply yields_pure; [done|]. by apply yields_last, yields_sanitized.
  - eapply yields_pure; [done|]. by apply yields_last, yields_sanitized.
  - eapply yields_bind; [by apply yields_sanitized|]. by apply yields_last, yields_sanitized.
Qed.

Lemma file_type_round_trip t : LayoutFileType.of_u8 (LayoutFileType.as_u8 t) = t.
Proof. by destruct t. Qed.

Lemma layout_yields r : layout_wf r -> yields (S := S) layout_decode (concat (layout_encode r)) r.
Proof.
  intros (Hu & Hg & Hm & Ht & Hf). pose proof Hf as (_ & Hlt & Hls & _).
  unfold layout_decode, layout_encode. cbn [concat]. rewrite app_nil_r, !wrap_small by done.
  assert (in_u8 (LayoutFileType.as_u8 (LayoutFile.file_type (lay_file r)))) by (destruct (lay_file r); done).
  do 8 field. rewrite file_type_round_trip.
  eapply yields_pure; [apply ok_or_ok_iff, checked_add_Some; split; [done|width]|].
  apply yields_ensure; [rewrite length_app; lia|].
  destruct r as [uid gid mode tag f]. cbn [lay_uid lay_gid lay_mode lay_tag lay_file] in *.
  by apply (yields_last _ (fun x => {| lay_file := x |})), layout_entry_yields.
Qed.

Lemma meta_tag_round_trip t : MetaTag.of_u16 (MetaTag.as_u16 t) = t.
Proof. by destruct t. Qed.

Lemma dependency_round_trip d : decode_dependency (MetaDependency.as_u8 d) = d.
Proof. by destruct d. Qed.

(** An integer primitive, unsigned and signed. *)
Lemma yields_int n z (f : Z -> MetaPrimitive.t) :
  in_width (8 * Z.of_nat n) z ->
  yields (S := S) (i ← io (b ← read_array n; mret (be_value b)); mret (f i)) (be_bytes n z) (f z).
Proof. intros Hz. by apply yields_last, yields_map_err, yields_be. Qed.

Lemma yields_signed n z (f : Z -> MetaPrimitive.t) w :
  w = (8 * Z.of_nat n)%Z -> (0 < w)%Z -> in_signed w z ->
  yields (S := S) (i ← io (b ← read_array n; mret (be_value b)); mret (f (to_signed w i)))
    (be_bytes n (wrap w z)) (f z).
Proof.
  intros -> Hw Hz. rewrite <- (to_signed_wrap _ z Hw Hz) at 2.
  apply (yields_int n _ (fun i => f (to_signed _ i))). apply wrap_bound. lia.
Qed.

Lemma meta_dependency_yields kind d s :
  (blen s + 2 < 2 ^ 32)%Z -> text s ->
  yields (S := S) (meta_dependency kind (blen s + 2)) (be_bytes 1 (MetaDependency.as_u8 d) ++ s ++ [x00])
    (if (kind =? 10)%Z then MetaPrimitive.Dependency d s else MetaPrimitive.Provider d s).
Proof.
  intros Hlen Ht. unfold meta_dependency.
  eapply yields_pure; [by rewrite (proj2 (Z.eqb_neq _ _)) by lia|].
  assert (in_u8 (MetaDependency.as_u8 d)) by (destruct d; done). field. rewrite dependency_round_trip.
  apply (yields_last _ (fun v => if (kind =? 10)%Z then _ else _)). by apply yields_sanitized_nul; [lia|].
Qed.

Lemma meta_primitive_yields r :
  meta_wf r ->
  yields (S := S)
    (meta_primitive_decode (MetaPrimitive.kind (meta_primitive r)) (MetaPrimitive.size (meta_primitive r)))
    (concat (meta_primitive_encode (meta_primitive r))) (meta_primitive r).
Proof.
  intros [Hsize Hwf]. destruct (meta_primitive r) as [i|i|i|i|i|i|i|i|s|d s|d s|data];
    cbn [MetaPrimitive.kind MetaPrimitive.size meta_primitive_encode meta_primitive_decode concat] in *;
    rewrite ?app_nil_r.
  1-8: eapply yields_pure; [done|].
  - by apply (yields_signed 1).
  - by apply (yields_int 1).
  - by apply (yields_signed 2).
  - by apply (yields_int 2).
  - by apply (yields_signed 4).
  - by apply (yields_int 4).
  - by apply (yields_signed 8).
  - by apply (yields_int 8).
  - apply yields_last. by apply yields_sanitized_nul.
  - apply (meta_dependency_yields 10); [width|done].
  - apply (meta_dependency_yields 11); [width|done].
  - apply yields_last. by apply yields_sized_vec.
Qed.

Lemma meta_primitive_length p : MetaPrimitive.size p = blen (concat (meta_primitive_encode p)).
Proof.
  destruct p; cbn [MetaPrimitive.size meta_primitive_encode concat];
    rewrite ?app_nil_r, ?length_app, ?length_be_bytes; cbn; lia.
Qed.

Lemma meta_yields r : meta_wf r -> yields (S := S) meta_decode (concat (meta_encode r)) r.
Proof.
  intros Hwf. pose proof Hwf as [Hsize _]. unfold meta_decode, meta_encode.
  rewrite concat_app. cbn [concat]. rewrite app_nil_r, <- !app_assoc, wrap_small by done.
  assert (in_u16 (MetaTag.as_u16 (meta_tag r))) by (destruct (meta_tag r); done).
  assert (in_u8 (MetaPrimitive.kind (meta_primitive r))) by (destruct (meta_primitive r); done).
  do 4 field. apply yields_ensure; [rewrite <- meta_primitive_length; destruct Hsize; lia|].
  rewrite meta_tag_round_trip. pose proof (meta_primitive_yields r Hwf) as Hp.
  destruct r as [tag p]. cbn [meta_tag meta_primitive] in *.
  by apply (yields_last _ (fun x => {| meta_primitive := x |})).
Qed.
End laws.

#[global] Instance index_laws : RecordLaws StonePayloadIndexRecord index_wf.
Proof.
  split; [|intros r Hr S ???; by apply index_yields]. intros r.
  cbn [record_size record_encode index_record]. unfold index_encode. cbn [concat].
  by rewrite !length_app, !length_be_bytes.
Qed.

#[global] Instance attribute_laws : RecordLaws StonePayloadAttributeRecord attribute_wf.
Proof.
  split; [|intros r Hr S ???; by apply attribute_yields]. intros r.
  cbn [record_size record_encode attribute_record]. unfold attribute_size, attribute_encode. cbn [concat].
  rewrite !length_app, !length_be_bytes. cbn. lia.
Qed.

#[global] Instance layout_laws : RecordLaws StonePayloadLayoutRecord layout_wf.
Proof.
  split; [|intros r Hr S ???; by apply layout_yields]. intros r.
  cbn [record_size record_encode layout_record]. unfold layout_size, layout_encode. cbn [concat].
  rewrite !length_app, !length_be_bytes. cbn. lia.
Qed.

#[global] Instance meta_laws : RecordLaws StonePayloadMetaRecord meta_wf.
Proof.
  split; [|intros r Hr S ???; by apply meta_yields]. intros r.
  cbn [record_size record_encode meta_record]. unfold meta_size, meta_encode.
  rewrite concat_app. cbn [concat]. rewrite !length_app, !length_be_bytes, (meta_primitive_length (meta_primitive r)). cbn. lia.
Qed.
