(* ===== verification/StoneHeader.v ===== *)
(** * Stone headers

    [crates/stone/src/header/{mod,v1}.rs] and [StonePayloadHeader] of
    [crates/stone/src/payload/mod.rs]: the 32-byte archive header and the 32-byte
    payload headers, with their decoders on any reader. *)

From S2P Require Import Prelude StoneWire.

(** ** The version-1 header *)

Definition INTEGRITY_CHECK : bytes :=
  map Z_byte [0; 0; 1; 0; 0; 2; 0; 0; 3; 0; 0; 4; 0; 0; 5; 0; 0; 6; 0; 0; 7]%Z.

Module HeaderFileType.
Inductive t := Binary | Delta | Repository | BuildManifest | Unknown.
#[global] Instance eq_dec : EqDecision t.
Proof. solve_decision. Defined.
Definition as_u8 (x : t) : Z :=
  match x with Binary => 1 | Delta => 2 | Repository => 3 | BuildManifest => 4 | Unknown => 255 end.
Definition of_u8 (z : Z) : t :=
  match z with 1 => Binary | 2 => Delta | 3 => Repository | 4 => BuildManifest | _ => Unknown end%Z.
End HeaderFileType.

Record StoneHeaderV1 := {
  num_payloads : Z;
  file_type : HeaderFileType.t;
}.
#[global] Instance header_eq_dec : EqDecision StoneHeaderV1.
Proof. solve_decision. Defined.

(** [None] is [StoneHeaderV1DecodeError::Corrupt]. *)
Definition v1_decode (b : bytes) : option StoneHeaderV1 :=
  let '(num_payloads, rest) := (take 2 b, drop 2 b) in
  let '(integrity_check, file_type) := (take 21 rest, drop 21 rest) in
  if bool_decide (integrity_check = INTEGRITY_CHECK) then
    Some {| num_payloads := be_value num_payloads;
            file_type := HeaderFileType.of_u8 (byte_Z (default x00 (head file_type))) |}
  else None.

Definition v1_encode (h : StoneHeaderV1) : bytes :=
  be_bytes 2 (num_payloads h) ++ INTEGRITY_CHECK ++ [Z_byte (HeaderFileType.as_u8 (file_type h))].

(** ** The archive header *)

Definition STONE_HEADER_MAGIC : bytes := x00 :: bstr "mos".
Definition HEADER_SIZE : Z := 32.

Module HeaderDecodeError.
Inductive t := NotEnoughBytes | InvalidMagic | UnknownVersion (v : Z) | Corrupt | Io (source : io_error).
#[global] Instance eq_dec : EqDecision t.
Proof. solve_decision. Defined.
Definition from_io (e : io_error) : t :=
  match e with UnexpectedEof => NotEnoughBytes | _ => Io e end.
End HeaderDecodeError.

(** [StoneAgnosticHeader]: its [decode] and [encode] *)
Definition agnostic_decode {S} `{Read S} : rd S io_error (bytes * bytes * bytes) :=
  magic ← read_array 4;
  data ← read_array 24;
  version ← read_array 4;
  mret (magic, data, version).

Definition agnostic_encode (magic data version : bytes) : list bytes := [magic; data; version].

Definition header_encode (h : StoneHeaderV1) : list bytes :=
  agnostic_encode STONE_HEADER_MAGIC (v1_encode h) (be_bytes 4 1).

Definition header_decode {S} `{Read S} : rd S HeaderDecodeError.t StoneHeaderV1 :=
  header ← rd_map_err HeaderDecodeError.from_io agnostic_decode;
  let '(magic, data, version) := header in
  rd_lift (reject HeaderDecodeError.InvalidMagic when (negb (bool_decide (STONE_HEADER_MAGIC = magic))));;
  let v := be_value version in
  rd_lift (reject (HeaderDecodeError.UnknownVersion v) when (negb (v =? 1)%Z));;
  rd_lift (ok_or (v1_decode data) HeaderDecodeError.Corrupt).

(** ** Payload headers *)

Module PayloadKind.
Inductive t := Meta | Content | Layout | Index | Attributes | Unknown.
#[global] Instance eq_dec : EqDecision t.
Proof. solve_decision. Defined.
Definition as_u8 (x : t) : Z :=
  match x with Meta => 1 | Content => 2 | Layout => 3 | Index => 4 | Attributes => 5 | Unknown => 255 end.
Definition of_u8 (z : Z) : t :=
  match z with 1 => Meta | 2 => Content | 3 => Layout | 4 => Index | 5 => Attributes | _ => Unknown end%Z.
End PayloadKind.

Module Compression.
Inductive t := None | Zstd | Unknown.
#[global] Instance eq_dec : EqDecision t.
Proof. solve_decision. Defined.
Definition as_u8 (x : t) : Z := match x with None => 1 | Zstd => 2 | Unknown => 255 end.
Definition of_u8 (z : Z) : t := match z with 1 => None | 2 => Zstd | _ => Unknown end%Z.
End Compression.

Record StonePayloadHeader := {
  stored_size : Z;
  plain_size : Z;
  checksum : bytes;
  num_records : Z;
  version : Z;
  kind : PayloadKind.t;
  compression : Compression.t;
}.
#[global] Instance payload_header_eq_dec : EqDecision StonePayloadHeader.
Proof. solve_decision. Defined.

Definition PAYLOAD_HEADER_SIZE : Z := 32.

(** [usize] has 64 bits: the conversion of the record count cannot fail. *)
Definition payload_header_decode {S} `{Read S} : rd S PayloadDecodeError.t StonePayloadHeader :=
  rd_map_err PayloadDecodeError.Io (
    stored ← read_u64;
    plain ← read_u64;
    sum ← read_array 8;
    records ← read_u32;
    version ← read_u16;
    k ← read_u8;
    c ← read_u8;
    mret {| stored_size := stored; plain_size := plain; checksum := sum; num_records := records;
            version := version; kind := PayloadKind.of_u8 k; compression := Compression.of_u8 c |}).

Definition payload_header_encode (h : StonePayloadHeader) : list bytes :=
  [be_bytes 8 (stored_size h); be_bytes 8 (plain_size h); checksum h;
   be_bytes 4 (wrap 32 (num_records h)); be_bytes 2 (version h);
   be_bytes 1 (PayloadKind.as_u8 (kind h)); be_bytes 1 (Compression.as_u8 (compression h))].

(** ** Reading what was written *)

Section consumes.
Context {S : Type} `{ReadLaws S}.

(** On a reader whose next bytes are [input], [p] consumes exactly them and returns
    [a]. *)
Definition consumes {E A} (p : rd S E A) (input : bytes) (a : A) : Prop :=
  forall s rest, avail s = input ++ rest -> p s = (Ok a, advance (length input) s).

Lemma consumes_ret {E A} (a : A) : consumes (mret (M := rd S E) a) [] a.
Proof. intros s rest _. by rewrite advance_0. Qed.

Lemma consumes_lift {E A} (r : result E A) a : r = Ok a -> consumes (rd_lift r) [] a.
Proof. intros -> s rest _. by rewrite advance_0. Qed.

Lemma consumes_bind {E A B} (p : rd S E A) (k : A -> rd S E B) i1 i2 a b :
  consumes p i1 a -> consumes (k a) i2 b -> consumes (p ≫= k) (i1 ++ i2) b.
Proof.
  intros Hp Hk s rest Hav. rewrite <- app_assoc in Hav. unfold mbind, rd_bind.
  rewrite (Hp s _ Hav), length_app, advance_add by (rewrite Hav, !length_app; lia).
  apply (Hk _ rest). rewrite avail_advance, Hav by (rewrite Hav, length_app; lia). by apply drop_app_exact.
Qed.

Lemma consumes_map_err {E F A} (f : E -> F) (p : rd S E A) input a :
  consumes p input a -> consumes (rd_map_err f p) input a.
Proof. intros Hp s rest Hav. unfold rd_map_err. by rewrite (Hp s rest Hav). Qed.

Lemma consumes_array n input : length input = n -> consumes (read_array n) input input.
Proof.
  intros <- s rest Hav. unfold read_array. rewrite read_exact_ok by (rewrite Hav, length_app; lia).
  by rewrite Hav, take_app_length.
Qed.

Lemma consumes_be n z :
  in_width (8 * Z.of_nat n) z -> consumes (b ← read_array n; mret (be_value b)) (be_bytes n z) z.
Proof.
  intros Hz. rewrite <- (app_nil_r (be_bytes n z)).
  eapply consumes_bind; [apply consumes_array, length_be_bytes|].
  rewrite (be_round_trip n z Hz) at 1. apply consumes_ret.
Qed.

Lemma consumes_pure {E A B} (x : result E A) a (k : A -> rd S E B) input b :
  x = Ok a -> consumes (k a) input b -> consumes (rd_lift x ≫= k) input b.
Proof. intros Hx Hk. change input with ([] ++ input). eapply consumes_bind; [by apply consumes_lift|done]. Qed.

Lemma v1_round_trip h : in_u16 (num_payloads h) -> v1_decode (v1_encode h) = Some h.
Proof.
  intros Hn. unfold v1_decode, v1_encode. rewrite take_app_exact, drop_app_exact by (by rewrite length_be_bytes).
  rewrite take_app_exact, drop_app_exact by done. rewrite bool_decide_eq_true_2 by done.
  rewrite be_round_trip by done. destruct h as [n t]. by destruct t.
Qed.

Lemma header_consumes h : in_u16 (num_payloads h) -> consumes header_decode (concat (header_encode h)) h.
Proof.
  intros Hn. unfold header_decode, header_encode, agnostic_encode. rewrite <- (app_nil_r (concat _)).
  eapply consumes_bind.
  - apply consumes_map_err. unfold agnostic_decode. cbn [concat].
    eapply consumes_bind; [by apply consumes_array|].
    eapply consumes_bind; [apply consumes_array; unfold v1_encode; by rewrite !length_app, length_be_bytes|].
    eapply consumes_bind; [by apply consumes_array|apply consumes_ret].
  - cbn beta iota zeta. eapply consumes_pure; [done|]. eapply consumes_pure; [done|].
    apply consumes_lift. by rewrite v1_round_trip.
Qed.

Definition payload_header_wf (h : StonePayloadHeader) : Prop :=
  in_u64 (stored_size h) /\ in_u64 (plain_size h) /\ length (checksum h) = 8%nat
  /\ in_u32 (num_records h) /\ in_u16 (version h).

Lemma payload_header_consumes h :
  payload_header_wf h -> consumes payload_header_decode (concat (payload_header_encode h)) h.
Proof.
  intros (Hs & Hp & Hc & Hn & Hv). unfold payload_header_decode, payload_header_encode. cbn [concat].
  rewrite wrap_small by done. apply consumes_map_err.
  assert (in_u8 (PayloadKind.as_u8 (kind h))) by (destruct (kind h); done).
  assert (in_u8 (Compression.as_u8 (compression h))) by (destruct (compression h); done).
  do 2 (eapply consumes_bind; [by apply consumes_be|]).
  eapply consumes_bind; [by apply consumes_array|].
  do 4 (eapply consumes_bind; [by apply consumes_be|]).
  destruct h as [? ? ? ? ? k c]. cbn. replace (PayloadKind.of_u8 (PayloadKind.as_u8 k)) with k by (by destruct k).
  replace (Compression.of_u8 (Compression.as_u8 c)) with c by (by destruct c). apply consumes_ret.
Qed.

Lemma payload_header_length h :
  length (checksum h) = 8%nat -> length (concat (payload_header_encode h)) = 32%nat.
Proof.
  intros Hc. unfold payload_header_encode. cbn [concat]. by rewrite !length_app, !length_be_bytes, Hc.
Qed.

Lemma header_length h : length (concat (header_encode h)) = 32%nat.
Proof.
  unfold header_encode, agnostic_encode, v1_encode. cbn [concat].
  by rewrite !length_app, !length_be_bytes.
Qed.
End consumes.
