(* ===== verification/StoneRead.v ===== *)
(** * Reading stone archives

    [crates/stone/src/read/mod.rs] and [content_reader.rs]: the resource limits, the
    admission of payload headers, the decoding of payload bodies and the payload
    iterator, for an archive in memory ([read_bytes_with_limits]).  The zstd decoder
    and the XXH3 digest are third-party code, the operations of the class [Codecs]. *)

From S2P Require Import Prelude StoneWire StoneRecords StoneHeader.

(** ** Errors *)

Module ReadError.
Inductive t :=
  | DecoderPoisoned
  | MultipleContent
  | UnknownCompression
  | UnsupportedPayloadVersion (version : Z)
  | InvalidLimits
  | InvalidLimitRelationship (resource : bytes) (per_payload total : Z)
  | LimitExceeded (resource : bytes) (limit actual : Z)
  | ArithmeticOverflow (what : bytes)
  | PayloadBodyOutOfBounds (offset stored_size archive_size : Z)
  | StoredPayloadTruncated (declared actual : Z)
  | PlainPayloadTruncated (declared actual : Z)
  | PlainPayloadTooLarge (declared : Z)
  | PlainPayloadUnconsumed (consumed declared : Z)
  | PlainPayloadSizeMismatch (stored plain : Z)
  | ImpossibleRecordDeclaration (records minimum_bytes plain_size : Z)
  | InvalidContentReference (what : bytes)
  | InvalidIndexRange (start end_ : Z)
  | IndexOutsideContent (end_ content_size : Z)
  | TrailingOrChangedArchive (payload_end initial_end current_end : Z)
  | HeaderDecode (source : HeaderDecodeError.t)
  | PayloadDecode (source : PayloadDecodeError.t)
  | PayloadChecksum (got expected : Z)
  | Io (source : io_error).
#[global] Instance eq_dec : EqDecision t.
Proof. solve_decision. Defined.
End ReadError.

Abbreviation read_result := (result ReadError.t).

(** ** Limits *)

Record StoneDecodeLimits := {
  max_payloads : Z;
  max_records_per_payload : Z;
  max_record_bytes : Z;
  max_stored_payload_bytes : Z;
  max_plain_payload_bytes : Z;
  max_total_records : Z;
  max_total_record_bytes : Z;
  max_total_stored_bytes : Z;
  max_total_plain_bytes : Z;
  max_zstd_window_log : Z;
}.

Definition MIB : Z := 1024 * 1024.
Definition GIB : Z := 1024 * MIB.

Definition default_limits : StoneDecodeLimits :=
  {| max_payloads := 1024; max_records_per_payload := 4000000; max_record_bytes := 64 * MIB;
     max_stored_payload_bytes := 8 * GIB; max_plain_payload_bytes := 32 * GIB;
     max_total_records := 8000000; max_total_record_bytes := 48 * GIB;
     max_total_stored_bytes := 16 * GIB; max_total_plain_bytes := 64 * GIB;
     max_zstd_window_log := 30 |}.

Definition limit_relationship (resource : bytes) (per_payload total : Z) : read_result unit :=
  reject (ReadError.InvalidLimitRelationship resource per_payload total) when (total <? per_payload)%Z.

Definition validate_limits (limits : StoneDecodeLimits) : read_result unit :=
  reject ReadError.InvalidLimits when
    (negb ((10 <=? max_zstd_window_log limits) && (max_zstd_window_log limits <=? 31))%Z);;
  limit_relationship (bstr "stored payload bytes") (max_stored_payload_bytes limits)
    (max_total_stored_bytes limits);;
  limit_relationship (bstr "plain payload bytes") (max_plain_payload_bytes limits)
    (max_total_plain_bytes limits);;
  limit_relationship (bstr "record bytes") (max_record_bytes limits) (max_total_record_bytes limits);;
  limit_relationship (bstr "record count") (max_records_per_payload limits) (max_total_records limits).

Definition max_archive_bytes (limits : StoneDecodeLimits) : read_result Z :=
  payload_headers ← ok_or (checked_mul 64 (max_payloads limits) PAYLOAD_HEADER_SIZE)
    (ReadError.ArithmeticOverflow (bstr "maximum payload-header bytes"));
  ok_or (bytes ← checked_add 64 HEADER_SIZE payload_headers;
         checked_add 64 bytes (max_total_stored_bytes limits))
    (ReadError.ArithmeticOverflow (bstr "maximum archive bytes")).

Definition enforce_limit (resource : bytes) (limit actual : Z) : read_result unit :=
  reject (ReadError.LimitExceeded resource limit actual) when (limit <? actual)%Z.

Definition checked_total (resource : bytes) (current additional limit : Z) : read_result Z :=
  actual ← ok_or (checked_add 64 current additional) (ReadError.ArithmeticOverflow resource);
  enforce_limit resource limit actual;;
  Ok actual.

(** ** Admission *)

Record DecodeState := {
  ds_records : Z;
  ds_record_bytes : Z;
  ds_stored_bytes : Z;
  ds_plain_bytes : Z;
  ds_content_seen : bool;
  ds_content_plain_size : option Z;
  ds_max_index_end : Z;
}.

Definition initial_state : DecodeState :=
  {| ds_records := 0; ds_record_bytes := 0; ds_stored_bytes := 0; ds_plain_bytes := 0;
     ds_content_seen := false; ds_content_plain_size := None; ds_max_index_end := 0 |}.

Definition is_record_payload (k : PayloadKind.t) : bool :=
  match k with
  | PayloadKind.Meta | PayloadKind.Layout | PayloadKind.Index | PayloadKind.Attributes => true
  | _ => false
  end.

Definition minimum_per_record (k : PayloadKind.t) : option Z :=
  match k with
  | PayloadKind.Meta => Some 8%Z
  | PayloadKind.Layout => Some 32%Z
  | PayloadKind.Index => Some 32%Z
  | PayloadKind.Attributes => Some 16%Z
  | PayloadKind.Content | PayloadKind.Unknown => None
  end.

Definition validate_minimum_record_bytes (header : StonePayloadHeader) : read_result unit :=
  match minimum_per_record (kind header) with
  | None => Ok tt
  | Some per_record =>
      minimum ← ok_or (checked_mul 64 (num_records header) per_record)
        (ReadError.ArithmeticOverflow (bstr "minimum record bytes"));
      reject (ReadError.ImpossibleRecordDeclaration (num_records header) minimum (plain_size header))
        when (plain_size header <? minimum)%Z
  end.

(** The fields of the state are updated one after the other; an error stops the
    decoder, so only the final state matters. *)
Definition admit_header (header : StonePayloadHeader) (limits : StoneDecodeLimits) (state : DecodeState)
    : read_result DecodeState :=
  reject (ReadError.UnsupportedPayloadVersion (version header)) when
    (negb (bool_decide (kind header = PayloadKind.Unknown)) && negb (version header =? 1)%Z);;
  enforce_limit (bstr "records per payload") (max_records_per_payload limits) (num_records header);;
  enforce_limit (bstr "stored payload bytes") (max_stored_payload_bytes limits) (stored_size header);;
  enforce_limit (bstr "plain payload bytes") (max_plain_payload_bytes limits) (plain_size header);;
  records ← checked_total (bstr "aggregate record count") (ds_records state) (num_records header)
    (max_total_records limits);
  stored ← checked_total (bstr "aggregate stored payload bytes") (ds_stored_bytes state)
    (stored_size header) (max_total_stored_bytes limits);
  plain ← checked_total (bstr "aggregate plain payload bytes") (ds_plain_bytes state)
    (plain_size header) (max_total_plain_bytes limits);
  record_bytes ←
    (if is_record_payload (kind header) then
       total ← checked_total (bstr "aggregate record bytes") (ds_record_bytes state)
         (plain_size header) (max_total_record_bytes limits);
       validate_minimum_record_bytes header;;
       Ok total
     else Ok (ds_record_bytes state));
  content ←
    (if bool_decide (kind header = PayloadKind.Content) then
       reject ReadError.MultipleContent when (ds_content_seen state);;
       reject (ReadError.IndexOutsideContent (ds_max_index_end state) (plain_size header)) when
         (plain_size header <? ds_max_index_end state)%Z;;
       Ok (true, Some (plain_size header))
     else Ok (ds_content_seen state, ds_content_plain_size state));
  reject (ReadError.PlainPayloadSizeMismatch (stored_size header) (plain_size header)) when
    (bool_decide (compression header = Compression.None)
     && negb (stored_size header =? plain_size header)%Z);;
  Ok {| ds_records := records; ds_record_bytes := record_bytes; ds_stored_bytes := stored;
        ds_plain_bytes := plain; ds_content_seen := content.1; ds_content_plain_size := content.2;
        ds_max_index_end := ds_max_index_end state |}.

Definition set_max_index_end (z : Z) (s : DecodeState) : DecodeState :=
  {| ds_records := ds_records s; ds_record_bytes := ds_record_bytes s;
     ds_stored_bytes := ds_stored_bytes s; ds_plain_bytes := ds_plain_bytes s;
     ds_content_seen := ds_content_seen s; ds_content_plain_size := ds_content_plain_size s;
     ds_max_index_end := z |}.

Fixpoint admit_indices (records : list StonePayloadIndexRecord) (state : DecodeState)
    : read_result DecodeState :=
  match records with
  | [] => Ok state
  | record :: records' =>
      reject (ReadError.InvalidIndexRange (ix_start record) (ix_end record)) when
        (ix_end record <? ix_start record)%Z;;
      let state := set_max_index_end (Z.max (ds_max_index_end state) (ix_end record)) state in
      (match ds_content_plain_size state with
       | Some content_size =>
           reject (ReadError.IndexOutsideContent (ix_end record) content_size) when
             (content_size <? ix_end record)%Z
       | None => Ok tt
       end);;
      admit_indices records' state
  end.

(** ** Readers *)

(** [Cursor<&[u8]>], and the plain bytes a decoder gives before it ends or fails. *)
Record Cursor := { cur_data : bytes; cur_pos : nat }.

Record Source := { src_bytes : bytes; src_end : option io_error }.

#[global] Instance Cursor_read : Read Cursor := fun n c =>
  (Ok (take n (drop (cur_pos c) (cur_data c))),
   {| cur_data := cur_data c; cur_pos := cur_pos c + Nat.min n (length (cur_data c) - cur_pos c) |}).

#[global] Instance Source_read : Read Source := fun n s =>
  match n, src_bytes s with
  | 0%nat, _ => (Ok [], s)
  | _, [] => (match src_end s with None => Ok [] | Some e => Err e end, s)
  | _, b => (Ok (take n b), {| src_bytes := drop n b; src_end := src_end s |})
  end.

Record ExactPlainReader := {
  ep_inner : Source;
  ep_declared : Z;
  ep_emitted : Z;
  ep_too_large : bool;
  ep_too_short : bool;
}.

Definition exact_plain_reader (inner : Source) (declared : Z) : ExactPlainReader :=
  {| ep_inner := inner; ep_declared := declared; ep_emitted := 0; ep_too_large := false;
     ep_too_short := false |}.

(** [emitted] never passes [declared], so its checked addition cannot overflow. *)
#[global] Instance ExactPlainReader_read : Read ExactPlainReader := fun n p =>
  match n with
  | 0%nat => (Ok [], p)
  | _ =>
      if (ep_emitted p =? ep_declared p)%Z then
        let '(got, inner) := read 1 (ep_inner p) in
        match got with
        | Ok [] => (Ok [], {| ep_inner := inner; ep_declared := ep_declared p; ep_emitted := ep_emitted p;
                              ep_too_large := ep_too_large p; ep_too_short := ep_too_short p |})
        | Ok _ => (Err InvalidData,
            {| ep_inner := inner; ep_declared := ep_declared p; ep_emitted := ep_emitted p;
               ep_too_large := true; ep_too_short := ep_too_short p |})
        | Err e => (Err e, p)
        end
      else
        let remaining := (ep_declared p - ep_emitted p)%Z in
        let allowed := Z.to_nat (Z.min remaining (Z.of_nat n)) in
        let '(got, inner) := read allowed (ep_inner p) in
        match got with
        | Ok [] => (Err UnexpectedEof,
            {| ep_inner := inner; ep_declared := ep_declared p; ep_emitted := ep_emitted p;
               ep_too_large := ep_too_large p; ep_too_short := true |})
        | Ok b => (Ok b,
            {| ep_inner := inner; ep_declared := ep_declared p;
               ep_emitted := ep_emitted p + Z.of_nat (length b);
               ep_too_large := ep_too_large p; ep_too_short := ep_too_short p |})
        | Err e => (Err e, p)
        end
  end.

Definition size_error (p : ExactPlainReader) : option ReadError.t :=
  if ep_too_large p then Some (ReadError.PlainPayloadTooLarge (ep_declared p))
  else if ep_too_short p then Some (ReadError.PlainPayloadTruncated (ep_declared p) (ep_emitted p))
  else None.

Definition finish_exact (p : ExactPlainReader) : read_result unit :=
  let consumed := ep_emitted p in
  match read 1 p with
  | (Ok [], _) => Ok tt
  | (Ok _, _) => Err (ReadError.PlainPayloadUnconsumed consumed (ep_declared p))
  | (Err e, p') => Err (default (ReadError.Io e) (size_error p'))
  end.

(** ** Payload bodies *)

(** Third-party code: the XXH3 digest of the stored bytes, and the plain bytes zstd
    decodes them to under a window limit. *)
Class Codecs := {
  xxh3 : bytes -> Z;
  xxh3_128 : bytes -> Z;
  zstd_decode : Z -> bytes -> result io_error Source;
}.

Record StonePayload (T : Type) := { payload_header : StonePayloadHeader; payload_body : T }.
Arguments payload_header {T}.
Arguments payload_body {T}.

Record StonePayloadContent := { content_offset : Z }.

Module Decoded.
Inductive t :=
  | Meta (p : StonePayload (list StonePayloadMetaRecord))
  | Attributes (p : StonePayload (list StonePayloadAttributeRecord))
  | Layout (p : StonePayload (list StonePayloadLayoutRecord))
  | Index (p : StonePayload (list StonePayloadIndexRecord))
  | Content (p : StonePayload StonePayloadContent)
  | Unknown (p : StonePayload unit)
  | UnknownCompression (p : StonePayload unit).

Definition header (d : t) : StonePayloadHeader :=
  match d with
  | Meta p => payload_header p
  | Attributes p => payload_header p
  | Layout p => payload_header p
  | Index p => payload_header p
  | Content p => payload_header p
  | Unknown p => payload_header p
  | UnknownCompression p => payload_header p
  end.
End Decoded.

Section reader.
Context {C : Codecs}.

(** The bytes [reader.take(stored_size)] gives, and the reader behind them. *)
Definition take_raw (stored : Z) (c : Cursor) : bytes * Cursor :=
  let raw := take (Z.to_nat stored) (drop (cur_pos c) (cur_data c)) in
  (raw, {| cur_data := cur_data c; cur_pos := cur_pos c + length raw |}).

(** [PayloadReader::new] over the hashed raw bytes *)
Definition payload_reader (raw : bytes) (c : Compression.t) (window : Z) : read_result Source :=
  match c with
  | Compression.None => Ok {| src_bytes := raw; src_end := None |}
  | Compression.Zstd => map_err ReadError.Io (zstd_decode window raw)
  | Compression.Unknown => Err ReadError.UnknownCompression
  end.

Definition validate_checksum_value (got : Z) (header : StonePayloadHeader) : read_result unit :=
  let expected := be_value (checksum header) in
  reject (ReadError.PayloadChecksum got expected) when (negb (got =? expected)%Z).

(** [drain_raw] reads the raw bytes to their end: the digest is that of all of them,
    and what is left of the declared size was never there. *)
Definition finish_raw (raw : bytes) (header : StonePayloadHeader) : read_result unit :=
  let actual := Z.of_nat (length raw) in
  reject (ReadError.StoredPayloadTruncated (stored_size header) actual) when
    (negb (actual =? stored_size header)%Z);;
  validate_checksum_value (xxh3 raw) header.

Definition decode_record_body {T} `{Record T} (raw : bytes) (header : StonePayloadHeader)
    (limits : StoneDecodeLimits) : read_result (list T) :=
  framed ← payload_reader raw (compression header) (max_zstd_window_log limits);
  let plain := exact_plain_reader framed (plain_size header) in
  let '(records, plain) := decode_records (Z.to_nat (num_records header)) (max_record_bytes limits) plain in
  match size_error plain with
  | Some error => Err error
  | None =>
      records ← map_err ReadError.PayloadDecode records;
      finish_exact plain;;
      finish_raw raw header;;
      Ok records
  end.

Definition read_raw_payload (raw : bytes) (header : StonePayloadHeader) : read_result unit :=
  finish_raw raw header.

Definition payload_of {T} (header : StonePayloadHeader) (body : T) : StonePayload T :=
  {| payload_header := header; payload_body := body |}.

Definition decode_body (header : StonePayloadHeader) (limits : StoneDecodeLimits) (offset : Z)
    (raw : bytes) (state : DecodeState) : read_result (Decoded.t * DecodeState) :=
  if bool_decide (compression header = Compression.Unknown) then
    read_raw_payload raw header;;
    Ok (Decoded.UnknownCompression (payload_of header tt), state)
  else
    match kind header with
    | PayloadKind.Meta =>
        body ← decode_record_body raw header limits;
        Ok (Decoded.Meta (payload_of header body), state)
    | PayloadKind.Layout =>
        body ← decode_record_body raw header limits;
        Ok (Decoded.Layout (payload_of header body), state)
    | PayloadKind.Index =>
        body ← decode_record_body raw header limits;
        state ← admit_indices body state;
        Ok (Decoded.Index (payload_of header body), state)
    | PayloadKind.Attributes =>
        body ← decode_record_body raw header limits;
        Ok (Decoded.Attributes (payload_of header body), state)
    | PayloadKind.Content =>
        read_raw_payload raw header;;
        Ok (Decoded.Content (payload_of header {| content_offset := offset |}), state)
    | PayloadKind.Unknown =>
        read_raw_payload raw header;;
        Ok (Decoded.Unknown (payload_of header tt), state)
    end.

(** [StoneDecodedPayload::decode].  After an error the iterator never reads again, so
    where the cursor stands then does not matter. *)
Definition decode_payload (limits : StoneDecodeLimits) (archive_end : Z)
    (c : Cursor) (state : DecodeState) : read_result (Decoded.t * Cursor * DecodeState) :=
  let '(header, c) := payload_header_decode c in
  header ← map_err ReadError.PayloadDecode header;
  state ← admit_header header limits state;
  let body_offset := Z.of_nat (cur_pos c) in
  body_end ← ok_or (checked_add 64 body_offset (stored_size header))
    (ReadError.ArithmeticOverflow (bstr "payload body end"));
  reject (ReadError.PayloadBodyOutOfBounds body_offset (stored_size header) archive_end) when
    (archive_end <? body_end)%Z;;
  let '(raw, c) := take_raw (stored_size header) c in
  decoded ← decode_body header limits body_offset raw state;
  Ok (decoded.1, c, decoded.2).

Definition verify_archive_end (c : Cursor) (expected_end : Z) : read_result unit :=
  let payload_end := Z.of_nat (cur_pos c) in
  let current_end := Z.of_nat (length (cur_data c)) in
  reject (ReadError.TrailingOrChangedArchive payload_end expected_end current_end) when
    (negb (payload_end =? expected_end)%Z || negb (current_end =? expected_end)%Z).

(** ** The archive reader *)

Record StoneReader := {
  sr_header : StoneHeaderV1;
  sr_data : bytes;
  sr_limits : StoneDecodeLimits;
  sr_archive_end : Z;
}.

Definition I64_MAX : Z := 2 ^ 63 - 1.

Definition read_with_limits (data : bytes) (limits : StoneDecodeLimits) : read_result StoneReader :=
  validate_limits limits;;
  let archive_end := Z.of_nat (length data) in
  max ← max_archive_bytes limits;
  enforce_limit (bstr "configured maximum archive bytes") I64_MAX max;;
  enforce_limit (bstr "archive bytes") max archive_end;;
  let '(header, c) := header_decode {| cur_data := data; cur_pos := 0 |} in
  header ← map_err ReadError.HeaderDecode header;
  enforce_limit (bstr "payload count") (max_payloads limits) (num_payloads header);;
  (if (num_payloads header =? 0)%Z then verify_archive_end c archive_end else Ok tt);;
  Ok {| sr_header := header; sr_data := data; sr_limits := limits; sr_archive_end := archive_end |}.

Record StonePayloadIterator := {
  it_cursor : Cursor;
  it_remaining : Z;
  it_state : DecodeState;
  it_failed : bool;
}.

Definition payloads (r : StoneReader) : read_result StonePayloadIterator :=
  let c := {| cur_data := sr_data r; cur_pos := Z.to_nat HEADER_SIZE |} in
  (if (num_payloads (sr_header r) =? 0)%Z then verify_archive_end c (sr_archive_end r) else Ok tt);;
  Ok {| it_cursor := c; it_remaining := num_payloads (sr_header r); it_state := initial_state;
        it_failed := false |}.

(** [StonePayloadIterator::next] *)
Definition next (r : StoneReader) (it : StonePayloadIterator)
    : option (read_result Decoded.t) * StonePayloadIterator :=
  if it_failed it || (it_remaining it =? 0)%Z then (None, it)
  else
    let remaining := (it_remaining it - 1)%Z in
    let decoded := decode_payload (sr_limits r) (sr_archive_end r) (it_cursor it) (it_state it) in
    let result :=
      decoded ← decoded;
      (if (remaining =? 0)%Z then verify_archive_end decoded.1.2 (sr_archive_end r) else Ok tt);;
      Ok decoded in
    match result with
    | Ok (payload, c, state) =>
        (Some (Ok payload),
         {| it_cursor := c; it_remaining := remaining; it_state := state; it_failed := false |})
    | Err e =>
        (Some (Err e),
         {| it_cursor := it_cursor it; it_remaining := remaining; it_state := it_state it;
            it_failed := true |})
    end.

(** [iterator.collect::<Result<Vec<_>, _>>()]: at most [it_remaining] payloads. *)
Fixpoint collect (fuel : nat) (r : StoneReader) (it : StonePayloadIterator) : read_result (list Decoded.t) :=
  match fuel with
  | 0%nat => Ok []
  | S fuel' =>
      match next r it with
      | (None, _) => Ok []
      | (Some (Err e), _) => Err e
      | (Some (Ok payload), it') => rest ← collect fuel' r it'; Ok (payload :: rest)
      end
  end.

Definition read_payloads (r : StoneReader) : read_result (list Decoded.t) :=
  it ← payloads r;
  collect (Z.to_nat (it_remaining it)) r it.

(** ** Content *)

Definition validate_content_reference (r : StoneReader) (content : StonePayload StonePayloadContent)
    : read_result unit :=
  let header := payload_header content in
  let offset := content_offset (payload_body content) in
  reject (ReadError.InvalidContentReference (bstr "payload kind is not content")) when
    (negb (bool_decide (kind header = PayloadKind.Content)));;
  reject (ReadError.UnsupportedPayloadVersion (version header)) when (negb (version header =? 1)%Z);;
  reject ReadError.UnknownCompression when (bool_decide (compression header = Compression.Unknown));;
  enforce_limit (bstr "stored payload bytes") (max_stored_payload_bytes (sr_limits r)) (stored_size header);;
  enforce_limit (bstr "plain payload bytes") (max_plain_payload_bytes (sr_limits r)) (plain_size header);;
  body_end ← ok_or (checked_add 64 offset (stored_size header))
    (ReadError.ArithmeticOverflow (bstr "content body end"));
  reject (ReadError.PayloadBodyOutOfBounds offset (stored_size header) (sr_archive_end r)) when
    ((offset <? HEADER_SIZE)%Z || (sr_archive_end r <? body_end)%Z).

(** [io::copy]: read until the reader gives no more.  Every round but the last takes a
    byte, so one round more than there are bytes is enough. *)
Fixpoint copy_rounds (fuel : nat) : rd ExactPlainReader io_error bytes :=
  match fuel with
  | 0%nat => mret []
  | S fuel' =>
      b ← read (Z.to_nat 8192);
      match b with
      | [] => mret []
      | _ => rest ← copy_rounds fuel'; mret (b ++ rest)
      end
  end.

Definition unpack_content (r : StoneReader) (content : StonePayload StonePayloadContent)
    : read_result bytes :=
  let header := payload_header content in
  validate_content_reference r content;;
  let '(raw, _) := take_raw (stored_size header)
    {| cur_data := sr_data r; cur_pos := Z.to_nat (content_offset (payload_body content)) |} in
  framed ← payload_reader raw (compression header) (max_zstd_window_log (sr_limits r));
  let plain := exact_plain_reader framed (plain_size header) in
  let '(copied, plain) := copy_rounds (S (length (src_bytes framed))) plain in
  match size_error plain with
  | Some error => Err error
  | None =>
      copied ← map_err ReadError.Io copied;
      finish_exact plain;;
      finish_raw raw header;;
      Ok copied
  end.
End reader.
