(* ===== verification/StoneWrite.v ===== *)
(** * Writing stone archives

    [crates/stone/src/write.rs] with [write/zstd.rs] and [write/digest.rs]: encoding
    record payloads through the zstd writer, appending file contents with their index,
    and the final archive.  The zstd encoder is third-party code ([Encoder]): the
    bytes it emits in a session are a function of the pledged size and of the chunks
    it was fed. *)

From S2P Require Import Prelude StoneWire StoneRecords StoneHeader StoneRead.

(** A session of the zstd context, from one reset to the next, and the size of the
    input it takes at a time ([CCtx::in_size]). *)
Class Encoder := {
  zstd_encode : option Z -> list bytes -> result io_error bytes;
  read_size : nat;
}.

(** ** The payloads to write *)

Record EncodedPayload := { enc_header : StonePayloadHeader; enc_content : bytes }.

Module InnerPayload.
Inductive t :=
  | Meta (records : list StonePayloadMetaRecord)
  | Attributes (records : list StonePayloadAttributeRecord)
  | Layout (records : list StonePayloadLayoutRecord)
  | Index (records : list StonePayloadIndexRecord).

Definition pledged_size (p : t) : Z :=
  match p with
  | Meta records => records_total_size records
  | Attributes records => records_total_size records
  | Layout records => records_total_size records
  | Index records => records_total_size records
  end.

Definition num_records (p : t) : Z :=
  match p with
  | Meta records => blen records
  | Attributes records => blen records
  | Layout records => blen records
  | Index records => blen records
  end.

Definition encode (p : t) : list bytes :=
  match p with
  | Meta records => encode_records records
  | Attributes records => encode_records records
  | Layout records => encode_records records
  | Index records => encode_records records
  end.

Definition kind (p : t) : PayloadKind.t :=
  match p with
  | Meta _ => PayloadKind.Meta
  | Attributes _ => PayloadKind.Attributes
  | Layout _ => PayloadKind.Layout
  | Index _ => PayloadKind.Index
  end.
End InnerPayload.

(** [io::copy]'s buffer *)
Definition COPY_SIZE : nat := Z.to_nat 8192.

Section writer.
Context {C : Codecs} {En : Encoder}.

(** ** [zstd::Writer] *)

(** [write_all] over [Writer::write]: each call takes at most [read_size] bytes, feeds
    them to the context and counts the whole buffer it was given.  [read_size] is
    positive, so every round takes a byte. *)
Fixpoint write_rounds (fuel : nat) (buf : bytes) : list bytes * Z :=
  match buf, fuel with
  | [], _ => ([], 0%Z)
  | _, 0%nat => ([], 0%Z)
  | _, S fuel' =>
      let '(fed, counted) := write_rounds fuel' (drop read_size buf) in
      (take read_size buf :: fed, (blen buf + counted)%Z)
  end.

Definition zstd_write_all (buf : bytes) : list bytes * Z := write_rounds (length buf) buf.

(** Several buffers, with the chunks fed and [plain_bytes]. *)
Fixpoint zstd_write_many (bufs : list bytes) : list bytes * Z :=
  match bufs with
  | [] => ([], 0%Z)
  | b :: bufs' =>
      let '(fed, counted) := zstd_write_all b in
      let '(fed', counted') := zstd_write_many bufs' in
      (fed ++ fed', wrap 64 (counted + counted'))
  end.

(** ** Record payloads *)

Definition encode_payload (p : InnerPayload.t) : result io_error EncodedPayload :=
  let '(fed, plain_bytes) := zstd_write_many (InnerPayload.encode p) in
  content ← zstd_encode (Some (InnerPayload.pledged_size p)) fed;
  Ok {| enc_header :=
          {| stored_size := blen content; plain_size := plain_bytes;
             checksum := be_bytes 8 (xxh3 content); num_records := InnerPayload.num_records p;
             version := 1; kind := InnerPayload.kind p; compression := Compression.Zstd |};
        enc_content := content |}.

(** ** File contents *)

(** The content writer: the chunks fed to its session, the plain size counted so far
    and the index. *)
Record StoneContentWriter := {
  cw_pledged : option Z;
  cw_fed : list bytes;
  cw_plain_size : Z;
  cw_indices : list StonePayloadIndexRecord;
}.

(** [write_all] over [StoneDigestWriter::write], which hashes and counts the buffer it
    was given before it passes it on: the chunks fed, the bytes hashed, the count. *)
Fixpoint digest_rounds (fuel : nat) (buf : bytes) : list bytes * bytes * Z :=
  match buf, fuel with
  | [], _ => ([], [], 0%Z)
  | _, 0%nat => ([], [], 0%Z)
  | _, S fuel' =>
      let '(fed, hashed, counted) := digest_rounds fuel' (drop read_size buf) in
      (take read_size buf :: fed, buf ++ hashed, (blen buf + counted)%Z)
  end.

(** [io::copy] of one file into the digest writer *)
Fixpoint copy_content (fuel : nat) (content : bytes) : list bytes * bytes * Z :=
  match content, fuel with
  | [], _ => ([], [], 0%Z)
  | _, 0%nat => ([], [], 0%Z)
  | _, S fuel' =>
      let chunk := take COPY_SIZE content in
      let '(fed, hashed, counted) := digest_rounds (length chunk) chunk in
      let '(fed', hashed', counted') := copy_content fuel' (drop COPY_SIZE content) in
      (fed ++ fed', hashed ++ hashed', (counted + counted')%Z)
  end.

Definition add_content (w : StoneContentWriter) (content : bytes) : StoneContentWriter :=
  let start := cw_plain_size w in
  let '(fed, hashed, counted) := copy_content (length content) content in
  let end_ := wrap 64 (start + counted) in
  {| cw_pledged := cw_pledged w; cw_fed := cw_fed w ++ fed; cw_plain_size := end_;
     cw_indices := cw_indices w
       ++ [{| ix_start := start; ix_end := end_; ix_digest := xxh3_128 hashed |}] |}.

(** ** The archive *)

Definition payload_bytes (p : EncodedPayload) : bytes :=
  concat (payload_header_encode (enc_header p)) ++ enc_content p.

(** [finalize]: [payloads.len() as u16 + 1] wraps like the release build. *)
Definition finalize (ft : HeaderFileType.t) (payloads : list EncodedPayload)
    (content : option EncodedPayload) : bytes :=
  let count := wrap 16 (wrap 16 (blen payloads) + match content with Some _ => 1 | None => 0 end) in
  concat (header_encode {| num_payloads := count; file_type := ft |})
  ++ concat (payload_bytes <$> payloads)
  ++ match content with Some c => payload_bytes c | None => [] end.

(** [StoneWriter<W, ()>]: add the payloads in order, then finalize. *)
Fixpoint encode_payloads (ps : list InnerPayload.t) : result io_error (list EncodedPayload) :=
  match ps with
  | [] => Ok []
  | p :: ps' => e ← encode_payload p; es ← encode_payloads ps'; Ok (e :: es)
  end.

Definition write_archive (ft : HeaderFileType.t) (ps : list InnerPayload.t) : result io_error bytes :=
  es ← encode_payloads ps;
  Ok (finalize ft es None).

(** [StoneWriter<W, StoneContentWriter<B>>]: [with_content], the contents in order,
    then the index and the content payload. *)
Definition content_payload (w : StoneContentWriter) : result io_error EncodedPayload :=
  stored ← zstd_encode (cw_pledged w) (cw_fed w);
  Ok {| enc_header :=
          {| stored_size := blen stored; plain_size := cw_plain_size w;
             checksum := be_bytes 8 (xxh3 stored); num_records := 0; version := 1;
             kind := PayloadKind.Content; compression := Compression.Zstd |};
        enc_content := stored |}.

Definition new_content (pledged : option Z) : StoneContentWriter :=
  {| cw_pledged := pledged; cw_fed := []; cw_plain_size := 0; cw_indices := [] |}.

Definition write_archive_with_content (ft : HeaderFileType.t) (ps : list InnerPayload.t)
    (pledged : option Z) (contents : list bytes) : result io_error bytes :=
  es ← encode_payloads ps;
  let w := foldl add_content (new_content pledged) contents in
  content ← content_payload w;
  index ← encode_payload (InnerPayload.Index (cw_indices w));
  Ok (finalize ft (es ++ [index]) (Some content)).
End writer.
