(* ===== verification/StoneArchive.v ===== *)
(** * What the stone reader and writer guarantee

    The readers of [StoneRead] give the bytes they have ([ReadLaws]); a payload the
    writer produced decodes to the records it was given; an archive reads back as what
    was written; whatever the bytes, a decoder that succeeds has stayed within its
    limits. *)

From S2P Require Import Prelude StoneWire StoneRecords StoneHeader StoneRead StoneWrite.

(** ** Readers *)

#[global] Instance Cursor_available : Available Cursor := {
  avail c := drop (cur_pos c) (cur_data c);
  advance k c := {| cur_data := cur_data c; cur_pos := cur_pos c + k |};
}.

#[global] Instance Cursor_laws : ReadLaws Cursor.
Proof.
  split.
  - intros [d p]. cbn. by rewrite Nat.add_0_r.
  - intros a b [d p] _. cbn. by rewrite Nat.add_assoc.
  - intros k [d p] _. cbn. by rewrite drop_drop.
  - intros n [d p] Hn Hav. cbn in *. exists (Nat.min n (length d - p)).
    assert (0 < length (drop p d)) as Hl by (destruct (drop p d); [done|cbn; lia]).
    rewrite length_drop in *. split_and!; [lia..|]. unfold read, Cursor_read. cbn. f_equal. f_equal.
    destruct (decide (n <= length d - p)).
    + by replace (Nat.min n (length d - p)) with n by lia.
    + replace (Nat.min n (length d - p)) with (length d - p) by lia.
      rewrite !take_ge by (rewrite length_drop; lia). done.
Qed.

#[global] Instance Source_available : Available Source := {
  avail s := src_bytes s;
  advance k s := {| src_bytes := drop k (src_bytes s); src_end := src_end s |};
}.

#[global] Instance Source_laws : ReadLaws Source.
Proof.
  split.
  - by intros [b e].
  - intros x y [b e] _. cbn. by rewrite drop_drop.
  - done.
  - intros n [b e] Hn Hb. cbn in *. exists (Nat.min n (length b)).
    assert (0 < length b) by (destruct b; [done|cbn; lia]). split_and!; [lia..|].
    assert (take n b = take (Nat.min n (length b)) b /\ drop n b = drop (Nat.min n (length b)) b) as [H1 H2].
    { destruct (decide (n <= length b)).
      - by replace (Nat.min n (length b)) with n by lia.
      - replace (Nat.min n (length b)) with (length b) by lia. by rewrite !take_ge, !drop_ge by lia. }
    rewrite <- H1, <- H2. destruct n as [|n]; [lia|]. by destruct b.
Qed.

#[global] Instance ExactPlainReader_available : Available ExactPlainReader := {
  avail p := take (Z.to_nat (ep_declared p - ep_emitted p)) (avail (ep_inner p));
  advance k p := {| ep_inner := advance k (ep_inner p); ep_declared := ep_declared p;
                    ep_emitted := ep_emitted p + Z.of_nat k;
                    ep_too_large := ep_too_large p; ep_too_short := ep_too_short p |};
}.

#[global] Instance ExactPlainReader_laws : ReadLaws ExactPlainReader.
Proof.
  split.
  - intros [i d e l s]. cbn. by rewrite Z.add_0_r; destruct i.
  - intros a b [i d e l s] Hle. cbn in *. rewrite length_take in Hle. f_equal; [|lia].
    f_equal. by rewrite drop_drop.
  - intros k [i d e l s] Hle. cbn in *. rewrite length_take in Hle.
    rewrite skipn_firstn_comm. f_equal. lia.
  - intros n [i d e l s] Hn Hav. cbn in Hav.
    assert (0 < d - e)%Z as Hrem.
    { destruct (Z.ltb_spec 0 (d - e)); [done|]. by replace (Z.to_nat (d - e)) with 0 in Hav by lia. }
    assert (avail i <> []) as Hi by (intros E; cbn in E; by rewrite E, take_nil in Hav).
    set (allowed := Z.to_nat (Z.min (d - e) (Z.of_nat n))).
    destruct (read_some allowed i) as (k & Hk & Hkl & Hread); [lia|done|].
    exists k. cbn in *. rewrite length_take. split_and!; [lia..|]. unfold read, ExactPlainReader_read.
    destruct n as [|n]; [lia|]. cbn -[Z.min]. rewrite (proj2 (Z.eqb_neq _ _)) by lia.
    fold allowed. rewrite Hread.
    assert (length (take k (src_bytes i)) = k) as Hlk by (rewrite length_take; lia).
    rewrite take_take. replace (Nat.min k (Z.to_nat (d - e))) with k by lia.
    destruct (take k (src_bytes i)) as [|x t] eqn:Ht; [cbn in Hlk; lia|]. by rewrite Hlk.
Qed.

(** ** Records *)

Section records.
Context {T : Type} {R : Record T} {wf : T -> Prop} {L : RecordLaws T wf}.

Lemma encode_records_cons r rs :
  concat (encode_records (r :: rs)) = concat (record_encode r) ++ concat (encode_records rs).
Proof. unfold encode_records. cbn. by rewrite concat_app. Qed.

Lemma records_total_length rs : records_total_size rs = blen (concat (encode_records rs)).
Proof using L.
  induction rs as [|r rs IH]; [done|]. rewrite encode_records_cons, length_app, Nat2Z.inj_add, <- IH.
  rewrite <- (record_size_exact r). done.
Qed.

Definition fits (max : Z) (r : T) : Prop := wf r /\ (record_size r <= max)%Z.

Lemma decode_records_ok {S} `{ReadLaws S} rs max s rest :
  Forall (fits max) rs -> (max < 2 ^ 64)%Z -> avail s = concat (encode_records rs) ++ rest ->
  decode_records (length rs) max s = (Ok rs, advance (length (concat (encode_records rs))) s).
Proof using L.
  intros Hrs Hmax. revert s. induction Hrs as [|r rs [Hwf Hsize] _ IH]; intros s Hav.
  { cbn. by rewrite advance_0. }
  rewrite encode_records_cons in *. rewrite <- app_assoc in Hav.
  pose proof (record_size_exact r) as Hsz.
  cbn [decode_records length]. unfold mbind, rd_bind at 1.
  erewrite (record_round_trip r Hwf S (record_reader s max)); [|exact Hav|cbn; lia|cbn; lia].
  cbn [rr_inner advance RecordReader_available record_reader].
  assert (avail (advance (length (concat (record_encode r))) s) = concat (encode_records rs) ++ rest) as Hav'.
  { rewrite avail_advance, Hav by (rewrite Hav, length_app; lia). by apply drop_app_exact. }
  unfold mbind, rd_bind. rewrite (IH _ Hav'). unfold mret, rd_ret. f_equal.
  rewrite length_app, advance_add; [done|]. rewrite Hav, !length_app. lia.
Qed.
End records.

(** ** Admission *)

Lemma enforce_limit_ok resource limit actual u :
  enforce_limit resource limit actual = Ok u <-> (actual <= limit)%Z.
Proof. unfold enforce_limit. rewrite reject_ok_iff. apply Z.ltb_ge. Qed.

Lemma checked_total_ok resource current additional limit total :
  checked_total resource current additional limit = Ok total
  <-> total = (current + additional)%Z /\ (current + additional <= limit)%Z
      /\ (current + additional < 2 ^ 64)%Z.
Proof.
  unfold checked_total. rewrite bind_ok_iff. setoid_rewrite seq_ok_iff.
  setoid_rewrite ok_or_ok_iff. setoid_rewrite checked_add_Some. setoid_rewrite enforce_limit_ok.
  split; [intros (z & [-> ?] & ? & [= <-]); auto|]. intros (-> & ? & ?). eauto.
Qed.

(** The conditions of [admit_header], one by one. *)
Record admitted (h : StonePayloadHeader) (limits : StoneDecodeLimits) (s : DecodeState) : Prop := {
  ad_version : kind h = PayloadKind.Unknown \/ version h = 1%Z;
  ad_records : (num_records h <= max_records_per_payload limits)%Z;
  ad_stored : (stored_size h <= max_stored_payload_bytes limits)%Z;
  ad_plain : (plain_size h <= max_plain_payload_bytes limits)%Z;
  ad_total_records : (ds_records s + num_records h <= max_total_records limits)%Z
                     /\ (ds_records s + num_records h < 2 ^ 64)%Z;
  ad_total_stored : (ds_stored_bytes s + stored_size h <= max_total_stored_bytes limits)%Z
                    /\ (ds_stored_bytes s + stored_size h < 2 ^ 64)%Z;
  ad_total_plain : (ds_plain_bytes s + plain_size h <= max_total_plain_bytes limits)%Z
                   /\ (ds_plain_bytes s + plain_size h < 2 ^ 64)%Z;
  ad_record_bytes : is_record_payload (kind h) = true ->
    (ds_record_bytes s + plain_size h <= max_total_record_bytes limits)%Z
    /\ (ds_record_bytes s + plain_size h < 2 ^ 64)%Z;
  ad_minimum : forall per, minimum_per_record (kind h) = Some per ->
    (num_records h * per <= plain_size h)%Z /\ (num_records h * per < 2 ^ 64)%Z;
  ad_content : kind h = PayloadKind.Content ->
    ds_content_seen s = false /\ (ds_max_index_end s <= plain_size h)%Z;
  ad_uncompressed : compression h = Compression.None -> stored_size h = plain_size h;
}.

Definition admit_state (h : StonePayloadHeader) (s : DecodeState) : DecodeState :=
  {| ds_records := ds_records s + num_records h;
     ds_record_bytes := if is_record_payload (kind h) then ds_record_bytes s + plain_size h
                        else ds_record_bytes s;
     ds_stored_bytes := ds_stored_bytes s + stored_size h;
     ds_plain_bytes := ds_plain_bytes s + plain_size h;
     ds_content_seen := bool_decide (kind h = PayloadKind.Content) || ds_content_seen s;
     ds_content_plain_size := if bool_decide (kind h = PayloadKind.Content)
                              then Some (plain_size h) else ds_content_plain_size s;
     ds_max_index_end := ds_max_index_end s |}.

Lemma minimum_ok h u :
  validate_minimum_record_bytes h = Ok u <->
  forall per, minimum_per_record (kind h) = Some per ->
    (num_records h * per <= plain_size h)%Z /\ (num_records h * per < 2 ^ 64)%Z.
Proof.
  unfold validate_minimum_record_bytes. destruct u. destruct (minimum_per_record (kind h)) as [per|]; [|done].
  rewrite bind_ok_iff. setoid_rewrite ok_or_ok_iff. setoid_rewrite reject_ok_iff.
  unfold checked_mul. setoid_rewrite checked_width_Some. setoid_rewrite Z.ltb_ge. split.
  - intros (z & [-> ?] & ?) p [= <-]. auto.
  - intros H. exists (num_records h * per)%Z. specialize (H per eq_refl). tauto.
Qed.

Lemma record_bytes_ok h limits s z :
  (if is_record_payload (kind h) then
     total ← checked_total (bstr "aggregate record bytes") (ds_record_bytes s)
       (plain_size h) (max_total_record_bytes limits);
     validate_minimum_record_bytes h;;
     Ok total
   else Ok (ds_record_bytes s)) = Ok z <->
  z = ds_record_bytes (admit_state h s)
  /\ (is_record_payload (kind h) = true ->
      (ds_record_bytes s + plain_size h <= max_total_record_bytes limits)%Z
      /\ (ds_record_bytes s + plain_size h < 2 ^ 64)%Z)
  /\ (forall per, minimum_per_record (kind h) = Some per ->
      (num_records h * per <= plain_size h)%Z /\ (num_records h * per < 2 ^ 64)%Z).
Proof.
  cbn [admit_state ds_record_bytes]. rewrite <- (minimum_ok h tt).
  destruct (is_record_payload (kind h)) eqn:Hk.
  - rewrite bind_ok_iff. setoid_rewrite seq_ok_iff. setoid_rewrite checked_total_ok.
    split; [intros (t & (-> & ? & ?) & ? & [= <-]); auto|].
    intros (-> & H & Hm). destruct (H eq_refl). by eexists.
  - assert (validate_minimum_record_bytes h = Ok tt) as Hm
      by (unfold validate_minimum_record_bytes; by destruct (kind h)).
    split; [by intros [= <-]|]. by intros [-> _].
Qed.

Lemma content_ok h s x :
  (if bool_decide (kind h = PayloadKind.Content) then
     reject ReadError.MultipleContent when (ds_content_seen s);;
     reject (ReadError.IndexOutsideContent (ds_max_index_end s) (plain_size h)) when
       (plain_size h <? ds_max_index_end s)%Z;;
     Ok (true, Some (plain_size h))
   else Ok (ds_content_seen s, ds_content_plain_size s)) = Ok x <->
  x = (ds_content_seen (admit_state h s), ds_content_plain_size (admit_state h s))
  /\ (kind h = PayloadKind.Content ->
      ds_content_seen s = false /\ (ds_max_index_end s <= plain_size h)%Z).
Proof.
  cbn [admit_state ds_content_seen ds_content_plain_size].
  destruct (decide (kind h = PayloadKind.Content)) as [Hk|Hk].
  - rewrite bool_decide_eq_true_2 by done. cbn [orb]. rewrite !seq_ok_iff, !reject_ok_iff, Z.ltb_ge.
    split; [intros (? & ? & [= <-]); auto|]. intros [-> H]. destruct (H Hk). auto.
  - rewrite bool_decide_eq_false_2 by done. split; [by intros [= <-]|]. by intros [-> _].
Qed.

Lemma admit_ok_iff h limits s s' :
  admit_header h limits s = Ok s' <-> admitted h limits s /\ s' = admit_state h s.
Proof.
  unfold admit_header. rewrite !seq_ok_iff, !reject_ok_iff, !enforce_limit_ok. split.
  - intros (Hv & Hr & Hs & Hp & H).
    apply bind_ok_iff in H as (? & (-> & Htr)%checked_total_ok & H).
    apply bind_ok_iff in H as (? & (-> & Hts)%checked_total_ok & H).
    apply bind_ok_iff in H as (? & (-> & Htp)%checked_total_ok & H).
    apply bind_ok_iff in H as (? & (-> & Hrb & Hmin)%record_bytes_ok & H).
    apply bind_ok_iff in H as (? & (-> & Hc)%content_ok & H).
    apply seq_ok_iff in H as [Hcomp%reject_ok_iff [= <-]]. split; [|done]. split; try done.
    + apply andb_false_iff in Hv as [Hv|Hv]; bool_prop; auto.
    + intros Hn. apply andb_false_iff in Hcomp as [Hz|Hz]; bool_prop; congruence.
  - intros [[Hv Hr Hs Hp Htr Hts Htp Hrb Hmin Hc Hcomp] ->]. split_and!; [|done..|].
    { destruct Hv as [Hv|Hv]; [by rewrite bool_decide_eq_true_2|]. rewrite Hv. by rewrite andb_false_r. }
    do 3 (apply bind_ok_iff; eexists; split; [by apply checked_total_ok|]).
    apply bind_ok_iff; eexists; split; [by apply record_bytes_ok|].
    apply bind_ok_iff; eexists; split; [by apply content_ok|].
    apply seq_ok_iff. split; [|done]. apply reject_ok_iff.
    destruct (decide (compression h = Compression.None)) as [Hn|Hn].
    + rewrite (Hcomp Hn), Z.eqb_refl. by rewrite andb_false_r.
    + by rewrite bool_decide_eq_false_2.
Qed.

(** The largest end of an index, and what [admit_indices] does. *)
Definition index_max (rs : list StonePayloadIndexRecord) (z : Z) : Z :=
  foldl Z.max z (ix_end <$> rs).

Definition index_admitted (s : DecodeState) (r : StonePayloadIndexRecord) : Prop :=
  (ix_start r <= ix_end r)%Z
  /\ forall size, ds_content_plain_size s = Some size -> (ix_end r <= size)%Z.

Lemma admit_indices_ok_iff rs s s' :
  admit_indices rs s = Ok s' <->
  Forall (index_admitted s) rs /\ s' = set_max_index_end (index_max rs (ds_max_index_end s)) s.
Proof.
  revert s. induction rs as [|r rs IH]; intros s; cbn [admit_indices].
  { cbn. destruct s. cbn. split; [intros [= <-]; auto|]. by intros [_ ->]. }
  rewrite !seq_ok_iff, reject_ok_iff, Z.ltb_ge, IH. cbn [set_max_index_end ds_content_plain_size ds_max_index_end].
  assert (Forall (index_admitted (set_max_index_end (Z.max (ds_max_index_end s) (ix_end r)) s)) rs
    <-> Forall (index_admitted s) rs) as -> by done.
  rewrite Forall_cons. unfold index_admitted at 2. cbn [index_max fmap list_fmap foldl].
  destruct (ds_content_plain_size s) as [z|].
  - rewrite reject_ok_iff, Z.ltb_ge. split.
    + intros (? & ? & ? & ->). split_and!; [done| |done|done]. by intros ? [= <-].
    + intros [[[? H] ?] ->]. split_and!; [done| |done|done]. by apply H.
  - split; [intros (? & _ & ? & ->)|intros [[[? _] ?] ->]]; by split_and!.
Qed.

(** ** Exact reads of a cursor *)

Definition at_pos (data : bytes) (pos : nat) : Cursor := {| cur_data := data; cur_pos := pos |}.

Lemma read_exact_rounds_cursor fuel n data pos b c :
  read_exact_rounds fuel n (at_pos data pos) = (Ok b, c) ->
  c = at_pos data (pos + n) /\ length b = n /\ (n = 0 \/ pos + n <= length data)%nat.
Proof.
  revert n pos b. induction fuel as [|fuel IH]; intros n pos b H.
  { destruct n; [|done]. cbn in H. inv_rd. rewrite Nat.add_0_r. auto. }
  destruct n as [|n]; [cbn in H; inv_rd; rewrite Nat.add_0_r; auto|].
  cbn [read_exact_rounds] in H. apply rd_bind_ok in H as (b0 & c0 & Hr & H).
  unfold read, Cursor_read in Hr. cbn [at_pos cur_data cur_pos] in Hr. injection Hr as <- <-.
  assert (length (take (S n) (drop pos data)) = Nat.min (S n) (length data - pos)) as Hl
    by (by rewrite length_take, length_drop).
  destruct (take (S n) (drop pos data)) as [|x t] eqn:Et; [done|].
  apply rd_bind_ok in H as (rest & c1 & Hrest & H). inv_rd.
  apply IH in Hrest as (-> & Hlr & Hb). cbn [length app] in *. rewrite length_app, Hlr.
  destruct (length data - pos) as [|m] eqn:Em; [cbn in Hl; lia|]. split_and!; [f_equal; lia|lia|lia].
Qed.

Lemma read_exact_cursor n data pos b c :
  read_exact n (at_pos data pos) = (Ok b, c) ->
  c = at_pos data (pos + n) /\ length b = n /\ (n = 0 \/ pos + n <= length data)%nat.
Proof. apply read_exact_rounds_cursor. Qed.

Lemma read_be_cursor n data pos z c :
  (b ← read_array n; mret (be_value b)) (at_pos data pos) = (Ok z, c) ->
  c = at_pos data (pos + n) /\ in_width (8 * Z.of_nat n) z /\ (n = 0 \/ pos + n <= length data)%nat.
Proof.
  intros H. apply rd_bind_ok in H as (b & c1 & Hb & H). inv_rd.
  apply read_exact_cursor in Hb as (-> & Hl & Hle). split_and!; [done| |done].
  unfold in_width. rewrite <- pow256, <- Hl. apply be_value_bound.
Qed.

Lemma payload_header_cursor data pos h c :
  payload_header_decode (at_pos data pos) = (Ok h, c) ->
  c = at_pos data (pos + 32) /\ (pos + 32 <= length data)%nat /\ payload_header_wf h.
Proof.
  intros H. unfold payload_header_decode in H. inv_rd.
  repeat match goal with
  | H : read_u64 (at_pos _ _) = _ |- _ => apply (read_be_cursor 8) in H as (-> & ? & ?)
  | H : read_u32 (at_pos _ _) = _ |- _ => apply (read_be_cursor 4) in H as (-> & ? & ?)
  | H : read_u16 (at_pos _ _) = _ |- _ => apply (read_be_cursor 2) in H as (-> & ? & ?)
  | H : read_u8 (at_pos _ _) = _ |- _ => apply (read_be_cursor 1) in H as (-> & ? & ?)
  | H : read_array _ (at_pos _ _) = _ |- _ => apply read_exact_cursor in H as (-> & ? & ?)
  end.
  split_and!; [unfold at_pos; f_equal; lia|lia|]. by split_and!.
Qed.

(** ** The codecs *)

(** What zstd and XXH3 document.  The encoder fails when the pledged size is not that
    of its input, and otherwise emits a frame that decodes, with the window of 2^30 it
    is configured for, to the bytes it was fed. *)
Class CodecLaws (C : Codecs) (En : Encoder) : Prop := {
  copy_fits : (COPY_SIZE <= read_size)%nat;
  zstd_round_trip pledged chunks window :
    (forall n, pledged = Some n -> n = blen (concat chunks)) -> (30 <= window)%Z ->
    exists out, zstd_encode pledged chunks = Ok out
      /\ zstd_decode window out = Ok {| src_bytes := concat chunks; src_end := None |};
  xxh3_width b : in_u64 (xxh3 b);
  xxh3_128_width b : in_u128 (xxh3_128 b);
}.

Section write.
Context {C : Codecs} {En : Encoder}.

(** The writer feeds every byte, in order, and counts right while no buffer is longer
    than what zstd takes at a time. *)
Lemma write_rounds_fed fuel buf :
  (0 < read_size)%nat -> (length buf <= fuel)%nat -> concat (write_rounds fuel buf).1 = buf.
Proof.
  intros Hr. revert buf. induction fuel as [|fuel IH]; intros buf Hf.
  - destruct buf; [done|cbn in Hf; lia].
  - destruct buf as [|b buf]; [done|]. cbn [write_rounds].
    destruct (write_rounds fuel (drop read_size (b :: buf))) as [fed n] eqn:E. cbn [fst concat].
    assert (concat fed = drop read_size (b :: buf)) as ->; [|by rewrite take_drop].
    rewrite <- (IH (drop read_size (b :: buf))); [by rewrite E|]. rewrite length_drop. cbn in *. lia.
Qed.

Lemma write_rounds_count fuel buf :
  (length buf <= read_size)%nat -> (length buf <= fuel)%nat -> (write_rounds fuel buf).2 = blen buf.
Proof.
  intros Hr Hf. destruct fuel as [|fuel], buf as [|b buf]; [done|cbn in Hf; lia|done|].
  cbn [write_rounds]. rewrite drop_ge by done. destruct fuel; cbn; lia.
Qed.

Lemma write_many_fed bufs : (0 < read_size)%nat -> concat (zstd_write_many bufs).1 = concat bufs.
Proof.
  intros Hr. induction bufs as [|b bufs IH]; [done|]. cbn [zstd_write_many].
  pose proof (write_rounds_fed (length b) b Hr (le_n _)) as Hb. unfold zstd_write_all.
  destruct (write_rounds (length b) b), (zstd_write_many bufs). cbn [fst concat] in *.
  by rewrite concat_app, Hb, IH.
Qed.

Lemma write_many_count bufs :
  Forall (fun b => (length b <= read_size)%nat) bufs -> in_u64 (blen (concat bufs)) ->
  (zstd_write_many bufs).2 = blen (concat bufs).
Proof.
  induction 1 as [|b bufs Hb _ IH]; [done|]. cbn [zstd_write_many concat]. rewrite length_app. intros Hw.
  pose proof (write_rounds_count (length b) b Hb (le_n _)) as Hc. unfold zstd_write_all.
  destruct (write_rounds (length b) b), (zstd_write_many bufs). cbn [snd concat] in *.
  rewrite Hc, IH, wrap_small; unfold in_width in *; lia.
Qed.
End write.

(** ** Payload bodies *)

(** A plain reader at the declared end of its source has read it exactly. *)
Lemma finish_exact_ok plain :
  let p := advance (length plain)
    (exact_plain_reader {| src_bytes := plain; src_end := None |} (blen plain)) in
  size_error p = None /\ finish_exact p = Ok tt.
Proof.
  cbn. split; [done|]. unfold finish_exact. cbn. rewrite drop_ge by done.
  by rewrite Z.eqb_refl.
Qed.

Section archive.
Context {C : Codecs} {En : Encoder} {L : CodecLaws C En}.

Lemma read_size_pos : (0 < read_size)%nat.
Proof using L. pose proof copy_fits. unfold COPY_SIZE in *. lia. Qed.

Lemma finish_raw_ok raw header :
  stored_size header = blen raw -> checksum header = be_bytes 8 (xxh3 raw) ->
  finish_raw raw header = Ok tt.
Proof using L.
  intros Hs Hc. unfold finish_raw, validate_checksum_value.
  rewrite Hs, Hc, Z.eqb_refl, be_round_trip, Z.eqb_refl by apply xxh3_width. done.
Qed.

Lemma decode_record_body_ok {T} {R : Record T} {wf} {RL : RecordLaws T wf} rs raw header limits :
  Forall (fits (wf := wf) (max_record_bytes limits)) rs -> (max_record_bytes limits < 2 ^ 64)%Z ->
  compression header = Compression.Zstd ->
  zstd_decode (max_zstd_window_log limits) raw
    = Ok {| src_bytes := concat (encode_records rs); src_end := None |} ->
  plain_size header = blen (concat (encode_records rs)) -> num_records header = blen rs ->
  stored_size header = blen raw -> checksum header = be_bytes 8 (xxh3 raw) ->
  decode_record_body raw header limits = Ok rs.
Proof using L.
  intros Hrs Hmax Hc Hz Hp Hn Hs Hsum. unfold decode_record_body, payload_reader. rewrite Hc, Hz.
  cbn [map_err mbind result_bind]. rewrite Hn, Nat2Z.id, Hp.
  erewrite (decode_records_ok rs); [|done..|].
  2:{ cbn [avail ExactPlainReader_available exact_plain_reader ep_declared ep_emitted ep_inner Source_available src_bytes].
      rewrite take_ge by lia. by rewrite app_nil_r. }
  destruct (finish_exact_ok (concat (encode_records rs))) as [-> ->]. cbn [map_err mbind result_bind].
  by rewrite (finish_raw_ok raw header Hs Hsum).
Qed.

(** ** Encoded payloads *)

(** The payload decodes as written. *)
Definition decoded_of (p : InnerPayload.t) (header : StonePayloadHeader) : Decoded.t :=
  match p with
  | InnerPayload.Meta rs => Decoded.Meta (payload_of header rs)
  | InnerPayload.Attributes rs => Decoded.Attributes (payload_of header rs)
  | InnerPayload.Layout rs => Decoded.Layout (payload_of header rs)
  | InnerPayload.Index rs => Decoded.Index (payload_of header rs)
  end.

(** Records a reader with these limits takes, none with a field too long for one
    write. *)
Definition writable (limits : StoneDecodeLimits) (p : InnerPayload.t) : Prop :=
  Forall (fun b => (length b <= read_size)%nat) (InnerPayload.encode p)
  /\ in_u64 (blen (concat (InnerPayload.encode p)))
  /\ in_u32 (InnerPayload.num_records p)
  /\ match p with
     | InnerPayload.Meta rs => Forall (fits (wf := meta_wf) (max_record_bytes limits)) rs
     | InnerPayload.Attributes rs => Forall (fits (wf := attribute_wf) (max_record_bytes limits)) rs
     | InnerPayload.Layout rs => Forall (fits (wf := layout_wf) (max_record_bytes limits)) rs
     | InnerPayload.Index rs => Forall (fits (wf := index_wf) (max_record_bytes limits)) rs
     end.

Lemma pledged_exact p : InnerPayload.pledged_size p = blen (concat (InnerPayload.encode p)).
Proof using. destruct p; apply records_total_length. Qed.

Lemma encode_payload_facts limits p e :
  writable limits p -> (30 <= max_zstd_window_log limits)%Z -> encode_payload p = Ok e ->
  enc_header e = {| stored_size := blen (enc_content e);
                    plain_size := blen (concat (InnerPayload.encode p));
                    checksum := be_bytes 8 (xxh3 (enc_content e));
                    num_records := InnerPayload.num_records p; version := 1;
                    kind := InnerPayload.kind p; compression := Compression.Zstd |}
  /\ zstd_decode (max_zstd_window_log limits) (enc_content e)
     = Ok {| src_bytes := concat (InnerPayload.encode p); src_end := None |}.
Proof using L.
  intros (Hb & Hw & _ & _) Hwin He. unfold encode_payload in He.
  pose proof (write_many_fed (InnerPayload.encode p) read_size_pos) as Hfed.
  pose proof (write_many_count (InnerPayload.encode p) Hb Hw) as Hcount.
  destruct (zstd_write_many (InnerPayload.encode p)) as [fed n]. cbn [fst snd] in *. subst n.
  destruct (zstd_round_trip (Some (InnerPayload.pledged_size p)) fed (max_zstd_window_log limits))
    as (out & Hout & Hdec); [intros n [= <-]; by rewrite Hfed, pledged_exact|done|].
  rewrite Hout in He. cbn in He. injection He as <-. cbn [enc_header enc_content]. by rewrite <- Hfed.
Qed.

Lemma encode_payload_total limits p :
  writable limits p -> (30 <= max_zstd_window_log limits)%Z -> exists e, encode_payload p = Ok e.
Proof using L.
  intros _ Hwin. unfold encode_payload.
  pose proof (write_many_fed (InnerPayload.encode p) read_size_pos) as Hfed.
  destruct (zstd_write_many (InnerPayload.encode p)) as [fed n]. cbn [fst] in *.
  destruct (zstd_round_trip (Some (InnerPayload.pledged_size p)) fed (max_zstd_window_log limits))
    as (out & Hout & _); [intros m [= <-]; by rewrite Hfed, pledged_exact|done|].
  rewrite Hout. by eexists.
Qed.

(** What decoding does to the state beside admitting the header. *)
Definition admit_body (p : InnerPayload.t) (state : DecodeState) : read_result DecodeState :=
  match p with InnerPayload.Index rs => admit_indices rs state | _ => Ok state end.

Lemma decode_body_ok limits p e offset state :
  writable limits p -> (30 <= max_zstd_window_log limits)%Z -> (max_record_bytes limits < 2 ^ 64)%Z ->
  encode_payload p = Ok e ->
  decode_body (enc_header e) limits offset (enc_content e) state
  = (state' ← admit_body p state; Ok (decoded_of p (enc_header e), state')).
Proof using L.
  intros Hw Hwin Hmax He. destruct (encode_payload_facts limits p e Hw Hwin He) as [Hh Hz].
  destruct Hw as (_ & _ & _ & Hrs). unfold decode_body.
  assert (compression (enc_header e) = Compression.Zstd) as Hc by (by rewrite Hh).
  rewrite Hc, bool_decide_eq_false_2 by done.
  assert (kind (enc_header e) = InnerPayload.kind p) as -> by (by rewrite Hh).
  destruct p as [rs|rs|rs|rs]; cbn [InnerPayload.kind InnerPayload.encode] in *;
    (rewrite (decode_record_body_ok rs); [|done|done|done|done|by rewrite Hh..]); done.
Qed.

(** ** Cursors over an archive *)

Lemma cursor_take pre b rest :
  let c := {| cur_data := pre ++ b ++ rest; cur_pos := length pre |} in
  take_raw (blen b) c = (b, {| cur_data := pre ++ b ++ rest; cur_pos := length pre + length b |}).
Proof using.
  cbn. unfold take_raw. cbn. rewrite drop_app_length, Nat2Z.id, take_app_length. done.
Qed.

Lemma payload_header_at pre h rest :
  payload_header_wf h ->
  let b := concat (payload_header_encode h) in
  payload_header_decode {| cur_data := pre ++ b ++ rest; cur_pos := length pre |}
  = (Ok h, {| cur_data := pre ++ b ++ rest; cur_pos := length pre + length b |}).
Proof using.
  intros Hwf b. refine (payload_header_consumes (S := Cursor) h Hwf
    {| cur_data := pre ++ b ++ rest; cur_pos := length pre |} rest _). cbn. by rewrite drop_app_length.
Qed.

(** One payload of an archive. *)
Lemma decode_payload_ok limits pre e rest state state' :
  payload_header_wf (enc_header e) -> stored_size (enc_header e) = blen (enc_content e) ->
  let data := pre ++ payload_bytes e ++ rest in
  in_u64 (blen data) ->
  admit_header (enc_header e) limits state = Ok state' ->
  decode_payload limits (blen data) {| cur_data := data; cur_pos := length pre |} state
  = (d ← decode_body (enc_header e) limits (blen pre + 32) (enc_content e) state';
     Ok (d.1, {| cur_data := data; cur_pos := length pre + length (payload_bytes e) |}, d.2)).
Proof using.
  intros Hwf Hs data Hdata Hadm. unfold decode_payload.
  set (hb := concat (payload_header_encode (enc_header e))).
  assert (length hb = 32) as Hhb by (apply payload_header_length, Hwf).
  assert (data = pre ++ hb ++ (enc_content e ++ rest)) as Hd1.
  { unfold data, payload_bytes. by rewrite <- !app_assoc. }
  assert (data = (pre ++ hb) ++ enc_content e ++ rest) as Hd2 by (rewrite Hd1; by rewrite !app_assoc).
  rewrite Hd1 at 1. rewrite (payload_header_at pre (enc_header e) _ Hwf). fold hb. rewrite <- Hd1.
  cbn [map_err mbind result_bind]. rewrite Hadm. cbn [mbind result_bind cur_pos].
  assert (Z.of_nat (length pre + length hb) + blen (enc_content e) <= blen data)%Z as Hle.
  { rewrite Hd2, !length_app. lia. }
  rewrite (proj2 (checked_add_Some 64 _ _ _)) by (rewrite Hs; split; [done|unfold in_width in *; lia]).
  cbn [ok_or mbind result_bind]. rewrite Hs, (proj2 (Z.ltb_ge _ _)) by lia. cbn [reject_if mbind result_bind].
  pose proof (cursor_take (pre ++ hb) (enc_content e) rest) as Ht. cbn zeta in Ht.
  rewrite <- Hd2, length_app in Ht. rewrite Ht.
  replace (Z.of_nat (length pre + length hb)) with (blen pre + 32)%Z by lia.
  unfold payload_bytes. fold hb. rewrite length_app, Nat.add_assoc. done.
Qed.

(** ** Runs of the payload iterator *)

(** From position [pos] of the archive and a state, payload after payload: its header
    is admitted, its raw bytes lie in the archive, its body decodes. *)
Inductive payload_run (data : bytes) (limits : StoneDecodeLimits)
  : nat -> DecodeState -> list Decoded.t -> nat -> DecodeState -> Prop :=
  | run_nil pos s : payload_run data limits pos s [] pos s
  | run_cons pos s h s1 raw d s2 ds pos' s' :
      payload_header_decode (at_pos data pos) = (Ok h, at_pos data (pos + 32)) ->
      payload_header_wf h -> admit_header h limits s = Ok s1 ->
      raw = take (Z.to_nat (stored_size h)) (drop (pos + 32) data) -> blen raw = stored_size h ->
      decode_body h limits (Z.of_nat (pos + 32)) raw s1 = Ok (d, s2) ->
      payload_run data limits (pos + 32 + length raw) s2 ds pos' s' ->
      payload_run data limits pos s (d :: ds) pos' s'.

Lemma decode_payload_iff limits data pos s d c s2 :
  in_u64 (blen data) ->
  decode_payload limits (blen data) (at_pos data pos) s = Ok (d, c, s2) <->
  exists h s1 raw,
    payload_header_decode (at_pos data pos) = (Ok h, at_pos data (pos + 32)) /\ payload_header_wf h
    /\ admit_header h limits s = Ok s1
    /\ raw = take (Z.to_nat (stored_size h)) (drop (pos + 32) data) /\ blen raw = stored_size h
    /\ decode_body h limits (Z.of_nat (pos + 32)) raw s1 = Ok (d, s2)
    /\ c = at_pos data (pos + 32 + length raw).
Proof.
  intros Hd. unfold decode_payload. split.
  - intros H. destruct (payload_header_decode (at_pos data pos)) as [[h|e] c1] eqn:Eh; [|done].
    pose proof (payload_header_cursor _ _ _ _ Eh) as (-> & Hpos & Hwf). cbn [map_err mbind result_bind] in H.
    apply bind_ok_iff in H as (s1 & Hs1 & H).
    apply bind_ok_iff in H as (body_end & [-> Hw]%ok_or_ok_iff%checked_add_Some & H).
    apply seq_ok_iff in H as [Hb%reject_ok_iff%Z.ltb_ge H]. cbn [at_pos cur_pos] in Hb.
    unfold take_raw in H. cbn [at_pos cur_pos cur_data] in H.
    apply bind_ok_iff in H as ([d' s'] & Hbody & [= <- <- <-]).
    exists h, s1, (take (Z.to_nat (stored_size h)) (drop (pos + 32) data)). split_and!; try done.
    rewrite length_take, length_drop. destruct Hwf as ((? & ?) & _). lia.
  - intros (h & s1 & raw & Hh & Hwf & Hs1 & Hraw & Hlen & Hbody & ->). rewrite Hh.
    cbn [map_err mbind result_bind]. rewrite Hs1. cbn [mbind result_bind at_pos cur_pos cur_data].
    assert (pos + 32 + length raw <= length data)%nat as Hle.
    { apply payload_header_cursor in Hh as (_ & Hp & _). rewrite Hraw, length_take, length_drop. lia. }
    rewrite (proj2 (checked_add_Some 64 _ _ _)) by (split; [done|unfold in_width in *; lia]).
    cbn [ok_or mbind result_bind]. rewrite (proj2 (Z.ltb_ge _ _)) by lia. cbn [reject_if mbind result_bind].
    unfold take_raw. cbn [at_pos cur_pos cur_data]. rewrite <- Hraw. cbv beta iota zeta.
    change (Z.of_nat (pos + 32)) with (Z.of_nat (pos + 32)) in Hbody. by rewrite Hbody.
Qed.

Lemma payload_run_cons data limits pos s d ds pos' s' :
  in_u64 (blen data) ->
  payload_run data limits pos s (d :: ds) pos' s' <->
  exists pos2 s2, decode_payload limits (blen data) (at_pos data pos) s = Ok (d, at_pos data pos2, s2)
    /\ payload_run data limits pos2 s2 ds pos' s'.
Proof.
  intros Hd. split.
  - inversion 1; subst. eexists _, _. split; [|done]. apply decode_payload_iff; [done|]. eauto 10.
  - intros (pos2 & s2 & (h & s1 & raw & ? & ? & ? & ? & ? & ? & [= ->])%decode_payload_iff & Hrun); [|done].
    by econstructor.
Qed.

Definition iterator_at (data : bytes) (pos : nat) (remaining : nat) (s : DecodeState) : StonePayloadIterator :=
  {| it_cursor := at_pos data pos; it_remaining := Z.of_nat remaining; it_state := s;
     it_failed := false |}.

Lemma verify_archive_end_iff data pos u :
  verify_archive_end (at_pos data pos) (blen data) = Ok u <-> pos = length data.
Proof.
  unfold verify_archive_end. cbn [at_pos cur_pos cur_data]. rewrite reject_ok_iff, Z.eqb_refl. cbn [negb orb].
  rewrite orb_false_r, negb_false_iff, Z.eqb_eq. lia.
Qed.

(** Collecting all payloads succeeds exactly on a run to the end of the archive. *)
Lemma collect_iff h data limits n pos s ds :
  in_u64 (blen data) -> (0 < n)%nat ->
  let r := {| sr_header := h; sr_data := data; sr_limits := limits; sr_archive_end := blen data |} in
  collect n r (iterator_at data pos n s) = Ok ds <->
  length ds = n /\ exists s', payload_run data limits pos s ds (length data) s'.
Proof.
  intros Hd Hn r. revert pos s ds Hn. induction n as [|n IH]; intros pos s ds Hn; [lia|]. clear Hn.
  cbn [collect]. unfold next. cbn [iterator_at it_failed it_remaining it_cursor it_state orb].
  rewrite (proj2 (Z.eqb_neq _ _)) by lia. replace (Z.of_nat (S n) - 1)%Z with (Z.of_nat n) by lia.
  cbn [r sr_limits sr_archive_end]. fold r.
  assert (forall d ds' pos2 s2, decode_payload limits (blen data) (at_pos data pos) s = Ok (d, at_pos data pos2, s2) ->
    (length (d :: ds') = S n /\ exists s', payload_run data limits pos s (d :: ds') (length data) s')
    <-> (length ds' = n /\ exists s', payload_run data limits pos2 s2 ds' (length data) s')) as Hcons.
  { intros d ds' pos2 s2 E. setoid_rewrite (payload_run_cons data limits pos s d ds'); [|done]. cbn [length].
    split; intros [Hl H]; (split; [lia|]).
    - destruct H as (s' & p & x & E' & Hrun). rewrite E in E'. injection E' as <- <-. eauto.
    - destruct H as (s' & Hrun). eauto. }
  destruct (decode_payload limits (blen data) (at_pos data pos) s) as [[[d c] s2]|e] eqn:E; cbn [mbind result_bind].
  2:{ split; [done|]. intros [Hl (s' & Hrun)]. destruct ds as [|d ds]; [done|].
      rewrite payload_run_cons in Hrun by done. destruct Hrun as (? & ? & E' & _). congruence. }
  assert (exists pos2, c = at_pos data pos2) as [pos2 ->]
    by (apply decode_payload_iff in E as (? & ? & ? & _ & _ & _ & _ & _ & _ & ->); eauto).
  cbn [fst snd]. destruct n as [|n].
  - cbn [Z.of_nat Z.eqb]. destruct (verify_archive_end (at_pos data pos2) (blen data)) as [u|e] eqn:Ev; cbn.
    + apply verify_archive_end_iff in Ev. subst pos2. split.
      * intros [= <-]. apply (Hcons _ [] _ _ eq_refl). split; [done|]. eexists. constructor.
      * intros [Hl (s' & Hrun)]. destruct ds as [|d' [|? ?]]; try done.
        rewrite payload_run_cons in Hrun by done. destruct Hrun as (? & ? & E' & _). rewrite E in E'. by injection E' as <- _ _.
    + split; [done|]. intros [Hl (s' & Hrun)]. destruct ds as [|d' [|? ?]]; try done.
      apply payload_run_cons in Hrun as (p & ? & E' & Hrun); [|done]. inversion Hrun; subst.
      rewrite E in E'. injection E' as -> -> _. by rewrite (proj2 (verify_archive_end_iff data _ tt)) in Ev.
  - rewrite (proj2 (Z.eqb_neq _ _)) by lia. cbn [mbind result_bind].
    change (collect (S n) r _) with (collect (S n) r (iterator_at data pos2 (S n) s2)). split.
    + intros (ds' & Hc & [= <-])%bind_ok_iff. apply (Hcons _ _ _ _ eq_refl). apply IH; [lia|done].
    + intros H. destruct ds as [|d' ds']; [by destruct H|].
      assert (d' = d) as ->.
      { destruct H as [_ (s' & Hrun)]. rewrite payload_run_cons in Hrun by done. destruct Hrun as (? & ? & E' & _). congruence. }
      apply (Hcons _ _ _ _ eq_refl), IH in H; [|lia]. apply bind_ok_iff. eauto.
Qed.

(** ** Every successful decoding is within bounds *)

Definition total (f : StonePayloadHeader -> Z) (ds : list Decoded.t) : Z :=
  foldr Z.add 0%Z ((fun d => f (Decoded.header d)) <$> ds).

Definition index_records (d : Decoded.t) : list StonePayloadIndexRecord :=
  match d with Decoded.Index p => payload_body p | _ => [] end.

Definition is_content (d : Decoded.t) : Prop := kind (Decoded.header d) = PayloadKind.Content.
#[local] Instance is_content_dec d : Decision (is_content d).
Proof. unfold is_content. apply _. Defined.

Lemma finish_raw_inv raw h u :
  finish_raw raw h = Ok u -> blen raw = stored_size h /\ xxh3 raw = be_value (checksum h).
Proof.
  unfold finish_raw, validate_checksum_value. intros [H1%reject_ok_iff H2%reject_ok_iff]%seq_ok_iff.
  bool_prop. done.
Qed.

Lemma decode_record_body_inv {T} {R : Record T} raw h limits (rs : list T) :
  decode_record_body raw h limits = Ok rs -> finish_raw raw h = Ok tt.
Proof.
  unfold decode_record_body. intros (src & _ & H)%bind_ok_iff.
  destruct (decode_records _ _ _) as [recs plain]. destruct (size_error plain); [done|].
  apply bind_ok_iff in H as (? & _ & H). apply seq_ok_iff in H as [_ H].
  by apply seq_ok_iff in H as [? _].
Qed.

(** What a decoded body says of its header, its raw bytes and the state. *)
Lemma decode_body_inv h limits offset raw s d s' :
  decode_body h limits offset raw s = Ok (d, s') ->
  Decoded.header d = h /\ finish_raw raw h = Ok tt /\ admit_indices (index_records d) s = Ok s'.
Proof.
  unfold decode_body, read_raw_payload.
  destruct (bool_decide (compression h = Compression.Unknown)).
  { intros [? [= <- <-]]%seq_ok_iff. done. }
  destruct (kind h).
  - intros (b & Hb%decode_record_body_inv & [= <- <-])%bind_ok_iff. done.
  - intros [? [= <- <-]]%seq_ok_iff. done.
  - intros (b & Hb%decode_record_body_inv & [= <- <-])%bind_ok_iff. done.
  - intros (b & Hb & (s1 & Hs1 & [= <- <-])%bind_ok_iff)%bind_ok_iff.
    apply decode_record_body_inv in Hb. done.
  - intros (b & Hb%decode_record_body_inv & [= <- <-])%bind_ok_iff. done.
  - intros [? [= <- <-]]%seq_ok_iff. done.
Qed.

(** One step of a run, with what it means for the state. *)
Lemma payload_run_step data limits pos s d ds pos' s' :
  payload_run data limits pos s (d :: ds) pos' s' ->
  let h := Decoded.header d in
  exists raw s2, admitted h limits s /\ payload_header_wf h
    /\ raw = take (Z.to_nat (stored_size h)) (drop (pos + 32) data)
    /\ blen raw = stored_size h /\ xxh3 raw = be_value (checksum h)
    /\ Forall (index_admitted (admit_state h s)) (index_records d)
    /\ s2 = set_max_index_end (index_max (index_records d) (ds_max_index_end s)) (admit_state h s)
    /\ payload_run data limits (pos + 32 + length raw) s2 ds pos' s'.
Proof.
  inversion 1 as [|? ? h s1 raw ? s2 ? ? ? _ Hwf Hadm Hraw Hlen Hbody Hrun]; subst.
  apply decode_body_inv in Hbody as (Hh & Hfin & Hix). cbn zeta. rewrite Hh.
  apply admit_ok_iff in Hadm as [Had ->]. apply admit_indices_ok_iff in Hix as [Hix ->].
  apply finish_raw_inv in Hfin as [_ Hsum]. eexists _, _. by split_and!.
Qed.

Lemma payload_run_totals data limits pos s ds pos' s' :
  payload_run data limits pos s ds pos' s' ->
  Z.of_nat pos' = (Z.of_nat pos + 32 * blen ds + total stored_size ds)%Z
  /\ ds_records s' = (ds_records s + total num_records ds)%Z
  /\ ds_stored_bytes s' = (ds_stored_bytes s + total stored_size ds)%Z
  /\ ds_plain_bytes s' = (ds_plain_bytes s + total plain_size ds)%Z
  /\ (ds <> [] -> ds_records s' <= max_total_records limits
      /\ ds_stored_bytes s' <= max_total_stored_bytes limits
      /\ ds_plain_bytes s' <= max_total_plain_bytes limits)%Z.
Proof.
  revert pos s. induction ds as [|d ds IH]; intros pos s Hrun.
  { inversion Hrun; subst. unfold total. cbn. split_and!; [lia..|done]. }
  apply payload_run_step in Hrun as (raw & s2 & Had & Hwf & _ & Hlen & _ & _ & -> & Hrun).
  specialize (IH _ _ Hrun) as (Hp & Hr & Hs & Hpl & Hlim).
  cbn [set_max_index_end admit_state ds_records ds_stored_bytes ds_plain_bytes] in *.
  unfold total in *. cbn [fmap list_fmap foldr length]. destruct Had.
  split_and!; [lia..|]. intros _. destruct ds as [|d' ds]; [|by apply Hlim].
  inversion Hrun; subst. cbn in *. lia.
Qed.

Definition payload_sound (data : bytes) (limits : StoneDecodeLimits) (d : Decoded.t) : Prop :=
  let h := Decoded.header d in
  (num_records h <= max_records_per_payload limits)%Z
  /\ (stored_size h <= max_stored_payload_bytes limits)%Z
  /\ (plain_size h <= max_plain_payload_bytes limits)%Z
  /\ (exists offset, let raw := take (Z.to_nat (stored_size h)) (drop offset data) in
      blen raw = stored_size h /\ xxh3 raw = be_value (checksum h))
  /\ Forall (fun r => (ix_start r <= ix_end r)%Z) (index_records d).

Lemma payload_run_sound data limits pos s ds pos' s' :
  payload_run data limits pos s ds pos' s' -> Forall (payload_sound data limits) ds.
Proof.
  revert pos s. induction ds as [|d ds IH]; intros pos s Hrun; [done|].
  apply payload_run_step in Hrun as (raw & s2 & Had & Hwf & -> & Hlen & Hsum & Hix & -> & Hrun).
  constructor; [|by eapply IH]. destruct Had. split_and!; [done..| |].
  - by exists (pos + 32).
  - eapply Forall_impl; [exact Hix|]. by intros r [? _].
Qed.

(** No second content payload, and every index range inside the content. *)
Definition inside (h : StonePayloadHeader) (r : StonePayloadIndexRecord) : Prop :=
  (ix_end r <= plain_size h)%Z.

Lemma index_max_le rs z : (z <= index_max rs z)%Z /\ Forall (fun r => (ix_end r <= index_max rs z)%Z) rs.
Proof.
  revert z. induction rs as [|r rs IH]; intros z; cbn; [split; [lia|done]|].
  destruct (IH (Z.max z (ix_end r))) as [H1 H2]. unfold index_max in *. split; [lia|]. constructor; [lia|done].
Qed.

Lemma payload_run_index data limits pos s ds pos' s' :
  (forall size, ds_content_plain_size s = Some size -> ds_content_seen s = true) ->
  payload_run data limits pos s ds pos' s' ->
  Forall (fun d => Forall (fun r => forall size, ds_content_plain_size s = Some size -> (ix_end r <= size)%Z)
                     (index_records d)) ds
  /\ Forall (fun d => is_content d ->
               ds_content_seen s = false /\ (ds_max_index_end s <= plain_size (Decoded.header d))%Z) ds
  /\ (length (filter is_content ds) <= 1)%nat
  /\ (forall c d, c ∈ ds -> d ∈ ds -> is_content c -> Forall (inside (Decoded.header c)) (index_records d)).
Proof.
  revert pos s. induction ds as [|d0 ds IH]; intros pos s Hinv Hrun.
  { split_and!; [done..|cbn; lia|]. by intros c d ?%not_elem_of_nil. }
  apply payload_run_step in Hrun as (raw & s2 & Had & _ & _ & _ & _ & Hix & -> & Hrun).
  set (h := Decoded.header d0) in *.
  assert (forall size, ds_content_plain_size s = Some size -> ds_content_plain_size (admit_state h s) = Some size)
    as Hkeep.
  { intros size Hs. cbn. destruct (decide (kind h = PayloadKind.Content)) as [Hk|Hk].
    - destruct (ad_content _ _ _ Had Hk) as [Hf _]. rewrite (Hinv size Hs) in Hf. done.
    - by rewrite bool_decide_eq_false_2. }
  apply IH in Hrun as (HA & HB & HC & HD).
  2:{ intros size. cbn. destruct (bool_decide (kind h = PayloadKind.Content)); [done|]. apply Hinv. }
  cbn [set_max_index_end ds_content_plain_size ds_content_seen ds_max_index_end] in HA, HB.
  destruct (index_max_le (index_records d0) (ds_max_index_end s)) as [Hm1 Hm2].
  rewrite Forall_forall in HB. split_and!.
  - constructor.
    + eapply Forall_impl; [exact Hix|]. intros r [_ Hr] size Hs. by apply Hr, Hkeep.
    + eapply Forall_impl; [exact HA|]. cbn beta. intros d Hd.
      eapply Forall_impl; [exact Hd|]. intros r Hr size Hs. by apply Hr, Hkeep.
  - constructor; [intros Hc; apply (ad_content _ _ _ Had Hc)|]. apply Forall_forall. intros d Hd Hc.
    destruct (HB d Hd Hc) as [Hseen Hle]. apply orb_false_iff in Hseen as [_ Hseen]. split; [done|lia].
  - rewrite filter_cons. destruct (decide (is_content d0)) as [Hc|Hc]; [|done]. cbn.
    assert (filter is_content ds = []) as ->; [|cbn; lia].
    destruct (filter is_content ds) as [|d l] eqn:Ef; [done|].
    assert (d ∈ filter is_content ds) as [Hd Hin]%list_elem_of_filter by (rewrite Ef; left).
    destruct (HB d Hin Hd) as [Hseen _]. cbn in Hseen. by rewrite bool_decide_eq_true_2 in Hseen.
  - intros c d Hc Hd Hcc. apply elem_of_cons in Hc as [-> | Hc]; apply elem_of_cons in Hd as [-> | Hd].
    + eapply Forall_impl; [exact Hix|]. intros r [_ Hr]. apply Hr. cbn. by rewrite bool_decide_eq_true_2.
    + rewrite Forall_forall in HA. eapply Forall_impl; [exact (HA d Hd)|]. intros r Hr. apply Hr. cbn.
      by rewrite bool_decide_eq_true_2.
    + destruct (HB c Hc Hcc) as [_ Hle]. eapply Forall_impl; [exact Hm2|]. intros r Hr. unfold inside. cbn in Hr. lia.
    + by apply HD.
Qed.

Lemma initial_content size : ds_content_plain_size initial_state = Some size -> ds_content_seen initial_state = true.
Proof. done. Qed.

(** The header decoder on a cursor. *)
Lemma header_cursor data h c :
  header_decode (at_pos data 0) = (Ok h, c) ->
  c = at_pos data 32 /\ (32 <= length data)%nat /\ in_u16 (num_payloads h).
Proof.
  intros H. unfold header_decode in H. apply rd_bind_ok in H as ([[m x] v] & c1 & H1 & H).
  revert H. apply rd_map_err_ok in H1. unfold agnostic_decode in H1. inv_rd.
  repeat match goal with
  | H : read_array _ (at_pos _ _) = _ |- _ => apply read_exact_cursor in H as (-> & ? & ?)
  end.
  intros Hk. cbn beta iota zeta in Hk. apply rd_bind_ok in Hk as (? & ? & E & Hk). injection E as _ <-.
  apply rd_bind_ok in Hk as (? & ? & E & Hk). injection E as _ <-.
  unfold rd_lift in Hk. injection Hk as Hk <-. apply ok_or_ok_iff in Hk.
  split_and!; [done|lia|]. unfold v1_decode in Hk. destruct (bool_decide _); [|done].
  injection Hk as <-. cbn. pose proof (be_value_bound (take 2 x)) as Hb.
  rewrite length_take in Hb. replace (Nat.min 2 (length x)) with 2 in Hb by lia. exact Hb.
Qed.

Lemma read_with_limits_inv data limits r :
  read_with_limits data limits = Ok r ->
  exists h, r = {| sr_header := h; sr_data := data; sr_limits := limits; sr_archive_end := blen data |}
    /\ in_u64 (blen data) /\ (32 <= length data)%nat /\ in_u16 (num_payloads h)
    /\ (num_payloads h <= max_payloads limits)%Z
    /\ (num_payloads h = 0%Z -> length data = 32%nat).
Proof.
  unfold read_with_limits. intros [_ H]%seq_ok_iff. apply bind_ok_iff in H as (m & _ & H).
  apply seq_ok_iff in H as [Hm%enforce_limit_ok H]. apply seq_ok_iff in H as [Hd%enforce_limit_ok H].
  destruct (header_decode {| cur_data := data; cur_pos := 0 |}) as [[h|e] c] eqn:Eh; [|done].
  cbn [map_err mbind result_bind] in H. apply header_cursor in Eh as (-> & Hlen & Hnp).
  apply seq_ok_iff in H as [Hp%enforce_limit_ok H]. apply seq_ok_iff in H as [He [= <-]].
  exists h. split_and!; [done| |done..|].
  - unfold in_width, I64_MAX in *. lia.
  - intros Hz. rewrite Hz in He. cbn [Z.eqb] in He. by apply verify_archive_end_iff in He.
Qed.

Lemma read_payloads_iff h data limits ds :
  in_u64 (blen data) -> in_u16 (num_payloads h) -> (32 <= length data)%nat ->
  read_payloads {| sr_header := h; sr_data := data; sr_limits := limits; sr_archive_end := blen data |} = Ok ds <->
  blen ds = num_payloads h /\ exists s', payload_run data limits 32 initial_state ds (length data) s'.
Proof.
  intros Hd Hn Hlen. unfold read_payloads, payloads. cbn [sr_header sr_data sr_archive_end].
  change (Z.to_nat HEADER_SIZE) with 32. destruct (decide (num_payloads h = 0%Z)) as [Hz|Hz].
  - rewrite Hz. cbn [Z.eqb]. destruct (verify_archive_end _ _) as [u|e] eqn:Ev; cbn.
    + apply verify_archive_end_iff in Ev. split.
      * intros [= <-]. split; [done|]. exists initial_state. rewrite <- Ev. constructor.
      * intros [Hl _]. by destruct ds.
    + split; [done|]. intros [Hl (s' & Hrun)]. destruct ds; [|done].
      assert (32 = length data) as Hl' by (by inversion Hrun).
      apply (verify_archive_end_iff data 32 tt) in Hl'. change (verify_archive_end (at_pos data 32) (blen data) = Err e) in Ev.
      congruence.
  - rewrite (proj2 (Z.eqb_neq _ _)) by done. cbn [mbind result_bind it_remaining].
    destruct Hn as [Hn _]. rewrite <- (Z2Nat.id (num_payloads h)) at 2 by done.
    rewrite (collect_iff h data limits (Z.to_nat (num_payloads h)) 32 initial_state ds) by (done || lia).
    split; intros [? ?]; (split; [lia|done]).
Qed.
End archive.
