(* ===== verification/StoneRoundTrip.v ===== *)
(** * Stone archives read back

    The writer of [StoneWrite] and the reader of [StoneRead] composed: an archive of
    well-formed payloads and file contents decodes to exactly what was written, and
    its content payload unpacks to the files its index describes. *)

From S2P Require Import Prelude StoneWire StoneRecords StoneHeader StoneRead StoneWrite StoneArchive.

(** ** Sizes *)

Definition hsum (f : StonePayloadHeader -> Z) (hs : list StonePayloadHeader) : Z :=
  foldr Z.add 0%Z (f <$> hs).

Definition record_plain (h : StonePayloadHeader) : Z :=
  if is_record_payload (kind h) then plain_size h else 0.

(** Headers whose sizes the limits leave room for, after what [s] has counted. *)
Record within (limits : StoneDecodeLimits) (s : DecodeState) (hs : list StonePayloadHeader) : Prop := {
  wi_each : Forall (fun h => (0 <= num_records h <= max_records_per_payload limits)%Z
                             /\ (0 <= stored_size h <= max_stored_payload_bytes limits)%Z
                             /\ (0 <= plain_size h <= max_plain_payload_bytes limits)%Z) hs;
  wi_records : (ds_records s + hsum num_records hs <= max_total_records limits)%Z;
  wi_stored : (ds_stored_bytes s + hsum stored_size hs <= max_total_stored_bytes limits)%Z;
  wi_plain : (ds_plain_bytes s + hsum plain_size hs <= max_total_plain_bytes limits)%Z;
  wi_record_bytes : (ds_record_bytes s + hsum record_plain hs <= max_total_record_bytes limits)%Z;
}.

(** The limits are [u64] values, the archive size they imply an [i64], and the zstd
    window is the writer's. *)
Record readable (limits : StoneDecodeLimits) : Prop := {
  re_valid : validate_limits limits = Ok tt;
  re_window : (30 <= max_zstd_window_log limits)%Z;
  re_archive : exists m, max_archive_bytes limits = Ok m /\ (m <= I64_MAX)%Z;
  re_records : (max_total_records limits < 2 ^ 64)%Z;
  re_stored : (max_total_stored_bytes limits < 2 ^ 64)%Z;
  re_plain : (max_total_plain_bytes limits < 2 ^ 64)%Z;
  re_record_bytes : (max_total_record_bytes limits < 2 ^ 64)%Z;
  re_record : (max_record_bytes limits < 2 ^ 64)%Z;
}.

Lemma hsum_nonneg f hs : Forall (fun h => (0 <= f h)%Z) hs -> (0 <= hsum f hs)%Z.
Proof. induction 1 as [|h hs Hh _ IH]; cbn; [lia|]. unfold hsum in *. lia. Qed.

Section within_lemmas.
Context (limits : StoneDecodeLimits).

Lemma within_tail h hs s :
  within limits s (h :: hs) -> within limits (admit_state h s) hs.
Proof.
  intros [He Hr Hs Hp Hb]. unfold hsum in *. cbn in Hr, Hs, Hp, Hb.
  split; [by apply Forall_inv_tail in He| | | |]; cbn; unfold hsum, record_plain in *; try lia.
  destruct (is_record_payload (kind h)); lia.
Qed.

Lemma within_index rs s hs : within limits s hs <-> within limits (set_max_index_end rs s) hs.
Proof. split; intros []; by split. Qed.

Lemma within_admitted h hs s :
  readable limits -> within limits s (h :: hs) ->
  version h = 1%Z -> compression h = Compression.Zstd ->
  (forall per, minimum_per_record (kind h) = Some per -> (num_records h * per <= plain_size h)%Z) ->
  (kind h = PayloadKind.Content -> ds_content_seen s = false /\ (ds_max_index_end s <= plain_size h)%Z) ->
  (0 <= ds_record_bytes s <= ds_plain_bytes s)%Z ->
  admitted h limits s.
Proof.
  intros [_ _ _ Hr64 Hs64 Hp64 Hb64 _] [He Hr Hs Hp Hb] Hv Hc Hmin Hcont Hrb.
  pose proof (Forall_inv He) as (Hn & Hst & Hpl). apply Forall_inv_tail in He.
  assert (Forall (fun h => (0 <= num_records h)%Z /\ (0 <= stored_size h)%Z /\ (0 <= plain_size h)%Z) hs) as Hall
    by (eapply Forall_impl; [exact He|]; cbn; lia).
  pose proof (hsum_nonneg num_records hs ltac:(eapply Forall_impl; [exact Hall|]; cbn; tauto)).
  pose proof (hsum_nonneg stored_size hs ltac:(eapply Forall_impl; [exact Hall|]; cbn; tauto)).
  pose proof (hsum_nonneg plain_size hs ltac:(eapply Forall_impl; [exact Hall|]; cbn; tauto)).
  pose proof (hsum_nonneg record_plain hs ltac:(eapply Forall_impl; [exact Hall|]; cbn; intros x (_ & _ & ?);
    unfold record_plain; destruct (is_record_payload (kind x)); lia)).
  unfold hsum in *. cbn [fmap list_fmap foldr] in Hr, Hs, Hp, Hb.
  split; try done; try lia.
  - intros Hk. unfold record_plain in Hb at 1. rewrite Hk in Hb. lia.
  - intros per Hper. specialize (Hmin per Hper). lia.
  - congruence.
Qed.
End within_lemmas.

(** ** What the writer produces *)

Lemma size_minimum p per :
  minimum_per_record (InnerPayload.kind p) = Some per ->
  (InnerPayload.num_records p * per <= blen (concat (InnerPayload.encode p)))%Z.
Proof.
  assert (forall T (R : Record T) wf (RL : RecordLaws T wf) (rs : list T) m,
    (forall r : T, (m <= record_size r)%Z) -> (blen rs * m <= blen (concat (encode_records rs)))%Z) as Hgen.
  { intros T R wf RL rs m Hm. rewrite <- records_total_length. unfold records_total_size.
    induction rs as [|r rs IH]; cbn [length fmap list_fmap foldr]; [lia|]. specialize (Hm r). lia. }
  destruct p as [rs|rs|rs|rs]; cbn [InnerPayload.kind minimum_per_record InnerPayload.num_records InnerPayload.encode];
    intros [= <-].
  - apply (Hgen _ _ meta_wf _). intros r. cbn. unfold meta_size.
    rewrite meta_primitive_length. lia.
  - apply (Hgen _ _ attribute_wf _). intros r. cbn. unfold attribute_size. lia.
  - apply (Hgen _ _ layout_wf _). intros r. cbn. unfold layout_size. lia.
  - apply (Hgen _ _ index_wf _). done.
Qed.

Section round_trip.
Context {C : Codecs} {En : Encoder} {L : CodecLaws C En} (limits : StoneDecodeLimits) (Hread : readable limits).

(** A payload beside the one it was encoded to. *)
Definition encoded (p : InnerPayload.t) (e : EncodedPayload) : Prop :=
  writable limits p /\ encode_payload p = Ok e.

Lemma encoded_header p e :
  encoded p e -> (stored_size (enc_header e) <= max_stored_payload_bytes limits)%Z ->
  payload_header_wf (enc_header e) /\ stored_size (enc_header e) = blen (enc_content e).
Proof using L Hread.
  intros [Hw He] Hs. destruct (encode_payload_facts limits p e Hw (re_window _ Hread) He) as [Hh _].
  destruct Hw as (_ & Hplain & Hn & _). pose proof (re_valid _ Hread) as Hv.
  assert (max_stored_payload_bytes limits <= max_total_stored_bytes limits)%Z as Hm.
  { unfold validate_limits in Hv. apply seq_ok_iff in Hv as [_ Hv]. apply seq_ok_iff in Hv as [Hv _].
    unfold limit_relationship in Hv. apply reject_ok_iff, Z.ltb_ge in Hv. exact Hv. }
  pose proof (re_stored _ Hread). rewrite Hh in *. cbn [stored_size] in *. split; [|done].
  split_and!; cbn; [unfold in_width; lia|exact Hplain|done|exact Hn|done].
Qed.

Lemma encoded_admitted p e s hs :
  encoded p e -> within limits s (enc_header e :: hs) -> (0 <= ds_record_bytes s <= ds_plain_bytes s)%Z ->
  admitted (enc_header e) limits s.
Proof using L Hread.
  intros [Hw He] Hin Hrb. destruct (encode_payload_facts limits p e Hw (re_window _ Hread) He) as [Hh _].
  apply within_admitted with hs; try done; try (by rewrite Hh).
  - intros per. rewrite Hh. cbn [kind num_records plain_size]. apply size_minimum.
  - rewrite Hh. cbn. by destruct p.
Qed.

(** One written payload, read. *)
Lemma written_step pre p e rest s s2 hs :
  encoded p e -> within limits s (enc_header e :: hs) -> (0 <= ds_record_bytes s <= ds_plain_bytes s)%Z ->
  admit_body p (admit_state (enc_header e) s) = Ok s2 ->
  let data := pre ++ payload_bytes e ++ rest in
  in_u64 (blen data) ->
  decode_payload limits (blen data) (at_pos data (length pre)) s
  = Ok (decoded_of p (enc_header e), at_pos data (length pre + length (payload_bytes e)), s2).
Proof using L Hread.
  intros He Hin Hrb Hbody data Hd. pose proof (encoded_admitted p e s hs He Hin Hrb) as Had.
  destruct (encoded_header p e He (ad_stored _ _ _ Had)) as [Hwf Hs].
  unfold data, at_pos. rewrite (decode_payload_ok limits pre e rest s (admit_state (enc_header e) s) Hwf Hs Hd);
    [|by apply admit_ok_iff].
  destruct He as [Hw He]. rewrite (decode_body_ok limits p e _ _ Hw (re_window _ Hread) (re_record _ Hread) He).
  by rewrite Hbody.
Qed.

Lemma payload_run_app data pos s ds pos1 s1 ds' pos2 s2 :
  payload_run data limits pos s ds pos1 s1 -> payload_run data limits pos1 s1 ds' pos2 s2 ->
  payload_run data limits pos s (ds ++ ds') pos2 s2.
Proof using. induction 1; [done|]. intros. cbn. by econstructor; eauto. Qed.

(** Counted so far: the record bytes are among the plain bytes. *)
Definition counted (s : DecodeState) : Prop := (0 <= ds_record_bytes s <= ds_plain_bytes s)%Z.

Lemma counted_admit h s : counted s -> (0 <= plain_size h)%Z -> counted (admit_state h s).
Proof using. unfold counted. cbn. destruct (is_record_payload (kind h)); lia. Qed.

Definition not_index (p : InnerPayload.t) : Prop := forall rs, p <> InnerPayload.Index rs.

Definition no_content_yet (s : DecodeState) : Prop :=
  ds_content_seen s = false /\ ds_content_plain_size s = None /\ ds_max_index_end s = 0%Z.

Lemma no_content_admit p e s :
  encoded p e -> no_content_yet s -> no_content_yet (admit_state (enc_header e) s).
Proof using L Hread.
  intros [Hw He] (H1 & H2 & H3).
  destruct (encode_payload_facts limits p e Hw (re_window _ Hread) He) as [Hh _].
  assert (kind (enc_header e) <> PayloadKind.Content) as Hk by (rewrite Hh; by destruct p).
  unfold no_content_yet. cbn. by rewrite !bool_decide_eq_false_2.
Qed.

Lemma written_run data ps es pre rest s hs :
  in_u64 (blen data) -> Forall2 encoded ps es -> Forall not_index ps ->
  data = pre ++ concat (payload_bytes <$> es) ++ rest ->
  within limits s ((enc_header <$> es) ++ hs) -> counted s -> no_content_yet s ->
  exists s', payload_run data limits (length pre) s (zip_with decoded_of ps (enc_header <$> es))
               (length pre + length (concat (payload_bytes <$> es))) s'
    /\ within limits s' hs /\ counted s' /\ no_content_yet s'.
Proof using L Hread.
  intros Hd Hl. revert pre s. induction Hl as [|p e ps es He _ IH]; intros pre s Hix Hdata Hin Hc Hno.
  { exists s. cbn. rewrite Nat.add_0_r. split_and!; [constructor|done..]. }
  apply Forall_cons in Hix as [Hp Hix]. cbn [fmap list_fmap app concat] in *.
  assert (admit_body p (admit_state (enc_header e) s) = Ok (admit_state (enc_header e) s)) as Hbody.
  { destruct p as [rs|rs|rs|rs]; try done. by destruct (Hp rs). }
  pose proof (proj2 (proj2 (Forall_inv (wi_each _ _ _ Hin)))) as Hplain.
  destruct (IH (pre ++ payload_bytes e) (admit_state (enc_header e) s)) as (s' & Hrun & H1 & H2 & H3).
  - done.
  - rewrite Hdata. by rewrite <- !app_assoc.
  - by apply within_tail.
  - apply counted_admit; [done|lia].
  - by eapply no_content_admit.
  - exists s'. split_and!; [|done..]. cbn [zip_with]. apply payload_run_cons; [done|].
    exists (length pre + length (payload_bytes e)), (admit_state (enc_header e) s). split.
    + pose proof (written_step pre p e (concat (payload_bytes <$> es) ++ rest) s _ _ He Hin Hc Hbody) as Hstep.
      cbn zeta in Hstep. rewrite <- app_assoc in Hdata. rewrite <- Hdata in Hstep. by apply Hstep.
    + rewrite length_app, Nat.add_assoc. by rewrite length_app in Hrun.
Qed.

(** ** File contents *)

Fixpoint index_of (start : Z) (contents : list bytes) : list StonePayloadIndexRecord :=
  match contents with
  | [] => []
  | c :: contents' =>
      {| ix_start := start; ix_end := start + blen c; ix_digest := xxh3_128 c |}
      :: index_of (start + blen c) contents'
  end.

Lemma digest_rounds_small fuel buf :
  (length buf <= read_size)%nat -> (length buf <= fuel)%nat -> buf <> [] ->
  digest_rounds fuel buf = ([buf], buf, blen buf).
Proof using.
  intros Hr Hf Hne. destruct buf as [|b buf]; [done|]. destruct fuel as [|fuel]; [cbn in Hf; lia|].
  cbn [digest_rounds]. rewrite take_ge, drop_ge by done. destruct fuel; cbn; by rewrite app_nil_r, Z.add_0_r.
Qed.

Lemma copy_content_ok fuel content :
  (length content <= fuel)%nat ->
  exists fed, copy_content fuel content = (fed, content, blen content) /\ concat fed = content.
Proof using L.
  pose proof copy_fits as Hcopy. revert content. induction fuel as [|fuel IH]; intros content Hf.
  { destruct content; [by exists []|cbn in Hf; lia]. }
  destruct content as [|b content]; [by exists []|]. cbn [copy_content].
  set (all := b :: content) in *.
  assert (0 < COPY_SIZE)%nat by (unfold COPY_SIZE; lia).
  assert (length all = S (length content)) as Hlen by done.
  rewrite digest_rounds_small.
  2:{ rewrite length_take. lia. }
  2:{ done. }
  2:{ intros E. apply (f_equal length) in E. rewrite length_take in E. cbn [length] in E. lia. }
  destruct (IH (drop COPY_SIZE all)) as (fed & Hfed & Hc); [rewrite length_drop; lia|].
  rewrite Hfed. exists ([take COPY_SIZE all] ++ fed). rewrite take_drop. split.
  - f_equal. rewrite <- Nat2Z.inj_add, <- length_app, take_drop. done.
  - cbn [concat app]. by rewrite Hc, take_drop.
Qed.

Lemma contents_written contents w :
  in_u64 (cw_plain_size w + blen (concat contents)) -> (0 <= cw_plain_size w)%Z ->
  exists fed, foldl add_content w contents
    = {| cw_pledged := cw_pledged w; cw_fed := cw_fed w ++ fed;
         cw_plain_size := cw_plain_size w + blen (concat contents);
         cw_indices := cw_indices w ++ index_of (cw_plain_size w) contents |}
    /\ concat fed = concat contents.
Proof using L.
  revert w. induction contents as [|c contents IH]; intros w Hw Hpos.
  { exists []. cbn. rewrite !app_nil_r, Z.add_0_r. by destruct w. }
  cbn [foldl concat index_of] in *. rewrite length_app in Hw.
  destruct (copy_content_ok (length c) c (le_n _)) as (fed & Hcopy & Hfed).
  destruct (IH (add_content w c)) as (fed' & Hall & Hfed').
  - unfold add_content. rewrite Hcopy. cbn [cw_plain_size]. rewrite wrap_small; unfold in_width in *; lia.
  - unfold add_content. rewrite Hcopy. cbn [cw_plain_size]. rewrite wrap_small; unfold in_width in *; lia.
  - exists (fed ++ fed'). rewrite Hall. unfold add_content. rewrite Hcopy.
    cbn [cw_plain_size cw_pledged cw_fed cw_indices].
    rewrite wrap_small by (unfold in_width in *; lia). split.
    + f_equal; [by rewrite app_assoc|rewrite length_app; lia|by rewrite <- app_assoc].
    + by rewrite concat_app, Hfed, Hfed'.
Qed.

Lemma index_of_ordered start contents : Forall (fun r => (ix_start r <= ix_end r)%Z) (index_of start contents).
Proof using.
  revert start. induction contents as [|c cs IH]; intros start; [done|]. constructor; [cbn; lia|apply IH].
Qed.

Lemma index_of_max start contents z :
  (index_max (index_of start contents) z <= Z.max z (start + blen (concat contents)))%Z.
Proof using.
  revert start z. induction contents as [|c cs IH]; intros start z; cbn [index_of concat]; [cbn; lia|].
  unfold index_max in *. cbn [fmap list_fmap foldl ix_end]. rewrite length_app.
  specialize (IH (start + blen c)%Z (Z.max z (start + blen c))). lia.
Qed.

(** The content payload of some files. *)
Definition content_header (stored : bytes) (contents : list bytes) : StonePayloadHeader :=
  {| stored_size := blen stored; plain_size := blen (concat contents);
     checksum := be_bytes 8 (xxh3 stored); num_records := 0; version := 1;
     kind := PayloadKind.Content; compression := Compression.Zstd |}.

Definition pledge_fits (pledged : option Z) (contents : list bytes) : Prop :=
  forall n, pledged = Some n -> n = blen (concat contents).

Lemma content_payload_ok pledged contents :
  pledge_fits pledged contents -> in_u64 (blen (concat contents)) ->
  exists stored, content_payload (foldl add_content (new_content pledged) contents)
      = Ok {| enc_header := content_header stored contents; enc_content := stored |}
    /\ zstd_decode (max_zstd_window_log limits) stored
       = Ok {| src_bytes := concat contents; src_end := None |}
    /\ cw_indices (foldl add_content (new_content pledged) contents) = index_of 0 contents.
Proof using L Hread.
  intros Hp Hw. destruct (contents_written contents (new_content pledged)) as (fed & -> & Hfed); [done|done|].
  destruct (zstd_round_trip pledged fed (max_zstd_window_log limits)) as (stored & Hs & Hd);
    [intros n Hn; by rewrite Hfed, (Hp n Hn)|apply Hread|].
  exists stored. unfold content_payload. cbn [cw_pledged cw_fed cw_plain_size cw_indices new_content app].
  rewrite Hs. rewrite Hfed in Hd. by split_and!.
Qed.

(** The length of an archive, and how its header reads. *)
Lemma payloads_length es :
  Forall (fun e => length (checksum (enc_header e)) = 8%nat
                   /\ stored_size (enc_header e) = blen (enc_content e)) es ->
  blen (concat (payload_bytes <$> es)) = (32 * blen es + hsum stored_size (enc_header <$> es))%Z.
Proof using.
  induction 1 as [|e es [Hc Hs] _ IH]; [done|]. cbn [fmap list_fmap concat hsum foldr].
  rewrite length_app. unfold payload_bytes at 1. rewrite length_app, payload_header_length by done.
  unfold hsum in *. cbn [fmap list_fmap foldr length]. rewrite Hs. lia.
Qed.

Lemma archive_header ft n rest :
  (0 <= n < 2 ^ 16)%Z -> (n <= max_payloads limits)%Z -> (0 < n)%Z ->
  let data := concat (header_encode {| num_payloads := n; file_type := ft |}) ++ rest in
  (blen data <= 32 + 32 * n + max_total_stored_bytes limits)%Z ->
  in_u64 (blen data)
  /\ read_with_limits data limits
     = Ok {| sr_header := {| num_payloads := n; file_type := ft |}; sr_data := data;
             sr_limits := limits; sr_archive_end := blen data |}.
Proof using Hread.
  intros Hn Hmax Hpos data Hlen. destruct Hread as [Hval _ (m & Hm & Hmi) _ _ _ _ _].
  assert (32 + 32 * n + max_total_stored_bytes limits <= m)%Z as Hle.
  { unfold max_archive_bytes in Hm. apply bind_ok_iff in Hm as (x & Hx & Hm).
    apply ok_or_ok_iff, checked_width_Some in Hx as [-> Hx]. apply ok_or_ok_iff in Hm.
    destruct (checked_add 64 HEADER_SIZE _) as [y|] eqn:Ey; [|done]. cbn [mbind option_bind] in Hm.
    apply checked_add_Some in Ey as [-> _], Hm as [-> Hm]. unfold HEADER_SIZE, PAYLOAD_HEADER_SIZE in *. lia. }
  split; [unfold in_width, I64_MAX in *; lia|].
  unfold read_with_limits. rewrite Hval. cbn [mbind result_bind]. rewrite Hm. cbn [mbind result_bind].
  rewrite (proj2 (enforce_limit_ok _ I64_MAX m tt)) by done. cbn [mbind result_bind].
  rewrite (proj2 (enforce_limit_ok _ m (blen data) tt)) by lia. cbn [mbind result_bind].
  assert (header_decode {| cur_data := data; cur_pos := 0 |}
    = (Ok {| num_payloads := n; file_type := ft |}, at_pos data 32)) as ->.
  { refine (header_consumes (S := Cursor) {| num_payloads := n; file_type := ft |} Hn
      {| cur_data := data; cur_pos := 0 |} rest _). done. }
  cbn [map_err mbind result_bind num_payloads].
  rewrite (proj2 (enforce_limit_ok _ (max_payloads limits) n tt)) by done. cbn [mbind result_bind].
  by rewrite (proj2 (Z.eqb_neq _ _)) by lia.
Qed.

(** Reading the content payload. *)
Lemma content_step pre contents stored s :
  zstd_decode (max_zstd_window_log limits) stored
    = Ok {| src_bytes := concat contents; src_end := None |} ->
  in_u64 (blen (concat contents)) ->
  let e := {| enc_header := content_header stored contents; enc_content := stored |} in
  within limits s [enc_header e] -> counted s -> ds_content_seen s = false ->
  (ds_max_index_end s <= blen (concat contents))%Z ->
  let data := pre ++ payload_bytes e in
  in_u64 (blen data) ->
  decode_payload limits (blen data) (at_pos data (length pre)) s
  = Ok (Decoded.Content (payload_of (content_header stored contents)
          {| content_offset := blen pre + 32 |}), at_pos data (length data),
        admit_state (content_header stored contents) s).
Proof using L Hread.
  intros Hz Hw e Hin Hc Hseen Hix data Hd.
  assert (admitted (enc_header e) limits s) as Had.
  { apply within_admitted with []; done. }
  assert (payload_header_wf (enc_header e)) as Hwf.
  { split_and!; [|done..]. cbn. unfold data, payload_bytes in Hd. cbn [e enc_content] in Hd.
    rewrite !length_app in Hd. unfold in_width in *. lia. }
  pose proof (decode_payload_ok limits pre e [] s (admit_state (enc_header e) s) Hwf eq_refl) as Hstep.
  cbn zeta in Hstep. rewrite app_nil_r in Hstep. fold data in Hstep. unfold at_pos.
  rewrite Hstep; [|done|by apply admit_ok_iff]. unfold decode_body. cbn [e enc_header content_header compression kind].
  rewrite bool_decide_eq_false_2 by done. unfold read_raw_payload. cbn [enc_content].
  rewrite finish_raw_ok by done. cbn [mbind result_bind fst snd]. unfold data. by rewrite length_app.
Qed.

Definition plain_at (rest : bytes) (declared emitted : Z) : ExactPlainReader :=
  {| ep_inner := {| src_bytes := rest; src_end := None |}; ep_declared := declared;
     ep_emitted := emitted; ep_too_large := false; ep_too_short := false |}.

Lemma copy_rounds_ok fuel rest declared emitted :
  declared = (emitted + blen rest)%Z -> (length rest < fuel)%nat ->
  copy_rounds fuel (plain_at rest declared emitted) = (Ok rest, plain_at [] declared declared).
Proof using.
  set (size := Z.to_nat 8192). assert (0 < size)%nat as Hsize by (unfold size; lia).
  revert rest emitted. induction fuel as [|fuel IH]; intros rest emitted Hd Hf; [lia|].
  cbn [copy_rounds]. fold size. clearbody size. unfold mbind, rd_bind at 1.
  destruct rest as [|b rest].
  - cbn [length] in Hd. rewrite Z.add_0_r in Hd. subst declared.
    assert (read size (plain_at [] emitted emitted) = (Ok [], plain_at [] emitted emitted)) as ->; [|done].
    unfold read, ExactPlainReader_read. destruct size; [lia|]. cbn. by rewrite Z.eqb_refl.
  - set (all := b :: rest) in *. assert (length all = S (length rest)) as Hl by done.
    destruct (read_some (S := ExactPlainReader) size (plain_at all declared emitted)) as (k & Hk & Hkl & ->).
    { done. }
    { cbn -[all]. intros E. apply (f_equal length) in E. rewrite length_take in E. cbn [length] in E. lia. }
    cbn [avail ExactPlainReader_available plain_at ep_declared ep_emitted ep_inner Source_available src_bytes] in *.
    rewrite length_take in Hkl. rewrite take_take. replace (Nat.min k (Z.to_nat (declared - emitted))) with k by lia.
    assert (length (take k all) = k) as Hlk by (rewrite length_take; lia).
    destruct (take k all) as [|x t] eqn:Et; [cbn in Hlk; lia|]. rewrite <- Et.
    change (advance k _) with (plain_at (drop k all) declared (emitted + Z.of_nat k)).
    unfold mbind, rd_bind. rewrite IH; [|rewrite length_drop; lia|rewrite length_drop; lia].
    unfold mret, rd_ret. by rewrite take_drop.
Qed.

Lemma unpack_ok h pre contents stored :
  zstd_decode (max_zstd_window_log limits) stored
    = Ok {| src_bytes := concat contents; src_end := None |} ->
  let e := {| enc_header := content_header stored contents; enc_content := stored |} in
  let data := pre ++ payload_bytes e in
  in_u64 (blen data) -> (blen stored <= max_stored_payload_bytes limits)%Z ->
  (blen (concat contents) <= max_plain_payload_bytes limits)%Z ->
  unpack_content {| sr_header := h; sr_data := data; sr_limits := limits; sr_archive_end := blen data |}
    (payload_of (content_header stored contents) {| content_offset := blen pre + 32 |})
  = Ok (concat contents).
Proof using L.
  intros Hz e data Hd Hs Hp.
  set (hb := concat (payload_header_encode (content_header stored contents))).
  assert (length hb = 32) as Hhb by (apply payload_header_length; done).
  assert (data = (pre ++ hb) ++ stored ++ []) as Hdata.
  { unfold data, payload_bytes. cbn [e enc_header enc_content]. fold hb. by rewrite app_nil_r, app_assoc. }
  assert (blen data = blen pre + 32 + blen stored)%Z as Hlen by (rewrite Hdata, !length_app; cbn [length]; lia).
  unfold unpack_content. cbn [payload_of payload_header payload_body content_offset sr_data sr_limits].
  assert (validate_content_reference
    {| sr_header := h; sr_data := data; sr_limits := limits; sr_archive_end := blen data |}
    (payload_of (content_header stored contents) {| content_offset := blen pre + 32 |}) = Ok tt) as Href.
  { unfold validate_content_reference. cbn [payload_of payload_header payload_body content_offset sr_limits
      content_header kind version compression stored_size plain_size sr_archive_end].
    rewrite (bool_decide_eq_true_2 (PayloadKind.Content = PayloadKind.Content)) by done.
    rewrite (bool_decide_eq_false_2 (Compression.Zstd = Compression.Unknown)) by done. cbn [negb Z.eqb Pos.eqb reject_if mbind result_bind].
    rewrite (proj2 (enforce_limit_ok _ _ _ tt) Hs), (proj2 (enforce_limit_ok _ _ _ tt) Hp). cbn [mbind result_bind].
    rewrite (proj2 (checked_add_Some 64 _ _ _)) by (split; [done|unfold in_width in *; lia]).
    cbn [ok_or mbind result_bind]. unfold HEADER_SIZE. rewrite !(proj2 (Z.ltb_ge _ _)) by lia. done. }
  fold (payload_of (content_header stored contents) {| content_offset := blen pre + 32 |}).
  rewrite Href. cbn [mbind result_bind content_header stored_size].
  pose proof (cursor_take (pre ++ hb) stored []) as Ht. cbn zeta in Ht. rewrite <- Hdata in Ht.
  replace (Z.to_nat (blen pre + 32)) with (length (pre ++ hb)) by (rewrite length_app; lia).
  rewrite Ht. unfold payload_reader. cbn [content_header compression plain_size]. rewrite Hz.
  cbn [map_err mbind result_bind src_bytes].
  change (exact_plain_reader _ _) with (plain_at (concat contents) (blen (concat contents)) 0).
  rewrite copy_rounds_ok by lia.
  set (p := plain_at [] (blen (concat contents)) (blen (concat contents))).
  assert (finish_exact p = Ok tt) as Hfin by (unfold finish_exact; cbn; by rewrite Z.eqb_refl).
  change (size_error p) with (@None ReadError.t). cbn [map_err mbind result_bind]. rewrite Hfin.
  cbn [mbind result_bind].
  change (finish_raw stored _) with (finish_raw stored (content_header stored contents)).
  by rewrite finish_raw_ok.
Qed.

Lemma encoded_all ps es : Forall2 encoded ps es -> encode_payloads ps = Ok es.
Proof using. induction 1 as [|p e ps es [_ He] _ IH]; [done|]. cbn. by rewrite He, IH. Qed.

Lemma encoded_wf ps es :
  Forall2 encoded ps es ->
  Forall (fun e => length (checksum (enc_header e)) = 8%nat
                   /\ stored_size (enc_header e) = blen (enc_content e)) es.
Proof using L Hread.
  induction 1 as [|p e ps es [Hw He] _ IH]; [done|]. constructor; [|done].
  destruct (encode_payload_facts limits p e Hw (re_window _ Hread) He) as [-> _]. done.
Qed.

(** Each file's index record cuts it out of the content. *)
Lemma index_of_slice start contents i c :
  (0 <= start)%Z -> contents !! i = Some c ->
  exists r, index_of start contents !! i = Some r /\ ix_digest r = xxh3_128 c
    /\ take (Z.to_nat (ix_end r - ix_start r)) (drop (Z.to_nat (ix_start r - start)) (concat contents)) = c.
Proof using.
  revert start i. induction contents as [|c' cs IH]; intros start i Hs Hi; [done|].
  destruct i as [|i]; cbn [index_of concat].
  - injection Hi as ->. eexists. split_and!; [done..|]. cbn. replace (start - start)%Z with 0%Z by lia.
    cbn. rewrite drop_0. apply take_app_exact. lia.
  - destruct (IH (start + blen c')%Z i) as (r & Hr & Hd & Ht); [lia|done|]. exists r. split_and!; [done..|].
    etransitivity; [|exact Ht]. f_equal. assert (start + blen c' <= ix_start r)%Z as Hle.
    { clear -Hr Hs. revert Hr. generalize (start + blen c')%Z at 1 2 as st. revert i.
      induction cs as [|c cs IH]; intros i st Hr; [done|]. destruct i as [|i]; cbn in Hr.
      - injection Hr as <-. cbn. lia.
      - apply IH in Hr. lia. }
    rewrite drop_app_ge by lia. f_equal. lia.
Qed.

(** The whole archive as one run of the reader. *)
Lemma archive_run pre ps es contents index stored :
  Forall2 encoded ps es -> Forall not_index ps -> in_u64 (blen (concat contents)) ->
  encoded (InnerPayload.Index (index_of 0 contents)) index ->
  zstd_decode (max_zstd_window_log limits) stored
    = Ok {| src_bytes := concat contents; src_end := None |} ->
  let content := {| enc_header := content_header stored contents; enc_content := stored |} in
  within limits initial_state (enc_header <$> (es ++ [index; content])) ->
  let front := pre ++ concat (payload_bytes <$> es) ++ payload_bytes index in
  let data := front ++ payload_bytes content in
  in_u64 (blen data) ->
  exists s', payload_run data limits (length pre) initial_state
    (zip_with decoded_of ps (enc_header <$> es)
     ++ [decoded_of (InnerPayload.Index (index_of 0 contents)) (enc_header index);
         Decoded.Content (payload_of (content_header stored contents) {| content_offset := blen front + 32 |})])
    (length data) s'.
Proof using L Hread.
  intros Hps Hix Hw Hindex Hz content Hin front data Hd. rewrite fmap_app in Hin.
  set (ixs := index_of 0 contents) in *. set (pre2 := pre ++ concat (payload_bytes <$> es)).
  destruct (written_run data ps es pre (payload_bytes index ++ payload_bytes content) initial_state
    (enc_header <$> [index; content]) Hd Hps Hix) as (s1 & Hrun & Hin1 & Hc1 & Hno1); [|done..|].
  { unfold data, front. by rewrite <- !app_assoc. }
  destruct Hno1 as (Hseen & Hplain & Hmax).
  set (s2 := admit_state (enc_header index) s1).
  set (s3 := set_max_index_end (index_max ixs (ds_max_index_end s2)) s2).
  assert (admit_body (InnerPayload.Index ixs) s2 = Ok s3) as Hbody.
  { apply admit_indices_ok_iff. split; [|done]. eapply Forall_impl; [apply index_of_ordered|].
    intros r Hr. split; [done|]. intros size. unfold s2. cbn.
    destruct (no_content_admit (InnerPayload.Index ixs) index s1) as (_ & Hnone & _); [done|by split_and!|].
    cbn in Hnone. by rewrite Hnone. }
  pose proof (no_content_admit (InnerPayload.Index ixs) index s1 Hindex) as Hno2.
  destruct Hno2 as (Hseen2 & _ & Hmax2); [by split_and!|].
  pose proof (proj2 (proj2 (Forall_inv (wi_each _ _ _ Hin1)))) as Hpl.
  eexists. eapply payload_run_app; [exact Hrun|]. apply payload_run_cons; [done|].
  exists (length front), s3. split.
  - pose proof (written_step pre2 (InnerPayload.Index ixs) index (payload_bytes content) s1 s3 _ Hindex Hin1 Hc1 Hbody) as Hstep.
    cbn zeta in Hstep. replace (pre2 ++ payload_bytes index ++ payload_bytes content) with data in Hstep
      by (unfold data, front, pre2; by rewrite <- !app_assoc).
    replace (length pre + length (concat (payload_bytes <$> es))) with (length pre2) by (apply length_app).
    replace (length front) with (length pre2 + length (payload_bytes index))
      by (unfold front, pre2; rewrite !length_app; lia).
    by apply Hstep.
  - apply payload_run_cons; [done|]. eexists _, _. split; [|constructor].
    apply (content_step front contents stored s3 Hz Hw); [| | | |done].
    + apply within_index. by apply (within_tail limits (enc_header index)).
    + apply (counted_admit (enc_header index) s1 Hc1). lia.
    + exact Hseen2.
    + cbn. fold s2. rewrite Hmax. pose proof (index_of_max 0 contents 0) as Hm. fold ixs in Hm. lia.
Qed.
End round_trip.

Section theorems.
Context {C : Codecs} {En : Encoder} {L : CodecLaws C En}.

(** C13: a stone archive reads back as it was written.  [ps] are record payloads whose
    records are well-formed and fit the reader's record limit, none with a field longer
    than zstd takes at a time; [contents] are the files added in order; the sizes of
    the payload headers stay within the reader's limits.  Then the writer succeeds, the
    reader accepts the archive and reports the file type and payload count, iterating
    over it gives exactly the records of [ps], the index of the files and the content
    payload, unpacking that payload gives the files' bytes one after the other, and
    each file is the slice its index record names, with its digest. *)
Theorem archive_round_trip limits ft ps es pledged contents index content :
  readable limits -> Forall2 (encoded limits) ps es -> Forall not_index ps ->
  pledge_fits pledged contents -> in_u64 (blen (concat contents)) ->
  encoded limits (InnerPayload.Index (index_of 0 contents)) index ->
  content_payload (foldl add_content (new_content pledged) contents) = Ok content ->
  within limits initial_state (enc_header <$> (es ++ [index; content])) ->
  (blen ps + 2 <= max_payloads limits)%Z -> (blen ps + 2 < 2 ^ 16)%Z ->
  exists data r c,
    write_archive_with_content ft ps pledged contents = Ok data
    /\ read_with_limits data limits = Ok r
    /\ sr_header r = {| num_payloads := blen ps + 2; file_type := ft |}
    /\ read_payloads r
       = Ok (zip_with decoded_of ps (enc_header <$> es)
             ++ [decoded_of (InnerPayload.Index (index_of 0 contents)) (enc_header index); Decoded.Content c])
    /\ unpack_content r c = Ok (concat contents)
    /\ forall i file, contents !! i = Some file ->
         exists x, index_of 0 contents !! i = Some x /\ ix_digest x = xxh3_128 file
           /\ take (Z.to_nat (ix_end x - ix_start x)) (drop (Z.to_nat (ix_start x)) (concat contents)) = file.
Proof using L.
  intros Hread Hps Hix Hpl Hw Hindex Hcontent Hin Hmax H16.
  destruct (content_payload_ok limits Hread pledged contents Hpl Hw) as (stored & Hc & Hz & Hcw).
  rewrite Hcontent in Hc. injection Hc as ->.
  set (content := {| enc_header := content_header stored contents; enc_content := stored |}) in *.
  set (n := (blen ps + 2)%Z) in *. set (header := {| num_payloads := n; file_type := ft |}).
  pose proof (Forall2_length _ _ _ Hps) as Hlen.
  assert (Forall2 (encoded limits) (ps ++ [InnerPayload.Index (index_of 0 contents)]) (es ++ [index])) as Hall
    by (apply Forall2_app; [done|by constructor]).
  set (hdr := concat (header_encode header)). assert (length hdr = 32) as Hhdr by apply header_length.
  set (front := hdr ++ concat (payload_bytes <$> es) ++ payload_bytes index).
  set (data := front ++ payload_bytes content).
  assert (data = hdr ++ concat (payload_bytes <$> (es ++ [index; content]))) as Hdata.
  { unfold data, front. rewrite fmap_app, concat_app. cbn [fmap list_fmap concat]. rewrite app_nil_r. by rewrite <- !app_assoc. }
  assert (blen data <= 32 + 32 * n + max_total_stored_bytes limits)%Z as Hle.
  { rewrite Hdata, length_app, Hhdr, Nat2Z.inj_add, payloads_length.
    - pose proof (wi_stored _ _ _ Hin) as Hst. cbn in Hst. rewrite length_app. cbn [length]. lia.
    - change [index; content] with ([index] ++ [content]). rewrite app_assoc. apply Forall_app. split.
      + by eapply encoded_wf.
      + by repeat constructor. }
  destruct (archive_header limits Hread ft n (concat (payload_bytes <$> (es ++ [index; content])))) as [H64 Hopen];
    [lia..|rewrite Hdata in Hle; exact Hle|]. fold header hdr in H64, Hopen. rewrite <- Hdata in H64, Hopen.
  destruct (archive_run limits Hread hdr ps es contents index stored Hps Hix Hw Hindex Hz Hin H64) as (s' & Hrun).
  fold content front data in Hrun. eexists data, _, _. split_and!.
  - unfold write_archive_with_content. rewrite (encoded_all limits _ _ Hps). cbn [mbind result_bind].
    rewrite Hcontent. cbn [mbind result_bind]. rewrite Hcw, (proj2 Hindex). cbn [mbind result_bind].
    unfold finalize. f_equal. rewrite Hdata. unfold hdr, header. f_equal.
    + do 3 f_equal. rewrite length_app. cbn [length]. unfold n in *.
      rewrite (wrap_small 16 (Z.of_nat _)), wrap_small; unfold in_width; lia.
    + rewrite !fmap_app, !concat_app. cbn [fmap list_fmap concat]. rewrite !app_nil_r. by rewrite <- !app_assoc.
  - exact Hopen.
  - done.
  - apply read_payloads_iff; [done|unfold in_width; cbn; lia|rewrite Hdata, length_app; lia|].
    split; [|exists s'; rewrite Hhdr in Hrun; exact Hrun].
    rewrite length_app, length_zip_with, length_fmap. cbn. lia.
  - pose proof (wi_each _ _ _ Hin) as He. rewrite fmap_app in He. apply Forall_app in He as [_ He].
    apply Forall_inv_tail, Forall_inv in He as (_ & Hs & Hp).
    refine (unpack_ok limits header front contents stored Hz H64 _ _); cbn in Hs, Hp; lia.
  - intros i file Hi. destruct (index_of_slice 0 contents i file) as (x & Hx & Hdig & Hslice); [done..|].
    rewrite Z.sub_0_r in Hslice. eauto.
Qed.
End theorems.
