(* ===== verification/StoneTheorems.v ===== *)
(** * Bounds and failures of the stone reader and writer

    Whatever its bytes, an archive the reader accepts is within the limits and tiled by
    its payloads; a record with a field longer than zstd takes at a time is written
    with a wrong plain size and refused by the reader.  [Store] is an uncompressed
    codec to evaluate the definitions with. *)

From S2P Require Import Prelude StoneWire StoneRecords StoneHeader StoneRead StoneWrite StoneArchive StoneRoundTrip.

Section sound.
Context {C : Codecs}.

End sound.

(** ** Long fields *)

Section long_fields.
Context {C : Codecs} {En : Encoder} {L : CodecLaws C En}.

(** What the writer counts for some buffers, before it is reduced to 64 bits. *)
Definition counted_bytes (bufs : list bytes) : Z := foldr Z.add 0%Z ((fun b => (zstd_write_all b).2) <$> bufs).

Lemma write_rounds_lower fuel buf :
  (length buf <= fuel)%nat -> (0 < read_size)%nat ->
  (blen buf <= (write_rounds fuel buf).2)%Z
  /\ ((read_size < length buf)%nat -> (blen buf < (write_rounds fuel buf).2)%Z).
Proof.
  intros Hf Hr. revert buf Hf. induction fuel as [|fuel IH]; intros buf Hf.
  { destruct buf; cbn in *; lia. }
  destruct buf as [|b buf]; [cbn; lia|]. cbn [write_rounds].
  pose proof (IH (drop read_size (b :: buf))) as IHd. rewrite length_drop in IHd.
  destruct (write_rounds fuel (drop read_size (b :: buf))) as [fed n]. cbn [snd length] in *.
  destruct IHd as [H1 _]; lia.
Qed.

Lemma counted_lower bufs :
  (0 < read_size)%nat ->
  (blen (concat bufs) <= counted_bytes bufs)%Z
  /\ (Exists (fun b => (read_size < length b)%nat) bufs -> (blen (concat bufs) < counted_bytes bufs)%Z).
Proof.
  intros Hr. unfold counted_bytes. induction bufs as [|b bufs [IH1 IH2]].
  { split; [done|]. by intros ?%Exists_nil. }
  cbn [concat fmap list_fmap foldr]. rewrite length_app.
  destruct (write_rounds_lower (length b) b (le_n _) Hr) as [H1 H2]. fold (zstd_write_all b) in H1, H2.
  split; [lia|]. intros [Hb|Hb]%Exists_cons; [specialize (H2 Hb)|specialize (IH2 Hb)]; lia.
Qed.

Lemma write_many_counted bufs :
  in_u64 (counted_bytes bufs) -> (0 < read_size)%nat -> (zstd_write_many bufs).2 = counted_bytes bufs.
Proof.
  intros Hw Hr. revert Hw. unfold counted_bytes. induction bufs as [|b bufs IH]; [done|].
  cbn [fmap list_fmap foldr zstd_write_many]. intros Hw.
  destruct (counted_lower bufs Hr) as [Hlow _]. unfold counted_bytes in Hlow.
  destruct (write_rounds_lower (length b) b (le_n _) Hr) as [Hb _]. fold (zstd_write_all b) in Hb.
  destruct (zstd_write_all b) as [fed n], (zstd_write_many bufs) as [fed' n']. cbn [snd] in *.
  rewrite IH by (unfold in_width in *; lia). apply wrap_small. unfold in_width in *. lia.
Qed.

(** The reader on records whose plain size was declared too large. *)
Lemma decode_record_body_truncated {T} {R : Record T} {wf} {RL : RecordLaws T wf} rs raw header limits :
  Forall (fits (wf := wf) (max_record_bytes limits)) rs -> (max_record_bytes limits < 2 ^ 64)%Z ->
  compression header = Compression.Zstd ->
  zstd_decode (max_zstd_window_log limits) raw
    = Ok {| src_bytes := concat (encode_records rs); src_end := None |} ->
  (blen (concat (encode_records rs)) < plain_size header)%Z -> num_records header = blen rs ->
  decode_record_body raw header limits
  = Err (ReadError.PlainPayloadTruncated (plain_size header) (blen (concat (encode_records rs)))).
Proof.
  intros Hrs Hmax Hc Hz Hp Hn. unfold decode_record_body, payload_reader. rewrite Hc, Hz.
  cbn [map_err mbind result_bind]. rewrite Hn, Nat2Z.id.
  erewrite (decode_records_ok rs); [|done..|].
  2:{ cbn [avail ExactPlainReader_available exact_plain_reader ep_declared ep_emitted ep_inner Source_available src_bytes].
      rewrite take_ge by lia. by rewrite app_nil_r. }
  cbn [exact_plain_reader advance ExactPlainReader_available size_error ep_too_large ep_too_short
    ep_inner ep_declared ep_emitted Source_available src_bytes src_end map_err mbind result_bind].
  rewrite drop_ge by done. unfold finish_exact, read, ExactPlainReader_read.
  cbn [ep_inner ep_declared ep_emitted ep_too_large ep_too_short]. unfold size_error. cbn [ep_too_large ep_too_short map_err mbind result_bind].
  rewrite (proj2 (Z.eqb_neq _ _)) by lia.
  assert (Z.to_nat (Z.min (plain_size header - (0 + blen (concat (encode_records rs)))) (Z.of_nat 1)) = 1) as -> by lia.
  done.
Qed.

End long_fields.

(** ** Stone archives, evaluated

    An encoder that stores its input uncompressed satisfies what is assumed of zstd and
    XXH3 ([Stored]); with it the theorems about archives apply to concrete packages. *)

Module Stored.
(** A polynomial digest of 64 bits. *)
Definition digest (b : bytes) : Z := foldl (fun n x => (31 * n + byte_Z x) mod 2 ^ 64)%Z 7%Z b.

#[global] Instance codecs : Codecs := {
  xxh3 := digest;
  xxh3_128 := digest;
  zstd_decode _ b := Ok {| src_bytes := b; src_end := None |};
}.

#[global] Instance encoder : Encoder := {
  zstd_encode pledged chunks :=
    if default true ((fun n => (n =? blen (concat chunks))%Z) <$> pledged) then Ok (concat chunks) else Err InvalidData;
  read_size := Z.to_nat 8192;
}.

Lemma digest_width b : in_u64 (digest b).
Proof.
  unfold digest. assert (forall n, in_u64 n -> in_u64 (foldl (fun n x => (31 * n + byte_Z x) mod 2 ^ 64)%Z n b)) as H.
  { induction b as [|x b IH]; intros n Hn; cbn [foldl]; [done|]. apply IH. unfold in_width.
    apply Z.mod_pos_bound. lia. }
  apply H. unfold in_width. lia.
Qed.

#[global] Instance laws : CodecLaws codecs encoder.
Proof.
  split.
  - done.
  - intros pledged chunks window Hp _. exists (concat chunks). cbn [zstd_encode encoder zstd_decode codecs].
    split; [|done]. destruct pledged as [n|]; cbn; [|done]. by rewrite (Hp n), Z.eqb_refl.
  - apply digest_width.
  - intros b. pose proof (digest_width b). cbn [xxh3_128 codecs]. unfold in_width in *. lia.
Qed.
End Stored.

Module Package.
Definition meta : InnerPayload.t := InnerPayload.Meta
  [{| meta_tag := MetaTag.Name; meta_primitive := MetaPrimitive.String (bstr "nano") |};
   {| meta_tag := MetaTag.Release; meta_primitive := MetaPrimitive.Uint64 71 |};
   {| meta_tag := MetaTag.Depends;
      meta_primitive := MetaPrimitive.Dependency MetaDependency.SharedLibrary (bstr "libc.so.6(x86_64)") |}].

Definition files : list bytes := [bstr "#!/bin/nano"; bstr "set linenumbers"].

Definition layout : InnerPayload.t := InnerPayload.Layout
  [{| lay_uid := 0; lay_gid := 0; lay_mode := 33261; lay_tag := 0;
      lay_file := LayoutFile.Regular (Stored.digest (bstr "#!/bin/nano")) (bstr "bin/nano") |};
   {| lay_uid := 0; lay_gid := 0; lay_mode := 41471; lay_tag := 0;
      lay_file := LayoutFile.Symlink (bstr "nano") (bstr "bin/pico") |}].

Definition attributes : InnerPayload.t := InnerPayload.Attributes
  [{| attr_key := bstr "origin"; attr_value := bstr "stone" |}].

Definition payloads : list InnerPayload.t := [meta; layout; attributes].

(** The payload [p] is encoded to. *)
Definition encode (p : InnerPayload.t) : EncodedPayload :=
  match encode_payload p with
  | Ok e => e
  | Err _ => {| enc_header := {| stored_size := 0; plain_size := 0; checksum := []; num_records := 0; version := 0;
                                 kind := PayloadKind.Unknown; compression := Compression.None |};
                enc_content := [] |}
  end.

Definition archive : bytes :=
  match write_archive_with_content HeaderFileType.Binary payloads None files with Ok b => b | Err _ => [] end.

Definition content : EncodedPayload :=
  match content_payload (foldl add_content (new_content None) files) with Ok e => e | Err _ => encode meta end.

(** One attribute with a value of 9000 bytes. *)
Definition long_records : list StonePayloadAttributeRecord :=
  [{| attr_key := bstr "key"; attr_value := replicate (Z.to_nat 9000) Byte.x61 |}].
End Package.

Lemma short_buffers bufs :
  forallb (fun b => blen b <=? 8192)%Z bufs = true -> Forall (fun b : bytes => (length b <= read_size)%nat) bufs.
Proof.
  intros H. apply Forall_forall. intros b Hb. rewrite forallb_forall in H.
  specialize (H b ltac:(by apply list_elem_of_In)). cbn [read_size Stored.encoder]. lia.
Qed.

(** Bounds on closed terms. *)
Ltac bound := vm_compute; first [reflexivity | split; [discriminate|reflexivity] | discriminate | exact I].
Ltac bounds := repeat match goal with
  | |- Forall _ [] => apply Forall_nil; exact I
  | |- Forall _ (_ :: _) => apply Forall_cons; split
  | |- in_width _ _ => bound
  | |- text _ => split; vm_compute; reflexivity
  | |- fits _ _ => split
  | |- _ /\ _ => split
  | |- meta_wf _ => unfold meta_wf; cbn [meta_primitive]
  | |- layout_wf _ => unfold layout_wf; cbn [lay_uid lay_gid lay_mode lay_tag lay_file]
  | |- layout_file_wf _ => unfold layout_file_wf; cbn [LayoutFile.target LayoutFile.source]
  | |- index_wf _ => unfold index_wf
  | |- attribute_wf _ => unfold attribute_wf
  end; try bound.

Lemma default_readable : readable default_limits.
Proof.
  split; [bound|bound| |bound..]. exists (32 + 1024 * 32 + 16 * GIB)%Z. split; [by vm_compute|bound].
Qed.

Ltac encodes := split; [split_and!; [apply short_buffers; by vm_compute|bound..|]|by vm_compute].

Lemma meta_encoded : encoded default_limits Package.meta (Package.encode Package.meta).
Proof. encodes. unfold Package.meta. bounds. Qed.

Lemma layout_encoded : encoded default_limits Package.layout (Package.encode Package.layout).
Proof. encodes. unfold Package.layout. bounds. Qed.

Lemma attributes_encoded : encoded default_limits Package.attributes (Package.encode Package.attributes).
Proof. encodes. unfold Package.attributes. bounds. Qed.

Lemma index_encoded :
  encoded default_limits (InnerPayload.Index (index_of 0 Package.files))
    (Package.encode (InnerPayload.Index (index_of 0 Package.files))).
Proof. encodes. let i := eval vm_compute in (index_of 0 Package.files) in change (index_of 0 Package.files) with i. bounds. Qed.

Definition package_headers : list StonePayloadHeader :=
  enc_header <$> ((Package.encode <$> Package.payloads)
    ++ [Package.encode (InnerPayload.Index (index_of 0 Package.files)); Package.content]).

Lemma package_within : within default_limits initial_state package_headers.
Proof.
  let h := eval vm_compute in package_headers in change package_headers with h.
  split; [repeat (apply Forall_cons; split); [..|apply Forall_nil; exact I]; split_and!; bound|bound..].
Qed.

(** The theorem about writing and reading at the package. *)
Lemma archive_round_trip_witness :
  exists data r c,
    write_archive_with_content HeaderFileType.Binary Package.payloads None Package.files = Ok data
    /\ read_with_limits data default_limits = Ok r
    /\ length <$> read_payloads r = Ok 5
    /\ unpack_content r c = Ok (bstr "#!/bin/nanoset linenumbers").
Proof.
  destruct (archive_round_trip default_limits HeaderFileType.Binary Package.payloads
    (Package.encode <$> Package.payloads) None Package.files
    (Package.encode (InnerPayload.Index (index_of 0 Package.files))) Package.content)
    as (data & r & c & Hw & Hr & _ & Hp & Hu & _).
  - apply default_readable.
  - apply Forall2_cons; split; [exact meta_encoded|]. apply Forall2_cons; split; [exact layout_encoded|].
    apply Forall2_cons; split; [exact attributes_encoded|]. by apply Forall2_nil.
  - do 3 (apply Forall_cons; split; [discriminate|]). by apply Forall_nil.
  - discriminate.
  - bound.
  - apply index_encoded.
  - by vm_compute.
  - apply package_within.
  - bound.
  - bound.
  - exists data, r, c. split_and!; [done|done|by rewrite Hp|exact Hu].
Defined.


