(* ===== verification/Ordered.v ===== *)
(** * Orders, sorting and the ordered collections of Rust's standard library

    [Cmp] is Rust's [Ord::cmp]; [CmpPre] what sorting needs of it and [CmpLaws] what an
    [Ord] that agrees with [Eq] satisfies.  A [BTreeSet] is the sorted list its iterator
    yields, a [BTreeMap] the list of its entries in key order, and [sort_by] the stable
    sort of [slice::sort_by] and [Itertools::sorted_by]. *)

From Stdlib Require Export Sorting.Sorted.
From S2P Require Import Prelude.

Class Cmp (A : Type) := cmp : A -> A -> comparison.

Class CmpPre (A : Type) `{Cmp A} : Prop := {
  cmp_opp (a b : A) : cmp b a = CompOpp (cmp a b);
  cmp_le_trans (a b c : A) : cmp a b <> Gt -> cmp b c <> Gt -> cmp a c <> Gt;
}.

Class CmpLaws (A : Type) `{Cmp A} : Prop := {
  #[global] cmp_pre :: CmpPre A;
  cmp_eq_iff (a b : A) : cmp a b = Eq <-> a = b;
}.

(** [Ordering::then_with] and [Ordering::reverse] *)
Definition then_with (c d : comparison) : comparison := match c with Eq => d | _ => c end.
Abbreviation reverse := CompOpp.

Section order.
Context {A : Type} `{CmpLaws A}.

Lemma cmp_refl (a : A) : cmp a a = Eq.
Proof. by apply cmp_eq_iff. Qed.

Lemma cmp_lt_gt (a b : A) : cmp a b = Lt <-> cmp b a = Gt.
Proof. rewrite (cmp_opp a b). by destruct (cmp a b). Qed.

Lemma cmp_lt_trans (a b c : A) : cmp a b = Lt -> cmp b c = Lt -> cmp a c = Lt.
Proof.
  intros H1 H2. assert (cmp a c <> Gt) as H3 by (apply (cmp_le_trans a b c); congruence).
  destruct (cmp a c) eqn:E; [|done|done]. apply cmp_eq_iff in E as <-. apply cmp_lt_gt in H2. congruence.
Qed.

Lemma cmp_lt_irrefl (a : A) : cmp a a <> Lt.
Proof. by rewrite cmp_refl. Qed.
End order.

(** ** Instances: integers, bytes, sequences, keys *)

#[global] Instance Z_cmp : Cmp Z := Z.compare.
#[global] Instance Z_cmp_laws : CmpLaws Z.
Proof.
  split; [split|].
  - intros a b. apply Z.compare_antisym.
  - intros a b c. unfold cmp, Z_cmp. rewrite !Z.compare_le_iff. lia.
  - intros a b. apply Z.compare_eq_iff.
Qed.

#[global] Instance nat_cmp : Cmp nat := Nat.compare.
#[global] Instance nat_cmp_laws : CmpLaws nat.
Proof.
  split; [split|].
  - intros a b. apply Nat.compare_antisym.
  - intros a b c. unfold cmp, nat_cmp. rewrite !Nat.compare_le_iff. lia.
  - intros a b. apply Nat.compare_eq_iff.
Qed.

(** The order of a key. *)
Definition cmp_on {A K} `{Cmp K} (f : A -> K) : Cmp A := fun a b => cmp (f a) (f b).

Lemma cmp_on_pre {A K} `{CmpPre K} (f : A -> K) : @CmpPre A (cmp_on f).
Proof.
  split; unfold cmp, cmp_on.
  - intros a b. apply cmp_opp.
  - intros a b c. apply cmp_le_trans.
Qed.

Lemma cmp_on_laws {A K} `{CmpLaws K} (f : A -> K) : Inj (=) (=) f -> @CmpLaws A (cmp_on f).
Proof.
  intros Hf. split; [apply cmp_on_pre|]. intros a b. unfold cmp, cmp_on.
  rewrite cmp_eq_iff. split; [apply Hf|by intros ->].
Qed.

#[global] Instance byte_cmp : Cmp byte := cmp_on byte_Z.
#[global] Instance byte_cmp_laws : CmpLaws byte.
Proof. apply cmp_on_laws. intros a b. apply byte_Z_inj. Qed.

(** Slices, [Vec]s and strings compare lexicographically. *)
Fixpoint list_compare {A} `{Cmp A} (l k : list A) : comparison :=
  match l, k with
  | [], [] => Eq
  | [], _ :: _ => Lt
  | _ :: _, [] => Gt
  | a :: l', b :: k' => then_with (cmp a b) (list_compare l' k')
  end.
#[global] Instance list_cmp {A} `{Cmp A} : Cmp (list A) := list_compare.

#[global] Instance list_cmp_laws {A} `{CmpLaws A} : CmpLaws (list A).
Proof.
  unfold cmp, list_cmp.
  assert (forall l k : list A, list_compare l k = Eq <-> l = k) as Heq.
  { induction l as [|a l IH]; intros [|b k]; cbn; try done.
    unfold then_with. destruct (cmp a b) eqn:E.
    - apply cmp_eq_iff in E as ->. rewrite IH. naive_solver.
    - split; [done|]. intros [= -> _]. by rewrite cmp_refl in E.
    - split; [done|]. intros [= -> _]. by rewrite cmp_refl in E. }
  split; [split|exact Heq]; unfold cmp.
  - induction a as [|a l IH]; intros [|b k]; cbn; try done.
    rewrite (cmp_opp a b), IH. by destruct (cmp a b), (list_compare l k).
  - induction a as [|a l IH]; intros [|b k] [|c m]; cbn; try done. unfold then_with. intros H1 H2.
    pose proof (cmp_le_trans a b c) as Ht.
    destruct (cmp a b) eqn:E1; [|destruct (cmp b c) eqn:E2|done].
    + apply cmp_eq_iff in E1 as ->. destruct (cmp b c); [|done|done]. by eapply IH.
    + apply cmp_eq_iff in E2 as ->. by rewrite E1.
    + by rewrite (cmp_lt_trans _ _ _ E1 E2).
    + done.
Qed.

(** Pairs, the first component first *)
#[global] Instance prod_cmp {A B} `{Cmp A, Cmp B} : Cmp (A * B) :=
  fun p q => then_with (cmp p.1 q.1) (cmp p.2 q.2).

#[global] Instance prod_cmp_laws {A B} `{CmpLaws A, CmpLaws B} : CmpLaws (A * B).
Proof.
  assert (forall p q : A * B, cmp p q = Eq <-> p = q) as Heq.
  { intros [a b] [c d]. unfold cmp, prod_cmp, then_with. cbn. destruct (cmp a c) eqn:E.
    - apply cmp_eq_iff in E as ->. rewrite cmp_eq_iff. naive_solver.
    - split; [done|]. intros [= -> ->]. by rewrite cmp_refl in E.
    - split; [done|]. intros [= -> ->]. by rewrite cmp_refl in E. }
  split; [|done]. split.
  - intros [a b] [c d]. unfold cmp, prod_cmp, then_with. cbn. rewrite (cmp_opp a c), (cmp_opp b d). by destruct (cmp a c).
  - intros [a1 b1] [a2 b2] [a3 b3]. unfold cmp, prod_cmp, then_with. cbn.
    destruct (cmp a1 a2) eqn:E1; [|destruct (cmp a2 a3) eqn:E2|done].
    + apply cmp_eq_iff in E1 as ->. destruct (cmp a2 a3); [apply cmp_le_trans|done|done].
    + apply cmp_eq_iff in E2 as ->. by rewrite E1.
    + by rewrite (cmp_lt_trans _ _ _ E1 E2).
    + done.
Qed.

(** ** Stable sorting *)

Section sort.
Context {A : Type} `{CmpPre A}.

Fixpoint sort_insert (x : A) (l : list A) : list A :=
  match l with
  | [] => [x]
  | y :: l' => match cmp x y with Gt => y :: sort_insert x l' | _ => x :: l end
  end.

Definition sort (l : list A) : list A := foldr sort_insert [] l.

Definition ascending (l : list A) : Prop := StronglySorted (fun a b => cmp a b <> Gt) l.

Lemma sort_insert_perm x l : sort_insert x l ≡ₚ x :: l.
Proof using Type.
  induction l as [|y l IH]; cbn; [done|]. destruct (cmp x y); [done|done|]. rewrite IH. apply perm_swap.
Qed.

Lemma sort_perm l : sort l ≡ₚ l.
Proof using Type. induction l as [|x l IH]; cbn; [done|]. by rewrite sort_insert_perm, IH. Qed.

Lemma elem_of_sort x l : x ∈ sort l <-> x ∈ l.
Proof using Type. by rewrite sort_perm. Qed.

Lemma sort_insert_ascending x l : ascending l -> ascending (sort_insert x l).
Proof.
  induction 1 as [|y l Hl IH Hy]; cbn; [repeat constructor|].
  assert (cmp x y <> Gt -> ascending (x :: y :: l)) as Hle.
  { intros Hxy. constructor; [by constructor|]. constructor; [done|].
    eapply Forall_impl; [exact Hy|]. intros z. by apply cmp_le_trans. }
  destruct (cmp x y) eqn:E; [by apply Hle|by apply Hle|].
  constructor; [done|]. rewrite sort_insert_perm. constructor; [|done].
  by rewrite (cmp_opp x y), E.
Qed.

Lemma sort_ascending l : ascending (sort l).
Proof. induction l as [|x l IH]; cbn; [constructor|]. by apply sort_insert_ascending. Qed.

Lemma sort_head x l : sort l = x :: tail (sort l) -> Forall (fun y => cmp x y <> Gt) (tail (sort l)).
Proof.
  intros E. pose proof (sort_ascending l) as Hs. rewrite E in Hs. by apply StronglySorted_inv in Hs as [_ ?].
Qed.

(** Elements that compare equal keep their order. *)
Lemma sort_filter (P : A -> Prop) `{forall x, Decision (P x)} l :
  (forall x y, P x -> P y -> cmp x y <> Gt) -> filter P (sort l) = filter P l.
Proof using Type.
  intros HP. induction l as [|x l IH]; [done|]. cbn [sort foldr]. rewrite filter_cons, <- IH. fold (sort l).
  generalize (sort l). intros k. induction k as [|y k IHk]; cbn [sort_insert]; [by rewrite filter_cons|].
  destruct (cmp x y) eqn:E; [by rewrite filter_cons..|]. rewrite (filter_cons P y), IHk, filter_cons. clear IHk.
  case_decide as Hy; case_decide as Hx; [by destruct (HP x y)|done|done|done].
Qed.
End sort.

(** Sorting forgets the order of its input where equal keys mean equal elements. *)
Lemma sort_canonical {A} `{CmpPre A} (l k : list A) :
  (forall x y, x ∈ l -> y ∈ l -> cmp x y = Eq -> x = y) -> l ≡ₚ k -> sort l = sort k.
Proof.
  intros Hl Hp. assert (forall x y, x ∈ sort l -> y ∈ sort l -> cmp x y = Eq -> x = y) as Hs.
  { intros x y. rewrite !elem_of_sort. apply Hl. }
  assert (sort l ≡ₚ sort k) as Hsp by (by rewrite !sort_perm). clear Hl Hp.
  pose proof (sort_ascending l) as Hsl. pose proof (sort_ascending k) as Hsk. revert Hs Hsp Hsl Hsk.
  generalize (sort l) (sort k). clear l k. intros l. induction l as [|x l IH]; intros k Hs Hsp Hsl Hsk.
  { by apply Permutation_nil_l in Hsp. }
  destruct k as [|y k]; [by apply symmetry, Permutation_nil_l in Hsp|].
  apply StronglySorted_inv in Hsl as [Hsl Hx]. apply StronglySorted_inv in Hsk as [Hsk Hy].
  assert (x = y) as ->; [|f_equal; apply IH; [set_solver|by eapply Permutation_cons_inv|done|done]].
  assert (y ∈ x :: l) as Hyl by (rewrite Hsp; left). assert (x ∈ y :: k) as Hxk by (rewrite <- Hsp; left).
  apply elem_of_cons in Hyl as [-> |Hyl]; [done|]. apply elem_of_cons in Hxk as [-> |Hxk]; [done|].
  apply Hs; [left|by right|]. rewrite Forall_forall in Hx, Hy. apply Hx in Hyl. apply Hy in Hxk.
  rewrite (cmp_opp x y) in Hxk. by destruct (cmp x y).
Qed.

(** ** [BTreeSet] *)

Section btree_set.
Context {A : Type} `{CmpLaws A}.

Definition sorted (l : list A) : Prop := StronglySorted (fun a b => cmp a b = Lt) l.

Fixpoint set_insert (x : A) (l : list A) : list A :=
  match l with
  | [] => [x]
  | y :: l' => match cmp x y with Lt => x :: l | Eq => l | Gt => y :: set_insert x l' end
  end.

(** [FromIterator] *)
Definition set_collect (l : list A) : list A := foldl (fun s x => set_insert x s) [] l.

Lemma elem_of_set_insert x y l : x ∈ set_insert y l <-> x = y \/ x ∈ l.
Proof.
  induction l as [|z l IH]; cbn; [set_solver|]. destruct (cmp y z) eqn:E.
  - apply cmp_eq_iff in E as ->. set_solver.
  - set_solver.
  - rewrite !elem_of_cons, IH. tauto.
Qed.

Lemma set_insert_sorted x l : sorted l -> sorted (set_insert x l).
Proof.
  induction 1 as [|y l Hl IH Hy]; cbn; [repeat constructor|].
  destruct (cmp x y) eqn:E.
  - by constructor.
  - constructor; [by constructor|]. constructor; [done|].
    eapply Forall_impl; [exact Hy|]. intros z. by apply cmp_lt_trans.
  - constructor; [done|]. apply Forall_forall. intros z [->|Hz]%elem_of_set_insert.
    + by apply cmp_lt_gt.
    + by eapply Forall_forall in Hy.
Qed.

Lemma sorted_cons x l : sorted (x :: l) <-> sorted l /\ Forall (fun y => cmp x y = Lt) l.
Proof using Type. split; [apply StronglySorted_inv|]. intros [??]. by constructor. Qed.

Lemma set_collect_app l x : set_collect (l ++ [x]) = set_insert x (set_collect l).
Proof using Type. unfold set_collect. by rewrite foldl_app. Qed.

Lemma set_collect_sorted l : sorted (set_collect l).
Proof.
  induction l as [|x l IH] using rev_ind; [constructor|]. rewrite set_collect_app. by apply set_insert_sorted.
Qed.

Lemma elem_of_set_collect x l : x ∈ set_collect l <-> x ∈ l.
Proof.
  induction l as [|y l IH] using rev_ind; [done|]. rewrite set_collect_app, elem_of_set_insert, IH. set_solver.
Qed.

(** A sorted list is determined by its elements. *)
Lemma sorted_ext l k : sorted l -> sorted k -> (forall x, x ∈ l <-> x ∈ k) -> l = k.
Proof.
  intros Hl. revert k. induction Hl as [|x l Hl IH Hx]; intros k Hk Hext.
  { destruct k as [|y k]; [done|]. exfalso. eapply not_elem_of_nil, Hext. left. }
  destruct Hk as [|y k Hk Hy]; [exfalso; eapply not_elem_of_nil, Hext; left|].
  rewrite Forall_forall in Hx, Hy.
  assert (x = y) as <-.
  { pose proof (proj1 (Hext x) ltac:(set_solver)) as [->|H1]%elem_of_cons; [done|].
    pose proof (proj2 (Hext y) ltac:(set_solver)) as [->|H2]%elem_of_cons; [done|].
    apply Hy in H1. apply Hx, cmp_lt_gt in H2. congruence. }
  f_equal. apply IH; [done|]. intros z. specialize (Hext z). rewrite !elem_of_cons in Hext.
  split; intros Hz.
  - destruct (proj1 Hext) as [->|]; [by right| |done]. by apply Hx, cmp_lt_irrefl in Hz.
  - destruct (proj2 Hext) as [->|]; [by right| |done]. by apply Hy, cmp_lt_irrefl in Hz.
Qed.

Lemma set_collect_id l : sorted l -> set_collect l = l.
Proof.
  intros Hl. apply sorted_ext; [apply set_collect_sorted|done|]. intros x. apply elem_of_set_collect.
Qed.

Lemma sorted_NoDup l : sorted l -> NoDup l.
Proof.
  induction 1 as [|x l Hl IH Hx]; [constructor|]. constructor; [|done]. intros Hin.
  rewrite Forall_forall in Hx. by apply Hx, cmp_lt_irrefl in Hin.
Qed.

Lemma sorted_filter (P : A -> Prop) `{forall x, Decision (P x)} l : sorted l -> sorted (filter P l).
Proof using Type.
  induction 1 as [|x l Hl IH Hx]; [constructor|]. rewrite filter_cons. case_decide; [|done].
  constructor; [done|]. apply Forall_forall. intros y [_ Hy]%list_elem_of_filter.
  by eapply Forall_forall in Hx.
Qed.
End btree_set.

(** ** [BTreeMap] *)

Section btree_map.
Context {K V : Type} `{CmpLaws K}.

Fixpoint map_insert (k : K) (v : V) (m : list (K * V)) : list (K * V) :=
  match m with
  | [] => [(k, v)]
  | (k', v') :: m' =>
      match cmp k k' with
      | Lt => (k, v) :: m
      | Eq => (k', v) :: m'
      | Gt => (k', v') :: map_insert k v m'
      end
  end.

Fixpoint map_get (k : K) (m : list (K * V)) : option V :=
  match m with
  | [] => None
  | (k', v) :: m' => match cmp k k' with Eq => Some v | _ => map_get k m' end
  end.

Definition map_remove (k : K) (m : list (K * V)) : list (K * V) :=
  List.filter (fun e => match cmp k e.1 with Eq => false | _ => true end) m.

Definition map_collect (l : list (K * V)) : list (K * V) := foldl (fun m e => map_insert e.1 e.2 m) [] l.

Lemma map_get_insert k k' v m :
  map_get k (map_insert k' v m) = match cmp k k' with Eq => Some v | _ => map_get k m end.
Proof.
  induction m as [|[k0 v0] m IH]; cbn; [done|]. destruct (cmp k' k0) eqn:E; cbn.
  - apply cmp_eq_iff in E as ->. by destruct (cmp k k0).
  - done.
  - rewrite IH. destruct (cmp k k') eqn:E1; [|done|done].
    apply cmp_eq_iff in E1 as ->. by rewrite E.
Qed.

Lemma map_get_remove k k' m :
  map_get k (map_remove k' m) = match cmp k k' with Eq => None | _ => map_get k m end.
Proof.
  induction m as [|[k0 v0] m IH]; cbn; [by destruct (cmp k k')|].
  destruct (cmp k' k0) eqn:E; cbn; rewrite ?IH.
  - apply cmp_eq_iff in E as ->. by destruct (cmp k k0).
  - destruct (cmp k k0) eqn:E0; [|done|done]. apply cmp_eq_iff in E0 as ->.
    by rewrite (cmp_opp k' k0), E.
  - destruct (cmp k k0) eqn:E0; [|done|done]. apply cmp_eq_iff in E0 as ->.
    by rewrite (cmp_opp k' k0), E.
Qed.

Lemma map_insert_keys k v m : (map_insert k v m).*1 = set_insert k m.*1.
Proof using Type. induction m as [|[k0 v0] m IH]; cbn; [done|]. destruct (cmp k k0); cbn; [done..|]. by rewrite IH. Qed.

Lemma map_collect_keys l : (map_collect l).*1 = set_collect l.*1.
Proof using Type.
  unfold map_collect, set_collect. change (@nil K) with (@nil (K * V)).*1. generalize (@nil (K * V)).
  induction l as [|[k v] l IH]; intros m; cbn; [done|]. by rewrite IH, map_insert_keys.
Qed.

Lemma map_get_key k m : is_Some (map_get k m) <-> k ∈ m.*1.
Proof.
  induction m as [|[k0 v0] m IH]; cbn; [split; [by intros []|by intros ?%elem_of_nil]|].
  rewrite elem_of_cons, <- IH, <- cmp_eq_iff. destruct (cmp k k0); naive_solver.
Qed.

Lemma map_get_elem k v m : sorted m.*1 -> (map_get k m = Some v <-> (k, v) ∈ m).
Proof.
  intros Hs. apply sorted_NoDup in Hs. induction m as [|[k0 v0] m IH]; cbn; [split; [done|by intros ?%elem_of_nil]|].
  apply NoDup_cons in Hs as [Hk Hs]. rewrite elem_of_cons. destruct (cmp k k0) eqn:E.
  - apply cmp_eq_iff in E as ->. split; [intros [= ->]; by left|]. intros [[= ->]|Hin]; [done|].
    destruct Hk. apply list_elem_of_fmap. by exists (k0, v).
  - rewrite IH by done. split; [by right|]. intros [[= -> ->]|]; [|done]. by rewrite cmp_refl in E.
  - rewrite IH by done. split; [by right|]. intros [[= -> ->]|]; [|done]. by rewrite cmp_refl in E.
Qed.

Lemma map_collect_get k v l : NoDup l.*1 -> (map_get k (map_collect l) = Some v <-> (k, v) ∈ l).
Proof.
  unfold map_collect. induction l as [|[k0 v0] l IH] using rev_ind; [cbn; split; [done|by intros ?%elem_of_nil]|].
  rewrite fmap_app, NoDup_app. intros (Hd & Hn & _). rewrite foldl_app. cbn. rewrite map_get_insert, elem_of_app, list_elem_of_singleton.
  destruct (cmp k k0) eqn:E; rewrite ?IH by done.
  - apply cmp_eq_iff in E as ->. split; [intros [= ->]; by right|]. intros [Hin|[= ->]]; [|done].
    destruct (Hn k0); [apply list_elem_of_fmap; by exists (k0, v)|by left].
  - split; [by left|]. intros [|[= -> ->]]; [done|]. by rewrite cmp_refl in E.
  - split; [by left|]. intros [|[= -> ->]]; [done|]. by rewrite cmp_refl in E.
Qed.

(** Collecting keeps the last of the values of a key. *)
Lemma map_collect_app k l l' :
  map_get k (map_collect (l ++ l'))
  = match map_get k (map_collect l') with Some v => Some v | None => map_get k (map_collect l) end.
Proof.
  unfold map_collect. induction l' as [|[k0 v0] l' IH] using rev_ind; [by rewrite app_nil_r|].
  rewrite app_assoc, !foldl_app in *. cbn. rewrite !map_get_insert, IH. by destruct (cmp k k0).
Qed.

Lemma map_remove_sorted k m : sorted m.*1 -> sorted (map_remove k m).*1.
Proof.
  intros Hs. unfold map_remove. induction m as [|[k0 v0] m IH]; [done|]. cbn in *. apply sorted_cons in Hs as [Hs Hk].
  destruct (cmp k k0); cbn; [by apply IH|..]; apply sorted_cons; (split; [by apply IH|]);
    (eapply incl_Forall; [|exact Hk]; intros x Hx; apply in_map_iff in Hx as (e & <- & [He _]%filter_In); by apply in_map).
Qed.
End btree_map.

Lemma set_insert_present {A} `{CmpLaws A} (x : A) l : sorted l -> x ∈ l -> set_insert x l = l.
Proof.
  intros Hs Hx. apply sorted_ext; [by apply set_insert_sorted|done|]. intros y. rewrite elem_of_set_insert. naive_solver.
Qed.

Lemma elem_of_concat {A} (x : A) ll : x ∈ concat ll <-> exists l, l ∈ ll /\ x ∈ l.
Proof. rewrite list_elem_of_In, in_concat. setoid_rewrite <- list_elem_of_In. done. Qed.
