(* ===== verification/StoneRelation.v ===== *)
(** * Package relations

    [crates/stone/src/relation.rs]: dependencies and providers as a capability
    namespace and a target, their two printed forms and the parsers.  [Dependency] and
    [Provider] are two structures of one macro; [Relation] models both.  Strings are
    their UTF-8 bytes: the parsers only look at ASCII characters. *)

From S2P Require Import Prelude ByteStrings Ordered StoneRecords.

Module Kind.
Inductive t :=
  | PackageName | SharedLibrary | PkgConfig | Interpreter | CMake | Python | Binary
  | SystemBinary | PkgConfig32.
#[global] Instance eq_dec : EqDecision t.
Proof. solve_decision. Defined.

(** [strum::Display]: the [serialize] attribute, else the lowercased variant name. *)
Definition to_string (k : t) : bytes :=
  bstr match k with
  | PackageName => "name" | SharedLibrary => "soname" | PkgConfig => "pkgconfig"
  | Interpreter => "interpreter" | CMake => "cmake" | Python => "python" | Binary => "binary"
  | SystemBinary => "sysbinary" | PkgConfig32 => "pkgconfig32"
  end.

Definition all : list t :=
  [PackageName; SharedLibrary; PkgConfig; Interpreter; CMake; Python; Binary; SystemBinary; PkgConfig32].

(** [strum::EnumString]: the variant that serializes to the string. *)
Definition parse (s : bytes) : option t := List.find (fun k => bool_decide (to_string k = s)) all.

Definition from_stone_dependency (d : MetaDependency.t) : option t :=
  match d with
  | MetaDependency.PackageName => Some PackageName
  | MetaDependency.SharedLibrary => Some SharedLibrary
  | MetaDependency.PkgConfig => Some PkgConfig
  | MetaDependency.Interpreter => Some Interpreter
  | MetaDependency.CMake => Some CMake
  | MetaDependency.Python => Some Python
  | MetaDependency.Binary => Some Binary
  | MetaDependency.SystemBinary => Some SystemBinary
  | MetaDependency.PkgConfig32 => Some PkgConfig32
  | MetaDependency.Unknown => None
  end.

Definition into_stone (k : t) : MetaDependency.t :=
  match k with
  | PackageName => MetaDependency.PackageName
  | SharedLibrary => MetaDependency.SharedLibrary
  | PkgConfig => MetaDependency.PkgConfig
  | Interpreter => MetaDependency.Interpreter
  | CMake => MetaDependency.CMake
  | Python => MetaDependency.Python
  | Binary => MetaDependency.Binary
  | SystemBinary => MetaDependency.SystemBinary
  | PkgConfig32 => MetaDependency.PkgConfig32
  end.
End Kind.

Module ParseError.
Inductive t :=
  | EmptyTarget (value : bytes)
  | Malformed (value : bytes)
  | UnsupportedKind (kind : bytes).
End ParseError.

Abbreviation parsed := (result ParseError.t).

Definition LPAREN : byte := "(".
Definition RPAREN : byte := ")".

Definition validate_bare (value : bytes) : parsed unit :=
  if bool_decide (value = []) then Err (ParseError.EmptyTarget value)
  else if contains RPAREN value then Err (ParseError.Malformed value)
  else Ok tt.

(** The loop over the characters; [depth] is a [u32]. *)
Fixpoint target_depth (depth : Z) (target : bytes) : option Z :=
  match target with
  | [] => Some depth
  | c :: target' =>
      if bool_decide (c = LPAREN) then target_depth (wrap 32 (depth + 1)) target'
      else if bool_decide (c = RPAREN) then
        if (depth =? 0)%Z then None else target_depth (depth - 1) target'
      else target_depth depth target'
  end.

Definition validate_target (target value : bytes) : parsed unit :=
  reject (ParseError.EmptyTarget value) when (bool_decide (target = []));;
  depth ← ok_or (target_depth 0 target) (ParseError.Malformed value);
  reject (ParseError.Malformed value) when (negb (depth =? 0)%Z).

Definition parse (value : bytes) : parsed (Kind.t * bytes) :=
  split ← ok_or (split_once LPAREN value) (ParseError.Malformed value);
  let '(kind, rest) := split in
  reject (ParseError.Malformed value) when (negb (ends_with RPAREN rest));;
  k ← ok_or (Kind.parse kind) (ParseError.UnsupportedKind kind);
  let name := but_last rest in
  validate_target name value;;
  Ok (k, name).

(** ** [relation_type!] *)

Record Relation := { rel_kind : Kind.t; rel_name : bytes }.
#[global] Instance relation_eq_dec : EqDecision Relation.
Proof. solve_decision. Defined.

Definition to_string (r : Relation) : bytes :=
  Kind.to_string (rel_kind r) ++ [LPAREN] ++ rel_name r ++ [RPAREN].

Definition relation_new (kind : Kind.t) (name : bytes) : parsed Relation :=
  validate_target name (to_string {| rel_kind := kind; rel_name := name |});;
  Ok {| rel_kind := kind; rel_name := name |}.

Definition package_name (name : bytes) : Relation := {| rel_kind := Kind.PackageName; rel_name := name |}.

Definition from_str (value : bytes) : parsed Relation :=
  p ← parse value; Ok {| rel_kind := p.1; rel_name := p.2 |}.

Definition from_name (value : bytes) : parsed Relation :=
  if contains LPAREN value then from_str value
  else validate_bare value;; Ok (package_name value).

Definition to_name (r : Relation) : bytes :=
  if bool_decide (rel_kind r = Kind.PackageName) then rel_name r else to_string r.

(** [Ord] compares the printed forms. *)
#[global] Instance relation_cmp : Cmp Relation := cmp_on to_string.

(** ** Lemmas *)

Lemma kind_parse k s : Kind.parse s = Some k <-> s = Kind.to_string k.
Proof.
  unfold Kind.parse. split.
  - intros [_ H]%find_some. bool_prop. done.
  - intros ->. by destruct k.
Qed.

Lemma kind_plain k : LPAREN ∉ Kind.to_string k.
Proof. apply contains_false. by destruct k. Qed.

#[global] Instance kind_to_string_inj : Inj (=) (=) Kind.to_string.
Proof. intros a b H. apply (inj Some). by rewrite <- (proj2 (kind_parse _ _) H), (proj2 (kind_parse a _) eq_refl). Qed.

Lemma split_to_string r :
  split_once LPAREN (to_string r) = Some (Kind.to_string (rel_kind r), rel_name r ++ [RPAREN]).
Proof. apply split_once_Some. split; [done|apply kind_plain]. Qed.

#[global] Instance to_string_inj : Inj (=) (=) to_string.
Proof.
  intros [k n] [k' n'] H. pose proof (split_to_string {| rel_kind := k; rel_name := n |}) as Hs.
  rewrite H, split_to_string in Hs. cbn in Hs. injection Hs as Hk Hn.
  apply (inj Kind.to_string) in Hk. apply app_inv_tail in Hn. by subst.
Qed.

#[global] Instance relation_cmp_laws : CmpLaws Relation.
Proof. apply cmp_on_laws. apply _. Qed.

(** The value only names the error. *)
Lemma validate_target_ok target v w : validate_target target v = Ok tt <-> validate_target target w = Ok tt.
Proof.
  unfold validate_target. destruct (bool_decide (target = [])); cbn; [done|].
  by destruct (target_depth 0 target) as [d|]; cbn; [destruct (d =? 0)%Z|].
Qed.

Definition valid_target (target : bytes) : Prop := validate_target target [] = Ok tt.

Lemma from_str_ok value r : from_str value = Ok r <-> value = to_string r /\ valid_target (rel_name r).
Proof.
  unfold from_str, parse, valid_target. split.
  - intros Hp. inv_ok. destruct x0 as [kind rest]. inv_ok. bool_prop.
    destruct (proj1 (split_once_Some _ _ _ _) Hr0) as [-> _]. apply kind_parse in Hr1 as ->.
    apply but_last_app in Hr. cbn [fst snd rel_kind rel_name]. split; [|by eapply validate_target_ok].
    unfold to_string. cbn [rel_kind rel_name]. cbn [app]. by rewrite <- Hr.
  - intros [-> Hv]. rewrite split_to_string. cbn [ok_or mbind result_bind]. rewrite ends_with_snoc.
    cbn [negb reject_if mbind result_bind]. rewrite (proj2 (kind_parse _ _) eq_refl).
    cbn [ok_or mbind result_bind]. rewrite but_last_snoc.
    rewrite (proj1 (validate_target_ok _ [] (to_string r)) Hv). by destruct r.
Qed.

Lemma relation_new_ok k n r :
  relation_new k n = Ok r <-> r = {| rel_kind := k; rel_name := n |} /\ valid_target n.
Proof.
  unfold relation_new, valid_target. split.
  - intros H. inv_ok. split; [done|]. by eapply validate_target_ok.
  - intros [-> Hv]. by rewrite (proj1 (validate_target_ok _ [] (to_string {| rel_kind := k; rel_name := n |})) Hv).
Qed.

Lemma target_depth_plain d s : LPAREN ∉ s -> RPAREN ∉ s -> target_depth d s = Some d.
Proof.
  induction s as [|c s IH]; cbn; [done|]. rewrite !not_elem_of_cons. intros [H1 H2] [H3 H4].
  rewrite !bool_decide_eq_false_2 by congruence. by apply IH.
Qed.

(** A target in which every parenthesis closes an open one ends with depth 0, so one
    without opening parentheses has no closing ones. *)
Lemma target_depth_closing s : LPAREN ∉ s -> target_depth 0 s = Some 0%Z -> RPAREN ∉ s.
Proof.
  induction s as [|c s IH]; cbn; [intros; apply not_elem_of_nil|]. rewrite !not_elem_of_cons. intros [H1 H2].
  rewrite bool_decide_eq_false_2 by congruence. case_bool_decide; [done|]. naive_solver.
Qed.

Lemma valid_target_closing s : LPAREN ∉ s -> valid_target s -> s <> [] /\ RPAREN ∉ s.
Proof.
  unfold valid_target, validate_target. intros Hn Hv. inv_ok. bool_prop. subst.
  split; [done|]. by apply target_depth_closing.
Qed.

Lemma from_name_bare s : LPAREN ∉ s -> valid_target s -> from_name s = Ok (package_name s).
Proof.
  intros Hn Hv. unfold from_name. rewrite (proj2 (contains_false _ _) Hn).
  destruct (valid_target_closing s Hn Hv) as [He Hr]. unfold validate_bare.
  by rewrite bool_decide_eq_false_2, (proj2 (contains_false _ _) Hr).
Qed.

Lemma from_name_typed r : valid_target (rel_name r) -> from_name (to_string r) = Ok r.
Proof.
  intros Hv. unfold from_name. rewrite (proj2 (contains_true _ _)); [by apply from_str_ok|].
  unfold to_string. rewrite !elem_of_app. right. left. by left.
Qed.

Lemma package_name_unparsed r s : LPAREN ∈ s -> from_name s = Ok r -> to_string r = s.
Proof.
  intros Hs. unfold from_name. rewrite (proj2 (contains_true _ _) Hs). by intros [-> _]%from_str_ok.
Qed.

(** The printed form of a relation identifies it.  [from_str] accepts exactly the
    printed forms of relations with a valid target and is inverse to [to_string]; the
    order of relations is total and its [Equal] is equality. *)
Theorem relation_print_parse value r s t :
  (from_str value = Ok r <-> value = to_string r /\ relation_new (rel_kind r) (rel_name r) = Ok r)
  /\ (to_string r = to_string s <-> r = s)
  /\ (cmp r s = Eq <-> r = s) /\ cmp s r = reverse (cmp r s)
  /\ (cmp r s = Lt -> cmp s t = Lt -> cmp r t = Lt).
Proof.
  split_and!.
  - rewrite from_str_ok, relation_new_ok. destruct r; cbn. tauto.
  - split; [apply (inj to_string)|by intros ->].
  - apply cmp_eq_iff.
  - apply cmp_opp.
  - apply cmp_lt_trans.
Qed.

(** C22: the authored form reads back, but for package names with parentheses.  For a
    validated relation, [from_name] of [to_name] gives it back exactly when it is not a
    package name or its name has no opening parenthesis: [name(soname(x))] is accepted
    and printed as [soname(x)], which reads as another relation. *)
Theorem authored_form_round_trip k n r :
  relation_new k n = Ok r ->
  (from_name (to_name r) = Ok r <-> k <> Kind.PackageName \/ LPAREN ∉ n).
Proof.
  intros [-> Hv]%relation_new_ok. unfold to_name. cbn [rel_kind rel_name].
  case_bool_decide as Hk; [|rewrite from_name_typed by done; tauto]. subst k. split.
  - intros Hf. right. intros Hin. apply package_name_unparsed in Hf; [|done].
    apply (f_equal length) in Hf. unfold to_string in Hf. cbn [rel_kind rel_name] in Hf.
    rewrite !length_app in Hf. cbn in Hf. lia.
  - intros [|Hn]; [done|]. by apply from_name_bare.
Qed.

Lemma authored_form_round_trip_witness :
  from_name (to_name {| rel_kind := Kind.SharedLibrary; rel_name := bstr "libz.so.1(x86_64)" |})
    = Ok {| rel_kind := Kind.SharedLibrary; rel_name := bstr "libz.so.1(x86_64)" |}
  /\ from_name (to_name (package_name (bstr "soname(x)"))) <> Ok (package_name (bstr "soname(x)")).
Proof.
  split.
  - apply (authored_form_round_trip Kind.SharedLibrary (bstr "libz.so.1(x86_64)")); [by vm_compute|by left].
  - intros H. apply (authored_form_round_trip Kind.PackageName (bstr "soname(x)")) in H; [|by vm_compute].
    destruct H as [H|H]; [done|]. apply H. apply contains_true. by vm_compute.
Defined.
