(* ===== verification/PackageMeta.v ===== *)
(** * Package metadata

    [crates/forge/src/package/meta.rs]: the metadata of a package, its encoding as
    records of a stone metadata payload, the lenient decoding of packages and the strict
    decoding of repository indices.  A [BTreeSet] of relations is the sorted list its
    iterator yields ([Ordered]). *)

From S2P Require Import Prelude Ordered StoneRecords StoneRelation.

Record Meta := {
  m_name : bytes;
  version_identifier : bytes;
  source_release : Z;
  build_release : Z;
  architecture : bytes;
  summary : bytes;
  description : bytes;
  source_id : bytes;
  homepage : bytes;
  licenses : list bytes;
  dependencies : list Relation;
  providers : list Relation;
  conflicts : list Relation;
  uri : option bytes;
  hash : option bytes;
  download_size : option Z;
}.

Abbreviation record := StonePayloadMetaRecord.
Definition rec (tag : MetaTag.t) (p : MetaPrimitive.t) : record := {| meta_tag := tag; meta_primitive := p |}.

(** [Iterator::find_map] *)
Fixpoint find_map {A B} (f : A -> option B) (l : list A) : option B :=
  match l with
  | [] => None
  | a :: l' => match f a with Some b => Some b | None => find_map f l' end
  end.

(** ** Lenient decoding *)

Definition meta_u64 (meta : record) (tag : MetaTag.t) : option Z :=
  if bool_decide (meta_tag meta = tag) then
    match meta_primitive meta with
    | MetaPrimitive.Int8 i | MetaPrimitive.Int16 i | MetaPrimitive.Int32 i | MetaPrimitive.Int64 i => Some (wrap 64 i)
    | MetaPrimitive.Uint8 i | MetaPrimitive.Uint16 i | MetaPrimitive.Uint32 i | MetaPrimitive.Uint64 i => Some i
    | _ => None
    end
  else None.

Definition meta_string (meta : record) (tag : MetaTag.t) : option bytes :=
  match meta_primitive meta with
  | MetaPrimitive.String value => if bool_decide (meta_tag meta = tag) then Some value else None
  | _ => None
  end.

Definition find_meta_string (meta : list record) (tag : MetaTag.t) : result MetaTag.t bytes :=
  ok_or (find_map (fun m => meta_string m tag) meta) tag.

Definition find_meta_u64 (meta : list record) (tag : MetaTag.t) : result MetaTag.t Z :=
  ok_or (find_map (fun m => meta_u64 m tag) meta) tag.

Definition stone_relation (kind : MetaDependency.t) (name : bytes) : option Relation :=
  k ← Kind.from_stone_dependency kind; Some {| rel_kind := k; rel_name := name |}.

Definition meta_dependency_relation (meta : record) : option Relation :=
  match meta_primitive meta with
  | MetaPrimitive.Dependency kind name => stone_relation kind name
  | _ => None
  end.

Definition meta_provider (meta : record) : option Relation :=
  match meta_tag meta, meta_primitive meta with
  | MetaTag.Provides, MetaPrimitive.Provider kind name => stone_relation kind name
  | _, _ => None
  end.

Definition meta_conflict (meta : record) : option Relation :=
  match meta_tag meta, meta_primitive meta with
  | MetaTag.Conflicts, MetaPrimitive.Provider kind name => stone_relation kind name
  | _, _ => None
  end.

Definition from_stone_payload (payload : list record) : result MetaTag.t Meta :=
  name ← find_meta_string payload MetaTag.Name;
  version_identifier ← find_meta_string payload MetaTag.Version;
  source_release ← find_meta_u64 payload MetaTag.Release;
  build_release ← find_meta_u64 payload MetaTag.BuildRelease;
  architecture ← find_meta_string payload MetaTag.Architecture;
  summary ← find_meta_string payload MetaTag.Summary;
  description ← find_meta_string payload MetaTag.Description;
  source_id ← find_meta_string payload MetaTag.SourceID;
  homepage ← find_meta_string payload MetaTag.Homepage;
  Ok {| m_name := name; version_identifier := version_identifier; source_release := source_release;
        build_release := build_release; architecture := architecture; summary := summary;
        description := description; source_id := source_id; homepage := homepage;
        licenses := omap (fun m => meta_string m MetaTag.License) payload;
        dependencies := set_collect (omap meta_dependency_relation payload);
        providers := set_collect (omap meta_provider payload ++ [package_name name]);
        conflicts := set_collect (omap meta_conflict payload);
        uri := result_ok (find_meta_string payload MetaTag.PackageURI);
        hash := result_ok (find_meta_string payload MetaTag.PackageHash);
        download_size := result_ok (find_meta_u64 payload MetaTag.PackageSize) |}.

(** ** Encoding *)

Definition dependency_record (d : Relation) : record :=
  rec MetaTag.Depends (MetaPrimitive.Dependency (Kind.into_stone (rel_kind d)) (rel_name d)).
Definition provider_record (p : Relation) : record :=
  rec MetaTag.Provides (MetaPrimitive.Provider (Kind.into_stone (rel_kind p)) (rel_name p)).
Definition conflict_record (c : Relation) : record :=
  rec MetaTag.Conflicts (MetaPrimitive.Provider (Kind.into_stone (rel_kind c)) (rel_name c)).
Definition opt_record {A} (tag : MetaTag.t) (f : A -> MetaPrimitive.t) (o : option A) : list record :=
  match o with Some a => [rec tag (f a)] | None => [] end.

Definition to_stone_payload (self : Meta) : list record :=
  [rec MetaTag.Name (MetaPrimitive.String (m_name self));
   rec MetaTag.Version (MetaPrimitive.String (version_identifier self));
   rec MetaTag.Release (MetaPrimitive.Uint64 (source_release self));
   rec MetaTag.BuildRelease (MetaPrimitive.Uint64 (build_release self));
   rec MetaTag.Architecture (MetaPrimitive.String (architecture self));
   rec MetaTag.Summary (MetaPrimitive.String (summary self));
   rec MetaTag.Description (MetaPrimitive.String (description self));
   rec MetaTag.SourceID (MetaPrimitive.String (source_id self));
   rec MetaTag.Homepage (MetaPrimitive.String (homepage self))]
  ++ opt_record MetaTag.PackageURI MetaPrimitive.String (uri self)
  ++ opt_record MetaTag.PackageHash MetaPrimitive.String (hash self)
  ++ opt_record MetaTag.PackageSize MetaPrimitive.Uint64 (download_size self)
  ++ ((fun l => rec MetaTag.License (MetaPrimitive.String l)) <$> licenses self)
  ++ (dependency_record <$> dependencies self)
  ++ (provider_record <$> filter (fun p => rel_kind p <> Kind.PackageName) (providers self))
  ++ (conflict_record <$> conflicts self).

(** ** Strict decoding of repository indices *)

Module RepositoryMetaError.
Inductive t :=
  | MissingField (tag : MetaTag.t)
  | DuplicateField (tag : MetaTag.t) (count : nat)
  | WrongPrimitive (tag : MetaTag.t) (expected : bytes)
  | NegativeInteger (tag : MetaTag.t)
  | EmptyField (tag : MetaTag.t)
  | IntegerOutOfRange (tag : MetaTag.t) (value : Z)
  | PackageSizeExceedsPolicy (limit : Z)
  | InvalidPackageHash
  | UnknownRelationKind (tag : MetaTag.t)
  | InvalidRelation (tag : MetaTag.t)
  | UnsupportedTag (tag : MetaTag.t).
End RepositoryMetaError.

Abbreviation strict := (result RepositoryMetaError.t).

Definition repository_record (payload : list record) (tag : MetaTag.t) : strict record :=
  match filter (fun r => meta_tag r = tag) payload with
  | [] => Err (RepositoryMetaError.MissingField tag)
  | [record] => Ok record
  | _ :: additional => Err (RepositoryMetaError.DuplicateField tag (length additional + 1))
  end.

Definition repository_string (payload : list record) (tag : MetaTag.t) : strict bytes :=
  record ← repository_record payload tag;
  match meta_primitive record with
  | MetaPrimitive.String value => Ok value
  | _ => Err (RepositoryMetaError.WrongPrimitive tag (bstr "string"))
  end.

Definition repository_nonempty_string (payload : list record) (tag : MetaTag.t) : strict bytes :=
  value ← repository_string payload tag;
  reject (RepositoryMetaError.EmptyField tag) when (bool_decide (value = []));;
  Ok value.

Definition repository_u64 (payload : list record) (tag : MetaTag.t) : strict Z :=
  record ← repository_record payload tag;
  match meta_primitive record with
  | MetaPrimitive.Int8 value | MetaPrimitive.Int16 value | MetaPrimitive.Int32 value | MetaPrimitive.Int64 value =>
      if (value <? 0)%Z then Err (RepositoryMetaError.NegativeInteger tag) else Ok value
  | MetaPrimitive.Uint8 value | MetaPrimitive.Uint16 value | MetaPrimitive.Uint32 value | MetaPrimitive.Uint64 value =>
      Ok value
  | _ => Err (RepositoryMetaError.WrongPrimitive tag (bstr "non-negative integer"))
  end.

(** [request::DEFAULT_DOWNLOAD_LIMITS.max_bytes] *)
Definition DEFAULT_DOWNLOAD_MAX_BYTES : Z := 8 * (1024 * 1024 * 1024).
Definition I32_MAX : Z := 2 ^ 31 - 1.
Definition I64_MAX : Z := 2 ^ 63 - 1.

(** [i32::try_from] and [i64::try_from] of a [u64] *)
Definition in_range (tag : MetaTag.t) (max value : Z) : strict unit :=
  reject (RepositoryMetaError.IntegerOutOfRange tag value) when (max <? value)%Z.

Definition relation_of (tag : MetaTag.t) (kind : MetaDependency.t) (value : bytes) : strict Relation :=
  k ← ok_or (Kind.from_stone_dependency kind) (RepositoryMetaError.UnknownRelationKind tag);
  map_err (fun _ => RepositoryMetaError.InvalidRelation tag) (relation_new k value).

(** The licenses, dependencies, providers and conflicts collected by the loop. *)
Definition collected : Type := list bytes * list Relation * list Relation * list Relation.

Definition collect_record (acc : collected) (r : record) : strict collected :=
  let '(licenses, dependencies, providers, conflicts) := acc in
  let tag := meta_tag r in
  match tag with
  | MetaTag.Name | MetaTag.Architecture | MetaTag.Version | MetaTag.Summary | MetaTag.Description
  | MetaTag.Homepage | MetaTag.SourceID | MetaTag.Release | MetaTag.BuildRelease
  | MetaTag.PackageURI | MetaTag.PackageHash | MetaTag.PackageSize => Ok acc
  | MetaTag.License =>
      match meta_primitive r with
      | MetaPrimitive.String license => Ok (licenses ++ [license], dependencies, providers, conflicts)
      | _ => Err (RepositoryMetaError.WrongPrimitive tag (bstr "string"))
      end
  | MetaTag.Depends =>
      match meta_primitive r with
      | MetaPrimitive.Dependency kind value =>
          dependency ← relation_of tag kind value;
          Ok (licenses, set_insert dependency dependencies, providers, conflicts)
      | _ => Err (RepositoryMetaError.WrongPrimitive tag (bstr "dependency"))
      end
  | MetaTag.Provides | MetaTag.Conflicts =>
      match meta_primitive r with
      | MetaPrimitive.Provider kind value =>
          provider ← relation_of tag kind value;
          if bool_decide (tag = MetaTag.Provides)
          then Ok (licenses, dependencies, set_insert provider providers, conflicts)
          else Ok (licenses, dependencies, providers, set_insert provider conflicts)
      | _ => Err (RepositoryMetaError.WrongPrimitive tag (bstr "provider"))
      end
  | unsupported => Err (RepositoryMetaError.UnsupportedTag unsupported)
  end.

Fixpoint collect_records (acc : collected) (payload : list record) : strict collected :=
  match payload with
  | [] => Ok acc
  | r :: payload' => acc' ← collect_record acc r; collect_records acc' payload'
  end.

Definition hash_byte (b : byte) : bool := is_lower_hex b.

Definition from_repository_index_payload (payload : list record) : strict Meta :=
  name ← repository_nonempty_string payload MetaTag.Name;
  version_identifier ← repository_nonempty_string payload MetaTag.Version;
  source_release ← repository_u64 payload MetaTag.Release;
  build_release ← repository_u64 payload MetaTag.BuildRelease;
  architecture ← repository_nonempty_string payload MetaTag.Architecture;
  summary ← repository_string payload MetaTag.Summary;
  description ← repository_string payload MetaTag.Description;
  source_id ← repository_nonempty_string payload MetaTag.SourceID;
  homepage ← repository_string payload MetaTag.Homepage;
  uri ← repository_nonempty_string payload MetaTag.PackageURI;
  hash ← repository_string payload MetaTag.PackageHash;
  download_size ← repository_u64 payload MetaTag.PackageSize;
  in_range MetaTag.Release I32_MAX source_release;;
  in_range MetaTag.BuildRelease I32_MAX build_release;;
  in_range MetaTag.PackageSize I64_MAX download_size;;
  reject (RepositoryMetaError.PackageSizeExceedsPolicy DEFAULT_DOWNLOAD_MAX_BYTES)
    when (DEFAULT_DOWNLOAD_MAX_BYTES <? download_size)%Z;;
  reject RepositoryMetaError.InvalidPackageHash
    when (negb (length hash =? 64)%nat || negb (forallb hash_byte hash));;
  acc ← collect_records ([], [], [], []) payload;
  let '(licenses, dependencies, providers, conflicts) := acc in
  own ← map_err (fun _ => RepositoryMetaError.InvalidRelation MetaTag.Name)
          (relation_new Kind.PackageName name);
  Ok {| m_name := name; version_identifier := version_identifier; source_release := source_release;
        build_release := build_release; architecture := architecture; summary := summary;
        description := description; source_id := source_id; homepage := homepage;
        licenses := licenses; dependencies := dependencies;
        providers := set_insert own providers; conflicts := conflicts;
        uri := Some uri; hash := Some hash; download_size := Some download_size |}.
