(* ===== verification/PackageMetaTheorems.v ===== *)
(** * Package metadata: decoding against encoding

    [PackageMeta]'s two decoders on arbitrary payloads and on encoded metadata. *)

From S2P Require Import Prelude Ordered StoneRecords StoneRelation PackageMeta.

Lemma find_map_filter {A B} (f : A -> option B) (P : A -> Prop) `{forall a, Decision (P a)} l :
  (forall a, is_Some (f a) -> P a) -> find_map f l = find_map f (filter P l).
Proof.
  intros HP. induction l as [|a l IH]; [done|]. rewrite filter_cons. cbn [find_map].
  destruct (f a) as [b|] eqn:E.
  - rewrite decide_True by eauto. cbn. by rewrite E.
  - case_decide; cbn; by rewrite ?E.
Qed.

Lemma omap_fmap_None {A B C} (f : B -> option C) (g : A -> B) (l : list A) :
  (forall a, f (g a) = None) -> omap f (g <$> l) = [].
Proof. intros H. induction l as [|a l IH]; cbn; [done|]. by rewrite H. Qed.

Lemma omap_fmap_Some {A B C} (f : B -> option C) (g : A -> B) (h : A -> C) (l : list A) :
  (forall a, f (g a) = Some (h a)) -> omap f (g <$> l) = h <$> l.
Proof. intros H. induction l as [|a l IH]; cbn; [done|]. by rewrite H, IH. Qed.

Lemma filter_fmap_none {A B} (P : B -> Prop) `{forall b, Decision (P b)} (g : A -> B) (l : list A) :
  (forall a, ~ P (g a)) -> filter P (g <$> l) = [].
Proof. intros H1. induction l as [|a l IH]; [done|]. cbn [fmap list_fmap]. by rewrite filter_cons_False. Qed.

Lemma stone_relation_into r : stone_relation (Kind.into_stone (rel_kind r)) (rel_name r) = Some r.
Proof. by destruct r as [[] n]. Qed.

Definition singleton_tag (t : MetaTag.t) : bool :=
  match t with
  | MetaTag.Name | MetaTag.Architecture | MetaTag.Version | MetaTag.Summary | MetaTag.Description
  | MetaTag.Homepage | MetaTag.SourceID | MetaTag.Release | MetaTag.BuildRelease
  | MetaTag.PackageURI | MetaTag.PackageHash | MetaTag.PackageSize => true
  | _ => false
  end.

(** The records of each singleton tag in an encoding. *)
Definition singletons (m : Meta) (t : MetaTag.t) : list record :=
  match t with
  | MetaTag.Name => [rec t (MetaPrimitive.String (m_name m))]
  | MetaTag.Version => [rec t (MetaPrimitive.String (version_identifier m))]
  | MetaTag.Release => [rec t (MetaPrimitive.Uint64 (source_release m))]
  | MetaTag.BuildRelease => [rec t (MetaPrimitive.Uint64 (build_release m))]
  | MetaTag.Architecture => [rec t (MetaPrimitive.String (architecture m))]
  | MetaTag.Summary => [rec t (MetaPrimitive.String (summary m))]
  | MetaTag.Description => [rec t (MetaPrimitive.String (description m))]
  | MetaTag.SourceID => [rec t (MetaPrimitive.String (source_id m))]
  | MetaTag.Homepage => [rec t (MetaPrimitive.String (homepage m))]
  | MetaTag.PackageURI => opt_record t MetaPrimitive.String (uri m)
  | MetaTag.PackageHash => opt_record t MetaPrimitive.String (hash m)
  | MetaTag.PackageSize => opt_record t MetaPrimitive.Uint64 (download_size m)
  | _ => []
  end.

Lemma payload_singletons m t :
  singleton_tag t = true -> filter (fun r => meta_tag r = t) (to_stone_payload m) = singletons m t.
Proof.
  intros Ht. unfold to_stone_payload. rewrite !filter_app.
  rewrite !(filter_fmap_none (fun r => meta_tag r = t)), !app_nil_r by (intros a; cbn; by intros <-).
  destruct t; try discriminate Ht; cbn [singletons]; by destruct (uri m), (hash m), (download_size m).
Qed.

Lemma find_string_payload m t :
  singleton_tag t = true ->
  find_meta_string (to_stone_payload m) t = ok_or (find_map (fun r => meta_string r t) (singletons m t)) t.
Proof.
  intros Ht. unfold find_meta_string. rewrite <- payload_singletons by done.
  rewrite (find_map_filter _ (fun r => meta_tag r = t)); [done|]. intros a. unfold meta_string.
  destruct (meta_primitive a); try by intros []. case_bool_decide; [done|by intros []].
Qed.

Lemma find_u64_payload m t :
  singleton_tag t = true ->
  find_meta_u64 (to_stone_payload m) t = ok_or (find_map (fun r => meta_u64 r t) (singletons m t)) t.
Proof.
  intros Ht. unfold find_meta_u64. rewrite <- payload_singletons by done.
  rewrite (find_map_filter _ (fun r => meta_tag r = t)); [done|]. intros a. unfold meta_u64.
  case_bool_decide; [done|by intros []].
Qed.

(** The relations and licenses in an encoding. *)
Lemma payload_omap {B} (f : record -> option B) m :
  (forall r, singleton_tag (meta_tag r) = true ->
     (exists s, meta_primitive r = MetaPrimitive.String s) \/ (exists i, meta_primitive r = MetaPrimitive.Uint64 i) ->
     f r = None) ->
  omap f (to_stone_payload m)
  = omap f ((fun l => rec MetaTag.License (MetaPrimitive.String l)) <$> licenses m)
    ++ omap f (dependency_record <$> dependencies m)
    ++ omap f (provider_record <$> filter (fun p => rel_kind p <> Kind.PackageName) (providers m))
    ++ omap f (conflict_record <$> conflicts m).
Proof.
  intros Hf. unfold to_stone_payload. rewrite !omap_app.
  assert (forall t p, singleton_tag t = true ->
    (exists s, p = MetaPrimitive.String s) \/ (exists i, p = MetaPrimitive.Uint64 i) -> f (rec t p) = None) as Hr
    by (intros t p Ht Hp; by apply Hf).
  cbn [omap list_omap]. rewrite !Hr by eauto.
  destruct (uri m), (hash m), (download_size m); cbn [opt_record omap list_omap]; rewrite ?Hr by eauto; done.
Qed.

(** The records of one kind are read back, those of the others skipped. *)
Ltac omaps f :=
  rewrite ?(omap_fmap_None f (fun l => rec MetaTag.License (MetaPrimitive.String l))) by done;
  rewrite ?(omap_fmap_None f dependency_record) by done;
  rewrite ?(omap_fmap_None f provider_record) by done;
  rewrite ?(omap_fmap_None f conflict_record) by done;
  rewrite (omap_fmap_Some f _ id) by first [done | apply stone_relation_into];
  rewrite list_fmap_id, ?app_nil_r; done.

Lemma payload_licenses m : omap (fun r => meta_string r MetaTag.License) (to_stone_payload m) = licenses m.
Proof.
  rewrite payload_omap.
  - omaps (fun r => meta_string r MetaTag.License).
  - intros [t p] Ht Hp. cbn in *. destruct Hp as [[s ->]|[i ->]]; [|done]. unfold meta_string. cbn.
    by rewrite bool_decide_eq_false_2 by (by intros ->).
Qed.

Lemma payload_dependencies m : omap meta_dependency_relation (to_stone_payload m) = dependencies m.
Proof.
  rewrite payload_omap.
  - omaps meta_dependency_relation.
  - intros [t p] _ Hp. cbn in *. by destruct Hp as [[s ->]|[i ->]].
Qed.

Lemma payload_providers m :
  omap meta_provider (to_stone_payload m) = filter (fun p => rel_kind p <> Kind.PackageName) (providers m).
Proof.
  rewrite payload_omap.
  - omaps meta_provider.
  - intros [t p] Ht _. by destruct t.
Qed.

Lemma payload_conflicts m : omap meta_conflict (to_stone_payload m) = conflicts m.
Proof.
  rewrite payload_omap.
  - omaps meta_conflict.
  - intros [t p] Ht _. by destruct t.
Qed.

(** The providers an encoding decodes to: package names other than the own are gone. *)
Definition kept_providers (m : Meta) : list Relation :=
  set_collect (filter (fun p => rel_kind p <> Kind.PackageName) (providers m) ++ [package_name (m_name m)]).

Definition with_providers (ps : list Relation) (m : Meta) : Meta :=
  {| m_name := m_name m; version_identifier := version_identifier m; source_release := source_release m;
     build_release := build_release m; architecture := architecture m; summary := summary m;
     description := description m; source_id := source_id m; homepage := homepage m; licenses := licenses m;
     dependencies := dependencies m; providers := ps; conflicts := conflicts m; uri := uri m; hash := hash m;
     download_size := download_size m |}.

Definition sorted_sets (m : Meta) : Prop :=
  sorted (dependencies m) /\ sorted (providers m) /\ sorted (conflicts m).

Lemma with_providers_eq ps m : with_providers ps m = m <-> ps = providers m.
Proof. destruct m; cbn. split; [by intros [=]|by intros ->]. Qed.

Lemma decode_encode m :
  sorted_sets m -> from_stone_payload (to_stone_payload m) = Ok (with_providers (kept_providers m) m).
Proof.
  intros (Hd & _ & Hc). unfold from_stone_payload. rewrite !find_string_payload, !find_u64_payload by done.
  cbn [singletons find_map]. unfold meta_string, meta_u64. cbn [meta_primitive meta_tag rec].
  rewrite !bool_decide_eq_true_2 by done. cbn [ok_or mbind result_bind].
  rewrite payload_licenses, payload_dependencies, payload_providers, payload_conflicts.
  rewrite (set_collect_id (dependencies m)), (set_collect_id (conflicts m)) by done. unfold with_providers, kept_providers.
  by destruct (uri m), (hash m), (download_size m).
Qed.

Lemma kept_providers_eq m :
  sorted_sets m -> (kept_providers m = providers m <-> forall n, package_name n ∈ providers m <-> n = m_name m).
Proof.
  intros (_ & Hp & _). unfold kept_providers.
  assert (forall p, p ∈ set_collect (filter (fun p => rel_kind p <> Kind.PackageName) (providers m)
      ++ [package_name (m_name m)])
    <-> (rel_kind p <> Kind.PackageName /\ p ∈ providers m) \/ p = package_name (m_name m)) as Hk.
  { intros p. by rewrite elem_of_set_collect, elem_of_app, list_elem_of_filter, list_elem_of_singleton. }
  split.
  - intros E n. rewrite <- E, Hk. cbn. split; [|intros ->; by right].
    intros [[? _]|[=]]; [done|done].
  - intros Hn. apply sorted_ext; [apply set_collect_sorted|done|]. intros p. rewrite Hk. split.
    + intros [[_ ?]| ->]; [done|]. by apply Hn.
    + intros Hin. destruct (decide (rel_kind p = Kind.PackageName)) as [E|]; [|by left].
      right. destruct p as [k n]. cbn in E. subst k. f_equal. by apply Hn in Hin.
Qed.

(** C23: package metadata survives its stone payload.  Decoding an encoding gives the
    same metadata back exactly when the only package name among the providers is the
    package's own: other package names it provides are dropped by [to_stone_payload]. *)
Theorem metadata_round_trip m :
  sorted_sets m ->
  (from_stone_payload (to_stone_payload m) = Ok m
   <-> forall n, package_name n ∈ providers m <-> n = m_name m).
Proof.
  intros Hs. rewrite <- kept_providers_eq, <- with_providers_eq, decode_encode by done.
  split; [by intros [=]|by intros ->].
Qed.

(** ** Strict decoding *)

(** A record the strict decoder collects or skips. *)
Definition recordable (r : record) : Prop :=
  match meta_tag r with
  | MetaTag.License => exists s, meta_primitive r = MetaPrimitive.String s
  | MetaTag.Depends =>
      exists k n, meta_primitive r = MetaPrimitive.Dependency k n
        /\ is_Some (Kind.from_stone_dependency k) /\ valid_target n
  | MetaTag.Provides | MetaTag.Conflicts =>
      exists k n, meta_primitive r = MetaPrimitive.Provider k n
        /\ is_Some (Kind.from_stone_dependency k) /\ valid_target n
  | t => singleton_tag t = true
  end.

(** The dependency of a record the strict decoder looks for one in. *)
Definition strict_dependency (r : record) : option Relation :=
  if bool_decide (meta_tag r = MetaTag.Depends) then meta_dependency_relation r else None.

Definition insert_all (rs : list Relation) (s : list Relation) : list Relation :=
  foldl (fun s x => set_insert x s) s rs.

Definition collected_of (acc : collected) (payload : list record) : collected :=
  let '(ls, ds, ps, cs) := acc in
  (ls ++ omap (fun r => meta_string r MetaTag.License) payload,
   insert_all (omap strict_dependency payload) ds,
   insert_all (omap meta_provider payload) ps,
   insert_all (omap meta_conflict payload) cs).

Lemma relation_of_ok t k n r :
  relation_of t k n = Ok r <-> stone_relation k n = Some r /\ valid_target n.
Proof.
  unfold relation_of, stone_relation. destruct (Kind.from_stone_dependency k) as [k'|]; cbn; [|naive_solver].
  rewrite map_err_ok_iff, relation_new_ok. naive_solver.
Qed.

Lemma relation_of_total t k n :
  is_Some (Kind.from_stone_dependency k) -> valid_target n ->
  exists r, relation_of t k n = Ok r /\ stone_relation k n = Some r.
Proof.
  intros [k' Hk] Hv. exists {| rel_kind := k'; rel_name := n |}. rewrite relation_of_ok.
  unfold stone_relation. by rewrite Hk.
Qed.

Lemma bind_relation_of t k n (C : MetaDependency.t -> bytes -> MetaPrimitive.t) (f : Relation -> collected) g acc :
  (forall a b a' b', C a b = C a' b' -> a = a' /\ b = b') ->
  (forall x, stone_relation k n = Some x -> f x = g) ->
  (relation_of t k n ≫= fun x => Ok (f x)) = Ok acc
  <-> (exists k' n', C k n = C k' n' /\ is_Some (Kind.from_stone_dependency k') /\ valid_target n') /\ acc = g.
Proof.
  intros HC Hf. rewrite bind_ok_iff. split.
  - intros (x & [Hx Hv]%relation_of_ok & [= <-]). rewrite (Hf x Hx). split; [|done]. exists k, n.
    unfold stone_relation in Hx. by destruct (Kind.from_stone_dependency k).
  - intros [(k' & n' & [<- <-]%HC & Hk & Hv) ->]. destruct (relation_of_total t k n Hk Hv) as (x & Hx & Hs).
    exists x. split; [done|]. by rewrite (Hf x Hs).
Qed.

Lemma collect_record_ok acc r acc' :
  collect_record acc r = Ok acc' <-> recordable r /\ acc' = collected_of acc [r].
Proof.
  destruct acc as [[[ls ds] ps] cs], r as [t p]. unfold collect_record, recordable, collected_of.
  unfold strict_dependency, meta_string, meta_provider, meta_conflict, meta_dependency_relation.
  cbn [meta_tag meta_primitive omap list_omap].
  destruct t;
    lazymatch goal with
    | |- _ <-> (singleton_tag _ = true) /\ _ =>
        destruct p; cbn; rewrite ?app_nil_r;
        first [ split; [by intros [= <-]|by intros [_ ->]] | split; [done|by intros [? _]] ]
    | |- _ =>
        destruct p; try (split; [done|by intros [(? & [=]) _]]); try (split; [done|by intros [(? & ? & [=] & _) _]])
    end.
  - apply (bind_relation_of _ _ _ MetaPrimitive.Dependency); [by intros ???? [= -> ->]|]. intros x ->.
    by rewrite app_nil_r.
  - apply (bind_relation_of _ _ _ MetaPrimitive.Provider (fun x => (ls, ds, set_insert x ps, cs)));
      [by intros ???? [= -> ->]|]. intros x ->. by rewrite app_nil_r.
  - apply (bind_relation_of _ _ _ MetaPrimitive.Provider (fun x => (ls, ds, ps, set_insert x cs)));
      [by intros ???? [= -> ->]|]. intros x ->. by rewrite app_nil_r.
  - split; [intros [= <-]; by eauto|by intros [_ ->]].
Qed.

Lemma collected_of_cons acc r payload :
  collected_of acc (r :: payload) = collected_of (collected_of acc [r]) payload.
Proof.
  destruct acc as [[[ls ds] ps] cs]. unfold collected_of, insert_all.
  change (r :: payload) with ([r] ++ payload). by rewrite !omap_app, !foldl_app, app_assoc.
Qed.

Lemma collect_records_ok payload : forall acc acc',
  collect_records acc payload = Ok acc' <-> Forall recordable payload /\ acc' = collected_of acc payload.
Proof.
  induction payload as [|r payload IH]; intros acc acc'; cbn [collect_records].
  { destruct acc as [[[ls ds] ps] cs]. cbn. rewrite app_nil_r. split; [by intros [= <-]|by intros [_ ->]]. }
  rewrite bind_ok_iff, Forall_cons, collected_of_cons. split.
  - intros (a & [Hr ->]%collect_record_ok & [Hp ->]%IH). done.
  - intros [[Hr Hp] ->]. exists (collected_of acc [r]). by rewrite collect_record_ok, IH.
Qed.

Lemma insert_all_collect rs : insert_all rs [] = set_collect rs.
Proof. done. Qed.

(** ** Singleton fields *)

Definition unsigned (p : MetaPrimitive.t) : option Z :=
  match p with
  | MetaPrimitive.Int8 i | MetaPrimitive.Int16 i | MetaPrimitive.Int32 i | MetaPrimitive.Int64 i =>
      if (i <? 0)%Z then None else Some i
  | MetaPrimitive.Uint8 i | MetaPrimitive.Uint16 i | MetaPrimitive.Uint32 i | MetaPrimitive.Uint64 i => Some i
  | _ => None
  end.

Lemma repository_record_ok p t r :
  repository_record p t = Ok r <-> filter (fun r => meta_tag r = t) p = [r].
Proof. unfold repository_record. destruct (filter _ p) as [|? [|]]; naive_solver. Qed.

Lemma filter_tag p t r : filter (fun r => meta_tag r = t) p = [r] -> meta_tag r = t.
Proof. intros E. assert (r ∈ filter (fun r => meta_tag r = t) p) as H by (rewrite E; left). by apply list_elem_of_filter in H as [? _]. Qed.

Lemma repository_string_ok p t s :
  repository_string p t = Ok s <-> filter (fun r => meta_tag r = t) p = [rec t (MetaPrimitive.String s)].
Proof.
  unfold repository_string. rewrite bind_ok_iff. split.
  - intros (r & Hr & Hs). apply repository_record_ok in Hr. pose proof (filter_tag _ _ _ Hr) as <-.
    destruct r as [t' []]; try discriminate Hs. by injection Hs as <-.
  - intros E. eexists. by rewrite repository_record_ok.
Qed.

Lemma repository_nonempty_ok p t s :
  repository_nonempty_string p t = Ok s
  <-> filter (fun r => meta_tag r = t) p = [rec t (MetaPrimitive.String s)] /\ s <> [].
Proof.
  unfold repository_nonempty_string. rewrite bind_ok_iff. split.
  - intros (s' & Hs & Hn). apply seq_ok_iff in Hn as [Hn [= ->]].
    apply reject_ok_iff, bool_decide_eq_false in Hn. by rewrite <- repository_string_ok.
  - intros [E Hn]. exists s. rewrite repository_string_ok. split; [done|]. by rewrite bool_decide_eq_false_2.
Qed.

Lemma repository_u64_ok p t n :
  repository_u64 p t = Ok n
  <-> exists q, filter (fun r => meta_tag r = t) p = [rec t q] /\ unsigned q = Some n.
Proof.
  unfold repository_u64. rewrite bind_ok_iff. split.
  - intros (r & Hr & Hn). apply repository_record_ok in Hr. pose proof (filter_tag _ _ _ Hr) as <-.
    exists (meta_primitive r). destruct r as [t' q]. split; [done|]. cbn [meta_primitive meta_tag] in *.
    destruct q; try discriminate Hn; cbn; try destruct (_ <? 0)%Z; congruence.
  - intros (q & E & Hq). exists (rec t q). rewrite repository_record_ok. split; [done|].
    destruct q; try discriminate Hq; cbn in *; try destruct (_ <? 0)%Z; congruence.
Qed.

(** Integers of a record in the range of their Rust types. *)
Definition int_typed (r : record) : Prop :=
  match meta_primitive r with
  | MetaPrimitive.Int8 i => in_signed 8 i
  | MetaPrimitive.Int16 i => in_signed 16 i
  | MetaPrimitive.Int32 i => in_signed 32 i
  | MetaPrimitive.Int64 i => in_signed 64 i
  | _ => True
  end.

Lemma find_string_strict p t s :
  filter (fun r => meta_tag r = t) p = [rec t (MetaPrimitive.String s)] -> find_meta_string p t = Ok s.
Proof.
  intros E. unfold find_meta_string. rewrite (find_map_filter _ (fun r => meta_tag r = t)), E.
  - unfold meta_string. cbn. by rewrite bool_decide_eq_true_2.
  - intros a. unfold meta_string. destruct (meta_primitive a); try by intros []. case_bool_decide; [done|by intros []].
Qed.

Lemma find_u64_strict p t q n :
  Forall int_typed p -> filter (fun r => meta_tag r = t) p = [rec t q] -> unsigned q = Some n ->
  find_meta_u64 p t = Ok n.
Proof.
  intros Ht E Hq. unfold find_meta_u64. rewrite (find_map_filter _ (fun r => meta_tag r = t)), E.
  - assert (rec t q ∈ p) as Hin.
    { eapply proj2, (list_elem_of_filter (fun r => meta_tag r = t)). rewrite E. left. }
    rewrite Forall_forall in Ht. specialize (Ht _ Hin). unfold meta_u64. cbn.
    rewrite bool_decide_eq_true_2 by done.
    destruct q; try discriminate Hq; cbn in *; try congruence;
      (destruct (Z.ltb_spec i 0); [discriminate|]); injection Hq as ->;
      unfold in_signed in Ht; rewrite wrap_small by (unfold in_width; lia); done.
  - intros a. unfold meta_u64. case_bool_decide; [done|by intros []].
Qed.

(** ** What the strict decoder accepts *)

Record index_decoded (p : list record) (m : Meta) : Prop := {
  id_name : repository_nonempty_string p MetaTag.Name = Ok (m_name m);
  id_version : repository_nonempty_string p MetaTag.Version = Ok (version_identifier m);
  id_release : repository_u64 p MetaTag.Release = Ok (source_release m);
  id_build : repository_u64 p MetaTag.BuildRelease = Ok (build_release m);
  id_architecture : repository_nonempty_string p MetaTag.Architecture = Ok (architecture m);
  id_summary : repository_string p MetaTag.Summary = Ok (summary m);
  id_description : repository_string p MetaTag.Description = Ok (description m);
  id_source : repository_nonempty_string p MetaTag.SourceID = Ok (source_id m);
  id_homepage : repository_string p MetaTag.Homepage = Ok (homepage m);
  id_uri : exists u, uri m = Some u /\ repository_nonempty_string p MetaTag.PackageURI = Ok u;
  id_hash : exists h, hash m = Some h /\ repository_string p MetaTag.PackageHash = Ok h
              /\ length h = 64 /\ forallb hash_byte h = true;
  id_size : exists n, download_size m = Some n /\ repository_u64 p MetaTag.PackageSize = Ok n
              /\ (n <= DEFAULT_DOWNLOAD_MAX_BYTES)%Z;
  id_release_max : (source_release m <= I32_MAX)%Z;
  id_build_max : (build_release m <= I32_MAX)%Z;
  id_recordable : Forall recordable p;
  id_licenses : licenses m = omap (fun r => meta_string r MetaTag.License) p;
  id_dependencies : dependencies m = set_collect (omap strict_dependency p);
  id_providers : providers m = set_collect (omap meta_provider p ++ [package_name (m_name m)]);
  id_conflicts : conflicts m = set_collect (omap meta_conflict p);
  id_valid : valid_target (m_name m);
}.

Lemma in_range_ok t max v : in_range t max v = Ok tt <-> (v <= max)%Z.
Proof. unfold in_range. rewrite reject_ok_iff. apply Z.ltb_ge. Qed.

Lemma strict_ok p m : from_repository_index_payload p = Ok m -> index_decoded p m.
Proof.
  unfold from_repository_index_payload. intros H. inv_ok.
  match goal with H : collect_records _ _ = Ok ?x |- _ => destruct x as [[[ls ds] ps] cs] end. inv_ok.
  repeat match goal with H : in_range _ _ _ = Ok _ |- _ => apply in_range_ok in H end.
  bool_prop.
  match goal with H : collect_records _ _ = Ok _ |- _ => apply collect_records_ok in H as [? [= -> -> -> ->]] end.
  match goal with H : relation_new _ _ = Ok _ |- _ => apply relation_new_ok in H as [-> ?] end.
  match goal with H : (_ =? 64)%nat = true |- _ => apply Nat.eqb_eq in H end.
  match goal with H : (_ <? _)%Z = false |- _ => apply Z.ltb_ge in H end.
  split; cbn; try done; eauto.
  by rewrite set_collect_app.
Qed.

Lemma strict_complete p m : index_decoded p m -> from_repository_index_payload p = Ok m.
Proof.
  intros [H1 H2 H3 H4 H5 H6 H7 H8 H9 (u & Hu & H10) (h & Hh & H11 & Hl & Hx) (n & Hn & H12 & Hmax) Hr Hb Hrec Hli Hd Hp Hc Hv].
  unfold from_repository_index_payload.
  rewrite H1, H2, H3, H4, H5, H6, H7, H8, H9, H10, H11, H12. cbn [mbind result_bind].
  rewrite (proj2 (in_range_ok _ _ _) Hr), (proj2 (in_range_ok _ _ _) Hb). cbn [mbind result_bind].
  rewrite (proj2 (in_range_ok _ _ _)) by (unfold DEFAULT_DOWNLOAD_MAX_BYTES, I64_MAX in *; lia).
  cbn [mbind result_bind]. rewrite (proj2 (Z.ltb_ge _ _) Hmax), Hl, Hx. cbn [mbind result_bind negb orb reject_if Nat.eqb].
  rewrite (proj2 (collect_records_ok p ([], [], [], []) _) (conj Hrec eq_refl)). cbn [mbind result_bind collected_of].
  rewrite (proj2 (relation_new_ok Kind.PackageName (m_name m) _) (conj eq_refl Hv)). cbn [mbind result_bind map_err].
  rewrite !insert_all_collect. cbn [app]. rewrite <- Hli, <- Hd, <- Hc.
  rewrite set_collect_app in Hp. unfold package_name in Hp. rewrite <- Hp. destruct m; cbn in *; by subst.
Qed.

(** ** The strict decoder against the lenient one *)

Definition valid_relations (rs : list Relation) : Prop := Forall (fun r => valid_target (rel_name r)) rs.

(** An entry of a repository index. *)
Record index_entry (m : Meta) : Prop := {
  ie_name : m_name m <> [] /\ valid_target (m_name m);
  ie_version : version_identifier m <> [];
  ie_architecture : architecture m <> [];
  ie_source : source_id m <> [];
  ie_releases : (source_release m <= I32_MAX)%Z /\ (build_release m <= I32_MAX)%Z;
  ie_uri : exists u, uri m = Some u /\ u <> [];
  ie_hash : exists h, hash m = Some h /\ length h = 64 /\ forallb hash_byte h = true;
  ie_size : exists n, download_size m = Some n /\ (n <= DEFAULT_DOWNLOAD_MAX_BYTES)%Z;
  ie_relations : valid_relations (dependencies m) /\ valid_relations (providers m) /\ valid_relations (conflicts m);
  ie_sorted : sorted_sets m;
  ie_own : package_name (m_name m) ∈ providers m;
}.

Lemma stone_relation_name k n r : stone_relation k n = Some r -> rel_name r = n.
Proof. unfold stone_relation. destruct (Kind.from_stone_dependency k); cbn; [|done]. by intros [= <-]. Qed.

(** Relations read from recordable records have valid targets. *)
Lemma recordable_valid p (f : record -> option Relation) :
  (forall r x, recordable r -> f r = Some x -> valid_target (rel_name x)) ->
  Forall recordable p -> valid_relations (set_collect (omap f p)).
Proof.
  intros Hf Hp. apply Forall_forall. intros x Hx. rewrite elem_of_set_collect in Hx.
  apply list_elem_of_omap in Hx as (r & Hr & E). rewrite Forall_forall in Hp. eauto.
Qed.

Lemma recordable_relation r x :
  recordable r -> strict_dependency r = Some x \/ meta_provider r = Some x \/ meta_conflict r = Some x ->
  valid_target (rel_name x).
Proof.
  unfold recordable, strict_dependency, meta_dependency_relation, meta_provider, meta_conflict.
  intros Hr Hx. destruct (decide (meta_tag r = MetaTag.Depends)) as [E|E].
  - rewrite E in *. rewrite bool_decide_eq_true_2 in Hx by done. destruct Hr as (k & n & E' & _ & Hv).
    rewrite E' in Hx. destruct Hx as [Hx|[Hx|Hx]]; try done. by rewrite (stone_relation_name _ _ _ Hx).
  - rewrite bool_decide_eq_false_2 in Hx by done. destruct Hx as [Hx|Hx]; [done|].
    destruct (meta_tag r); try (destruct Hx; congruence);
      destruct Hr as (k & n & E' & _ & Hv); rewrite E' in Hx; destruct Hx as [Hx|Hx]; try done;
      by rewrite (stone_relation_name _ _ _ Hx).
Qed.

Lemma index_decoded_entry p m : index_decoded p m -> index_entry m.
Proof.
  intros [H1 H2 _ _ H5 _ _ H8 _ (u & Hu & H10) (h & Hh & _ & Hl & Hx) (n & Hn & _ & Hmax) Hr Hb Hrec _ Hd Hp Hc Hv].
  apply repository_nonempty_ok in H1, H2, H5, H8, H10.
  split; [tauto..|done|naive_solver|naive_solver|naive_solver| | |].
  - rewrite Hd, Hp, Hc. split_and!; [eapply recordable_valid; [|done]; eauto using recordable_relation| |
      eapply recordable_valid; [|done]; eauto using recordable_relation].
    apply Forall_forall. intros x Hx'. rewrite elem_of_set_collect in Hx'. apply elem_of_app in Hx' as [Hx'|Hx'].
    + apply list_elem_of_omap in Hx' as (r & Hr' & E). rewrite Forall_forall in Hrec. eauto using recordable_relation.
    + apply list_elem_of_singleton in Hx' as ->. done.
  - unfold sorted_sets. rewrite Hd, Hp, Hc. split_and!; apply set_collect_sorted.
  - rewrite Hp, elem_of_set_collect. set_solver.
Qed.

(** A record of a singleton tag is the one the strict decoder read. *)
Lemma unique_record p r x :
  filter (fun r' => meta_tag r' = meta_tag r) p = [x] -> r ∈ p -> r = x.
Proof.
  intros E Hr. assert (r ∈ filter (fun r' => meta_tag r' = meta_tag r) p) as H by by apply list_elem_of_filter.
  rewrite E in H. by apply list_elem_of_singleton in H.
Qed.

Lemma singleton_plain p m t :
  index_decoded p m -> singleton_tag t = true ->
  exists q, filter (fun r => meta_tag r = t) p = [rec t q]
    /\ ((exists s, q = MetaPrimitive.String s) \/ is_Some (unsigned q)).
Proof.
  intros [H1 H2 H3 H4 H5 H6 H7 H8 H9 (u & _ & H10) (h & _ & H11 & _) (n & _ & H12 & _) _ _ _ _ _ _ _ _] Ht.
  rewrite repository_nonempty_ok in H1, H2, H5, H8, H10. rewrite repository_string_ok in H6, H7, H9, H11.
  rewrite repository_u64_ok in H3, H4, H12.
  destruct t; try discriminate Ht;
    first [ eexists; split; [eassumption|]; eauto
          | eexists; split; [eapply proj1; eassumption|]; eauto
          | match goal with H : exists q, filter _ p = [rec ?t q] /\ _ |- exists q, filter _ p = [rec ?t q] /\ _ =>
              destruct H as (q & ? & ?); eauto end ].
Qed.

Lemma strict_dependencies_exact p m :
  index_decoded p m -> omap meta_dependency_relation p = omap strict_dependency p.
Proof.
  intros Hd. pose proof (id_recordable _ _ Hd) as Hrec. rewrite Forall_forall in Hrec.
  assert (forall r, r ∈ p -> meta_dependency_relation r = strict_dependency r) as Hr.
  2:{ clear -Hr. induction p as [|r p IH]; [done|]. cbn. rewrite Hr, IH by set_solver. done. }
  intros r Hr. specialize (Hrec r Hr). unfold strict_dependency. case_bool_decide as Ht; [done|].
  unfold meta_dependency_relation. destruct (singleton_tag (meta_tag r)) eqn:Hs.
  - destruct (singleton_plain p m _ Hd Hs) as (q & Hq & Hp). rewrite (unique_record p r _ Hq Hr). cbn.
    destruct Hp as [[s ->]|[i Hi]]; [done|]. by destruct q.
  - unfold recordable in Hrec. destruct (meta_tag r); try done;
      [destruct Hrec as (? & ? & -> & _); done|destruct Hrec as (? & ? & -> & _); done|destruct Hrec as (? & ->); done].
Qed.

(** The strict decoder refines the lenient one.  A payload it accepts is decoded to
    the same metadata by [from_stone_payload], and that metadata is an index entry: the
    identifying fields are not empty, releases fit an [i32], the package size respects
    the download limit, the hash is 64 lowercase hexadecimal digits, and every relation
    has a valid target. *)
Theorem strict_refines_lenient p m :
  Forall int_typed p -> from_repository_index_payload p = Ok m ->
  from_stone_payload p = Ok m /\ index_entry m.
Proof.
  intros Ht Hd%strict_ok. split; [|by eapply index_decoded_entry].
  pose proof (strict_dependencies_exact p m Hd) as Hdep.
  destruct Hd as [H1 H2 H3 H4 H5 H6 H7 H8 H9 (u & Hu & H10) (h & Hh & H11 & _) (n & Hn & H12 & _) _ _ _ Hl Hd' Hp Hc _].
  apply repository_nonempty_ok in H1 as [H1 _], H2 as [H2 _], H5 as [H5 _], H8 as [H8 _], H10 as [H10 _].
  rewrite repository_string_ok in H6, H7, H9, H11. rewrite repository_u64_ok in H3, H4, H12.
  destruct H3 as (q3 & H3 & Hq3), H4 as (q4 & H4 & Hq4), H12 as (q12 & H12 & Hq12).
  unfold from_stone_payload.
  rewrite (find_string_strict _ _ _ H1), (find_string_strict _ _ _ H2), (find_u64_strict _ _ _ _ Ht H3 Hq3),
    (find_u64_strict _ _ _ _ Ht H4 Hq4), (find_string_strict _ _ _ H5), (find_string_strict _ _ _ H6),
    (find_string_strict _ _ _ H7), (find_string_strict _ _ _ H8), (find_string_strict _ _ _ H9),
    (find_string_strict _ _ _ H10), (find_string_strict _ _ _ H11), (find_u64_strict _ _ _ _ Ht H12 Hq12).
  cbn [mbind result_bind result_ok]. rewrite Hdep, <- Hl, <- Hd', <- Hp, <- Hc, <- Hu, <- Hh, <- Hn.
  by destruct m.
Qed.

Lemma payload_strict_dependencies m : omap strict_dependency (to_stone_payload m) = dependencies m.
Proof.
  rewrite payload_omap.
  - omaps strict_dependency.
  - intros [t p] Ht _. unfold strict_dependency. cbn in *. by rewrite bool_decide_eq_false_2 by (by intros ->).
Qed.

Lemma payload_recordable m :
  valid_relations (dependencies m) -> valid_relations (providers m) -> valid_relations (conflicts m) ->
  Forall recordable (to_stone_payload m).
Proof.
  intros Hd Hp Hc. unfold to_stone_payload. rewrite !Forall_app, !Forall_fmap.
  assert (forall r : Relation, is_Some (Kind.from_stone_dependency (Kind.into_stone (rel_kind r)))) as Hk
    by (intros [[] ?]; by eexists).
  split_and!.
  - repeat (apply Forall_cons; split; [done|]). by apply Forall_nil.
  - destruct (uri m); repeat constructor.
  - destruct (hash m); repeat constructor.
  - destruct (download_size m); repeat constructor.
  - apply Forall_forall. intros l _. by eexists.
  - eapply Forall_impl; [exact Hd|]. intros r Hr. by exists (Kind.into_stone (rel_kind r)), (rel_name r).
  - apply Forall_forall. intros r [_ Hr]%list_elem_of_filter. exists (Kind.into_stone (rel_kind r)), (rel_name r).
    unfold valid_relations in Hp. rewrite Forall_forall in Hp. by eauto.
  - eapply Forall_impl; [exact Hc|]. intros r Hr. by exists (Kind.into_stone (rel_kind r)), (rel_name r).
Qed.

Lemma entry_decoded m :
  index_entry m -> kept_providers m = providers m -> index_decoded (to_stone_payload m) m.
Proof.
  intros [[Hn Hv] Hve Ha Hs [Hr Hb] (u & Hu & Hu') (h & Hh & Hh') (z & Hz & Hz') (Hd & Hp & Hc) (Sd & Sp & Sc) _] Hk.
  split; rewrite ?repository_nonempty_ok, ?repository_string_ok, ?repository_u64_ok, ?payload_singletons by done;
    cbn [singletons]; try done; eauto.
  - exists u. rewrite repository_nonempty_ok, payload_singletons by done. cbn. by rewrite Hu.
  - exists h. rewrite repository_string_ok, payload_singletons by done. cbn. by rewrite Hh.
  - exists z. rewrite repository_u64_ok, payload_singletons by done. cbn. rewrite Hz. split_and!; eauto.
  - by apply payload_recordable.
  - by rewrite payload_licenses.
  - by rewrite payload_strict_dependencies, set_collect_id.
  - rewrite payload_providers. exact (eq_sym Hk).
  - by rewrite payload_conflicts, set_collect_id.
Qed.

(** Which metadata can be published.  Encoding and strictly decoding metadata gives
    it back exactly when it is an index entry that provides no package name but its
    own. *)
Theorem index_entry_round_trip m :
  from_repository_index_payload (to_stone_payload m) = Ok m
  <-> index_entry m /\ forall n, package_name n ∈ providers m -> n = m_name m.
Proof.
  split.
  - intros Hd%strict_ok. pose proof (index_decoded_entry _ _ Hd) as He. split; [done|]. intros n.
    rewrite (id_providers _ _ Hd), payload_providers, elem_of_set_collect, elem_of_app, list_elem_of_filter.
    intros [[Hk _]|Hn%list_elem_of_singleton]; [done|by injection Hn].
  - intros [He Hn]. apply strict_complete, entry_decoded; [done|]. apply kept_providers_eq; [by apply ie_sorted|].
    intros n. split; [apply Hn|]. intros ->. by apply ie_own.
Qed.

(** ** A package *)

Module Nano.
Definition digest : bytes := replicate 64 "a"%byte.

Definition meta (provided : list Relation) : Meta :=
  {| m_name := bstr "nano"; version_identifier := bstr "8.2"; source_release := 155; build_release := 1;
     architecture := bstr "x86_64"; summary := bstr "editor"; description := bstr "a small editor";
     source_id := bstr "nano"; homepage := bstr "https://nano-editor.org"; licenses := [bstr "GPL-3.0-or-later"];
     dependencies := [{| rel_kind := Kind.SharedLibrary; rel_name := bstr "libc.so.6(x86_64)" |}];
     providers := provided; conflicts := [];
     uri := Some (bstr "nano.stone"); hash := Some digest; download_size := Some 4096%Z |}.

Definition own : list Relation := [{| rel_kind := Kind.Binary; rel_name := bstr "nano" |}; package_name (bstr "nano")].
Definition aliased : list Relation := [package_name (bstr "nano"); package_name (bstr "pico")].

Lemma sorted_pair (a b : Relation) : cmp a b = Lt -> sorted [a; b].
Proof. intros H. repeat constructor. done. Qed.

Lemma sorted_meta ps : sorted ps -> sorted_sets (meta ps).
Proof. intros H. split_and!; [repeat constructor|done|constructor]. Qed.
End Nano.

Lemma metadata_round_trip_witness :
  (from_stone_payload (to_stone_payload (Nano.meta Nano.own)) = Ok (Nano.meta Nano.own)
   <-> forall n, package_name n ∈ Nano.own <-> n = bstr "nano")
  /\ from_stone_payload (to_stone_payload (Nano.meta Nano.aliased)) <> Ok (Nano.meta Nano.aliased).
Proof.
  split.
  - apply (metadata_round_trip (Nano.meta Nano.own)). apply Nano.sorted_meta, Nano.sorted_pair. by vm_compute.
  - intros H. apply (metadata_round_trip (Nano.meta Nano.aliased)) with (n := bstr "pico") in H.
    + destruct H as [H _]. discriminate (H ltac:(right; left)).
    + apply Nano.sorted_meta, Nano.sorted_pair. by vm_compute.
Defined.

Lemma strict_refines_lenient_witness :
  from_stone_payload (to_stone_payload (Nano.meta Nano.own)) = Ok (Nano.meta Nano.own)
  /\ index_entry (Nano.meta Nano.own).
Proof.
  apply (strict_refines_lenient (to_stone_payload (Nano.meta Nano.own)) (Nano.meta Nano.own)).
  - cbn. repeat (apply Forall_cons; split; [exact I|]). by apply Forall_nil.
  - by vm_compute.
Defined.
