(* ===== verification/DagGraph.v ===== *)
(** * The dependency graph

    [crates/dag/src/lib.rs] and [subgraph.rs] over petgraph's [DiGraph].  petgraph is
    third-party code: [Petgraph.DiGraph] has the operations the crate calls and
    [Petgraph.Laws] what petgraph documents of them, over the node weights in index
    order and the edge relation.  Indices are [u32] in the crate; a graph that is full
    panics in [add_node] and is not modelled. *)

From stdpp Require Import relations.
From S2P Require Import Prelude.

Module Petgraph.
Class DiGraph (N : Type) := {
  graph : Type;
  default : graph;
  node_weights : graph -> list N;
  add_node : N -> graph -> nat * graph;
  remove_node : nat -> graph -> option N * graph;
  add_edge : nat -> nat -> graph -> graph;
  contains_edge : graph -> nat -> nat -> bool;
  (** [neighbors_directed(index, Outgoing)] *)
  neighbors : graph -> nat -> list nat;
  (** [externals(Incoming)] *)
  externals : graph -> list nat;
  (** [astar] with unit costs and no heuristic: the path from a node to another *)
  astar : graph -> nat -> nat -> option (list nat);
  reverse : graph -> graph;
  (** the nodes a [Dfs] yields after [move_to], given those it has discovered *)
  dfs : graph -> gset nat -> nat -> list nat;
  (** the nodes [Topo] yields *)
  topo : graph -> list nat;
}.

Definition node_count {N} `{DiGraph N} (g : graph) : nat := length (node_weights g).
Definition edge {N} `{DiGraph N} (g : graph) (a b : nat) : Prop := contains_edge g a b = true.

(** A walk along edges, as the list of its nodes. *)
Inductive walk {A} (R : A -> A -> Prop) : A -> list A -> A -> Prop :=
  | walk_here a : walk R a [a] a
  | walk_step a b l c : R a b -> walk R b l c -> walk R a (a :: l) c.

(** [Vec::swap_remove] *)
Definition swap_remove {A} (i : nat) (l : list A) : list A :=
  match last l with
  | Some x => take (length l - 1) (<[i := x]> l)
  | None => []
  end.

(** The index before the removal of [i] of the node that is [x] after it: the last node
    adopts the removed index. *)
Definition moved_from (i count x : nat) : nat := if (x =? i)%nat then (count - 1)%nat else x.

(** [a] comes in [l] before [b]. *)
Definition before {A} (l : list A) (a b : A) : Prop :=
  exists i j, l !! i = Some a /\ l !! j = Some b /\ (i < j)%nat.

Definition acyclic {N} `{DiGraph N} (g : graph) : Prop := forall a, ~ tc (edge g) a a.

Class Laws (N : Type) (D : DiGraph N) : Prop := {
  edge_bound g a b : edge g a b -> (a < node_count g)%nat /\ (b < node_count g)%nat;
  default_empty : node_weights default = [];
  add_node_index n g : (add_node n g).1 = node_count g;
  add_node_weights n g : node_weights (add_node n g).2 = node_weights g ++ [n];
  add_node_edge n g a b : edge (add_node n g).2 a b <-> edge g a b;
  remove_node_weight i g : (remove_node i g).1 = node_weights g !! i;
  remove_node_weights i g :
    (i < node_count g)%nat -> node_weights (remove_node i g).2 = swap_remove i (node_weights g);
  remove_node_edge i g a b :
    (i < node_count g)%nat ->
    edge (remove_node i g).2 a b
    <-> (a < node_count g - 1)%nat /\ (b < node_count g - 1)%nat
        /\ edge g (moved_from i (node_count g) a) (moved_from i (node_count g) b);
  remove_node_absent i g : (node_count g <= i)%nat -> (remove_node i g).2 = g;
  add_edge_weights a b g :
    (a < node_count g)%nat -> (b < node_count g)%nat -> node_weights (add_edge a b g) = node_weights g;
  add_edge_edge a b g x y :
    (a < node_count g)%nat -> (b < node_count g)%nat ->
    edge (add_edge a b g) x y <-> (x = a /\ y = b) \/ edge g x y;
  neighbors_edge g a b : b ∈ neighbors g a <-> edge g a b;
  externals_iff g a :
    a ∈ externals g <-> (a < node_count g)%nat /\ forall b, ~ edge g b a;
  externals_NoDup g : NoDup (externals g);
  astar_path g a b p : astar g a b = Some p -> walk (edge g) a p b;
  astar_none g a b : (a < node_count g)%nat -> astar g a b = None -> ~ rtc (edge g) a b;
  reverse_weights g : node_weights (reverse g) = node_weights g;
  reverse_edge g a b : edge (reverse g) a b <-> edge g b a;
  dfs_NoDup g seen a : NoDup (dfs g seen a);
  dfs_reachable g seen a x : x ∈ dfs g seen a -> rtc (edge g) a x /\ x ∉ seen;
  dfs_start g seen a : (a < node_count g)%nat -> a ∈ seen \/ a ∈ dfs g seen a;
  dfs_closed g seen a x y : x ∈ dfs g seen a -> edge g x y -> y ∈ seen \/ y ∈ dfs g seen a;
  topo_complete g : acyclic g -> topo g ≡ₚ seq 0 (node_count g);
  topo_ordered g a b : acyclic g -> edge g a b -> before (topo g) a b;
}.
End Petgraph.

Import Petgraph.

(** ** [Dag] *)

Section dag.
Context {N : Type} `{EqDecision N} {D : DiGraph N}.

Definition weight (g : graph) (i : nat) : option N := node_weights g !! i.

(** [node_indices().find(|i| self.0[*i] == *node)] *)
Fixpoint find_weight (node : N) (i : nat) (ws : list N) : option nat :=
  match ws with
  | [] => None
  | w :: ws' => if bool_decide (w = node) then Some i else find_weight node (S i) ws'
  end.

Definition get_index (node : N) (g : graph) : option nat := find_weight node 0 (node_weights g).

Definition add_node_or_get_index (node : N) (g : graph) : nat * graph :=
  match get_index node g with
  | Some index => (index, g)
  | None => Petgraph.add_node node g
  end.

Definition node_exists (node : N) (g : graph) : bool := bool_decide (is_Some (get_index node g)).

Definition remove_node (node : N) (g : graph) : option N * graph :=
  match get_index node g with
  | Some index => Petgraph.remove_node index g
  | None => (None, g)
  end.

Definition try_add_edge (a b : nat) (g : graph) : result (list N) bool * graph :=
  if contains_edge g a b then (Ok false, g)
  else match astar g b a with
       | Some path => (Err (omap (weight g) (a :: path)), g)
       | None => (Ok true, Petgraph.add_edge a b g)
       end.

Definition add_edge (a b : nat) (g : graph) : bool * graph :=
  let '(r, g') := try_add_edge a b g in (match r with Ok added => added | Err _ => false end, g').

Definition iter_nodes (g : graph) : list N := node_weights g.

Definition successors (node : N) (g : graph) : list N :=
  match get_index node g with
  | Some index => omap (weight g) (neighbors g index)
  | None => []
  end.

Definition dfs (start : nat) (g : graph) : list N := omap (weight g) (Petgraph.dfs g ∅ start).

Definition topo (g : graph) : list N := omap (weight g) (Petgraph.topo g).

Definition transpose (g : graph) : graph := Petgraph.reverse g.

(** [sources.sort_by_key(|&idx| Reverse(idx.index()))] *)
Fixpoint insert_descending (i : nat) (l : list nat) : list nat :=
  match l with
  | [] => [i]
  | j :: l' => if (i <? j)%nat then j :: insert_descending i l' else i :: l
  end.
Definition sort_descending (l : list nat) : list nat := foldr insert_descending [] l.

Definition remove_all (sources : list nat) (g : graph) : graph :=
  foldl (fun g i => (Petgraph.remove_node i g).2) g sources.

(** The [while] loop; a round removes at least one node, so the node count bounds them. *)
Fixpoint batches (fuel : nat) (g : graph) : list (list N) :=
  match fuel with
  | 0 => []
  | S fuel' =>
      if (node_count g =? 0)%nat then []
      else let sources := externals g in
           if bool_decide (sources = []) then []
           else omap (weight g) sources :: batches fuel' (remove_all (sort_descending sources) g)
  end.

Definition batched_topo (g : graph) : list (list N) := batches (node_count g) g.

(** ** [subgraph] *)

(** The neighbours of a visited node with their edges, added to the result. *)
Definition add_neighbors (g : graph) (node_index node : nat) (res : graph) : graph :=
  foldl (fun res neighbor =>
    if contains_edge g node neighbor then
      match weight g neighbor with
      | Some w =>
          let '(neighbor_index, res) := add_node_or_get_index w res in
          Petgraph.add_edge node_index neighbor_index res
      | None => res
      end
    else res) res (neighbors g node).

Definition visit (g : graph) (res : graph) (node : nat) : graph :=
  match weight g node with
  | Some w =>
      let '(node_index, res) := add_node_or_get_index w res in
      add_neighbors g node_index node res
  | None => res
  end.

Definition subgraph_from (g : graph) (acc : gset nat * graph) (starting_node : N) : gset nat * graph :=
  let '(seen, res) := acc in
  match get_index starting_node g with
  | None => acc
  | Some index =>
      let visited := Petgraph.dfs g seen index in
      (seen ∪ list_to_set visited, foldl (visit g) res visited)
  end.

Definition subgraph (starting_nodes : list N) (g : graph) : graph :=
  (foldl (subgraph_from g) (∅, default) starting_nodes).2.
End dag.
