(* ===== verification/DagSpec.v ===== *)
(** * The dependency graph over its nodes

    The operations of [DagGraph] seen from their callers: a graph is a set of nodes and
    a relation between them.  Every operation is characterised in these terms, from
    petgraph's laws. *)

From stdpp Require Import relations.
From S2P Require Import Prelude DagGraph.
Import Petgraph DagGraph.

(** ** Lists *)

Lemma swap_remove_lookup {A} i (l : list A) x :
  (i < length l)%nat -> (x < length l - 1)%nat -> swap_remove i l !! x = l !! moved_from i (length l) x.
Proof.
  intros Hi Hx. unfold swap_remove, moved_from. rewrite last_lookup.
  destruct (lookup_lt_is_Some_2 l (pred (length l))) as [y Hy]; [lia|]. rewrite Hy, lookup_take_lt by lia.
  destruct (Nat.eqb_spec x i) as [-> |].
  - rewrite list_lookup_insert_eq by lia. by replace (length l - 1) with (pred (length l)) by lia.
  - by rewrite list_lookup_insert_ne.
Qed.

Lemma length_swap_remove {A} i (l : list A) : length (swap_remove i l) = length l - 1.
Proof.
  unfold swap_remove. destruct (last l) eqn:E.
  - rewrite length_take, length_insert. lia.
  - apply last_None in E as ->. done.
Qed.

(** Indices of the shorter list are all indices of the longer one but [i]. *)
Lemma moved_from_spec i count :
  (i < count)%nat ->
  (forall x, (x < count - 1)%nat -> (moved_from i count x < count)%nat /\ moved_from i count x <> i)
  /\ (forall y, (y < count)%nat -> y <> i -> exists x, (x < count - 1)%nat /\ moved_from i count x = y).
Proof.
  intros Hi. unfold moved_from. split.
  - intros x Hx. destruct (Nat.eqb_spec x i); lia.
  - intros y Hy Hn. destruct (decide (y = count - 1)%nat) as [-> |].
    + exists i. rewrite Nat.eqb_refl. lia.
    + exists y. rewrite (proj2 (Nat.eqb_neq y i)) by done. lia.
Qed.

Lemma elem_of_swap_remove {A} i (l : list A) w z :
  NoDup l -> l !! i = Some w -> (z ∈ swap_remove i l <-> z ∈ l /\ z <> w).
Proof.
  intros Hd Hi. pose proof (lookup_lt_Some _ _ _ Hi) as Hlt.
  destruct (moved_from_spec i (length l) Hlt) as [H1 H2]. rewrite !list_elem_of_lookup. split.
  - intros (x & Hx). assert (x < length l - 1)%nat as Hb
      by (apply lookup_lt_Some in Hx; by rewrite length_swap_remove in Hx).
    rewrite swap_remove_lookup in Hx by done. split; [eauto|]. intros ->.
    apply (proj2 (H1 x Hb)). by eapply NoDup_lookup.
  - intros [(y & Hy) Hn]. destruct (H2 y) as (x & Hx & <-).
    + by apply lookup_lt_Some in Hy.
    + intros ->. congruence.
    + exists x. by rewrite swap_remove_lookup.
Qed.

Lemma swap_remove_NoDup {A} i (l : list A) : NoDup l -> (i < length l)%nat -> NoDup (swap_remove i l).
Proof.
  intros Hd Hi. apply NoDup_alt. intros x y z Hx Hy.
  assert (x < length l - 1 /\ y < length l - 1)%nat as [Hbx Hby].
  { apply lookup_lt_Some in Hx, Hy. by rewrite length_swap_remove in Hx, Hy. }
  rewrite swap_remove_lookup in Hx, Hy by done. pose proof (NoDup_lookup _ _ _ _ Hd Hx Hy) as E.
  unfold moved_from in E. destruct (Nat.eqb_spec x i), (Nat.eqb_spec y i); lia.
Qed.

(** ** Transitive closures *)

Lemma tc_flip {A} (R S : relation A) x y : (forall a b, R a b -> S b a) -> tc R x y -> tc S y x.
Proof.
  intros Hf. induction 1 as [x y Hx|x y z Hx _ IH]; [by apply tc_once; auto|]. eapply tc_r; eauto.
Qed.

Lemma rtc_flipped {A} (R S : relation A) x y : (forall a b, R a b -> S b a) -> rtc R x y -> rtc S y x.
Proof. intros Hf. induction 1 as [|x y z Hx _ IH]; [done|]. eapply rtc_r; eauto. Qed.

Lemma tc_add {A} (R S : relation A) a b x y :
  (forall u v, S u v -> (u = a /\ v = b) \/ R u v) -> tc S x y -> tc R x y \/ (rtc R x a /\ rtc R b y).
Proof.
  intros Hs. induction 1 as [x y Hx|x y z Hx _ IH].
  - destruct (Hs _ _ Hx) as [[-> ->]|]; [by right|]. left. by apply tc_once.
  - destruct (Hs _ _ Hx) as [[-> ->]|Hr].
    + right. split; [done|]. destruct IH as [Ht|[_ ?]]; [by apply tc_rtc|done].
    + destruct IH as [Ht|[? ?]]; [left; by eapply tc_l|right]. split; [by eapply rtc_l|done].
Qed.

Section find_weight.
Context {N : Type} `{EqDecision N}.

Lemma find_weight_Some (node : N) ws k i :
  find_weight node k ws = Some i -> exists j, i = (k + j)%nat /\ ws !! j = Some node.
Proof.
  revert k. induction ws as [|w ws IH]; intros k; cbn; [done|]. case_bool_decide as E.
  - intros [= <-]. exists 0. subst. split; [lia|done].
  - intros (j & -> & Hj)%IH. exists (S j). split; [lia|done].
Qed.

Lemma find_weight_None (node : N) ws k : find_weight node k ws = None <-> node ∉ ws.
Proof.
  revert k. induction ws as [|w ws IH]; intros k; cbn; [split; [intros _; apply not_elem_of_nil|done]|].
  rewrite not_elem_of_cons. case_bool_decide as E; [naive_solver|]. rewrite IH. naive_solver.
Qed.
End find_weight.

Section spec.
Context {N : Type} `{EqDecision N} {D : DiGraph N} {L : Laws N D}.
Implicit Types (g : graph) (v w n : N).

(** The relation between nodes, and graphs without duplicate nodes. *)
Definition arrow g v w : Prop := exists a b, weight g a = Some v /\ weight g b = Some w /\ edge g a b.
Definition wf g : Prop := NoDup (node_weights g).

Lemma weight_bound g i v : weight g i = Some v -> (i < node_count g)%nat.
Proof using Type. apply lookup_lt_Some. Qed.

Lemma weight_inj g i j v : wf g -> weight g i = Some v -> weight g j = Some v -> i = j.
Proof using Type. apply NoDup_lookup. Qed.

Lemma weight_elem g v : v ∈ node_weights g <-> exists i, weight g i = Some v.
Proof using Type. apply list_elem_of_lookup. Qed.

Lemma get_index_weight n g i : get_index n g = Some i -> weight g i = Some n.
Proof using Type. by intros (j & -> & ?)%find_weight_Some. Qed.

Lemma get_index_None n g : get_index n g = None <-> n ∉ node_weights g.
Proof using Type. apply find_weight_None. Qed.

Lemma weight_get_index n g i : wf g -> weight g i = Some n -> get_index n g = Some i.
Proof using Type.
  intros Hg Hi. destruct (get_index n g) as [j|] eqn:E.
  - f_equal. eapply weight_inj; eauto using get_index_weight.
  - apply get_index_None in E. destruct E. apply weight_elem. eauto.
Qed.

Lemma node_exists_iff n g : node_exists n g = true <-> n ∈ node_weights g.
Proof using Type.
  unfold node_exists. rewrite bool_decide_eq_true. destruct (get_index n g) eqn:E.
  - split; [|by eexists]. intros _. apply weight_elem. eauto using get_index_weight.
  - apply get_index_None in E. split; [by intros []|done].
Qed.

Lemma edge_weights g a b : edge g a b -> exists v w, weight g a = Some v /\ weight g b = Some w.
Proof.
  intros [Ha Hb]%edge_bound. destruct (lookup_lt_is_Some_2 _ _ Ha), (lookup_lt_is_Some_2 _ _ Hb). eauto.
Qed.

Lemma edge_arrow g a b v w : wf g -> weight g a = Some v -> weight g b = Some w -> (edge g a b <-> arrow g v w).
Proof using Type.
  intros Hg Ha Hb. split; [intros He; by exists a, b|]. intros (a' & b' & Ha' & Hb' & He).
  by rewrite (weight_inj g a a' v), (weight_inj g b b' w).
Qed.

Lemma arrow_nodes g v w : arrow g v w -> v ∈ node_weights g /\ w ∈ node_weights g.
Proof using Type. intros (a & b & Ha & Hb & _). rewrite !weight_elem. eauto. Qed.

(** ** Reachability at both levels *)

Lemma tc_edge_arrow g a b :
  tc (edge g) a b -> exists v w, weight g a = Some v /\ weight g b = Some w /\ tc (arrow g) v w.
Proof.
  induction 1 as [a b He|a b c He Ht IH].
  - destruct (edge_weights g a b He) as (v & w & Hv & Hw). exists v, w. split_and!; [done..|]. apply tc_once. by exists a, b.
  - destruct IH as (v & w & Hv & Hw & IH). destruct (edge_weights g a b He) as (u & v' & Hu & Hv').
    exists u, w. split_and!; [done..|]. eapply tc_l; [|exact IH]. exists a, b. by rewrite Hv in *.
Qed.

Lemma tc_arrow_edge g v w :
  wf g -> tc (arrow g) v w -> forall a b, weight g a = Some v -> weight g b = Some w -> tc (edge g) a b.
Proof using Type.
  intros Hg. induction 1 as [v w Hv|v u w Hv Ht IH]; intros a b Ha Hb.
  - apply tc_once. by apply (edge_arrow g a b v w).
  - destruct (arrow_nodes g v u Hv) as [_ (c & Hc)%weight_elem].
    eapply tc_l; [by apply (edge_arrow g a c v u)|]. by apply IH.
Qed.

Lemma rtc_edge_arrow g a b v w :
  wf g -> weight g a = Some v -> weight g b = Some w -> (rtc (edge g) a b <-> rtc (arrow g) v w).
Proof.
  intros Hg Ha Hb. split.
  - intros [-> |Ht]%rtc_tc; [rewrite Ha in Hb; injection Hb as ->; done|].
    destruct (tc_edge_arrow g a b Ht) as (v' & w' & Hv & Hw & Ht'). simplify_eq/=. by apply tc_rtc.
  - intros [-> |Ht]%rtc_tc; [rewrite (weight_inj g a b w); done|]. apply tc_rtc. by eapply tc_arrow_edge.
Qed.

Lemma acyclic_arrow g : wf g -> (acyclic g <-> forall v, ~ tc (arrow g) v v).
Proof.
  intros Hg. split.
  - intros Ha v Hv. assert (v ∈ node_weights g) as (a & E)%weight_elem.
    { inversion Hv as [? ? Hx|? ? ? Hx _]; subst; apply (arrow_nodes _ _ _ Hx). }
    apply (Ha a). by eapply tc_arrow_edge.
  - intros Hv a Ht. destruct (tc_edge_arrow g a a Ht) as (v & w & H1 & H2 & H3). 
    rewrite H1 in H2. injection H2 as <-. by apply (Hv v).
Qed.

(** Graphs with the same relation are acyclic together. *)
Lemma acyclic_sub g g' :
  wf g -> wf g' -> (forall v w, arrow g' v w -> arrow g v w) -> acyclic g -> acyclic g'.
Proof.
  intros Hg Hg' Hsub. rewrite !acyclic_arrow by done. intros Ha v Hv. apply (Ha v). clear Ha.
  revert Hv. generalize v at 1 3. intros u. induction 1 as [x y Hx|x y z Hx _ IH].
  - apply tc_once. auto.
  - eapply tc_l; eauto.
Qed.

(** ** Adding and removing nodes *)

Lemma add_node_or_get_index_spec n g i g' :
  wf g -> add_node_or_get_index n g = (i, g') ->
  wf g' /\ weight g' i = Some n /\ (forall v, v ∈ node_weights g' <-> v = n \/ v ∈ node_weights g)
  /\ (forall v w, arrow g' v w <-> arrow g v w) /\ (forall j v, weight g j = Some v -> weight g' j = Some v).
Proof.
  unfold add_node_or_get_index. intros Hg. destruct (get_index n g) as [j|] eqn:E.
  - intros [= -> ->]. apply get_index_weight in E. split_and!; try done. intros v. split; [auto|].
    intros [-> |]; [|done]. apply weight_elem. eauto.
  - intros E'. assert (i = node_count g) as -> by (rewrite <- (add_node_index n g), E'; done).
    assert (node_weights g' = node_weights g ++ [n]) as Hw by (rewrite <- add_node_weights, E'; done).
    assert (forall a b, edge g' a b <-> edge g a b) as He by (intros; rewrite <- (add_node_edge n g), E'; done).
    apply get_index_None in E. assert (forall j v, weight g j = Some v -> weight g' j = Some v) as Hmono.
    { intros j v Hj. unfold weight. rewrite Hw. by apply lookup_app_l_Some. }
    split_and!; [unfold wf; rewrite Hw; apply NoDup_app; split_and!; [done|set_solver|apply NoDup_singleton]
                |unfold weight; rewrite Hw; by apply list_lookup_middle|rewrite Hw; set_solver| |done].
    intros v w. split; intros (a & b & Ha & Hb & Hab).
    + apply He in Hab. destruct (edge_weights g a b Hab) as (v' & w' & Hv & Hw').
      pose proof (Hmono _ _ Hv). pose proof (Hmono _ _ Hw'). simplify_eq. by exists a, b.
    + exists a, b. split_and!; [by apply Hmono..|by apply He].
Qed.

(** Removing the node at an index. *)
Lemma remove_index_spec i n g :
  wf g -> weight g i = Some n ->
  let g' := (Petgraph.remove_node i g).2 in
  wf g' /\ (forall v, v ∈ node_weights g' <-> v ∈ node_weights g /\ v <> n)
  /\ (forall v w, arrow g' v w <-> arrow g v w /\ v <> n /\ w <> n)
  /\ (forall j, (j < i)%nat -> weight g' j = weight g j) /\ node_count g' = (node_count g - 1)%nat.
Proof.
  intros Hg Hi g'. pose proof (weight_bound g i n Hi) as Hb. pose proof (remove_node_weights i g Hb) as Hw.
  fold g' in Hw. destruct (moved_from_spec i (node_count g) Hb) as [Hm1 Hm2].
  assert (forall x, (x < node_count g - 1)%nat -> weight g' x = weight g (moved_from i (node_count g) x)) as Hl.
  { intros x Hx. unfold weight. rewrite Hw. by apply swap_remove_lookup. }
  assert (node_count g' = node_count g - 1)%nat as Hc by (unfold node_count; rewrite Hw; apply length_swap_remove).
  split_and!; [unfold wf; rewrite Hw; by apply swap_remove_NoDup|intros v; rewrite Hw; by apply elem_of_swap_remove| | |done].
  - intros v w. split.
    + intros (a & b & Ha & Hb' & He). apply (remove_node_edge i g a b Hb) in He as (Hxa & Hxb & He).
      rewrite Hl in Ha, Hb' by done. split; [by do 2 eexists|].
      destruct (Hm1 a Hxa) as [_ Ha1], (Hm1 b Hxb) as [_ Hb1].
      split; intros ->; [apply Ha1|apply Hb1]; by eapply weight_inj.
    + intros ((a & b & Ha & Hb' & He) & Hv & Hw').
      destruct (Hm2 a) as (x & Hx & Ex); [by eapply weight_bound|by intros ->; congruence|].
      destruct (Hm2 b) as (y & Hy & Ey); [by eapply weight_bound|by intros ->; congruence|].
      exists x, y. rewrite !Hl, Ex, Ey by done. split_and!; [done..|]. apply remove_node_edge; [done|]. by rewrite Ex, Ey.
  - intros j Hj. rewrite Hl by lia. unfold moved_from. by rewrite (proj2 (Nat.eqb_neq j i)) by lia.
Qed.

Lemma remove_node_spec n g r g' :
  wf g -> remove_node n g = (r, g') ->
  wf g' /\ r = (if bool_decide (n ∈ node_weights g) then Some n else None)
  /\ (forall v, v ∈ node_weights g' <-> v ∈ node_weights g /\ v <> n)
  /\ (forall v w, arrow g' v w <-> arrow g v w /\ v <> n /\ w <> n).
Proof.
  unfold remove_node. intros Hg. destruct (get_index n g) as [i|] eqn:E.
  - apply get_index_weight in E. intros E'. destruct (remove_index_spec i n g Hg E) as (H1 & H2 & H3 & _).
    rewrite E' in H1, H2, H3. split_and!; [done| |done..].
    rewrite bool_decide_true by (apply weight_elem; eauto). change r with (r, g').1. rewrite <- E', remove_node_weight.
    done.
  - apply get_index_None in E. intros [= <- <-]. rewrite bool_decide_false by done. split_and!; [done..| |].
    + intros v. split; [|by intros []]. intros Hv. split; [done|]. by intros ->.
    + intros v w. split; [|by intros []]. intros Hv. destruct (arrow_nodes _ _ _ Hv) as [H1 H2].
      split_and!; [done|by intros ->..].
Qed.

Lemma transpose_spec g :
  node_weights (transpose g) = node_weights g /\ (forall v w, arrow (transpose g) v w <-> arrow g w v).
Proof.
  assert (node_weights (transpose g) = node_weights g) as Hw by apply reverse_weights. split; [done|].
  intros v w. unfold arrow, weight. rewrite Hw.
  split; intros (a & b & Ha & Hb & He); exists b, a; split_and!; try done; by apply reverse_edge.
Qed.

Lemma transpose_acyclic g : acyclic g -> acyclic (transpose g).
Proof. intros Ha a Ht. apply (Ha a). eapply tc_flip; [|exact Ht]. intros x y. apply reverse_edge. Qed.

(** ** Adding edges *)

(** The new edge closes a cycle exactly when its end reaches its start already. *)
Lemma add_edge_acyclic a b g :
  (a < node_count g)%nat -> (b < node_count g)%nat -> acyclic g ->
  (acyclic (Petgraph.add_edge a b g) <-> ~ rtc (edge g) b a).
Proof.
  intros Ha Hb Hg. pose proof (add_edge_edge a b g) as He. split.
  - intros Hg' Hr. apply (Hg' a). eapply tc_rtc_r.
    + apply tc_once, He; auto.
    + eapply rtc_subrel; [|exact Hr]. intros x y Hx. apply He; auto.
  - intros Hn x Hx. apply (tc_add (edge g) _ a b) in Hx as [Hx|[H1 H2]]; [by apply (Hg x)| |].
    + apply Hn. by trans x.
    + intros u v Huv. by apply He in Huv.
Qed.

Lemma add_edge_arrow a b g v w :
  wf g -> weight g a = Some v -> weight g b = Some w ->
  node_weights (Petgraph.add_edge a b g) = node_weights g
  /\ forall x y, arrow (Petgraph.add_edge a b g) x y <-> (x = v /\ y = w) \/ arrow g x y.
Proof.
  intros Hg Ha Hb. pose proof (weight_bound _ _ _ Ha) as Hla. pose proof (weight_bound _ _ _ Hb) as Hlb.
  pose proof (add_edge_weights a b g Hla Hlb) as Hw. split; [done|]. intros x y. unfold arrow, weight. rewrite Hw.
  split.
  - intros (i & j & Hi & Hj & [[-> ->]|He]%add_edge_edge); [left|right; by exists i, j|done..].
    unfold weight in *. by simplify_eq.
  - intros [[-> ->]|(i & j & Hi & Hj & He)]; [exists a, b|exists i, j]; split_and!; try done; apply add_edge_edge; auto.
Qed.

Lemma walk_arrow g a l b v :
  walk (edge g) a l b -> weight g a = Some v ->
  exists w, weight g b = Some w /\ walk (arrow g) v (omap (weight g) l) w.
Proof.
  intros Hw. revert v. induction Hw as [a|a b l c He Hw IH]; intros v Ha; cbn; rewrite Ha.
  - exists v. split; [done|constructor].
  - destruct (edge_weights g a b He) as (? & u & _ & Hb). destruct (IH u Hb) as (w & Hc & Hw').
    exists w. split; [done|]. econstructor; [|done]. by exists a, b.
Qed.

Lemma walk_rtc {A} (R : relation A) a l b : walk R a l b -> rtc R a b.
Proof using Type. induction 1; [done|]. by eapply rtc_l. Qed.

(** ** What a graph represents: a set of nodes and a relation *)

Record represents g (P : N -> Prop) (R : N -> N -> Prop) : Prop := {
  rep_wf : wf g;
  rep_nodes v : v ∈ node_weights g <-> P v;
  rep_arrow v w : arrow g v w <-> R v w;
}.

Lemma represents_self g : wf g -> represents g (fun v => v ∈ node_weights g) (arrow g).
Proof using Type. intros. by split. Qed.

Lemma represents_iff g (P P' : N -> Prop) (R R' : N -> N -> Prop) :
  (forall v, P v <-> P' v) -> (forall v w, R v w <-> R' v w) -> represents g P R -> represents g P' R'.
Proof using Type. intros HP HR [H1 H2 H3]. split; [done|by setoid_rewrite <- HP|by setoid_rewrite <- HR]. Qed.

Lemma represents_default : represents default (fun _ => False) (fun _ _ => False).
Proof.
  split.
  - unfold wf. rewrite default_empty. constructor.
  - intros v. rewrite default_empty. apply elem_of_nil.
  - intros v w. split; [|done]. intros [Hv _]%arrow_nodes. rewrite default_empty in Hv. by apply elem_of_nil in Hv.
Qed.

Lemma represents_add_node g P R n i g' :
  represents g P R -> add_node_or_get_index n g = (i, g') ->
  represents g' (fun v => v = n \/ P v) R /\ weight g' i = Some n
  /\ (forall j v, weight g j = Some v -> weight g' j = Some v).
Proof.
  intros [Hg HP HR] E. destruct (add_node_or_get_index_spec n g i g' Hg E) as (H1 & H2 & H3 & H4 & H5).
  split_and!; [|done..]. split; [done| |].
  - intros v. by rewrite H3, HP.
  - intros v w. by rewrite H4.
Qed.

Lemma represents_add_edge g P R a b v w :
  represents g P R -> weight g a = Some v -> weight g b = Some w ->
  represents (Petgraph.add_edge a b g) P (fun x y => (x = v /\ y = w) \/ R x y)
  /\ (forall j, weight (Petgraph.add_edge a b g) j = weight g j).
Proof.
  intros [Hg HP HR] Ha Hb. destruct (add_edge_arrow a b g v w Hg Ha Hb) as [Hw He].
  split; [|intros j; unfold weight; by rewrite Hw].
  split; [unfold wf; by rewrite Hw|intros x; by rewrite Hw|]. intros x y. by rewrite He, HR.
Qed.

(** ** [subgraph] *)

Section subgraph.
Context (g : graph) (Hg : wf g).

(** The nodes and arrows the visits of the indices in [V] add. *)
Definition seen_node (V : nat -> Prop) v : Prop :=
  exists x, V x /\ (weight g x = Some v \/ exists y, edge g x y /\ weight g y = Some v).
Definition seen_arrow (V : nat -> Prop) v w : Prop :=
  exists x y, V x /\ edge g x y /\ weight g x = Some v /\ weight g y = Some w.

Lemma seen_iff V V' r :
  (forall x, V x <-> V' x) -> represents r (seen_node V) (seen_arrow V) -> represents r (seen_node V') (seen_arrow V').
Proof using Type. clear Hg. intros HV. apply represents_iff; intros; unfold seen_node, seen_arrow; by setoid_rewrite HV. Qed.

Lemma add_neighbor_spec res P R i node v y w :
  represents res P R -> weight res i = Some v -> edge g node y -> weight g y = Some w ->
  let res' := (let '(j, r) := add_node_or_get_index w res in Petgraph.add_edge i j r) in
  represents res' (fun x => x = w \/ P x) (fun x z => (x = v /\ z = w) \/ R x z) /\ weight res' i = Some v.
Proof using L.
  clear Hg.
  intros Hr Hi He Hw. destruct (add_node_or_get_index w res) as [j r] eqn:E. cbn.
  destruct (represents_add_node _ _ _ _ _ _ Hr E) as (H1 & H2 & H3).
  destruct (represents_add_edge _ _ _ i j v w H1 (H3 _ _ Hi) H2) as [H4 H5]. split; [done|]. rewrite H5. auto.
Qed.

Lemma add_neighbors_spec l : forall res P R i node v,
  (forall y, y ∈ l -> edge g node y) -> represents res P R -> weight res i = Some v ->
  represents
    (foldl (fun res neighbor =>
      if contains_edge g node neighbor then
        match weight g neighbor with
        | Some w => let '(j, r) := add_node_or_get_index w res in Petgraph.add_edge i j r
        | None => res
        end
      else res) res l)
    (fun x => (exists y, y ∈ l /\ weight g y = Some x) \/ P x)
    (fun x z => (x = v /\ exists y, y ∈ l /\ weight g y = Some z) \/ R x z).
Proof using L.
  clear Hg.
  induction l as [|y l IH]; intros res P R i node v Hl Hr Hi; cbn [foldl].
  - eapply represents_iff; [| |exact Hr]; set_solver.
  - assert (edge g node y) as He by (apply Hl; set_solver). destruct (edge_weights g node y He) as (v0 & w & _ & Hy).
    unfold edge in He. rewrite He, Hy.
    destruct (add_neighbor_spec res P R i node v y w Hr Hi He Hy) as [Hr' Hi'].
    specialize (IH _ _ _ i node v (fun y Hy => Hl y (list_elem_of_further _ _ _ Hy)) Hr' Hi').
    eapply represents_iff; [| |exact IH].
    + intros x. setoid_rewrite elem_of_cons. naive_solver.
    + intros x z. setoid_rewrite elem_of_cons. naive_solver.
Qed.

Lemma visit_spec res V node :
  (node < node_count g)%nat -> represents res (seen_node V) (seen_arrow V) ->
  represents (visit g res node) (seen_node (fun x => x = node \/ V x)) (seen_arrow (fun x => x = node \/ V x)).
Proof using L.
  clear Hg.
  intros Hn Hr. unfold visit. destruct (lookup_lt_is_Some_2 _ _ Hn) as [v Hv]. fold (weight g node) in Hv. rewrite Hv.
  destruct (add_node_or_get_index v res) as [i r] eqn:E.
  destruct (represents_add_node _ _ _ _ _ _ Hr E) as (H1 & H2 & _).
  assert (forall y, y ∈ neighbors g node -> edge g node y) as Hnb by (intros y; by rewrite neighbors_edge).
  eapply represents_iff; [| |exact (add_neighbors_spec _ r _ _ i node v Hnb H1 H2)].
  - intros x. unfold seen_node. setoid_rewrite neighbors_edge. split; [naive_solver|].
    intros (u & [-> |HV] & [Hu|(y & He & Hy)]); simplify_eq; eauto 8.
  - intros x z. unfold seen_arrow. setoid_rewrite neighbors_edge. split; [naive_solver|].
    intros (u & y & [-> |HV] & He & Hu & Hy); simplify_eq; eauto 8.
Qed.

Lemma visits_spec l : forall res V,
  (forall x, x ∈ l -> (x < node_count g)%nat) -> represents res (seen_node V) (seen_arrow V) ->
  represents (foldl (visit g) res l) (seen_node (fun x => x ∈ l \/ V x)) (seen_arrow (fun x => x ∈ l \/ V x)).
Proof using L.
  clear Hg.
  induction l as [|x l IH]; intros res V Hl Hr; cbn [foldl].
  - eapply seen_iff; [|exact Hr]. set_solver.
  - assert (x < node_count g)%nat as Hx by (apply Hl; set_solver).
    specialize (IH _ _ (fun y Hy => Hl y (list_elem_of_further _ _ _ Hy)) (visit_spec res V x Hx Hr)).
    eapply seen_iff; [|exact IH]. intros y. cbn. rewrite elem_of_cons. tauto.
Qed.

(** What the traversal has discovered is what the starting nodes so far reach. *)
Definition reached (starts : list N) (x : nat) : Prop :=
  exists s i, s ∈ starts /\ weight g i = Some s /\ rtc (edge g) i x.

Lemma reached_bound starts x : reached starts x -> (x < node_count g)%nat.
Proof using L.
  clear Hg.
  intros (s & i & _ & Hi & Hr). apply rtc_tc in Hr as [<-|Ht]; [by eapply weight_bound|].
  apply tc_edge_arrow in Ht as (v & w & _ & Hx & _). by eapply weight_bound.
Qed.

Lemma reached_closed starts x y : reached starts x -> edge g x y -> reached starts y.
Proof using Type. clear Hg. intros (s & i & Hs & Hi & Hr) He. exists s, i. split_and!; [done..|]. by eapply rtc_r. Qed.

Lemma reached_snoc starts s x :
  reached (starts ++ [s]) x <-> reached starts x \/ exists i, weight g i = Some s /\ rtc (edge g) i x.
Proof using Type. clear Hg. unfold reached. setoid_rewrite elem_of_app. setoid_rewrite list_elem_of_singleton. naive_solver. Qed.

Definition progress (starts : list N) (acc : gset nat * graph) : Prop :=
  (forall x, x ∈ acc.1 <-> reached starts x) /\ represents acc.2 (seen_node (reached starts)) (seen_arrow (reached starts)).

(** One depth-first traversal discovers what its start reaches and was not known. *)
Lemma dfs_discovers seen i x :
  (i < node_count g)%nat -> (forall a b, a ∈ seen -> edge g a b -> b ∈ seen) ->
  (x ∈ Petgraph.dfs g seen i \/ x ∈ seen <-> rtc (edge g) i x \/ x ∈ seen).
Proof using L.
  clear Hg.
  intros Hi Hc. split; [intros [Hx|]; [apply dfs_reachable in Hx as []; auto|auto]|].
  intros [Hr|]; [|auto]. assert (i ∈ Petgraph.dfs g seen i \/ i ∈ seen) as Hs by (destruct (dfs_start g seen i Hi); auto).
  revert x Hr. apply rtc_ind_r; [done|]. intros x y _ He [Hx|Hx]; [|right; eauto].
  destruct (dfs_closed g seen i x y Hx He); auto.
Qed.

Lemma subgraph_from_progress starts acc s : progress starts acc -> progress (starts ++ [s]) (subgraph_from g acc s).
Proof using Hg L.
  intros [Hs Hr]. destruct acc as [seen res]. cbn in *. unfold subgraph_from.
  destruct (get_index s g) as [i|] eqn:E.
  - apply get_index_weight in E. pose proof (weight_bound _ _ _ E) as Hi.
    assert (forall x, x ∈ Petgraph.dfs g seen i \/ reached starts x <-> reached (starts ++ [s]) x) as Hd.
    { intros x. rewrite <- Hs, dfs_discovers, reached_snoc, Hs by (try done; intros a b; rewrite !Hs; apply reached_closed).
      split; [naive_solver|]. intros [|(j & Hj & ?)]; [auto|]. rewrite (weight_inj g i j s); auto. }
    split; cbn.
    + intros x. rewrite elem_of_union, elem_of_list_to_set, Hs, <- Hd. tauto.
    + eapply seen_iff; [exact Hd|]. apply visits_spec; [|done]. intros x Hx. apply (reached_bound (starts ++ [s])), Hd. auto.
  - apply get_index_None in E. assert (forall x, reached starts x <-> reached (starts ++ [s]) x) as Hd.
    { intros x. rewrite reached_snoc. split; [auto|]. intros [|(j & Hj & _)]; [done|]. destruct E. apply weight_elem. eauto. }
    split; cbn; [intros x; by rewrite Hs|]. by eapply seen_iff.
Qed.

Lemma subgraph_progress starts : progress starts (foldl (subgraph_from g) (∅, default) starts).
Proof using Hg L.
  induction starts as [|s starts IH] using rev_ind.
  - split; cbn; [unfold reached; set_solver|]. eapply represents_iff; [| |apply represents_default];
      unfold seen_node, seen_arrow, reached; set_solver.
  - rewrite foldl_app. by apply subgraph_from_progress.
Qed.

Lemma subgraph_represents starts :
  represents (subgraph starts g)
    (fun v => exists s, s ∈ starts /\ s ∈ node_weights g /\ rtc (arrow g) s v)
    (fun v w => arrow g v w /\ exists s, s ∈ starts /\ s ∈ node_weights g /\ rtc (arrow g) s v).
Proof using Hg L.
  assert (forall x v, weight g x = Some v -> (reached starts x <->
            exists s, s ∈ starts /\ s ∈ node_weights g /\ rtc (arrow g) s v)) as Hx.
  { intros x v Hx. unfold reached. setoid_rewrite weight_elem. split.
    - intros (s & i & Hs & Hi & Hr). exists s. split_and!; [done|eauto|]. by eapply rtc_edge_arrow.
    - intros (s & Hs & (i & Hi) & Hr). exists s, i. split_and!; [done..|]. by eapply rtc_edge_arrow. }
  eapply represents_iff; [| |exact (proj2 (subgraph_progress starts))].
  - intros v. unfold seen_node. split.
    + intros (x & HV & [Hv|(y & He & Hy)]); [by eapply Hx|]. eapply Hx; [exact Hy|]. by eapply reached_closed.
    + intros Hr. assert (v ∈ node_weights g) as (x & Hv)%weight_elem.
      { destruct Hr as (s & _ & Hs & Hr). apply rtc_inv_r in Hr as [<-|(u & _ & Hu)]; [done|].
        by eapply arrow_nodes. }
      exists x. split; [by eapply Hx|auto].
  - intros v w. unfold seen_arrow. split.
    + intros (x & y & HV & He & Hv & Hw). split; [by exists x, y|]. by eapply Hx.
    + intros [(x & y & Hv & Hw & He) Hr]. exists x, y. split_and!; try done. by eapply Hx.
Qed.
End subgraph.

(** ** Removing several nodes *)

Lemma remove_nodes_represents l : forall g,
  wf g ->
  represents (foldl (fun g n => (remove_node n g).2) g l) (fun v => v ∈ node_weights g /\ v ∉ l)
    (fun v w => arrow g v w /\ (v ∉ l) /\ w ∉ l).
Proof.
  induction l as [|n l IH]; intros g Hg; cbn [foldl].
  - eapply represents_iff; [| |by apply represents_self]; intros; cbn; rewrite ?elem_of_nil; tauto.
  - destruct (remove_node n g) as [r g'] eqn:E. destruct (remove_node_spec n g r g' Hg E) as (H1 & _ & H2 & H3).
    eapply represents_iff; [| |apply (IH g' H1)]; intros; cbn; rewrite ?H2, ?H3, !not_elem_of_cons; tauto.
Qed.

(** ** [topo] *)

Lemma omap_lookup_total {A B} (f : A -> option B) (l : list A) i :
  (forall x, x ∈ l -> is_Some (f x)) -> omap f l !! i = l !! i ≫= f.
Proof using Type.
  revert i. induction l as [|x l IH]; intros i Hf; [done|]. destruct (Hf x) as [y Hy]; [left|]. cbn. rewrite Hy.
  destruct i as [|i]; cbn; [done|]. apply IH. intros z Hz. apply Hf. by right.
Qed.

Lemma topo_spec g :
  wf g -> acyclic g -> topo g ≡ₚ node_weights g /\ forall v w, arrow g v w -> before (topo g) v w.
Proof.
  intros Hg Ha. pose proof (topo_complete g Ha) as Hp. unfold topo.
  assert (forall x, x ∈ Petgraph.topo g -> is_Some (weight g x)) as Hf.
  { intros x. rewrite Hp, elem_of_seq. intros [_ Hx]. by apply lookup_lt_is_Some_2. }
  split.
  - rewrite Hp. assert (omap (weight g) (seq 0 (node_count g)) = node_weights g) as ->; [|done].
    apply list_eq. intros i. rewrite omap_lookup_total by (intros x; rewrite <- Hp; apply Hf).
    destruct (decide (i < node_count g)%nat) as [Hi|Hi].
    + by rewrite lookup_seq_lt by done.
    + rewrite lookup_seq_ge by lia. symmetry. apply lookup_ge_None_2. unfold node_count in Hi. lia.
  - intros v w (a & b & Hva & Hwb & He). destruct (topo_ordered g a b Ha He) as (i & j & Hi & Hj & Hij).
    exists i, j. rewrite !omap_lookup_total, Hi, Hj by done. done.
Qed.
End spec.
