(* ===== verification/DagTheorems.v ===== *)
(** * Theorems of the dependency graph

    Graphs built by the crate's operations stay acyclic, [try_add_edge] refuses exactly
    the edges that close a cycle and names one, and [batched_topo] schedules every node
    after all it comes after. *)

From Stdlib Require Import Sorting.Sorted.
From stdpp Require Import relations.
From stdpp Require Import relations sorting.
From S2P Require Import Prelude DagGraph DagSpec.
Import Petgraph DagGraph.

(** ** Sorting the sources *)

Lemma insert_descending_perm i l : insert_descending i l ≡ₚ i :: l.
Proof. induction l as [|j l IH]; cbn; [done|]. case_match; [|done]. rewrite IH. apply Permutation_swap. Qed.

Lemma sort_descending_perm l : sort_descending l ≡ₚ l.
Proof. induction l as [|i l IH]; cbn; [done|]. by rewrite insert_descending_perm, IH. Qed.

Lemma insert_descending_sorted i l : i ∉ l -> StronglySorted gt l -> StronglySorted gt (insert_descending i l).
Proof.
  induction l as [|j l IH]; cbn [insert_descending]; intros Hn Hs; [repeat constructor|].
  apply not_elem_of_cons in Hn as [Hij Hn]. inversion Hs as [|? ? Hl Hf]; subst. destruct (Nat.ltb_spec i j).
  - constructor; [by apply IH|]. rewrite insert_descending_perm. constructor; [lia|done].
  - constructor; [done|]. constructor; [lia|]. eapply Forall_impl; [exact Hf|]. cbn. lia.
Qed.

Lemma sort_descending_sorted l : NoDup l -> StronglySorted gt (sort_descending l).
Proof.
  induction 1 as [|i l Hi Hl IH]; [constructor|]. apply insert_descending_sorted; [|done].
  by rewrite sort_descending_perm.
Qed.

Section theorems.
Context {N : Type} `{EqDecision N} {D : DiGraph N} {L : Laws N D}.
Implicit Types (g : graph) (v w n : N).

(** ** Removing a batch of sources *)

(** From the highest index down, a removal moves no node still to be removed. *)
Lemma remove_all_spec l : forall g,
  StronglySorted gt l -> (forall i, i ∈ l -> (i < node_count g)%nat) -> wf g ->
  let left v := v ∈ node_weights g /\ forall i, i ∈ l -> weight g i <> Some v in
  represents (remove_all l g) left (fun v w => arrow g v w /\ left v /\ left w)
  /\ node_count (remove_all l g) = (node_count g - length l)%nat.
Proof.
  induction l as [|i l IH]; intros g Hs Hb Hg.
  { cbn. split; [|lia]. eapply represents_iff; [| |apply represents_self; done]; [set_solver|].
    intros v w. split; [|tauto]. intros Hv. pose proof (arrow_nodes g v w Hv). set_solver. }
  inversion Hs as [|? ? Hl Hf]; subst. rewrite Forall_forall in Hf.
  destruct (lookup_lt_is_Some_2 (node_weights g) i) as [n Hn]; [apply Hb; set_solver|].
  destruct (remove_index_spec i n g Hg Hn) as (Hg' & Hv' & Ha' & Hw' & Hc').
  set (g' := (Petgraph.remove_node i g).2) in *. change (remove_all (i :: l) g) with (remove_all l g').
  destruct (IH g') as [Hr Hc]; [done| |done|].
  { intros j Hj. pose proof (Hf j Hj). pose proof (Hb j ltac:(set_solver)). assert (i < node_count g)%nat by (apply Hb; set_solver). lia. }
  split; [|cbn; rewrite Hc, Hc'; lia].
  assert (forall v, (v ∈ node_weights g' /\ forall j, j ∈ l -> weight g' j <> Some v)
                    <-> v ∈ node_weights g /\ forall j, j ∈ i :: l -> weight g j <> Some v) as Hleft.
  { intros v. rewrite Hv'. setoid_rewrite elem_of_cons. split.
    - intros [[H1 H2] H3]. split; [done|]. intros j [-> |Hj]; [unfold weight; congruence|]. rewrite <- Hw' by (apply Hf; done). auto.
    - intros [H1 H2]. split_and!; [done| |].
      + intros ->. by apply (H2 i); [left|].
      + intros j Hj. rewrite Hw' by (apply Hf; done). auto. }
  eapply represents_iff; [exact Hleft| |exact Hr]. intros v w. cbn. rewrite !Hleft, Ha'.
  split; [tauto|]. intros (H1 & [H2 H3] & [H4 H5]). split_and!; try done; intros ->.
  - by apply (H3 i); [left|].
  - by apply (H5 i); [left|].
Qed.

(** ** Sources *)

Lemma acyclic_external g : acyclic g -> (0 < node_count g)%nat -> externals g <> [].
Proof.
  intros Ha Hn. pose proof (topo_complete g Ha) as Hp.
  destruct (Petgraph.topo g) as [|a l] eqn:E; [apply Permutation_length in Hp; rewrite length_seq in Hp; cbn in Hp; lia|].
  assert (a ∈ externals g) as Hx; [|by intros H; rewrite H in Hx; apply elem_of_nil in Hx].
  apply externals_iff. split.
  - assert (a ∈ seq 0 (node_count g)) as H by (rewrite <- Hp; left). apply elem_of_seq in H. lia.
  - intros b He. destruct (topo_ordered g b a Ha He) as (i & j & _ & Hj & Hij). rewrite E in Hj.
    assert (NoDup (a :: l)) as Hd by (rewrite Hp; apply NoDup_seq).
    assert (j = 0) as -> by (by eapply NoDup_lookup). lia.
Qed.

Lemma source_iff g v : wf g -> (v ∈ omap (weight g) (externals g) <-> v ∈ node_weights g /\ forall u, ~ arrow g u v).
Proof.
  intros Hg. rewrite list_elem_of_omap. setoid_rewrite externals_iff. split.
  - intros (i & [Hi Hn] & Hv). split; [apply weight_elem; eauto|]. intros u Hu. pose proof Hu as (a & b & Ha & Hb & He).
    apply (Hn a). by rewrite (weight_inj g i b v).
  - intros [(i & Hi)%weight_elem Hn]. exists i. split_and!; [by eapply weight_bound| |done].
    intros b He. destruct (edge_weights g b i He) as (u & v' & Hu & Hv). rewrite Hi in Hv. injection Hv as <-.
    apply (Hn u). by exists b, i.
Qed.

Lemma sources_NoDup g : wf g -> NoDup (omap (weight g) (externals g)).
Proof.
  intros Hg. pose proof (externals_NoDup g) as Hd. induction Hd as [|i l Hi Hd IH]; cbn; [constructor|].
  destruct (weight g i) as [v|] eqn:Hv; [|done]. constructor; [|done]. rewrite list_elem_of_omap.
  intros (j & Hj & Hw). rewrite (weight_inj g i j v) in Hi; done.
Qed.

(** ** The batches *)

Lemma remove_sources g :
  wf g -> acyclic g ->
  let g' := remove_all (sort_descending (externals g)) g in
  let left v := v ∈ node_weights g /\ v ∉ omap (weight g) (externals g) in
  represents g' left (fun v w => arrow g v w /\ left v /\ left w)
  /\ acyclic g' /\ node_count g' = (node_count g - length (externals g))%nat.
Proof.
  intros Hg Ha g' left. destruct (remove_all_spec (sort_descending (externals g)) g) as [Hr Hc]; [| |done|].
  - apply sort_descending_sorted, externals_NoDup.
  - intros i. rewrite sort_descending_perm, externals_iff. tauto.
  - fold g' in Hr, Hc. rewrite sort_descending_perm in Hc.
    assert (represents g' left (fun v w => arrow g v w /\ left v /\ left w)) as Hr'.
    { assert (forall v, left v <-> v ∈ node_weights g /\ forall i, i ∈ sort_descending (externals g) -> weight g i <> Some v) as E.
      { intros v. unfold left. rewrite list_elem_of_omap. setoid_rewrite sort_descending_perm. naive_solver. }
      eapply represents_iff; [| |exact Hr]; intros; by rewrite !E. }
    split_and!; [done| |done]. destruct Hr' as [H1 H2 H3]. eapply acyclic_sub; [exact Hg|done| |done].
    intros v w Hv. by apply H3 in Hv as [].
Qed.

Lemma batches_spec fuel : forall g,
  wf g -> acyclic g -> (node_count g <= fuel)%nat ->
  concat (batches fuel g) ≡ₚ node_weights g
  /\ forall v w, arrow g v w -> exists i j b c,
       batches fuel g !! i = Some b /\ v ∈ b /\ batches fuel g !! j = Some c /\ w ∈ c /\ (i < j)%nat.
Proof.
  induction fuel as [|fuel IH]; intros g Hg Ha Hf; cbn [batches].
  { assert (node_weights g = []) as E by (apply length_zero_iff_nil; unfold node_count in Hf; lia).
    rewrite E. split; [done|]. intros v w [Hv _]%arrow_nodes. rewrite E in Hv. by apply elem_of_nil in Hv. }
  destruct (Nat.eqb_spec (node_count g) 0) as [E0|E0].
  { apply length_zero_iff_nil in E0. rewrite E0. split; [done|]. intros v w [Hv _]%arrow_nodes. rewrite E0 in Hv. by apply elem_of_nil in Hv. }
  rewrite bool_decide_false by (apply acyclic_external; [done|lia]).
  destruct (remove_sources g Hg Ha) as ([H1 H2 H3] & Ha' & Hc).
  set (g' := remove_all (sort_descending (externals g)) g) in *.
  assert (0 < length (externals g))%nat as Hl.
  { pose proof (acyclic_external g Ha ltac:(lia)). destruct (externals g); [done|cbn; lia]. }
  destruct (IH g' H1 Ha' ltac:(lia)) as [Hp Ho]. split.
  - cbn [concat]. rewrite Hp. apply NoDup_Permutation; [|done|].
    + apply NoDup_app. split_and!; [by apply sources_NoDup| |done]. intros v Hv Hv'. by apply H2 in Hv' as [].
    + intros v. rewrite elem_of_app, H2. pose proof (source_iff g v Hg). destruct (decide (v ∈ omap (weight g) (externals g))); tauto.
  - intros v w Hv. destruct (arrow_nodes _ _ _ Hv) as [Hnv Hnw].
    assert (w ∉ omap (weight g) (externals g)) as Hw by (rewrite source_iff by done; intros [_ Hx]; by apply (Hx v)).
    destruct (decide (v ∈ omap (weight g) (externals g))) as [Hs|Hs].
    + assert (w ∈ concat (batches fuel g')) as Hin by (rewrite Hp, H2; done).
      rewrite list_elem_of_In, in_concat in Hin. destruct Hin as (c & Hc' & Hw'). apply list_elem_of_In in Hc', Hw'.
      apply list_elem_of_lookup in Hc' as [j Hj]. exists 0, (S j). do 2 eexists. split_and!; [reflexivity|done|exact Hj|done|lia].
    + destruct (Ho v w) as (i & j & b & c & Hi & Hb & Hj & Hc' & Hij); [by apply H3|].
      exists (S i), (S j), b, c. split_and!; try done. lia.
Qed.

(** ** Properties *)

(** The graphs a client can build. *)
Inductive built : graph -> Prop :=
  | built_new : built default
  | built_add_node n g : built g -> built (add_node_or_get_index n g).2
  | built_remove_node n g : built g -> built (remove_node n g).2
  | built_add_edge a b g :
      (a < node_count g)%nat -> (b < node_count g)%nat -> built g -> built (try_add_edge a b g).2
  | built_transpose g : built g -> built (transpose g)
  | built_subgraph starts g : built g -> built (subgraph starts g).

Lemma try_add_edge_keeps a b g :
  (a < node_count g)%nat -> (b < node_count g)%nat -> wf g -> acyclic g ->
  wf (try_add_edge a b g).2 /\ acyclic (try_add_edge a b g).2.
Proof.
  intros Ha Hb Hg Hc. unfold try_add_edge. destruct (contains_edge g a b); [done|].
  destruct (astar g b a) eqn:E; [done|]. cbn. split.
  - unfold wf. by rewrite add_edge_weights.
  - apply add_edge_acyclic; [done..|]. by apply astar_none.
Qed.

Lemma try_add_edge_spec g a b v w :
  wf g -> acyclic g -> weight g a = Some v -> weight g b = Some w ->
  match try_add_edge a b g with
  | (Ok false, g') => g' = g /\ arrow g v w
  | (Ok true, g') =>
      ~ arrow g v w /\ acyclic g' /\ node_weights g' = node_weights g
      /\ forall x y, arrow g' x y <-> (x = v /\ y = w) \/ arrow g x y
  | (Err path, g') =>
      g' = g /\ ~ acyclic (Petgraph.add_edge a b g)
      /\ exists back, path = v :: back /\ walk (arrow g) w back v
  end.
Proof.
  intros Hg Hc Ha Hb. pose proof (weight_bound _ _ _ Ha) as Hla. pose proof (weight_bound _ _ _ Hb) as Hlb.
  pose proof (edge_arrow g a b v w Hg Ha Hb) as He. pose proof (add_edge_acyclic a b g Hla Hlb Hc) as Hx.
  unfold try_add_edge. destruct (contains_edge g a b) eqn:E; [split; [done|]; by apply He|].
  destruct (astar g b a) as [path|] eqn:Ep.
  - apply astar_path in Ep. split_and!; [done| |].
    + rewrite Hx. intros Hn. by apply Hn, (walk_rtc _ _ path).
    + destruct (walk_arrow g b path a w Ep Hb) as (v' & Hv & Hw). rewrite Ha in Hv. injection Hv as <-.
      eexists. split; [cbn; by rewrite Ha|done].
  - destruct (add_edge_arrow a b g v w Hg Ha Hb) as [Hw Har]. split_and!; [|by apply Hx, astar_none|done..].
    rewrite <- He. unfold edge. by rewrite E.
Qed.

(** A node with an edge to it from an existing one. *)
Lemma link_spec g node c n :
  wf g -> acyclic g -> weight g node = Some c ->
  match add_node_or_get_index n g with
  | (dep, g1) =>
      let g2 := (try_add_edge node dep g1).2 in
      wf g2 /\ acyclic g2 /\ (forall v, v ∈ node_weights g2 <-> v = n \/ v ∈ node_weights g) /\ weight g2 node = Some c
      /\ match (try_add_edge node dep g1).1 with
         | Ok _ => forall x y, arrow g2 x y <-> (x = c /\ y = n) \/ arrow g x y
         | Err path => (forall x y, arrow g2 x y <-> arrow g x y)
                       /\ exists back, path = c :: back /\ walk (arrow g) n back c
         end
  end.
Proof.
  intros Hg Ha Hc. destruct (add_node_or_get_index n g) as [dep g1] eqn:E.
  destruct (add_node_or_get_index_spec n g dep g1 Hg E) as (H1 & H2 & H3 & H4 & H5).
  assert (acyclic g1) as Ha1 by (eapply acyclic_sub; [exact Hg|done| |done]; intros; by apply H4).
  destruct (try_add_edge_keeps node dep g1) as [Hw2 Ha2]; [by eapply weight_bound, H5|by eapply weight_bound|done..|].
  pose proof (try_add_edge_spec g1 node dep c n H1 Ha1 (H5 _ _ Hc) H2) as Ht.
  destruct (try_add_edge node dep g1) as [[[]|path] g2]; cbn in *.
  - destruct Ht as (_ & _ & Hn & Har). unfold weight. rewrite Hn. split_and!; [done..|by apply H5|].
    intros x y. by rewrite Har, H4.
  - destruct Ht as [-> Har]. split_and!; [done..|by apply H5|]. intros x y. rewrite H4. split; [auto|].
    intros [[-> ->]|]; [by apply H4|done].
  - destruct Ht as (-> & _ & back & -> & Hw). split_and!; [done..|by apply H5|done|]. exists back. split; [done|].
    clear -Hw H4. induction Hw as [|x y l z Hx _ IH]; [constructor|]. econstructor; [by apply H4|done].
Qed.

(** C24: Every graph built with the crate's operations, in any order, has each node
    once and no cycle. *)
Theorem built_acyclic g : built g -> wf g /\ acyclic g.
Proof.
  induction 1 as [|n g _ [Hg Ha]|n g _ [Hg Ha]|a b g Hba Hbb _ [Hg Ha]|g _ [Hg Ha]|starts g _ [Hg Ha]].
  - destruct represents_default as [H1 _ H3]. split; [done|]. apply acyclic_arrow; [done|].
    intros v Hv. inversion Hv as [? ? Hx|? ? ? Hx _]; subst; by apply H3 in Hx.
  - destruct (add_node_or_get_index n g) as [i g'] eqn:E.
    destruct (add_node_or_get_index_spec n g i g' Hg E) as (H1 & _ & _ & H2 & _). split; [done|].
    eapply acyclic_sub; [exact Hg|done| |done]. intros v w. apply H2.
  - destruct (remove_node n g) as [r g'] eqn:E. destruct (remove_node_spec n g r g' Hg E) as (H1 & _ & _ & H2).
    split; [done|]. eapply acyclic_sub; [exact Hg|done| |done]. intros v w. rewrite H2. tauto.
  - by apply try_add_edge_keeps.
  - split; [|by apply transpose_acyclic]. unfold wf. by rewrite (proj1 (transpose_spec g)).
  - destruct (subgraph_represents g Hg starts) as [H1 _ H2]. split; [done|].
    eapply acyclic_sub; [exact Hg|done| |done]. intros v w. rewrite H2. tauto.
Qed.

(** [try_add_edge] between two nodes of an acyclic graph: it reports an edge that
    is there already, refuses exactly an edge that would close a cycle, with a walk of
    existing edges that closes it and the graph as it was, and otherwise adds that edge
    and nothing else. *)
Theorem try_add_edge_exact g a b v w :
  wf g -> acyclic g -> weight g a = Some v -> weight g b = Some w ->
  match try_add_edge a b g with
  | (Ok false, g') => g' = g /\ arrow g v w
  | (Ok true, g') =>
      ~ arrow g v w /\ acyclic g' /\ node_weights g' = node_weights g
      /\ forall x y, arrow g' x y <-> (x = v /\ y = w) \/ arrow g x y
  | (Err path, g') =>
      g' = g /\ ~ acyclic (Petgraph.add_edge a b g)
      /\ exists back, path = v :: back /\ walk (arrow g) w back v
  end.
Proof. apply try_add_edge_spec. Qed.

(** C25: [batched_topo] of an acyclic graph ends with every node in exactly one batch,
    and an edge always leads to a later batch, so the nodes of a batch are independent
    of each other. *)
Theorem batched_topo_schedules g :
  wf g -> acyclic g ->
  concat (batched_topo g) ≡ₚ iter_nodes g
  /\ forall v w, arrow g v w -> exists i j b c,
       batched_topo g !! i = Some b /\ v ∈ b /\ batched_topo g !! j = Some c /\ w ∈ c /\ (i < j)%nat.
Proof. intros Hg Ha. by apply batches_spec. Qed.

(** [subgraph] keeps the starting nodes that exist, all they reach, and every edge
    that leaves a kept node. *)
Theorem subgraph_exact g starts :
  wf g ->
  represents (subgraph starts g)
    (fun v => exists s, s ∈ starts /\ node_exists s g = true /\ rtc (arrow g) s v)
    (fun v w => arrow g v w /\ exists s, s ∈ starts /\ node_exists s g = true /\ rtc (arrow g) s v).
Proof.
  intros Hg. eapply represents_iff; [| |by apply subgraph_represents]; intros; by setoid_rewrite node_exists_iff.
Qed.
End theorems.

(** ** A graph that satisfies petgraph's laws

    Lists of nodes and edges, searched by bounded walks.  It shows that the laws the
    theorems of the dependency graph assume hold of an implementation, and runs the
    crate's operations on concrete graphs. *)

(** ** Simple walks *)

Lemma walk_suffix {A} (R : relation A) b l c a : walk R b l c -> a ∈ l -> exists l1 l2, l = l1 ++ l2 /\ walk R a l2 c.
Proof.
  induction 1 as [b|b d l c Hr Hw IH]; intros Ha.
  - apply list_elem_of_singleton in Ha as ->. exists [], [b]. split; [done|constructor].
  - apply elem_of_cons in Ha as [-> |Ha]; [exists [], (b :: l); split; [done|by econstructor]|].
    destruct (IH Ha) as (l1 & l2 & -> & Hw'). by exists (b :: l1), l2.
Qed.

Lemma walk_simple {A} `{EqDecision A} (R : relation A) a b : rtc R a b -> exists l, walk R a l b /\ NoDup l.
Proof.
  induction 1 as [a|a c b Hr _ (l & Hw & Hd)]; [exists [a]; split; [constructor|apply NoDup_singleton]|].
  destruct (decide (a ∈ l)) as [Ha|Ha].
  - destruct (walk_suffix R c l b a Hw Ha) as (l1 & l2 & -> & Hw'). exists l2. split; [done|].
    by apply NoDup_app in Hd as (_ & _ & ?).
  - exists (a :: l). split; [by econstructor|by constructor].
Qed.

Lemma NoDup_bounded (l : list nat) n : NoDup l -> (forall x, x ∈ l -> (x < n)%nat) -> (length l <= n)%nat.
Proof.
  intros Hd Hb. assert (length l <= length (seq 0 n))%nat as H; [|by rewrite length_seq in H].
  apply submseteq_length, NoDup_submseteq; [done|]. intros x Hx. apply elem_of_seq. specialize (Hb x Hx). lia.
Qed.

Section listing.
Context {N : Type}.

Definition listing : Type := list N * list (nat * nat).

Definition has_edge (g : listing) (a b : nat) : bool :=
  (a <? length g.1)%nat && (b <? length g.1)%nat && bool_decide ((a, b) ∈ g.2).
Definition indices (g : listing) : list nat := seq 0 (length g.1).
Definition next_nodes (g : listing) (a : nat) : list nat := filter (fun b => has_edge g a b) (indices g).

(** The first walk of at most [n] edges the search finds. *)
Fixpoint search (g : listing) (n a b : nat) : option (list nat) :=
  if (a =? b)%nat then Some [a]
  else match n with
       | 0 => None
       | S n' => head (omap (fun c => cons a <$> search g n' c b) (next_nodes g a))
       end.
Definition reaches (g : listing) (a b : nat) : bool := bool_decide (is_Some (search g (length g.1) a b)).
Definition ancestors (g : listing) (x : nat) : list nat := filter (fun y => reaches g y x) (indices g).

Definition earlier (g : listing) (x y : nat) : Prop := (length (ancestors g x) <= length (ancestors g y))%nat.
#[export] Instance earlier_dec g : RelDecision (earlier g).
Proof. intros x y. unfold earlier. apply _. Defined.

Definition all_pairs (n : nat) : list (nat * nat) := list_prod (seq 0 n) (seq 0 n).

#[export] Instance listing_graph : DiGraph N := {|
  graph := listing;
  default := ([], []);
  node_weights g := g.1;
  Petgraph.add_node n g := (length g.1, (g.1 ++ [n], filter (fun p => has_edge g p.1 p.2) g.2));
  Petgraph.remove_node i g :=
    if (i <? length g.1)%nat then
      (g.1 !! i,
       (swap_remove i g.1,
        filter (fun p => has_edge g (moved_from i (length g.1) p.1) (moved_from i (length g.1) p.2)) (all_pairs (length g.1 - 1))))
    else (None, g);
  Petgraph.add_edge a b g := (g.1, (a, b) :: g.2);
  contains_edge := has_edge;
  neighbors := next_nodes;
  externals g := filter (fun a => forallb (fun b => negb (has_edge g b a)) (indices g)) (indices g);
  astar g a b := search g (length g.1) a b;
  reverse g := (g.1, (fun p => (p.2, p.1)) <$> g.2);
  Petgraph.dfs g seen a :=
    if bool_decide (a ∈ seen) then []
    else filter (fun x => (x ∉ seen) /\ reaches g a x) (indices g);
  Petgraph.topo g := merge_sort (earlier g) (indices g);
|}.

(** ** The laws *)

Implicit Types (g : listing).

Lemma has_edge_true g a b :
  has_edge g a b = true <-> (a < length g.1)%nat /\ (b < length g.1)%nat /\ (a, b) ∈ g.2.
Proof.
  unfold has_edge. rewrite !andb_true_iff, !Nat.ltb_lt, bool_decide_eq_true. tauto.
Qed.

Lemma elem_of_indices g x : x ∈ indices g <-> (x < length g.1)%nat.
Proof. unfold indices. rewrite elem_of_seq. lia. Qed.

Lemma elem_of_next_nodes g a b : b ∈ next_nodes g a <-> edge g a b.
Proof.
  unfold next_nodes, edge. cbn. rewrite list_elem_of_filter, elem_of_indices. split; [intros [H _]; by apply Is_true_true|].
  intros H. split; [by apply Is_true_true|]. apply has_edge_true in H. tauto.
Qed.

Lemma elem_of_all_pairs n p : p ∈ all_pairs n <-> (p.1 < n)%nat /\ (p.2 < n)%nat.
Proof.
  unfold all_pairs. destruct p as [x y]. rewrite list_elem_of_In, in_prod_iff, !in_seq. cbn. lia.
Qed.

Lemma search_walk g n : forall a b p, search g n a b = Some p -> walk (edge g) a p b.
Proof.
  induction n as [|n IH]; intros a b p; cbn [search]; destruct (Nat.eqb_spec a b) as [-> |].
  1, 3: intros [= <-]; constructor.
  - done.
  - intros H. assert (p ∈ omap (fun c => cons a <$> search g n c b) (next_nodes g a)) as Hp.
    { destruct (omap _ _); [done|]. injection H as ->. left. }
    apply list_elem_of_omap in Hp as (c & Hc & Hs). apply elem_of_next_nodes in Hc.
    destruct (search g n c b) eqn:E; [|done]. injection Hs as <-. econstructor; eauto.
Qed.

Lemma walk_search g a l b : walk (edge g) a l b -> forall n, (length l <= S n)%nat -> is_Some (search g n a b).
Proof.
  induction 1 as [a|a c l b He Hw IH]; intros n Hn.
  - destruct n; cbn; rewrite Nat.eqb_refl; by eexists.
  - destruct n as [|n]; [inversion Hw; subst; cbn in Hn; lia|]. cbn [search].
    destruct (Nat.eqb_spec a b); [by eexists|].
    destruct (IH n) as [p Hp]; [cbn in Hn; lia|]. apply elem_of_next_nodes in He.
    assert (a :: p ∈ omap (fun c => cons a <$> search g n c b) (next_nodes g a)) as Ho
      by (apply list_elem_of_omap; exists c; rewrite Hp; done).
    destruct (omap _ _); [by apply elem_of_nil in Ho|by eexists].
Qed.

Lemma walk_bound g a l b : (a < length g.1)%nat -> walk (edge g) a l b -> forall x, x ∈ l -> (x < length g.1)%nat.
Proof.
  intros Ha Hw. induction Hw as [a|a c l b He Hw IH]; intros x Hx.
  - by apply list_elem_of_singleton in Hx as ->.
  - apply elem_of_cons in Hx as [-> |Hx]; [done|]. apply IH; [|done]. apply has_edge_true in He. tauto.
Qed.

Lemma search_complete g a b : (a < length g.1)%nat -> rtc (edge g) a b -> is_Some (search g (length g.1) a b).
Proof.
  intros Ha (l & Hw & Hd)%walk_simple. eapply walk_search; [exact Hw|].
  pose proof (NoDup_bounded l (length g.1) Hd (walk_bound g a l b Ha Hw)). lia.
Qed.

Lemma reaches_iff g a b : (a < length g.1)%nat -> (reaches g a b = true <-> rtc (edge g) a b).
Proof.
  intros Ha. unfold reaches. rewrite bool_decide_eq_true. split; [|by apply search_complete].
  intros [p Hp]. by eapply walk_rtc, search_walk.
Qed.

Lemma elem_of_ancestors g x y : y ∈ ancestors g x <-> (y < length g.1)%nat /\ rtc (edge g) y x.
Proof.
  unfold ancestors. rewrite list_elem_of_filter, elem_of_indices.
  rewrite Is_true_true. split; intros [H1 H2]; split; try done; by apply reaches_iff.
Qed.

(** Along an edge of an acyclic graph the ancestors grow. *)
Lemma ancestors_grow g a b : acyclic g -> edge g a b -> (length (ancestors g a) < length (ancestors g b))%nat.
Proof.
  intros Hc He. assert (NoDup (ancestors g a)) as Hd by apply NoDup_filter, NoDup_seq.
  assert (a < length g.1 /\ b < length g.1)%nat as [Ha Hb] by (apply has_edge_true in He; tauto).
  assert (length (b :: ancestors g a) <= length (ancestors g b))%nat as H; [|cbn in H; lia].
  apply submseteq_length, NoDup_submseteq.
  - constructor; [|done]. rewrite elem_of_ancestors. intros [_ Hr]. apply (Hc a). eapply tc_rtc_r; [by apply tc_once|done].
  - intros x [-> |Hx]%elem_of_cons; apply elem_of_ancestors; [done|]. apply elem_of_ancestors in Hx as [Hx Hr].
    split; [done|]. by eapply rtc_r.
Qed.

Lemma sorted_before g a b l :
  StronglySorted (earlier g) l -> a ∈ l -> b ∈ l -> (length (ancestors g a) < length (ancestors g b))%nat -> before l a b.
Proof.
  intros Hs (i & Hi)%list_elem_of_lookup (j & Hj)%list_elem_of_lookup Hab. exists i, j. split_and!; [done..|].
  destruct (Nat.lt_trichotomy i j) as [|[-> |Hji]]; [done|simplify_eq; lia|].
  rewrite <- (take_drop (S j) l) in Hs. assert (earlier g b a) as H; [|unfold earlier in H; lia].
  eapply StronglySorted_app_1_elem_of; [exact Hs|apply (list_elem_of_lookup_2 _ j)|apply (list_elem_of_lookup_2 _ (i - S j))].
  - rewrite lookup_take_lt by lia. done.
  - rewrite lookup_drop. by replace (S j + (i - S j)) with i by lia.
Qed.

Lemma remove_listing i g :
  (i < length g.1)%nat ->
  Petgraph.remove_node i g
  = (g.1 !! i, (swap_remove i g.1,
       filter (fun p => has_edge g (moved_from i (length g.1) p.1) (moved_from i (length g.1) p.2)) (all_pairs (length g.1 - 1)))).
Proof. intros Hi. cbn [Petgraph.remove_node listing_graph]. by rewrite (proj2 (Nat.ltb_lt i (length g.1)) Hi). Qed.

Lemma listing_remove_edge i g a b :
  (i < length g.1)%nat ->
  edge (Petgraph.remove_node i g).2 a b
  <-> (a < length g.1 - 1)%nat /\ (b < length g.1 - 1)%nat
      /\ edge g (moved_from i (length g.1) a) (moved_from i (length g.1) b).
Proof.
  intros Hi. rewrite remove_listing by done. unfold edge. cbn -[has_edge Nat.ltb]. rewrite has_edge_true. cbn [fst snd].
  rewrite length_swap_remove, list_elem_of_filter, elem_of_all_pairs, Is_true_true. cbn [fst snd]. tauto.
Qed.

Lemma listing_externals g a :
  a ∈ externals g <-> (a < length g.1)%nat /\ forall b, ~ edge g b a.
Proof.
  cbn [externals listing_graph]. rewrite list_elem_of_filter, elem_of_indices, Is_true_true, forallb_forall.
  setoid_rewrite <- list_elem_of_In. setoid_rewrite elem_of_indices. setoid_rewrite negb_true_iff. unfold edge. cbn.
  split; intros [H1 H2]; split; try done; intros b.
  - intros He. pose proof (proj1 (has_edge_true _ _ _) He) as (Hb & _). rewrite H1 in He; done.
  - intros _. by apply not_true_iff_false.
Qed.

Lemma listing_dfs g seen a x :
  x ∈ Petgraph.dfs g seen a <-> (a ∉ seen) /\ (x ∉ seen) /\ (x < length g.1)%nat /\ reaches g a x = true.
Proof.
  cbn [Petgraph.dfs listing_graph]. case_bool_decide as E.
  - rewrite elem_of_nil. tauto.
  - rewrite list_elem_of_filter, elem_of_indices, Is_true_true. tauto.
Qed.

Lemma listing_dfs_reach g seen a x : x ∈ Petgraph.dfs g seen a -> rtc (edge g) a x.
Proof.
  intros (_ & _ & _ & Hr)%listing_dfs. unfold reaches in Hr. apply bool_decide_eq_true in Hr as [p Hp].
  by eapply walk_rtc, search_walk.
Qed.

#[export] Instance listing_laws : Laws N listing_graph.
Proof.
  split; unfold node_count; cbn [node_weights listing_graph].
  - intros g a b (? & ? & ?)%has_edge_true. done.
  - done.
  - done.
  - done.
  - intros n g a b. unfold edge. cbn -[has_edge Nat.ltb]. rewrite !has_edge_true. cbn [fst snd].
    rewrite length_app, list_elem_of_filter, Is_true_true, has_edge_true. cbn. intuition lia.
  - intros i g. cbn [Petgraph.remove_node listing_graph]. destruct (Nat.ltb_spec i (length g.1)); [done|]. by rewrite lookup_ge_None_2.
  - intros i g Hi. by rewrite remove_listing.
  - intros i g a b. apply listing_remove_edge.
  - intros i g Hi. cbn [Petgraph.remove_node listing_graph]. by rewrite (proj2 (Nat.ltb_ge i (length g.1)) Hi).
  - done.
  - intros a b g x y Ha Hb. unfold edge. cbn -[has_edge Nat.ltb]. rewrite !has_edge_true. cbn [fst snd].
    rewrite elem_of_cons. naive_solver.
  - intros g a b. apply elem_of_next_nodes.
  - apply listing_externals.
  - intros g. apply NoDup_filter, NoDup_seq.
  - intros g a b p. apply search_walk.
  - intros g a b Ha Hs Hr. apply search_complete in Hr as [p Hp]; [|done]. cbn in Hs. congruence.
  - done.
  - intros g a b. unfold edge. cbn -[has_edge Nat.ltb]. rewrite !has_edge_true. cbn [fst snd].
    rewrite list_elem_of_fmap. split; [|intros (H1 & H2 & H3); split_and!; try done; by exists (b, a)].
    intros (H1 & H2 & [x y] & E & Hx). cbn in E. by injection E as -> ->.
  - intros g seen a. cbn. case_bool_decide; [constructor|apply NoDup_filter, NoDup_seq].
  - intros g seen a x Hx. split; [by eapply listing_dfs_reach|]. by apply listing_dfs in Hx as (_ & ? & _).
  - intros g seen a Ha. destruct (decide (a ∈ seen)); [auto|]. right. apply listing_dfs. split_and!; try done.
    by apply reaches_iff.
  - intros g seen a x y Hx He. destruct (decide (y ∈ seen)); [auto|]. right. pose proof (listing_dfs_reach _ _ _ _ Hx) as Hr.
    apply listing_dfs in Hx as (? & _ & ? & _). apply listing_dfs.
    pose proof He as (_ & Hy & _)%has_edge_true. split_and!; try done. unfold reaches. apply bool_decide_eq_true.
    destruct (decide (a < length g.1)%nat) as [Ha|Ha]; [apply search_complete; [done|]; by eapply rtc_r|].
    destruct Ha. apply rtc_tc in Hr as [-> |Ht]; [done|]. destruct Ht as [? ? Hx|? ? ? Hx _]; apply has_edge_true in Hx; tauto.
  - intros g _. apply merge_sort_Permutation.
  - intros g a b Hc He. pose proof He as (Ha & Hb & _)%has_edge_true. apply (sorted_before g).
    + apply StronglySorted_merge_sort; [intros x y z; unfold earlier; lia|intros x y; unfold earlier; lia].
    + cbn. rewrite merge_sort_Permutation. by apply elem_of_indices.
    + cbn. rewrite merge_sort_Permutation. by apply elem_of_indices.
    + by apply ancestors_grow.
Qed.
End listing.

(** ** The graph of the crate's own tests: 1 before 2 and 3, 2 before 3, 3 before 4 *)

Module Chain.
Definition g : graph := ([1; 2; 3; 4]%N, [(0, 1); (0, 2); (1, 2); (2, 3)]%nat).

Lemma distinct : wf g.
Proof. apply (bool_decide_unpack _). vm_compute. exact I. Qed.

(** Its edges lead to higher indices. *)
Lemma no_cycle : acyclic g.
Proof.
  assert (forall a b, tc (edge g) a b -> (a < b)%nat) as H; [|intros a Ha; specialize (H a a Ha); lia].
  assert (forall a b, edge g a b -> (a < b)%nat) as He.
  { intros a b (_ & _ & Hab)%has_edge_true. cbn in Hab.
    repeat (apply elem_of_cons in Hab as [[= -> ->]|Hab]; [lia|]). by apply elem_of_nil in Hab. }
  induction 1 as [|a b c Hab _ IH]; [auto|]. specialize (He a b Hab). lia.
Qed.

(** Node 3 with node 2 out of the graph: what the operations build. *)
Lemma built_acyclic_witness :
  wf (subgraph [3%N] (remove_node 2%N (add_node_or_get_index 2%N (add_node_or_get_index 3%N default).2).2).2)
  /\ acyclic (subgraph [3%N] (remove_node 2%N (add_node_or_get_index 2%N (add_node_or_get_index 3%N default).2).2).2).
Proof. apply built_acyclic. repeat constructor. Defined.

(** An edge from the last node back to the first closes a cycle. *)
Lemma try_add_edge_exact_witness :
  (try_add_edge 3 0 g).1 = Err [4; 1; 2; 3; 4]%N
  /\ exists back, [4; 1; 2; 3; 4]%N = 4%N :: back /\ walk (arrow g) 1%N back 4%N.
Proof.
  split; [vm_compute; reflexivity|].
  exact (proj2 (proj2 (try_add_edge_exact g 3 0 4%N 1%N distinct no_cycle eq_refl eq_refl))).
Defined.

Lemma batched_topo_schedules_witness :
  batched_topo g = [[1]; [2]; [3]; [4]]%N /\ concat (batched_topo g) ≡ₚ iter_nodes g.
Proof. split; [vm_compute; reflexivity|]. exact (proj1 (batched_topo_schedules g distinct no_cycle)). Defined.

Lemma subgraph_exact_witness :
  node_weights (subgraph [2%N] g) = [2; 3; 4]%N
  /\ (2%N ∈ node_weights (subgraph [2%N] g)
      <-> exists s, s ∈ [2%N] /\ node_exists s g = true /\ rtc (arrow g) s 2%N).
Proof. split; [vm_compute; reflexivity|]. exact (rep_nodes _ _ _ (subgraph_exact g [2%N] distinct) 2%N). Defined.
End Chain.
