(* ===== verification/Fnmatch.v ===== *)
(** * Glob patterns with groups

    [crates/fnmatch/src/lib.rs]: a pattern is read byte by byte into fragments, written as
    a regular expression and compiled by the [regex] crate, which is third-party code:
    [Regex] has the two operations the crate calls, [RegexLaws] what its documentation
    says of the syntax the fragments use.  [Glob] says what a pattern should mean. *)

From S2P Require Import Prelude ByteStrings Ordered.

(** ** Reading a pattern *)

Module Fragment.
Inductive t :=
  | MatchOne
  | MatchAnyExceptForwardSlash
  | MatchAny
  | BackSlash
  | Dot
  | ForwardSlash
  | Text (text : bytes)
  | Group (id : bytes) (elements : list t).
End Fragment.

Module PatternError.
Inductive t := Group | RegexSyntax | RegexTooBig.
End PatternError.

Record StringWalker := { data : bytes; index : nat }.

Module Walker.
Definition new (s : bytes) : StringWalker := {| data := s; index := 0 |}.

Definition eat (much : nat) (w : StringWalker) : StringWalker :=
  {| data := data w; index := index w + much |}.

(** [self.data.get(self.index..self.index + 1).and_then(|s| s.chars().nth(0))] *)
Definition peek (w : StringWalker) : option byte :=
  s ← str_get (data w) (index w) (index w + 1); head s.

Definition next (w : StringWalker) : option byte * StringWalker :=
  if (length (data w) <=? index w)%nat then (None, w) else (peek w, eat 1 w).

Fixpoint find (fuel : nat) (c : byte) (idx : nat) (w : StringWalker) : option nat :=
  match fuel with
  | 0 => None
  | S fuel' =>
      match next w with
      | (Some t, w') => if bool_decide (t = c) then Some idx else find fuel' c (S idx) w'
      | (None, _) => None
      end
  end.

(** A walk ends after as many steps as there are bytes. *)
Definition substring_to (c : byte) (w : StringWalker) : option bytes :=
  idx ← find (S (length (data w))) c 0 w;
  str_get (data w) (index w) (index w + idx).
End Walker.

(** [if !text.is_empty() { builder.push(Fragment::Text(text)) }] *)
Definition flush (builder : list Fragment.t) (text : bytes) : list Fragment.t :=
  if bool_decide (text = []) then builder else builder ++ [Fragment.Text text].

(** The [while] loop; the recursive call reads a shorter string. *)
Fixpoint fragments_loop (fuel : nat) (w : StringWalker) (builder : list Fragment.t) (text : bytes) :
    result PatternError.t (list Fragment.t) :=
  match fuel with
  | 0 => Err PatternError.Group
  | S fuel' =>
      match Walker.next w with
      | (None, _) => Ok (flush builder text)
      | (Some ch, w) =>
          let token f w := fragments_loop fuel' w (flush builder text ++ [f]) [] in
          match ch with
          | "?"%byte => token Fragment.MatchOne w
          | "*"%byte =>
              if bool_decide (Walker.peek w = Some "*"%byte) then token Fragment.MatchAny (Walker.eat 1 w)
              else token Fragment.MatchAnyExceptForwardSlash w
          | "\"%byte => token Fragment.BackSlash w
          | "/"%byte => token Fragment.ForwardSlash w
          | "."%byte => token Fragment.Dot w
          | "("%byte =>
              group ← ok_or (Walker.substring_to ")"%byte w) PatternError.Group;
              let w := Walker.eat (length group + 1) w in
              match split ":"%byte group with
              | [key; value] =>
                  subpattern ← fragments_loop fuel' (Walker.new value) [] [];
                  fragments_loop fuel' w (builder ++ [Fragment.Group key subpattern]) text
              | _ => Err PatternError.Group
              end
          | ")"%byte => fragments_loop fuel' w builder text
          | _ => fragments_loop fuel' w builder (text ++ [ch])
          end
      end
  end.

Definition fragments_from_string (s : bytes) : result PatternError.t (list Fragment.t) :=
  fragments_loop (S (length s)) (Walker.new s) [] [].

Fixpoint fragment_to_regex_str (fragment : Fragment.t) : bytes * list bytes :=
  match fragment with
  | Fragment.MatchOne => (bstr ".", [])
  | Fragment.MatchAnyExceptForwardSlash => (bstr "[^\/]*", [])
  | Fragment.MatchAny => (bstr ".*", [])
  | Fragment.BackSlash => (bstr "\", [])
  | Fragment.ForwardSlash => (bstr "\/", [])
  | Fragment.Dot => (bstr "\.", [])
  | Fragment.Text t => (t, [])
  | Fragment.Group id elements =>
      let compiled := map fragment_to_regex_str elements in
      (bstr "(?<" ++ id ++ bstr ">" ++ concat compiled.*1 ++ bstr ")", concat compiled.*2 ++ [id])
  end.

(** ** Compiling and matching it *)

Class Regex := {
  regex : Type;
  (** [Regex::new] *)
  regex_new : bytes -> result PatternError.t regex;
  (** [Regex::captures], and [Captures::name] of what it returns *)
  captures : regex -> bytes -> option (bytes -> option bytes);
}.

Section pattern.
Context `{R : Regex}.

Record Pattern := { pattern : bytes; compiled : regex; groups : list bytes }.
Record Match := { path : bytes; variables : list (bytes * bytes) }.

Definition from_str (s : bytes) : result PatternError.t Pattern :=
  fragments ← fragments_from_string s;
  let compiled := map fragment_to_regex_str fragments in
  re ← regex_new (bstr "^" ++ concat compiled.*1 ++ bstr "$");
  Ok {| pattern := s; compiled := re; groups := set_collect (concat compiled.*2) |}.

(** [None] is the panic of [m.name(k).unwrap()]. *)
Definition match_path (self : Pattern) (p : bytes) : option (option Match) :=
  match captures (compiled self) p with
  | Some m =>
      kv ← mapM (fun k => v ← m k; Some (k, v)) (groups self);
      Some (Some {| path := p; variables := map_collect kv |})
  | None => Some None
  end.

#[global] Instance Pattern_cmp : Cmp Pattern := cmp_on (fun p => (pattern p, groups p)).
End pattern.

(** ** What the [regex] crate documents

    The part of its syntax the fragments use, and its matches in the order of preference:
    repetitions are greedy, [.] is any character but a newline, [^] and [$] are the ends
    of the text.  Group names are distinct.  A regular expression that is well formed is
    refused only for its size. *)

Definition NEWLINE : byte := x0a.

(** The characters of a string: a byte with the continuation bytes that follow it *)
Definition add_byte (b : byte) (cs : list bytes) : list bytes :=
  match cs with
  | (d :: c) :: cs' => if utf8_cont d then (b :: d :: c) :: cs' else [b] :: cs
  | _ => [b] :: cs
  end.
Definition chars (s : bytes) : list bytes := foldr add_byte [] s.

Module Re.
Inductive atom := Literal (c : byte) | Escaped (c : byte) | Dot | DotStar | NotSlashStar.
Inductive node := Atom (a : atom) | Named (name : bytes) (l : list atom).

Definition print_atom (a : atom) : bytes :=
  match a with
  | Literal c => [c]
  | Escaped c => ["\"%byte; c]
  | Dot => bstr "."
  | DotStar => bstr ".*"
  | NotSlashStar => bstr "[^\/]*"
  end.
Definition print_node (n : node) : bytes :=
  match n with
  | Atom a => print_atom a
  | Named name l => bstr "(?<" ++ name ++ bstr ">" ++ concat (map print_atom l) ++ bstr ")"
  end.
Definition print (l : list node) : bytes := bstr "^" ++ concat (map print_node l) ++ bstr "$".

Definition special (c : byte) : bool := contains c (bstr "\.+*?()|[]{}^$").
Definition atom_ok (a : atom) : bool :=
  match a with
  | Literal c => is_ascii c && negb (special c)
  | Escaped c => contains c (bstr "/.")
  | _ => true
  end.
Definition is_alpha (c : byte) : bool :=
  in_Z_range 65 90 c || in_Z_range 97 122 c || bool_decide (c = "_"%byte).
Definition name_ok (name : bytes) : bool :=
  match name with
  | [] => false
  | c :: cs => is_alpha c && forallb (fun c => is_alpha c || in_Z_range 48 57 c) cs
  end.
Definition node_ok (n : node) : bool :=
  match n with
  | Atom a => atom_ok a
  | Named name l => name_ok name && forallb atom_ok l
  end.
Definition names (l : list node) : list bytes := omap (fun n => match n with Named name _ => Some name | _ => None end) l.
Definition ok (l : list node) : Prop := Forall (fun n => node_ok n = true) l /\ NoDup (names l).

(** The ways to match a beginning of [h], preferred ones first: what was taken and what
    remains *)
Fixpoint star (admits : bytes -> bool) (h : list bytes) : list (list bytes * list bytes) :=
  match h with
  | c :: h' => (if admits c then (fun '(t, r) => (c :: t, r)) <$> star admits h' else []) ++ [([], h)]
  | [] => [([], [])]
  end.
Definition one (admits : bytes -> bool) (h : list bytes) : list (list bytes * list bytes) :=
  match h with
  | c :: h' => if admits c then [([c], h')] else []
  | [] => []
  end.
Definition atom_runs (a : atom) : list bytes -> list (list bytes * list bytes) :=
  match a with
  | Literal c | Escaped c => one (fun d => bool_decide (d = [c]))
  | Dot => one (fun d => bool_decide (d <> [NEWLINE]))
  | DotStar => star (fun d => bool_decide (d <> [NEWLINE]))
  | NotSlashStar => star (fun d => bool_decide (d <> ["/"%byte]))
  end.
Fixpoint atoms_runs (l : list atom) (h : list bytes) : list (list bytes * list bytes) :=
  match l with
  | [] => [([], h)]
  | a :: l => '(t, h') ← atom_runs a h; (fun '(t', r) => (t ++ t', r)) <$> atoms_runs l h'
  end.
Definition node_runs (n : node) (h : list bytes) : list (list (bytes * bytes) * list bytes) :=
  match n with
  | Atom a => (fun '(_, r) => ([], r)) <$> atom_runs a h
  | Named name l => (fun '(t, r) => ([(name, concat t)], r)) <$> atoms_runs l h
  end.
Fixpoint runs (l : list node) (h : list bytes) : list (list (bytes * bytes) * list bytes) :=
  match l with
  | [] => [([], h)]
  | n :: l => '(b, h') ← node_runs n h; (fun '(b', r) => (b ++ b', r)) <$> runs l h'
  end.
Definition first_match (l : list node) (h : list bytes) : option (list (bytes * bytes)) :=
  head (omap (fun '(b, r) => if bool_decide (r = []) then Some b else None) (runs l h)).
Definition bound (b : list (bytes * bytes)) (k : bytes) : option bytes :=
  snd <$> List.find (fun e => bool_decide (e.1 = k)) b.
End Re.

Class RegexLaws (R : Regex) : Prop := {
  regex_new_ok l : Re.ok l ->
    (exists re, regex_new (Re.print l) = Ok re) \/ regex_new (Re.print l) = Err PatternError.RegexTooBig;
  captures_first l re h : Re.ok l -> regex_new (Re.print l) = Ok re -> utf8_valid h = true ->
    match captures re h, Re.first_match l (chars h) with
    | Some m, Some b => forall k, m k = Re.bound b k
    | None, None => True
    | _, _ => False
    end;
}.

(** ** What a pattern should mean *)

Module Glob.
Inductive atom := One | Star | StarStar | Lit (c : byte).
Inductive item := Plain (a : atom) | Group (name : bytes) (l : list atom).

Definition show_atom (a : atom) : bytes :=
  match a with
  | One => bstr "?"
  | Star => bstr "*"
  | StarStar => bstr "**"
  | Lit c => [c]
  end.
Definition show_item (i : item) : bytes :=
  match i with
  | Plain a => show_atom a
  | Group name l => bstr "(" ++ name ++ bstr ":" ++ concat (map show_atom l) ++ bstr ")"
  end.
Definition show (l : list item) : bytes := concat (map show_item l).

Inductive atom_matches : atom -> list bytes -> Prop :=
  | one_matches c : c <> [NEWLINE] -> atom_matches One [c]
  | star_matches t : Forall (fun c => c <> ["/"%byte]) t -> atom_matches Star t
  | star_star_matches t : Forall (fun c => c <> [NEWLINE]) t -> atom_matches StarStar t
  | lit_matches c : atom_matches (Lit c) [[c]].
Inductive atoms_match : list atom -> list bytes -> Prop :=
  | no_atoms : atoms_match [] []
  | cons_atoms a l t t' : atom_matches a t -> atoms_match l t' -> atoms_match (a :: l) (t ++ t').
Inductive item_matches : item -> list bytes -> list (bytes * bytes) -> Prop :=
  | plain_matches a t : atom_matches a t -> item_matches (Plain a) t []
  | group_matches name l t : atoms_match l t -> item_matches (Group name l) t [(name, concat t)].

(** The characters [t] are those the items describe, with the groups bound as in [b]. *)
Inductive matches : list item -> list bytes -> list (bytes * bytes) -> Prop :=
  | no_items : matches [] [] []
  | cons_items i l t t' b b' : item_matches i t b -> matches l t' b' -> matches (i :: l) (t ++ t') (b ++ b').

Definition separator (c : byte) : bool := bool_decide (c = "/"%byte) || bool_decide (c = "."%byte).
Definition lit_ok (c : byte) : bool := is_ascii c && (separator c || negb (Re.special c)).
Definition atom_ok (a : atom) : bool := match a with Lit c => lit_ok c | _ => true end.
Definition inner_ok (a : atom) : bool := match a with Lit c => lit_ok c && bool_decide (c <> ":"%byte) | _ => true end.
Definition item_ok (i : item) : bool :=
  match i with
  | Plain a => atom_ok a
  | Group name l => Re.name_ok name && forallb inner_ok l
  end.
Definition names (l : list item) : list bytes := omap (fun i => match i with Group name _ => Some name | _ => None end) l.

(** A star is not written next to another. *)
Fixpoint stars_apart (l : list atom) : bool :=
  match l with
  | Star :: ((Star | StarStar) :: _) => false
  | _ :: l => stars_apart l
  | [] => true
  end.
Fixpoint spaced (l : list item) : bool :=
  match l with
  | Plain Star :: (Plain (Star | StarStar) :: _) => false
  | Plain _ :: l => spaced l
  | Group _ g :: l => stars_apart g && spaced l
  | [] => true
  end.

(** A group follows a wildcard, a separator, a group or nothing, not text. *)
Fixpoint separated (after_text : bool) (l : list item) : bool :=
  match l with
  | Plain (Lit c) :: l => separated (negb (separator c)) l
  | Plain _ :: l => separated false l
  | Group _ _ :: l => negb after_text && separated after_text l
  | [] => true
  end.

Definition written (l : list item) : Prop :=
  forallb item_ok l = true /\ spaced l = true /\ separated false l = true /\ NoDup (names l).
End Glob.
