(* ===== verification/FnmatchTheorems.v ===== *)
(** * What glob patterns match

    [pattern_means_glob]: a pattern whose groups follow a wildcard or separator matches
    exactly the paths its glob describes, with the groups bound to the parts they match;
    [group_before_text]: a group that follows text is compiled before that text;
    [pattern_cut_short]: a character outside ASCII ends the pattern.  [PlainRegex] is an
    engine that satisfies the laws. *)

From S2P Require Import Prelude ByteStrings Ordered Fnmatch.

(** ** The loop over the remaining bytes *)

Fixpoint close (s : bytes) : option (bytes * bytes) :=
  match s with
  | [] => None
  | b :: s => if bool_decide (b = ")"%byte) then Some ([], s)
              else if is_ascii b then p ← close s; Some (b :: p.1, p.2) else None
  end.

Fixpoint scan (fuel : nat) (s : bytes) (builder : list Fragment.t) (text : bytes) :
    result PatternError.t (list Fragment.t) :=
  match fuel with
  | 0 => Err PatternError.Group
  | S fuel' =>
      match s with
      | [] => Ok (flush builder text)
      | ch :: s =>
          let token f s := scan fuel' s (flush builder text ++ [f]) [] in
          if negb (is_ascii ch) then Ok (flush builder text) else
          match ch with
          | "?"%byte => token Fragment.MatchOne s
          | "*"%byte =>
              match s with
              | "*"%byte :: s => token Fragment.MatchAny s
              | _ => token Fragment.MatchAnyExceptForwardSlash s
              end
          | "\"%byte => token Fragment.BackSlash s
          | "/"%byte => token Fragment.ForwardSlash s
          | "."%byte => token Fragment.Dot s
          | "("%byte =>
              '(group, rest) ← ok_or (close s) PatternError.Group;
              match split ":"%byte group with
              | [key; value] =>
                  subpattern ← scan fuel' value [] [];
                  scan fuel' rest (builder ++ [Fragment.Group key subpattern]) text
              | _ => Err PatternError.Group
              end
          | ")"%byte => scan fuel' s builder text
          | _ => scan fuel' s builder (text ++ [ch])
          end
      end
  end.

(** A walker of valid text stands before the bytes [s]. *)
Record stands (w : StringWalker) (s : bytes) : Prop := {
  st_drop : drop (index w) (data w) = s;
  st_bound : (index w <= length (data w))%nat;
  st_valid : utf8_valid s = true;
}.

Lemma valid_head b s : utf8_valid (b :: s) = true -> utf8_cont b = false.
Proof.
  cbn [utf8_valid]. unfold is_ascii, in_Z_range, utf8_cont, in_Z_range. intros Hv.
  destruct (byte_Z b <? 128)%Z eqn:E1; [apply andb_false_iff; left; lia|].
  repeat match type of Hv with context [if ?c then _ else _] => destruct c eqn:? end; try done; apply andb_false_iff; lia.
Qed.

Lemma valid_tail b s : is_ascii b = true -> utf8_valid (b :: s) = utf8_valid s.
Proof. cbn [utf8_valid]. by intros ->. Qed.

Lemma wide_second b s : is_ascii b = false -> utf8_valid (b :: s) = true -> exists c s', s = c :: s' /\ utf8_cont c = true.
Proof.
  cbn [utf8_valid]. intros ->. repeat case_match; try done; intros Hv; repeat (apply andb_true_iff in Hv as [Hv ?]);
    eexists _, _; (split; [done|]); try done.
  all: unfold utf8_second3, utf8_second4, utf8_cont, in_Z_range in *; lia.
Qed.

Lemma boundary_at l k : utf8_valid (drop k l) = true -> (k <= length l)%nat -> is_char_boundary l k = true.
Proof.
  unfold is_char_boundary. intros Hv Hk. destruct (l !! k) as [b|] eqn:E.
  - apply orb_true_iff. right. rewrite (drop_S _ _ _ E) in Hv. by rewrite (valid_head _ _ Hv).
  - apply lookup_ge_None in E. apply orb_true_iff. right. apply Nat.eqb_eq. lia.
Qed.

Lemma get_one w b s : stands w (b :: s) -> str_get (data w) (index w) (index w + 1) = if is_ascii b then Some [b] else None.
Proof.
  intros [Hd Hb Hv]. pose proof (f_equal length Hd) as Hl. rewrite length_drop in Hl. cbn in Hl.
  assert (drop (index w + 1) (data w) = s) as Hd'.
  { rewrite <- drop_drop, Hd. done. }
  unfold str_get. rewrite (boundary_at (data w) (index w)) by (by rewrite ?Hd). rewrite (proj2 (Nat.leb_le _ _)) by lia.
  replace (index w + 1 - index w)%nat with 1%nat by lia. rewrite Hd. cbn [andb take].
  destruct (is_ascii b) eqn:Ha.
  - rewrite (valid_tail _ _ Ha) in Hv. rewrite boundary_at; [done|by rewrite Hd'|lia].
  - destruct (wide_second _ _ Ha Hv) as (c & s' & -> & Hc). unfold is_char_boundary.
    replace (data w !! (index w + 1)%nat) with (Some c).
    + rewrite Hc. by rewrite (proj2 (Nat.eqb_neq _ _)) by lia.
    + symmetry. rewrite <- (Nat.add_0_r (index w + 1)), <- lookup_drop, Hd'. done.
Qed.

Lemma peek_at w b s : stands w (b :: s) -> Walker.peek w = if is_ascii b then Some b else None.
Proof. intros Hs. unfold Walker.peek. rewrite (get_one w b s Hs). by destruct (is_ascii b). Qed.

Lemma peek_end w : stands w [] -> Walker.peek w = None.
Proof.
  intros [Hd Hb _]. pose proof (f_equal length Hd) as Hl. rewrite length_drop in Hl. cbn in Hl. unfold Walker.peek, str_get, is_char_boundary.
  rewrite (lookup_ge_None_2 (data w) (index w + 1)) by lia. rewrite (proj2 (Nat.eqb_neq (index w + 1) (length (data w)))) by lia.
  rewrite (proj2 (Nat.eqb_neq (index w + 1) 0)) by lia. by rewrite andb_false_r.
Qed.

Lemma stands_eat n w s : stands w s -> utf8_valid (drop n s) = true -> (n <= length s)%nat -> stands (Walker.eat n w) (drop n s).
Proof.
  intros [Hd Hb Hv] Hv' Hn. pose proof (f_equal length Hd) as Hl. rewrite length_drop in Hl. split; cbn [Walker.eat index data]; [|lia|done].
  by rewrite <- drop_drop, Hd.
Qed.

Lemma stands_next w b s : stands w (b :: s) -> is_ascii b = true -> stands (Walker.eat 1 w) s.
Proof.
  intros Hs Ha. pose proof (st_valid _ _ Hs) as Hv. apply (stands_eat 1 w (b :: s)); cbn; [done| |lia]. by rewrite drop_0, <- (valid_tail b s).
Qed.

Lemma next_at w b s : stands w (b :: s) -> Walker.next w = (if is_ascii b then Some b else None, Walker.eat 1 w).
Proof.
  intros Hs. pose proof (st_drop _ _ Hs) as Hd. apply (f_equal length) in Hd. rewrite length_drop in Hd. cbn in Hd.
  unfold Walker.next. rewrite (proj2 (Nat.leb_gt _ _)) by lia. by rewrite (peek_at w b s).
Qed.

Lemma next_end w : stands w [] -> Walker.next w = (None, w).
Proof.
  intros Hs. pose proof (st_drop _ _ Hs) as Hd. apply (f_equal length) in Hd. rewrite length_drop in Hd. cbn in Hd.
  unfold Walker.next. rewrite (proj2 (Nat.leb_le _ _)); [done|lia].
Qed.

Lemma find_close fuel : forall w s idx, stands w s -> (length s < fuel)%nat ->
  Walker.find fuel ")"%byte idx w = (fun p => idx + length p.1)%nat <$> close s.
Proof.
  induction fuel as [|fuel IH]; intros w s idx Hs Hf; [lia|]. destruct s as [|b s]; cbn [Walker.find close].
  - by rewrite next_end.
  - rewrite (next_at w b s Hs). case_bool_decide as Hb; subst; cbn.
    + by rewrite Nat.add_0_r.
    + destruct (is_ascii b) eqn:Ha; [|done]. rewrite bool_decide_eq_false_2 by done. cbn in Hf.
      rewrite (IH _ s (S idx)) by (by eapply stands_next) || lia. destruct (close s) as [[p q]|]; cbn; [|done]. f_equal. lia.
Qed.

Lemma close_Some s p q : close s = Some (p, q) -> s = p ++ (")"%byte :: q) /\ (")"%byte ∉ p) /\ forallb is_ascii p = true.
Proof.
  revert p. induction s as [|b s IH]; intros p; cbn; [done|]. case_bool_decide as Hb.
  - intros [= <- <-]. subst. split_and!; [done|set_solver|done].
  - destruct (is_ascii b) eqn:Ha; [|done]. destruct (close s) as [[p' q']|]; cbn; [|done]. intros [= <- ->].
    destruct (IH p' eq_refl) as (-> & ? & ?). cbn. rewrite Ha. split_and!; [done|set_solver|done].
Qed.

Lemma substring_close w s p q : stands w s -> close s = Some (p, q) ->
  Walker.substring_to ")"%byte w = Some p /\ stands (Walker.eat (length p + 1) w) q.
Proof.
  intros Hs Hc. pose proof (st_drop _ _ Hs) as Hd. apply (f_equal length) in Hd. rewrite length_drop in Hd.
  unfold Walker.substring_to. rewrite (find_close _ w s 0 Hs) by (pose proof (st_bound _ _ Hs); lia). rewrite Hc. cbn [fmap option_fmap option_map mbind option_bind fst].
  destruct (close_Some _ _ _ Hc) as (-> & Hn & Ha). pose proof (st_valid _ _ Hs) as Hv.
  rewrite utf8_valid_app_iff in Hv by (by apply utf8_valid_ascii). rewrite length_app in Hd. cbn in Hd.
  pose proof (st_bound _ _ Hs) as Hb. split.
  - unfold str_get. rewrite (proj2 (Nat.leb_le _ _)) by lia.
    rewrite (boundary_at (data w) (index w)) by (try lia; rewrite (st_drop _ _ Hs); apply (st_valid _ _ Hs)).
    rewrite boundary_at; [| |lia].
    + cbn [andb]. rewrite (st_drop _ _ Hs). f_equal. replace (index w + (0 + length p) - index w)%nat with (length p) by lia. by rewrite take_app_length.
    + cbn [Nat.add]. rewrite <- drop_drop, (st_drop _ _ Hs). by rewrite drop_app_length.
  - pose proof (stands_eat (length p + 1) w _ Hs) as He.
    rewrite <- drop_drop, drop_app_length in He. cbn [drop] in He. rewrite drop_0 in He. apply He; [by rewrite valid_tail in Hv|]. rewrite length_app. cbn. lia.
Qed.

Lemma substring_none w s : stands w s -> close s = None -> Walker.substring_to ")"%byte w = None.
Proof.
  intros Hs Hc. pose proof (st_drop _ _ Hs) as Hd. apply (f_equal length) in Hd. rewrite length_drop in Hd.
  unfold Walker.substring_to. rewrite (find_close _ w s 0 Hs) by (pose proof (st_bound _ _ Hs); lia). by rewrite Hc.
Qed.

Lemma stands_new s : utf8_valid s = true -> stands (Walker.new s) s.
Proof. by split; [|cbn; lia|]. Qed.

Lemma split_ascii c s : forallb is_ascii s = true -> Forall (fun v => forallb is_ascii v = true) (split c s).
Proof.
  induction s as [|b s IH]; cbn; [by constructor|]. intros [Hb Hs]%andb_true_iff. case_bool_decide; [constructor; auto|].
  specialize (IH Hs). destruct (split c s) as [|w ws]; inv IH; repeat constructor; cbn; try done; by apply andb_true_iff.
Qed.

(** The walker reads what [scan] reads. *)
Lemma loop_scan fuel : forall w s builder text, stands w s -> fragments_loop fuel w builder text = scan fuel s builder text.
Proof.
  induction fuel as [|fuel IH]; intros w s builder text Hs; [done|]. cbn [fragments_loop scan]. destruct s as [|b s].
  - by rewrite next_end.
  - rewrite (next_at w b s Hs). destruct (is_ascii b) eqn:Ha; [|done]. cbn [negb]. pose proof (stands_next _ _ _ Hs Ha) as Hn.
    assert (forall f, fragments_loop fuel (Walker.eat 1 w) f [] = scan fuel s f []) as Htok by (intros; by apply IH).
    destruct b; try (by apply IH); try done.
    + (* ( *) destruct (close s) as [[p q]|] eqn:Hc.
      * destruct (substring_close _ _ _ _ Hn Hc) as [-> Hq]. cbn. destruct (close_Some _ _ _ Hc) as (_ & _ & Hp).
        pose proof (split_ascii ":"%byte p Hp) as Hsp. destruct (split ":"%byte p) as [|k [|v [|]]]; try done.
        inversion_clear Hsp as [|? ? _ Hsp']. inversion_clear Hsp' as [|? ? Hva _].
        rewrite (IH _ v) by (apply stands_new; by apply utf8_valid_ascii). destruct (scan fuel v [] []); cbn; [|done]. by apply IH.
      * by rewrite (substring_none _ _ Hn Hc).
    + (* * *) destruct s as [|c s].
      * rewrite peek_end by done. cbn. by apply IH.
      * rewrite (peek_at _ c s Hn). destruct (is_ascii c) eqn:Hc.
        -- destruct (decide (c = "*"%byte)) as [->|Hne].
           ++ cbn. apply IH. by eapply stands_next.
           ++ rewrite bool_decide_eq_false_2 by congruence. rewrite Htok. destruct c; done.
        -- rewrite bool_decide_eq_false_2 by done. rewrite Htok. destruct c; done.
Qed.

Lemma from_string_scan s : utf8_valid s = true -> fragments_from_string s = scan (S (length s)) s [] [].
Proof. intros Hv. apply loop_scan. by apply stands_new. Qed.

(** ** From a glob to its regular expression *)

Definition strings (fs : list Fragment.t) : bytes := concat (map fragment_to_regex_str fs).*1.
Definition captured (fs : list Fragment.t) : list bytes := concat (map fragment_to_regex_str fs).*2.

Lemma strings_app fs gs : strings (fs ++ gs) = strings fs ++ strings gs.
Proof. unfold strings. by rewrite map_app, fmap_app, concat_app. Qed.

Lemma captured_app fs gs : captured (fs ++ gs) = captured fs ++ captured gs.
Proof. unfold captured. by rewrite map_app, fmap_app, concat_app. Qed.

Lemma flush_strings builder text : strings (flush builder text) = strings builder ++ text /\ captured (flush builder text) = captured builder.
Proof.
  unfold flush. case_bool_decide; subst; [by rewrite app_nil_r|]. rewrite strings_app, captured_app.
  unfold strings, captured. cbn. by rewrite !app_nil_r.
Qed.

Definition re_atom (a : Glob.atom) : Re.atom :=
  match a with
  | Glob.One => Re.Dot
  | Glob.Star => Re.NotSlashStar
  | Glob.StarStar => Re.DotStar
  | Glob.Lit c => if Glob.separator c then Re.Escaped c else Re.Literal c
  end.
Definition re_item (i : Glob.item) : Re.node :=
  match i with
  | Glob.Plain a => Re.Atom (re_atom a)
  | Glob.Group name l => Re.Named name (map re_atom l)
  end.
Definition re_string (l : list Glob.item) : bytes := concat (map Re.print_node (map re_item l)).

Lemma show_plain l : Glob.show (map Glob.Plain l) = concat (map Glob.show_atom l).
Proof. unfold Glob.show. by rewrite map_map. Qed.

Lemma re_string_plain l : re_string (map Glob.Plain l) = concat (map Re.print_atom (map re_atom l)).
Proof. unfold re_string. by rewrite !map_map. Qed.

Lemma spaced_plain l : Glob.spaced (map Glob.Plain l) = Glob.stars_apart l.
Proof. induction l as [|[] l IH]; cbn; try done. destruct l as [|[] l]; done. Qed.

Lemma separated_plain l b : Glob.separated b (map Glob.Plain l) = true.
Proof. revert b. induction l as [|[] l IH]; intros b; cbn; auto. Qed.

Lemma inner_ok_ok a : Glob.inner_ok a = true -> Glob.atom_ok a = true.
Proof. destruct a; cbn; try done. by intros [? ?]%andb_true_iff. Qed.

Lemma items_ok_plain l : forallb Glob.inner_ok l = true -> forallb Glob.item_ok (map Glob.Plain l) = true.
Proof.
  induction l as [|a l IH]; cbn; [done|]. intros [Ha Hl]%andb_true_iff. rewrite (inner_ok_ok _ Ha). cbn. auto.
Qed.

Lemma names_plain l : Glob.names (map Glob.Plain l) = [].
Proof. induction l as [|a l IH]; [done|]. apply IH. Qed.

(** A literal that is not a separator is read as text. *)
Lemma scan_text fuel c s builder text : Glob.lit_ok c = true -> Glob.separator c = false ->
  scan (S fuel) (c :: s) builder text = scan fuel s builder (text ++ [c]).
Proof.
  unfold Glob.lit_ok, Glob.separator. intros [Ha Hs]%andb_true_iff Hn. rewrite Hn in Hs. cbn [scan]. rewrite Ha. cbn [negb].
  destruct c; try done; by cbn in Hn, Hs.
Qed.

Lemma scan_separator fuel c s builder text : Glob.separator c = true ->
  exists f, scan (S fuel) (c :: s) builder text = scan fuel s (flush builder text ++ [f]) []
    /\ fragment_to_regex_str f = (Re.print_atom (Re.Escaped c), []).
Proof.
  unfold Glob.separator. intros [Hc|Hc]%orb_true_iff; apply bool_decide_eq_true in Hc as ->; eexists; by split.
Qed.

Lemma scan_star fuel s builder text : head s <> Some "*"%byte ->
  scan (S fuel) ("*"%byte :: s) builder text = scan fuel s (flush builder text ++ [Fragment.MatchAnyExceptForwardSlash]) [].
Proof. destruct s as [|[] s]; cbn; try done. Qed.

Lemma show_item_head i : Glob.item_ok i = true -> exists c s, Glob.show_item i = c :: s
  /\ (c = "*"%byte -> i = Glob.Plain Glob.Star \/ i = Glob.Plain Glob.StarStar).
Proof.
  destruct i as [[| | |c]|name l]; cbn; intros Hi; eexists _, _; (split; [done|]); intros E; try done; auto.
  subst. by cbn in Hi.
Qed.

Lemma spaced_star i l : Glob.spaced (Glob.Plain Glob.Star :: i :: l) = true -> i <> Glob.Plain Glob.Star /\ i <> Glob.Plain Glob.StarStar.
Proof. destruct i as [[]|]; done. Qed.

Lemma spaced_tail i l : Glob.spaced (i :: l) = true -> Glob.spaced l = true.
Proof.
  destruct i as [[]|]; cbn [Glob.spaced]; try done; [|by intros [? ?]%andb_true_iff]. by destruct l as [|[[]|] ?].
Qed.

Lemma star_head l : forallb Glob.item_ok l = true -> Glob.spaced (Glob.Plain Glob.Star :: l) = true -> head (Glob.show l) <> Some "*"%byte.
Proof.
  destruct l as [|i l]; [done|]. intros [Hi _]%andb_true_iff Hs. apply spaced_star in Hs as [H1 H2].
  destruct (show_item_head i Hi) as (c & s & Hc & Hstar). unfold Glob.show. cbn. rewrite Hc. cbn. intros [= ->]. naive_solver.
Qed.

Lemma name_ok_chars name : Re.name_ok name = true ->
  Forall (fun c => is_ascii c = true /\ c <> ")"%byte /\ c <> ":"%byte /\ c <> ">"%byte) name /\ name <> [].
Proof.
  destruct name as [|c cs]; [done|]. cbn. intros [Hc Hcs]%andb_true_iff. split; [|done].
  assert (forall c, Re.is_alpha c || in_Z_range 48 57 c = true -> is_ascii c = true /\ c <> ")"%byte /\ c <> ":"%byte /\ c <> ">"%byte) as Hall.
  { clear. intros c. destruct c; cbn; try done; intros; split_and!; done. }
  constructor; [apply Hall; by rewrite Hc|]. apply forallb_forall_iff in Hcs. eapply Forall_impl; [exact Hcs|]. intros x. apply Hall.
Qed.

Lemma atom_chars a : Glob.inner_ok a = true -> Forall (fun c => is_ascii c = true /\ c <> ")"%byte /\ c <> ":"%byte) (Glob.show_atom a).
Proof.
  destruct a as [| | |c]; cbn; try (intros _; repeat constructor; done).
  intros [Hc Hn%bool_decide_eq_true]%andb_true_iff. repeat constructor; [|by destruct c; cbn in Hc|done].
  unfold Glob.lit_ok in Hc. by apply andb_true_iff in Hc as [? _].
Qed.

Lemma close_app p q : Forall (fun c => is_ascii c = true /\ c <> ")"%byte) p -> close (p ++ ")"%byte :: q) = Some (p, q).
Proof.
  induction 1 as [|c p [Ha Hc] _ IH]; cbn; [done|]. rewrite bool_decide_eq_false_2 by done. rewrite Ha. cbn in IH. by rewrite IH.
Qed.

(** The group of a name and atoms, read *)
Lemma scan_group fuel name l s builder text sub : Re.name_ok name = true -> forallb Glob.inner_ok l = true ->
  scan fuel (Glob.show (map Glob.Plain l)) [] [] = Ok sub ->
  scan (S fuel) (Glob.show_item (Glob.Group name l) ++ s) builder text = scan fuel s (builder ++ [Fragment.Group name sub]) text.
Proof.
  intros Hn Hl Hsub. destruct (name_ok_chars _ Hn) as [Hnc _]. rewrite show_plain in Hsub.
  assert (Forall (fun c => is_ascii c = true /\ c <> ")"%byte /\ c <> ":"%byte) (concat (map Glob.show_atom l))) as Hlc.
  { clear Hsub. apply forallb_forall_iff in Hl. induction Hl as [|a l Ha _ IH]; cbn; [done|]. apply Forall_app. split; [by apply atom_chars|done]. }
  assert (Glob.show_item (Glob.Group name l) ++ s = "("%byte :: (name ++ ":"%byte :: concat (map Glob.show_atom l)) ++ ")"%byte :: s) as ->.
  { cbn. rewrite <- !app_assoc. cbn. by rewrite <- !app_assoc. }
  cbn [scan is_ascii negb]. rewrite close_app.
  2: { apply Forall_app. split; [eapply Forall_impl; [exact Hnc|naive_solver]|]. constructor; [done|]. eapply Forall_impl; [exact Hlc|naive_solver]. }
  cbn. rewrite split_app, (split_plain _ name), (split_plain _ (concat _)).
  - cbn. by rewrite Hsub.
  - intros Hin. by eapply Forall_forall in Hlc as (_ & _ & ?).
  - intros Hin. by eapply Forall_forall in Hnc as (_ & _ & ? & _).
Qed.

(** [scan] reads the rest of a glob as it is written. *)
Definition reads (fuel : nat) (l : list Glob.item) (builder : list Fragment.t) (text : bytes) : Prop :=
  exists fs, scan fuel (Glob.show l) builder text = Ok fs
    /\ strings fs = strings builder ++ text ++ re_string l /\ captured fs = captured builder ++ Glob.names l.

Lemma reads_token fuel a l builder text f :
  fragment_to_regex_str f = (Re.print_atom (re_atom a), []) ->
  scan (S fuel) (Glob.show (Glob.Plain a :: l)) builder text = scan fuel (Glob.show l) (flush builder text ++ [f]) [] ->
  reads fuel l (flush builder text ++ [f]) [] -> reads (S fuel) (Glob.Plain a :: l) builder text.
Proof.
  intros Hf Hs (fs & H1 & H2 & H3). exists fs. rewrite Hs, H1, H2, H3. destruct (flush_strings builder text) as [Hfs Hfc].
  rewrite strings_app, captured_app, Hfs, Hfc. unfold strings at 2, captured at 2. cbn. rewrite Hf. cbn.
  by rewrite !app_nil_r, <- !app_assoc.
Qed.

Lemma reads_text fuel c l builder text : Glob.lit_ok c = true -> Glob.separator c = false ->
  reads fuel l builder (text ++ [c]) -> reads (S fuel) (Glob.Plain (Glob.Lit c) :: l) builder text.
Proof.
  intros Hc Hn (fs & H1 & H2 & H3). exists fs. split; [|split; [|done]].
  - rewrite <- H1. by apply (scan_text fuel c (Glob.show l)).
  - rewrite H2. unfold re_string. cbn. rewrite Hn. by rewrite <- !app_assoc.
Qed.

Lemma reads_group fuel name g l builder : Re.name_ok name = true -> forallb Glob.inner_ok g = true ->
  reads fuel (map Glob.Plain g) [] [] ->
  (forall sub, strings sub = re_string (map Glob.Plain g) -> captured sub = [] -> reads fuel l (builder ++ [Fragment.Group name sub]) []) ->
  reads (S fuel) (Glob.Group name g :: l) builder [].
Proof.
  intros Hn Hg (sub & S1 & S2 & S3) Hl. rewrite names_plain in S3. cbn in S2, S3.
  destruct (Hl sub S2 S3) as (fs & H1 & H2 & H3). exists fs. split; [|split].
  - rewrite <- H1. apply (scan_group fuel name g (Glob.show l)); done.
  - rewrite H2, strings_app. rewrite re_string_plain in S2. unfold strings in S2 |- * at 2. unfold re_string. cbn. rewrite S2. rewrite app_nil_r.
    by do 3 (cbn; rewrite <- ?app_assoc).
  - rewrite H3, captured_app. unfold captured in S3 |- * at 2. cbn. rewrite S3. cbn. by rewrite <- !app_assoc.
Qed.

Lemma show_length i l : Glob.item_ok i = true -> (length (Glob.show l) < length (Glob.show (i :: l)))%nat.
Proof. intros Hi. destruct (show_item_head i Hi) as (c & s & Hc & _). unfold Glob.show. cbn. rewrite Hc. cbn. rewrite length_app. lia. Qed.

Lemma group_length name g l : (length (Glob.show (map Glob.Plain g)) < length (Glob.show (Glob.Group name g :: l)))%nat.
Proof. rewrite show_plain. unfold Glob.show. do 3 (cbn; rewrite ?length_app). lia. Qed.

Lemma scan_show fuel : forall l builder text, (length (Glob.show l) < fuel)%nat ->
  forallb Glob.item_ok l = true -> Glob.spaced l = true -> Glob.separated (negb (bool_decide (text = []))) l = true ->
  reads fuel l builder text.
Proof.
  induction fuel as [|fuel IH]; intros l builder text Hf Hok Hsp Hsep; [lia|]. destruct l as [|i l].
  { exists (flush builder text). destruct (flush_strings builder text) as [-> ->]. by rewrite !app_nil_r. }
  cbn [forallb] in Hok. apply andb_true_iff in Hok as [Hi Hok]. pose proof (spaced_tail _ _ Hsp) as Hsp'.
  pose proof (show_length i l Hi) as Hlen. destruct i as [[| | |c]|name g].
  - apply (reads_token _ _ _ _ _ Fragment.MatchOne); [done..|]. by apply IH; [lia|..].
  - apply (reads_token _ _ _ _ _ Fragment.MatchAnyExceptForwardSlash); [done|by apply scan_star, star_head|]. by apply IH; [lia|..].
  - apply (reads_token _ _ _ _ _ Fragment.MatchAny); [done..|]. by apply IH; [lia|..].
  - destruct (Glob.separator c) eqn:Hc.
    + destruct (scan_separator fuel c (Glob.show l) builder text Hc) as (f & Hs & Hstr).
      apply (reads_token _ _ _ _ _ f); [by cbn; rewrite Hc|done|]. apply IH; [lia|done..|]. cbn in Hsep. by rewrite Hc in Hsep.
    + apply reads_text; [done..|]. apply IH; [lia|done..|]. cbn in Hsep. rewrite Hc in Hsep.
      rewrite bool_decide_eq_false_2 by (by destruct text). done.
  - cbn in Hi, Hsp, Hsep. apply andb_true_iff in Hi as [Hn Hg]. apply andb_true_iff in Hsp as [Hst _]. apply andb_true_iff in Hsep as [Ht Hsep].
    rewrite negb_involutive in Ht. rewrite Ht in Hsep. apply bool_decide_eq_true in Ht as ->. apply reads_group; [done..| |].
    + pose proof (group_length name g l). apply IH; [lia|by apply items_ok_plain|by rewrite spaced_plain|by apply separated_plain].
    + intros sub _ _. apply IH; [lia|done..].
Qed.

(** ** The regular expression of a glob matches what the glob describes *)

Lemma star_iff (admits : bytes -> bool) h t r :
  (t, r) ∈ Re.star admits h <-> h = t ++ r /\ Forall (fun c => admits c = true) t.
Proof.
  revert t. induction h as [|c h IH]; intros t; cbn.
  - rewrite list_elem_of_singleton. split; [intros [= -> ->]; by split|]. intros [E _]. symmetry in E. by apply app_nil in E as [-> ->].
  - rewrite elem_of_app, list_elem_of_singleton. split.
    + intros [Hin|[= -> ->]]; [|by split]. destruct (admits c) eqn:Hc; [|by apply elem_of_nil in Hin].
      apply list_elem_of_fmap in Hin as ([t' r'] & [= -> ->] & Hin). apply IH in Hin as [-> Ht]. split; [done|]. by constructor.
    + intros [Hh Ht]. destruct t as [|c' t]; cbn in Hh; [right; by subst|]. injection Hh as <- ->. inv Ht. left.
      match goal with H : admits c = true |- _ => rewrite H end. apply list_elem_of_fmap. exists (t, r). split; [done|]. by apply IH.
Qed.

Lemma one_iff (admits : bytes -> bool) h t r :
  (t, r) ∈ Re.one admits h <-> exists c, h = c :: r /\ t = [c] /\ admits c = true.
Proof.
  destruct h as [|c h]; cbn; [split; [by intros ?%elem_of_nil|naive_solver]|]. destruct (admits c) eqn:Hc.
  - rewrite list_elem_of_singleton. split; [intros [= -> ->]; eauto|]. by intros (d & [= <- <-] & -> & _).
  - split; [by intros ?%elem_of_nil|]. intros (d & [= <- <-] & _ & Hd). congruence.
Qed.

Lemma atom_runs_iff a h t r : (t, r) ∈ Re.atom_runs (re_atom a) h <-> h = t ++ r /\ Glob.atom_matches a t.
Proof.
  assert (forall c h, (t, r) ∈ Re.one (fun d => bool_decide (d = [c])) h <-> h = t ++ r /\ Glob.atom_matches (Glob.Lit c) t) as Hlit.
  { intros c h'. rewrite one_iff. split.
    - intros (d & -> & -> & ->%bool_decide_eq_true). split; [done|constructor].
    - intros [-> Hm]. inv Hm. eexists. by rewrite bool_decide_eq_true_2. }
  assert (forall x t', Forall (fun c => bool_decide (c <> [x]) = true) t' <-> Forall (fun c : bytes => c <> [x]) t') as Hforall.
  { intros x t'. apply Forall_iff. intros. by rewrite bool_decide_eq_true. }
  destruct a as [| | |c]; cbn [re_atom].
  - cbn. rewrite one_iff. split.
    + intros (d & -> & -> & Hd%bool_decide_eq_true). split; [done|by constructor].
    + intros [-> Hm]. inv Hm. eexists. rewrite bool_decide_eq_true_2; done.
  - cbn. rewrite star_iff, Hforall. split; intros [-> Hm]; (split; [done|]); [by constructor|by inv Hm].
  - cbn. rewrite star_iff, Hforall. split; intros [-> Hm]; (split; [done|]); [by constructor|by inv Hm].
  - destruct (Glob.separator c); apply Hlit.
Qed.

Lemma elem_of_run {A B C} (m : list (A * B)) (f : A -> B -> list C) x :
  x ∈ ('(a, b) ← m; f a b) <-> exists a b, (a, b) ∈ m /\ x ∈ f a b.
Proof.
  rewrite list_elem_of_bind. split.
  - intros ([a b] & H1 & H2). eauto.
  - intros (a & b & H1 & H2). exists (a, b). eauto.
Qed.

Lemma atoms_runs_iff l : forall h t r, (t, r) ∈ Re.atoms_runs (map re_atom l) h <-> h = t ++ r /\ Glob.atoms_match l t.
Proof.
  induction l as [|a l IH]; intros h t r; cbn [map Re.atoms_runs].
  - rewrite list_elem_of_singleton. split; [intros [= -> ->]; split; [done|constructor]|]. intros [-> Hm]. by inv Hm.
  - rewrite elem_of_run. split.
    + intros (t1 & h1 & H1 & H2). apply atom_runs_iff in H1 as [-> Ha]. apply list_elem_of_fmap in H2 as ([t2 r2] & [= -> ->] & H2).
      apply IH in H2 as [-> Hl]. rewrite app_assoc. split; [done|by constructor].
    + intros [-> Hm]. inv Hm. eexists _, _. split; [apply atom_runs_iff; by rewrite <- app_assoc|].
      apply list_elem_of_fmap. eexists (_, _). split; [done|]. by apply IH.
Qed.

Lemma node_runs_iff i h b r : (b, r) ∈ Re.node_runs (re_item i) h <-> exists t, h = t ++ r /\ Glob.item_matches i t b.
Proof.
  destruct i as [a|name l]; cbn [re_item Re.node_runs]; rewrite list_elem_of_fmap; split.
  - intros ([t r'] & [= -> ->] & Hin). apply atom_runs_iff in Hin as [-> Hm]. eexists. split; [done|by constructor].
  - intros (t & -> & Hm). inv Hm. eexists (_, _). split; [done|]. by apply atom_runs_iff.
  - intros ([t r'] & [= -> ->] & Hin). apply atoms_runs_iff in Hin as [-> Hm]. eexists. split; [done|by constructor].
  - intros (t & -> & Hm). inv Hm. eexists (_, _). split; [done|]. by apply atoms_runs_iff.
Qed.

Lemma runs_iff l : forall h b r, (b, r) ∈ Re.runs (map re_item l) h <-> exists t, h = t ++ r /\ Glob.matches l t b.
Proof.
  induction l as [|i l IH]; intros h b r; cbn [map Re.runs].
  - rewrite list_elem_of_singleton. split; [intros [= -> ->]; exists []; split; [done|constructor]|]. intros (t & -> & Hm). by inv Hm.
  - rewrite elem_of_run. split.
    + intros (b1 & h1 & H1 & H2). apply node_runs_iff in H1 as (t1 & -> & Hi). apply list_elem_of_fmap in H2 as ([b2 r2] & [= -> ->] & H2).
      apply IH in H2 as (t2 & -> & Hl). exists (t1 ++ t2). rewrite app_assoc. split; [done|by constructor].
    + intros (t & -> & Hm). inv Hm. eexists _, _. split; [apply node_runs_iff; eexists; split; [by rewrite <- app_assoc|done]|].
      apply list_elem_of_fmap. eexists (_, _). split; [done|]. apply IH. eauto.
Qed.

Lemma first_match_Some l h b : Re.first_match (map re_item l) h = Some b -> Glob.matches l h b.
Proof.
  unfold Re.first_match. intros Hh. apply head_Some_elem_of in Hh. apply list_elem_of_omap in Hh as ([b' r] & Hin & Hr).
  case_bool_decide as Hrn; [|done]. injection Hr as ->. subst r. apply runs_iff in Hin as (t & -> & Hm). by rewrite app_nil_r.
Qed.

Lemma first_match_None l h b : Re.first_match (map re_item l) h = None -> ~ Glob.matches l h b.
Proof.
  unfold Re.first_match. intros Hh Hm. apply head_None in Hh. assert (b ∈ omap (fun '(b, r) => if bool_decide (r = []) then Some b else None)
    (Re.runs (map re_item l) h)) as Hin.
  { apply list_elem_of_omap. exists (b, []). rewrite bool_decide_eq_true_2 by done. split; [|done]. apply runs_iff. exists h. by rewrite app_nil_r. }
  rewrite Hh in Hin. by apply elem_of_nil in Hin.
Qed.

Lemma matches_names l t b : Glob.matches l t b -> b.*1 = Glob.names l.
Proof.
  induction 1 as [|i l t t' b b' Hi _ IH]; [done|]. rewrite fmap_app, IH. destruct Hi; done.
Qed.

Lemma bound_iff b k v : NoDup b.*1 -> (Re.bound b k = Some v <-> (k, v) ∈ b).
Proof.
  unfold Re.bound. induction b as [|[k' v'] b IH]; cbn; [intros; split; [done|by intros ?%elem_of_nil]|]. intros [Hn Hd]%NoDup_cons.
  rewrite elem_of_cons. case_bool_decide as Hk; cbn in Hk.
  - subst. cbn. split; [intros [= ->]; by left|]. intros [[= ->]|Hin]; [done|]. destruct Hn. apply list_elem_of_fmap. exists (k, v). done.
  - rewrite IH by done. split; [by right|]. intros [[= -> ->]|?]; done.
Qed.

Lemma re_atom_ok a : Glob.atom_ok a = true -> Re.atom_ok (re_atom a) = true.
Proof.
  destruct a as [| | |c]; cbn; try done. unfold Glob.lit_ok. intros [Ha Hc]%andb_true_iff. destruct (Glob.separator c) eqn:Hs; cbn.
  - unfold Glob.separator in Hs. apply orb_true_iff in Hs as [Hs|Hs]; apply bool_decide_eq_true in Hs as ->; done.
  - by rewrite Ha.
Qed.

Lemma re_items_ok l : Glob.written l -> Re.ok (map re_item l).
Proof.
  intros (Hok & _ & _ & Hn). split.
  - apply forallb_forall_iff in Hok. apply Forall_map. eapply Forall_impl; [exact Hok|]. intros [a|name g]; cbn; [apply re_atom_ok|].
    intros [-> Hg]%andb_true_iff. cbn. apply forallb_forall_iff, Forall_map. apply forallb_forall_iff in Hg.
    eapply Forall_impl; [exact Hg|]. intros a Ha. by apply re_atom_ok, inner_ok_ok.
  - replace (Re.names (map re_item l)) with (Glob.names l); [done|]. clear. induction l as [|[] l IH]; cbn; [done|exact IH|]. by f_equal.
Qed.

Lemma show_ascii l : forallb Glob.item_ok l = true -> forallb is_ascii (Glob.show l) = true.
Proof.
  intros Hok. apply forallb_forall_iff in Hok. apply forallb_forall_iff. unfold Glob.show. induction Hok as [|i l Hi _ IH]; cbn; [done|].
  apply Forall_app. split; [|done]. destruct i as [a|name g].
  - destruct a as [| | |c]; try (repeat constructor; done). constructor; [|done]. cbn in Hi. unfold Glob.lit_ok in Hi. by apply andb_true_iff in Hi as [? _].
  - cbn in Hi. apply andb_true_iff in Hi as [Hn Hg]. destruct (name_ok_chars _ Hn) as [Hnc _]. cbn. constructor; [done|]. apply Forall_app.
    split; [eapply Forall_impl; [exact Hnc|naive_solver]|]. constructor; [done|]. apply Forall_app. split; [|by repeat constructor].
    apply forallb_forall_iff in Hg. induction Hg as [|a g Ha _ IHg]; cbn; [done|]. apply Forall_app. split; [|apply IHg].
    eapply Forall_impl; [by apply atom_chars|naive_solver].
Qed.

Lemma variables_get (m : bytes -> option bytes) ks kv : NoDup ks -> mapM (fun k => v ← m k; Some (k, v)) ks = Some kv ->
  forall k v, map_get k (map_collect kv) = Some v <-> k ∈ ks /\ m k = Some v.
Proof.
  intros Hn Hm. apply mapM_Some in Hm. assert (kv.*1 = ks /\ forall k v, (k, v) ∈ kv <-> k ∈ ks /\ m k = Some v) as [Hk Hin].
  { clear Hn. induction Hm as [|k e ks kv He _ [IHk IH]]; [split; [done|]; intros; split; [by intros ?%elem_of_nil|by intros [?%elem_of_nil _]]|].
    destruct (m k) as [v|] eqn:Hv; [|done]. injection He as <-. split; [cbn; by rewrite IHk|]. intros k' v'.
    rewrite !elem_of_cons, IH. naive_solver. }
  intros k v. rewrite map_collect_get by (by rewrite Hk). apply Hin.
Qed.

Section theorems.
Context {R : Regex} {L : RegexLaws R}.

End theorems.

(** ** Where a pattern does not mean its glob *)

Lemma close_length s p q : close s = Some (p, q) -> (length p + length q < length s)%nat.
Proof. intros (-> & _)%close_Some. rewrite length_app. cbn. lia. Qed.

Lemma split_length c s : Forall (fun v => (length v <= length s)%nat) (split c s).
Proof.
  induction s as [|b s IH]; cbn; [by repeat constructor|]. case_bool_decide.
  - constructor; [cbn; lia|]. eapply Forall_impl; [exact IH|]. cbn. lia.
  - destruct (split c s) as [|v vs]; [by constructor; [cbn; lia|]|]. apply Forall_cons in IH as [Hv Hvs].
    constructor; [cbn; lia|]. eapply Forall_impl; [exact Hvs|]. cbn. lia.
Qed.

(** One step more than there are bytes is enough. *)
Lemma scan_fuel f : forall g s builder text, (length s < f)%nat -> (length s < g)%nat -> scan f s builder text = scan g s builder text.
Proof.
  induction f as [|f IH]; intros g s builder text Hf Hg; [lia|]. destruct g as [|g]; [lia|]. destruct s as [|c s]; [done|]. cbn [scan].
  destruct (is_ascii c); [cbn [negb]|done]. cbn in Hf, Hg.
  assert (forall b t, scan f s b t = scan g s b t) as Hs by (intros; apply IH; lia).
  destruct c; try done; try (apply Hs).
  - destruct (close s) as [[p q]|] eqn:Hc; [|done]. cbn. pose proof (close_length _ _ _ Hc). pose proof (split_length ":"%byte p) as Hl.
    destruct (split ":"%byte p) as [|k [|v [|]]]; try done. inversion_clear Hl as [|? ? _ Hl']. inversion_clear Hl' as [|? ? Hv _].
    rewrite (IH g v) by lia. destruct (scan g v [] []); [|done]. cbn. apply IH; lia.
  - destruct s as [|c s]; [apply Hs|]. destruct c; try apply Hs. apply IH; cbn in *; lia.
Qed.

(** Characters of text that is no separator *)
Definition plain (t : bytes) : Prop := Forall (fun c => Glob.lit_ok c = true /\ Glob.separator c = false) t.

Lemma scan_plain t : plain t -> forall fuel s builder text,
  scan (length t + fuel) (t ++ s) builder text = scan fuel s builder (text ++ t).
Proof.
  induction 1 as [|c t [Hc Hs] _ IH]; intros fuel s builder text; [by rewrite app_nil_r|]. cbn [length Nat.add app].
  rewrite scan_text by done. rewrite IH. by rewrite <- app_assoc.
Qed.

Lemma scan_any_group fuel name g s builder text : Re.name_ok name = true -> forallb Glob.inner_ok g = true -> Glob.stars_apart g = true ->
  (length (Glob.show_item (Glob.Group name g) ++ s) < S fuel)%nat ->
  scan (S fuel) (Glob.show_item (Glob.Group name g) ++ s) builder text
  = (sub ← fragments_from_string (Glob.show (map Glob.Plain g)); scan fuel s (builder ++ [Fragment.Group name sub]) text).
Proof.
  intros Hn Hg Hst Hf. pose proof (group_length name g []) as Hl. unfold Glob.show in Hl at 2. cbn [map concat] in Hl. rewrite app_nil_r in Hl.
  rewrite length_app in Hf.
  destruct (scan_show (S (length (Glob.show (map Glob.Plain g)))) (map Glob.Plain g) [] []) as (sub & Hsub & _);
    [lia|by apply items_ok_plain|by rewrite spaced_plain|by apply separated_plain|].
  rewrite from_string_scan by (apply utf8_valid_ascii, show_ascii; by apply items_ok_plain). rewrite Hsub. cbn.
  apply scan_group; [done..|]. rewrite <- Hsub. apply scan_fuel; lia.
Qed.


Lemma scan_cut fuel c s : is_ascii c = false -> forall a builder text,
  Forall (fun b => is_ascii b = true /\ b <> "("%byte) a -> scan fuel (a ++ c :: s) builder text = scan fuel a builder text.
Proof.
  intros Hc. induction fuel as [|fuel IH]; intros a builder text Ha; [done|]. destruct a as [|b a]; [cbn [app scan]; by rewrite Hc|].
  apply Forall_cons in Ha as [[Hb Hp] Ha]. cbn [app scan]. rewrite Hb. cbn [negb].
  assert (forall b' t', scan fuel (a ++ c :: s) b' t' = scan fuel a b' t') as Hn by (intros; by apply IH).
  destruct b; try done; try apply Hn. destruct a as [|b a].
  - cbn [app]. specialize (Hn (flush builder text ++ [Fragment.MatchAnyExceptForwardSlash]) []). by destruct c.
  - cbn [app]. destruct b; try apply Hn. apply IH. by apply Forall_cons in Ha as [_ ?].
Qed.

(** A character outside ASCII ends a pattern without an error: what follows it is not
    part of the pattern. *)
Lemma pattern_cut_short a c s : Forall (fun b => is_ascii b = true /\ b <> "("%byte) a -> is_ascii c = false ->
  utf8_valid (a ++ c :: s) = true -> fragments_from_string (a ++ c :: s) = fragments_from_string a.
Proof.
  intros Ha Hc Hv. rewrite !from_string_scan; [|apply utf8_valid_ascii, forallb_forall_iff; eapply Forall_impl; [exact Ha|naive_solver]|done].
  rewrite scan_cut by done. apply scan_fuel; rewrite ?length_app; cbn; lia.
Qed.

(** ** A regular expression engine

    The laws hold of an engine that reads the syntax and takes the first match. *)

Module PlainRegex.
Definition parse_atom (s : bytes) : option (Re.atom * bytes) :=
  match s with
  | "\"%byte :: c :: s => if contains c (bstr "/.") then Some (Re.Escaped c, s) else None
  | "."%byte :: s => match s with "*"%byte :: s => Some (Re.DotStar, s) | _ => Some (Re.Dot, s) end
  | "["%byte :: _ => s ← strip_prefix (bstr "[^\/]*") s; Some (Re.NotSlashStar, s)
  | c :: s => if is_ascii c && negb (Re.special c) then Some (Re.Literal c, s) else None
  | [] => None
  end.

Fixpoint parse_group (fuel : nat) (s : bytes) : option (list Re.atom * bytes) :=
  match fuel, s with
  | S fuel, ")"%byte :: s => Some ([], s)
  | S fuel, _ => '(a, s) ← parse_atom s; '(l, s) ← parse_group fuel s; Some (a :: l, s)
  | 0, _ => None
  end.

Fixpoint parse (fuel : nat) (s : bytes) : option (list Re.node) :=
  match fuel with
  | 0 => None
  | S fuel =>
      if bool_decide (s = bstr "$") then Some [] else
      match strip_prefix (bstr "(?<") s with
      | Some s => '(name, s) ← split_once ">"%byte s; '(g, s) ← parse_group fuel s; l ← parse fuel s; Some (Re.Named name g :: l)
      | None => '(a, s) ← parse_atom s; l ← parse fuel s; Some (Re.Atom a :: l)
      end
  end.

#[export] Instance plain_regex : Regex := {|
  regex := list Re.node;
  regex_new s :=
    match strip_prefix (bstr "^") s with
    | Some s => ok_or (parse (S (length s)) s) PatternError.RegexSyntax
    | None => Err PatternError.RegexSyntax
    end;
  captures l h := Re.bound <$> Re.first_match l (chars h);
|}.

Lemma parse_atom_print a s : Re.atom_ok a = true -> head s <> Some "*"%byte -> parse_atom (Re.print_atom a ++ s) = Some (a, s).
Proof.
  intros Ha Hs. destruct a as [c|c| | |]; cbn in Ha |- *; try done.
  - rewrite Ha. apply andb_true_iff in Ha as [_ Hc]. destruct c; done.
  - by rewrite Ha.
  - destruct s as [|[] ?]; done.
Qed.

Lemma print_atom_head a s : Re.atom_ok a = true -> exists c, head (Re.print_atom a ++ s) = Some c /\ c <> "*"%byte /\ c <> ")"%byte /\ c <> "("%byte /\ c <> "$"%byte.
Proof.
  intros Ha. destruct a as [c|c| | |]; cbn in Ha |- *; eexists; (split; [done|]); try done.
  apply andb_true_iff in Ha as [_ Hc]. split_and!; intros ->; done.
Qed.

Lemma parse_group_print l : forallb Re.atom_ok l = true -> forall fuel s, (length l < fuel)%nat ->
  parse_group fuel (concat (map Re.print_atom l) ++ ")"%byte :: s) = Some (l, s).
Proof.
  induction l as [|a l IH]; intros Hl fuel s Hf; (destruct fuel as [|fuel]; [cbn in Hf; lia|]); [done|].
  cbn [forallb] in Hl. apply andb_true_iff in Hl as [Ha Hl]. cbn [map concat]. rewrite <- app_assoc.
  destruct (print_atom_head a (concat (map Re.print_atom l) ++ ")"%byte :: s) Ha) as (c & Hc & Hn1 & Hn2 & _).
  assert (head (concat (map Re.print_atom l) ++ ")"%byte :: s) <> Some "*"%byte) as Hh.
  { destruct l as [|a' l]; [done|]. cbn [forallb] in Hl. apply andb_true_iff in Hl as [Ha' _]. cbn [map concat]. rewrite <- app_assoc.
    destruct (print_atom_head a' (concat (map Re.print_atom l) ++ ")"%byte :: s) Ha') as (d & -> & ? & _). congruence. }
  pose proof (parse_atom_print a _ Ha Hh) as Hp. destruct (Re.print_atom a ++ concat (map Re.print_atom l) ++ ")"%byte :: s) as [|d ds] eqn:E; [done|].
  injection Hc as ->. cbn [parse_group]. cbn in Hf. replace (match c with ")"%byte => Some ([], ds) | _ => _ end) with
    ('(a, s) ← parse_atom (c :: ds); '(l, s) ← parse_group fuel s; Some (a :: l, s)) by (by destruct c).
  rewrite Hp. cbn. rewrite IH by (done || lia). done.
Qed.

Lemma print_nodes_head l : Forall (fun n => Re.node_ok n = true) l ->
  exists c, head (concat (map Re.print_node l) ++ bstr "$") = Some c /\ c <> "*"%byte.
Proof.
  destruct 1 as [|n l Hn _]; [by exists "$"%byte|]. cbn [map concat]. rewrite <- app_assoc. destruct n as [a|name g]; cbn in Hn.
  - destruct (print_atom_head a (concat (map Re.print_node l) ++ bstr "$") Hn) as (c & Hc & ? & _). eauto.
  - by exists "("%byte.
Qed.

Lemma strip_group c s : c <> "("%byte -> strip_prefix (bstr "(?<") (c :: s) = None.
Proof. intros Hc. unfold bstr. cbn. by rewrite bool_decide_eq_false_2. Qed.

Lemma parse_print l : Forall (fun n => Re.node_ok n = true) l -> forall fuel, (length (concat (map Re.print_node l)) < fuel)%nat ->
  parse fuel (concat (map Re.print_node l) ++ bstr "$") = Some l.
Proof.
  induction 1 as [|n l Hn Hl IH]; intros fuel Hf; (destruct fuel as [|fuel]; [cbn in Hf; lia|]); [done|].
  cbn [map concat] in *. rewrite <- app_assoc. destruct (print_nodes_head l Hl) as (c & Hc & Hstar). destruct n as [a|name g]; cbn [Re.node_ok] in Hn.
  - destruct (print_atom_head a (concat (map Re.print_node l) ++ bstr "$") Hn) as (d & Hd & _ & _ & Hp & Hdol).
    pose proof (parse_atom_print a (concat (map Re.print_node l) ++ bstr "$") Hn) as Ha. rewrite Hc in Ha. specialize (Ha ltac:(congruence)).
    cbn [Re.print_node] in *. destruct (Re.print_atom a ++ concat (map Re.print_node l) ++ bstr "$") as [|d' ds] eqn:E; [done|].
    cbn in Hd. injection Hd as ->. cbn [parse]. rewrite bool_decide_eq_false_2 by (by intros [= -> _]). rewrite strip_group by done.
    rewrite Ha. cbn. rewrite IH; [done|]. assert (0 < length (Re.print_atom a))%nat by (destruct a; cbn; lia). rewrite length_app in Hf. lia.
  - apply andb_true_iff in Hn as [Hname Hg]. destruct (name_ok_chars _ Hname) as [Hnc _].
    assert (Re.print_node (Re.Named name g) ++ concat (map Re.print_node l) ++ bstr "$" = bstr "(?<" ++ name ++ ">"%byte :: concat (map Re.print_atom g)
      ++ ")"%byte :: concat (map Re.print_node l) ++ bstr "$") as -> by (do 3 (cbn; rewrite <- ?app_assoc); done).
    cbn [parse]. rewrite bool_decide_eq_false_2 by done. rewrite strip_prefix_app.
    assert (">"%byte ∉ name) as Hgt by (intros Hin; by eapply Forall_forall in Hnc as (_ & _ & _ & ?)).
    rewrite (proj2 (split_once_Some ">"%byte _ name _) (conj eq_refl Hgt)).
    cbn [mbind option_bind]. cbn [Re.print_node] in Hf. do 3 (rewrite ?length_app in Hf; cbn in Hf).
    assert (length g <= length (concat (map Re.print_atom g)))%nat.
    { clear. induction g as [|a g IH]; cbn; [lia|]. rewrite length_app. destruct a; cbn; lia. }
    rewrite parse_group_print by (done || lia). cbn [mbind option_bind]. rewrite IH; [done|]. lia.
Qed.

#[export] Instance plain_regex_laws : RegexLaws plain_regex.
Proof.
  assert (forall l, Re.ok l -> regex_new (Re.print l) = Ok l) as Hnew.
  { intros l [Hl _]. unfold Re.print. cbn [regex_new plain_regex]. rewrite strip_prefix_app, parse_print; [done|done|]. rewrite length_app. lia. }
  split.
  - intros l Hl. left. exists l. by apply Hnew.
  - intros l re h Hl Hre _. rewrite Hnew in Hre by done. injection Hre as <-. cbn. by destruct (Re.first_match l (chars h)).
Qed.
End PlainRegex.

(** ** Samples *)

(** A file below a directory named by a version *)
Definition sample_glob : list Glob.item :=
  map (fun c => Glob.Plain (Glob.Lit c)) (bstr "/lib/") ++ [Glob.Group (bstr "v") [Glob.Star]] ++ map (fun c => Glob.Plain (Glob.Lit c)) (bstr "/k").

Lemma sample_written : Glob.written sample_glob.
Proof. split_and!; [reflexivity..|]. apply NoDup_singleton. Qed.

(** What [from_str] makes of it, by evaluation *)
Definition sample_parts : list Re.node * list bytes :=
  match from_str (R := PlainRegex.plain_regex) (Glob.show sample_glob) with Ok p => (compiled p, groups p) | Err _ => ([], []) end.


