(* ===== verification/Triggers.v ===== *)
(** * Triggers

    [crates/triggers/src]: a trigger maps patterns of paths to handlers ([format.rs]); it is
    converted from what a declaration evaluates to ([spec.rs]); a collection records which
    handlers the paths of a tree hit and orders them by the triggers' constraints
    ([lib.rs]).  [forge/src/client/postblit.rs] runs the three steps on a new tree. *)

From S2P Require Import Prelude ByteStrings Ordered DagGraph Fnmatch.
Import Petgraph DagGraph.

(** ** [format.rs] *)

Module PathKind.
Inductive t := Directory | Symlink.
End PathKind.

Module Handler.
Inductive t := Run (run : bytes) (args : list bytes) | Delete (delete : list bytes).
End Handler.

(** [CompiledHandler] wraps a handler whose variables are substituted. *)
Abbreviation CompiledHandler := Handler.t.

(** The derived [Ord]: the variant, then its fields in order *)
Definition handler_key (h : Handler.t) : Z * (bytes * list bytes) :=
  match h with
  | Handler.Run run args => (0%Z, (run, args))
  | Handler.Delete delete => (1%Z, ([], delete))
  end.
#[global] Instance Handler_cmp : Cmp Handler.t := cmp_on handler_key.

(** [str::replace] of a string that is not empty: the occurrences from the left that do not
    overlap; [skip] bytes belong to the last one. *)
Fixpoint replace_from (skip : nat) (needle value s : bytes) : bytes :=
  match s with
  | [] => []
  | b :: s' =>
      match skip with
      | S skip => replace_from skip needle value s'
      | 0 => match strip_prefix needle s with
             | Some _ => value ++ replace_from (length needle - 1) needle value s'
             | None => b :: replace_from 0 needle value s'
             end
      end
  end.
Definition replace (needle value s : bytes) : bytes := replace_from 0 needle value s.

(** [for (key, value) in &with_match.variables { s = s.replace(&format!("$({key})"), value) }] *)
Definition substitute (vars : list (bytes * bytes)) (s : bytes) : bytes :=
  foldl (fun s '(key, value) => replace (bstr "$(" ++ key ++ bstr ")") value s) s vars.

Definition compiled_handler (self : Handler.t) (with_match : Match) : CompiledHandler :=
  match self with
  | Handler.Run run args =>
      Handler.Run (substitute (variables with_match) run) (map (substitute (variables with_match)) args)
  | Handler.Delete delete => Handler.Delete delete
  end.

Record Inhibitors := { inh_paths : list bytes; environment : list bytes }.
Record PathDefinition := { used_handlers : list bytes; kind : option PathKind.t }.

Module SpecField.
Inductive t := PathKey (index : nat) | HandlerKey (index : nat).
End SpecField.

Module TriggerError.
Inductive t := MissingHandler (trigger handler : bytes).
End TriggerError.

Section triggers.
Context `{R : Regex}.

Record Trigger := {
  t_name : bytes;
  description : bytes;
  t_before : option bytes;
  t_after : option bytes;
  inhibitors : option Inhibitors;
  t_paths : list (Pattern * PathDefinition);
  t_handlers : list (bytes * Handler.t);
}.

(** ** [spec.rs] *)

Record TriggerSpec := {
  s_name : bytes;
  s_description : bytes;
  s_before : option bytes;
  s_after : option bytes;
  s_inhibitors : option Inhibitors;
  s_paths : list (bytes * PathDefinition);
  s_handlers : list (bytes * Handler.t);
}.

(** [field] is [paths[i].key] or [handlers[i].key]; no pattern error is the message of a
    duplicate. *)
Record TriggerConversionError := { field : SpecField.t; pattern_error : option PatternError.t }.

(** The [try_fold]s, with the index of an entry *)
Fixpoint convert_paths (i : nat) (l : list (bytes * PathDefinition)) (paths : list (Pattern * PathDefinition)) :
    result TriggerConversionError (list (Pattern * PathDefinition)) :=
  match l with
  | [] => Ok paths
  | (key, value) :: l =>
      p ← map_err (fun e => {| field := SpecField.PathKey i; pattern_error := Some e |}) (from_str key);
      if bool_decide (is_Some (map_get p paths)) then Err {| field := SpecField.PathKey i; pattern_error := None |}
      else convert_paths (S i) l (map_insert p value paths)
  end.

Fixpoint convert_handlers (i : nat) (l : list (bytes * Handler.t)) (handlers : list (bytes * Handler.t)) :
    result TriggerConversionError (list (bytes * Handler.t)) :=
  match l with
  | [] => Ok handlers
  | (key, value) :: l =>
      if bool_decide (is_Some (map_get key handlers)) then Err {| field := SpecField.HandlerKey i; pattern_error := None |}
      else convert_handlers (S i) l (map_insert key value handlers)
  end.

Definition Trigger_try_from (spec : TriggerSpec) : result TriggerConversionError Trigger :=
  paths ← convert_paths 0 (s_paths spec) [];
  handlers ← convert_handlers 0 (s_handlers spec) [];
  Ok {| t_name := s_name spec; description := s_description spec; t_before := s_before spec; t_after := s_after spec;
        inhibitors := s_inhibitors spec; t_paths := paths; t_handlers := handlers |}.

(** ** [lib.rs] *)

Record ExtractedHandler := { id : bytes; used_pattern : Pattern; handler : Handler.t }.

Record Collection := {
  handlers : list ExtractedHandler;
  triggers : list (bytes * Trigger);
  hits : list (bytes * list CompiledHandler);
}.

Definition extract_used (trigger : Trigger) (p : Pattern) (used : bytes) : result TriggerError.t ExtractedHandler :=
  h ← ok_or (map_get used (t_handlers trigger)) (TriggerError.MissingHandler (t_name trigger) used);
  Ok {| id := t_name trigger; used_pattern := p; handler := h |}.

(** The two inner loops: the handlers each path of a trigger uses *)
Definition extract (trigger : Trigger) : result TriggerError.t (list ExtractedHandler) :=
  extracted ← mapM (fun '(p, def) => mapM (extract_used trigger p) (used_handlers def)) (t_paths trigger);
  Ok (concat extracted).

Definition Collection_new (ts : list Trigger) : result TriggerError.t Collection :=
  extracted ← mapM extract ts;
  Ok {| handlers := concat extracted; triggers := map_collect (map (fun t => (t_name t, t)) ts); hits := [] |}.

(** [h.pattern.match_path(&p).map(|m| (h.id, h.handler.compiled(&m)))]; [None] is the panic
    of a pattern. *)
Definition handler_hit (p : bytes) (h : ExtractedHandler) : option (option (bytes * CompiledHandler)) :=
  match match_path (used_pattern h) p with
  | Some m => Some ((fun m => (id h, compiled_handler (handler h) m)) <$> m)
  | None => None
  end.

Definition path_hits (hs : list ExtractedHandler) (p : bytes) : option (list (bytes * CompiledHandler)) :=
  match mapM (handler_hit p) hs with
  | Some found => Some (omap (fun hit => hit) found)
  | None => None
  end.

Definition record_hit (hs : list (bytes * list CompiledHandler)) (hit : bytes * CompiledHandler) : list (bytes * list CompiledHandler) :=
  match map_get hit.1 hs with
  | Some set => map_insert hit.1 (set_insert hit.2 set) hs
  | None => map_insert hit.1 [hit.2] hs
  end.

Definition process_paths (self : Collection) (paths : list bytes) : option Collection :=
  '(results : list (list (bytes * CompiledHandler))) ← mapM (path_hits (handlers self)) paths;
  Some {| handlers := handlers self; triggers := triggers self; hits := foldl record_hit (hits self) (concat results) |}.

Context {D : DiGraph bytes}.

(** The node of the trigger another one names, if there is such a trigger *)
Definition named_node (self : Collection) (name : option bytes) (g : graph) : option (nat * graph) :=
  f ← (name ≫= fun n => map_get n (triggers self)); Some (add_node_or_get_index (t_name f) g).

Definition constrain (self : Collection) (g : graph) (key : bytes) : result TriggerError.t graph :=
  lookup ← ok_or (map_get key (triggers self)) (TriggerError.MissingHandler key key);
  let '(node, g) := add_node_or_get_index key g in
  let g := match named_node self (t_before lookup) g with
           | Some (before, g) => (add_edge node before g).2
           | None => g
           end in
  let g := match named_node self (t_after lookup) g with
           | Some (after, g) => (add_edge after node g).2
           | None => g
           end in
  Ok g.

Fixpoint constrain_all (self : Collection) (keys : list bytes) (g : graph) : result TriggerError.t graph :=
  match keys with
  | [] => Ok g
  | key :: keys => g ← constrain self g key; constrain_all self keys g
  end.

(** [graph.topo().filter_map(|i| self.hits.remove(i)).flatten()] *)
Fixpoint recollect (order : list bytes) (hs : list (bytes * list CompiledHandler)) :
    list CompiledHandler * list (bytes * list CompiledHandler) :=
  match order with
  | [] => ([], hs)
  | i :: order =>
      let '(out, rest) := recollect order (map_remove i hs) in
      (match map_get i hs with Some set => set | None => [] end ++ out, rest)
  end.

Definition bake (self : Collection) : result TriggerError.t (list CompiledHandler) * Collection :=
  let g := foldl (fun g key => (add_node_or_get_index key g).2) Petgraph.default (hits self).*1 in
  match constrain_all self (hits self).*1 g with
  | Err e => (Err e, self)
  | Ok g =>
      let '(results, rest) := recollect (topo g) (hits self) in
      (Ok results, {| handlers := handlers self; triggers := triggers self; hits := rest |})
  end.

(** [postblit::triggers]: the handlers to run for a tree with these paths *)
Definition trigger_handlers (ts : list Trigger) (paths : list bytes) : option (result TriggerError.t (list CompiledHandler)) :=
  match Collection_new ts with
  | Err e => Some (Err e)
  | Ok collection => collection ← process_paths collection paths; Some (bake collection).1
  end.
End triggers.
