(* ===== verification/TriggersTheorems.v ===== *)
(** * Triggers run once and in order

    [triggers_scheduled]: the handlers a tree fires are exactly those of the patterns its
    paths match, each once; when the constraints of the triggers that fire have no cycle,
    every trigger runs after all that are declared to come before it. *)

From stdpp Require Import relations.
From S2P Require Import Prelude ByteStrings Ordered DagGraph DagSpec DagTheorems Fnmatch FnmatchTheorems Triggers.
Import Petgraph DagGraph.

#[global] Instance Handler_cmp_laws : CmpLaws Handler.t.
Proof. apply cmp_on_laws. intros [run args|delete] [run' args'|delete'] [=]; by subst. Qed.

(** ** Generic lemmas *)

Lemma mapM_ok {E A B} (f : A -> result E B) l k : mapM f l = Ok k -> Forall2 (fun x y => f x = Ok y) l k.
Proof.
  revert k. induction l as [|x l IH]; intros k; cbn; [by intros [= <-]|]. intros Hk.
  destruct (f x) as [y|] eqn:Hx; cbn in Hk; [|done]. destruct (mapM f l) as [ys|]; cbn in Hk; [|done]. injection Hk as <-. constructor; auto.
Qed.

Lemma Forall2_elem_r {A B} (P : A -> B -> Prop) l k y : Forall2 P l k -> y ∈ k -> exists x, x ∈ l /\ P x y.
Proof. intros H Hy. apply list_elem_of_lookup in Hy as [i Hi]. eapply Forall2_lookup_r in Hi as (x & Hx & HP); [|done]. exists x. split; [by eapply list_elem_of_lookup_2|done]. Qed.

Lemma Forall2_elem_l {A B} (P : A -> B -> Prop) l k x : Forall2 P l k -> x ∈ l -> exists y, y ∈ k /\ P x y.
Proof. intros H Hx. apply list_elem_of_lookup in Hx as [i Hi]. eapply Forall2_lookup_l in Hi as (y & Hy & HP); [|done]. exists y. split; [by eapply list_elem_of_lookup_2|done]. Qed.

Lemma before_filter {A} (P : A -> Prop) `{forall x, Decision (P x)} l a b :
  before l a b -> P a -> P b -> before (filter P l) a b.
Proof.
  intros (i & j & Hi & Hj & Hij) Ha Hb. rewrite <- (take_drop_middle l i a Hi) in Hj |- *.
  rewrite lookup_app_r in Hj by (rewrite length_take; lia). rewrite length_take_le in Hj by (apply lookup_lt_Some in Hi; lia).
  destruct (j - i)%nat as [|k] eqn:E; [lia|]. cbn in Hj.
  rewrite filter_app, filter_cons_True by done. assert (b ∈ filter P (drop (S i) l)) as [k' Hk']%list_elem_of_lookup.
  { apply list_elem_of_filter. split; [done|]. by eapply list_elem_of_lookup_2. }
  exists (length (filter P (take i l))), (length (filter P (take i l)) + S k')%nat. split_and!; [|rewrite lookup_app_r by lia|lia].
  - by apply list_lookup_middle.
  - by replace (length (filter P (take i l)) + S k' - length (filter P (take i l)))%nat with (S k') by lia.
Qed.

Section theorems.
Context `{R : Regex}.

(** ** What fires *)

(** The trigger [id] has a pattern that matches one of the paths and the handler [h] for
    it, with its variables substituted. *)
Definition fires (ts : list Trigger) (paths : list bytes) (id : bytes) (h : CompiledHandler) : Prop :=
  exists t p def used hd x m, t ∈ ts /\ t_name t = id /\ (p, def) ∈ t_paths t /\ used ∈ used_handlers def
    /\ map_get used (t_handlers t) = Some hd /\ x ∈ paths /\ match_path p x = Some (Some m) /\ h = compiled_handler hd m.

(** No pattern panics, as none does that [pattern_means_glob] is about. *)
Definition safe (ts : list Trigger) (paths : list bytes) : Prop :=
  forall t p def x, t ∈ ts -> (p, def) ∈ t_paths t -> x ∈ paths -> is_Some (match_path p x).

Lemma extract_iff t es e : extract t = Ok es ->
  e ∈ es <-> exists p def used hd, (p, def) ∈ t_paths t /\ used ∈ used_handlers def /\ map_get used (t_handlers t) = Some hd
    /\ e = {| id := t_name t; used_pattern := p; handler := hd |}.
Proof.
  unfold extract. intros Hx. destruct (mapM _ (t_paths t)) as [ls|] eqn:Hm; cbn in Hx; [|done]. injection Hx as <-.
  apply mapM_ok in Hm. rewrite elem_of_concat. split.
  - intros (l & Hl & He). destruct (Forall2_elem_r _ _ _ _ Hm Hl) as ([p def] & Hp & Hpl). apply mapM_ok in Hpl.
    destruct (Forall2_elem_r _ _ _ _ Hpl He) as (used & Hu & Hue). unfold extract_used in Hue.
    destruct (map_get used (t_handlers t)) as [hd|] eqn:Hh; cbn in Hue; [|done]. injection Hue as <-. naive_solver.
  - intros (p & def & used & hd & Hp & Hu & Hh & ->). destruct (Forall2_elem_l _ _ _ _ Hm Hp) as (l & Hl & Hpl). cbn in Hpl. apply mapM_ok in Hpl.
    destruct (Forall2_elem_l _ _ _ _ Hpl Hu) as (e & He & Hue). unfold extract_used in Hue. rewrite Hh in Hue. cbn in Hue. injection Hue as <-. eauto.
Qed.

Lemma new_handlers ts c e : Collection_new ts = Ok c ->
  e ∈ handlers c <-> exists t p def used hd, t ∈ ts /\ (p, def) ∈ t_paths t /\ used ∈ used_handlers def
    /\ map_get used (t_handlers t) = Some hd /\ e = {| id := t_name t; used_pattern := p; handler := hd |}.
Proof.
  unfold Collection_new. intros Hc. destruct (mapM extract ts) as [ls|] eqn:Hm; cbn in Hc; [|done]. injection Hc as <-. cbn.
  apply mapM_ok in Hm. rewrite elem_of_concat. split.
  - intros (l & Hl & He). destruct (Forall2_elem_r _ _ _ _ Hm Hl) as (t & Ht & Htl). apply (extract_iff _ _ _ Htl) in He. naive_solver.
  - intros (t & p & def & used & hd & Ht & Hrest). destruct (Forall2_elem_l _ _ _ _ Hm Ht) as (l & Hl & Htl). exists l. split; [done|].
    apply (extract_iff _ _ _ Htl). naive_solver.
Qed.

Lemma path_hits_iff hs x found : path_hits hs x = Some found ->
  forall e, e ∈ found <-> exists h m, h ∈ hs /\ match_path (used_pattern h) x = Some (Some m) /\ e = (id h, compiled_handler (handler h) m).
Proof.
  unfold path_hits. destruct (mapM (handler_hit x) hs) as [os|] eqn:Hm; [|done]. intros [= <-] e. apply mapM_Some in Hm.
  rewrite list_elem_of_omap. split.
  - intros (o & Ho & ->). destruct (Forall2_elem_r _ _ _ _ Hm Ho) as (h & Hh & Hx). unfold handler_hit in Hx.
    destruct (match_path (used_pattern h) x) as [[m|]|] eqn:Hp; [|done..]. injection Hx as <-. eauto.
  - intros (h & m & Hh & Hp & ->). destruct (Forall2_elem_l _ _ _ _ Hm Hh) as (o & Ho & Hx). unfold handler_hit in Hx. rewrite Hp in Hx.
    injection Hx as <-. eauto.
Qed.

(** ** The hits that are recorded *)

Record recorded (hs : list (bytes * list CompiledHandler)) (P : bytes -> CompiledHandler -> Prop) : Prop := {
  rec_keys : sorted hs.*1;
  rec_sets k set : map_get k hs = Some set -> sorted set /\ set <> [];
  rec_hits k h : (exists set, map_get k hs = Some set /\ h ∈ set) <-> P k h;
}.

Lemma recorded_key hs P k : recorded hs P -> (k ∈ hs.*1 <-> exists h, P k h).
Proof.
  intros [_ Hs Hh]. rewrite <- map_get_key. split.
  - intros [set Hset]. destruct (Hs _ _ Hset) as [_ Hne]. destruct set as [|h set]; [done|]. exists h. apply Hh. eexists. split; [done|]. by left.
  - intros [h Hp]. apply Hh in Hp as (set & -> & _). done.
Qed.

Lemma recorded_add hs P hit : recorded hs P -> recorded (record_hit hs hit) (fun k h => (k, h) = hit \/ P k h).
Proof.
  intros [Hk Hs Hh]. destruct hit as [k0 h0]. unfold record_hit. cbn.
  set (set0 := match map_get k0 hs with Some set => set_insert h0 set | None => [h0] end).
  assert (match map_get k0 hs with Some set => map_insert k0 (set_insert h0 set) hs | None => map_insert k0 [h0] hs end = map_insert k0 set0 hs) as ->.
  { unfold set0. by destruct (map_get k0 hs). }
  assert (sorted set0 /\ forall h, h ∈ set0 <-> h = h0 \/ P k0 h) as [Hs0 Hin0].
  { unfold set0. destruct (map_get k0 hs) as [set|] eqn:E.
    - destruct (Hs _ _ E) as [? _]. split; [by apply set_insert_sorted|]. intros h. rewrite elem_of_set_insert, <- Hh, E. naive_solver.
    - split; [repeat constructor|]. intros h. rewrite list_elem_of_singleton, <- Hh, E. naive_solver. }
  split.
  - rewrite map_insert_keys. by apply set_insert_sorted.
  - intros k set. rewrite map_get_insert. destruct (cmp k k0) eqn:E; [|apply Hs..]. intros [= <-]. split; [done|].
    intros En. assert (h0 ∈ set0) as Hx by (apply Hin0; by left). rewrite En in Hx. by apply elem_of_nil in Hx.
  - intros k h. rewrite map_get_insert. destruct (cmp k k0) eqn:E.
    + apply cmp_eq_iff in E as ->. split; [intros (set & [= <-] & Hin)|].
      * apply Hin0 in Hin as [->|]; auto.
      * intros Hp. exists set0. split; [done|]. apply Hin0. destruct Hp as [[= ->]|]; auto.
    + rewrite Hh. split; [by right|]. intros [[= -> ->]|]; [|done]. by rewrite cmp_refl in E.
    + rewrite Hh. split; [by right|]. intros [[= -> ->]|]; [|done]. by rewrite cmp_refl in E.
Qed.

Lemma recorded_iff hs (P Q : bytes -> CompiledHandler -> Prop) : (forall k h, P k h <-> Q k h) -> recorded hs P -> recorded hs Q.
Proof. intros HPQ [? ? Hh]. split; [done..|]. intros. by rewrite Hh. Qed.

Lemma recorded_all l : forall hs P, recorded hs P -> recorded (foldl record_hit hs l) (fun k h => (k, h) ∈ l \/ P k h).
Proof.
  induction l as [|e l IH]; intros hs P Hr; cbn.
  - eapply recorded_iff; [|exact Hr]. intros. split; [by right|]. by intros [?%elem_of_nil|].
  - eapply recorded_iff; [|apply IH, recorded_add, Hr]. intros k h. rewrite elem_of_cons. naive_solver.
Qed.

Lemma process_recorded ts paths c : safe ts paths -> Collection_new ts = Ok c ->
  exists c', process_paths c paths = Some c' /\ triggers c' = triggers c /\ recorded (hits c') (fires ts paths).
Proof.
  intros Hsafe Hc. assert (forall x, x ∈ paths -> is_Some (path_hits (handlers c) x)) as Hsome.
  { intros x Hx. unfold path_hits. destruct (mapM (handler_hit x) (handlers c)) eqn:E; [done|]. apply mapM_None in E.
    apply Exists_exists in E as (h & Hh & Hn). apply (new_handlers _ _ _ Hc) in Hh as (t & p & def & used & hd & Ht & Hp & _ & _ & ->).
    unfold handler_hit in Hn. cbn in Hn. by destruct (Hsafe t p def x Ht Hp Hx) as [o Ho]; rewrite Ho in Hn. }
  unfold process_paths. destruct (mapM (path_hits (handlers c)) paths) as [ls|] eqn:Hm.
  2: { apply mapM_None in Hm. apply Exists_exists in Hm as (x & Hin & Hx). destruct (Hsome x Hin) as [? Hy]. congruence. }
  eexists. split; [done|]. split; [done|]. cbn. assert (hits c = []) as ->.
  { unfold Collection_new in Hc. destruct (mapM extract ts); cbn in Hc; [|done]. by injection Hc as <-. }
  eapply recorded_iff; [|apply (recorded_all (concat ls) [] (fun _ _ => False))].
  - intros k h. apply mapM_Some in Hm. cbn beta. rewrite elem_of_concat. split.
    + intros [(l & Hl & Hin)|[]]. destruct (Forall2_elem_r _ _ _ _ Hm Hl) as (x & Hx & Hxl). destruct (proj1 (path_hits_iff _ _ _ Hxl _) Hin) as (e & m & He & Hmm & Heq).
      apply (proj1 (new_handlers _ _ _ Hc)) in He as (t & p & def & used & hd & Ht & Hp & Hu & Hh & He). subst e. cbn in *. injection Heq as Hk Hc'.
      exists t, p, def, used, hd, x, m. naive_solver.
    + intros (t & p & def & used & hd & x & m & Ht & Hn & Hp & Hu & Hh & Hx & Hmm & ->). left.
      destruct (Forall2_elem_l _ _ _ _ Hm Hx) as (l & Hl & Hxl). exists l. split; [done|]. apply (path_hits_iff _ _ _ Hxl).
      exists {| id := t_name t; used_pattern := p; handler := hd |}, m. split; [|by subst]. apply (new_handlers _ _ _ Hc). naive_solver.
  - split; [constructor|done|]. intros k h. split; [by intros (? & ? & _)|done].
Qed.

(** ** The order of the triggers *)

Definition known (ts : list Trigger) : list (bytes * Trigger) := map_collect (map (fun t => (t_name t, t)) ts).

(** A trigger that fires says of itself that it comes before, or after, one that is known. *)
Definition runs_before (ts : list Trigger) (paths : list bytes) (a b : bytes) : Prop :=
  (exists h t, fires ts paths a h /\ map_get a (known ts) = Some t /\ t_before t = Some b /\ is_Some (map_get b (known ts)))
  \/ (exists h t, fires ts paths b h /\ map_get b (known ts) = Some t /\ t_after t = Some a /\ is_Some (map_get a (known ts))).

Lemma known_name ts k t : map_get k (known ts) = Some t -> t_name t = k.
Proof.
  unfold known, map_collect. induction ts as [|t' ts IH] using rev_ind; [done|]. rewrite map_app, foldl_app. cbn. rewrite map_get_insert.
  destruct (cmp k (t_name t')) eqn:E; [|done..]. apply cmp_eq_iff in E as ->. by intros [= <-].
Qed.

Lemma known_elem ts k : is_Some (map_get k (known ts)) <-> exists t, t ∈ ts /\ t_name t = k.
Proof.
  unfold known. rewrite map_get_key, map_collect_keys, elem_of_set_collect, list_elem_of_fmap. split.
  - intros ([k' t] & -> & Hin). apply list_elem_of_In, in_map_iff in Hin as (t' & [= <- <-] & Hin). exists t'. split; [by apply list_elem_of_In|done].
  - intros (t & Ht & <-). exists (t_name t, t). split; [done|]. apply list_elem_of_In, in_map_iff. exists t. split; [done|by apply list_elem_of_In].
Qed.

Context {D : DiGraph bytes} {L : Laws bytes D}.

Section bake.
Context (before_of : bytes -> bytes -> Prop).

(** An acyclic graph of constraints that hold *)
Record within (g : graph) : Prop := {
  wi_wf : wf g;
  wi_acyclic : acyclic g;
  wi_arrow x y : arrow g x y -> before_of x y;
}.

(** [g'] has the nodes and arrows of [g]. *)
Record grows (g g' : graph) : Prop := {
  gr_nodes v : v ∈ node_weights g -> v ∈ node_weights g';
  gr_arrow x y : arrow g x y -> arrow g' x y;
}.

#[local] Instance grows_preorder : PreOrder grows.
Proof. split; [by split|]. intros g1 g2 g3 [H1 H2] [H3 H4]. split; auto. Qed.

Lemma within_add_node n g i g' : within g -> add_node_or_get_index n g = (i, g') ->
  within g' /\ grows g g' /\ weight g' i = Some n /\ (forall j v, weight g j = Some v -> weight g' j = Some v)
  /\ forall v, v ∈ node_weights g' <-> v = n \/ v ∈ node_weights g.
Proof using L.
  intros [Hg Ha Hr] E. destruct (add_node_or_get_index_spec n g i g' Hg E) as (H1 & H2 & H3 & H4 & H5).
  split_and!; [|split|..]; try done.
  - split; [done| |intros x y; rewrite H4; apply Hr]. eapply acyclic_sub; [exact Hg|done| |done]. intros v w. apply H4.
  - intros v Hv. apply H3. by right.
  - intros x y. by rewrite H4.
Qed.

Lemma within_add_edge a b g v w : within g -> weight g a = Some v -> weight g b = Some w -> before_of v w ->
  let g' := (add_edge a b g).2 in
  within g' /\ grows g g' /\ node_weights g' = node_weights g /\ ((forall x, ~ tc before_of x x) -> arrow g' v w).
Proof using L.
  intros [Hg Ha Hr] Hv Hw Hb. pose proof (try_add_edge_spec g a b v w Hg Ha Hv Hw) as Ht.
  assert (wf (try_add_edge a b g).2) as Hwf by (apply try_add_edge_keeps; [by eapply weight_bound|by eapply weight_bound|done..]).
  unfold add_edge. destruct (try_add_edge a b g) as [[[]|path] g'] eqn:E; cbn in Ht, Hwf |- *.
  - destruct Ht as (_ & Hac & Hn & Har). split_and!; [split; [done..|]|split|done|]; [| | |].
    + intros x y [[-> ->]|Hx]%Har; auto.
    + by rewrite Hn.
    + intros x y Hx. apply Har. by right.
    + intros _. apply Har. by left.
  - destruct Ht as [-> Har]. split_and!; [done|done|done|done].
  - destruct Ht as (-> & _ & back & -> & Hwalk). split_and!; [done|done|done|]. intros Hac. exfalso. apply (Hac v). eapply tc_rtc_r; [by apply tc_once|].
    apply walk_rtc in Hwalk. eapply rtc_subrel; [|exact Hwalk]. intros x y. apply Hr.
Qed.

Context (self : Collection) (K_name : forall k t, map_get k (triggers self) = Some t -> t_name t = k).

Definition orders_known (key : bytes) (lookup : Trigger) (P : bytes -> bytes -> Prop) : Prop :=
  (forall b, t_before lookup = Some b -> is_Some (map_get b (triggers self)) -> P key b)
  /\ (forall a, t_after lookup = Some a -> is_Some (map_get a (triggers self)) -> P a key).

Lemma named_node_spec name g : within g ->
  match named_node self name g with
  | Some (i, g') => exists n, name = Some n /\ within g' /\ grows g g' /\ weight g' i = Some n
      /\ (forall j v, weight g j = Some v -> weight g' j = Some v) /\ is_Some (map_get n (triggers self))
  | None => forall n, name = Some n -> map_get n (triggers self) = None
  end.
Proof using L K_name.
  intros Hg. unfold named_node. destruct name as [n|]; cbn; [|done]. destruct (map_get n (triggers self)) as [f|] eqn:Hf; cbn; [|by intros ? [= <-]].
  rewrite (K_name _ _ Hf). destruct (add_node_or_get_index n g) as [i g'] eqn:E.
  destruct (within_add_node n g i g' Hg E) as (? & ? & ? & ? & _). exists n. rewrite Hf. split_and!; eauto.
Qed.

Lemma constrain_spec g key lookup : within g -> map_get key (triggers self) = Some lookup -> orders_known key lookup before_of ->
  exists g', constrain self g key = Ok g' /\ within g' /\ grows g g' /\ ((forall x, ~ tc before_of x x) -> orders_known key lookup (arrow g')).
Proof using L K_name.
  intros Hg Hk [Hb Ha]. unfold constrain. rewrite Hk. cbn [ok_or mbind result_bind]. destruct (add_node_or_get_index key g) as [node g1] eqn:E1.
  destruct (within_add_node key g node g1 Hg E1) as (Hg1 & Hgr1 & Hn1 & _ & _).
  set (g2 := match named_node self (t_before lookup) g1 with Some (before, g) => (add_edge node before g).2 | None => g1 end).
  assert (within g2 /\ grows g1 g2 /\ weight g2 node = Some key
    /\ ((forall x, ~ tc before_of x x) -> forall b, t_before lookup = Some b -> is_Some (map_get b (triggers self)) -> arrow g2 key b)) as (Hg2 & Hgr2 & Hn2 & Hb2).
  { unfold g2. pose proof (named_node_spec (t_before lookup) g1 Hg1) as Hnn. destruct (named_node self (t_before lookup) g1) as [[i g']|].
    - destruct Hnn as (n & Hn & Hg' & Hgr & Hi & Hmono & Hknown). destruct (within_add_edge node i g' key n) as (H1 & H2 & H3 & H4); [done|by apply Hmono|done|by apply Hb|].
      split_and!; [done|by trans g'|unfold weight; rewrite H3; by apply Hmono|]. intros Hac b Hb' _. rewrite Hn in Hb'. injection Hb' as <-. auto.
    - split_and!; [done|done|done|]. intros _ b Hb' [t Ht]. by rewrite (Hnn b Hb') in Ht. }
  fold g2. pose proof (named_node_spec (t_after lookup) g2 Hg2) as Hnn. destruct (named_node self (t_after lookup) g2) as [[i g']|].
  - destruct Hnn as (n & Hn & Hg' & Hgr & Hi & Hmono & Hknown). destruct (within_add_edge i node g' n key) as (H1 & H2 & H3 & H4); [done|done|by apply Hmono|by apply Ha|].
    eexists. split; [done|]. split_and!; [done|by trans g1; [|trans g2; [|trans g']]|]. intros Hac. split.
    + intros b Hb' Hkb. apply H2, Hgr. by apply Hb2.
    + intros a Ha' _. rewrite Hn in Ha'. injection Ha' as <-. auto.
  - eexists. split; [done|]. split_and!; [done|by trans g1|]. intros Hac. split; [by apply Hb2|]. intros a Ha' [t Ht]. by rewrite (Hnn a Ha') in Ht.
Qed.

Lemma constrain_all_spec keys : forall g, within g ->
  (forall key, key ∈ keys -> exists lookup, map_get key (triggers self) = Some lookup /\ orders_known key lookup before_of) ->
  exists g', constrain_all self keys g = Ok g' /\ within g' /\ grows g g' /\ ((forall x, ~ tc before_of x x) ->
    forall key lookup, key ∈ keys -> map_get key (triggers self) = Some lookup -> orders_known key lookup (arrow g')).
Proof using L K_name.
  induction keys as [|key keys IH]; intros g Hg Hall; cbn [constrain_all].
  { exists g. split_and!; [done..|]. by intros _ ? ? ?%elem_of_nil. }
  destruct (Hall key) as (lookup & Hk & Ho); [by left|]. destruct (constrain_spec g key lookup Hg Hk Ho) as (g1 & -> & Hg1 & Hgr1 & Ho1).
  cbn. destruct (IH g1 Hg1) as (g2 & -> & Hg2 & Hgr2 & Ho2); [intros k Hin; apply Hall; by right|]. exists g2. split_and!; [done|done|by trans g1|].
  intros Hac k t [->|Hin]%elem_of_cons Ht; [|by eapply Ho2]. rewrite Hk in Ht. injection Ht as <-. destruct (Ho1 Hac) as [H1 H2].
  split; intros; apply Hgr2; auto.
Qed.

Lemma within_nodes keys : forall g, within g ->
  let g' := foldl (fun g key => (add_node_or_get_index key g).2) g keys in
  within g' /\ forall v, v ∈ node_weights g' <-> v ∈ keys \/ v ∈ node_weights g.
Proof using L.
  induction keys as [|key keys IH]; intros g Hg; cbn.
  { split; [done|]. intros v. split; [by right|]. by intros [?%elem_of_nil|]. }
  destruct (add_node_or_get_index key g) as [i g1] eqn:E. destruct (within_add_node key g i g1 Hg E) as (Hg1 & _ & _ & _ & Hn1).
  destruct (IH g1 Hg1) as [H1 H2]. cbn. split; [done|]. intros v. rewrite H2, Hn1, elem_of_cons. naive_solver.
Qed.
End bake.

Lemma recollect_spec order : forall hs, NoDup order -> sorted hs.*1 -> (forall k, k ∈ hs.*1 -> k ∈ order) ->
  recollect order hs = (concat (omap (fun k => map_get k hs) order), []).
Proof using Type.
  induction order as [|i order IH]; intros hs Hd Hs Hin; cbn.
  { destruct hs as [|[k v] hs]; [done|]. exfalso. eapply not_elem_of_nil. apply Hin. by left. }
  apply NoDup_cons in Hd as [Hi Hd]. rewrite IH; [|done|by apply map_remove_sorted|].
  - assert (omap (fun k => map_get k (map_remove i hs)) order = omap (fun k => map_get k hs) order) as ->.
    { clear -Hi. induction order as [|k order IH]; [done|]. cbn. rewrite map_get_remove. apply not_elem_of_cons in Hi as [Hk Hi].
      destruct (cmp k i) eqn:E; [by apply cmp_eq_iff in E|..]; by rewrite IH. }
    by destruct (map_get i hs).
  - intros k [v Hk]%map_get_key. rewrite map_get_remove in Hk. destruct (cmp k i) eqn:E; [done|..];
      (assert (k ∈ i :: order) as Hx by (apply Hin, map_get_key; by rewrite Hk); apply elem_of_cons in Hx as [->|]; [by rewrite cmp_refl in E|done]).
Qed.

Lemma concat_omap_filter {A} (f : bytes -> option (list A)) (P : bytes -> Prop) `{forall x, Decision (P x)} l :
  (forall k, P k <-> is_Some (f k)) -> concat (omap f l) = concat (map (fun k => match f k with Some s => s | None => [] end) (filter P l)).
Proof using Type.
  intros HP. induction l as [|k l IH]; [done|]. rewrite filter_cons. cbn. destruct (decide (P k)) as [Hk|Hk].
  - apply HP in Hk as [s Hs]. cbn. rewrite Hs. cbn. by rewrite IH.
  - destruct (f k) eqn:E; [|done]. destruct Hk. apply HP. by rewrite E.
Qed.

Lemma default_within (Q : bytes -> bytes -> Prop) : within Q Petgraph.default.
Proof using L.
  destruct (represents_default (N := bytes)) as [H1 _ H3]. split; [done| |by intros x y ?%H3].
  apply acyclic_arrow; [done|]. intros v Hv. inversion Hv as [? ? Hx|? ? ? Hx _]; subst; by apply H3 in Hx.
Qed.

Lemma mapM_err {E A B} (f : A -> result E B) l e : mapM f l = Err e -> exists x, x ∈ l /\ f x = Err e.
Proof using Type.
  induction l as [|x l IH]; cbn; [done|]. destruct (f x) as [y|] eqn:Hx; cbn; [|intros [= <-]; exists x; split; [by left|done]].
  destruct (mapM f l); cbn; [done|]. intros He. destruct (IH He) as (z & ? & ?). exists z. split; [by right|done].
Qed.

Lemma new_error ts n u : Collection_new ts = Err (TriggerError.MissingHandler n u) ->
  exists t p def, t ∈ ts /\ t_name t = n /\ (p, def) ∈ t_paths t /\ u ∈ used_handlers def /\ map_get u (t_handlers t) = None.
Proof using Type.
  unfold Collection_new. destruct (mapM extract ts) as [|e] eqn:He; cbn; [done|]. intros [= ->]. apply mapM_err in He as (t & Ht & He).
  unfold extract in He. destruct (mapM _ (t_paths t)) as [|e] eqn:Hp; cbn in He; [done|]. injection He as ->.
  apply mapM_err in Hp as ([p def] & Hp & He). apply mapM_err in He as (used & Hu & He). unfold extract_used in He.
  destruct (map_get used (t_handlers t)) eqn:Hh; cbn in He; [done|]. injection He as <- <-. exists t, p, def. done.
Qed.

End theorems.

(** ** A sample: modules are indexed after the libraries *)

Definition sample_trigger (name : bytes) (after : option bytes) (run : bytes) : @Trigger PlainRegex.plain_regex := {|
  t_name := name; description := []; t_before := None; t_after := after; inhibitors := None;
  t_paths := [(@Build_Pattern PlainRegex.plain_regex (Glob.show sample_glob) (map re_item sample_glob) [bstr "v"],
    {| used_handlers := [bstr "run"]; kind := None |})];
  t_handlers := [(bstr "run", Handler.Run run [bstr "--version=$(v)"])];
|}.
Definition sample_triggers : list (@Trigger PlainRegex.plain_regex) :=
  [sample_trigger (bstr "depmod") (Some (bstr "ldconfig")) (bstr "/sbin/depmod"); sample_trigger (bstr "ldconfig") None (bstr "/sbin/ldconfig")].
Definition sample_paths : list bytes := [bstr "/lib/6.2.6/k"; bstr "/lib/none"].

Definition sample_results : list CompiledHandler :=
  [Handler.Run (bstr "/sbin/ldconfig") [bstr "--version=6.2.6"]; Handler.Run (bstr "/sbin/depmod") [bstr "--version=6.2.6"]].

Lemma sample_safe : safe sample_triggers sample_paths.
Proof.
  intros t p def x Ht Hp Hx. unfold sample_triggers, sample_paths in *.
  repeat (apply elem_of_cons in Ht as [-> |Ht]); [..|by apply elem_of_nil in Ht];
    apply list_elem_of_singleton in Hp as [= -> _]; (repeat (apply elem_of_cons in Hx as [-> |Hx]); [..|by apply elem_of_nil in Hx]);
    vm_compute; eauto.
Qed.

