(* ===== verification/SqlDb.v ===== *)
(** * SQLite

    What the databases of [crates/forge/src/db] share: the errors of [db/mod.rs], the
    behaviour of SQLite they leave open, and slices cut into the chunks a statement can
    bind. *)

From S2P Require Import Prelude.

Module Diesel.
Inductive t := NotFound | DatabaseError | UniqueViolation | ForeignKeyViolation | CheckViolation | DeserializationError.
End Diesel.

Module DbError.
Inductive t :=
  | RowNotFound
  | LayoutEntryDecode
  | InvalidTimestamp (value : Z)
  | DuplicatePackageId
  | MetaIntegerOutOfRange (field : bytes) (value : Z)
  | SnapshotIndexUriTooLong (limit actual : Z)
  | SnapshotIndexUriPolicy (reason : bytes)
  | ParseSnapshotIndexUri
  | InvalidSnapshotSha256
  | SnapshotByteSizeOutOfRange (limit actual : Z)
  | NegativeSnapshotByteSize (value : Z)
  | InvalidSnapshotSingleton (value : Z)
  | Diesel (e : Diesel.t).
End DbError.

Definition MAX_VARIABLE_NUMBER : nat := Z.to_nat 32766.

(** SQLite *)
Class Sqlite := {
  foreign_keys : bool;
  scan : forall {A}, list A -> list A;
  like : bytes -> bytes -> bool;
}.

Class SqliteLaws (S : Sqlite) : Prop := {
  scan_perm {A} (l : list A) : scan l ≡ₚ l;
}.

(** ** Iterators and slices *)

(** [Iterator::map] of a fallible function and [collect] *)
Fixpoint try_map {E A B} (f : A -> result E B) (l : list A) : result E (list B) :=
  match l with
  | [] => Ok []
  | a :: l' => b ← f a; bs ← try_map f l'; Ok (b :: bs)
  end.

(** [slice::chunks] *)
Fixpoint chunks_fuel {A} (fuel n : nat) (l : list A) : list (list A) :=
  match fuel, l with
  | 0, _ | _, [] => []
  | S fuel', _ => take n l :: chunks_fuel fuel' n (drop n l)
  end.
Definition chunks {A} (n : nat) (l : list A) : list (list A) := chunks_fuel (length l) n l.

Lemma chunks_concat {A} n (l : list A) : (0 < n)%nat -> concat (chunks n l) = l.
Proof.
  intros Hn. unfold chunks. assert (forall fuel (l : list A), (length l <= fuel)%nat -> concat (chunks_fuel fuel n l) = l) as H; [|by apply H].
  clear l. induction fuel as [|fuel IH]; intros l Hl; cbn.
  - destruct l; [done|cbn in Hl; lia].
  - destruct l as [|a l]; [done|]. cbn [concat]. rewrite IH; [apply take_drop|]. rewrite length_drop. cbn in *. lia.
Qed.
