(* ===== verification/MetaDb.v ===== *)
(** * The metadata database

    [crates/forge/src/db/meta/mod.rs]: package metadata and the active repository
    snapshot in SQLite tables.  A table is the set of its rows by primary key, as the
    migrations declare it; a transaction is a sequence of statements of which any may
    fail.  SQLite leaves the order of rows without [ORDER BY] open, so [scan] is any
    order; [LIKE], the URL parser and whether foreign keys are enforced are parameters
    of third-party code.  Allocation failure, connections and migrations are not
    modelled. *)

From S2P Require Import Prelude Ordered SqlDb StoneRelation PackageMeta.

Definition PACKAGE_INSERT_CHUNK_SIZE : nat := 128.
Definition ACTIVE_SNAPSHOT_SINGLETON : Z := 1.
Definition MAX_SNAPSHOT_INDEX_URI_BYTES : Z := 8 * 1024.
Definition MAX_SNAPSHOT_BYTE_SIZE : Z := 16 * 1024 * 1024.

(** [url::Url] *)
Class UrlOps := {
  url : Type;
  as_str : url -> bytes;
  url_parse : bytes -> option url;
  username : url -> bytes;
  password : url -> option bytes;
  fragment : url -> option bytes;
  scheme : url -> bytes;
  host_str : url -> option bytes;
  url_query : url -> option bytes;
  to_file_path : url -> option bytes;
}.

(** ** Tables *)

Record MetaRow := {
  r_name : bytes;
  r_version_identifier : bytes;
  r_source_release : Z;
  r_build_release : Z;
  r_architecture : bytes;
  r_summary : bytes;
  r_description : bytes;
  r_source_id : bytes;
  r_homepage : bytes;
  r_uri : option bytes;
  r_hash : option bytes;
  r_download_size : option Z;
}.

Record SnapshotRow := { singleton : Z; s_index_uri : bytes; s_sha256 : bytes; s_byte_size : Z }.

(** The columns [(package, license)], [(package, dependency)] and so on. *)
Abbreviation pairs := (gset (bytes * bytes)).

Record tables := {
  t_meta : gmap bytes MetaRow;
  t_licenses : pairs;
  t_dependencies : pairs;
  t_providers : pairs;
  t_conflicts : pairs;
  t_snapshot : option SnapshotRow;
}.

Inductive relation := Licenses | Dependencies | Providers | Conflicts.
#[global] Instance relation_kind_eq_dec : EqDecision relation.
Proof. solve_decision. Defined.

Definition rows (k : relation) (t : tables) : pairs :=
  match k with
  | Licenses => t_licenses t
  | Dependencies => t_dependencies t
  | Providers => t_providers t
  | Conflicts => t_conflicts t
  end.

Definition set_rows (k : relation) (s : pairs) (t : tables) : tables :=
  {| t_meta := t_meta t;
     t_licenses := if k is Licenses then s else t_licenses t;
     t_dependencies := if k is Dependencies then s else t_dependencies t;
     t_providers := if k is Providers then s else t_providers t;
     t_conflicts := if k is Conflicts then s else t_conflicts t;
     t_snapshot := t_snapshot t |}.

Definition set_meta (m : gmap bytes MetaRow) (t : tables) : tables :=
  {| t_meta := m; t_licenses := t_licenses t; t_dependencies := t_dependencies t;
     t_providers := t_providers t; t_conflicts := t_conflicts t; t_snapshot := t_snapshot t |}.

Definition set_snapshot (s : option SnapshotRow) (t : tables) : tables :=
  {| t_meta := t_meta t; t_licenses := t_licenses t; t_dependencies := t_dependencies t;
     t_providers := t_providers t; t_conflicts := t_conflicts t; t_snapshot := s |}.

(** ** Statements and transactions *)

(** The tables and, for each statement to come, whether it fails. *)
Definition conn : Type := tables * list bool.
Definition tx (A : Type) : Type := conn -> result DbError.t (A * conn).

#[global] Instance tx_ret : MRet tx := fun A a c => Ok (a, c).
#[global] Instance tx_bind : MBind tx := fun A B f m c =>
  match m c with Ok (a, c') => f a c' | Err e => Err e end.

Definition lift {A} (r : result DbError.t A) : tx A := fun c => a ← r; Ok (a, c).

Definition statement {A} (f : tables -> result DbError.t (A * tables)) : tx A := fun '(t, faults) =>
  match faults with
  | true :: _ => Err (DbError.Diesel Diesel.DatabaseError)
  | _ => p ← f t; Ok (p.1, (p.2, tail faults))
  end.

Definition update (f : tables -> tables) : tx unit := statement (fun t => Ok (tt, f t)).
Definition select {A} (f : tables -> A) : tx A := statement (fun t => Ok (f t, t)).

Fixpoint for_each {A} (f : A -> tx unit) (l : list A) : tx unit :=
  match l with
  | [] => mret tt
  | a :: l' => f a;; for_each f l'
  end.

(** [exec] of a closure without writes *)
Definition exec {A} (f : tx A) (c : conn) : result DbError.t A := p ← f c; Ok p.1.

(** [exclusive_transaction]: begin, commit, and roll back on an error. *)
Definition exclusive_tx {A} (f : tx A) (c : conn) : result DbError.t A * tables :=
  match (update id;; a ← f; update id;; mret a) c with
  | Ok (a, (t, _)) => (Ok a, t)
  | Err e => (Err e, c.1)
  end.

(** ** Snapshots *)

Section snapshot.
Context `{UrlOps}.

Record Snapshot := { index_uri : url; sha256 : bytes; byte_size : Z }.

Definition checked_snapshot_byte_size (s : Snapshot) : result DbError.t Z :=
  reject (DbError.SnapshotByteSizeOutOfRange MAX_SNAPSHOT_BYTE_SIZE (byte_size s)) when
    (MAX_SNAPSHOT_BYTE_SIZE <? byte_size s)%Z;;
  reject (DbError.SnapshotByteSizeOutOfRange MAX_SNAPSHOT_BYTE_SIZE (byte_size s)) when
    (I64_MAX <? byte_size s)%Z;;
  Ok (byte_size s).

Definition validate_scheme (u : url) : result DbError.t unit :=
  if bool_decide (scheme u = bstr "https") && bool_decide (is_Some (host_str u)) then Ok tt
  else if bool_decide (scheme u = bstr "file") && bool_decide (url_query u = None)
          && bool_decide (is_Some (to_file_path u)) then Ok tt
  else if bool_decide (scheme u = bstr "file") then
    Err (DbError.SnapshotIndexUriPolicy (bstr "file URI must be an absolute local path without a query"))
  else Err (DbError.SnapshotIndexUriPolicy (bstr "only absolute HTTPS and local file URIs are supported")).

Definition validate_snapshot (s : Snapshot) : result DbError.t Z :=
  let u := index_uri s in
  let uri_bytes := Z.of_nat (length (as_str u)) in
  reject (DbError.SnapshotIndexUriTooLong MAX_SNAPSHOT_INDEX_URI_BYTES uri_bytes) when
    (MAX_SNAPSHOT_INDEX_URI_BYTES <? uri_bytes)%Z;;
  reject (DbError.SnapshotIndexUriPolicy (bstr "embedded credentials are not allowed")) when
    (negb (bool_decide (username u = [])) || bool_decide (is_Some (password u)));;
  reject (DbError.SnapshotIndexUriPolicy (bstr "fragments are not allowed")) when
    (bool_decide (is_Some (fragment u)));;
  validate_scheme u;;
  reject DbError.InvalidSnapshotSha256 when
    (negb (length (sha256 s) =? 64)%nat || negb (forallb hash_byte (sha256 s)));;
  checked_snapshot_byte_size s.

Definition snapshot_new (u : url) (sha : bytes) (size : Z) : result DbError.t Snapshot :=
  let s := {| index_uri := u; sha256 := sha; byte_size := size |} in
  validate_snapshot s;;
  Ok s.

Definition decode_active_snapshot (stored : SnapshotRow) : result DbError.t Snapshot :=
  reject (DbError.InvalidSnapshotSingleton (singleton stored)) when
    (negb (singleton stored =? ACTIVE_SNAPSHOT_SINGLETON)%Z);;
  u ← ok_or (url_parse (s_index_uri stored)) DbError.ParseSnapshotIndexUri;
  reject (DbError.NegativeSnapshotByteSize (s_byte_size stored)) when (s_byte_size stored <? 0)%Z;;
  snapshot_new u (s_sha256 stored) (s_byte_size stored).

Definition active_snapshot_impl : tx (option Snapshot) :=
  row ← select t_snapshot;
  match row with
  | None => mret None
  | Some stored => s ← lift (decode_active_snapshot stored); mret (Some s)
  end.

Definition clear_active_snapshot_impl : tx unit := update (set_snapshot None).

(** The [CHECK] constraints of the table. *)
Definition snapshot_checks (r : SnapshotRow) : bool :=
  (singleton r =? 1)%Z
  && (1 <=? Z.of_nat (length (s_index_uri r)))%Z && (Z.of_nat (length (s_index_uri r)) <=? 8192)%Z
  && (length (s_sha256 r) =? 64)%nat && forallb hash_byte (s_sha256 r)
  && (0 <=? s_byte_size r)%Z && (s_byte_size r <=? 16777216)%Z.

Definition insert_active_snapshot_impl (s : Snapshot) (size : Z) : tx unit :=
  let row := {| singleton := ACTIVE_SNAPSHOT_SINGLETON; s_index_uri := as_str (index_uri s);
                s_sha256 := sha256 s; s_byte_size := size |} in
  statement (fun t =>
    reject (DbError.Diesel Diesel.UniqueViolation) when (bool_decide (is_Some (t_snapshot t)));;
    reject (DbError.Diesel Diesel.CheckViolation) when (negb (snapshot_checks row));;
    Ok (tt, set_snapshot (Some row) t)).
End snapshot.

(** ** Writing packages *)

Definition checked_meta_numbers (meta : Meta) : result DbError.t (Z * Z * option Z) :=
  reject (DbError.MetaIntegerOutOfRange (bstr "source_release") (source_release meta)) when
    (I32_MAX <? source_release meta)%Z;;
  reject (DbError.MetaIntegerOutOfRange (bstr "build_release") (build_release meta)) when
    (I32_MAX <? build_release meta)%Z;;
  match download_size meta with
  | None => Ok (source_release meta, build_release meta, None)
  | Some value =>
      reject (DbError.MetaIntegerOutOfRange (bstr "download_size") value) when (I64_MAX <? value)%Z;;
      Ok (source_release meta, build_release meta, Some value)
  end.

(** [ids.windows(2).any(|ids| ids[0] == ids[1])] *)
Fixpoint any_adjacent (ids : list bytes) : bool :=
  match ids with
  | a :: (b :: _) as tail => bool_decide (a = b) || any_adjacent tail
  | _ => false
  end.

Fixpoint check_all (packages : list (bytes * Meta)) : result DbError.t unit :=
  match packages with
  | [] => Ok tt
  | (_, meta) :: packages' => checked_meta_numbers meta;; check_all packages'
  end.

Definition validate_package_batch (packages : list (bytes * Meta)) : result DbError.t unit :=
  reject DbError.DuplicatePackageId when (any_adjacent (sort packages.*1));;
  check_all packages.

Definition new_meta (p : bytes * Meta) : result DbError.t (bytes * MetaRow) :=
  let '(package, meta) := p in
  numbers ← checked_meta_numbers meta;
  let '(source_release, build_release, download_size) := numbers in
  Ok (package, {|
    r_name := m_name meta; r_version_identifier := version_identifier meta;
    r_source_release := source_release; r_build_release := build_release;
    r_architecture := architecture meta; r_summary := summary meta; r_description := description meta;
    r_source_id := source_id meta; r_homepage := homepage meta; r_uri := uri meta; r_hash := hash meta;
    r_download_size := download_size |}).

(** The text of the rows of a package. *)
Definition texts (k : relation) (meta : Meta) : list bytes :=
  match k with
  | Licenses => licenses meta
  | Dependencies => StoneRelation.to_string <$> dependencies meta
  | Providers => StoneRelation.to_string <$> providers meta
  | Conflicts => StoneRelation.to_string <$> conflicts meta
  end.

Definition new_rows (k : relation) (packages : list (bytes * Meta)) : list (bytes * bytes) :=
  concat ((fun p => pair p.1 <$> texts k p.2) <$> packages).

(** [INSERT] into a table with a primary key *)
Fixpoint insert_all (l : list (bytes * MetaRow)) (m : gmap bytes MetaRow) : result DbError.t (gmap bytes MetaRow) :=
  match l with
  | [] => Ok m
  | (id, row) :: l' =>
      if bool_decide (is_Some (m !! id)) then Err (DbError.Diesel Diesel.UniqueViolation)
      else insert_all l' (<[id := row]> m)
  end.

Definition insert_meta (chunk : list (bytes * MetaRow)) : tx unit :=
  statement (fun t => m ← insert_all chunk (t_meta t); Ok (tt, set_meta m t)).

Module Filter.
Inductive t :=
  | Provider (provider : Relation)
  | Dependency (dependency : Relation)
  | Name (name : bytes)
  | Keyword (keyword : bytes).
End Filter.

Section sql.
Context `{Sqlite}.

(** [INSERT OR IGNORE], which does not ignore a missing parent *)
Definition insert_or_ignore (k : relation) (chunk : list (bytes * bytes)) : tx unit :=
  statement (fun t =>
    if foreign_keys && negb (forallb (fun p => bool_decide (is_Some (t_meta t !! p.1))) chunk)
    then Err (DbError.Diesel Diesel.ForeignKeyViolation)
    else Ok (tt, set_rows k (list_to_set chunk ∪ rows k t) t)).

Definition insert_rows (k : relation) (packages : list (bytes * Meta)) : tx unit :=
  for_each (insert_or_ignore k) (chunks (MAX_VARIABLE_NUMBER / 2) (new_rows k packages)).

Definition insert_chunk (packages : list (bytes * Meta)) : tx unit :=
  entries ← lift (try_map new_meta packages);
  for_each insert_meta (chunks (MAX_VARIABLE_NUMBER / 13) entries);;
  insert_rows Licenses packages;;
  insert_rows Dependencies packages;;
  insert_rows Providers packages;;
  insert_rows Conflicts packages.

Definition insert_packages_impl (packages : list (bytes * Meta)) : tx unit :=
  for_each insert_chunk (chunks PACKAGE_INSERT_CHUNK_SIZE packages).

Definition clear_packages_impl : tx unit :=
  update (set_rows Conflicts ∅);;
  update (set_rows Providers ∅);;
  update (set_rows Dependencies ∅);;
  update (set_rows Licenses ∅);;
  update (set_meta ∅).

(** [DELETE], with [ON DELETE CASCADE] *)
Definition keep_rows (chunk : list bytes) (s : pairs) : pairs :=
  if foreign_keys then filter (fun p => p.1 ∉ chunk) s else s.

Definition delete_packages (chunk : list bytes) (t : tables) : tables :=
  {| t_meta := filter (fun p => p.1 ∉ chunk) (t_meta t);
     t_licenses := keep_rows chunk (t_licenses t);
     t_dependencies := keep_rows chunk (t_dependencies t);
     t_providers := keep_rows chunk (t_providers t);
     t_conflicts := keep_rows chunk (t_conflicts t);
     t_snapshot := t_snapshot t |}.

Definition batch_remove_impl (packages : list bytes) : tx unit :=
  for_each (fun chunk => update (delete_packages chunk)) (chunks MAX_VARIABLE_NUMBER packages).

Definition wipe (c : conn) : result DbError.t unit * tables :=
  exclusive_tx (clear_active_snapshot_impl;; clear_packages_impl) c.

Definition batch_add (packages : list (bytes * Meta)) (c : conn) : result DbError.t unit * tables :=
  match validate_package_batch packages with
  | Err e => (Err e, c.1)
  | Ok _ =>
      exclusive_tx (clear_active_snapshot_impl;;
                    batch_remove_impl packages.*1;;
                    insert_packages_impl packages) c
  end.

Definition add_package (id : bytes) (meta : Meta) (c : conn) : result DbError.t unit * tables := batch_add [(id, meta)] c.

Definition replace_all (packages : list (bytes * Meta)) (c : conn) : result DbError.t unit * tables :=
  match validate_package_batch packages with
  | Err e => (Err e, c.1)
  | Ok _ =>
      exclusive_tx (clear_active_snapshot_impl;;
                    clear_packages_impl;;
                    insert_packages_impl packages) c
  end.

Definition replace_all_with_snapshot `{UrlOps} (packages : list (bytes * Meta)) (snapshot : Snapshot) (c : conn) :
    result DbError.t unit * tables :=
  match (validate_package_batch packages;; validate_snapshot snapshot) with
  | Err e => (Err e, c.1)
  | Ok snapshot_byte_size =>
      exclusive_tx (clear_active_snapshot_impl;;
                    clear_packages_impl;;
                    insert_packages_impl packages;;
                    insert_active_snapshot_impl snapshot snapshot_byte_size) c
  end.

Definition batch_remove (packages : list bytes) (c : conn) : result DbError.t unit * tables :=
  exclusive_tx (clear_active_snapshot_impl;; batch_remove_impl packages) c.

Definition remove_package (package : bytes) (c : conn) : result DbError.t unit * tables := batch_remove [package] c.

(** ** Reading *)

(** The rows of a relation for a package, in some order. *)
Definition belonging_to (k : relation) (package : bytes) (t : tables) : list bytes :=
  (scan (elements (filter (fun p => p.1 = package) (rows k t)))).*2.

(** [deserialize_as = String] and [TryFrom<String>] *)
Definition load_relation (text : bytes) : result DbError.t Relation :=
  map_err (fun _ => DbError.Diesel Diesel.DeserializationError) (from_name text).

Definition load_relations (k : relation) (package : bytes) : tx (list Relation) :=
  l ← select (belonging_to k package);
  rs ← lift (try_map load_relation l);
  mret (set_collect rs).

Definition meta_of_row (row : MetaRow) (ls : list bytes) (ds ps cs : list Relation) : Meta :=
  {| m_name := r_name row; version_identifier := r_version_identifier row;
     source_release := wrap 64 (r_source_release row); build_release := wrap 64 (r_build_release row);
     architecture := r_architecture row; summary := r_summary row; description := r_description row;
     source_id := r_source_id row; homepage := r_homepage row;
     licenses := ls; dependencies := ds; providers := ps; conflicts := cs;
     uri := r_uri row; hash := r_hash row; download_size := wrap 64 <$> r_download_size row |}.

Definition get_impl (package : bytes) : tx Meta :=
  found ← select (fun t => t_meta t !! package);
  row ← lift (ok_or found DbError.RowNotFound);
  ls ← select (belonging_to Licenses package);
  ds ← load_relations Dependencies package;
  ps ← load_relations Providers package;
  cs ← load_relations Conflicts package;
  mret (meta_of_row row ls ds ps cs).

Definition get (package : bytes) (c : conn) : result DbError.t Meta := exec (get_impl package) c.

(** [SELECT DISTINCT package FROM meta_providers WHERE provider = ...] *)
Definition provider_packages_impl (provider : Relation) : tx (list bytes) :=
  select (fun t => scan (elements
    (set_map fst (filter (fun p => p.2 = StoneRelation.to_string provider) (t_providers t)) : gset bytes))).

Definition provider_packages (provider : Relation) (c : conn) : result DbError.t (list bytes) :=
  exec (provider_packages_impl provider) c.

(** The rows a query selects, with those of the joined table. *)
Definition matches (filter : option Filter.t) (t : tables) (id : bytes) (row : MetaRow) : bool :=
  match filter with
  | None => true
  | Some (Filter.Provider p) => bool_decide ((id, StoneRelation.to_string p) ∈ t_providers t)
  | Some (Filter.Dependency d) => bool_decide ((id, StoneRelation.to_string d) ∈ t_dependencies t)
  | Some (Filter.Name name) => bool_decide (r_name row = name)
  | Some (Filter.Keyword keyword) =>
      let pattern := bstr "%" ++ keyword ++ bstr "%" in
      like pattern (r_name row) || like pattern (r_summary row)
  end.

Definition matching_rows (filter : option Filter.t) (t : tables) : list (bytes * MetaRow) :=
  scan (List.filter (fun e => matches filter t e.1 e.2) (map_to_list (t_meta t))).

(** [BTreeMap::get_mut] and an update in place *)
Definition map_adjust {V} (k : bytes) (f : V -> V) (m : list (bytes * V)) : list (bytes * V) :=
  match map_get k m with
  | Some v => map_insert k (f v) m
  | None => m
  end.

Definition push_license (l : bytes) (m : Meta) : Meta :=
  {| m_name := m_name m; version_identifier := version_identifier m; source_release := source_release m;
     build_release := build_release m; architecture := architecture m; summary := summary m;
     description := description m; source_id := source_id m; homepage := homepage m;
     licenses := licenses m ++ [l]; dependencies := dependencies m; providers := providers m;
     conflicts := conflicts m; uri := uri m; hash := hash m; download_size := download_size m |}.

Definition insert_relation (k : relation) (r : Relation) (m : Meta) : Meta :=
  {| m_name := m_name m; version_identifier := version_identifier m; source_release := source_release m;
     build_release := build_release m; architecture := architecture m; summary := summary m;
     description := description m; source_id := source_id m; homepage := homepage m;
     licenses := licenses m;
     dependencies := if k is Dependencies then set_insert r (dependencies m) else dependencies m;
     providers := if k is Providers then set_insert r (providers m) else providers m;
     conflicts := if k is Conflicts then set_insert r (conflicts m) else conflicts m;
     uri := uri m; hash := hash m; download_size := download_size m |}.

Definition merge_row (k : relation) (entries : list (bytes * Meta)) (row : bytes * bytes) :
    result DbError.t (list (bytes * Meta)) :=
  match k with
  | Licenses => Ok (map_adjust row.1 (push_license row.2) entries)
  | _ => r ← load_relation row.2; Ok (map_adjust row.1 (insert_relation k r) entries)
  end.

(** [try_for_each] *)
Fixpoint try_fold {A B} (f : A -> B -> result DbError.t A) (a : A) (l : list B) : result DbError.t A :=
  match l with
  | [] => Ok a
  | b :: l' => a' ← f a b; try_fold f a' l'
  end.

Definition merge_rows (k : relation) (chunk : list bytes) (entries : list (bytes * Meta)) : tx (list (bytes * Meta)) :=
  l ← select (fun t => scan (elements (filter (fun p => p.1 ∈ chunk) (rows k t))));
  lift (try_fold (merge_row k) entries l).

Fixpoint merge_chunks (l : list (list bytes)) (entries : list (bytes * Meta)) : tx (list (bytes * Meta)) :=
  match l with
  | [] => mret entries
  | chunk :: l' =>
      e1 ← merge_rows Licenses chunk entries;
      e2 ← merge_rows Dependencies chunk e1;
      e3 ← merge_rows Providers chunk e2;
      e4 ← merge_rows Conflicts chunk e3;
      merge_chunks l' e4
  end.

Definition query_impl (filter : option Filter.t) : tx (list (bytes * Meta)) :=
  found ← select (matching_rows filter);
  let entries := map_collect ((fun e => (e.1, meta_of_row e.2 [] [] [] [])) <$> found) in
  merge_chunks (chunks MAX_VARIABLE_NUMBER entries.*1) entries.

Definition query (filter : option Filter.t) (c : conn) : result DbError.t (list (bytes * Meta)) :=
  exec (query_impl filter) c.

Definition package_ids_impl : tx (list bytes) := select (fun t => set_collect (scan (map_to_list (t_meta t)).*1)).

Definition package_ids (c : conn) : result DbError.t (list bytes) := exec package_ids_impl c.

Definition file_hashes (c : conn) : result DbError.t (list bytes) :=
  exec (select (fun t => set_collect (omap r_hash (scan (map_to_list (t_meta t)).*2)))) c.

(** The queries of repositories: the result with the snapshot from one transaction. *)
Definition with_active_snapshot `{UrlOps} {A} (f : tx A) (c : conn) : result DbError.t (option Snapshot * A) :=
  exec (update id;; s ← active_snapshot_impl; a ← f; update id;; mret (s, a)) c.

Definition found {A} (f : tx A) : tx (option A) := fun c =>
  match f c with
  | Ok (a, c') => Ok (Some a, c')
  | Err DbError.RowNotFound => Ok (None, (c.1, tail c.2))
  | Err e => Err e
  end.

Definition get_with_active_snapshot `{UrlOps} (package : bytes) (c : conn) := with_active_snapshot (found (get_impl package)) c.
Definition provider_packages_with_active_snapshot `{UrlOps} (provider : Relation) (c : conn) :=
  with_active_snapshot (provider_packages_impl provider) c.
Definition query_with_active_snapshot `{UrlOps} (filter : option Filter.t) (c : conn) := with_active_snapshot (query_impl filter) c.
Definition package_ids_with_active_snapshot `{UrlOps} (c : conn) := with_active_snapshot package_ids_impl c.
Definition active_snapshot `{UrlOps} (c : conn) : result DbError.t (option Snapshot) := exec active_snapshot_impl c.
End sql.
