(* ===== verification/MetaDbSpec.v ===== *)
(** * What the metadata database stores

    The tables of [MetaDb] represent a map from package ids to metadata.  A program of
    statements is specified by [runs]: whatever statements fail, it ends with the
    outcome it promises or with the error of a failed statement. *)

From S2P Require Import Prelude Ordered StoneRelation PackageMeta SqlDb MetaDb.

(** ** Programs of statements *)

Definition runs {A} (f : tx A) (t : tables) (P : A -> tables -> Prop) : Prop :=
  forall faults,
    match f (t, faults) with
    | Ok (a, (t', faults')) => P a t' /\ (true ∈ faults' -> true ∈ faults)
    | Err e => e = DbError.Diesel Diesel.DatabaseError /\ true ∈ faults
    end.

Lemma runs_ret {A} (a : A) t (P : A -> tables -> Prop) : P a t -> runs (mret a) t P.
Proof. by intros ? faults. Qed.

Lemma runs_mono {A} (f : tx A) t (P Q : A -> tables -> Prop) :
  runs f t P -> (forall a t', P a t' -> Q a t') -> runs f t Q.
Proof. intros Hf HPQ faults. specialize (Hf faults). case_match; [|done]. destruct a as [a [t' fs]]. naive_solver. Qed.

Lemma runs_bind {A B} (f : tx A) (g : A -> tx B) t P Q :
  runs f t P -> (forall a t', P a t' -> runs (g a) t' Q) -> runs (f ≫= g) t Q.
Proof.
  intros Hf Hg faults. specialize (Hf faults). unfold mbind, tx_bind.
  destruct (f (t, faults)) as [[a [t' fs]]|e]; [|done]. destruct Hf as [HP Hs].
  specialize (Hg a t' HP fs). destruct (g a (t', fs)) as [[b [t'' fs']]|e]; naive_solver.
Qed.

Lemma runs_statement {A} (f : tables -> result DbError.t (A * tables)) t a t' (P : A -> tables -> Prop) :
  f t = Ok (a, t') -> P a t' -> runs (statement f) t P.
Proof.
  intros Hf HP faults. unfold statement. destruct faults as [|[] fs]; cbn.
  - rewrite Hf. done.
  - split; [done|left].
  - rewrite Hf. cbn. split; [done|]. intros. by right.
Qed.

Lemma runs_update f t (P : unit -> tables -> Prop) : P tt (f t) -> runs (update f) t P.
Proof. by eapply runs_statement. Qed.

Lemma runs_select {A} (f : tables -> A) t (P : A -> tables -> Prop) : P (f t) t -> runs (select f) t P.
Proof. by eapply runs_statement. Qed.

Lemma runs_lift {A} (r : result DbError.t A) a t (P : A -> tables -> Prop) : r = Ok a -> P a t -> runs (lift r) t P.
Proof. intros -> HP faults. done. Qed.

(** Deterministic first steps of a sequence. *)
Lemma runs_then_update {B} f (g : tx B) t Q : runs g (f t) Q -> runs (update f;; g) t Q.
Proof. intros Hg. eapply runs_bind; [by apply (runs_update f t (fun _ t' => t' = f t))|]. by intros [] t' ->. Qed.

Lemma runs_then_select {A B} (f : tables -> A) (g : A -> tx B) t Q : runs (g (f t)) t Q -> runs (select f ≫= g) t Q.
Proof. intros Hg. eapply runs_bind; [by apply (runs_select f t (fun a t' => a = f t /\ t' = t))|]. by intros a t' [-> ->]. Qed.

Lemma runs_then_lift {A B} (r : result DbError.t A) a (g : A -> tx B) t Q : r = Ok a -> runs (g a) t Q -> runs (lift r ≫= g) t Q.
Proof. intros Hr Hg. eapply runs_bind; [by apply (runs_lift r a t (fun a' t' => a' = a /\ t' = t))|]. by intros a' t' [-> ->]. Qed.

(** A loop, by an invariant over what it has done. *)
Lemma runs_for_each {A} (f : A -> tx unit) (I : list A -> tables -> Prop) l t (P : unit -> tables -> Prop) :
  I [] t ->
  (forall d a rest t', l = d ++ a :: rest -> I d t' -> runs (f a) t' (fun _ => I (d ++ [a]))) ->
  (forall t', I l t' -> P tt t') ->
  runs (for_each f l) t P.
Proof.
  intros HI Hf HP. assert (forall l' d t', l = d ++ l' -> I d t' -> runs (for_each f l') t' P) as H; [|by apply (H l [])].
  induction l' as [|a l' IH]; intros d t' E Hd; cbn [for_each].
  - apply runs_ret, HP. rewrite app_nil_r in E. by subst.
  - eapply runs_bind; [by apply (Hf d a l')|]. intros [] t'' Hd'. apply (IH (d ++ [a])); [|done]. by rewrite <- app_assoc.
Qed.

Lemma exclusive_tx_spec {A} (f : tx A) t faults P :
  runs f t P ->
  match exclusive_tx f (t, faults) with
  | (Ok a, t') => P a t'
  | (Err e, t') => t' = t /\ e = DbError.Diesel Diesel.DatabaseError /\ true ∈ faults
  end.
Proof.
  intros Hf. assert (runs (update id;; a ← f; update id;; mret a) t P) as Hr.
  { apply runs_then_update. eapply runs_bind; [exact Hf|]. intros a t' HP. by apply runs_then_update, runs_ret. }
  specialize (Hr faults). unfold exclusive_tx. destruct ((update id;; _) (t, faults)) as [[a [t' fs]]|e]; naive_solver.
Qed.

(** ** Slices *)

Lemma chunk_sizes :
  (0 < MAX_VARIABLE_NUMBER)%nat /\ (0 < MAX_VARIABLE_NUMBER / 2)%nat /\ (0 < MAX_VARIABLE_NUMBER / 13)%nat
  /\ (0 < PACKAGE_INSERT_CHUNK_SIZE)%nat.
Proof. rewrite <- !Nat.ltb_lt. vm_compute. done. Qed.

Lemma NoDup_filter_keys {A B} (g : A * B -> bool) l : NoDup l.*1 -> NoDup (List.filter g l).*1.
Proof.
  induction l as [|[a b] l IH]; cbn; [done|]. intros [Ha Hl]%NoDup_cons. destruct (g (a, b)); cbn; [|auto].
  constructor; [|auto]. intros Hin. apply Ha. apply list_elem_of_fmap in Hin as (y & -> & Hy).
  rewrite list_elem_of_In, filter_In, <- list_elem_of_In in Hy. apply list_elem_of_fmap_2. tauto.
Qed.

Lemma any_adjacent_sorted (l : list bytes) : ascending l -> any_adjacent l = false -> NoDup l.
Proof.
  induction 1 as [|a l Hl IH Ha]; [constructor|]. destruct l as [|b l]; [intros _; apply NoDup_singleton|].
  cbn [any_adjacent]. rewrite orb_false_iff, bool_decide_eq_false. intros [Hab Hl']. constructor; [|by apply IH].
  rewrite elem_of_cons. intros [-> |Hin]; [done|]. inversion Hl as [|? ? _ Hb]; subst. rewrite Forall_forall in Ha, Hb.
  specialize (Hb a Hin). assert (cmp a b <> Gt) as Hab' by (apply Ha; left).
  destruct (cmp a b) eqn:E; [by apply cmp_eq_iff in E|by apply cmp_lt_gt in E|done].
Qed.

(** ** The stored map *)

Record storable (m : Meta) : Prop := {
  so_source : (0 <= source_release m <= I32_MAX)%Z;
  so_build : (0 <= build_release m <= I32_MAX)%Z;
  so_size n : download_size m = Some n -> (0 <= n <= I64_MAX)%Z;
  so_dependencies : sorted (dependencies m);
  so_providers : sorted (providers m);
  so_conflicts : sorted (conflicts m);
  so_valid r : r ∈ dependencies m ++ providers m ++ conflicts m -> valid_target (rel_name r);
}.

Definition row_of (m : Meta) : MetaRow :=
  {| r_name := m_name m; r_version_identifier := version_identifier m; r_source_release := source_release m;
     r_build_release := build_release m; r_architecture := architecture m; r_summary := summary m;
     r_description := description m; r_source_id := source_id m; r_homepage := homepage m; r_uri := uri m;
     r_hash := hash m; r_download_size := download_size m |}.

Abbreviation view := (gmap bytes Meta).

Record stores (t : tables) (v : view) : Prop := {
  st_meta : t_meta t = row_of <$> v;
  st_rows k id x : (id, x) ∈ rows k t <-> exists m, v !! id = Some m /\ x ∈ texts k m;
  st_storable id m : v !! id = Some m -> storable m;
}.

(** What a read returns for a stored package: its licences are a set. *)
Definition stored_as (m m' : Meta) : Prop :=
  m' = meta_of_row (row_of m) (licenses m') (dependencies m) (providers m) (conflicts m)
  /\ NoDup (licenses m') /\ forall l, l ∈ licenses m' <-> l ∈ licenses m.

Lemma meta_of_row_of m : storable m -> meta_of_row (row_of m) (licenses m) (dependencies m) (providers m) (conflicts m) = m.
Proof.
  intros [Hs Hb Hd _ _ _ _]. destruct m as [? ? sr br ? ? ? ? ? ? ? ? ? ? ? ds]. unfold meta_of_row, row_of. cbn in *.
  assert (forall z, (0 <= z <= I64_MAX)%Z -> wrap 64 z = z) as Hw by (intros z Hz; apply wrap_small; unfold I64_MAX, in_width in *; lia).
  rewrite !Hw by (unfold I32_MAX, I64_MAX in *; lia). f_equal. destruct ds as [n|]; [|done]. cbn. by rewrite Hw by auto.
Qed.

(** ** Writing *)

Lemma checked_numbers_ok m : storable m -> checked_meta_numbers m = Ok (source_release m, build_release m, download_size m).
Proof.
  intros [Hs Hb Hd _ _ _ _]. unfold checked_meta_numbers.
  rewrite (proj2 (Z.ltb_ge _ _)) by lia. cbn. rewrite (proj2 (Z.ltb_ge _ _)) by lia. cbn.
  destruct (download_size m) as [n|]; [|done]. specialize (Hd n eq_refl). rewrite (proj2 (Z.ltb_ge _ _)) by lia. done.
Qed.

Lemma new_meta_ok id m : storable m -> new_meta (id, m) = Ok (id, row_of m).
Proof. intros Hm. cbn [new_meta]. by rewrite checked_numbers_ok. Qed.

Lemma try_map_new_meta ps :
  (forall p, p ∈ ps -> storable p.2) -> try_map new_meta ps = Ok ((fun p => (p.1, row_of p.2)) <$> ps).
Proof.
  induction ps as [|[id m] ps IH]; intros Hs; cbn [try_map]; [done|].
  rewrite new_meta_ok by (apply (Hs (id, m)); left). cbn. rewrite IH; [done|]. intros p Hp. apply Hs. by right.
Qed.

Lemma insert_all_ok l : forall m,
  NoDup l.*1 -> (forall id, id ∈ l.*1 -> m !! id = None) -> insert_all l m = Ok (list_to_map l ∪ m).
Proof.
  induction l as [|[id row] l IH]; intros m Hd Hm; cbn [insert_all].
  - cbn. by rewrite (left_id_L ∅ (∪)).
  - cbn in Hd. apply NoDup_cons in Hd as [Hn Hd]. rewrite bool_decide_false by (rewrite Hm by left; by intros []).
    rewrite IH; [|done|].
    + cbn. f_equal. rewrite <- insert_union_l. symmetry. apply insert_union_r. by apply not_elem_of_list_to_map_1.
    + intros id' Hin. rewrite lookup_insert_ne by set_solver. apply Hm. by right.
Qed.

Lemma insert_metas_runs l t :
  NoDup (concat l).*1 -> (forall id, id ∈ (concat l).*1 -> t_meta t !! id = None) ->
  runs (for_each insert_meta l) t (fun _ t' => t' = set_meta (list_to_map (concat l) ∪ t_meta t) t).
Proof.
  intros Hd Hm. apply (runs_for_each _ (fun d t' => t' = set_meta (list_to_map (concat d) ∪ t_meta t) t)).
  - destruct t. cbn. by rewrite (left_id_L ∅ (∪)).
  - intros d a rest t' -> ->. rewrite concat_app in Hd, Hm. cbn [concat] in Hd, Hm. rewrite !fmap_app in Hd, Hm.
    apply NoDup_app in Hd as (Hd1 & Hd2 & Hd3). apply NoDup_app in Hd3 as (Hd4 & Hd5 & Hd6).
    eapply runs_statement.
    + rewrite insert_all_ok; [reflexivity|done|]. intros id Hid. cbn. apply lookup_union_None. split.
      * apply not_elem_of_list_to_map_1. intros Hin. apply (Hd2 id Hin). set_solver.
      * apply Hm. set_solver.
    + cbn. unfold set_meta. cbn. f_equal. rewrite concat_app, list_to_map_app. cbn. rewrite app_nil_r.
      rewrite (assoc_L (∪)). f_equal. apply map_union_comm, map_disjoint_list_to_map_l.
      apply Forall_forall. intros [id x] Hin. cbn. apply not_elem_of_list_to_map_1. intros Hin'.
      apply (Hd2 id Hin'). apply elem_of_app. left. apply list_elem_of_fmap. by exists (id, x).
  - done.
Qed.

Lemma rows_set_rows k k' s t : rows k (set_rows k' s t) = if decide (k = k') then s else rows k t.
Proof. by destruct k, k'. Qed.

Lemma elem_of_new_rows k ps id x : (id, x) ∈ new_rows k ps <-> exists m, (id, m) ∈ ps /\ x ∈ texts k m.
Proof.
  unfold new_rows. rewrite elem_of_concat. split.
  - intros (l & Hl & Hx). apply list_elem_of_fmap in Hl as ([id' m] & -> & Hp).
    apply list_elem_of_fmap in Hx as (y & [= -> ->] & Hy). eauto.
  - intros (m & Hm & Hx). eexists. split; [apply list_elem_of_fmap; exists (id, m); done|].
    apply list_elem_of_fmap. eauto.
Qed.

(** New packages next to the stored ones. *)
Lemma stores_insert t t' v ps :
  NoDup ps.*1 -> (forall id, id ∈ ps.*1 -> v !! id = None) -> (forall p, p ∈ ps -> storable p.2) -> stores t v ->
  t_meta t' = list_to_map ((fun p => (p.1, row_of p.2)) <$> ps) ∪ t_meta t ->
  (forall k, rows k t' = list_to_set (new_rows k ps) ∪ rows k t) ->
  stores t' (list_to_map ps ∪ v).
Proof.
  intros Hd Hn Hs [Hm Hr Hv] Em Er.
  assert (forall id m, (list_to_map ps ∪ v) !! id = Some m <-> (id, m) ∈ ps \/ v !! id = Some m) as Hl.
  { intros id m. rewrite lookup_union_Some; [by rewrite elem_of_list_to_map|].
    apply map_disjoint_list_to_map_l, Forall_forall. intros [id' m'] Hin. apply Hn, list_elem_of_fmap. by exists (id', m'). }
  split.
  - rewrite Em, Hm, map_fmap_union. f_equal. apply (list_to_map_fmap row_of ps).
  - intros k id x. rewrite Er, elem_of_union, elem_of_list_to_set, elem_of_new_rows, Hr. setoid_rewrite Hl. naive_solver.
  - intros id m [Hin|Hin]%Hl; [by apply (Hs (id, m))|by eapply Hv].
Qed.

Section sql.
Context `{Sqlite}.

Lemma insert_rows_runs k ps t :
  (forall id, id ∈ ps.*1 -> is_Some (t_meta t !! id)) ->
  runs (insert_rows k ps) t (fun _ t' => t' = set_rows k (list_to_set (new_rows k ps) ∪ rows k t) t).
Proof.
  intros Hp. unfold insert_rows.
  apply (runs_for_each _ (fun d t' => t' = set_rows k (list_to_set (concat d) ∪ rows k t) t)).
  - cbn. rewrite (left_id_L ∅ (∪)). by destruct t, k.
  - intros d a rest t' E ->. eapply runs_statement.
    + rewrite (proj2 (forallb_forall _ a)), andb_false_r; [reflexivity|]. intros [id x] Hin.
      rewrite bool_decide_eq_true. cbn. assert ((id, x) ∈ new_rows k ps) as Hr.
      { rewrite <- (chunks_concat (MAX_VARIABLE_NUMBER / 2) (new_rows k ps)), E, concat_app by apply chunk_sizes. cbn.
        rewrite <- list_elem_of_In in Hin. rewrite !elem_of_app. auto. }
      clear E. apply elem_of_concat in Hr as (l & Hl & Hx). apply list_elem_of_fmap in Hl as ([id' m] & -> & Hm).
      apply list_elem_of_fmap in Hx as (y & [= -> ->] & _). apply Hp, list_elem_of_fmap. by exists (id', m).
    + clear E. cbn beta. destruct t, k; cbn; unfold set_rows; cbn; f_equal; rewrite concat_app, list_to_set_app_L; cbn;
        rewrite app_nil_r; set_solver.
  - intros t' ->. by rewrite chunks_concat by apply chunk_sizes.
Qed.

Lemma insert_chunk_runs ps t v :
  NoDup ps.*1 -> (forall id, id ∈ ps.*1 -> v !! id = None) -> (forall p, p ∈ ps -> storable p.2) -> stores t v ->
  runs (insert_chunk ps) t (fun _ t' => stores t' (list_to_map ps ∪ v) /\ t_snapshot t' = t_snapshot t).
Proof.
  intros Hd Hn Hs Hv. unfold insert_chunk. set (es := (fun p => (p.1, row_of p.2)) <$> ps).
  assert (es.*1 = ps.*1) as Ees by (unfold es; rewrite <- list_fmap_compose; by apply list_fmap_ext).
  eapply runs_then_lift; [by apply try_map_new_meta|]. fold es. eapply runs_bind.
  { apply insert_metas_runs; rewrite chunks_concat, Ees by apply chunk_sizes; [done|]. intros id Hid.
    rewrite (st_meta _ _ Hv), lookup_fmap, Hn; done. }
  intros [] t1 E1. rewrite chunks_concat in E1 by apply chunk_sizes.
  assert (forall id, id ∈ ps.*1 -> is_Some (t_meta t1 !! id)) as Hp.
  { intros id Hid. subst t1. cbn. rewrite <- Ees in Hid. apply list_elem_of_fmap in Hid as ([id' r] & -> & Hin).
    exists r. apply lookup_union_Some_l, elem_of_list_to_map; [by rewrite Ees|done]. }
  eapply runs_bind; [by apply insert_rows_runs|]. intros [] t2 E2.
  eapply runs_bind; [apply insert_rows_runs; by subst t2|]. intros [] t3 E3.
  eapply runs_bind; [apply insert_rows_runs; by subst t3 t2|]. intros [] t4 E4.
  eapply runs_mono; [apply insert_rows_runs; by subst t4 t3 t2|]. intros [] t5 E5. split.
  - apply (stores_insert t); [done..| |].
    + subst. done.
    + intros k. subst. rewrite !rows_set_rows. by destruct k.
  - by subst.
Qed.

Lemma insert_packages_runs ps t v :
  NoDup ps.*1 -> (forall id, id ∈ ps.*1 -> v !! id = None) -> (forall p, p ∈ ps -> storable p.2) -> stores t v ->
  runs (insert_packages_impl ps) t (fun _ t' => stores t' (list_to_map ps ∪ v) /\ t_snapshot t' = t_snapshot t).
Proof.
  intros Hd Hn Hs Hv. unfold insert_packages_impl.
  apply (runs_for_each _ (fun d t' => stores t' (list_to_map (concat d) ∪ v) /\ t_snapshot t' = t_snapshot t)).
  - cbn. by rewrite (left_id_L ∅ (∪)).
  - intros d a rest t' E [Hv' Hsn]. assert (ps = concat d ++ a ++ concat rest) as ->.
    { rewrite <- (chunks_concat PACKAGE_INSERT_CHUNK_SIZE ps), E, concat_app by apply chunk_sizes. done. }
    clear E. rewrite !fmap_app in Hd, Hn. apply NoDup_app in Hd as (_ & Hd2 & Hd3). apply NoDup_app in Hd3 as (Hda & _ & _).
    assert (forall id, id ∈ a.*1 -> (list_to_map (concat d) : view) !! id = None) as Ha.
    { intros id Hid. apply not_elem_of_list_to_map_1. intros Hin. apply (Hd2 id Hin). apply elem_of_app. by left. }
    eapply runs_mono; [apply (insert_chunk_runs a t' (list_to_map (concat d) ∪ v) Hda)|].
    + intros id Hid. apply lookup_union_None. split; [by apply Ha|]. apply Hn. rewrite !elem_of_app. auto.
    + intros p Hp. apply Hs. rewrite !elem_of_app. auto.
    + exact Hv'.
    + intros [] t'' [Hv'' Hs'']. split; [|congruence]. rewrite concat_app, list_to_map_app. cbn. rewrite app_nil_r.
      rewrite <- (map_union_comm (list_to_map a)), <- (assoc_L (∪)); [done|].
      apply map_disjoint_list_to_map_l, Forall_forall. intros [id m] Hin. apply Ha, list_elem_of_fmap. by exists (id, m).
  - intros t'. by rewrite chunks_concat by apply chunk_sizes.
Qed.

Lemma clear_packages_runs t :
  runs clear_packages_impl t (fun _ t' => stores t' ∅ /\ t_snapshot t' = t_snapshot t).
Proof.
  unfold clear_packages_impl. do 4 apply runs_then_update.
  apply runs_update. split; [|done]. split; cbn.
  - by rewrite fmap_empty.
  - intros k id x. assert (rows k (set_meta ∅ (set_rows Licenses ∅ (set_rows Dependencies ∅ (set_rows Providers ∅ (set_rows Conflicts ∅ t))))) = ∅)
      as -> by (by destruct k). setoid_rewrite lookup_empty. set_solver.
  - intros id m. by rewrite lookup_empty.
Qed.

Lemma clear_snapshot_runs t v :
  stores t v -> runs clear_active_snapshot_impl t (fun _ t' => stores t' v /\ t_snapshot t' = None).
Proof. intros [Hm Hr Hs]. apply runs_update. split; [|done]. by split. Qed.

Lemma delete_stores chunk t v :
  foreign_keys = true -> stores t v -> stores (delete_packages chunk t) (filter (fun p => p.1 ∉ chunk) v).
Proof.
  intros Hf [Hm Hr Hs].
  assert (forall id m, filter (fun p => p.1 ∉ chunk) v !! id = Some m <-> v !! id = Some m /\ id ∉ chunk) as Hl.
  { intros id m. apply map_lookup_filter_Some. }
  split.
  - cbn. rewrite Hm. by rewrite map_filter_fmap.
  - intros k id x. assert (rows k (delete_packages chunk t) = filter (fun p => p.1 ∉ chunk) (rows k t)) as ->.
    { destruct k; cbn; unfold keep_rows; by rewrite Hf. }
    rewrite elem_of_filter, Hr. setoid_rewrite Hl. cbn. naive_solver.
  - intros id m [Hin _]%Hl. by eapply Hs.
Qed.

Lemma batch_remove_runs ids t v :
  foreign_keys = true -> stores t v ->
  runs (batch_remove_impl ids) t (fun _ t' => stores t' (filter (fun p => p.1 ∉ ids) v) /\ t_snapshot t' = t_snapshot t).
Proof.
  intros Hf Hv. unfold batch_remove_impl.
  apply (runs_for_each _ (fun d t' => stores t' (filter (fun p => p.1 ∉ concat d) v) /\ t_snapshot t' = t_snapshot t)).
  - split; [|done]. rewrite map_filter_id; [done|]. intros. apply not_elem_of_nil.
  - intros d a rest t' _ [Hv' Hs]. apply runs_update. split; [|done].
    assert (filter (fun p => p.1 ∉ concat (d ++ [a])) v = filter (fun p => p.1 ∉ a) (filter (fun p => p.1 ∉ concat d) v)) as ->.
    { rewrite map_filter_filter. apply map_filter_ext. intros id m _. rewrite concat_app. cbn. set_solver. }
    by apply delete_stores.
  - intros t'. by rewrite chunks_concat by apply chunk_sizes.
Qed.

(** ** Reading *)

Context {SL : SqliteLaws _}.

Lemma belonging_spec k id t v :
  stores t v -> NoDup (belonging_to k id t)
  /\ forall x, x ∈ belonging_to k id t <-> exists m, v !! id = Some m /\ x ∈ texts k m.
Proof.
  intros Hv. unfold belonging_to. set (l := elements _). assert (NoDup l) as Hd by apply NoDup_elements.
  assert (forall p, p ∈ l <-> p.1 = id /\ p ∈ rows k t) as Hl by (intros p; unfold l; by rewrite elem_of_elements, elem_of_filter).
  rewrite (scan_perm l). split.
  - apply NoDup_fmap_2_strong; [|done]. intros [a x] [b y] [Ha _]%Hl [Hb _]%Hl E. cbn in *. by subst.
  - intros x. rewrite <- (st_rows _ _ Hv k id x), list_elem_of_fmap. setoid_rewrite (scan_perm l). setoid_rewrite Hl. split; [intros ([a y] & -> & <- & Hin); done|]. intros Hin. by exists (id, x).
Qed.

Lemma load_relation_text r : valid_target (rel_name r) -> load_relation (StoneRelation.to_string r) = Ok r.
Proof. intros Hr. unfold load_relation. by rewrite from_name_typed. Qed.

Lemma try_map_load rs :
  (forall r, r ∈ rs -> valid_target (rel_name r)) -> try_map load_relation (StoneRelation.to_string <$> rs) = Ok rs.
Proof.
  induction rs as [|r rs IH]; intros Hv; [done|]. cbn [fmap list_fmap try_map].
  rewrite load_relation_text by (apply Hv; left). cbn. rewrite IH; [done|]. intros r' Hr'. apply Hv. by right.
Qed.

(** The list of relations of a package a table column holds. *)
Definition related (k : relation) (m : Meta) : list Relation :=
  match k with
  | Licenses => []
  | Dependencies => dependencies m
  | Providers => providers m
  | Conflicts => conflicts m
  end.

Lemma related_texts k m : k <> Licenses -> texts k m = StoneRelation.to_string <$> related k m.
Proof using Type. by destruct k. Qed.

Lemma related_sorted k m : storable m -> sorted (related k m).
Proof using Type. intros []. destruct k; [constructor|done..]. Qed.

Lemma related_valid k m r : storable m -> r ∈ related k m -> valid_target (rel_name r).
Proof using Type. intros [] Hr. apply so_valid0. rewrite !elem_of_app. destruct k; cbn in Hr; [by apply elem_of_nil in Hr|auto..]. Qed.

(** Texts that are those of a package's relations, in any order, load as its relations. *)
Lemma texts_load k m xs :
  k <> Licenses -> storable m -> (forall x, x ∈ xs <-> x ∈ texts k m) ->
  exists rs, xs = StoneRelation.to_string <$> rs /\ (forall r, r ∈ rs <-> r ∈ related k m) /\ set_collect rs = related k m
             /\ (forall r, r ∈ rs -> valid_target (rel_name r)).
Proof using Type.
  intros Hk Hm Hx. rewrite related_texts in Hx by done.
  assert (exists rs, xs = StoneRelation.to_string <$> rs) as [rs ->].
  { assert (forall x, x ∈ xs -> exists r, x = StoneRelation.to_string r) as He.
    { intros x Hin. apply Hx, list_elem_of_fmap in Hin as (r & -> & _). eauto. }
    clear Hx. induction xs as [|x xs IH]; [by exists []|]. destruct (He x) as [r ->]; [left|].
    destruct IH as [rs ->]; [intros; apply He; by right|]. by exists (r :: rs). }
  assert (forall r, r ∈ rs <-> r ∈ related k m) as Hr.
  { intros r. specialize (Hx (StoneRelation.to_string r)). by rewrite !(list_elem_of_fmap_inj StoneRelation.to_string) in Hx. }
  exists rs. split_and!; [done|done| |].
  - apply sorted_ext; [apply set_collect_sorted|by apply related_sorted|]. intros r. by rewrite elem_of_set_collect.
  - intros r Hin. apply Hr in Hin. by eapply related_valid.
Qed.

Lemma load_relations_runs k id t v m :
  k <> Licenses -> stores t v -> v !! id = Some m ->
  runs (load_relations k id) t (fun rs t' => rs = related k m /\ t' = t).
Proof.
  intros Hk Hv Hm. unfold load_relations. destruct (belonging_spec k id t v Hv) as [_ Hb].
  destruct (texts_load k m (belonging_to k id t)) as (rs & E & _ & Hc & Hvr); [done|by eapply st_storable| |].
  { intros x. rewrite Hb. split; [intros (m' & Hm' & Hx); by simplify_eq|eauto]. }
  apply runs_then_select. eapply runs_then_lift; [rewrite E; by apply try_map_load|]. by apply runs_ret.
Qed.

Lemma get_runs id t v m :
  stores t v -> v !! id = Some m -> runs (get_impl id) t (fun m' t' => stored_as m m' /\ t' = t).
Proof.
  intros Hv Hm. unfold get_impl.
  apply runs_then_select. apply (runs_then_lift _ (row_of m)); [by rewrite (st_meta _ _ Hv), lookup_fmap, Hm|].
  apply runs_then_select. do 3 (eapply runs_bind; [by eapply load_relations_runs|]; intros ? t' [-> ->]).
  apply runs_ret. split; [|done]. split; [done|]. cbn. destruct (belonging_spec Licenses id t v Hv) as [Hd Hb].
  split; [done|]. intros l. rewrite Hb. cbn. split; [intros (m' & Hm' & Hx); by simplify_eq|eauto].
Qed.

Lemma get_absent id t v faults :
  stores t v -> v !! id = None ->
  get_impl id (t, faults) = Err DbError.RowNotFound
  \/ get_impl id (t, faults) = Err (DbError.Diesel Diesel.DatabaseError) /\ true ∈ faults.
Proof using Type.
  intros Hv Hn. unfold get_impl, select, statement, mbind, tx_bind. cbn.
  assert (t_meta t !! id = None) as -> by (by rewrite (st_meta _ _ Hv), lookup_fmap, Hn).
  destruct faults as [|[] fs]; [by left|right; split; [done|left]|by left].
Qed.

Lemma provider_packages_runs p t v :
  stores t v ->
  runs (provider_packages_impl p) t
    (fun ids t' => NoDup ids /\ (forall id, id ∈ ids <-> exists m, v !! id = Some m /\ p ∈ providers m) /\ t' = t).
Proof.
  intros Hv. apply runs_select. split_and!; [rewrite scan_perm; apply NoDup_elements| |done].
  intros id. rewrite scan_perm, elem_of_elements, elem_of_map. setoid_rewrite elem_of_filter. split.
  - intros ([id' x] & -> & Hx & Hin). cbn in Hx. subst x. change (t_providers t) with (rows Providers t) in Hin.
    apply (st_rows _ _ Hv) in Hin as (m & Hm & Hin). exists m. split; [done|]. cbn in Hin. by apply (list_elem_of_fmap_inj StoneRelation.to_string) in Hin.
  - intros (m & Hm & Hp). exists (id, StoneRelation.to_string p). split_and!; [done..|].
    change (t_providers t) with (rows Providers t). apply (st_rows _ _ Hv). exists m. split; [done|].
    by apply list_elem_of_fmap_2.
Qed.
End sql.

(** ** Queries of the metadata database

    [query_impl] selects rows and fills the relations of the selected packages in chunks
    of their ids, in the order rows happen to come; it returns exactly the stored
    packages the filter holds of. *)

(** ** Updates in place *)

Lemma map_adjust_keys {V} k f (m : list (bytes * V)) : sorted m.*1 -> (map_adjust k f m).*1 = m.*1.
Proof.
  intros Hs. unfold map_adjust. destruct (map_get k m) as [v|] eqn:E; [|done].
  rewrite map_insert_keys. apply set_insert_present; [done|]. apply map_get_key. by exists v.
Qed.

Lemma map_get_adjust {V} k f (m : list (bytes * V)) id :
  map_get id (map_adjust k f m) = if decide (id = k) then f <$> map_get id m else map_get id m.
Proof.
  unfold map_adjust. destruct (map_get k m) as [v|] eqn:E; case_decide as Hid.
  - subst id. by rewrite map_get_insert, cmp_refl, E.
  - rewrite map_get_insert. destruct (cmp id k) eqn:Ec; [by apply cmp_eq_iff in Ec|done..].
  - subst id. by rewrite E.
  - done.
Qed.

(** ** Filling the columns of a package *)

Definition absorb (k : relation) (e : Meta) (x : bytes) : Meta :=
  match k with
  | Licenses => push_license x e
  | _ => match load_relation x with Ok r => insert_relation k r e | Err _ => e end
  end.
Definition fill (k : relation) (xs : list bytes) (e : Meta) : Meta := foldl (absorb k) e xs.

Lemma fill_licenses row xs : forall ls ds ps cs,
  fill Licenses xs (meta_of_row row ls ds ps cs) = meta_of_row row (ls ++ xs) ds ps cs.
Proof.
  induction xs as [|x xs IH]; intros ls ds ps cs; cbn; [by rewrite app_nil_r|].
  change (fill Licenses xs (meta_of_row row (ls ++ [x]) ds ps cs) = meta_of_row row (ls ++ x :: xs) ds ps cs).
  by rewrite IH, <- app_assoc.
Qed.

Definition collect_into (s rs : list Relation) : list Relation := foldl (fun s x => set_insert x s) s rs.

Lemma fill_relations k row rs : forall ls ds ps cs,
  (forall r, r ∈ rs -> valid_target (rel_name r)) -> k <> Licenses ->
  fill k (StoneRelation.to_string <$> rs) (meta_of_row row ls ds ps cs)
  = meta_of_row row ls (if k is Dependencies then collect_into ds rs else ds)
      (if k is Providers then collect_into ps rs else ps) (if k is Conflicts then collect_into cs rs else cs).
Proof.
  induction rs as [|r rs IH]; intros ls ds ps cs Hv Hk; [by destruct k|]. cbn [fmap list_fmap fill foldl].
  assert (absorb k (meta_of_row row ls ds ps cs) (StoneRelation.to_string r)
          = meta_of_row row ls (if k is Dependencies then set_insert r ds else ds)
              (if k is Providers then set_insert r ps else ps) (if k is Conflicts then set_insert r cs else cs)) as ->.
  { unfold absorb. rewrite load_relation_text by (apply Hv; left). by destruct k. }
  match goal with |- foldl _ ?e ?xs = _ => change (foldl (absorb k) e xs) with (fill k xs e) end. rewrite IH; [by destruct k| |done]. intros r' Hr'. apply Hv. by right.
Qed.

(** ** Merging the rows of a relation *)

Definition of_package (id : bytes) (l : list (bytes * bytes)) : list bytes := (filter (fun p => p.1 = id) l).*2.

Lemma merge_fold k l : forall entries,
  (forall p, p ∈ l -> k <> Licenses -> exists r, load_relation p.2 = Ok r) -> sorted entries.*1 ->
  exists entries', try_fold (merge_row k) entries l = Ok entries' /\ entries'.*1 = entries.*1
    /\ forall id, map_get id entries' = fill k (of_package id l) <$> map_get id entries.
Proof.
  induction l as [|[id0 x] l IH]; intros entries Hl Hs; cbn [try_fold].
  - exists entries. split_and!; [done..|]. intros id. cbn. by destruct (map_get id entries).
  - assert (merge_row k entries (id0, x) = Ok (map_adjust id0 (fun e => absorb k e x) entries)) as ->.
    { destruct k; [done|..]; (destruct (Hl (id0, x) ltac:(left) ltac:(done)) as [r Hr]; cbn in *; by rewrite Hr). }
    cbn [mbind result_bind]. destruct (IH (map_adjust id0 (fun e => absorb k e x) entries)) as (es & E & Hk & Hg).
    + intros p Hp. apply Hl. by right.
    + by rewrite map_adjust_keys.
    + exists es. split_and!; [done|by rewrite Hk, map_adjust_keys|]. intros id. rewrite Hg, map_get_adjust.
      unfold of_package. rewrite filter_cons. cbn [fst]. case_decide as E1; case_decide as E2; try congruence.
      by destruct (map_get id entries).
Qed.

Section sql.
Context `{Sqlite} {SL : SqliteLaws _}.

(** The texts of a package among the rows read for a chunk. *)
Definition column (k : relation) (chunk : list bytes) (t : tables) (id : bytes) : list bytes :=
  of_package id (scan (elements (filter (fun p => p.1 ∈ chunk) (rows k t)))).

Lemma column_spec k chunk t v id :
  stores t v -> NoDup (column k chunk t id)
  /\ forall x, x ∈ column k chunk t id <-> id ∈ chunk /\ exists m, v !! id = Some m /\ x ∈ texts k m.
Proof.
  intros Hv. unfold column, of_package. set (l := scan _).
  assert (NoDup l) as Hd by (unfold l; rewrite scan_perm; apply NoDup_elements).
  assert (forall p, p ∈ l <-> p.1 ∈ chunk /\ p ∈ rows k t) as Hl.
  { intros p. unfold l. by rewrite scan_perm, elem_of_elements, elem_of_filter. }
  split.
  - apply NoDup_fmap_2_strong; [|by apply NoDup_filter]. intros [a x] [b y] [Ha _]%list_elem_of_filter [Hb _]%list_elem_of_filter E.
    cbn in *. by subst.
  - intros x. rewrite <- (st_rows _ _ Hv k id x), list_elem_of_fmap. setoid_rewrite list_elem_of_filter. setoid_rewrite Hl. split.
    + intros ([a y] & -> & <- & ? & ?). done.
    + intros [? ?]. by exists (id, x).
Qed.

Lemma column_absent k chunk t v id : stores t v -> id ∉ chunk -> column k chunk t id = [].
Proof.
  intros Hv Hid. destruct (column_spec k chunk t v id Hv) as [_ Hc]. destruct (column k chunk t id) as [|x l]; [done|].
  destruct (proj1 (Hc x)) as [? _]; [left|done].
Qed.

Lemma merge_rows_runs k chunk entries t v :
  stores t v -> sorted entries.*1 ->
  runs (merge_rows k chunk entries) t (fun es t' => t' = t /\ es.*1 = entries.*1
    /\ forall id, map_get id es = fill k (column k chunk t id) <$> map_get id entries).
Proof.
  intros Hv Hs. apply runs_then_select.
  destruct (merge_fold k (scan (elements (filter (fun p => p.1 ∈ chunk) (rows k t)))) entries) as (es & E & Hk & Hg); [|done|].
  - intros [id x] Hp Hk. rewrite scan_perm, elem_of_elements, elem_of_filter in Hp. destruct Hp as [_ Hp].
    apply (st_rows _ _ Hv) in Hp as (m & Hm & Hx). rewrite related_texts in Hx by done.
    apply list_elem_of_fmap in Hx as (r & -> & Hr). exists r. apply load_relation_text.
    eapply related_valid; [by eapply st_storable|done].
  - by eapply runs_lift.
Qed.

Definition fill_all (chunk : list bytes) (t : tables) (id : bytes) (e : Meta) : Meta :=
  fill Conflicts (column Conflicts chunk t id) (fill Providers (column Providers chunk t id)
    (fill Dependencies (column Dependencies chunk t id) (fill Licenses (column Licenses chunk t id) e))).

Lemma merge_chunks_runs l t v : stores t v -> forall entries, sorted entries.*1 ->
  runs (merge_chunks l entries) t (fun es t' => t' = t /\ es.*1 = entries.*1
    /\ forall id, map_get id es = (fun e => foldl (fun e c => fill_all c t id e) e l) <$> map_get id entries).
Proof.
  intros Hv. induction l as [|c l IH]; intros entries Hs; cbn [merge_chunks].
  - apply runs_ret. split_and!; [done..|]. intros id. cbn. by destruct (map_get id entries).
  - eapply runs_bind; [by apply (merge_rows_runs _ _ _ _ v)|]. intros e1 t' (-> & K1 & G1).
    eapply runs_bind; [apply (merge_rows_runs _ _ _ _ v); [done|congruence]|]. intros e2 t' (-> & K2 & G2).
    eapply runs_bind; [apply (merge_rows_runs _ _ _ _ v); [done|congruence]|]. intros e3 t' (-> & K3 & G3).
    eapply runs_bind; [apply (merge_rows_runs _ _ _ _ v); [done|congruence]|]. intros e4 t' (-> & K4 & G4).
    eapply runs_mono; [apply IH; congruence|]. intros es t' (-> & K5 & G5). split_and!; [done|congruence|].
    intros id. rewrite G5, G4, G3, G2, G1. by destruct (map_get id entries).
Qed.

Lemma fill_all_absent chunk t v id e : stores t v -> id ∉ chunk -> fill_all chunk t id e = e.
Proof. intros Hv Hid. unfold fill_all. by rewrite !(column_absent _ chunk t v id). Qed.

Lemma fill_chunks l t v id e :
  stores t v -> NoDup (concat l) -> id ∈ concat l ->
  exists c, id ∈ c /\ foldl (fun e c => fill_all c t id e) e l = fill_all c t id e.
Proof.
  intros Hv. revert e. induction l as [|c l IH]; intros e; cbn; [by intros _ ?%elem_of_nil|].
  rewrite NoDup_app, elem_of_app. intros (_ & Hn & Hd) [Hc|Hc].
  - exists c. split; [done|]. assert (id ∉ concat l) as Hl by auto. clear -Hl Hv SL.
    generalize (fill_all c t id e). clear e. induction l as [|c' l IH]; intros e; [done|]. cbn in *.
    rewrite not_elem_of_app in Hl. rewrite (fill_all_absent c' t v) by tauto. apply IH. tauto.
  - destruct (decide (id ∈ c)) as [Hin|Hin]; [by destruct (Hn id)|]. rewrite (fill_all_absent c t v) by done. by apply IH.
Qed.

Lemma fill_all_stored c t v id m :
  stores t v -> id ∈ c -> v !! id = Some m -> stored_as m (fill_all c t id (meta_of_row (row_of m) [] [] [] [])).
Proof.
  intros Hv Hc Hm. assert (storable m) as Hst by (by eapply st_storable).
  assert (forall k x, x ∈ column k c t id <-> x ∈ texts k m) as Hx.
  { intros k x. rewrite (proj2 (column_spec k c t v id Hv)). split; [|eauto]. intros (_ & m' & Hm' & ?). by simplify_eq. }
  destruct (texts_load Dependencies m _ ltac:(done) Hst (Hx Dependencies)) as (rd & Ed & _ & Cd & Vd).
  destruct (texts_load Providers m _ ltac:(done) Hst (Hx Providers)) as (rp & Ep & _ & Cp & Vp).
  destruct (texts_load Conflicts m _ ltac:(done) Hst (Hx Conflicts)) as (rc & Ec & _ & Cc & Vc).
  unfold fill_all. rewrite Ed, Ep, Ec, fill_licenses, !fill_relations by done. cbn [app].
  unfold collect_into. fold (set_collect rd) (set_collect rp) (set_collect rc). rewrite Cd, Cp, Cc.
  split; [done|]. split; [apply (column_spec Licenses c t v id Hv)|]. intros l. apply (Hx Licenses).
Qed.

(** ** Filters *)

Definition filter_holds (f : option Filter.t) (m : Meta) : Prop :=
  match f with
  | None => True
  | Some (Filter.Provider p) => p ∈ providers m
  | Some (Filter.Dependency d) => d ∈ dependencies m
  | Some (Filter.Name name) => m_name m = name
  | Some (Filter.Keyword keyword) =>
      like (bstr "%" ++ keyword ++ bstr "%") (m_name m) = true \/ like (bstr "%" ++ keyword ++ bstr "%") (summary m) = true
  end.

Lemma matches_iff f t v id m :
  stores t v -> v !! id = Some m -> (matches f t id (row_of m) = true <-> filter_holds f m).
Proof.
  intros Hv Hm. assert (forall k r, k <> Licenses -> ((id, StoneRelation.to_string r) ∈ rows k t <-> r ∈ related k m)) as Hr.
  { intros k r Hk. rewrite (st_rows _ _ Hv). setoid_rewrite related_texts; [|done]. split.
    - intros (m' & Hm' & Hx). simplify_eq. by apply (list_elem_of_fmap_inj StoneRelation.to_string) in Hx.
    - intros Hr. exists m. split; [done|]. by apply list_elem_of_fmap_2. }
  destruct f as [[p|d|n|kw]|]; cbn [matches filter_holds]; rewrite ?bool_decide_eq_true; [| | | |done].
  - by apply (Hr Providers).
  - by apply (Hr Dependencies).
  - done.
  - by rewrite orb_true_iff.
Qed.

Lemma matching_spec f t v :
  stores t v -> NoDup (matching_rows f t).*1
  /\ forall id row, (id, row) ∈ matching_rows f t <-> exists m, v !! id = Some m /\ row = row_of m /\ filter_holds f m.
Proof.
  intros Hv. unfold matching_rows. split.
  - rewrite scan_perm. apply NoDup_filter_keys, NoDup_fst_map_to_list.
  - intros id row. rewrite scan_perm, list_elem_of_In, filter_In, <- list_elem_of_In, elem_of_map_to_list.
    rewrite (st_meta _ _ Hv), lookup_fmap_Some. cbn. split.
    + intros [(m & <- & Hm) Hx]. exists m. split_and!; [done..|]. by apply (matches_iff f t v id m).
    + intros (m & Hm & -> & Hx). split; [eauto|]. by apply (matches_iff f t v id m).
Qed.

(** What a query returns: in the order of the ids, each stored package the filter holds
    of, once. *)
Definition answers (f : option Filter.t) (v : view) (es : list (bytes * Meta)) : Prop :=
  sorted es.*1
  /\ (forall id m', (id, m') ∈ es -> exists m, v !! id = Some m /\ filter_holds f m /\ stored_as m m')
  /\ (forall id m, v !! id = Some m -> filter_holds f m -> id ∈ es.*1).

Lemma query_runs f t v : stores t v -> runs (query_impl f) t (fun es t' => answers f v es /\ t' = t).
Proof.
  intros Hv. apply runs_then_select. destruct (matching_spec f t v Hv) as [Hd Hx].
  set (l := (fun e => (e.1, meta_of_row e.2 [] [] [] [])) <$> matching_rows f t).
  assert (l.*1 = (matching_rows f t).*1) as El by (unfold l; rewrite <- list_fmap_compose; by apply list_fmap_ext).
  rewrite <- El in Hd. assert (sorted (map_collect l).*1) as Hs by (rewrite map_collect_keys; apply set_collect_sorted).
  assert (forall id e, map_get id (map_collect l) = Some e <->
            exists m, v !! id = Some m /\ e = meta_of_row (row_of m) [] [] [] [] /\ filter_holds f m) as Hg.
  { intros id e. rewrite map_collect_get by done. unfold l. rewrite list_elem_of_fmap. split.
    - intros ([id' row] & [= -> ->] & (m & Hm & -> & Hh)%Hx). eauto.
    - intros (m & Hm & -> & Hh). exists (id, row_of m). split; [done|]. apply Hx. eauto. }
  eapply runs_mono; [by apply (merge_chunks_runs _ t v Hv)|]. intros es t' (-> & Hk & Hget). split; [|done].
  rewrite <- Hk in Hs. split_and!; [done| |].
  - intros id m' Hin. apply map_get_elem in Hin; [|done]. rewrite Hget in Hin.
    destruct (map_get id (map_collect l)) as [e|] eqn:E; [|done]. injection Hin as <-.
    pose proof E as (m & Hm & -> & Hh)%Hg. exists m. split_and!; [done..|].
    destruct (fill_chunks (chunks MAX_VARIABLE_NUMBER (map_collect l).*1) t v id (meta_of_row (row_of m) [] [] [] []) Hv) as (c & Hc & ->).
    + rewrite chunks_concat by apply chunk_sizes. apply sorted_NoDup. by rewrite <- Hk.
    + rewrite chunks_concat by apply chunk_sizes. apply map_get_key. eauto.
    + by apply (fill_all_stored c t v).
  - intros id m Hm Hh. rewrite Hk. apply map_get_key. eexists. apply Hg. eauto.
Qed.
End sql.
