(* ===== verification/MetaDbTheorems.v ===== *)
(** * Theorems of the metadata database

    The changes of the database act on the stored map and on the active snapshot as they
    say, all or nothing; its queries return what is stored. *)

From S2P Require Import Prelude Ordered StoneRelation PackageMeta PackageMetaTheorems SqlDb MetaDb MetaDbSpec.

(** What [url] documents of a serialised URL. *)
Class UrlLaws (U : UrlOps) : Prop := {
  as_str_nonempty (u : url) : as_str u <> [];
  url_parse_as_str (u : url) : url_parse (as_str u) = Some u;
}.

(** What the types of [Meta] say: unsigned numbers, ordered sets, validated relations. *)
Record typed (m : Meta) : Prop := {
  ty_source : (0 <= source_release m)%Z;
  ty_build : (0 <= build_release m)%Z;
  ty_size n : download_size m = Some n -> (0 <= n)%Z;
  ty_sorted : sorted (dependencies m) /\ sorted (providers m) /\ sorted (conflicts m);
  ty_valid r : r ∈ dependencies m ++ providers m ++ conflicts m -> valid_target (rel_name r);
}.

Lemma checked_storable m n : typed m -> checked_meta_numbers m = Ok n -> storable m.
Proof.
  intros [Hs Hb Hd (H1 & H2 & H3) Hv]. unfold checked_meta_numbers. intros Hc. inv_ok.
  apply Z.ltb_ge in Hr, Hr1. split; try done; try lia. intros z Hz. rewrite Hz in *. inv_ok. apply Z.ltb_ge in Hr0.
  split; [by apply Hd|done].
Qed.

Lemma check_all_storable ps :
  (forall p, p ∈ ps -> typed p.2) -> check_all ps = Ok tt -> forall p, p ∈ ps -> storable p.2.
Proof.
  induction ps as [|[id m] ps IH]; intros Ht Hc p Hp; [by apply elem_of_nil in Hp|]. cbn [check_all] in Hc. inv_ok.
  apply elem_of_cons in Hp as [-> |Hp].
  - eapply checked_storable; [|exact Hr]. apply (Ht (id, m)). left.
  - apply IH; [|done|done]. intros q Hq. apply Ht. by right.
Qed.

Lemma validated_batch ps :
  (forall p, p ∈ ps -> typed p.2) -> validate_package_batch ps = Ok tt ->
  NoDup ps.*1 /\ forall p, p ∈ ps -> storable p.2.
Proof.
  intros Ht Hv. unfold validate_package_batch in Hv. inv_ok. split; [|by apply check_all_storable].
  rewrite <- sort_perm. apply any_adjacent_sorted; [apply sort_ascending|done].
Qed.

Section theorems.
Context `{Sqlite} {SL : SqliteLaws _} `{U : UrlOps} {UL : UrlLaws U}.

(** ** Changes *)

Inductive change :=
  | Add (packages : list (bytes * Meta))
  | ReplaceAll (packages : list (bytes * Meta))
  | ReplaceAllWithSnapshot (packages : list (bytes * Meta)) (snapshot : Snapshot)
  | Remove (packages : list bytes)
  | Wipe.

Definition perform (c : change) : conn -> result DbError.t unit * tables :=
  match c with
  | Add ps => batch_add ps
  | ReplaceAll ps => replace_all ps
  | ReplaceAllWithSnapshot ps s => replace_all_with_snapshot ps s
  | Remove ids => batch_remove ids
  | Wipe => wipe
  end.

(** The conditions under which a change is refused before its transaction. *)
Definition validated (c : change) : result DbError.t unit :=
  match c with
  | Add ps | ReplaceAll ps => validate_package_batch ps
  | ReplaceAllWithSnapshot ps s => validate_package_batch ps;; validate_snapshot s;; Ok tt
  | Remove _ | Wipe => Ok tt
  end.

(** The stored map and the snapshot after a change. *)
Definition changed (c : change) (v : view) : view :=
  match c with
  | Add ps => list_to_map ps ∪ v
  | ReplaceAll ps | ReplaceAllWithSnapshot ps _ => list_to_map ps
  | Remove ids => filter (fun p => p.1 ∉ ids) v
  | Wipe => ∅
  end.
Definition snapshot_after (c : change) : option Snapshot :=
  if c is ReplaceAllWithSnapshot _ s then Some s else None.

(** The values a caller can hold. *)
Definition well_typed (c : change) : Prop :=
  match c with
  | Add ps | ReplaceAll ps => forall p, p ∈ ps -> typed p.2
  | ReplaceAllWithSnapshot ps s => (forall p, p ∈ ps -> typed p.2) /\ (0 <= byte_size s)%Z
  | Remove _ | Wipe => True
  end.

(** The tables after a change: the map, and a snapshot that reads back. *)
Definition holds (t : tables) (v : view) (s : option Snapshot) : Prop :=
  stores t v
  /\ match s with
     | None => t_snapshot t = None
     | Some s => exists row, t_snapshot t = Some row /\ decode_active_snapshot row = Ok s
     end.

Lemma insert_snapshot_runs s size t v :
  (0 <= byte_size s)%Z -> validate_snapshot s = Ok size -> holds t v None ->
  runs (insert_active_snapshot_impl s size) t (fun _ t' => holds t' v (Some s)).
Proof.
  intros Hp Hv [[Hm Hr Hs] Hn]. pose proof Hv as Hv'. unfold validate_snapshot, checked_snapshot_byte_size in Hv'. inv_ok. bool_prop.
  apply Z.ltb_ge in Hr0, Hr6. apply Nat.eqb_eq in H0. eapply runs_statement.
  - rewrite Hn, bool_decide_false by (by intros []). cbn [reject_if mbind result_bind].
    assert (as_str (index_uri s) <> []) as Hne by apply as_str_nonempty.
    assert (1 <= Z.of_nat (length (as_str (index_uri s))))%Z by (destruct (as_str (index_uri s)); [done|cbn; lia]).
    assert (snapshot_checks {| singleton := ACTIVE_SNAPSHOT_SINGLETON; s_index_uri := as_str (index_uri s);
                               s_sha256 := sha256 s; s_byte_size := byte_size s |} = true) as ->; [|reflexivity].
    unfold snapshot_checks. cbn. unfold MAX_SNAPSHOT_INDEX_URI_BYTES, MAX_SNAPSHOT_BYTE_SIZE in *.
    rewrite H0, Nat.eqb_refl, H1. rewrite !(proj2 (Z.leb_le _ _)) by lia. done.
  - split; [by split|]. eexists. split; [done|]. unfold decode_active_snapshot, snapshot_new. cbn.
    rewrite url_parse_as_str. cbn. rewrite (proj2 (Z.ltb_ge _ _)) by lia. cbn.
    replace {| index_uri := index_uri s; sha256 := sha256 s; byte_size := byte_size s |} with s by (by destruct s).
    by rewrite Hv.
Qed.

(** The body of the transaction of a change, which ends in the changed map. *)
Definition body (c : change) : tx unit :=
  match c with
  | Add ps => clear_active_snapshot_impl;; batch_remove_impl ps.*1;; insert_packages_impl ps
  | ReplaceAll ps => clear_active_snapshot_impl;; clear_packages_impl;; insert_packages_impl ps
  | ReplaceAllWithSnapshot ps s =>
      clear_active_snapshot_impl;; clear_packages_impl;; insert_packages_impl ps;;
      insert_active_snapshot_impl s (byte_size s)
  | Remove ids => clear_active_snapshot_impl;; batch_remove_impl ids
  | Wipe => clear_active_snapshot_impl;; clear_packages_impl
  end.

Lemma validate_snapshot_size s size : validate_snapshot s = Ok size -> size = byte_size s.
Proof using Type. unfold validate_snapshot, checked_snapshot_byte_size. intros. by inv_ok. Qed.

Lemma perform_body c conn0 :
  perform c conn0 = match validated c with
                    | Ok _ => exclusive_tx (body c) conn0
                    | Err e => (Err e, conn0.1)
                    end.
Proof using Type.
  destruct c as [ps|ps|ps s|ids|]; cbn [perform validated body]; try done.
  unfold replace_all_with_snapshot. destruct (validate_package_batch ps) as [[]|]; cbn; [|done].
  destruct (validate_snapshot s) as [size|] eqn:E; cbn; [|done]. by rewrite (validate_snapshot_size s size E).
Qed.

Lemma filter_fresh (ids : list bytes) (v : view) id : id ∈ ids -> filter (fun p => p.1 ∉ ids) v !! id = None.
Proof using Type. intros Hid. apply map_lookup_filter_None. right. intros m _ Hn. done. Qed.

Lemma union_filter (ps : list (bytes * Meta)) (v : view) :
  NoDup ps.*1 -> list_to_map ps ∪ filter (fun p => p.1 ∉ ps.*1) v = list_to_map ps ∪ v.
Proof using Type.
  intros Hd. apply map_eq. intros id. rewrite !lookup_union. destruct (list_to_map ps !! id) as [m|] eqn:E.
  - by destruct (filter _ v !! id), (v !! id).
  - f_equal. apply not_elem_of_list_to_map_2 in E. destruct (v !! id) as [m|] eqn:Ev.
    + by apply map_lookup_filter_Some.
    + apply map_lookup_filter_None. by left.
Qed.

Lemma fresh_insert_runs ps t v :
  (forall p, p ∈ ps -> typed p.2) -> validate_package_batch ps = Ok tt -> (forall id, id ∈ ps.*1 -> v !! id = None) ->
  holds t v None -> runs (insert_packages_impl ps) t (fun _ t' => holds t' (list_to_map ps ∪ v) None).
Proof using Type.
  intros Ht Hv Hn [Hs Hsn]. destruct (validated_batch ps Ht Hv) as [Hd Hst].
  eapply runs_mono; [by apply insert_packages_runs|]. intros [] t' [Hs' E]. split; [done|]. congruence.
Qed.

Lemma clear_runs t v : stores t v -> runs (clear_active_snapshot_impl;; clear_packages_impl) t (fun _ t' => holds t' ∅ None).
Proof using Type.
  intros Hs. eapply runs_bind; [by apply clear_snapshot_runs|]. intros [] t1 [_ E].
  eapply runs_mono; [apply clear_packages_runs|]. intros [] t2 [Hs2 E2]. split; [done|]. congruence.
Qed.

Lemma remove_runs ids t v :
  foreign_keys = true -> stores t v ->
  runs (clear_active_snapshot_impl;; batch_remove_impl ids) t (fun _ t' => holds t' (filter (fun p => p.1 ∉ ids) v) None).
Proof using Type.
  intros Hf Hs. eapply runs_bind; [by apply clear_snapshot_runs|]. intros [] t1 [Hs1 E].
  eapply runs_mono; [by apply batch_remove_runs|]. intros [] t2 [Hs2 E2]. split; [done|]. congruence.
Qed.

Lemma runs_assoc {A} (f g : tx unit) (h : tx A) t P : runs ((f;; g);; h) t P -> runs (f;; g;; h) t P.
Proof using Type.
  intros Hr faults. specialize (Hr faults). unfold mbind, tx_bind in *. by destruct (f (t, faults)) as [[[] [t' fs]]|].
Qed.

Lemma body_runs c t v :
  foreign_keys = true -> well_typed c -> validated c = Ok tt -> stores t v ->
  runs (body c) t (fun _ t' => holds t' (changed c v) (snapshot_after c)).
Proof using UL.
  intros Hf Ht Hv Hs. destruct c as [ps|ps|ps s|ids|]; cbn [body changed snapshot_after well_typed validated] in *.
  - apply runs_assoc. eapply runs_bind; [by apply remove_runs|]. intros [] t1 H1.
    eapply runs_mono; [apply fresh_insert_runs; [done|done|intros id Hid; by apply filter_fresh|done]|].
    intros [] t2 H2. rewrite union_filter in H2; [done|]. by apply validated_batch.
  - apply runs_assoc. eapply runs_bind; [by apply (clear_runs t v)|]. intros [] t1 H1.
    eapply runs_mono; [by apply (fresh_insert_runs ps t1 ∅)|]. intros [] t2. by rewrite (right_id_L ∅ (∪)).
  - destruct Ht as [Ht Hsz]. inv_ok. apply runs_assoc. eapply runs_bind; [by apply (clear_runs t v)|]. intros [] t1 H1.
    eapply runs_bind; [by apply (fresh_insert_runs ps t1 ∅)|]. intros [] t2. rewrite (right_id_L ∅ (∪)). intros H2.
    apply insert_snapshot_runs; [done| |done]. by rewrite <- (validate_snapshot_size s x).
  - by apply remove_runs.
  - by apply (clear_runs t v).
Qed.


(** ** Reads *)

Definition interrupted (e : DbError.t) (faults : list bool) : Prop :=
  e = DbError.Diesel Diesel.DatabaseError /\ true ∈ faults.

Lemma exec_runs {A} (f : tx A) t faults P :
  runs f t P -> match exec f (t, faults) with Ok a => exists t', P a t' | Err e => interrupted e faults end.
Proof using Type.
  intros Hr. specialize (Hr faults). unfold exec. destruct (f (t, faults)) as [[a [t' fs]]|e]; cbn; naive_solver.
Qed.

Lemma get_exact t v faults id :
  stores t v ->
  match get id (t, faults) with
  | Ok m' => exists m, v !! id = Some m /\ stored_as m m'
  | Err e => (e = DbError.RowNotFound /\ v !! id = None) \/ interrupted e faults
  end.
Proof using SL.
  intros Hs. unfold get. destruct (v !! id) as [m|] eqn:E.
  - pose proof (exec_runs _ t faults _ (get_runs id t v m Hs E)) as Hr.
    destruct (exec (get_impl id) (t, faults)) as [m'|e]; [|auto]. destruct Hr as (t' & Hst & _). eauto.
  - unfold exec. destruct (get_absent id t v faults Hs E) as [-> |[-> Hf]]; cbn; [by left|by right].
Qed.

Lemma query_exact t v faults f :
  stores t v -> match query f (t, faults) with Ok es => answers f v es | Err e => interrupted e faults end.
Proof using SL.
  intros Hs. pose proof (exec_runs _ t faults _ (query_runs f t v Hs)) as Hr. fold (query f (t, faults)) in Hr.
  destruct (query f (t, faults)); naive_solver.
Qed.

(** The ids of the packages that provide a relation. *)
Definition providing (p : Relation) (v : view) (ids : list bytes) : Prop :=
  NoDup ids /\ forall id, id ∈ ids <-> exists m, v !! id = Some m /\ p ∈ providers m.

Lemma provider_packages_exact t v faults p :
  stores t v ->
  match provider_packages p (t, faults) with Ok ids => providing p v ids | Err e => interrupted e faults end.
Proof using SL.
  intros Hs. pose proof (exec_runs _ t faults _ (provider_packages_runs p t v Hs)) as Hr.
  fold (provider_packages p (t, faults)) in Hr. unfold providing. destruct (provider_packages p (t, faults)); naive_solver.
Qed.

End theorems.

(** ** A database with one package, read in reverse order *)

Module Local.
#[export] Instance sqlite : Sqlite :=
  {| foreign_keys := true; scan := fun A l => rev l; like := fun _ _ => true |}.
#[export] Instance sqlite_laws : SqliteLaws sqlite.
Proof. split. intros A l. symmetry. apply Permutation_rev. Qed.

(** URLs of the form [https://host/path], as the bytes after their first. *)
#[export] Instance url_ops : UrlOps :=
  {| url := bytes; as_str := fun u => x68 :: u;
     url_parse := fun s => match s with [] => None | _ :: u => Some u end;
     username := fun _ => []; password := fun _ => None; fragment := fun _ => None;
     scheme := fun _ => bstr "https"; host_str := fun _ => Some (bstr "host"); url_query := fun _ => None;
     to_file_path := fun _ => None |}.
#[export] Instance url_laws : UrlLaws url_ops.
Proof. by split. Qed.

Definition empty : tables :=
  {| t_meta := ∅; t_licenses := ∅; t_dependencies := ∅; t_providers := ∅; t_conflicts := ∅; t_snapshot := None |}.

Lemma empty_stores : stores empty ∅.
Proof.
  split; cbn.
  - by rewrite fmap_empty.
  - intros k id x. setoid_rewrite lookup_empty. destruct k; set_solver.
  - intros id m. by rewrite lookup_empty.
Qed.

Definition id : bytes := bstr "nano-8.2-155.x86_64".
Definition nano : Meta := Nano.meta Nano.own.

Definition snapshot : Snapshot := {| index_uri := bstr "ttps://host/stone.index"; sha256 := Nano.digest; byte_size := 512 |}.
Definition refresh : change := ReplaceAllWithSnapshot [(id, nano)] snapshot.

Lemma nano_typed : typed nano.
Proof.
  split; cbn; [lia|lia|intros n [= <-]; lia| |].
  - split_and!; [repeat constructor| |constructor]. apply Nano.sorted_pair. by vm_compute.
  - intros r Hr. assert (forallb (fun r => is_ok (validate_target (rel_name r) []))
      [{| rel_kind := Kind.SharedLibrary; rel_name := bstr "libc.so.6(x86_64)" |};
       {| rel_kind := Kind.Binary; rel_name := bstr "nano" |}; package_name (bstr "nano")] = true) as Hv by (by vm_compute).
    rewrite forallb_forall in Hv. rewrite list_elem_of_In in Hr. apply Hv, is_ok_iff in Hr as [[] ?]. done.
Qed.

Lemma refresh_typed : well_typed refresh.
Proof. split; [|cbn; lia]. intros p ->%list_elem_of_singleton. apply nano_typed. Qed.

Lemma refresh_valid : validated refresh = Ok tt.
Proof. by vm_compute. Qed.
End Local.
Import Local.


