(* ===== verification/Registry.v ===== *)
(** * Packages and the registry

    [crates/forge/src/package/mod.rs] and [crates/forge/src/registry]: packages with their
    flags and order, the plugins that answer queries from the installed state, local
    archives and repositories, and the registry that asks them in the order of their
    priority.  A plugin sees its database through [Database]: the queries of
    [MetaDb].  The verification of a repository's snapshot and the resolution of a
    relative URL are parameters. *)

From S2P Require Import Prelude ByteStrings Ordered StoneRelation PackageMeta SqlDb MetaDb.

(** ** Packages *)

Record Flags := { available : bool; installed : bool; source : bool; explicit : bool }.
#[global] Instance flags_eq_dec : EqDecision Flags.
Proof. solve_decision. Defined.

Definition no_flags : Flags := {| available := false; installed := false; source := false; explicit := false |}.
Definition with_available (f : Flags) : Flags :=
  {| available := true; installed := installed f; source := source f; explicit := explicit f |}.
Definition with_installed (f : Flags) : Flags :=
  {| available := available f; installed := true; source := source f; explicit := explicit f |}.
Definition with_source (f : Flags) : Flags :=
  {| available := available f; installed := installed f; source := true; explicit := explicit f |}.
Definition with_explicit (f : Flags) : Flags :=
  {| available := available f; installed := installed f; source := source f; explicit := true |}.

Definition bits (f : Flags) : Z :=
  Z.lor (Z.lor (Z.lor (Z.b2z (available f)) (Z.shiftl (Z.b2z (installed f)) 1))
               (Z.shiftl (Z.b2z (source f)) 2))
        (Z.shiftl (Z.b2z (explicit f)) 3).

Definition flags_contain (f other : Flags) : bool := (Z.land (bits f) (bits other) =? bits other)%Z.

Record Package := { p_id : bytes; p_meta : Meta; p_flags : Flags }.

#[global] Instance package_cmp : Cmp Package := fun a b =>
  then_with (reverse (cmp (source_release (p_meta a)) (source_release (p_meta b))))
            (reverse (cmp (build_release (p_meta a)) (build_release (p_meta b)))).

(** [Sorted::into_iter] is [sort]. *)

(** Whether a normalised target below [/usr] belongs to the system. *)
Definition reserved_targets : list bytes :=
  [bstr ".cast-state-id.tmp"; bstr ".cast-tree-id"; bstr ".cast-tree-id.tmp"; bstr ".stateID";
   bstr "lib/os-release"; bstr "lib/system-model.glu"].

Definition is_reserved_usr_layout_target (target : bytes) : bool :=
  existsb (fun reserved =>
    bool_decide (target = reserved)
    || match strip_prefix reserved target with
       | Some (b :: _) => bool_decide (b = "/"%byte)
       | _ => false
       end) reserved_targets.

(** ** Databases *)

Record Database := {
  db_get : bytes -> result DbError.t Meta;
  db_query : option Filter.t -> result DbError.t (list (bytes * Meta));
  db_provider_packages : Relation -> result DbError.t (list bytes);
}.

Definition u64_max : Z := 2 ^ 64 - 1.

(** ** The installed state *)

Record Selection := { sel_package : bytes; sel_explicit : bool; sel_reason : option bytes }.

Module Active.
Record t := { state : option (list Selection); db : Database }.

Definition installed_package (self : t) (id : bytes) : option (bytes * Flags) :=
  selections ← state self;
  selection ← List.find (fun s => bool_decide (sel_package s = id)) selections;
  Some (id, if sel_explicit selection then with_explicit (with_installed no_flags) else with_installed no_flags).

Definition package (self : t) (id : bytes) : result DbError.t (option Package) :=
  match db_get (db self) id with
  | Ok meta => Ok ((fun p => {| p_id := p.1; p_meta := meta; p_flags := p.2 |}) <$> installed_package self id)
  | Err DbError.RowNotFound => Ok None
  | Err e => Err e
  end.

Definition wanted (flags : Flags) : bool := installed flags || bool_decide (flags = no_flags).

Definition query (self : t) (flags : Flags) (filter : option Filter.t) : result DbError.t (list Package) :=
  if wanted flags then
    packages ← db_query (db self) filter;
    Ok (List.filter (fun p => if explicit flags then explicit (p_flags p) else true)
          (omap (fun e => (fun p => {| p_id := p.1; p_meta := e.2; p_flags := p.2 |}) <$> installed_package self e.1) packages))
  else Ok [].

Definition list_packages (self : t) (flags : Flags) := query self flags None.
Definition query_keyword (self : t) (keyword : bytes) (flags : Flags) := query self flags (Some (Filter.Keyword keyword)).
Definition query_provider (self : t) (provider : Relation) (flags : Flags) := query self flags (Some (Filter.Provider provider)).
Definition query_name (self : t) (name : bytes) (flags : Flags) := query self flags (Some (Filter.Name name)).

Definition selected_id (self : t) (flags : Flags) (id : bytes) : option bytes :=
  p ← installed_package self id;
  if explicit flags then if explicit p.2 then Some p.1 else None else Some p.1.

Definition query_provider_id_only (self : t) (provider : Relation) (flags : Flags) : result DbError.t (list bytes) :=
  if wanted flags then
    packages ← db_provider_packages (db self) provider;
    Ok (omap (M := list) (selected_id self flags) packages)
  else Ok [].

Definition priority (self : t) : Z := u64_max.
End Active.

(** ** Local archives *)

Module Cobble.
(** The metadata of each added archive, by the id of its metadata. *)
Definition t : Type := list (bytes * Meta).

Definition state_package (meta : Meta) (id : bytes) : Package :=
  {| p_id := id; p_meta := meta; p_flags := with_available no_flags |}.

Definition package (self : t) (id : bytes) : option Package := (fun m => state_package m id) <$> map_get id self.

Definition query (self : t) (flags : Flags) (filter : Meta -> bool) : list Package :=
  if available flags then (fun e => state_package e.2 e.1) <$> List.filter (fun e => filter e.2) self else [].

Definition list_packages (self : t) (flags : Flags) := query self flags (fun _ => true).
Definition query_keyword (self : t) (keyword : bytes) (flags : Flags) :=
  query self flags (fun meta => contains_str keyword (m_name meta) || contains_str keyword (summary meta)).
Definition query_provider (self : t) (provider : Relation) (flags : Flags) :=
  query self flags (fun meta => bool_decide (provider ∈ providers meta)).
Definition query_name (self : t) (name : bytes) (flags : Flags) :=
  query self flags (fun meta => bool_decide (m_name meta = name)).

Definition priority (self : t) : Z := u64_max.
End Cobble.

(** ** Repositories *)

(** [Url::join] *)
Class UrlJoin (U : UrlOps) := url_join : url -> bytes -> option url.

Module Repository.
Section repository.
Context `{U : UrlOps} `{!UrlJoin U} {ManagerError : Type}.

Inductive QueryError := Database (e : DbError.t) | Integrity (e : ManagerError).

(** The database of a cached repository answers with the snapshot its rows belong to;
    [verify_active_snapshot] checks it against the stored index. *)
Record t := {
  get_with_active_snapshot : bytes -> result DbError.t (option Snapshot * option Meta);
  query_with_active_snapshot : option Filter.t -> result DbError.t (option Snapshot * list (bytes * Meta));
  provider_packages_with_active_snapshot : Relation -> result DbError.t (option Snapshot * list bytes);
  verify_active_snapshot : option Snapshot -> result ManagerError Snapshot;
  repository_priority : Z;
}.

Definition priority (self : t) : Z := repository_priority self.

Definition with_uri (uri : option bytes) (m : Meta) : Meta :=
  {| m_name := m_name m; version_identifier := version_identifier m; source_release := source_release m;
     build_release := build_release m; architecture := architecture m; summary := summary m;
     description := description m; source_id := source_id m; homepage := homepage m;
     licenses := licenses m; dependencies := dependencies m; providers := providers m;
     conflicts := conflicts m; uri := uri; hash := hash m; download_size := download_size m |}.

Definition offered (id : bytes) (meta : Meta) : Package :=
  {| p_id := id; p_meta := meta; p_flags := with_available no_flags |}.

Definition absolute_uri (snapshot : Snapshot) (meta : Meta) : option bytes :=
  relative ← uri meta; as_str <$> url_join (index_uri snapshot) relative.

Definition package (self : t) (id : bytes) : result QueryError (option Package) :=
  r ← map_err Database (get_with_active_snapshot self id);
  snapshot ← map_err Integrity (verify_active_snapshot self r.1);
  Ok (fmap (M := option) (fun meta => offered id (with_uri (absolute_uri snapshot meta) meta)) r.2).

Definition wanted (flags : Flags) : bool := available flags || bool_decide (flags = no_flags).

Definition query (self : t) (flags : Flags) (filter : option Filter.t) : result QueryError (list Package) :=
  if wanted flags then
    r ← map_err Database (query_with_active_snapshot self filter);
    map_err Integrity (verify_active_snapshot self r.1);;
    Ok (fmap (M := list) (fun e => offered e.1 e.2) r.2)
  else Ok [].

Definition list_packages (self : t) (flags : Flags) := query self flags None.
Definition query_keyword (self : t) (keyword : bytes) (flags : Flags) := query self flags (Some (Filter.Keyword keyword)).
Definition query_provider (self : t) (provider : Relation) (flags : Flags) := query self flags (Some (Filter.Provider provider)).
Definition query_name (self : t) (name : bytes) (flags : Flags) := query self flags (Some (Filter.Name name)).

Definition query_provider_id_only (self : t) (provider : Relation) (flags : Flags) : result QueryError (list bytes) :=
  if wanted flags then
    r ← map_err Database (provider_packages_with_active_snapshot self provider);
    map_err Integrity (verify_active_snapshot self r.1);;
    Ok r.2
  else Ok [].
End repository.
Arguments t {_} ManagerError.
Arguments QueryError ManagerError : clear implicits.
End Repository.

(** ** Plugins and the registry *)

Section registry.
Context `{U : UrlOps} `{!UrlJoin U} {ManagerError : Type}.

Inductive Plugin :=
  | PActive (plugin : Active.t)
  | PCobble (plugin : Cobble.t)
  | PRepository (plugin : Repository.t ManagerError).

Inductive QueryError :=
  | QActive (e : DbError.t)
  | QRepository (e : Repository.QueryError ManagerError).

Definition priority (self : Plugin) : Z :=
  match self with
  | PActive p => Active.priority p
  | PCobble p => Cobble.priority p
  | PRepository p => Repository.priority p
  end.

Definition plugin_package (id : bytes) (self : Plugin) : result QueryError (option Package) :=
  match self with
  | PActive p => map_err QActive (Active.package p id)
  | PCobble p => Ok (Cobble.package p id)
  | PRepository p => map_err QRepository (Repository.package p id)
  end.

Definition plugin_list (flags : Flags) (self : Plugin) : result QueryError (list Package) :=
  packages ← match self with
             | PActive p => map_err QActive (Active.list_packages p flags)
             | PCobble p => Ok (Cobble.list_packages p flags)
             | PRepository p => map_err QRepository (Repository.list_packages p flags)
             end;
  Ok (sort packages).

Definition plugin_keyword (keyword : bytes) (flags : Flags) (self : Plugin) : result QueryError (list Package) :=
  packages ← match self with
             | PActive p => map_err QActive (Active.query_keyword p keyword flags)
             | PCobble p => Ok (Cobble.query_keyword p keyword flags)
             | PRepository p => map_err QRepository (Repository.query_keyword p keyword flags)
             end;
  Ok (sort packages).

Definition plugin_provider (provider : Relation) (flags : Flags) (self : Plugin) : result QueryError (list Package) :=
  packages ← match self with
             | PActive p => map_err QActive (Active.query_provider p provider flags)
             | PCobble p => Ok (Cobble.query_provider p provider flags)
             | PRepository p => map_err QRepository (Repository.query_provider p provider flags)
             end;
  Ok (sort packages).

Definition plugin_provider_id_only (provider : Relation) (flags : Flags) (self : Plugin) : result QueryError (list bytes) :=
  ids ← match self with
        | PActive p => map_err QActive (Active.query_provider_id_only p provider flags)
        | PCobble p => Ok (p_id <$> Cobble.query_provider p provider flags)
        | PRepository p => map_err QRepository (Repository.query_provider_id_only p provider flags)
        end;
  Ok (sort ids).

Definition plugin_name (name : bytes) (flags : Flags) (self : Plugin) : result QueryError (list Package) :=
  packages ← match self with
             | PActive p => map_err QActive (Active.query_name p name flags)
             | PCobble p => Ok (Cobble.query_name p name flags)
             | PRepository p => map_err QRepository (Repository.query_name p name flags)
             end;
  Ok (sort packages).

Definition Registry : Type := list Plugin.

Definition add_plugin (self : Registry) (plugin : Plugin) : Registry := self ++ [plugin].

(** [sorted_by(|a, b| a.priority().cmp(&b.priority()).reverse())] *)
#[global] Instance by_priority : Cmp Plugin := fun a b => reverse (cmp (priority a) (priority b)).

Fixpoint query_each {T} (query : Plugin -> result QueryError (list T)) (plugins : list Plugin) : result QueryError (list T) :=
  match plugins with
  | [] => Ok []
  | plugin :: plugins' =>
      values ← query plugin;
      rest ← query_each query plugins';
      Ok (values ++ rest)
  end.

Definition registry_query {T} (self : Registry) (query : Plugin -> result QueryError (list T)) : result QueryError (list T) :=
  query_each query (sort self).

Definition by_provider (self : Registry) (provider : Relation) (flags : Flags) := registry_query self (plugin_provider provider flags).
Definition by_provider_id_only (self : Registry) (provider : Relation) (flags : Flags) :=
  registry_query self (plugin_provider_id_only provider flags).
Definition by_name (self : Registry) (name : bytes) (flags : Flags) := registry_query self (plugin_name name flags).
Definition by_id (self : Registry) (id : bytes) : result QueryError (list Package) :=
  registry_query self (fun plugin => p ← plugin_package id plugin; Ok (option_list p)).
Definition by_keyword (self : Registry) (keyword : bytes) (flags : Flags) := registry_query self (plugin_keyword keyword flags).
Definition registry_list (self : Registry) (flags : Flags) := registry_query self (plugin_list flags).
Definition list_installed (self : Registry) := registry_list self (with_installed no_flags).
End registry.
Arguments Plugin {_} ManagerError.
Arguments QueryError ManagerError : clear implicits.
Arguments Registry {_} ManagerError.
