(* ===== verification/RegistryTheorems.v ===== *)
(** * Theorems of the registry

    Against databases that answer as [MetaDbTheorems] shows the metadata database does,
    a query by provider returns exactly the offered packages that provide the relation,
    by priority and then by release; the query for ids alone returns the same packages
    in another order. *)

From S2P Require Import Prelude Ordered StoneRelation PackageMeta PackageMetaTheorems SqlDb MetaDb MetaDbSpec MetaDbTheorems Registry.

(** ** Orders *)

#[global] Instance package_cmp_pre : CmpPre Package.
Proof.
  split.
  - intros a b. unfold cmp, package_cmp, cmp, Z_cmp, then_with. rewrite !(Z.compare_antisym (source_release (p_meta b))).
    rewrite !(Z.compare_antisym (build_release (p_meta b))).
    destruct (Z.compare (source_release (p_meta b)) (source_release (p_meta a))), (Z.compare (build_release (p_meta b)) (build_release (p_meta a))); done.
  - intros a b c. unfold cmp, package_cmp, cmp, Z_cmp, then_with.
    destruct (Z.compare_spec (source_release (p_meta a)) (source_release (p_meta b)));
    destruct (Z.compare_spec (source_release (p_meta b)) (source_release (p_meta c)));
    destruct (Z.compare_spec (source_release (p_meta a)) (source_release (p_meta c)));
    destruct (Z.compare_spec (build_release (p_meta a)) (build_release (p_meta b)));
    destruct (Z.compare_spec (build_release (p_meta b)) (build_release (p_meta c)));
    destruct (Z.compare_spec (build_release (p_meta a)) (build_release (p_meta c))); cbn; try done; lia.
Qed.

(** Flags are sets of bits: containment is containment of flags. *)
Lemma flags_contain_iff f g :
  flags_contain f g = true
  <-> (available g = true -> available f = true) /\ (installed g = true -> installed f = true)
      /\ (source g = true -> source f = true) /\ (explicit g = true -> explicit f = true).
Proof. destruct f as [[] [] [] []], g as [[] [] [] []]; vm_compute; intuition done. Qed.

(** ** Answers of databases *)

(** Equal but for the order and multiplicity of licences. *)
Definition agrees (m m' : Meta) : Prop :=
  m' = {| m_name := m_name m; version_identifier := version_identifier m; source_release := source_release m;
          build_release := build_release m; architecture := architecture m; summary := summary m;
          description := description m; source_id := source_id m; homepage := homepage m;
          licenses := licenses m'; dependencies := dependencies m; providers := providers m;
          conflicts := conflicts m; uri := uri m; hash := hash m; download_size := download_size m |}
  /\ forall l, l ∈ licenses m' <-> l ∈ licenses m.

Lemma agrees_refl m : agrees m m.
Proof. split; [by destruct m|done]. Qed.

Lemma stored_agrees m m' : storable m -> stored_as m m' -> agrees m m'.
Proof.
  intros Hm (E & _ & Hl). split; [|done]. rewrite E at 1. rewrite <- (meta_of_row_of m Hm) at 2.
  unfold meta_of_row at 1. f_equal; rewrite <- (meta_of_row_of m Hm) at 2; done.
Qed.

Section plugins.
Context `{S : Sqlite} `{U : UrlOps} `{!UrlJoin U} {ManagerError : Type}.
Abbreviation Plugin := (Plugin ManagerError).

(** What the plugins rely on of the databases they query. *)
Definition query_answers (v : view) {E} (q : option Filter.t -> result E (list (bytes * Meta))) : Prop :=
  forall f es, q f = Ok es ->
    NoDup es.*1
    /\ (forall id m', (id, m') ∈ es -> exists m, v !! id = Some m /\ filter_holds f m /\ agrees m m')
    /\ (forall id m, v !! id = Some m -> filter_holds f m -> id ∈ es.*1).
Definition provider_answers (v : view) {E} (q : Relation -> result E (list bytes)) : Prop :=
  forall p ids, q p = Ok ids -> providing p v ids.

(** The packages a plugin holds. *)
Definition backed (plugin : Plugin) (v : view) : Prop :=
  match plugin with
  | PActive a => query_answers v (db_query (Active.db a)) /\ provider_answers v (db_provider_packages (Active.db a))
  | PCobble c => sorted c.*1 /\ v = list_to_map c
  | PRepository r =>
      query_answers v (fun f => snd <$> Repository.query_with_active_snapshot r f)
      /\ provider_answers v (fun p => snd <$> Repository.provider_packages_with_active_snapshot r p)
  end.

(** The flags with which a plugin offers a package it holds, to a query with [flags]. *)
Definition offer (plugin : Plugin) (flags : Flags) (id : bytes) : option Flags :=
  match plugin with
  | PActive a =>
      if Active.wanted flags then
        p ← Active.installed_package a id;
        if explicit flags && negb (explicit p.2) then None else Some p.2
      else None
  | PCobble _ => if available flags then Some (with_available no_flags) else None
  | PRepository _ => if Repository.wanted flags then Some (with_available no_flags) else None
  end.

(** The offered packages that provide a relation, once each. *)
Definition exactly_provided (plugin : Plugin) (v : view) (flags : Flags) (p : Relation) (ps : list Package) : Prop :=
  NoDup (p_id <$> ps)
  /\ (forall pkg, pkg ∈ ps -> exists m,
        v !! p_id pkg = Some m /\ p ∈ providers m /\ agrees m (p_meta pkg)
        /\ offer plugin flags (p_id pkg) = Some (p_flags pkg))
  /\ (forall id m f, v !! id = Some m -> p ∈ providers m -> offer plugin flags id = Some f ->
        exists pkg, pkg ∈ ps /\ p_id pkg = id).

Lemma exactly_provided_perm plugin v flags p ps qs :
  ps ≡ₚ qs -> exactly_provided plugin v flags p ps -> exactly_provided plugin v flags p qs.
Proof using Type. intros Hp (H1 & H2 & H3). unfold exactly_provided. setoid_rewrite <- Hp. done. Qed.

Definition of_entry (f : bytes -> option Flags) (e : bytes * Meta) : option Package :=
  (fun fl => {| p_id := e.1; p_meta := e.2; p_flags := fl |}) <$> f e.1.

(** Packages made of the entries of an answer. *)
Lemma exactly_entries plugin v flags p es ps :
  ps = omap (of_entry (offer plugin flags)) es ->
  (NoDup es.*1
   /\ (forall id m', (id, m') ∈ es -> exists m, v !! id = Some m /\ p ∈ providers m /\ agrees m m')
   /\ (forall id m, v !! id = Some m -> p ∈ providers m -> id ∈ es.*1)) ->
  exactly_provided plugin v flags p ps.
Proof using Type.
  intros -> (H1 & H2 & H3). split_and!.
  - clear H2 H3. induction es as [|[id m] es IH]; cbn; [constructor|]. apply NoDup_cons in H1 as [Hn H1].
    unfold of_entry at 1. cbn. destruct (offer plugin flags id); cbn; [|auto]. constructor; [|auto].
    rewrite list_elem_of_fmap. intros (pkg & E & Hin). apply list_elem_of_omap in Hin as ([id' m'] & Hin & Ho).
    apply Hn, list_elem_of_fmap. exists (id', m'). split; [|done]. cbn in *. rewrite E. unfold of_entry in Ho. cbn in Ho.
    destruct (offer plugin flags id'); [|done]. by injection Ho as <-.
  - intros pkg Hin. apply list_elem_of_omap in Hin as ([id m'] & Hin & Ho). unfold of_entry in Ho. cbn in Ho.
    destruct (offer plugin flags id) eqn:E; [|done]. injection Ho as <-. cbn. destruct (H2 id m' Hin) as (m & ? & ? & ?). eauto.
  - intros id m f Hm Hp Ho. destruct (proj1 (list_elem_of_fmap _ _ _) (H3 id m Hm Hp)) as ([id' m'] & -> & Hin). cbn in *.
    exists {| p_id := id'; p_meta := m'; p_flags := f |}. split; [|done]. apply list_elem_of_omap. exists (id', m').
    split; [done|]. unfold of_entry. cbn. by rewrite Ho.
Qed.

Lemma omap_all {A B} (f : A -> B) (l : list A) : omap (fun x => Some (f x)) l = f <$> l.
Proof using Type. induction l as [|x l IH]; [done|]. cbn in *. by rewrite IH. Qed.

Lemma active_entries a flags es :
  Active.wanted flags = true ->
  List.filter (fun p => if explicit flags then explicit (p_flags p) else true)
    (omap (fun e => (fun p => {| p_id := p.1; p_meta := e.2; p_flags := p.2 |}) <$> Active.installed_package a e.1) es)
  = omap (of_entry (offer (PActive a) flags)) es.
Proof using Type.
  intros Hw. induction es as [|[id m] es IH]; [done|]. cbn [omap list_omap].
  assert (forall p, Active.installed_package a id = Some p -> p.1 = id) as Hid.
  { unfold Active.installed_package. destruct (Active.state a); cbn; [|done]. destruct (List.find _ _); cbn; [|done]. by intros p [= <-]. }
  unfold of_entry at 1. unfold offer at 1. cbn [fst snd]. rewrite Hw. destruct (Active.installed_package a id) as [[id' f]|]; cbn; [|exact IH].
  pose proof (Hid _ eq_refl) as E. cbn in E. subst id'. destruct (explicit flags), (explicit f); cbn; try (f_equal; exact IH).
Qed.

(** A plugin that is not asked offers nothing. *)
Lemma exactly_nothing plugin v flags p :
  (forall id, offer plugin flags id = None) -> exactly_provided plugin v flags p [].
Proof using Type.
  intros Ho. split_and!; [constructor|by intros pkg ?%elem_of_nil|]. intros id m f _ _. by rewrite Ho.
Qed.

Lemma active_provider a v flags p ps :
  backed (PActive a) v -> Active.query_provider a p flags = Ok ps -> exactly_provided (PActive a) v flags p ps.
Proof using Type.
  intros [Hb _] Hq. unfold Active.query_provider, Active.query in Hq. destruct (Active.wanted flags) eqn:Hw.
  - apply bind_ok_iff in Hq as (es & Hes & [= <-]). destruct (Hb _ _ Hes) as (H1 & H2 & H3).
    eapply exactly_entries; [by apply active_entries|done].
  - injection Hq as <-. apply exactly_nothing. intros id. cbn. by rewrite Hw.
Qed.

Lemma cobble_provider c v flags p :
  backed (PCobble c) v -> exactly_provided (PCobble c) v flags p (Cobble.query_provider c p flags).
Proof using Type.
  intros [Hs ->]. apply sorted_NoDup in Hs. unfold Cobble.query_provider, Cobble.query.
  destruct (available flags) eqn:Ha; [|apply exactly_nothing; intros id; cbn; by rewrite Ha].
  eapply (exactly_entries _ _ _ _ (List.filter (fun e => bool_decide (p ∈ providers e.2)) c)).
  { unfold offer. rewrite Ha. symmetry. apply (omap_all (fun e => Cobble.state_package e.2 e.1)). }
  assert (forall id m, (id, m) ∈ List.filter (fun e => bool_decide (p ∈ providers e.2)) c
            <-> (list_to_map c : view) !! id = Some m /\ p ∈ providers m) as Hf.
  { intros id m. rewrite list_elem_of_In, filter_In, <- list_elem_of_In, bool_decide_eq_true.
    by rewrite elem_of_list_to_map. }
  split_and!; [by apply NoDup_filter_keys| |].
  - intros id m' [? ?]%Hf. exists m'. split_and!; [done..|apply agrees_refl].
  - intros id m Hm Hp. apply list_elem_of_fmap. exists (id, m). split; [done|]. by apply Hf.
Qed.

Lemma repository_provider r v flags p ps :
  backed (PRepository r) v -> Repository.query_provider r p flags = Ok ps -> exactly_provided (PRepository r) v flags p ps.
Proof using Type.
  intros [Hb _] Hq. unfold Repository.query_provider, Repository.query in Hq. destruct (Repository.wanted flags) eqn:Hw.
  - inv_ok. destruct (Hb (Some (Filter.Provider p)) x.2) as (H1 & H2 & H3); [by rewrite Hr|].
    eapply exactly_entries; [|done]. unfold offer. rewrite Hw. symmetry. apply (omap_all (fun e => Repository.offered e.1 e.2)).
  - injection Hq as <-. apply exactly_nothing. intros id. cbn. by rewrite Hw.
Qed.

Lemma plugin_provider_spec plugin v flags p ps :
  backed plugin v -> plugin_provider p flags plugin = Ok ps -> ascending ps /\ exactly_provided plugin v flags p ps.
Proof using Type.
  intros Hb Hq. unfold plugin_provider in Hq. apply bind_ok_iff in Hq as (raw & Hq & [= <-]). split; [apply sort_ascending|].
  eapply exactly_provided_perm; [symmetry; apply sort_perm|]. destruct plugin as [a|c|r].
  - apply map_err_ok_iff in Hq. by apply active_provider.
  - injection Hq as <-. by apply cobble_provider.
  - apply map_err_ok_iff in Hq. by apply repository_provider.
Qed.

(** ** Ids alone *)

Definition exactly_ids (plugin : Plugin) (v : view) (flags : Flags) (p : Relation) (ids : list bytes) : Prop :=
  NoDup ids
  /\ forall id, id ∈ ids <-> exists m f, v !! id = Some m /\ p ∈ providers m /\ offer plugin flags id = Some f.

Lemma exactly_ids_perm plugin v flags p ids ids' :
  ids ≡ₚ ids' -> exactly_ids plugin v flags p ids -> exactly_ids plugin v flags p ids'.
Proof using Type. intros Hp (H1 & H2). unfold exactly_ids. setoid_rewrite <- Hp. done. Qed.

Lemma provided_ids plugin v flags p ps : exactly_provided plugin v flags p ps -> exactly_ids plugin v flags p (p_id <$> ps).
Proof using Type.
  intros (H1 & H2 & H3). split; [done|]. intros id. rewrite list_elem_of_fmap. split.
  - intros (pkg & -> & Hin). destruct (H2 pkg Hin) as (m & ? & ? & _ & ?). eauto.
  - intros (m & f & Hm & Hp & Ho). destruct (H3 id m f Hm Hp Ho) as (pkg & Hin & <-). eauto.
Qed.

Lemma same_ids plugin v flags p ids ids' :
  exactly_ids plugin v flags p ids -> exactly_ids plugin v flags p ids' -> ids ≡ₚ ids'.
Proof using Type. intros [H1 H2] [H3 H4]. apply NoDup_Permutation; [done..|]. intros id. by rewrite H2, H4. Qed.

Lemma selected_offer a flags id :
  Active.wanted flags = true ->
  Active.selected_id a flags id = (fun _ => id) <$> offer (PActive a) flags id.
Proof using Type.
  intros Hw. cbn. rewrite Hw. unfold Active.selected_id, Active.installed_package.
  destruct (Active.state a); cbn; [|done]. destruct (List.find _ _); cbn; [|done]. by destruct (explicit flags), (sel_explicit s).
Qed.

Lemma active_ids a v flags p ids :
  backed (PActive a) v -> Active.query_provider_id_only a p flags = Ok ids -> exactly_ids (PActive a) v flags p ids.
Proof using Type.
  intros [_ Hb] Hq. unfold Active.query_provider_id_only in Hq. destruct (Active.wanted flags) eqn:Hw.
  - apply bind_ok_iff in Hq as (es & Hes & [= <-]). destruct (Hb _ _ Hes) as [H1 H2]. split.
    + clear H2 Hes Hb. induction H1 as [|id es Hn Hd IH]; cbn; [constructor|]. rewrite selected_offer by done.
      destruct (offer (PActive a) flags id); cbn; [|done]. constructor; [|done]. rewrite list_elem_of_omap.
      intros (id' & Hin & E). rewrite selected_offer in E by done. destruct (offer (PActive a) flags id'); [|done].
      injection E as ->. done.
    + intros id. rewrite list_elem_of_omap. setoid_rewrite H2. setoid_rewrite selected_offer; [|done]. split.
      * intros (id' & (m & Hm & Hp) & E). destruct (offer (PActive a) flags id') eqn:Eo; [|done]. injection E as ->. eauto.
      * intros (m & f & Hm & Hp & Ho). exists id. split; [eauto|]. by rewrite Ho.
  - injection Hq as <-. split; [constructor|]. intros id. rewrite elem_of_nil. split; [done|].
    intros (m & f & _ & _ & Ho). cbn in Ho. by rewrite Hw in Ho.
Qed.

Lemma repository_ids r v flags p ids :
  backed (PRepository r) v -> Repository.query_provider_id_only r p flags = Ok ids -> exactly_ids (PRepository r) v flags p ids.
Proof using Type.
  intros [_ Hb] Hq. unfold Repository.query_provider_id_only in Hq. destruct (Repository.wanted flags) eqn:Hw.
  - inv_ok. destruct (Hb p x.2) as [H1 H2]; [by rewrite Hr|]. split; [done|]. intros id. rewrite H2. cbn. rewrite Hw. naive_solver.
  - injection Hq as <-. split; [constructor|]. intros id. rewrite elem_of_nil. split; [done|].
    intros (m & f & _ & _ & Ho). cbn in Ho. by rewrite Hw in Ho.
Qed.

Lemma plugin_id_only_spec plugin v flags p ids :
  backed plugin v -> plugin_provider_id_only p flags plugin = Ok ids -> ascending ids /\ exactly_ids plugin v flags p ids.
Proof using Type.
  intros Hb Hq. unfold plugin_provider_id_only in Hq. apply bind_ok_iff in Hq as (raw & Hq & [= <-]). split; [apply sort_ascending|].
  eapply exactly_ids_perm; [symmetry; apply sort_perm|]. destruct plugin as [a|c|r].
  - apply map_err_ok_iff in Hq. by apply active_ids.
  - injection Hq as <-. by apply provided_ids, cobble_provider.
  - apply map_err_ok_iff in Hq. by apply repository_ids.
Qed.

(** ** The registry *)

#[local] Instance by_priority_pre : @CmpPre Plugin by_priority.
Proof using Type.
  split; unfold cmp, by_priority.
  - intros a b. by rewrite (cmp_opp (priority a) (priority b)).
  - intros a b c. rewrite <- !(cmp_opp (A := Z)). intros Hab Hbc. by apply (cmp_le_trans _ (priority b)).
Qed.

(** The answers of the plugins, in the order of their priority. *)
Lemma query_each_answers {T} (q : Plugin -> result (QueryError ManagerError) (list T)) l values :
  query_each q l = Ok values -> exists parts,
    Forall2 (fun plugin part => q plugin = Ok part) l parts /\ values = concat parts.
Proof using Type.
  revert values. induction l as [|plugin l IH]; intros values; cbn [query_each].
  - intros [= <-]. by exists [].
  - intros Hq. inv_ok. destruct (IH _ Hr1) as (parts & Hp & ->). exists (x :: parts). split; [by constructor|done].
Qed.

(** Plugins from the highest priority down, those of equal priority as they were added. *)
Definition by_descending_priority (l : list Plugin) : Prop := StronglySorted (fun a b => priority b <= priority a)%Z l.

Lemma sort_descends (reg : Registry ManagerError) : by_descending_priority (sort reg).
Proof using Type.
  unfold by_descending_priority. induction (sort_ascending reg) as [|a l Hl IH Ha]; [constructor|]. constructor; [done|].
  eapply Forall_impl; [exact Ha|]. intros b. unfold cmp, by_priority. rewrite <- (cmp_opp (A := Z)).
  unfold cmp, Z_cmp. intros Hle. by apply Z.compare_le_iff.
Qed.

Context (content : Plugin -> view).


(** The query for ids alone finds the packages [by_provider] finds, plugin by
    plugin, but orders those of a plugin by their id, not by their release. *)
Theorem id_only_same_packages reg p flags ps ids :
  (forall plugin, plugin ∈ reg -> backed plugin (content plugin)) ->
  by_provider reg p flags = Ok ps -> by_provider_id_only reg p flags = Ok ids ->
  exists parts idparts,
    ps = concat parts /\ ids = concat idparts
    /\ Forall2 (fun part idpart => idpart ≡ₚ p_id <$> part /\ ascending part /\ ascending idpart) parts idparts.
Proof using Type.
  intros Hb (parts & Hp & ->)%query_each_answers (idparts & Hi & ->)%query_each_answers. exists parts, idparts. split_and!; [done..|].
  assert (forall plugin, plugin ∈ sort reg -> backed plugin (content plugin)) as Hb' by (intros plugin; rewrite sort_perm; apply Hb).
  clear Hb. revert idparts Hi. induction Hp as [|plugin part l parts Hq Hp IH]; intros idparts Hi.
  - inversion Hi. constructor.
  - inversion Hi as [|? idpart ? idparts' Hq' Hi']; subst. constructor; [|apply IH; [|done]; intros plugin' H'; apply Hb'; by right].
    assert (backed plugin (content plugin)) as Hpl by (apply Hb'; left).
    destruct (plugin_provider_spec plugin _ flags p part Hpl Hq) as [H1 H2].
    destruct (plugin_id_only_spec plugin _ flags p idpart Hpl Hq') as [H3 H4]. split_and!; [|done..].
    eapply same_ids; [done|]. by apply provided_ids.
Qed.
End plugins.

(** ** The metadata database behind the plugins *)

Section discharge.
Context `{S : Sqlite} {SL : SqliteLaws S} `{U : UrlOps} `{!UrlJoin U} {ManagerError : Type}.

Definition database_of (c : conn) : Database :=
  {| db_get id := get id c; db_query f := query f c; db_provider_packages p := provider_packages p c |}.

Definition repository_of (c : conn) (verify : option Snapshot -> result ManagerError Snapshot) (priority : Z) :
    Repository.t ManagerError :=
  {| Repository.get_with_active_snapshot id := get_with_active_snapshot id c;
     Repository.query_with_active_snapshot f := query_with_active_snapshot f c;
     Repository.provider_packages_with_active_snapshot p := provider_packages_with_active_snapshot p c;
     Repository.verify_active_snapshot := verify;
     Repository.repository_priority := priority |}.

Lemma answers_query v f es :
  (forall id m, v !! id = Some m -> storable m) -> answers f v es ->
  NoDup es.*1
  /\ (forall id m', (id, m') ∈ es -> exists m, v !! id = Some m /\ filter_holds f m /\ agrees m m')
  /\ (forall id m, v !! id = Some m -> filter_holds f m -> id ∈ es.*1).
Proof using Type.
  intros Hst (H1 & H2 & H3). split_and!; [by apply sorted_NoDup| |done]. intros id m' Hin.
  destruct (H2 id m' Hin) as (m & Hm & Hf & Hs). exists m. split_and!; [done..|]. apply stored_agrees; eauto.
Qed.

Lemma active_backed t v faults state :
  stores t v -> backed (PActive (ManagerError := ManagerError) {| Active.state := state; Active.db := database_of (t, faults) |}) v.
Proof using SL.
  intros Hs. split.
  - intros f es E. cbn [db_query Active.db database_of] in E. pose proof (query_exact t v faults f Hs) as Hq. rewrite E in Hq.
    apply answers_query; [|done]. intros id m. by apply st_storable with (t := t).
  - intros p ids E. cbn [db_provider_packages Active.db database_of] in E. pose proof (provider_packages_exact t v faults p Hs) as Hq. by rewrite E in Hq.
Qed.

Lemma tx_bind_ok {A B} (f : tx A) (g : A -> tx B) c r : (f ≫= g) c = Ok r -> exists a c', f c = Ok (a, c') /\ g a c' = Ok r.
Proof using Type. unfold mbind, tx_bind. destruct (f c) as [[a c']|]; [eauto|done]. Qed.

Lemma statement_tables {A} (f : tables -> result DbError.t (A * tables)) c a c' :
  (forall t b t', f t = Ok (b, t') -> t' = t) -> statement f c = Ok (a, c') -> c'.1 = c.1.
Proof using Type.
  intros Hf. destruct c as [t faults]. unfold statement. destruct faults as [|[] fs]; [|done|]; intros Hr; inv_ok; cbn;
    destruct x as [b t']; cbn in *; by eapply Hf.
Qed.

Lemma active_snapshot_tables c s c' : active_snapshot_impl c = Ok (s, c') -> c'.1 = c.1.
Proof using Type.
  intros (row & c1 & H1 & H2)%tx_bind_ok. apply statement_tables in H1; [|by intros t b t' [= _ <-]]. rewrite <- H1.
  destruct row as [stored|]; [|by injection H2 as _ <-]. apply tx_bind_ok in H2 as (s' & c2 & H2 & [= _ <-]).
  unfold lift in H2. by inv_ok.
Qed.

(** The part of a transaction that answers a query sees the tables as they are. *)
Lemma with_snapshot_result {A} (f : tx A) t faults s a P :
  with_active_snapshot f (t, faults) = Ok (s, a) -> runs f t P -> exists t', P a t'.
Proof using Type.
  intros E Hr. unfold with_active_snapshot, exec in E. apply bind_ok_iff in E as ([[s' a'] c] & E & [= <- <-]).
  apply tx_bind_ok in E as ([] & c1 & E1 & E). unfold update in E1. apply statement_tables in E1; [|by intros t0 b t' [= _ <-]].
  apply tx_bind_ok in E as (s0 & c2 & E2 & E). apply active_snapshot_tables in E2.
  apply tx_bind_ok in E as (a0 & c3 & E3 & E). apply tx_bind_ok in E as ([] & c4 & _ & [= <- <- _]).
  destruct c2 as [t2 fs]. cbn in *. rewrite E1 in E2. subst t2. specialize (Hr fs). rewrite E3 in Hr.
  destruct c3 as [t3 fs3]. destruct Hr as [Hr _]. eauto.
Qed.

Lemma repository_backed t v faults verify priority :
  stores t v -> backed (PRepository (repository_of (t, faults) verify priority)) v.
Proof using SL.
  intros Hs. split.
  - intros f es E. cbn [repository_of Repository.query_with_active_snapshot] in E. unfold query_with_active_snapshot in E.
    destruct (with_active_snapshot (query_impl f) (t, faults)) as [[s es']|] eqn:Ew; [|done]. injection E as <-.
    destruct (with_snapshot_result _ _ _ _ _ _ Ew (query_runs f t v Hs)) as (t' & Ha & _).
    apply answers_query; [|done]. intros id m. by apply st_storable with (t := t).
  - intros p ids E. cbn [repository_of Repository.provider_packages_with_active_snapshot] in E.
    unfold provider_packages_with_active_snapshot in E.
    destruct (with_active_snapshot (provider_packages_impl p) (t, faults)) as [[s ids']|] eqn:Ew; [|done]. injection E as <-.
    destruct (with_snapshot_result _ _ _ _ _ _ Ew (provider_packages_runs p t v Hs)) as (t' & Hd & Hi & _). by split.
Qed.
End discharge.

(** ** Two releases of a package in local archives *)

Module Releases.
#[export] Existing Instances Local.sqlite Local.url_ops.
#[export] Instance join : UrlJoin Local.url_ops := fun u _ => Some u.

Definition nano (release : Z) : Meta :=
  {| m_name := bstr "nano"; version_identifier := bstr "8.2"; source_release := release; build_release := 1;
     architecture := bstr "x86_64"; summary := []; description := []; source_id := bstr "nano"; homepage := [];
     licenses := []; dependencies := []; providers := [package_name (bstr "nano")]; conflicts := [];
     uri := None; hash := None; download_size := None |}.

Definition archives : Cobble.t := [(bstr "nano-8.2-1.x86_64", nano 1); (bstr "nano-8.2-2.x86_64", nano 2)].
Definition registry : Registry unit := [PCobble archives].
Definition content (p : Plugin unit) : view := list_to_map archives.

Lemma held : forall plugin, plugin ∈ registry -> backed plugin (content plugin).
Proof. intros plugin ->%list_elem_of_singleton. split; [|done]. repeat constructor. Qed.
End Releases.
Import Releases.


(** The newer release is the first package and the second id. *)
Lemma id_only_same_packages_witness : exists ps ids parts idparts,
  by_provider registry (package_name (bstr "nano")) (with_available no_flags) = Ok ps
  /\ by_provider_id_only registry (package_name (bstr "nano")) (with_available no_flags) = Ok ids
  /\ p_id <$> ps = [bstr "nano-8.2-2.x86_64"; bstr "nano-8.2-1.x86_64"]
  /\ ids = [bstr "nano-8.2-1.x86_64"; bstr "nano-8.2-2.x86_64"]
  /\ ps = concat parts /\ ids = concat idparts.
Proof.
  destruct (id_only_same_packages content registry (package_name (bstr "nano")) (with_available no_flags)
    [Cobble.state_package (nano 2) (bstr "nano-8.2-2.x86_64"); Cobble.state_package (nano 1) (bstr "nano-8.2-1.x86_64")]
    [bstr "nano-8.2-1.x86_64"; bstr "nano-8.2-2.x86_64"] held eq_refl eq_refl)
    as (parts & idparts & H1 & H2 & _).
  eexists _, _, parts, idparts. split_and!; [reflexivity|reflexivity|reflexivity|reflexivity|done..].
Defined.
