(* ===== verification/Transaction.v ===== *)
(** * Transactions

    [crates/forge/src/registry/transaction.rs]: the graph of the packages of a new state,
    to which packages are added with all they depend on, and from which they are removed
    with all that depends on them.  The registry is seen through [RegistryOps], which
    [Registry] implements. *)

From S2P Require Import Prelude ByteStrings Ordered StoneRelation PackageMeta SqlDb MetaDb Registry DagGraph.
Import Petgraph DagGraph.

(** Relations are keys of a [HashMap]. *)
Definition unprint (s : bytes) : option Relation :=
  p ← split_once LPAREN s;
  k ← Kind.parse p.1;
  Some {| rel_kind := k; rel_name := but_last p.2 |}.

Lemma unprint_to_string r : unprint (StoneRelation.to_string r) = Some r.
Proof.
  unfold unprint. rewrite split_to_string. cbn [mbind option_bind fst snd].
  rewrite (proj2 (kind_parse _ _) eq_refl). cbn. rewrite but_last_snoc. by destruct r.
Qed.

#[global] Instance relation_countable : Countable Relation :=
  inj_countable StoneRelation.to_string unprint unprint_to_string.

Module Lookup.
Inductive t := InstalledOnly | AvailableOnly | PreferInstalled | PreferAvailable.
End Lookup.

Module ProviderFilter.
Inductive t := Installed (p : Relation) | Selections (p : Relation) | Available (p : Relation).
End ProviderFilter.

(** What a transaction asks of the registry. *)
Class RegistryOps := {
  reg_error : Type;
  reg_by_id : bytes -> result reg_error (list Package);
  reg_by_provider_id_only : Relation -> Flags -> result reg_error (list bytes);
}.

#[global] Instance registry_ops `{U : UrlOps} `{!UrlJoin U} {ManagerError} (reg : Registry ManagerError) : RegistryOps :=
  {| reg_error := QueryError ManagerError;
     reg_by_id := by_id reg;
     reg_by_provider_id_only := by_provider_id_only reg |}.

Section transaction.
Context `{R : RegistryOps} {D : DiGraph bytes}.

Inductive TxError :=
  | NoCandidate (name : bytes)
  | NotImplemented
  | DependencyCycle (cycle : list bytes)
  | RegistryError (e : reg_error).

Record Transaction := {
  packages : graph;
  lookup : Lookup.t;
  selection_providers : gmap Relation bytes;
}.

Definition transaction_new (l : Lookup.t) : Transaction :=
  {| packages := default; lookup := l; selection_providers := ∅ |}.

Definition set_packages (g : graph) (self : Transaction) : Transaction :=
  {| packages := g; lookup := lookup self; selection_providers := selection_providers self |}.
Definition set_providers (m : gmap Relation bytes) (self : Transaction) : Transaction :=
  {| packages := packages self; lookup := lookup self; selection_providers := m |}.

(** ** Removal and results *)

Definition remove (ids : list bytes) (self : Transaction) : Transaction :=
  let sub := subgraph ids (transpose (packages self)) in
  set_packages (foldl (fun g package => (remove_node package g).2) (packages self) (iter_nodes sub)) self.

Definition finalize (self : Transaction) : list bytes := topo (packages self).

Definition tx_dependencies (self : Transaction) (package : bytes) : list bytes := successors package (packages self).

(** ** Resolution *)

Definition first_id (provider : Relation) (flags : Flags) : result TxError bytes :=
  ids ← map_err RegistryError (reg_by_provider_id_only provider flags);
  ok_or (head ids) (NoCandidate (StoneRelation.to_string provider)).

Definition resolve_provider_with_filter (self : Transaction) (filter : ProviderFilter.t) : result TxError bytes :=
  match filter with
  | ProviderFilter.Available p => first_id p (with_available no_flags)
  | ProviderFilter.Installed p => first_id p (with_installed no_flags)
  | ProviderFilter.Selections p => ok_or (selection_providers self !! p) (NoCandidate (StoneRelation.to_string p))
  end.

Fixpoint try_filters (self : Transaction) (missing : option bytes) (filters : list ProviderFilter.t) : result TxError bytes :=
  match filters with
  | [] => Err (NoCandidate (from_option id [] missing))
  | filter :: filters' =>
      match resolve_provider_with_filter self filter with
      | Ok package => Ok package
      | Err (NoCandidate provider) => try_filters self (Some provider) filters'
      | Err e => Err e
      end
  end.

Definition resolve_filters (self : Transaction) (filters : list ProviderFilter.t) : result TxError bytes :=
  try_filters self None filters.

Definition resolve_provider (self : Transaction) (p : Relation) : result TxError bytes :=
  match lookup self with
  | Lookup.InstalledOnly => resolve_filters self [ProviderFilter.Selections p; ProviderFilter.Installed p]
  | Lookup.AvailableOnly => resolve_filters self [ProviderFilter.Selections p; ProviderFilter.Available p]
  | Lookup.PreferInstalled =>
      resolve_filters self [ProviderFilter.Selections p; ProviderFilter.Installed p; ProviderFilter.Available p]
  | Lookup.PreferAvailable =>
      resolve_filters self [ProviderFilter.Selections p; ProviderFilter.Available p; ProviderFilter.Installed p]
  end.

(** ** Addition: the transaction and the ids for the next round, also after an error *)

Definition work : Type := Transaction * list bytes.

Definition add_dependency (check_node : nat) (provider : Relation) (s : work) : result TxError unit * work :=
  let '(self, next) := s in
  match resolve_provider self provider with
  | Err e => (Err e, s)
  | Ok search_id =>
      let need_search := negb (node_exists search_id (packages self)) in
      let '(dep_node, g) := add_node_or_get_index search_id (packages self) in
      let self := set_packages g self in
      let self := if need_search then set_providers (<[provider := search_id]> (selection_providers self)) self else self in
      let next := if need_search then next ++ [search_id] else next in
      let '(r, g) := try_add_edge check_node dep_node g in
      let self := set_packages g self in
      match r with
      | Ok _ => (Ok tt, (self, next))
      | Err path => (Err (DependencyCycle path), (self, next))
      end
  end.

Fixpoint add_dependencies (check_node : nat) (dependencies : list Relation) (s : work) : result TxError unit * work :=
  match dependencies with
  | [] => (Ok tt, s)
  | dependency :: dependencies' =>
      match add_dependency check_node dependency s with
      | (Ok _, s') => add_dependencies check_node dependencies' s'
      | (Err e, s') => (Err e, s')
      end
  end.

Definition cache_providers (check_id : bytes) (providers : list Relation) (m : gmap Relation bytes) : gmap Relation bytes :=
  foldl (fun m provider => <[provider := check_id]> m) m providers.

Definition add_step (check_id : bytes) (s : work) : result TxError unit * work :=
  let '(self, next) := s in
  let '(check_node, g) := add_node_or_get_index check_id (packages self) in
  let self := set_packages g self in
  match reg_by_id check_id with
  | Err e => (Err (RegistryError e), (self, next))
  | Ok found =>
      match head found with
      | None => (Err (NoCandidate check_id), (self, next))
      | Some package =>
          let self := set_providers (cache_providers check_id (providers (p_meta package)) (selection_providers self)) self in
          add_dependencies check_node (dependencies (p_meta package)) (self, next)
      end
  end.

Fixpoint add_items (items : list bytes) (s : work) : result TxError unit * work :=
  match items with
  | [] => (Ok tt, s)
  | check_id :: items' =>
      match add_step check_id s with
      | (Ok _, s') => add_items items' s'
      | (Err e, s') => (Err e, s')
      end
  end.

(** The [while] loop: [None] when [fuel] rounds are not enough. *)
Fixpoint add (fuel : nat) (items : list bytes) (self : Transaction) : option (result TxError unit * Transaction) :=
  match items, fuel with
  | [], _ => Some (Ok tt, self)
  | _, 0 => None
  | _, S fuel' =>
      match add_items items (self, []) with
      | (Ok _, (self', next)) => add fuel' next self'
      | (Err e, (self', _)) => Some (Err e, self')
      end
  end.
End transaction.
