(* ===== verification/TransactionTheorems.v ===== *)
(** * Theorems of transactions

    Against a registry whose lookups by provider return packages that provide what was
    asked for, adding packages ends, with the graph closed under dependencies, or with
    an error that is true of the packages; removing packages removes exactly them and
    what depends on them. *)

From stdpp Require Import relations fin_sets.
From S2P Require Import Prelude Ordered StoneRelation PackageMeta SqlDb MetaDb Registry DagGraph DagSpec DagTheorems Transaction.
Import Petgraph DagGraph.

Section theorems.
Context `{R : RegistryOps} {D : DiGraph bytes} {L : Laws bytes D}.
Implicit Types (t : Transaction) (n id : bytes) (p d : Relation).

(** The package an id stands for. *)
Definition package_of id : option Package :=
  match reg_by_id id with Ok found => head found | Err _ => None end.

Definition provides id p : Prop := forall pkg, package_of id = Some pkg -> p ∈ providers (p_meta pkg).

(** One package depends on something another provides. *)
Definition requires n n' : Prop :=
  exists pkg d, package_of n = Some pkg /\ d ∈ dependencies (p_meta pkg) /\ provides n' d.

Definition nodes t : list bytes := node_weights (packages t).
Abbreviation edges t := (arrow (packages t)).

(** What a transaction maintains. *)
Record consistent t : Prop := {
  co_wf : wf (packages t);
  co_acyclic : acyclic (packages t);
  co_cache p id : selection_providers t !! p = Some id -> provides id p;
  co_edges n n' : edges t n n' -> requires n n';
}.

(** All dependencies of a package are in the graph, with an edge to each. *)
Definition settled t n : Prop :=
  exists pkg, package_of n = Some pkg /\ forall d, d ∈ dependencies (p_meta pkg) -> exists n', edges t n n' /\ provides n' d.

Definition closed t : Prop := consistent t /\ forall n, n ∈ nodes t -> settled t n.

(** ** Resolution *)

Definition lookup_flags (l : Lookup.t) : list Flags :=
  match l with
  | Lookup.InstalledOnly => [with_installed no_flags]
  | Lookup.AvailableOnly => [with_available no_flags]
  | Lookup.PreferInstalled => [with_installed no_flags; with_available no_flags]
  | Lookup.PreferAvailable => [with_available no_flags; with_installed no_flags]
  end.

(** No package provides a relation, as far as the transaction looks. *)
Definition unavailable t p : Prop :=
  selection_providers t !! p = None /\ forall f, f ∈ lookup_flags (lookup t) -> reg_by_provider_id_only p f = Ok [].

Lemma first_id_spec p f :
  match first_id p f with
  | Ok id => exists ids, reg_by_provider_id_only p f = Ok ids /\ id ∈ ids
  | Err (NoCandidate name) => name = StoneRelation.to_string p /\ reg_by_provider_id_only p f = Ok []
  | Err (RegistryError e) => reg_by_provider_id_only p f = Err e
  | Err _ => False
  end.
Proof using Type.
  unfold first_id. destruct (reg_by_provider_id_only p f) as [[|id ids]|e]; cbn; [done| |done]. exists (id :: ids). split; [done|left].
Qed.

Lemma resolve_provider_spec t p :
  match resolve_provider t p with
  | Ok id => selection_providers t !! p = Some id
             \/ exists f ids, reg_by_provider_id_only p f = Ok ids /\ id ∈ ids
  | Err (NoCandidate name) => name = StoneRelation.to_string p /\ unavailable t p
  | Err (RegistryError e) => exists f, reg_by_provider_id_only p f = Err e
  | Err _ => False
  end.
Proof using Type.
  unfold resolve_provider, resolve_filters, unavailable. pose proof (first_id_spec p (with_installed no_flags)) as Hi.
  pose proof (first_id_spec p (with_available no_flags)) as Ha.
  destruct (lookup t); cbn [try_filters resolve_provider_with_filter lookup_flags];
    (destruct (selection_providers t !! p) as [id|]; cbn [ok_or]; [by left|]);
    destruct (first_id p (with_installed no_flags)) as [idi|[]], (first_id p (with_available no_flags)) as [ida|[]];
    cbn; try done; try (right; by eauto); try (by eauto).
  all: split_and!; [tauto|done|]; intros f Hf; repeat (apply elem_of_cons in Hf as [-> |Hf]; [tauto|]); by apply elem_of_nil in Hf.
Qed.

(** ** Adding a dependency *)

(** What the theorems assume of the registry: a package found for a relation provides
    it, and the ids it knows are finitely many. *)
Context (sound : forall p f ids id, reg_by_provider_id_only p f = Ok ids -> id ∈ ids -> provides id p).
Context (known : gset bytes).
Context (known_ids : forall p f ids id, reg_by_provider_id_only p f = Ok ids -> id ∈ ids -> id ∈ known).

Lemma settled_mono t t' n : (forall x y, edges t x y -> edges t' x y) -> settled t n -> settled t' n.
Proof using Type. intros He (pkg & Hp & Hd). exists pkg. split; [done|]. intros d Hin. destruct (Hd d Hin) as (n' & ? & ?). eauto. Qed.

Definition from (roots : list bytes) t n : Prop := exists r, r ∈ roots /\ rtc (edges t) r n.

Lemma from_mono roots t t' n : (forall x y, edges t x y -> edges t' x y) -> from roots t n -> from roots t' n.
Proof using Type. intros He (r & Hr & Hn). exists r. split; [done|]. by eapply rtc_subrel. Qed.

(** The state of an addition that started with the nodes [N0] and the ids [roots]: the
    packages still to be looked at are [pend]; of the current one the dependencies
    [done] are connected. *)
Record adding (N0 : bytes -> Prop) (roots : list bytes) t (pend : list bytes) (cur : option (bytes * list Relation)) : Prop := {
  ad_consistent : consistent t;
  ad_known p id : selection_providers t !! p = Some id -> id ∈ known;
  ad_nodes n : n ∈ nodes t -> settled t n \/ n ∈ pend \/ exists done, cur = Some (n, done);
  ad_current c done : cur = Some (c, done) ->
    c ∈ nodes t /\ from roots t c /\ forall d, d ∈ done -> exists n', edges t c n' /\ provides n' d;
  ad_pending n : n ∈ pend -> n ∈ known /\ from roots t n;
  ad_reached n : n ∈ nodes t -> N0 n \/ from roots t n;
  ad_kept n : N0 n -> n ∈ nodes t;
}.

(** How many known packages are not in the graph. *)
Definition missing t : nat := size (known ∖ list_to_set (nodes t)).

(** The errors of an addition, as facts about the packages. *)
Definition real_error t (e : TxError) : Prop :=
  match e with
  | NoCandidate name =>
      reg_by_id name = Ok [] \/ exists n pkg d t', package_of n = Some pkg /\ d ∈ dependencies (p_meta pkg)
        /\ name = StoneRelation.to_string d /\ lookup t' = lookup t /\ unavailable t' d
  | DependencyCycle path => exists n back, path = n :: back /\ back <> [] /\ walk requires n path n
  | RegistryError e => (exists id, reg_by_id id = Err e) \/ exists d f, reg_by_provider_id_only d f = Err e
  | NotImplemented => False
  end.

Lemma walk_mono {A} (Q S : A -> A -> Prop) x l y : (forall a b, Q a b -> S a b) -> walk Q x l y -> walk S x l y.
Proof using Type. intros Hs. induction 1; [constructor|econstructor; eauto]. Qed.

Lemma resolved t p id :
  consistent t -> (forall p id, selection_providers t !! p = Some id -> id ∈ known) ->
  resolve_provider t p = Ok id -> provides id p /\ id ∈ known.
Proof using sound known_ids.
  intros Hc Hk E. pose proof (resolve_provider_spec t p) as Hr. rewrite E in Hr.
  destruct Hr as [Hs|(f & ids & Hq & Hin)]; [|eauto]. split; [by eapply co_cache|eauto].
Qed.

Lemma missing_add t t' id :
  id ∈ known -> id ∉ nodes t -> (forall v, v ∈ nodes t' <-> v = id \/ v ∈ nodes t) -> S (missing t') = missing t.
Proof using Type.
  intros Hk Hn Hv. unfold missing.
  assert (known ∖ list_to_set (nodes t) = {[id]} ∪ (known ∖ list_to_set (nodes t'))) as ->.
  { apply set_eq. intros x. rewrite elem_of_union, !elem_of_difference, !elem_of_list_to_set, elem_of_singleton, Hv.
    destruct (decide (x = id)) as [-> |]; tauto. }
  rewrite (size_union {[id]} (known ∖ list_to_set (nodes t'))), size_singleton; [done|]. rewrite disjoint_singleton_l, elem_of_difference, elem_of_list_to_set, Hv. tauto.
Qed.

Lemma missing_same t t' : (forall v, v ∈ nodes t' <-> v ∈ nodes t) -> missing t' = missing t.
Proof using Type. intros Hv. unfold missing. f_equal. apply set_eq. intros x. rewrite !elem_of_difference, !elem_of_list_to_set. by rewrite Hv. Qed.

(** The transaction after a dependency was connected. *)
Lemma adding_connected N0 roots t t' pend next c done d id :
  adding N0 roots t (pend ++ next) (Some (c, done)) -> provides id d -> id ∈ known ->
  (exists pkg, package_of c = Some pkg /\ d ∈ dependencies (p_meta pkg)) ->
  wf (packages t') -> acyclic (packages t') ->
  (forall v, v ∈ nodes t' <-> v = id \/ v ∈ nodes t) ->
  (forall x y, edges t' x y <-> (x = c /\ y = id) \/ edges t x y) ->
  (forall p i, selection_providers t' !! p = Some i -> selection_providers t !! p = Some i \/ (p = d /\ i = id)) ->
  adding N0 roots t' (pend ++ (if negb (node_exists id (packages t)) then next ++ [id] else next)) (Some (c, done ++ [d])).
Proof using Type.
  intros Ha Hp Hk (pkg & Hpk & Hd) Hw Hac Hn He Hsp. destruct Ha as [Hc Hkn Hnodes Hcur Hpend Hreach Hkept].
  assert (forall x y, edges t x y -> edges t' x y) as Hmono by (intros; apply He; auto).
  destruct (Hcur c done eq_refl) as (Hcn & Hfc & Hdone).
  assert (from roots t' id) as Hid by (destruct (from_mono roots t t' c Hmono Hfc) as (r & ? & ?); exists r; split; [done|]; eapply rtc_r; [done|]; apply He; auto).
  split.
  - split; [done..| |].
    + intros p i Hi. apply Hsp in Hi as [Hi|[-> ->]]; [by eapply co_cache|done].
    + intros x y Hxy. apply He in Hxy as [[-> ->]|Hxy]; [exists pkg, d; done|by eapply co_edges].
  - intros p i Hi. apply Hsp in Hi as [Hi|[-> ->]]; eauto.
  - intros n [-> |Hin]%Hn.
    + destruct (node_exists id (packages t)) eqn:E; cbn [negb].
      * apply node_exists_iff in E. destruct (Hnodes id E) as [Hs|[Hs|(done' & [= -> ->])]]; [left; by eapply settled_mono|auto|eauto].
      * right. left. rewrite !elem_of_app, list_elem_of_singleton. auto.
    + destruct (Hnodes n Hin) as [Hs|[Hs|(done' & [= -> ->])]]; [left; by eapply settled_mono| |eauto].
      right. left. destruct (negb _); [|done]. rewrite !elem_of_app in *. tauto.
  - intros c' done' [= <- <-]. split_and!; [apply Hn; auto|by eapply from_mono|]. intros d' [Hin|Hin%list_elem_of_singleton]%elem_of_app.
    + destruct (Hdone d' Hin) as (n' & ? & ?). eauto.
    + subst d'. exists id. split; [apply He; auto|done].
  - intros n Hin. assert (n ∈ pend ++ next \/ n = id) as [Hin'| ->]; [|split; [|eapply from_mono]; naive_solver|done].
    destruct (negb _); [|by left]. rewrite !elem_of_app, list_elem_of_singleton in *. tauto.
  - intros n [-> |Hin]%Hn; [auto|]. destruct (Hreach n Hin); [auto|]. right. by eapply from_mono.
  - intros n H0. apply Hn. auto.
Qed.

(** What a successful part of an addition does not lose: each id for the next round is
    of a package that was missing. *)
Record advanced t (next : list bytes) t' (next' : list bytes) : Prop := {
  av_lookup : lookup t' = lookup t;
  av_nodes n : n ∈ nodes t -> n ∈ nodes t';
  av_missing : (missing t' + length next' <= missing t + length next)%nat;
}.

Lemma advanced_refl t next : advanced t next t next.
Proof using Type. by split. Qed.

Lemma advanced_trans t1 k1 t2 k2 t3 k3 : advanced t1 k1 t2 k2 -> advanced t2 k2 t3 k3 -> advanced t1 k1 t3 k3.
Proof using Type. intros [? ? ?] [? ? ?]. split; [congruence|auto|lia]. Qed.

Lemma real_error_lookup t t' e : lookup t' = lookup t -> real_error t' e -> real_error t e.
Proof using Type. intros El. destruct e; cbn; [|done..]. rewrite El. done. Qed.

Lemma add_dependency_spec N0 roots t pend next node c done d :
  adding N0 roots t (pend ++ next) (Some (c, done)) -> weight (packages t) node = Some c ->
  (exists pkg, package_of c = Some pkg /\ d ∈ dependencies (p_meta pkg)) ->
  match add_dependency node d (t, next) with
  | (Ok _, (t', next')) =>
      adding N0 roots t' (pend ++ next') (Some (c, done ++ [d])) /\ weight (packages t') node = Some c
      /\ advanced t next t' next'
  | (Err e, _) => real_error t e
  end.
Proof using sound known_ids L.
  intros Ha Hw Hpk. pose proof (ad_consistent _ _ _ _ _ Ha) as Hc. unfold add_dependency.
  pose proof (resolve_provider_spec t d) as Hres. destruct (resolve_provider t d) as [id|e] eqn:Er.
  2:{ destruct Hpk as (pkg & Hpk & Hd). destruct e as [name| |path|e]; cbn; [|done|done|right; destruct Hres as [f ?]; eauto].
      destruct Hres as [-> Hu]. right. by exists c, pkg, d, t. }
  destruct (resolved t d id Hc (ad_known _ _ _ _ _ Ha) Er) as [Hprov Hk].
  pose proof (link_spec (packages t) node c id (co_wf _ Hc) (co_acyclic _ Hc) Hw) as Hl.
  destruct (add_node_or_get_index id (packages t)) as [dep g1] eqn:En. cbn zeta in Hl.
  destruct (try_add_edge node dep g1) as [[b|path] g2]; cbn in Hl; destruct Hl as (Hw2 & Ha2 & Hn & Hw3 & He).
  - set (t' := set_packages g2 _). assert (packages t' = g2) as Ep by (unfold t'; by destruct (negb _)).
    split_and!.
    + eapply (adding_connected N0 roots t); rewrite ?Ep; try done.
      intros p i. unfold t'. destruct (negb _); cbn; [|auto]. destruct (decide (p = d)) as [-> |].
      * rewrite lookup_insert_eq. intros [= <-]. auto.
      * rewrite lookup_insert_ne by done. auto.
    + by rewrite Ep.
    + assert (forall v, v ∈ nodes t' <-> v = id \/ v ∈ nodes t) as Hv by (unfold nodes; by rewrite Ep).
      split; [unfold t'; by destruct (negb _)|intros n Hin; apply Hv; by right|]. destruct (node_exists id (packages t)) eqn:E; cbn [negb].
      * apply node_exists_iff in E. rewrite (missing_same t t'); [done|]. intros v. rewrite Hv. split; [|auto]. by intros [-> |].
      * rewrite <- (missing_add t t' id), length_app; [cbn; lia|done| |done]. intros Hin. apply node_exists_iff in Hin. congruence.
  - destruct He as (_ & back & -> & Hwalk). exists c, back. split_and!; [done|by inversion Hwalk|].
    econstructor; [|eapply walk_mono; [|exact Hwalk]; apply (co_edges _ Hc)]. destruct Hpk as (pkg & ? & ?). exists pkg, d. done.
Qed.

Lemma add_dependencies_spec N0 roots c pkg pend node deps : forall t next done,
  adding N0 roots t (pend ++ next) (Some (c, done)) -> weight (packages t) node = Some c ->
  package_of c = Some pkg -> (forall d, d ∈ deps -> d ∈ dependencies (p_meta pkg)) ->
  match add_dependencies node deps (t, next) with
  | (Ok _, (t', next')) => adding N0 roots t' (pend ++ next') (Some (c, done ++ deps)) /\ advanced t next t' next'
  | (Err e, _) => real_error t e
  end.
Proof using sound known_ids L.
  induction deps as [|d deps IH]; intros t next done Ha Hw Hp Hd; cbn [add_dependencies].
  - rewrite app_nil_r. split; [done|apply advanced_refl].
  - pose proof (add_dependency_spec N0 roots t pend next node c done d Ha Hw) as Hs.
    destruct (add_dependency node d (t, next)) as [[[]|e] [t1 next1]].
    + destruct Hs as (Ha1 & Hw1 & Hadv); [exists pkg; split; [done|]; apply Hd; left|].
      specialize (IH t1 next1 (done ++ [d]) Ha1 Hw1 Hp (fun d' H' => Hd d' (list_elem_of_further _ _ _ H'))).
      destruct (add_dependencies node deps (t1, next1)) as [[[]|e] [t2 next2]].
      * rewrite <- app_assoc in IH. destruct IH as [Ha2 Hadv2]. split; [done|]. by eapply advanced_trans.
      * eapply real_error_lookup; [|exact IH]. apply Hadv.
    + apply Hs. exists pkg. split; [done|]. apply Hd. left.
Qed.

(** ** A package with its dependencies *)

Lemma cache_providers_lookup c ps m p id :
  cache_providers c ps m !! p = Some id -> m !! p = Some id \/ (id = c /\ p ∈ ps).
Proof using Type.
  unfold cache_providers. revert m. induction ps as [|q ps IH]; intros m; cbn; [auto|]. intros [Hm|[-> Hp]]%IH; [|right; split; [done|by right]].
  destruct (decide (p = q)) as [-> |]; [|left; by rewrite lookup_insert_ne in Hm].
  rewrite lookup_insert_eq in Hm. injection Hm as <-. right. split; [done|left].
Qed.

(** The transaction when the dependencies of a package are to be added. *)
Lemma adding_started N0 roots t t' pend c pkg :
  adding N0 roots t (c :: pend) None -> package_of c = Some pkg ->
  wf (packages t') -> (forall v, v ∈ nodes t' <-> v = c \/ v ∈ nodes t) -> (forall x y, edges t' x y <-> edges t x y) ->
  selection_providers t' = cache_providers c (providers (p_meta pkg)) (selection_providers t) ->
  adding N0 roots t' pend (Some (c, [])).
Proof using L.
  intros Ha Hp Hw Hn He Hsp. destruct Ha as [[Hwf Hac Hcache Hedges] Hkn Hnodes Hcur Hpend Hreach Hkept].
  assert (forall x y, edges t x y -> edges t' x y) as Hmono by (intros; by apply He).
  destruct (Hpend c) as [Hck Hcf]; [left|]. split.
  - split; [done| | |].
    + eapply acyclic_sub; [exact Hwf|done| |done]. intros x y. apply He.
    + intros p id. rewrite Hsp. intros [Hs|[-> Hs]]%cache_providers_lookup; [by apply Hcache|]. intros pkg' Hp'. by simplify_eq.
    + intros x y Hxy. by apply Hedges, He.
  - intros p id. rewrite Hsp. intros [Hs|[-> Hs]]%cache_providers_lookup; [by eapply Hkn|done].
  - intros n [-> |Hin]%Hn; [eauto|]. destruct (Hnodes n Hin) as [Hs|[Hs|(dn & ?)]]; [left; by eapply settled_mono| |done].
    apply elem_of_cons in Hs as [-> |Hs]; eauto.
  - intros c' dn [= <- <-]. split_and!; [apply Hn; auto|by eapply from_mono|by intros d ?%elem_of_nil].
  - intros n Hin. destruct (Hpend n) as [? ?]; [by right|]. split; [done|by eapply from_mono].
  - intros n [-> |Hin]%Hn; [right; by eapply from_mono|]. destruct (Hreach n Hin); [auto|right; by eapply from_mono].
  - intros n H0. apply Hn. auto.
Qed.

(** A package whose dependencies are all connected is settled. *)
Lemma adding_finished N0 roots t pend c pkg :
  adding N0 roots t pend (Some (c, dependencies (p_meta pkg))) -> package_of c = Some pkg ->
  adding N0 roots t pend None /\ c ∈ nodes t.
Proof using Type.
  intros [Hc Hkn Hnodes Hcur Hpend Hreach Hkept] Hp. destruct (Hcur _ _ eq_refl) as (Hcn & _ & Hd). split; [|done]. split; try done.
  intros n Hin. destruct (Hnodes n Hin) as [Hs|[Hs|(dn & [= <- <-])]]; [auto|auto|]. left. by exists pkg.
Qed.

Lemma missing_less t t' : (forall v, v ∈ nodes t -> v ∈ nodes t') -> (missing t' <= missing t)%nat.
Proof using Type. intros Hv. unfold missing. apply subseteq_size. intros x. rewrite !elem_of_difference, !elem_of_list_to_set. intuition. Qed.

Lemma add_step_spec N0 roots t c pend next :
  adding N0 roots t (c :: pend ++ next) None ->
  match add_step c (t, next) with
  | (Ok _, (t', next')) => adding N0 roots t' (pend ++ next') None /\ c ∈ nodes t' /\ advanced t next t' next'
  | (Err e, _) => real_error t e
  end.
Proof using sound known_ids L.
  intros Ha. unfold add_step. pose proof (co_wf _ (ad_consistent _ _ _ _ _ Ha)) as Hg.
  destruct (add_node_or_get_index c (packages t)) as [node g] eqn:En.
  destruct (add_node_or_get_index_spec c (packages t) node g Hg En) as (H1 & H2 & H3 & H4 & _).
  destruct (reg_by_id c) as [found|e] eqn:Eb; [|left; by exists c].
  destruct (head found) as [pkg|] eqn:Eh; [|left; rewrite Eb; by destruct found].
  assert (package_of c = Some pkg) as Hp by (unfold package_of; by rewrite Eb).
  set (t1 := set_providers _ _). assert (adding N0 roots t1 (pend ++ next) (Some (c, []))) as Ha1 by (by eapply adding_started).
  assert (advanced t next t1 next) as Hadv1.
  { assert (forall n, n ∈ nodes t -> n ∈ nodes t1) as Hn by (intros n Hin; apply H3; by right).
    split; [done|done|]. pose proof (missing_less t t1 Hn). lia. }
  pose proof (add_dependencies_spec N0 roots c pkg pend node (dependencies (p_meta pkg)) t1 next [] Ha1 H2 Hp (fun d H => H)) as Hs.
  destruct (add_dependencies node (dependencies (p_meta pkg)) (t1, next)) as [[[]|e] [t2 next2]].
  - destruct Hs as [Ha2 Hadv2]. destruct (adding_finished N0 roots t2 _ c pkg Ha2 Hp) as [Ha3 Hc]. split_and!; [done..|].
    by eapply advanced_trans.
  - eapply real_error_lookup; [|exact Hs]. done.
Qed.

Lemma add_items_spec N0 roots items : forall t next,
  adding N0 roots t (items ++ next) None ->
  match add_items items (t, next) with
  | (Ok _, (t', next')) => adding N0 roots t' next' None /\ (forall n, n ∈ items -> n ∈ nodes t') /\ advanced t next t' next'
  | (Err e, _) => real_error t e
  end.
Proof using sound known_ids L.
  induction items as [|c items IH]; intros t next Ha; cbn [add_items].
  - split_and!; [done|by intros n ?%elem_of_nil|apply advanced_refl].
  - pose proof (add_step_spec N0 roots t c items next Ha) as Hs. destruct (add_step c (t, next)) as [[[]|e] [t1 next1]]; [|done].
    destruct Hs as (Ha1 & Hc & Hadv1). specialize (IH t1 next1 Ha1).
    destruct (add_items items (t1, next1)) as [[[]|e] [t2 next2]]; [|eapply real_error_lookup; [apply Hadv1|done]].
    destruct IH as (Ha2 & Hi & Hadv2). split_and!; [done| |by eapply advanced_trans].
    intros n [-> |Hn]%elem_of_cons; [by apply Hadv2|auto].
Qed.

(** ** Rounds *)

Lemma add_spec N0 roots fuel : forall items t,
  (missing t < fuel)%nat -> adding N0 roots t items None -> exists r t',
    add fuel items t = Some (r, t')
    /\ match r with
       | Ok _ => adding N0 roots t' [] None /\ (forall n, n ∈ items \/ n ∈ nodes t -> n ∈ nodes t')
       | Err e => real_error t e
       end.
Proof using sound known_ids L.
  induction fuel as [|fuel IH]; intros items t Hf Ha; [lia|]. destruct items as [|c items]; cbn [add].
  - exists (Ok tt), t. split_and!; [done..|]. by intros n [?%elem_of_nil|].
  - pose proof (add_items_spec N0 roots (c :: items) t []) as Hs. rewrite app_nil_r in Hs. specialize (Hs Ha).
    destruct (add_items (c :: items) (t, [])) as [[[]|e] [t1 next1]]; [|eauto].
    destruct Hs as (Ha1 & Hi & [El Hn Hm]). cbn in Hm. destruct next1 as [|n1 next1].
    + exists (Ok tt), t1. split; [by destruct fuel|]. split; [done|]. intros n [Hin|Hin]; auto.
    + destruct (IH (n1 :: next1) t1) as (r & t' & E & Hr); [cbn in Hm; lia|done|]. exists r, t'. split; [done|].
      destruct r as [[]|e]; [|by eapply real_error_lookup]. destruct Hr as [Hr1 Hr2]. split; [done|].
      intros n [Hin|Hin]; auto.
Qed.

Lemma adding_begins t items :
  closed t -> (forall p id, selection_providers t !! p = Some id -> id ∈ known) -> (forall n, n ∈ items -> n ∈ known) ->
  adding (fun n => n ∈ nodes t) items t items None.
Proof using Type.
  intros [Hc Hs] Hk Hi. split; try done; try auto. intros n Hin. split; [auto|]. by exists n.
Qed.

Lemma missing_bound t : (missing t < S (size known))%nat.
Proof using Type. unfold missing. apply Nat.lt_succ_r, subseteq_size. by intros x [? _]%elem_of_difference. Qed.

Lemma adding_closed N0 roots t : adding N0 roots t [] None -> closed t.
Proof using Type.
  intros [Hco _ Hn _ _ _ _]. split; [done|]. intros n Hin. by destruct (Hn n Hin) as [|[?%elem_of_nil|(? & ?)]].
Qed.

Lemma new_closed l : closed (transaction_new l).
Proof using L.
  destruct represents_default as [H1 H2 H3]. split; [split|].
  - done.
  - apply acyclic_arrow; [done|]. intros v Hv. inversion Hv as [? ? Hx|? ? ? Hx _]; subst; by apply H3 in Hx.
  - intros p id Hp. cbn in Hp. by rewrite lookup_empty in Hp.
  - intros n n' He. by apply H3 in He.
  - intros n Hn. by apply H2 in Hn.
Qed.

(** C29: Adding packages to a closed transaction ends, within one round more than the
    registry knows packages.  If it succeeds, the graph has the packages, all there were
    and no package that these do not lead to; every dependency of every package is
    connected to a package that provides it; and [finalize] lists each package once,
    before those it depends on. *)
Theorem add_closes t items :
  closed t -> (forall p id, selection_providers t !! p = Some id -> id ∈ known) -> (forall n, n ∈ items -> n ∈ known) ->
  exists r t', add (S (size known)) items t = Some (r, t')
    /\ (r = Ok tt ->
        closed t' /\ (forall n, n ∈ items \/ n ∈ nodes t -> n ∈ nodes t')
        /\ (forall n, n ∈ nodes t' -> n ∈ nodes t \/ exists i, i ∈ items /\ rtc (edges t') i n)
        /\ finalize t' ≡ₚ nodes t' /\ forall n n', edges t' n n' -> before (finalize t') n n').
Proof using sound known_ids L.
  intros Hc Hk Hi. destruct (add_spec (fun n => n ∈ nodes t) items _ items t (missing_bound t) (adding_begins t items Hc Hk Hi))
    as (r & t' & E & Hr). exists r, t'. split; [done|]. intros ->. destruct Hr as [Had Hr]. pose proof Had as [Hco _ _ _ _ Hre _].
  destruct (topo_spec (packages t') (co_wf _ Hco) (co_acyclic _ Hco)) as [H1 H2]. split_and!; [|done..]. by eapply adding_closed.
Qed.

(** C30: When adding packages fails, the error is true of the packages: a reported cycle
    is a closed walk of at least one step in which each package depends on something the
    next provides; a missing candidate is a package the registry does not have or a
    dependency of one for which neither the cache nor the registry has a provider; any
    other error is the registry's. *)
Theorem add_errors_real t items e t' :
  closed t -> (forall p id, selection_providers t !! p = Some id -> id ∈ known) -> (forall n, n ∈ items -> n ∈ known) ->
  add (S (size known)) items t = Some (Err e, t') -> real_error t e.
Proof using sound known_ids L.
  intros Hc Hk Hi E. destruct (add_spec (fun n => n ∈ nodes t) items _ items t (missing_bound t) (adding_begins t items Hc Hk Hi))
    as (r & t1 & E1 & Hr). rewrite E in E1. by injection E1 as <- <-.
Qed.

(** Removing packages from a closed transaction removes exactly those of them it
    has and the packages that depend on them, directly or not; what is left is closed. *)
Theorem remove_exact t ids :
  closed t ->
  closed (remove ids t)
  /\ (forall n, n ∈ nodes (remove ids t) <-> n ∈ nodes t /\ ~ exists i, i ∈ ids /\ i ∈ nodes t /\ rtc (edges t) n i)
  /\ (forall n n', edges (remove ids t) n n' <-> edges t n n' /\ n ∈ nodes (remove ids t) /\ n' ∈ nodes (remove ids t)).
Proof using L.
  intros [[Hw Ha Hcache Hed] Hs]. destruct (transpose_spec (packages t)) as [Hn Har].
  assert (wf (transpose (packages t))) as Hwt by (unfold wf; by rewrite Hn).
  destruct (subgraph_represents _ Hwt ids) as [_ Hsub _].
  destruct (remove_nodes_represents (iter_nodes (subgraph ids (transpose (packages t)))) (packages t) Hw) as [H1 H2 H3].
  change (foldl _ _ _) with (packages (remove ids t)) in H1, H2, H3.
  assert (forall n, n ∈ iter_nodes (subgraph ids (transpose (packages t))) <-> exists i, i ∈ ids /\ i ∈ nodes t /\ rtc (edges t) n i) as Hgone.
  { intros n. unfold iter_nodes. rewrite Hsub. setoid_rewrite Hn. split; intros (i & ? & ? & Hr); exists i; split_and!; try done;
      (eapply rtc_flipped; [|exact Hr]); intros a b; apply Har. }
  assert (forall n, n ∈ nodes (remove ids t) <-> n ∈ nodes t /\ ~ exists i, i ∈ ids /\ i ∈ nodes t /\ rtc (edges t) n i) as Hnodes.
  { intros n. unfold nodes at 1. by rewrite H2, Hgone. }
  assert (forall n n', edges (remove ids t) n n' <-> edges t n n' /\ n ∈ nodes (remove ids t) /\ n' ∈ nodes (remove ids t)) as Hedges.
  { intros n n'. rewrite H3, !Hgone, !Hnodes. split; [|tauto]. intros (He & ? & ?). pose proof (arrow_nodes _ _ _ He). tauto. }
  split_and!; [|done..]. split.
  - split; [done|eapply acyclic_sub; [exact Hw|done| |done]; intros; by apply Hedges|exact Hcache|intros n n' He; by apply Hed, Hedges].
  - intros n Hin. pose proof Hin as [Hnt Hfree]%Hnodes. destruct (Hs n Hnt) as (pkg & Hp & Hd). exists pkg. split; [done|].
    intros d Hdin. destruct (Hd d Hdin) as (n' & He & Hpr). exists n'. split; [|done]. apply Hedges. split_and!; [done..|].
    apply Hnodes. split; [by eapply arrow_nodes|]. intros (i & ? & ? & Hr). apply Hfree. exists i. split_and!; [done..|]. by eapply rtc_l.
Qed.
End theorems.

(** ** A registry of a few packages *)

Section table.
Context (table : list Package).

#[local] Instance table_ops : RegistryOps :=
  {| reg_error := Empty_set;
     reg_by_id id := Ok (List.filter (fun pkg => bool_decide (p_id pkg = id)) table);
     reg_by_provider_id_only p f :=
       Ok (p_id <$> List.filter (fun pkg => bool_decide (p ∈ providers (p_meta pkg)) && flags_contain (p_flags pkg) f) table) |}.

Context (distinct : NoDup (p_id <$> table)).

Lemma table_package pkg : pkg ∈ table -> package_of (p_id pkg) = Some pkg.
Proof using distinct.
  unfold package_of. cbn. induction table as [|q l IH]; [by intros ?%elem_of_nil|]. apply NoDup_cons in distinct as [Hn Hd].
  intros [-> |Hin]%elem_of_cons; cbn; [by rewrite bool_decide_eq_true_2|]. rewrite bool_decide_eq_false_2; [by apply IH|].
  intros E. apply Hn. rewrite E. by apply list_elem_of_fmap_2.
Qed.

Lemma table_found p f ids id :
  reg_by_provider_id_only p f = Ok ids -> id ∈ ids -> exists pkg, pkg ∈ table /\ p_id pkg = id /\ p ∈ providers (p_meta pkg).
Proof using Type.
  intros [= <-] (pkg & -> & Hin)%list_elem_of_fmap. exists pkg.
  rewrite list_elem_of_In, filter_In, <- list_elem_of_In, andb_true_iff, bool_decide_eq_true in Hin. tauto.
Qed.

Lemma table_sound p f ids id : reg_by_provider_id_only p f = Ok ids -> id ∈ ids -> provides id p.
Proof using distinct.
  intros E Hin. destruct (table_found p f ids id E Hin) as (pkg & Ht & <- & Hp). intros pkg' Hp'.
  rewrite table_package in Hp' by done. by injection Hp' as <-.
Qed.

Definition table_ids : gset bytes := list_to_set (p_id <$> table).

Lemma table_known p f ids id : reg_by_provider_id_only p f = Ok ids -> id ∈ ids -> id ∈ table_ids.
Proof using Type.
  intros E Hin. destruct (table_found p f ids id E Hin) as (pkg & Ht & <- & _). apply elem_of_list_to_set, list_elem_of_fmap_2, Ht.
Qed.
End table.

Module Few.
Definition pkg (name : bytes) (deps : list Relation) : Package :=
  {| p_id := name;
     p_meta := {| m_name := name; version_identifier := bstr "1"; source_release := 1; build_release := 1;
       architecture := bstr "x86_64"; summary := []; description := []; source_id := name; homepage := [];
       licenses := []; dependencies := deps; providers := [package_name name]; conflicts := [];
       uri := None; hash := None; download_size := None |};
     p_flags := with_available no_flags |}.

(** [a] needs [b] and [c], [b] needs [c]. *)
Definition tree : list Package :=
  [pkg (bstr "a") [package_name (bstr "b"); package_name (bstr "c")]; pkg (bstr "b") [package_name (bstr "c")]; pkg (bstr "c") []].
(** [a] needs [b], [b] needs [c], [c] needs [a]. *)
Definition cycle : list Package :=
  [pkg (bstr "a") [package_name (bstr "b")]; pkg (bstr "b") [package_name (bstr "c")]; pkg (bstr "c") [package_name (bstr "a")]].

Lemma tree_distinct : NoDup (p_id <$> tree).
Proof. apply (bool_decide_unpack _). vm_compute. exact I. Qed.
Lemma cycle_distinct : NoDup (p_id <$> cycle).
Proof. apply (bool_decide_unpack _). vm_compute. exact I. Qed.

Abbreviation start := (transaction_new Lookup.AvailableOnly).
Abbreviation add_a table := (add (R := table_ops table) (S (size (table_ids table))) [bstr "a"] start).

Lemma start_cache table p id : selection_providers start !! p = Some id -> id ∈ table_ids table.
Proof. cbn. by rewrite lookup_empty. Qed.

Lemma a_known table : bool_decide (bstr "a" ∈ table_ids table) = true -> forall n, n ∈ [bstr "a"] -> n ∈ table_ids table.
Proof. intros Hb n ->%list_elem_of_singleton. by apply bool_decide_eq_true in Hb. Qed.
End Few.
Import Few.

(** What the runs compute. *)
Lemma tree_added :
  match add_a tree with
  | Some (Ok _, t) =>
      bool_decide (finalize t = [bstr "a"; bstr "b"; bstr "c"]) && bool_decide (nodes t = [bstr "a"; bstr "b"; bstr "c"])
      && bool_decide (nodes (remove [bstr "b"] t) = [bstr "c"])
  | _ => false
  end = true.
Proof. vm_compute. reflexivity. Qed.

Lemma cycle_refused :
  match add_a cycle with
  | Some (Err (DependencyCycle path), _) => bool_decide (path = [bstr "c"; bstr "a"; bstr "b"; bstr "c"])
  | _ => false
  end = true.
Proof. vm_compute. reflexivity. Qed.

Lemma add_closes_witness : exists t',
  add_a tree = Some (Ok tt, t') /\ finalize t' = [bstr "a"; bstr "b"; bstr "c"] /\ closed (R := table_ops tree) t'.
Proof.
  destruct (add_closes (R := table_ops tree) (table_sound tree tree_distinct) (table_ids tree) (table_known tree)
    start [bstr "a"] (new_closed _) (start_cache tree) (a_known tree eq_refl)) as (r & t' & E & H).
  pose proof tree_added as Hc. rewrite E in Hc. destruct r as [[]|]; [|done]. bool_prop.
  exists t'. split_and!; [done..|]. by apply H.
Defined.

Lemma add_errors_real_witness :
  real_error (R := table_ops cycle) start (DependencyCycle (R := table_ops cycle) [bstr "c"; bstr "a"; bstr "b"; bstr "c"]).
Proof.
  pose proof cycle_refused as Hc. destruct (add_a cycle) as [[[|[| |path|]] t']|] eqn:E; try discriminate Hc.
  apply bool_decide_eq_true in Hc. subst path.
  exact (add_errors_real (R := table_ops cycle) (table_sound cycle cycle_distinct) (table_ids cycle) (table_known cycle)
    start [bstr "a"] _ t' (new_closed _) (start_cache cycle) (a_known cycle eq_refl) E).
Defined.

Lemma remove_exact_witness : exists t,
  nodes t = [bstr "a"; bstr "b"; bstr "c"] /\ closed (R := table_ops tree) t
  /\ nodes (remove [bstr "b"] t) = [bstr "c"] /\ closed (R := table_ops tree) (remove [bstr "b"] t).
Proof.
  destruct (add_spec (R := table_ops tree) (table_sound tree tree_distinct) (table_ids tree) (table_known tree)
    (fun n => n ∈ nodes start) [bstr "a"] _ [bstr "a"] start (missing_bound _ _)
    (adding_begins (R := table_ops tree) _ _ _ (new_closed _) (start_cache tree) (a_known tree eq_refl))) as (r & t & E & Hr).
  pose proof tree_added as Hc. rewrite E in Hc. destruct r as [[]|]; [|done]. bool_prop.
  destruct Hr as [Had _]. apply adding_closed in Had. exists t. split_and!; [done..|].
  exact (proj1 (remove_exact (R := table_ops tree) t [bstr "b"] Had)).
Defined.
