(* ===== verification/Vfs.v ===== *)
(** * The virtual filesystem tree

    [crates/vfs/src]: absolute paths with their split point ([path.rs]), the tree of
    files over an indextree arena ([tree/mod.rs]) and the builder that turns a list of
    files into a tree ([tree/builder.rs]).

    indextree is third-party code: [Indextree.Arena] has the operations the crate calls
    and [Indextree.Laws] what is documented of them for arenas that nothing was removed
    from.  An [assert] or [unwrap] that does not hold is the outcome [Panic]; what
    [add_child_to_node] prints on the standard error stream is a list of errors carried
    along. *)

From S2P Require Import Prelude ByteStrings Ordered.

Definition SLASH : byte := "/".

(** ** Outcomes *)

Module TreeError.
Inductive t :=
  | MissingParent (parent : bytes)
  | Duplicate (node_path node_id other_id : bytes).
End TreeError.

Module Stop.
Inductive t :=
  | Panic
  | Fail (e : TreeError.t).
End Stop.

Abbreviation outcome := (result Stop.t).

(** [assert!] and [Option::unwrap] *)
Definition asserts (b : bool) : outcome unit := reject_if (negb b) Stop.Panic.
Definition unwrap {A} (o : option A) : outcome A := ok_or o Stop.Panic.

(** Loops that end at the first error *)
Fixpoint try_map {E X Y} (f : X -> result E Y) (l : list X) : result E (list Y) :=
  match l with
  | [] => mret []
  | x :: l' => y ← f x; ys ← try_map f l'; mret (y :: ys)
  end.

Fixpoint try_fold {E X S} (f : S -> X -> result E S) (s : S) (l : list X) : result E S :=
  match l with
  | [] => mret s
  | x :: l' => s' ← f s x; try_fold f s' l'
  end.

(** ** Paths *)

Definition join (a b : bytes) : bytes :=
  if starts_with SLASH b then b
  else if ends_with SLASH a then a ++ b
  else a ++ [SLASH] ++ b.

Record VfsPath := {
  vfs_path : bytes;
  file_name_start_idx : nat;
  parent_end_idx : nat;
}.

(** [usize] to [u32] *)
Definition try_into_u32 (n : nat) : option nat := if (Z.of_nat n <? 2 ^ 32)%Z then Some n else None.

Definition vfs_path_new (path : bytes) : outcome VfsPath :=
  asserts (starts_with SLASH path);;
  asserts (if (1 <? length path)%nat then negb (ends_with SLASH path) else true);;
  slash ← unwrap (rfind SLASH path);
  start ← unwrap (try_into_u32 (slash + 1));
  mret {| vfs_path := path;
          file_name_start_idx := start;
          parent_end_idx := if (start =? 1)%nat then 1%nat else (start - 1)%nat |}.

Definition vfs_file_name (p : VfsPath) : bytes := drop (file_name_start_idx p) (vfs_path p).
Definition vfs_parent (p : VfsPath) : option bytes :=
  if (1 <? length (vfs_path p))%nat then Some (take (parent_end_idx p) (vfs_path p)) else None.

Definition components (path : bytes) : list bytes :=
  filter (fun s => s <> []) ((if starts_with SLASH path then [[SLASH]] else []) ++ split SLASH path).

(** ** Files *)

Module Kind.
Inductive t :=
  | Regular
  | Directory
  | Symlink (target : bytes).
Definition is_directory (k : t) : bool := match k with Directory => true | _ => false end.
End Kind.

Class BlitFile (T : Type) := {
  kind : T -> Kind.t;
  path : T -> bytes;
  id : T -> bytes;
  cloned_to : T -> bytes -> T;
  (** [From<AStr>] *)
  from_path : bytes -> T;
}.

Record File (T : Type) := mk_file {
  file_id : bytes;
  file_path : VfsPath;
  file_kind : Kind.t;
  inner : T;
}.
Arguments mk_file {T}.
Arguments file_id {T}.
Arguments file_path {T}.
Arguments file_kind {T}.
Arguments inner {T}.

Definition file_new {T} `{BlitFile T} (inner : T) : outcome (File T) :=
  p ← vfs_path_new (path inner);
  mret (mk_file (id inner) p (kind inner) inner).

Definition file_name {T} (f : File T) : bytes := vfs_file_name (file_path f).
Definition parent {T} (f : File T) : option bytes := vfs_parent (file_path f).

(** The path a file is known by: [file.path.astr()]. *)
Definition name {T} (f : File T) : bytes := vfs_path (file_path f).

(** ** indextree *)

Module Indextree.
Class Arena (T : Type) := {
  arena : Type;
  NodeId : Type;
  node_eq_dec : EqDecision NodeId;
  with_capacity : nat -> arena;
  new_node : arena -> T -> NodeId * arena;
  (** [arena.get(id)] and [Node::get] *)
  get : arena -> NodeId -> option T;
  children : arena -> NodeId -> list NodeId;
  descendants : arena -> NodeId -> list NodeId;
  append : arena -> NodeId -> NodeId -> arena;
  remove_subtree : arena -> NodeId -> arena;
}.
#[export] Existing Instance node_eq_dec.

(** A childless node that is nobody's child can be appended to another one. *)
Definition attachable {T} `{Arena T} (a : arena) (p c : NodeId) : Prop :=
  is_Some (get a p) /\ is_Some (get a c) /\ p <> c /\ children a c = [] /\ forall m, c ∉ children a m.

(** The arenas made of new nodes and such appending. *)
Inductive grown {T} `{Arena T} : arena -> Prop :=
  | grown_empty n : grown (with_capacity n)
  | grown_node a x : grown a -> grown (new_node a x).2
  | grown_append a p c : grown a -> attachable a p c -> grown (append a p c).

Class Laws (T : Type) (A : Arena T) : Prop := {
  get_empty n x : get (with_capacity n) x = None;
  children_empty n x : children (with_capacity n) x = [];
  get_new a x : grown a -> get a (new_node a x).1 = None;
  get_new_node a x m :
    grown a -> get (new_node a x).2 m = if decide (m = (new_node a x).1) then Some x else get a m;
  children_new_node a x m : grown a -> children (new_node a x).2 m = children a m;
  children_absent a m : grown a -> get a m = None -> children a m = [];
  children_present a m c : grown a -> c ∈ children a m -> is_Some (get a c);
  get_append a p c m : grown a -> attachable a p c -> get (append a p c) m = get a m;
  children_append a p c m :
    grown a -> attachable a p c ->
    children (append a p c) m = if decide (m = p) then children a p ++ [c] else children a m;
  (** a node comes before its descendants, those of an earlier child before those of a
      later one *)
  descendants_preorder a m :
    grown a -> is_Some (get a m) -> descendants a m = m :: (children a m ≫= descendants a);
}.
End Indextree.

Import Indextree.

(** ** The tree *)

Section tree.
Context {T : Type} `{BlitFile T} {A : Arena (File T)}.

Record Tree := {
  tree_arena : arena;
  tree_map : gmap bytes NodeId;
  tree_length : nat;
}.

(** The tree and the errors reported so far. *)
Definition growth : Type := Tree * list TreeError.t.

Definition tree_with_capacity (capacity : nat) : Tree :=
  {| tree_arena := with_capacity capacity; tree_map := ∅; tree_length := 0 |}.

Definition len (t : Tree) : nat := tree_length t.
Definition is_empty (t : Tree) : bool := (tree_length t =? 0)%nat.

Definition tree_new_node (t : Tree) (data : File T) : NodeId * Tree :=
  let '(node, a) := new_node (tree_arena t) data in
  (node, {| tree_arena := a; tree_map := <[name data := node]> (tree_map t); tree_length := S (tree_length t) |}).

Definition resolve_node (t : Tree) (data : bytes) : option NodeId := tree_map t !! data.

(** The children of a node that have a given file name. *)
Definition namesakes (a : arena) (node : File T) (siblings : list NodeId) : list (File T) :=
  omap (fun n => f ← get a n; if bool_decide (file_name f = file_name node) then Some f else None) siblings.

Definition add_child_to_node (g : growth) (node_id : NodeId) (parent : bytes) : outcome growth :=
  let '(t, reported) := g in
  node ← unwrap (get (tree_arena t) node_id);
  parent_node ← ok_or (tree_map t !! parent) (Stop.Fail (TreeError.MissingParent parent));
  match namesakes (tree_arena t) node (children (tree_arena t) parent_node) with
  | other :: _ => mret (t, reported ++ [TreeError.Duplicate (name node) (file_id node) (file_id other)])
  | [] =>
      mret ({| tree_arena := append (tree_arena t) parent_node node_id;
               tree_map := tree_map t;
               tree_length := tree_length t |}, reported)
  end.

(** Where [reparent] puts a file below its source. *)
Definition relocated (source_path target_path original : bytes) : outcome bytes :=
  suffix ← unwrap (strip_prefix source_path original);
  mret (join target_path suffix).

Definition orphan (t : Tree) (source_path target_path : bytes) (i : NodeId) : outcome (File T) :=
  original ← unwrap (get (tree_arena t) i);
  relapath ← relocated source_path target_path (name original);
  file_new (cloned_to (inner original) relapath).

Definition adopt (g : growth) (orphan : File T) : outcome growth :=
  let '(t, reported) := g in
  let '(node, t') :=
    match resolve_node t (name orphan) with
    | Some n => (n, t)
    | None => tree_new_node t orphan
    end in
  match parent orphan with
  | Some p => add_child_to_node (t', reported) node p
  | None => mret (t', reported)
  end.

Definition reparent (g : growth) (source_path target_path : bytes) : outcome growth :=
  let '(t, reported) := g in
  match tree_map t !! source_path with
  | None => mret (t, reported)
  | Some source =>
      let mutations :=
        match tree_map t !! target_path with
        | Some _ => drop 1 (descendants (tree_arena t) source)
        | None => []
        end in
      orphans ← try_map (orphan t source_path target_path) mutations;
      let a := foldl remove_subtree (tree_arena t) (children (tree_arena t) source) in
      try_fold adopt ({| tree_arena := a; tree_map := tree_map t; tree_length := tree_length t |}, reported) orphans
  end.

(** [TreeIterator]: it ends at the first node the arena does not have. *)
Fixpoint yielded (a : arena) (nodes : list NodeId) : list T :=
  match nodes with
  | [] => []
  | n :: nodes' => match get a n with Some f => inner f :: yielded a nodes' | None => [] end
  end.

Definition iter (t : Tree) : list T :=
  match resolve_node t [SLASH] with
  | Some root => yielded (tree_arena t) (descendants (tree_arena t) root)
  | None => []
  end.

Inductive Element :=
  | Directory (partial : bytes) (item : T) (children : list Element)
  | Child (partial : bytes) (item : T).

(** The recursion goes down one level of the tree a step. *)
Fixpoint structured_children (fuel : nat) (t : Tree) (start : NodeId) : outcome Element :=
  match fuel with
  | 0%nat => Err Stop.Panic
  | S fuel' =>
      item ← unwrap (get (tree_arena t) start);
      if Kind.is_directory (file_kind item) then
        elements ← try_map (structured_children fuel' t) (children (tree_arena t) start);
        mret (Directory (file_name item) (inner item) elements)
      else mret (Child (file_name item) (inner item))
  end.

Definition structured (t : Tree) : outcome (option Element) :=
  match resolve_node t [SLASH] with
  | Some root => e ← structured_children (S (tree_length t)) t root; mret (Some e)
  | None => mret None
  end.
End tree.
Arguments Tree T {A}.
Arguments growth T {A}.
Arguments Element T : clear implicits.

(** ** The builder *)

Section builder.
Context {T : Type} `{BlitFile T} {A : Arena (File T)}.

Record TreeBuilder := {
  explicit : list (File T);
  implicit_dirs : list (bytes * File T);
}.

(** [sorted_paths] compares the depth first. *)
Definition depth (f : File T) : nat := count SLASH (name f).

Definition sorted_paths : Cmp (File T) := fun a b => then_with (cmp (depth a) (depth b)) (cmp (name a) (name b)).

Definition builder_new : TreeBuilder := {| explicit := []; implicit_dirs := [] |}.

(** One turn of the loop over the components of the parent. *)
Definition push_component (s : option bytes * list (bytes * File T)) (component : bytes)
    : outcome (option bytes * list (bytes * File T)) :=
  let '(leading_path, dirs) := s in
  let full_path := match leading_path with Some fp => join fp component | None => component end in
  dir ← file_new (from_path full_path);
  mret (Some full_path, map_insert full_path dir dirs).

Definition push (b : TreeBuilder) (item : T) : outcome TreeBuilder :=
  file ← file_new item;
  dirs ← match parent file with
         | Some p => s ← try_fold push_component (None, implicit_dirs b) (components p); mret s.2
         | None => mret (implicit_dirs b)
         end;
  mret {| explicit := explicit b ++ [file]; implicit_dirs := dirs |}.

Definition bake (b : TreeBuilder) : TreeBuilder :=
  let sorted := @sort _ sorted_paths (explicit b) in
  {| explicit := sorted;
     implicit_dirs := foldl (fun dirs i => map_remove (name i) dirs) (implicit_dirs b) sorted |}.

Definition resolved_target (link : File T) (target : bytes) : bytes :=
  if starts_with SLASH target then target
  else match parent link with
       | Some p => join p target
       | None => target
       end.

(** The links to directories, with the directory each leads to. *)
Definition redirects_of (all_dirs : list (bytes * File T)) (non_dirs : list (File T)) : list (bytes * bytes) :=
  foldl (fun redirects link =>
    match file_kind link with
    | Kind.Symlink target =>
        let target := resolved_target link target in
        match map_get target all_dirs with
        | Some _ => map_insert (name link) target redirects
        | None => redirects
        end
    | _ => redirects
    end) [] non_dirs.

(** Insert one entry of the full set. *)
Definition plant (g : growth T) (entry : File T) : outcome (growth T) :=
  let '(t, reported) := g in
  let '(node, t') := tree_new_node t entry in
  match parent entry with
  | Some p => add_child_to_node (t', reported) node p
  | None => mret (t', reported)
  end.

Definition all_dirs_of (b : TreeBuilder) : list (bytes * File T) :=
  map_collect ((fun d => (name d, d)) <$>
    (filter (fun f => Kind.is_directory (file_kind f)) (explicit b) ++ (implicit_dirs b).*2)).

Definition non_dirs_of (b : TreeBuilder) : list (File T) :=
  filter (fun f => ~ Kind.is_directory (file_kind f)) (explicit b).

Definition full_set (b : TreeBuilder) : list (File T) :=
  @sort _ sorted_paths ((all_dirs_of b).*2 ++ non_dirs_of b).

Definition build_tree (b : TreeBuilder) : outcome (growth T) :=
  let estimated_capacity := (length (implicit_dirs b) + length (explicit b))%nat in
  let redirects := redirects_of (all_dirs_of b) (non_dirs_of b) in
  g ← try_fold plant (tree_with_capacity estimated_capacity, []) (full_set b);
  try_fold (fun g r => reparent g r.1 r.2) g redirects.

(** A builder used as its callers do: the files pushed in order, baked, built. *)
Definition build (items : list T) : outcome (growth T) :=
  b ← try_fold push builder_new items;
  build_tree (bake b).
End builder.
Arguments TreeBuilder T : clear implicits.
