(* ===== verification/VfsSpec.v ===== *)
(** * Canonical paths

    The paths of files in a tree as lists of names: [render] writes one as an absolute
    path, and on what it writes the operations of [path.rs] are those of lists. *)

From S2P Require Import Prelude ByteStrings Ordered Vfs.
Import Indextree.

Definition proper_name (c : bytes) : Prop := c <> [] /\ SLASH ∉ c.
Definition proper (cs : list bytes) : Prop := Forall proper_name cs.

Definition body (cs : list bytes) : bytes := cs ≫= cons SLASH.
Definition render (cs : list bytes) : bytes := match cs with [] => [SLASH] | _ => body cs end.

(** A path in the one form its names have. *)
Definition canonical (p : bytes) : bool :=
  starts_with SLASH p && (bool_decide (p = [SLASH]) || negb (ends_with SLASH p)) && negb (contains_str [SLASH; SLASH] p).

Lemma proper_snoc cs c : proper (cs ++ [c]) <-> proper cs /\ proper_name c.
Proof. unfold proper. by rewrite Forall_app, Forall_singleton. Qed.

Lemma proper_cons c cs : proper (c :: cs) <-> proper_name c /\ proper cs.
Proof. apply Forall_cons. Qed.

Lemma body_snoc cs c : body (cs ++ [c]) = body cs ++ SLASH :: c.
Proof. unfold body. by rewrite bind_app, bind_singleton. Qed.

Lemma render_snoc cs c : render (cs ++ [c]) = body cs ++ SLASH :: c.
Proof. rewrite <- body_snoc. by destruct cs. Qed.

Lemma proper_last cs c d : proper_name c -> last (body cs ++ SLASH :: c) = Some d -> d <> SLASH.
Proof.
  intros [Hc Hs]. destruct c as [|x c _] using rev_ind; [done|].
  rewrite app_comm_cons, app_assoc, last_snoc. intros [= <-] ->. set_solver.
Qed.

Lemma split_body c cs : proper (c :: cs) -> split SLASH (body (c :: cs)) = [] :: c :: cs.
Proof.
  intros Hp. change (split SLASH ([] ++ SLASH :: (c ++ body cs)) = [] :: c :: cs).
  rewrite split_app. cbn [app split]. f_equal. revert c Hp.
  induction cs as [|d cs IH]; intros c [[_ Hc] Hp]%proper_cons.
  - cbn. rewrite app_nil_r. by apply split_plain.
  - change (body (d :: cs)) with (SLASH :: (d ++ body cs)). rewrite split_app, split_plain, IH by done. done.
Qed.

Lemma filter_names cs : proper cs -> filter (fun s : bytes => s <> []) cs = cs.
Proof. induction 1 as [|c cs [Hc _] _ IH]; [done|]. by rewrite filter_cons_True, IH. Qed.

Lemma starts_render cs : starts_with SLASH (render cs) = true.
Proof. by destruct cs. Qed.

Lemma components_render cs : proper cs -> components (render cs) = [SLASH] :: cs.
Proof.
  intros Hp. unfold components. rewrite starts_render. destruct cs as [|c cs]; [done|].
  change (render (c :: cs)) with (body (c :: cs)). rewrite split_body by done. cbn [app].
  rewrite filter_cons_True by done. f_equal. rewrite filter_cons_False by tauto. by apply filter_names.
Qed.

Lemma render_inj cs ds : proper cs -> proper ds -> render cs = render ds -> cs = ds.
Proof.
  intros Hc Hd E. apply (f_equal components) in E. rewrite !components_render in E by done. by injection E.
Qed.

Lemma count_body cs : proper cs -> count SLASH (body cs) = length cs.
Proof.
  induction 1 as [|c cs [_ Hc] _ IH]; [done|].
  change (body (c :: cs)) with ([SLASH] ++ c ++ body cs). by rewrite !count_app, IH, (count_absent _ c Hc).
Qed.

Lemma count_render cs : proper cs -> count SLASH (render cs) = Nat.max 1 (length cs).
Proof. destruct cs as [|c cs]; [done|]. intros Hp. cbn [render]. rewrite count_body by done. cbn. lia. Qed.

Lemma join_render cs c : proper cs -> proper_name c -> join (render cs) c = render (cs ++ [c]).
Proof.
  intros Hp [Hc Hs]. unfold join.
  replace (starts_with SLASH c) with false by (destruct c; [done|]; symmetry; apply bool_decide_eq_false; cbn; set_solver).
  rewrite render_snoc. destruct cs as [|d cs _] using rev_ind; [done|]. apply proper_snoc in Hp as [_ Hd].
  replace (ends_with SLASH (render (cs ++ [d]))) with false; [by rewrite render_snoc, body_snoc|]. symmetry.
  apply bool_decide_eq_false. rewrite render_snoc. intros E. by apply (proper_last cs d SLASH Hd).
Qed.

Lemma render_before cs : proper cs -> cs <> [] -> cmp (render []) (render cs) = Lt.
Proof. destruct cs as [|[|b c] cs]; [done|intros [[] _]%proper_cons; done|done]. Qed.

(** ** [VfsPath] on canonical paths *)

(** The path fits the 32 bits of the split point. *)
Definition short (p : bytes) : Prop := (Z.of_nat (length p) < 2 ^ 32)%Z.

Definition vpath (cs : list bytes) : VfsPath :=
  {| vfs_path := render cs;
     file_name_start_idx := S (length (body (take (length cs - 1) cs)));
     parent_end_idx := Nat.max 1 (length (body (take (length cs - 1) cs))) |}.

Lemma vpath_snoc cs c :
  vpath (cs ++ [c]) = {| vfs_path := body cs ++ SLASH :: c;
                         file_name_start_idx := S (length (body cs));
                         parent_end_idx := Nat.max 1 (length (body cs)) |}.
Proof.
  unfold vpath. rewrite render_snoc, length_app, take_app_length' by (cbn; lia). done.
Qed.

Lemma vfs_path_new_render cs : proper cs -> short (render cs) -> vfs_path_new (render cs) = Ok (vpath cs).
Proof.
  intros Hp Hs. unfold vfs_path_new, asserts. rewrite starts_render. cbn [negb reject_if mbind result_bind].
  destruct cs as [|c cs _] using rev_ind; [done|]. apply proper_snoc in Hp as [_ Hc].
  rewrite vpath_snoc. rewrite render_snoc in *.
  replace (ends_with SLASH _) with false by (symmetry; apply bool_decide_eq_false; intros E; by apply (proper_last cs c SLASH Hc)).
  replace (if (1 <? _)%nat then _ else _) with true by (by case_match). cbn [negb reject_if mbind result_bind].
  rewrite rfind_last by apply Hc. unfold unwrap, try_into_u32. cbn [ok_or mbind result_bind].
  replace (Z.of_nat _ <? 2 ^ 32)%Z with true; cycle 1.
  { symmetry. apply Z.ltb_lt. unfold short in Hs. rewrite length_app in Hs. cbn in Hs. lia. }
  cbn [ok_or mbind result_bind]. unfold mret, result_ret. repeat f_equal; [lia|].
  destruct (body cs); cbn; [done|]. rewrite Nat.add_1_r. cbn. lia.
Qed.

Lemma vfs_parent_root : vfs_parent (vpath []) = None.
Proof. done. Qed.

Lemma vfs_parent_snoc cs c : proper_name c -> vfs_parent (vpath (cs ++ [c])) = Some (render cs).
Proof.
  intros [Hc _]. rewrite vpath_snoc. unfold vfs_parent. cbn [vfs_path parent_end_idx].
  replace (1 <? _)%nat with true by (symmetry; apply Nat.ltb_lt; rewrite length_app; destruct c; [done|cbn; lia]).
  f_equal. destruct cs as [|d cs]; [done|]. cbn [render].
  replace (Nat.max 1 (length (body (d :: cs)))) with (length (body (d :: cs))) by (cbn; lia). apply take_app_length.
Qed.

Lemma vfs_file_name_snoc cs c : vfs_file_name (vpath (cs ++ [c])) = c.
Proof.
  rewrite vpath_snoc. unfold vfs_file_name. cbn [vfs_path file_name_start_idx].
  rewrite (app_assoc _ [SLASH] c : body cs ++ SLASH :: c = (body cs ++ [SLASH]) ++ c).
  apply drop_app_exact. rewrite length_app. cbn. lia.
Qed.

(** ** Deciding [canonical] *)

Lemma contains_str_app_r n a b : contains_str n (a ++ b) = false -> contains_str n b = false.
Proof. rewrite !contains_str_false. intros H x y ->. apply (H (a ++ x) y). by rewrite <- app_assoc. Qed.

Lemma nonempty_parts ws :
  ws <> [] -> Forall (fun w => SLASH ∉ w) ws ->
  contains_str [SLASH; SLASH] (SLASH :: join_with SLASH ws) = false ->
  ends_with SLASH (SLASH :: join_with SLASH ws) = false -> proper ws /\ render ws = SLASH :: join_with SLASH ws.
Proof.
  induction ws as [|w ws IH]; [done|]. intros _ [Hw Hws]%Forall_cons Hd He. destruct ws as [|w' ws].
  - cbn [join_with] in *. split; [constructor; [|done]; split; [intros ->; done|done]|]. cbn. by rewrite app_nil_r.
  - change (join_with SLASH (w :: w' :: ws)) with (w ++ SLASH :: join_with SLASH (w' :: ws)) in *.
    destruct IH as [Hp Hr]; [done|done|..].
    + by apply (contains_str_app_r _ (SLASH :: w)).
    + apply bool_decide_eq_false in He. apply bool_decide_eq_false. intros E. apply He.
      rewrite app_comm_cons, last_app_cons. done.
    + split; [|cbn [render] in *; rewrite <- Hr; done].
      constructor; [|done]. split; [|done]. intros ->. done.
Qed.

Lemma render_single cs : proper cs -> contains_str [SLASH; SLASH] (render cs) = false.
Proof.
  intros Hp. apply contains_str_false. intros a b E. apply (f_equal (split SLASH)) in E.
  change (a ++ [SLASH; SLASH] ++ b) with (a ++ SLASH :: ([] ++ SLASH :: b)) in E. rewrite !split_app in E.
  pose proof (split_nonempty SLASH a). pose proof (split_nonempty SLASH b).
  destruct (split SLASH a) as [|w ws]; [done|]. destruct cs as [|c cs].
  - injection E as _ E. apply (f_equal length) in E. rewrite length_app in E. destruct (split SLASH b); [done|]. cbn in E. lia.
  - cbn [render] in E. rewrite split_body in E by done. injection E as _ E.
    assert ([] ∈ c :: cs) as He by (rewrite E; set_solver). by apply (proj1 (Forall_forall _ _) Hp) in He as [].
Qed.

Lemma canonical_iff p : canonical p = true <-> exists cs, proper cs /\ p = render cs.
Proof.
  unfold canonical. rewrite !andb_true_iff, orb_true_iff, !negb_true_iff, starts_with_true, bool_decide_eq_true. split.
  - intros [[[q ->] He] Hd]. destruct (decide (q = [])) as [-> |Hq]; [exists []; split; [constructor|done]|].
    destruct He as [[= ->]|He]; [done|]. exists (split SLASH q). rewrite <- (join_split SLASH q) in Hd, He.
    destruct (nonempty_parts (split SLASH q)) as [Hp Hr]; [apply split_nonempty|apply split_parts|done|done|].
    split; [done|]. by rewrite Hr, join_split.
  - intros (cs & Hp & ->). split; [split|].
    + destruct (proj1 (starts_with_true _ _) (starts_render cs)) as [r ->]. by eexists.
    + destruct cs as [|c cs _] using rev_ind; [by left|]. right. apply proper_snoc in Hp as [_ Hc].
      apply bool_decide_eq_false. rewrite render_snoc. intros E. by apply (proper_last cs c SLASH Hc).
    + by apply render_single.
Qed.

(** ** Trees that hold a list of files

    [holds t fs]: the arena of [t] has a node for each file of [fs], reachable by its
    path, and the children of a node are the files directly below it.  Planting a file
    with a new name below one already there keeps it; iterating such a tree, or reading
    it as nested elements, gives every file at its own path. *)

Lemma try_fold_app {E X S} (f : S -> X -> result E S) s l k :
  try_fold f s (l ++ k) = (s' ← try_fold f s l; try_fold f s' k).
Proof. revert s. induction l as [|x l IH]; intros s; cbn; [done|]. destruct (f s x); cbn; [apply IH|done]. Qed.

Section spec.
Context {T : Type} `{BlitFile T} {A : Arena (File T)} {L : Laws (File T) A}.
Implicit Types (t : Tree T) (f g : File T) (n m : NodeId) (fs : list (File T)).

(** ** Files at canonical paths *)

Definition sited f (cs : list bytes) : Prop := proper cs /\ file_path f = vpath cs.

Lemma sited_name f cs : sited f cs -> name f = render cs.
Proof. unfold name. by intros [_ ->]. Qed.

Lemma sited_fun f g cs ds : sited f cs -> sited g ds -> name f = name g -> cs = ds.
Proof.
  intros Hf Hg E. rewrite (sited_name f cs Hf), (sited_name g ds Hg) in E. by apply render_inj; [apply Hf|apply Hg|].
Qed.

Lemma sited_parent_root f : sited f [] -> parent f = None.
Proof. unfold parent. by intros [_ ->]. Qed.

Lemma sited_parent f cs c : sited f (cs ++ [c]) -> parent f = Some (render cs).
Proof. unfold parent. intros [[_ Hc]%proper_snoc ->]. by apply vfs_parent_snoc. Qed.

Lemma sited_file_name f cs c : sited f (cs ++ [c]) -> file_name f = c.
Proof. unfold file_name. intros [_ ->]. apply vfs_file_name_snoc. Qed.

Lemma sited_child f p : parent f = Some p -> forall cs, sited f cs -> exists ds c, cs = ds ++ [c] /\ p = render ds.
Proof.
  intros Hp cs Hf. destruct cs as [|c cs _] using rev_ind; [by rewrite sited_parent_root in Hp|].
  exists cs, c. split; [done|]. rewrite (sited_parent f cs c Hf) in Hp. by injection Hp.
Qed.

(** Files with names of their own, the parent of each before it. *)
Record forest fs : Prop := {
  forest_sited : forall f, f ∈ fs -> exists cs, sited f cs;
  forest_names : NoDup (name <$> fs);
  forest_parents : forall l1 f l2 p, fs = l1 ++ f :: l2 -> parent f = Some p -> exists g, g ∈ l1 /\ name g = p;
}.

Record holds t fs : Prop := {
  holds_grown : grown (tree_arena t);
  holds_nodes : forall f, f ∈ fs <-> exists n, get (tree_arena t) n = Some f;
  holds_map : forall p n, tree_map t !! p = Some n <-> exists f, get (tree_arena t) n = Some f /\ name f = p;
  holds_children : forall n m,
    m ∈ children (tree_arena t) n
    <-> exists f g, get (tree_arena t) n = Some f /\ get (tree_arena t) m = Some g /\ parent g = Some (name f);
  holds_NoDup : forall n, NoDup (children (tree_arena t) n);
  holds_length : tree_length t = length fs;
}.

Lemma forest_init fs f : forest (fs ++ [f]) -> forest fs.
Proof.
  intros [Hs Hn Hp]. split.
  - intros g Hg. apply Hs. set_solver.
  - rewrite fmap_app in Hn. by apply NoDup_app in Hn as [? _].
  - intros l1 g l2 p ->. rewrite <- app_assoc in Hp. by eapply Hp.
Qed.

Lemma forest_fresh fs f g : forest (fs ++ [f]) -> g ∈ fs -> name g <> name f.
Proof.
  intros [_ Hn _] Hg E. rewrite fmap_app in Hn. apply NoDup_app in Hn as (_ & Hd & _).
  apply (Hd (name g)); [by apply list_elem_of_fmap_2|]. rewrite E. set_solver.
Qed.

Lemma forest_closed fs f p : forest fs -> f ∈ fs -> parent f = Some p -> exists g, g ∈ fs /\ name g = p.
Proof.
  intros [_ _ Hp] Hf Hpar. apply list_elem_of_split in Hf as (l1 & l2 & E).
  destruct (Hp _ _ _ _ E Hpar) as (g & Hg & Hn). exists g. split; [set_solver|done].
Qed.

(** ** Planting *)

Lemma holds_empty (capacity : nat) : holds (tree_with_capacity capacity) [].
Proof.
  split; cbn.
  - constructor.
  - intros f. split; [by intros ?%elem_of_nil|]. intros [m Hm]. by rewrite get_empty in Hm.
  - intros p m. rewrite lookup_empty. split; [done|]. intros (f & Hf & _). by rewrite get_empty in Hf.
  - intros p m. rewrite children_empty. split; [by intros ?%elem_of_nil|]. intros (f & g & Hf & _). by rewrite get_empty in Hf.
  - intros m. rewrite children_empty. constructor.
  - done.
Qed.

(** The tree with a node for a file that is nobody's child yet. *)
Record sprouted t fs f n t' : Prop := {
  sprouted_grown : grown (tree_arena t');
  sprouted_fresh : get (tree_arena t) n = None;
  sprouted_get : forall m g, get (tree_arena t') m = Some g <-> m = n /\ g = f \/ get (tree_arena t) m = Some g;
  sprouted_children : forall m, children (tree_arena t') m = children (tree_arena t) m;
  sprouted_nodes : forall g, g ∈ fs ++ [f] <-> exists m, get (tree_arena t') m = Some g;
  sprouted_map : forall p m, tree_map t' !! p = Some m <-> exists g, get (tree_arena t') m = Some g /\ name g = p;
  sprouted_length : tree_length t' = length (fs ++ [f]);
}.

Lemma new_node_sprouts t fs f n t' :
  forest (fs ++ [f]) -> holds t fs -> tree_new_node t f = (n, t') -> sprouted t fs f n t'.
Proof.
  intros Hfor [Hg Hnodes Hm Hc Hnd Hl]. unfold tree_new_node.
  destruct (new_node (tree_arena t) f) as [k a] eqn:E. intros [= <- <-].
  pose proof (get_new (tree_arena t) f Hg) as Hn. pose proof (fun m => get_new_node (tree_arena t) f m Hg) as Hget.
  pose proof (fun m => children_new_node (tree_arena t) f m Hg) as Hch. rewrite E in Hn, Hget, Hch. cbn in Hn, Hget, Hch.
  assert (forall m g, get a m = Some g <-> m = k /\ g = f \/ get (tree_arena t) m = Some g) as Hget'.
  { intros m g. rewrite Hget. case_decide; [subst; rewrite Hn|]; naive_solver. }
  split; cbn; [|done|done|done|..].
  - replace a with (new_node (tree_arena t) f).2 by (by rewrite E). by constructor.
  - intros g. rewrite elem_of_app, list_elem_of_singleton, Hnodes. setoid_rewrite Hget'. naive_solver.
  - intros p m. rewrite lookup_insert_Some, Hm. setoid_rewrite Hget'. split.
    + intros [[<- <-]|[_ (g & Hg' & <-)]]; [exists f; naive_solver|exists g; naive_solver].
    + intros (g & [[-> ->]|Hg'] & <-); [by left|]. right. split; [|by exists g].
      intros E'. apply (forest_fresh fs f g Hfor); [apply Hnodes; by eexists|done].
  - rewrite Hl, length_app. cbn. lia.
Qed.

(** No file of the tree is below one planted later. *)
Lemma no_early_child t fs f g m :
  forest (fs ++ [f]) -> holds t fs -> get (tree_arena t) m = Some g -> parent g <> Some (name f).
Proof.
  intros Hfor Ht Hg Hp. assert (g ∈ fs) as Hin by (apply (holds_nodes t fs Ht); by eexists).
  destruct (forest_closed fs g _ (forest_init _ _ Hfor) Hin Hp) as (z & Hz & Ez). by apply (forest_fresh fs f z Hfor).
Qed.

Lemma plant_root t fs f reported :
  forest (fs ++ [f]) -> holds t fs -> parent f = None ->
  exists t', plant (t, reported) f = Ok (t', reported) /\ holds t' (fs ++ [f]).
Proof.
  intros Hfor Ht Hp. unfold plant. destruct (tree_new_node t f) as [n t'] eqn:E. rewrite Hp. exists t'. split; [done|].
  destruct (new_node_sprouts _ _ _ _ _ Hfor Ht E) as [Hg Hn Hget Hch Hnodes Hmap Hlen]. split; [done|done|done|..|done].
  - intros k m. rewrite Hch, (holds_children t fs Ht). setoid_rewrite Hget. split; [naive_solver|].
    intros (x & y & Hx & [[-> ->]|Hy] & Hpar); [congruence|]. exists x, y. split_and!; [|done|done].
    destruct Hx as [[-> ->]|Hx]; [|done]. by apply (no_early_child t fs f y m) in Hpar.
  - intros k. rewrite Hch. apply (holds_NoDup t fs Ht).
Qed.

(** The children of the parent have other file names than a new file. *)
Lemma no_namesakes t fs f n t' q k :
  forest (fs ++ [f]) -> holds t fs -> sprouted t fs f n t' -> get (tree_arena t) k = Some q -> parent f = Some (name q) ->
  namesakes (tree_arena t') f (children (tree_arena t') k) = [].
Proof.
  intros Hfor Ht Hs Hk Hp. unfold namesakes. destruct (omap _ _) as [|x l] eqn:E; [done|]. exfalso.
  assert (x ∈ x :: l) as Hx by left. rewrite <- E in Hx. apply list_elem_of_omap in Hx as (m & Hm & Hx).
  rewrite (sprouted_children _ _ _ _ _ Hs), (holds_children t fs Ht) in Hm. destruct Hm as (q' & y & Hq & Hy & Hpar).
  rewrite Hk in Hq. injection Hq as <-. rewrite (proj2 (sprouted_get _ _ _ _ _ Hs m y) (or_intror Hy)) in Hx. cbn in Hx.
  case_bool_decide as Hn; [|done]. assert (y ∈ fs) as Hin by (apply (holds_nodes t fs Ht); by eexists).
  apply (forest_fresh fs f y Hfor Hin). clear Hx E.
  destruct (forest_sited _ Hfor f) as [cs Hf]; [set_solver|]. destruct (forest_sited _ Hfor y) as [ds Hys]; [set_solver|].
  destruct (sited_child _ _ Hp _ Hf) as (cs' & c & -> & E1), (sited_child _ _ Hpar _ Hys) as (ds' & d & -> & E2).
  rewrite (sited_file_name _ _ _ Hf), (sited_file_name _ _ _ Hys) in Hn. subst d.
  rewrite (sited_name _ _ Hf), (sited_name _ _ Hys). f_equal. f_equal.
  destruct Hf as [[Hc _]%proper_snoc _], Hys as [[Hd _]%proper_snoc _]. apply render_inj; congruence.
Qed.

Lemma plant_child t fs f p reported :
  forest (fs ++ [f]) -> holds t fs -> parent f = Some p ->
  exists t', plant (t, reported) f = Ok (t', reported) /\ holds t' (fs ++ [f]).
Proof.
  intros Hfor Ht Hp. unfold plant. destruct (tree_new_node t f) as [n t'] eqn:E. rewrite Hp.
  pose proof (new_node_sprouts _ _ _ _ _ Hfor Ht E) as Hs.
  destruct (forest_parents _ Hfor fs f [] p eq_refl Hp) as (q & Hq & <-).
  destruct (proj1 (holds_nodes t fs Ht q) Hq) as [k Hk]. destruct Hs as [Hg Hn Hget Hch Hnodes Hmap Hlen] eqn:Es.
  unfold add_child_to_node. rewrite (proj2 (Hget n f)) by (by left). cbn [unwrap ok_or mbind result_bind].
  rewrite (proj2 (Hmap (name q) k)) by (exists q; split; [apply Hget; by right|done]). cbn [ok_or mbind result_bind].
  rewrite (no_namesakes t fs f n t' q k) by done.
  assert (attachable (tree_arena t') k n) as Ha.
  { split_and!; [exists q; apply Hget; by right|exists f; apply Hget; by left|congruence|..].
    - rewrite Hch. by apply children_absent; [apply (holds_grown t fs)|].
    - intros m Hm. rewrite Hch in Hm. apply children_present in Hm; [|by apply (holds_grown t fs)]. destruct Hm. congruence. }
  pose proof (fun m => get_append _ _ _ m Hg Ha) as Hga. pose proof (fun m => children_append _ _ _ m Hg Ha) as Hca.
  eexists. split; [done|]. split; cbn [tree_arena tree_map tree_length].
  - by constructor.
  - setoid_rewrite Hga. done.
  - setoid_rewrite Hga. done.
  - intros x m. rewrite Hca, !Hga. setoid_rewrite Hget.
    assert (m ∈ (if decide (x = k) then children (tree_arena t') k ++ [n] else children (tree_arena t') x)
            <-> x = k /\ m = n \/ m ∈ children (tree_arena t) x) as ->.
    { case_decide; [subst|]; rewrite Hch; set_solver. }
    rewrite (holds_children t fs Ht). split.
    + intros [[-> ->]|(u & v & Hu & Hv & Huv)]; [exists q, f|exists u, v]; naive_solver.
    + intros (u & v & Hu & [[-> ->]|Hv] & Huv).
      * left. split; [|done]. destruct Hu as [[_ ->]|Hu].
        { exfalso. apply (forest_fresh fs f q Hfor Hq). congruence. }
        assert (tree_map t !! name q = Some x) as E1 by (apply (holds_map t fs Ht); exists u; split; [done|congruence]).
        assert (tree_map t !! name q = Some k) as E2 by (apply (holds_map t fs Ht); by exists q). congruence.
      * right. exists u, v. split_and!; [|done|done]. destruct Hu as [[-> ->]|Hu]; [|done].
        by apply (no_early_child t fs f v m) in Huv.
  - intros x. rewrite Hca. case_decide; rewrite Hch; [|apply (holds_NoDup t fs Ht)].
    apply NoDup_app. split_and!; [apply (holds_NoDup t fs Ht)| |apply NoDup_singleton].
    intros m Hm ->%list_elem_of_singleton. rewrite <- Hch in Hm. by apply Ha in Hm.
  - done.
Qed.

Theorem plant_all fs capacity :
  forest fs ->
  exists t, try_fold plant (tree_with_capacity capacity, []) fs = Ok (t, []) /\ holds t fs.
Proof.
  induction fs as [|f fs IH] using rev_ind; intros Hfor; [eexists; split; [done|apply holds_empty]|].
  destruct (IH (forest_init _ _ Hfor)) as (t & Et & Ht). rewrite try_fold_app, Et. cbn [mbind result_bind try_fold].
  destruct (parent f) as [p|] eqn:Hp;
    [destruct (plant_child t fs f p [] Hfor Ht Hp) as (t' & -> & Ht')|destruct (plant_root t fs f [] Hfor Ht Hp) as (t' & -> & Ht')];
    by exists t'.
Qed.
End spec.
