(* ===== verification/VfsReading.v ===== *)
(** * Reading trees

    A tree that [holds] files is iterated in preorder over exactly those files, and its
    nested elements put each at its own path, within the fuel of one step per file. *)

From S2P Require Import Prelude ByteStrings Ordered Vfs VfsSpec.
Import Indextree.

(** The names on the way to an element and its item, for all elements of a tree whose
    root is at [here]. *)
Definition partial {T} (e : Element T) : bytes := match e with Directory p _ _ => p | Child p _ => p end.

Fixpoint occupies {T} (here : list bytes) (e : Element T) : list (list bytes * T) :=
  match e with
  | Child _ x => [(here, x)]
  | Directory _ x es => (here, x) :: es ≫= (fun e' => occupies (here ++ [partial e']) e')
  end.

Lemma bind_split {X Y} (h : X -> list Y) l l1 y l2 :
  l ≫= h = l1 ++ y :: l2 -> exists x u v w, x ∈ l /\ h x = u ++ y :: v /\ l1 = w ++ u.
Proof.
  revert l1. induction l as [|x l IH]; intros l1 E; [by destruct l1|]. cbn in E.
  apply app_eq_inv in E as [(k & E1 & E2)|(k & E1 & E2)].
  - destruct k as [|z k]; cbn in E2.
    + destruct (IH [] (eq_sym E2)) as (x' & u & v & w & Hx & Hh & E). destruct w; [|done]. cbn in E. subst u.
      rewrite app_nil_r in E1. exists x', [], v, l1. split_and!; [by right|done|by rewrite app_nil_r].
    + injection E2 as <- ->. exists x, l1, k, []. split_and!; [left|done|done].
  - destruct (IH _ E2) as (x' & u & v & w & Hx & Hh & ->). exists x', u, v, (h x ++ w).
    split_and!; [by right|done|]. by rewrite E1, app_assoc.
Qed.

Section reading.
Context {T : Type} `{BlitFile T} {A : Arena (File T)} {L : Laws (File T) A}.
Context (t : Tree T) (fs : list (File T)) (Hfor : forest fs) (Ht : holds t fs).
Implicit Types (f g : File T) (n m : NodeId).

Abbreviation a := (tree_arena t).
Abbreviation desc := (descendants (tree_arena t)).

Lemma desc_unfold n : is_Some (get a n) -> desc n = n :: (children a n ≫= desc).
Proof. apply descendants_preorder, (holds_grown t fs Ht). Qed.

Lemma child_node n m : m ∈ children a n -> is_Some (get a n) /\ is_Some (get a m).
Proof. intros (f & g & Hf & Hg & _)%(holds_children t fs Ht). split; by eexists. Qed.

Lemma desc_shorter n m : m ∈ children a n -> (length (desc m) < length (desc n))%nat.
Proof.
  intros Hm. destruct (child_node n m Hm) as [Hn _]. rewrite (desc_unfold n Hn). cbn.
  apply list_elem_of_split in Hm as (l1 & l2 & ->). rewrite bind_app, bind_cons, !length_app. lia.
Qed.

(** Induction from the leaves up. *)
Lemma node_ind (P : NodeId -> Prop) :
  (forall n f, get a n = Some f -> (forall m, m ∈ children a n -> P m) -> P n) -> forall n, is_Some (get a n) -> P n.
Proof.
  intros Hstep n. induction (Nat.lt_wf_0_projected (fun n => length (desc n)) n) as [n _ IH]. intros [f Hf].
  apply (Hstep n f Hf). intros m Hm. apply IH; [by apply desc_shorter|by apply (child_node n m)].
Qed.

Lemma node_sited n f : get a n = Some f -> exists cs, sited f cs.
Proof. intros Hf. apply (forest_sited _ Hfor), (holds_nodes t fs Ht). by eexists. Qed.

Lemma node_inj n m f g : get a n = Some f -> get a m = Some g -> name f = name g -> n = m.
Proof.
  intros Hf Hg E. assert (tree_map t !! name f = Some n) as E1 by (apply (holds_map t fs Ht); by exists f).
  assert (tree_map t !! name f = Some m) as E2 by (apply (holds_map t fs Ht); by exists g). congruence.
Qed.

(** A child's path is its parent's with one name more. *)
Lemma child_sited n m f cs :
  get a n = Some f -> sited f cs -> m ∈ children a n -> exists g c, get a m = Some g /\ sited g (cs ++ [c]).
Proof.
  intros Hf Hs Hm. apply (holds_children t fs Ht) in Hm as (f' & g & Hf' & Hg & Hp).
  rewrite Hf in Hf'. injection Hf' as <-. destruct (node_sited m g Hg) as [ds Hds].
  destruct (sited_child g _ Hp ds Hds) as (ds' & c & -> & E). exists g, c. split; [done|].
  rewrite (sited_name f cs Hs) in E. assert (cs = ds') as -> ; [|done].
  apply render_inj; [apply Hs|by destruct Hds as [[? _]%proper_snoc _]|done].
Qed.

Lemma desc_below n f cs :
  get a n = Some f -> sited f cs -> forall m, m ∈ desc n -> exists g ds, get a m = Some g /\ sited g (cs ++ ds).
Proof.
  intros Hf. assert (is_Some (get a n)) as Hn by (by eexists). revert f cs Hf. pattern n. apply node_ind; [|done]. clear n Hn.
  intros n f' _ IH f cs Hf Hs m. rewrite desc_unfold by (by eexists). rewrite elem_of_cons, list_elem_of_bind.
  intros [-> |(k & Hm & Hk)]; [exists f, []; by rewrite app_nil_r|].
  destruct (child_sited n k f cs Hf Hs Hk) as (g & c & Hg & Hgs).
  destruct (IH k Hk g _ Hg Hgs m Hm) as (h & ds & Hh & Hhs). exists h, ([c] ++ ds). by rewrite app_assoc.
Qed.

Lemma desc_child n m k : is_Some (get a n) -> m ∈ desc n -> k ∈ children a m -> k ∈ desc n.
Proof.
  intros Hn. revert m k. pattern n. apply node_ind; [|done]. clear n Hn.
  intros n f Hf IH m k. rewrite desc_unfold by (by eexists). rewrite !elem_of_cons, !list_elem_of_bind.
  intros [-> |(j & Hm & Hj)] Hk; right; [exists k|exists j].
  - split; [|done]. rewrite desc_unfold by (by apply (child_node n k)). left.
  - split; [|done]. by apply (IH j Hj m).
Qed.

Lemma desc_complete n m f g cs ds :
  get a n = Some f -> sited f cs -> get a m = Some g -> sited g (cs ++ ds) -> m ∈ desc n.
Proof.
  intros Hf Hs. revert m g. induction ds as [|d ds IH] using rev_ind; intros m g Hg Hgs.
  - rewrite app_nil_r in Hgs. rewrite (node_inj m n g f Hg Hf), desc_unfold by (by eexists || by rewrite (sited_name _ _ Hs), (sited_name _ _ Hgs)).
    left.
  - rewrite app_assoc in Hgs. pose proof (sited_parent g _ _ Hgs) as Hp.
    assert (g ∈ fs) as Hin by (apply (holds_nodes t fs Ht); by eexists).
    destruct (forest_closed fs g _ Hfor Hin Hp) as (h & Hh & En). destruct (forest_sited _ Hfor h Hh) as [es Hes].
    apply (holds_nodes t fs Ht) in Hh as [k Hk]. rewrite (sited_name h es Hes) in En.
    apply render_inj in En as ->; [|apply Hes|by destruct Hgs as [[? _]%proper_snoc _]].
    apply (desc_child n k m); [by eexists|by apply (IH k h)|]. apply (holds_children t fs Ht). exists h, g.
    by rewrite (sited_name h _ Hes).
Qed.

Lemma desc_NoDup n : is_Some (get a n) -> NoDup (desc n).
Proof.
  revert n. apply node_ind. intros n f Hf IH. destruct (node_sited n f Hf) as [cs Hs].
  assert (forall k m, k ∈ children a n -> m ∈ desc k ->
    exists g c h ds, get a k = Some g /\ sited g (cs ++ [c]) /\ get a m = Some h /\ sited h ((cs ++ [c]) ++ ds)) as Hbelow.
  { intros k m Hk Hm. destruct (child_sited n k f cs Hf Hs Hk) as (g & c & Hg & Hgs).
    destruct (desc_below k g _ Hg Hgs m Hm) as (h & ds & Hh & Hhs). by exists g, c, h, ds. }
  rewrite desc_unfold by (by eexists). constructor.
  - rewrite list_elem_of_bind. intros (k & Hn & Hk). destruct (Hbelow k n Hk Hn) as (g & c & h & ds & _ & _ & Hh & Hhs).
    rewrite Hf in Hh. injection Hh as <-. pose proof (sited_fun f f _ _ Hs Hhs eq_refl) as E.
    apply (f_equal length) in E. rewrite !length_app in E. cbn in E. lia.
  - apply NoDup_bind; [|done|apply (holds_NoDup t fs Ht)]. intros k1 k2 m Hk1 Hk2 Hm1 Hm2.
    destruct (Hbelow k1 m Hk1 Hm1) as (g1 & c1 & h & ds1 & Hg1 & Hs1 & Hh & Hh1).
    destruct (Hbelow k2 m Hk2 Hm2) as (g2 & c2 & h' & ds2 & Hg2 & Hs2 & Hh' & Hh2).
    rewrite Hh in Hh'. injection Hh' as <-. pose proof (sited_fun h h _ _ Hh1 Hh2 eq_refl) as E.
    rewrite <- !app_assoc in E. apply app_inv_head in E. injection E as -> _.
    apply (node_inj k1 k2 g1 g2 Hg1 Hg2). by rewrite (sited_name _ _ Hs1), (sited_name _ _ Hs2).
Qed.

Lemma desc_parents_first n l1 m l2 :
  is_Some (get a n) -> desc n = l1 ++ m :: l2 -> m = n \/ exists k, k ∈ l1 /\ m ∈ children a k.
Proof.
  intros Hn. revert l1 m l2. pattern n. apply node_ind; [|done]. clear n Hn.
  intros n f Hf IH l1 m l2. rewrite desc_unfold by (by eexists).
  destruct l1 as [|n' l1]; [intros [= -> _]; by left|]. intros [= <- E]. right.
  destruct (bind_split _ _ _ _ _ E) as (k & u & v & w & Hk & Hu & ->).
  destruct (IH k Hk u m v Hu) as [-> |(j & Hj & Hm)]; [exists n; split; [left|done]|].
  exists j. split; [|done]. set_solver.
Qed.

(** ** Iterating *)

Definition listed (ns : list NodeId) : list (File T) := omap (get a) ns.

Lemma listed_cons n f ns : get a n = Some f -> listed (n :: ns) = f :: listed ns.
Proof. intros Hf. unfold listed. cbn. by rewrite Hf. Qed.

Lemma yielded_listed ns : Forall (fun n => is_Some (get a n)) ns -> yielded a ns = inner <$> listed ns.
Proof.
  induction 1 as [|n ns [f Hf] _ IH]; [done|]. cbn [yielded]. by rewrite (listed_cons n f ns Hf), Hf, IH.
Qed.

Lemma listed_length ns : Forall (fun n => is_Some (get a n)) ns -> length (listed ns) = length ns.
Proof. induction 1 as [|n ns [f Hf] _ IH]; [done|]. rewrite (listed_cons n f ns Hf). cbn. by rewrite IH. Qed.

Lemma desc_nodes n : is_Some (get a n) -> Forall (fun m => is_Some (get a m)) (desc n).
Proof.
  intros [f Hf]. destruct (node_sited n f Hf) as [cs Hs]. apply Forall_forall. intros m Hm.
  destruct (desc_below n f cs Hf Hs m Hm) as (g & _ & Hg & _). by eexists.
Qed.

Lemma elem_of_listed f ns : f ∈ listed ns <-> exists n, n ∈ ns /\ get a n = Some f.
Proof. apply list_elem_of_omap. Qed.

Lemma listed_NoDup ns : NoDup ns -> NoDup (name <$> listed ns).
Proof.
  induction 1 as [|n ns Hn _ IH]; [constructor|]. unfold listed. cbn. destruct (get a n) as [f|] eqn:Hf; [|done].
  cbn. constructor; [|done]. rewrite list_elem_of_fmap. intros (g & E & (m & Hm & Hg)%elem_of_listed).
  apply Hn. by rewrite (node_inj n m f g Hf Hg E).
Qed.

Lemma listed_split ns l1 f l2 :
  Forall (fun n => is_Some (get a n)) ns -> listed ns = l1 ++ f :: l2 ->
  exists ns1 n ns2, ns = ns1 ++ n :: ns2 /\ l1 = listed ns1 /\ get a n = Some f.
Proof.
  intros Hall. revert l1. induction Hall as [|n ns [g Hg] _ IH]; intros l1 E; [by destruct l1|].
  rewrite (listed_cons n g ns Hg) in E. destruct l1 as [|h l1]; injection E as -> E.
  - exists [], n, ns. done.
  - destruct (IH l1 E) as (ns1 & m & ns2 & -> & -> & Hm). exists (n :: ns1), m, ns2. split_and!; [done| |done].
    by rewrite (listed_cons n h).
Qed.

(** ** Nested elements *)

(** Only directories have files below them. *)
Definition nested : Prop := forall f g, f ∈ fs -> g ∈ fs -> parent g = Some (name f) -> Kind.is_directory (file_kind f) = true.

Definition place f : list bytes * T := (tail (components (name f)), inner f).

Lemma place_sited f cs : sited f cs -> place f = (cs, inner f).
Proof. intros Hs. unfold place. by rewrite (sited_name f cs Hs), components_render by apply Hs. Qed.

Lemma try_map_spec {E X Y} (h : X -> result E Y) l :
  (forall x, x ∈ l -> exists y, h x = Ok y) -> exists ys, try_map h l = Ok ys /\ Forall2 (fun x y => h x = Ok y) l ys.
Proof.
  induction l as [|x l IH]; intros Hl; [exists []; by split|]. destruct (Hl x) as [y Hy]; [left|].
  destruct IH as (ys & Hys & Hf); [intros z Hz; apply Hl; by right|]. exists (y :: ys). cbn. rewrite Hy. cbn. rewrite Hys.
  split; [done|]. by constructor.
Qed.

Lemma structured_children_spec (Hnest : nested) fuel n f cs :
  (length (desc n) <= fuel)%nat -> get a n = Some f -> sited f cs ->
  exists e, structured_children fuel t n = Ok e /\ partial e = file_name f /\ occupies cs e = place <$> listed (desc n).
Proof.
  revert n f cs. induction fuel as [|fuel IH]; intros n f cs Hfuel Hf Hs.
  { rewrite desc_unfold in Hfuel by (by eexists). cbn in Hfuel. lia. }
  rewrite desc_unfold by (by eexists). rewrite (listed_cons n f _ Hf), fmap_cons, (place_sited f cs Hs).
  cbn [structured_children]. rewrite Hf. cbn [unwrap ok_or mbind result_bind]. destruct (Kind.is_directory (file_kind f)) eqn:Ek.
  - destruct (try_map_spec (structured_children fuel t) (children a n)) as (es & -> & Hes).
    { intros m Hm. destruct (child_sited n m f cs Hf Hs Hm) as (g & c & Hg & Hgs).
      destruct (IH m g _ ltac:(pose proof (desc_shorter n m Hm); lia) Hg Hgs) as (e & He & _). by exists e. }
    exists (Directory (file_name f) (inner f) es). split_and!; [done|done|]. cbn [occupies]. f_equal.
    assert (forall m, m ∈ children a n -> m ∈ children a n) as Hsub by done. revert Hes Hsub.
    generalize (children a n) at 1 2 4. intros l Hes Hsub. induction Hes as [|m e l es He Hes IHl]; [done|].
    unfold listed. cbn. rewrite omap_app, fmap_app. f_equal; [|apply IHl; intros k Hk; apply Hsub; by right].
    assert (m ∈ children a n) as Hm by (apply Hsub; left).
    destruct (child_sited n m f cs Hf Hs Hm) as (g & c & Hg & Hgs).
    destruct (IH m g _ ltac:(pose proof (desc_shorter n m Hm); lia) Hg Hgs) as (e' & He' & Hpart & Hocc).
    rewrite He in He'. injection He' as <-. by rewrite Hpart, (sited_file_name g cs c Hgs).
  - exists (Child (file_name f) (inner f)). split_and!; [done|done|]. cbn [occupies].
    replace (children a n) with (@nil NodeId); [done|]. symmetry. destruct (children a n) as [|m l] eqn:E; [done|].
    assert (m ∈ children a n) as Hm by (rewrite E; left).
    apply (holds_children t fs Ht) in Hm as (f' & g & Hf' & Hg & Hp). rewrite Hf in Hf'. injection Hf' as <-.
    rewrite (Hnest f g) in Ek; [done| | |done]; apply (holds_nodes t fs Ht); by eexists.
Qed.

(** The files in the order a tree yields them: all of them, each after its parent. *)
Theorem tree_reads :
  exists files,
    files ≡ₚ fs /\ iter t = inner <$> files
    /\ (forall l1 f l2 p, files = l1 ++ f :: l2 -> parent f = Some p -> exists g, g ∈ l1 /\ name g = p)
    /\ (nested -> exists o, structured t = Ok o /\ from_option (occupies []) [] o = place <$> files).
Proof.
  unfold iter, structured, resolve_node. destruct (tree_map t !! [SLASH]) as [root|] eqn:Er; cycle 1.
  { assert (fs = []) as ->.
    { destruct fs as [|f fs'] eqn:E; [done|]. exfalso. destruct (forest_sited _ Hfor f) as [cs Hs]; [left|].
      destruct cs as [|c cs _] using rev_ind.
      - destruct (proj1 (holds_nodes t _ Ht f)) as [n Hn]; [left|].
        rewrite (proj2 (holds_map t _ Ht [SLASH] n)) in Er; [done|]. exists f. by rewrite (sited_name f [] Hs).
      - destruct (forest_parents _ Hfor [] f fs' _ eq_refl (sited_parent f cs c Hs)) as (g & Hg & _). by apply elem_of_nil in Hg. }
    exists []. split_and!; [done|done|by intros []|]. intros _. by exists None. }
  apply (holds_map t fs Ht) in Er as (r & Hr & Hname). destruct (node_sited root r Hr) as [cs Hs].
  assert (cs = []) as -> by (rewrite (sited_name r cs Hs) in Hname; apply render_inj; [apply Hs|constructor|done]).
  assert (is_Some (get a root)) as Hroot by (by eexists).
  assert (listed (desc root) ≡ₚ fs) as Hperm.
  { apply NoDup_Permutation; [by eapply NoDup_fmap_1, listed_NoDup, desc_NoDup|by eapply NoDup_fmap_1, (forest_names fs Hfor)|].
    intros f. rewrite elem_of_listed, (holds_nodes t fs Ht). split; [naive_solver|]. intros [n Hn]. exists n. split; [|done].
    destruct (node_sited n f Hn) as [cs Hcs]. by apply (desc_complete root n r f [] cs). }
  exists (listed (desc root)). split_and!; [done|by apply yielded_listed, desc_nodes|..].
  - intros l1 f l2 p E Hp. destruct (listed_split _ _ _ _ (desc_nodes root Hroot) E) as (ns1 & n & ns2 & Ed & -> & Hn).
    destruct (desc_parents_first root _ _ _ Hroot Ed) as [-> |(k & Hk & Hc)].
    + rewrite Hr in Hn. injection Hn as <-. by rewrite (sited_parent_root r Hs) in Hp.
    + apply (holds_children t fs Ht) in Hc as (g & f' & Hg & Hf' & Hpar). exists g.
      split; [apply elem_of_listed; by exists k|]. congruence.
  - intros Hnest. destruct (structured_children_spec Hnest (S (tree_length t)) root r []) as (e & -> & _ & Ho); [|done|done|].
    + rewrite (holds_length t fs Ht).
      assert (length (listed (desc root)) = length fs) as <- by (by rewrite Hperm).
      rewrite listed_length by (by apply desc_nodes). lia.
    + exists (Some e). by split.
Qed.
End reading.
