(* ===== verification/VfsBuilder.v ===== *)
(** * What a builder puts in a tree

    The files of a tree are, for each path, the last item pushed with it, or a directory
    if none was and an item is below it: [entry].  The files the builder plants are
    these, in an order that has the parent of each before it. *)

From S2P Require Import Prelude ByteStrings Ordered Vfs VfsSpec.

(** What the trait asks of [From<AStr>]: a directory at the path. *)
Class BlitLaws (T : Type) `{BlitFile T} : Prop := {
  from_path_kind (p : bytes) : starts_with SLASH p = true -> kind (from_path p) = Kind.Directory;
  from_path_path (p : bytes) : starts_with SLASH p = true -> path (from_path p) = p;
}.

(** The names of a canonical path and the directories above it. *)
Definition names (p : bytes) : list bytes := tail (components p).
Definition above (cs : list bytes) : list bytes := (fun k => render (take k cs)) <$> seq 0 (length cs).
Definition ancestors (p : bytes) : list bytes := above (names p).

Lemma names_render cs : proper cs -> names (render cs) = cs.
Proof. intros Hp. unfold names. by rewrite components_render. Qed.

Lemma above_snoc cs c : above (cs ++ [c]) = above cs ++ [render cs].
Proof.
  unfold above. rewrite length_app, Nat.add_1_r, seq_S, fmap_app. cbn. rewrite take_app_length. f_equal.
  apply list_fmap_ext. intros i k Hk. apply lookup_seq in Hk as [-> Hlt]. cbn. by rewrite take_app_le by lia.
Qed.

Lemma elem_of_above p cs : p ∈ above cs <-> exists ds es, es <> [] /\ cs = ds ++ es /\ p = render ds.
Proof.
  unfold above. rewrite list_elem_of_fmap. split.
  - intros (k & -> & Hk%elem_of_seq). exists (take k cs), (drop k cs). split_and!; [|by rewrite take_drop|done].
    intros E. apply (f_equal length) in E. rewrite length_drop in E. cbn in E. lia.
  - intros (ds & es & He & -> & ->). exists (length ds). rewrite take_app_length. split; [done|].
    apply elem_of_seq. rewrite length_app. destruct es; [done|]. cbn. lia.
Qed.

Lemma body_app cs ds : body (cs ++ ds) = body cs ++ body ds.
Proof. apply bind_app. Qed.

Lemma short_above cs ds : short (render (cs ++ ds)) -> short (render cs).
Proof.
  destruct cs as [|c cs]; [done|]. unfold short. cbn [render app]. change (c :: cs ++ ds) with ((c :: cs) ++ ds).
  rewrite body_app, length_app. lia.
Qed.

(** [sorted_paths] is the order of the pairs of depth and path. *)
Lemma sorted_paths_pre {T} : @CmpPre (File T) sorted_paths.
Proof. exact (cmp_on_pre (K := nat * bytes) (fun f : File T => (depth f, name f))). Qed.
#[export] Existing Instance sorted_paths_pre.

Lemma parent_sorts_first {T} (f g : File T) cs ds :
  ds <> [] -> sited f (cs ++ ds) -> sited g cs -> sorted_paths g f = Lt.
Proof.
  intros Hd Hf Hg. unfold sorted_paths, depth. rewrite (sited_name _ _ Hf), (sited_name _ _ Hg).
  rewrite !count_render by (apply Hf || apply Hg). rewrite length_app. unfold then_with. change (@cmp nat nat_cmp) with Nat.compare.
  destruct (Nat.compare_spec (Nat.max 1 (length cs)) (Nat.max 1 (length cs + length ds))) as [E|E|E]; [|done|].
  - destruct cs as [|c cs]; [|destruct ds; [done|cbn in E; lia]]. by apply render_before; [apply Hf|].
  - destruct ds; [done|]. cbn in E. lia.
Qed.

Section builder.
Context {T : Type} `{BlitLaws T}.
Implicit Types (x y : T) (f g : File T) (items : list T) (p : bytes) (b : TreeBuilder T).

Definition fits x : Prop := canonical (path x) = true /\ short (path x).

Definition implied items : list bytes := items ≫= (fun x => ancestors (path x)).

(** What a tree of items has at a path. *)
Definition entry items p : option T :=
  match last (filter (fun x => path x = p) items) with
  | Some x => Some x
  | None => if bool_decide (p ∈ implied items) then Some (from_path p) else None
  end.

(** At each path there is at most one item, or only directories; and only directories
    have items below them. *)
Definition unambiguous items : Prop :=
  forall p, let l := filter (fun x => path x = p) items in
  (length l <= 1)%nat \/ Forall (fun x => kind x = Kind.Directory) l.
Definition settled items : Prop :=
  forall x y, x ∈ items -> y ∈ items -> path x ∈ ancestors (path y) -> kind x = Kind.Directory.

Lemma none_at items p : last (filter (fun x => path x = p) items) = None <-> p ∉ path <$> items.
Proof.
  rewrite last_None. split.
  - intros E (x & -> & Hx)%list_elem_of_fmap.
    assert (x ∈ filter (fun y => path y = path x) items) as Hf by (by apply list_elem_of_filter).
    rewrite E in Hf. by apply elem_of_nil in Hf.
  - intros Hp. destruct (filter (fun x => path x = p) items) as [|x l] eqn:E; [done|]. exfalso. apply Hp.
    assert (x ∈ filter (fun x => path x = p) items) as [<- Hx]%list_elem_of_filter by (rewrite E; left).
    by apply list_elem_of_fmap_2.
Qed.

(** ** Files of items *)

Lemma file_new_at x cs :
  path x = render cs -> proper cs -> short (path x) -> file_new x = Ok (mk_file (id x) (vpath cs) (kind x) x).
Proof. intros E Hp Hs. unfold file_new. rewrite E in *. by rewrite vfs_path_new_render. Qed.

Lemma file_new_ok x f : file_new x = Ok f -> name f = path x /\ file_kind f = kind x /\ inner f = x.
Proof.
  unfold file_new. intros Hf. apply bind_ok_iff in Hf as (q & Hq & [= <-]). cbn. split; [|done]. unfold name. cbn.
  unfold vfs_path_new in Hq. inv_ok. done.
Qed.

Lemma fits_file x : fits x -> exists f cs, file_new x = Ok f /\ sited f cs /\ path x = render cs.
Proof.
  intros [(cs & Hp & E)%canonical_iff Hs]. eexists _, cs. split_and!; [by apply file_new_at|done|done].
Qed.

Lemma fits_sited x f : fits x -> file_new x = Ok f -> exists cs, sited f cs /\ path x = render cs.
Proof. intros Hx Hf. destruct (fits_file x Hx) as (g & cs & Hg & Hs & E). exists cs. split; [|done]. congruence. Qed.

Lemma from_path_fits cs : proper cs -> short (render cs) -> fits (from_path (render cs)).
Proof.
  intros Hp Hs. split; rewrite from_path_path by apply starts_render; [|done]. apply canonical_iff. by exists cs.
Qed.

Lemma implied_at items p :
  Forall fits items -> p ∈ implied items ->
  exists x ds es, x ∈ items /\ es <> [] /\ path x = render (ds ++ es) /\ p = render ds /\ proper (ds ++ es) /\ fits (from_path p).
Proof.
  intros Hfit (x & Hp & Hx)%list_elem_of_bind. pose proof (proj1 (Forall_forall _ _) Hfit x Hx) as [(cs & Hcs & E)%canonical_iff Hs].
  unfold ancestors in Hp. rewrite E, names_render in Hp by done.
  apply elem_of_above in Hp as (ds & es & He & -> & ->). exists x, ds, es. split_and!; try done.
  apply from_path_fits; [by apply Forall_app in Hcs as [? _]|]. rewrite E in Hs. by eapply short_above.
Qed.

(** ** Pushing *)

Lemma insert_dir ds (dirs : list (bytes * File T)) :
  proper ds -> short (render ds) -> sorted dirs.*1 ->
  exists f, file_new (from_path (render ds)) = Ok f /\ sorted (map_insert (render ds) f dirs).*1
    /\ forall p, map_get p (map_insert (render ds) f dirs)
         = if bool_decide (p = render ds) then result_ok (file_new (from_path p)) else map_get p dirs.
Proof.
  intros Hp Hs Hd. destruct (fits_file _ (from_path_fits ds Hp Hs)) as (f & cs & Hf & _ & _). exists f.
  split_and!; [done|rewrite map_insert_keys; by apply set_insert_sorted|].
  intros p. rewrite map_get_insert. case_bool_decide as E; [subst; by rewrite cmp_refl, Hf|].
  destruct (cmp p (render ds)) eqn:E'; [|done|done]. by apply cmp_eq_iff in E'.
Qed.

Lemma push_components cs (dirs : list (bytes * File T)) :
  proper cs -> short (render cs) -> sorted dirs.*1 ->
  exists dirs', try_fold push_component (None, dirs) ([SLASH] :: cs) = Ok (Some (render cs), dirs') /\ sorted dirs'.*1
    /\ forall p, map_get p dirs'
         = if bool_decide (p ∈ above cs ++ [render cs]) then result_ok (file_new (from_path p)) else map_get p dirs.
Proof.
  intros Hp Hs Hd. induction cs as [|c cs IH] using rev_ind.
  - destruct (insert_dir [] dirs Hp Hs Hd) as (f & Hf & Hsd & Hget). eexists.
    cbn [try_fold push_component]. change [SLASH] with (render []). rewrite Hf. cbn [mbind result_bind].
    split_and!; [done|done|]. intros p. rewrite Hget. repeat case_bool_decide; set_solver.
  - apply proper_snoc in Hp as [Hp Hc]. destruct (IH Hp (short_above _ _ Hs)) as (dirs1 & E1 & Hs1 & Hget1).
    rewrite app_comm_cons, try_fold_app, E1. cbn [mbind result_bind try_fold push_component]. rewrite join_render by done.
    destruct (insert_dir (cs ++ [c]) dirs1) as (f & -> & Hsd & Hget); [by apply proper_snoc|done|done|].
    eexists. split_and!; [done|done|]. intros p. rewrite Hget, Hget1, above_snoc.
    repeat case_bool_decide; set_solver.
Qed.

(** The builder after pushing items. *)
Record pushed b items : Prop := {
  pushed_explicit : Forall2 (fun x f => file_new x = Ok f) items (explicit b);
  pushed_sorted : sorted (implicit_dirs b).*1;
  pushed_implicit p :
    map_get p (implicit_dirs b) = if bool_decide (p ∈ implied items) then result_ok (file_new (from_path p)) else None;
}.

Lemma push_pushes b items x :
  pushed b items -> fits x -> exists b', push b x = Ok b' /\ pushed b' (items ++ [x]).
Proof.
  intros [He Hs Hi] Hx. destruct (fits_file x Hx) as (f & cs & Hf & Hcs & E). unfold push. rewrite Hf. cbn [mbind result_bind].
  assert (exists dirs', match parent f with
    | Some p => s ← try_fold push_component (None, implicit_dirs b) (components p); mret s.2
    | None => mret (implicit_dirs b) end = Ok dirs' /\ sorted dirs'.*1
    /\ forall p, map_get p dirs' = if bool_decide (p ∈ above cs) then result_ok (file_new (from_path p)) else map_get p (implicit_dirs b))
    as (dirs' & -> & Hs' & Hget).
  { destruct cs as [|c cs _] using rev_ind.
    - rewrite (sited_parent_root f Hcs). exists (implicit_dirs b). split_and!; [done|done|]. intros p. by rewrite bool_decide_eq_false_2 by set_solver.
    - rewrite (sited_parent f cs c Hcs). destruct Hcs as [[Hp Hc]%proper_snoc _]. rewrite components_render by done.
      destruct (push_components cs (implicit_dirs b)) as (dirs' & -> & Hs' & Hget); [done| |done|].
      { destruct Hx as [_ Hshort]. rewrite E in Hshort. by eapply short_above. }
      exists dirs'. split_and!; [done|done|]. intros p. by rewrite Hget, above_snoc. }
  cbn [mbind result_bind]. eexists. split; [done|]. split; cbn [explicit implicit_dirs].
  - apply Forall2_app; [done|]. by constructor.
  - done.
  - intros p. rewrite Hget, Hi. unfold implied. rewrite bind_app, bind_singleton.
    replace (ancestors (path x)) with (above cs) by (unfold ancestors; by rewrite E, names_render by apply Hcs). repeat case_bool_decide; set_solver.
Qed.

Lemma push_all items : Forall fits items -> exists b, try_fold push builder_new items = Ok b /\ pushed b items.
Proof.
  induction items as [|x items IH] using rev_ind.
  - intros _. eexists. split; [done|]. split; cbn; [constructor|constructor|].
    intros p. by rewrite bool_decide_eq_false_2 by apply not_elem_of_nil.
  - intros [Hi Hx]%Forall_app. destruct (IH Hi) as (b & Eb & Hb). rewrite try_fold_app, Eb. cbn [mbind result_bind try_fold].
    rewrite Forall_singleton in Hx. destruct (push_pushes b items x Hb Hx) as (b' & -> & Hb'). by exists b'.
Qed.

(** ** Baking *)

Lemma remove_names (fs : list (File T)) (dirs : list (bytes * File T)) :
  sorted dirs.*1 ->
  let dirs' := foldl (fun dirs i => map_remove (name i) dirs) dirs fs in
  sorted dirs'.*1 /\ forall p, map_get p dirs' = if bool_decide (p ∈ name <$> fs) then None else map_get p dirs.
Proof.
  cbn. revert dirs. induction fs as [|f fs IH]; intros dirs Hs; cbn.
  - split; [done|]. intros p. by rewrite bool_decide_eq_false_2 by apply not_elem_of_nil.
  - destruct (IH (map_remove (name f) dirs)) as [Hs' Hget]; [by apply map_remove_sorted|]. split; [done|]. intros p.
    rewrite Hget, map_get_remove. destruct (cmp p (name f)) eqn:E.
    + apply cmp_eq_iff in E as ->. rewrite (bool_decide_eq_true_2 (name f ∈ name f :: _)) by left. by case_bool_decide.
    + assert (p <> name f) by (intros ->; by rewrite cmp_refl in E). repeat case_bool_decide; set_solver.
    + assert (p <> name f) by (intros ->; by rewrite cmp_refl in E). repeat case_bool_decide; set_solver.
Qed.

(** The files of a path among those of the items, in the order pushed. *)
Lemma files_named items (fs : list (File T)) p :
  Forall2 (fun x f => file_new x = Ok f) items fs ->
  Forall2 (fun x f => file_new x = Ok f) (filter (fun x => path x = p) items) (filter (fun f => name f = p) fs).
Proof.
  induction 1 as [|x f items fs Hf _ IH]; [constructor|]. destruct (file_new_ok x f Hf) as (E & _ & _).
  rewrite !filter_cons, E. case_decide; [by constructor|done].
Qed.

Lemma last_file l (fs : list (File T)) :
  Forall2 (fun x f => file_new x = Ok f) l fs ->
  match last l, last fs with Some x, Some f => file_new x = Ok f | None, None => True | _, _ => False end.
Proof.
  induction 1 as [|x f l fs Hf Hl IH] using Forall2_ind; [done|]. destruct Hl; [done|]. exact IH.
Qed.

Record baked b items : Prop := {
  baked_named : forall p, Forall2 (fun x f => file_new x = Ok f) (filter (fun x => path x = p) items) (filter (fun f => name f = p) (explicit b));
  baked_sorted : sorted (implicit_dirs b).*1;
  baked_implicit p :
    map_get p (implicit_dirs b)
    = if bool_decide (p ∈ implied items /\ p ∉ path <$> items) then result_ok (file_new (from_path p)) else None;
}.

Lemma bake_bakes b items : pushed b items -> baked (bake b) items.
Proof.
  intros [He Hs Hi]. unfold bake. destruct (remove_names (@sort _ sorted_paths (explicit b)) _ Hs) as [Hs' Hget]. split; cbn.
  - intros p. rewrite sort_filter; [by apply files_named|]. intros f g <- E. unfold cmp, sorted_paths, depth.
    rewrite E. by rewrite !cmp_refl.
  - done.
  - intros p. rewrite Hget, Hi.
    assert (p ∈ name <$> @sort _ sorted_paths (explicit b) <-> p ∈ path <$> items) as Hiff.
    { rewrite sort_perm. enough (name <$> explicit b = path <$> items) as -> by done. clear -He.
      induction He as [|x f l fs Hf _ IH]; [done|]. cbn. rewrite IH. by destruct (file_new_ok x f Hf) as (-> & _ & _). }
    repeat case_bool_decide; naive_solver.
Qed.

(** ** The full set *)

(** A map of files by name. *)
Definition keyed (m : list (bytes * File T)) : Prop := sorted m.*1 /\ forall p f, map_get p m = Some f -> name f = p.

Lemma keyed_pairs m : keyed m -> (fun d => (name d, d)) <$> m.*2 = m.
Proof.
  intros [Hs Hk]. assert (forall k d, (k, d) ∈ m -> name d = k) as Hm by (intros k d Hin; by apply Hk, map_get_elem).
  clear Hs Hk. induction m as [|[k d] m IH]; [done|]. cbn. rewrite (Hm k d) by left. f_equal. apply IH. set_solver.
Qed.

Lemma keyed_names m : keyed m -> name <$> m.*2 = m.*1.
Proof.
  intros Hm. transitivity (((fun d => (name d, d)) <$> m.*2).*1); [|by rewrite keyed_pairs].
  by rewrite <- (list_fmap_compose (fun d => (name d, d)) fst).
Qed.

Lemma keyed_elem m f : keyed m -> f ∈ m.*2 <-> map_get (name f) m = Some f.
Proof.
  intros Hm. rewrite map_get_elem by apply Hm. transitivity ((name f, f) ∈ (fun d => (name d, d)) <$> m.*2); [|by rewrite keyed_pairs].
  rewrite (list_elem_of_fmap (fun d => (name d, d))). split; [by exists f|]. by intros (g & [= _ ->] & Hg).
Qed.

Lemma keyed_collect m p : keyed m -> map_get p (map_collect ((fun d => (name d, d)) <$> m.*2)) = map_get p m.
Proof.
  intros Hm. rewrite keyed_pairs by done. apply option_eq. intros f. rewrite (map_get_elem p f m) by apply Hm.
  apply map_collect_get. by apply sorted_NoDup, Hm.
Qed.

Lemma map_collect_last (fs : list (File T)) p :
  map_get p (map_collect ((fun d => (name d, d)) <$> fs)) = last (filter (fun f => name f = p) fs).
Proof.
  unfold map_collect. induction fs as [|f fs IH] using rev_ind; [done|].
  rewrite fmap_app, foldl_app, filter_app. cbn [fmap list_fmap foldl fst snd]. rewrite map_get_insert, IH. destruct (decide (name f = p)) as [<- |Hn].
  - rewrite cmp_refl, filter_cons_True, filter_nil, last_snoc by done. done.
  - rewrite filter_cons_False, filter_nil, app_nil_r by done. destruct (cmp p (name f)) eqn:E; [|done|done]. by apply cmp_eq_iff in E.
Qed.

Abbreviation is_dir := (fun f : File T => Kind.is_directory (file_kind f) : Prop).

Lemma baked_keyed b items : baked b items -> Forall fits items -> keyed (implicit_dirs b).
Proof.
  intros [_ Hs Hi] Hfit. split; [done|]. intros p f. rewrite Hi. case_bool_decide as Hp; [|done].
  destruct (implied_at items p Hfit (proj1 Hp)) as (_ & ds & _ & _ & _ & _ & -> & _ & _).
  destruct (file_new _) eqn:E; [|done]. intros [= ->]. destruct (file_new_ok _ _ E) as (-> & _).
  by apply from_path_path, starts_render.
Qed.

Lemma all_dirs_get b items p :
  baked b items -> Forall fits items ->
  map_get p (all_dirs_of b)
  = match map_get p (implicit_dirs b) with
    | Some d => Some d
    | None => last (filter is_dir (filter (fun f => name f = p) (explicit b)))
    end.
Proof.
  intros Hb Hfit. unfold all_dirs_of. rewrite fmap_app, map_collect_app, keyed_collect, map_collect_last by (by eapply baked_keyed).
  by rewrite !list_filter_filter, (list_filter_iff (fun f => name f = p /\ is_dir f) (fun f => is_dir f /\ name f = p)) by tauto.
Qed.

Lemma all_dirs_keyed b items : baked b items -> Forall fits items -> keyed (all_dirs_of b).
Proof.
  intros Hb Hfit. split.
  - unfold all_dirs_of. rewrite map_collect_keys. apply set_collect_sorted.
  - intros p f. rewrite (all_dirs_get b items) by done. destruct (map_get p (implicit_dirs b)) eqn:E.
    + intros [= <-]. by apply (baked_keyed b items Hb Hfit).
    + intros Hl%last_Some_elem_of. by apply list_elem_of_filter in Hl as [_ [? _]%list_elem_of_filter].
Qed.

(** The files at a path where there is one item that is no directory, and where there
    are only directories. *)
Lemma files_at b items p :
  baked b items -> unambiguous items ->
  let here := filter (fun f => name f = p) (explicit b) in
  (filter is_dir here = here /\ filter (fun f => ~ is_dir f) here = [])
  \/ exists f, here = [f] /\ ~ is_dir f.
Proof.
  intros [Hn _ _] Hu. cbn. specialize (Hn p). destruct (Hu p) as [Hl|Hd].
  - destruct Hn as [|x f l fs Hf Hn]; [by left|]. destruct Hn; [|cbn in Hl; lia].
    destruct (decide (is_dir f)) as [Hk|Hk]; [left|right; by exists f].
    split; [by rewrite filter_cons_True|by rewrite filter_cons_False by tauto].
  - left. induction Hn as [|x f l fs Hf _ IH]; [done|]. apply Forall_cons in Hd as [Hk Hd].
    assert (is_dir f) as Hdir by (by destruct (file_new_ok x f Hf) as (_ & -> & _); rewrite Hk).
    destruct (IH Hd) as [E1 E2]. split; [by rewrite filter_cons_True, E1|by rewrite filter_cons_False, E2 by tauto].
Qed.

Lemma unnamed b items p : baked b items -> p ∉ path <$> items -> filter (fun f => name f = p) (explicit b) = [].
Proof.
  intros [Hn _ _] Hp%none_at%last_None. specialize (Hn p). rewrite Hp in Hn. by inversion Hn.
Qed.

(** The entry at a path as the file the builder has for it. *)
Lemma entry_file b items p f :
  baked b items -> Forall fits items -> unambiguous items ->
  (exists x, entry items p = Some x /\ file_new x = Ok f)
  <-> last (filter (fun f => name f = p) (explicit b)) = Some f \/ map_get p (implicit_dirs b) = Some f.
Proof.
  intros Hb Hfit Hu. rewrite (baked_implicit b items Hb). unfold entry.
  pose proof (last_file _ _ (baked_named b items Hb p)) as Hl.
  destruct (last (filter (fun x => path x = p) items)) as [x|] eqn:Ex, (last (filter _ (explicit b))) as [g|]; try done.
  - assert (p ∈ path <$> items) as Hp.
    { apply last_Some_elem_of, list_elem_of_filter in Ex as [<- Hx]. by apply list_elem_of_fmap_2. }
    rewrite bool_decide_eq_false_2 by tauto. split; [intros (y & [= <-] & Hy); left; congruence|].
    intros [[= <-]|]; [by exists x|done].
  - apply none_at in Ex. case_bool_decide as Hi; case_bool_decide as Hi'; [|tauto|tauto|naive_solver].
    split; [intros (y & [= <-] & Hy); right; by rewrite Hy|]. intros [|Hf]; [done|]. eexists. split; [done|].
    by destruct (file_new (from_path p)); [injection Hf as ->|].
Qed.

Lemma elem_of_full_set b items f :
  baked b items -> Forall fits items -> unambiguous items ->
  f ∈ full_set b <-> exists x, entry items (name f) = Some x /\ file_new x = Ok f.
Proof.
  intros Hb Hfit Hu. rewrite (entry_file b) by done. unfold full_set. rewrite elem_of_sort, elem_of_app.
  rewrite (keyed_elem _ f (all_dirs_keyed b items Hb Hfit)), (all_dirs_get b items) by done. unfold non_dirs_of.
  assert (is_Some (map_get (name f) (implicit_dirs b)) -> filter (fun g => name g = name f) (explicit b) = []) as Hexcl.
  { rewrite (baked_implicit b items Hb). intros [d Hd]. case_bool_decide as Hp; [|done]. by apply (unnamed b items); [|apply Hp]. }
  assert (f ∈ filter (fun f => ~ is_dir f) (explicit b)
          <-> f ∈ filter (fun f => ~ is_dir f) (filter (fun g => name g = name f) (explicit b))) as ->.
  { rewrite !list_elem_of_filter. naive_solver. }
  destruct (map_get (name f) (implicit_dirs b)) as [d|] eqn:Ed.
  - rewrite Hexcl by (by eexists). split; [intros [E|E]; [by right|by apply elem_of_nil in E]|]. intros [E|E]; [done|by left].
  - destruct (files_at b items (name f) Hb Hu) as [[E1 E2]|(g & Eg & Hg)].
    + rewrite E1, E2. split; [intros [E|E]; [by left|by apply elem_of_nil in E]|]. intros [E|E]; [by left|done].
    + rewrite Eg, filter_cons_False, filter_cons_True by done. rewrite !filter_nil, list_elem_of_singleton. cbn. naive_solver.
Qed.

Lemma NoDup_by_name (fs : list (File T)) :
  (forall p, (length (filter (fun f => name f = p) fs) <= 1)%nat) -> NoDup (name <$> fs).
Proof.
  induction fs as [|f fs IH]; intros Hp; [constructor|]. cbn. constructor.
  - intros (g & E & Hg)%list_elem_of_fmap. specialize (Hp (name f)). rewrite filter_cons_True in Hp by done.
    assert (g ∈ filter (fun h => name h = name f) fs) as Hin by (by apply list_elem_of_filter).
    destruct (filter _ fs); [by apply elem_of_nil in Hin|]. cbn in Hp. lia.
  - apply IH. intros p. specialize (Hp p). rewrite filter_cons in Hp. case_decide; cbn in Hp; lia.
Qed.

Lemma full_set_names b items : baked b items -> Forall fits items -> unambiguous items -> NoDup (name <$> full_set b).
Proof.
  intros Hb Hfit Hu. unfold full_set. rewrite sort_perm, fmap_app. apply NoDup_app. split_and!.
  - rewrite keyed_names by (by eapply all_dirs_keyed). by apply sorted_NoDup, (all_dirs_keyed b items).
  - intros p (d & -> & Hd)%list_elem_of_fmap (f & E & Hf)%list_elem_of_fmap.
    apply (keyed_elem _ d (all_dirs_keyed b items Hb Hfit)) in Hd. rewrite (all_dirs_get b items) in Hd by done.
    apply list_elem_of_filter in Hf as [Hk Hf].
    assert (f ∈ filter (fun g => name g = name d) (explicit b)) as Hin by (by apply list_elem_of_filter).
    destruct (map_get (name d) (implicit_dirs b)) as [d'|] eqn:Ed.
    + rewrite (baked_implicit b items Hb) in Ed. case_bool_decide as Hp; [|done].
      rewrite (unnamed b items) in Hin by (done || apply Hp). by apply elem_of_nil in Hin.
    + destruct (files_at b items (name d) Hb Hu) as [[E1 E2]|(g & Eg & Hg)].
      * assert (f ∈ @nil (File T)) as Hn by (rewrite <- E2; by apply list_elem_of_filter). by apply elem_of_nil in Hn.
      * by rewrite Eg, filter_cons_False in Hd by done.
  - apply NoDup_by_name. intros p. unfold non_dirs_of.
    rewrite list_filter_filter, (list_filter_iff _ (fun f => ~ is_dir f /\ name f = p)), <- list_filter_filter by tauto.
    destruct (files_at b items p Hb Hu) as [[_ ->]|(g & -> & Hg)]; [cbn; lia|]. by rewrite filter_cons_True.
Qed.
End builder.
