(* ===== verification/VfsTrees.v ===== *)
(** * Trees built from items

    Building a tree from items with canonical paths, of which only directories share a
    path or have others below them, gives a tree of exactly their entries, each at its
    own path and after its parent, whatever directories the links among them lead to. *)

From stdpp Require Import sorting.
From S2P Require Import Prelude ByteStrings Ordered Vfs VfsSpec VfsReading VfsBuilder.
Import Indextree.

(** The names of an item's path, with the item. *)
Definition located {T} `{BlitFile T} (x : T) : list bytes * T := (names (path x), x).

(** A tree of exactly the entries of some items: each once, after its parent, and as an
    element at its own path. *)
Record tree_of {T} `{BlitFile T} {A : Arena (File T)} (items : list T) (t : Tree T) : Prop := {
  tree_of_len : len t = length (iter t);
  tree_of_paths : NoDup (path <$> iter t);
  tree_of_entries x : x ∈ iter t <-> exists p, entry items p = Some x;
  tree_of_order l1 x l2 :
    iter t = l1 ++ x :: l2 -> path x = [SLASH] \/ exists y, y ∈ l1 /\ last (ancestors (path x)) = Some (path y);
  tree_of_elements : exists o, structured t = Ok o /\ from_option (occupies []) [] o = located <$> iter t;
}.

Section trees.
Context {T : Type} `{BlitLaws T} {A : Arena (File T)} {L : Laws (File T) A}.
Context (items : list T) (Hfit : Forall fits items) (Hu : unambiguous items) (Hset : settled items).
Implicit Types (x y : T) (f g : File T) (p : bytes).

Lemma entry_cases p x :
  entry items p = Some x -> (x ∈ items /\ path x = p) \/ (p ∈ implied items /\ (p ∉ path <$> items) /\ x = from_path p).
Proof.
  unfold entry. destruct (last (filter _ items)) as [y|] eqn:E.
  - intros [= ->]. apply last_Some_elem_of, list_elem_of_filter in E. left. tauto.
  - case_bool_decide as Hp; [|done]. intros [= <-]. right. split_and!; [done|by apply none_at|done].
Qed.

Lemma entry_fits p x : entry items p = Some x -> fits x /\ path x = p.
Proof.
  intros [[Hx <-]|(Hp & _ & ->)]%entry_cases; [split; [by eapply Forall_forall|done]|].
  destruct (implied_at items p Hfit Hp) as (_ & ds & _ & _ & _ & _ & -> & _ & Hf). split; [done|].
  by apply from_path_path, starts_render.
Qed.

Lemma entry_exists p : p ∈ implied items -> is_Some (entry items p).
Proof. unfold entry. intros Hp. destruct (last _) as [y|]; [by eexists|]. rewrite bool_decide_eq_true_2 by done. by eexists. Qed.

(** Every entry is an item or above one. *)
Lemma entry_above p x : entry items p = Some x -> exists y cs ds, y ∈ items /\ path y = render (cs ++ ds) /\ p = render cs /\ proper (cs ++ ds).
Proof.
  intros [[Hx <-]|(Hp & _)]%entry_cases.
  - pose proof (proj1 (Forall_forall _ _) Hfit x Hx) as [(cs & Hcs & E)%canonical_iff _].
    exists x, cs, []. by rewrite app_nil_r.
  - destruct (implied_at items p Hfit Hp) as (y & ds & es & Hy & _ & E & -> & Hpr & _). by exists y, ds, es.
Qed.

Lemma entry_implies cs ds x :
  entry items (render (cs ++ ds)) = Some x -> ds <> [] -> proper (cs ++ ds) ->
  exists y, y ∈ items /\ render cs ∈ ancestors (path y).
Proof.
  intros Hx Hd Hp. destruct (entry_above _ _ Hx) as (y & cs' & es & Hy & E & Er & Hpr). exists y. split; [done|].
  apply render_inj in Er as <-; [|done|by apply Forall_app in Hpr as [? _]].
  unfold ancestors. rewrite E, names_render by done. apply elem_of_above. exists cs, (ds ++ es).
  split_and!; [by destruct ds|by rewrite app_assoc|done].
Qed.

Section full_set.
Context (b : TreeBuilder T) (Hb : baked b items).

Lemma full_set_entry f : f ∈ full_set b -> exists x cs, entry items (name f) = Some x /\ file_new x = Ok f /\ sited f cs.
Proof.
  intros Hf. apply (elem_of_full_set b items) in Hf as (x & Hx & Hf); [|done..]. destruct (entry_fits _ _ Hx) as [Hfx _].
  destruct (fits_sited x f Hfx Hf) as (cs & Hcs & _). by exists x, cs.
Qed.

Lemma full_set_forest : forest (full_set b).
Proof.
  split.
  - intros f Hf. destruct (full_set_entry f Hf) as (_ & cs & _ & _ & Hs). by exists cs.
  - by apply (full_set_names b items).
  - intros l1 f l2 p E Hp. assert (f ∈ full_set b) as Hf by (rewrite E; set_solver).
    destruct (full_set_entry f Hf) as (x & cs & Hx & Hfx & Hs). destruct (sited_child f p Hp cs Hs) as (ds & c & -> & ->).
    rewrite (sited_name f _ Hs) in Hx. destruct (entry_implies ds [c] x Hx) as (y & Hy & Ha); [done|apply Hs|].
    destruct (entry_exists (render ds)) as [z Hz]; [apply list_elem_of_bind; by exists y|].
    destruct (entry_fits _ _ Hz) as [Hzf Hzp]. destruct (fits_file z Hzf) as (g & es & Hg & Hgs & Ez).
    assert (es = ds) as ->.
    { apply render_inj; [apply Hgs|by destruct Hs as [[? _]%proper_snoc _]|congruence]. }
    exists g. rewrite (sited_name g _ Hgs). split; [|done].
    assert (g ∈ full_set b) as Hgin.
    { apply (elem_of_full_set b items); [done..|]. exists z. by rewrite (sited_name g _ Hgs). }
    pose proof (sort_ascending (A := File T) (H := sorted_paths) ((all_dirs_of b).*2 ++ non_dirs_of b)) as Hasc.
    fold (full_set b) in Hasc. rewrite E in Hasc, Hgin.
    pose proof (parent_sorts_first f g ds [c] ltac:(done) Hs Hgs) as Hlt.
    assert (sorted_paths f g = Gt) as Hgt by (change (@cmp _ sorted_paths f g = Gt); rewrite (cmp_opp g f); unfold cmp; by rewrite Hlt).
    apply elem_of_app in Hgin as [|Hgin]; [done|]. exfalso.
    apply StronglySorted_app in Hasc as (_ & _ & Hasc). apply StronglySorted_inv in Hasc as [_ Hasc].
    apply elem_of_cons in Hgin as [-> |Hgin]; [by rewrite Hgt in Hlt|]. by eapply Forall_forall in Hasc.
Qed.

Lemma full_set_nested : nested (full_set b).
Proof.
  intros f g Hf Hg Hp. destruct (full_set_entry f Hf) as (x & cs & Hx & Hfx & Hs), (full_set_entry g Hg) as (y & ds & Hy & _ & Hgs).
  destruct (sited_child g _ Hp ds Hgs) as (ds' & c & -> & E). rewrite (sited_name g _ Hgs) in Hy.
  destruct (entry_implies ds' [c] y Hy) as (z & Hz & Ha); [done|apply Hgs|].
  destruct (file_new_ok x f Hfx) as (_ & -> & _). destruct (entry_cases _ _ Hx) as [[Hin Hpx]|(_ & _ & ->)].
  - by rewrite (Hset x z) by (done || by rewrite Hpx, E).
  - rewrite (sited_name f cs Hs), from_path_kind by apply starts_render. done.
Qed.

Lemma redirects_links all_dirs (links : list (File T)) r :
  r ∈ redirects_of all_dirs links -> exists f, f ∈ links /\ name f = r.1.
Proof.
  unfold redirects_of. intros Hr. apply (list_elem_of_fmap_2 fst) in Hr. revert Hr. generalize r.1. intros k.
  assert (forall redirects : list (bytes * bytes), k ∈ (foldl (fun redirects link =>
    match file_kind link with
    | Kind.Symlink target =>
        let target := resolved_target link target in
        match map_get target all_dirs with
        | Some _ => map_insert (name link) target redirects
        | None => redirects
        end
    | _ => redirects
    end) redirects links).*1 -> k ∈ redirects.*1 \/ exists f, f ∈ links /\ name f = k) as Hgen.
  { induction links as [|f links IH]; intros redirects Hk; [by left|]. cbn in Hk. apply IH in Hk as [Hk|(g & Hg & <-)];
      [|right; exists g; split; [by right|done]].
    destruct (file_kind f) as [| |target]; [by left|by left|]. cbn in Hk. destruct (map_get _ all_dirs); [|by left].
    rewrite map_insert_keys, elem_of_set_insert in Hk. destruct Hk as [-> |Hk]; [right; exists f; split; [left|done]|by left]. }
  intros Hk. by apply Hgen in Hk as [?%elem_of_nil|].
Qed.

(** A file nothing is below has nothing to move. *)
Lemma reparent_leaf (t : Tree T) reported f target :
  holds t (full_set b) -> f ∈ full_set b -> ~ Kind.is_directory (file_kind f) ->
  reparent (t, reported) (name f) target = Ok (t, reported).
Proof.
  intros Ht Hf Hk. destruct (proj1 (holds_nodes t _ Ht f) Hf) as [n Hn]. unfold reparent.
  rewrite (proj2 (holds_map t _ Ht (name f) n)) by (by exists f).
  assert (children (tree_arena t) n = []) as Hc.
  { destruct (children (tree_arena t) n) as [|m l] eqn:E; [done|]. exfalso. apply Hk.
    assert (m ∈ children (tree_arena t) n) as Hm by (rewrite E; left).
    apply (holds_children t _ Ht) in Hm as (f' & g & Hf' & Hg & Hp). rewrite Hn in Hf'. injection Hf' as <-.
    apply Is_true_true, (full_set_nested f g); [done|apply (holds_nodes t _ Ht); by eexists|done]. }
  rewrite (desc_unfold t _ Ht n), Hc by (by eexists). cbn. destruct (tree_map t !! target); cbn; by destruct t.
Qed.

Lemma build_tree_plants :
  exists t, build_tree b = Ok (t, []) /\ holds t (full_set b).
Proof.
  unfold build_tree. destruct (plant_all (full_set b) (length (implicit_dirs b) + length (explicit b)) full_set_forest) as (t & -> & Ht).
  cbn [mbind result_bind]. exists t. split; [|done].
  assert (forall r, r ∈ redirects_of (all_dirs_of b) (non_dirs_of b) -> exists f, f ∈ full_set b /\ ~ Kind.is_directory (file_kind f) /\ name f = r.1) as Hr.
  { intros r (f & Hf & E)%redirects_links. exists f. split_and!; [|by apply list_elem_of_filter in Hf as [? _]|done].
    unfold full_set. rewrite elem_of_sort, elem_of_app. by right. }
  induction (redirects_of (all_dirs_of b) (non_dirs_of b)) as [|r l IH]; [done|]. cbn [try_fold].
  destruct (Hr r) as (f & Hf & Hk & <-); [left|]. rewrite reparent_leaf by done. apply IH. set_solver.
Qed.
End full_set.

Lemma build_spec : exists t, build items = Ok (t, []) /\ tree_of items t.
Proof.
  unfold build. destruct (push_all items Hfit) as (b & -> & Hb%bake_bakes). cbn [mbind result_bind].
  destruct (build_tree_plants _ Hb) as (t & -> & Ht). exists t. split; [done|].
  pose proof (full_set_forest _ Hb) as Hfor. destruct (tree_reads t _ Hfor Ht) as (files & Hperm & Hiter & Hfirst & Hstr).
  assert (forall f, f ∈ files -> exists cs, entry items (name f) = Some (inner f) /\ sited f cs /\ path (inner f) = name f) as Hfile.
  { intros f Hf. rewrite Hperm in Hf. destruct (full_set_entry _ Hb f Hf) as (x & cs & Hx & Hfx & Hs). exists cs.
    destruct (file_new_ok x f Hfx) as (E & _ & ->). done. }
  assert (path <$> iter t = name <$> files) as Hnames.
  { rewrite Hiter, <- list_fmap_compose. apply list_fmap_ext. intros i f Hi. cbn.
    destruct (Hfile f) as (_ & _ & _ & ->); [by eapply list_elem_of_lookup_2|done]. }
  split.
  - unfold len. rewrite (holds_length t _ Ht), Hiter, length_fmap. by rewrite Hperm.
  - rewrite Hnames, Hperm. apply (forest_names _ Hfor).
  - intros x. rewrite Hiter, list_elem_of_fmap. split.
    + intros (f & -> & Hf). destruct (Hfile f Hf) as (_ & Hx & _). by eexists.
    + intros [p Hx]. destruct (entry_fits p x Hx) as [Hxf <-]. destruct (fits_file x Hxf) as (f & cs & Hf & Hs & E).
      exists f. destruct (file_new_ok x f Hf) as (En & _ & ->). split; [done|]. rewrite Hperm.
      apply (elem_of_full_set _ items); [done..|]. exists x. by rewrite En.
  - intros l1 x l2 E. rewrite Hiter in E. apply fmap_app_inv in E as (k1 & k2 & E1 & E2 & E3).
    destruct k2 as [|f k2]; [done|]. injection E2 as -> ->. assert (f ∈ files) as Hf by (rewrite E3; set_solver).
    destruct (Hfile f Hf) as (cs & _ & Hs & ->). rewrite (sited_name f cs Hs).
    destruct cs as [|c cs _] using rev_ind; [by left|]. right.
    destruct (Hfirst k1 f k2 _ E3 (sited_parent f cs c Hs)) as (g & Hg & En). exists (inner g). split; [subst l1; by apply list_elem_of_fmap_2|].
    destruct (Hfile g) as (_ & _ & _ & ->); [rewrite E3; set_solver|]. unfold ancestors.
    rewrite names_render by apply Hs. by rewrite above_snoc, last_snoc, En.
  - destruct (Hstr (full_set_nested _ Hb)) as (o & Eo & Ho). exists o. split; [done|]. rewrite Ho, Hiter, <- list_fmap_compose.
    apply list_fmap_ext. intros i f Hi. cbn. unfold place, located, names.
    destruct (Hfile f) as (_ & _ & _ & ->); [by eapply list_elem_of_lookup_2|done].
Qed.
End trees.
