(* ===== verification/VfsArena.v ===== *)
(** * An arena

    The interface of indextree is inhabited: nodes in the order they are made, each with
    its children, and the number of nodes appended, which bounds the depth. *)

From S2P Require Import Prelude Vfs.
Import Indextree.

Record listing (T : Type) := mk_listing {
  nodes : list (T * list nat);
  appended : nat;
}.
Arguments mk_listing {T}.
Arguments nodes {T}.
Arguments appended {T}.

Section arena.
Context {T : Type}.
Implicit Types (a : listing T) (n m p c : nat).

Definition listed_children a n : list nat := from_option snd [] (nodes a !! n).

Fixpoint below (fuel : nat) a n : list nat :=
  match fuel with
  | 0%nat => [n]
  | S fuel' => n :: (listed_children a n ≫= below fuel' a)
  end.

Definition attach (p c : nat) a : listing T :=
  mk_listing (alter (fun x => (x.1, x.2 ++ [c])) p (nodes a)) (S (appended a)).

#[export] Instance listing_arena : Arena T := {|
  arena := listing T;
  NodeId := nat;
  with_capacity _ := mk_listing [] 0;
  new_node a x := (length (nodes a), mk_listing (nodes a ++ [(x, [])]) (appended a));
  get a n := fst <$> nodes a !! n;
  children := listed_children;
  descendants a n := below (S (appended a)) a n;
  append a p c := attach p c a;
  remove_subtree a n := mk_listing ((fun x => (x.1, filter (fun m => m <> n) x.2)) <$> nodes a) (appended a);
|}.

Lemma children_new a x n : listed_children (new_node a x).2 n = listed_children a n.
Proof.
  unfold listed_children. cbn. destruct (decide (n < length (nodes a))%nat); [by rewrite lookup_app_l|].
  rewrite lookup_app_r, (lookup_ge_None_2 (nodes a)) by lia. by destruct (n - length (nodes a))%nat as [|[|]].
Qed.

Lemma children_attach a p c n :
  is_Some (get a p) -> listed_children (attach p c a) n = if decide (n = p) then listed_children a p ++ [c] else listed_children a n.
Proof.
  cbn. intros [x Hx]. unfold listed_children, attach. cbn. case_decide as E.
  - subst. rewrite list_lookup_alter_eq. destruct (nodes a !! p) as [y|]; [done|]. done.
  - by rewrite list_lookup_alter_ne.
Qed.

(** The nodes of a grown arena have depths: a child is a node one deeper. *)
Record deep a (d : nat -> nat) : Prop := {
  deep_bound n : (d n <= appended a)%nat;
  deep_child n m : m ∈ listed_children a n -> d m = S (d n) /\ (m < length (nodes a))%nat;
}.

Lemma grown_deep a : grown a -> exists d, deep a d.
Proof.
  induction 1 as [k|a x _ [d [Hb Hc]]|a p c _ [d [Hb Hc]] (Hp & [y Hy] & Hne & Hleaf & Horph)].
  - exists (fun _ => 0%nat). split; [intros n; cbn; lia|]. intros n m. unfold listed_children. cbn. by intros ?%elem_of_nil.
  - exists d. split; [done|]. intros n m. rewrite children_new. intros [E Hm]%Hc. split; [done|]. cbn. rewrite length_app. lia.
  - cbn in Hne, Hleaf, Horph, Hy. exists (fun n => if decide (n = c) then S (d p) else d n). split.
    + intros n. specialize (Hb n) as H1. specialize (Hb p) as H2. cbn. case_decide; lia.
    + intros n m Hm. change (append a p c) with (attach p c a) in *. rewrite children_attach in Hm by done.
      assert (forall q, m ∈ listed_children a q -> m <> c) as Hother by (intros q Hq ->; by apply (Horph q)).
      cbn. rewrite length_alter. destruct (decide (n = p)) as [-> |Hn].
      * rewrite (decide_False (P := p = c)) by done. apply elem_of_app in Hm as [Hm| ->%list_elem_of_singleton].
        -- rewrite decide_False by (by eapply Hother). by apply Hc.
        -- rewrite decide_True by done. split; [done|]. apply fmap_Some in Hy as (z & Hz & _). by apply lookup_lt_Some in Hz.
      * rewrite (decide_False (P := m = c)) by (by eapply Hother). destruct (decide (n = c)) as [-> |]; [by rewrite Hleaf in Hm; apply elem_of_nil in Hm|].
        by apply Hc.
Qed.

Lemma below_enough a d k : deep a d -> forall n, (S (appended a) <= k + d n)%nat -> below k a n = below (S k) a n.
Proof.
  intros [Hb Hc]. induction k as [|k IH]; intros n Hk; [specialize (Hb n); lia|].
  cbn [below]. f_equal. assert (forall m, m ∈ listed_children a n -> below k a m = below (S k) a m) as Hm.
  { intros m [E _]%Hc. apply IH. lia. }
  clear IH Hk. induction (listed_children a n) as [|m l IHl]; [done|]. cbn [mbind list_bind]. rewrite Hm by left. f_equal.
  apply IHl. intros q Hq. apply Hm. by right.
Qed.

#[export] Instance listing_laws : Laws T listing_arena.
Proof.
  split.
  - done.
  - done.
  - intros a x _. cbn. by rewrite lookup_ge_None_2.
  - intros a x m _. cbn. case_decide as E; [subst; by rewrite lookup_app_r, Nat.sub_diag by lia|].
    destruct (decide (m < length (nodes a))%nat); [by rewrite lookup_app_l|].
    rewrite !lookup_ge_None_2; [done|lia|rewrite length_app; cbn; lia].
  - intros a x m _. apply children_new.
  - intros a m _ Hm. cbn in *. unfold listed_children. by destruct (nodes a !! m).
  - intros a m c [d Hd]%grown_deep Hc. apply (deep_child a d Hd) in Hc as [_ Hc]. cbn. apply fmap_is_Some. by apply lookup_lt_is_Some.
  - intros a p c m _ _. cbn [get append listing_arena attach nodes]. destruct (decide (m = p)) as [-> |]; [|by rewrite list_lookup_alter_ne].
    rewrite list_lookup_alter_eq. by rewrite <- option_fmap_compose.
  - intros a p c m _ (Hp & _). by apply children_attach.
  - intros a m [d Hd]%grown_deep _. cbn [descendants listing_arena children]. 
    rewrite (below_enough a d (S (appended a)) Hd) by lia. done.
Qed.
End arena.
