(* ===== verification/LayoutPlanning.v ===== *)
(** * Planning a materialisation

    [forge/src/client/materialization/layout_planning.rs] and [pending_file.rs]: which
    targets a package may install, the tree of the files of a set of packages ([vfs]) and
    the tree of a frozen package closure ([frozen_vfs_until]), which refuses every
    collision; [canonical_frozen_package_ids] of [core/materialization_facade.rs].

    Every step of the frozen plan reads the clock: a computation takes the readings of
    [Instant::now()] and the number of readings made, and fails when a reading is past
    the deadline.  A [usize] is 64 bits wide. *)

From S2P Require Import Prelude ByteStrings Ordered StoneRecords StoneRelation PackageMeta SqlDb MetaDb Registry Vfs.
Import Indextree.

(** ** Errors *)

Module PlanError.
Inductive t :=
  | InvalidStoneLayoutTarget (package target reason : bytes)
  | DuplicateFrozenPackage (package : bytes)
  | EmptyFrozenPackageClosure
  | UnexpectedFrozenLayoutPackage (package : bytes)
  | FrozenLayoutSymlinkTargetTooLong (package : bytes) (limit actual : Z)
  | InvalidFrozenLayoutPath (package path : bytes)
  | InvalidFrozenLayoutMode (package path : bytes) (mode : Z)
  | UnsupportedFrozenLayout (package path : bytes)
  | UnsupportedFrozenOwnership (package path : bytes) (uid gid : Z)
  | FrozenPathCollision (path first second : bytes)
  | FrozenDirectorySymlinkDescendant (package path redirect : bytes)
  | FrozenExecutablePackageLimit (limit actual : Z)
  | FrozenExecutableClosureIdByteLimit (limit actual : Z)
  | FrozenExecutableDirectoryLimit (limit actual : Z)
  | FrozenExecutableDirectoryByteLimit (limit actual : Z)
  | FrozenMaterializationTimeout (seconds : Z)
  | InvalidFrozenLayoutSymlinkTarget (package reason : bytes)
  | Filesystem (e : TreeError.t)
  | Panic.
End PlanError.

Abbreviation planned := (result PlanError.t).

(** [?] on an outcome of the tree *)
Definition from_stop (s : Stop.t) : PlanError.t :=
  match s with Stop.Panic => PlanError.Panic | Stop.Fail e => PlanError.Filesystem e end.

(** ** Limits *)

Definition PATH_MAX : Z := 4096.
Definition NAME_MAX : Z := 255.
Definition MIB : Z := 1024 * 1024.
Definition USIZE_MAX : Z := 2 ^ 64 - 1.
Definition MAX_FROZEN_EXECUTABLE_PACKAGES : Z := 4096.
Definition MAX_FROZEN_EXECUTABLE_CLOSURE_ID_BYTES : Z := MIB.
Definition MAX_FROZEN_EXECUTABLE_PATH_BYTES : Z := PATH_MAX - 1.
Definition MAX_FROZEN_LAYOUT_PATH_COMPONENTS : Z := 128.
Definition MAX_FROZEN_EXECUTABLE_DIRECTORY_PATHS : Z := 262144.
Definition MAX_TOTAL_FROZEN_EXECUTABLE_DIRECTORY_BYTES : Z := 64 * MIB.
Definition MAX_FROZEN_EXECUTABLE_SYMLINK_TARGET_BYTES : Z := PATH_MAX - 1.
Definition FROZEN_MATERIALIZATION_TIMEOUT : Z := 600.
Definition MAX_STONE_LAYOUT_COMPONENT_BYTES : Z := NAME_MAX.
Definition MAX_STONE_LAYOUT_TARGET_DIAGNOSTIC_BYTES : nat := 256.

Definition byte_len (s : bytes) : Z := Z.of_nat (length s).

(** [checked_add(..).unwrap_or(usize::MAX)] *)
Definition add_or_max (a b : Z) : Z := default USIZE_MAX (checked_add 64 a b).

(** ** Targets below [/usr] *)

(** [byte.is_ascii_control()] *)
Definition is_ascii_control (b : byte) : bool := (byte_Z b <? 32)%Z || (byte_Z b =? 127)%Z.

Definition DOT : bytes := bstr ".".
Definition DOTDOT : bytes := bstr "..".
Definition is_dot (component : bytes) : bool := bool_decide (component = DOT) || bool_decide (component = DOTDOT).

(** The loop over the components, given how many were counted before. *)
Fixpoint check_components (components : Z) (parts : list bytes) : result bytes unit :=
  match parts with
  | [] => mret tt
  | component :: parts' =>
      reject (bstr "the target contains a dot component") when (is_dot component);;
      reject (bstr "a target component exceeds Linux NAME_MAX") when (MAX_STONE_LAYOUT_COMPONENT_BYTES <? byte_len component)%Z;;
      components' ← ok_or (checked_add 64 components 1) (bstr "the materialized component count overflows");
      reject (bstr "the materialized path is too deep") when (MAX_FROZEN_LAYOUT_PATH_COMPONENTS <? components')%Z;;
      check_components components' parts'
  end.

(** The target itself, proved to have the one admitted form. *)
Definition require_usr_relative_stone_target (target : bytes) : result bytes bytes :=
  reject (bstr "the target is empty") when (bool_decide (target = []));;
  reject (bstr "the target is absolute") when (starts_with SLASH target);;
  reject (bstr "the target contains an ASCII control byte") when (existsb is_ascii_control target);;
  reject (bstr "the target has a trailing separator") when (ends_with SLASH target);;
  reject (bstr "the target contains a repeated separator") when (contains_str [SLASH; SLASH] target);;
  materialized_bytes ← ok_or (checked_add 64 (byte_len (bstr "/usr/")) (byte_len target)) (bstr "the materialized path length overflows");
  reject (bstr "the materialized path exceeds Linux PATH_MAX") when (MAX_FROZEN_EXECUTABLE_PATH_BYTES <? materialized_bytes)%Z;;
  check_components 1 (split SLASH target);;
  reject (bstr "the target is reserved for Cast system metadata") when (is_reserved_usr_layout_target target);;
  mret target.

Fixpoint char_boundary_below (s : bytes) (i : nat) : nat :=
  match i with
  | 0%nat => 0%nat
  | S j => if is_char_boundary s i then i else char_boundary_below s j
  end.

(** The character […] *)
Definition ELLIPSIS : bytes := [xe2; x80; xa6]%byte.

Definition stone_layout_target_diagnostic (target : bytes) : bytes :=
  if (length target <=? MAX_STONE_LAYOUT_TARGET_DIAGNOSTIC_BYTES)%nat then target
  else take (char_boundary_below target MAX_STONE_LAYOUT_TARGET_DIAGNOSTIC_BYTES) target ++ ELLIPSIS.

Definition require_usr_relative_stone_layout (package : bytes) (layout : StonePayloadLayoutRecord) : planned bytes :=
  let target := LayoutFile.target (lay_file layout) in
  map_err (fun reason => PlanError.InvalidStoneLayoutTarget package (stone_layout_target_diagnostic target) reason)
    (require_usr_relative_stone_target target).

Definition require_materializable_stone_layout (package : bytes) (layout : StonePayloadLayoutRecord) : planned unit :=
  match lay_file layout with
  | LayoutFile.Regular _ _ | LayoutFile.Symlink _ _ | LayoutFile.Directory _ => mret tt
  | LayoutFile.CharacterDevice _ | LayoutFile.BlockDevice _ | LayoutFile.Fifo _ | LayoutFile.Socket _
  | LayoutFile.Unknown _ _ =>
      Err (PlanError.UnsupportedFrozenLayout package (bstr "/usr/" ++ LayoutFile.target (lay_file layout)))
  end.

(** ** Pending files *)

Record PendingFile := {
  pending_id : bytes;
  pending_layout : StonePayloadLayoutRecord;
}.
#[global] Instance pending_eq_dec : EqDecision PendingFile.
Proof. solve_decision. Defined.

Definition pending_kind (f : PendingFile) : Kind.t :=
  match lay_file (pending_layout f) with
  | LayoutFile.Symlink source _ => Kind.Symlink source
  | LayoutFile.Directory _ => Kind.Directory
  | _ => Kind.Regular
  end.

Definition pending_path (f : PendingFile) : bytes :=
  join (bstr "/usr") (LayoutFile.target (lay_file (pending_layout f))).

Definition retargeted (f : LayoutFile.t) (path : bytes) : LayoutFile.t :=
  match f with
  | LayoutFile.Regular source _ => LayoutFile.Regular source path
  | LayoutFile.Symlink source _ => LayoutFile.Symlink source path
  | LayoutFile.Directory _ => LayoutFile.Directory path
  | LayoutFile.CharacterDevice _ => LayoutFile.CharacterDevice path
  | LayoutFile.BlockDevice _ => LayoutFile.BlockDevice path
  | LayoutFile.Fifo _ => LayoutFile.Fifo path
  | LayoutFile.Socket _ => LayoutFile.Socket path
  | LayoutFile.Unknown source _ => LayoutFile.Unknown source path
  end.

Definition pending_cloned_to (f : PendingFile) (path : bytes) : PendingFile :=
  let layout := pending_layout f in
  {| pending_id := pending_id f;
     pending_layout := {| lay_uid := lay_uid layout; lay_gid := lay_gid layout; lay_mode := lay_mode layout;
                          lay_tag := lay_tag layout; lay_file := retargeted (lay_file layout) path |} |}.

(** [From<AStr>] *)
Definition pending_from (value : bytes) : PendingFile :=
  {| pending_id := [];
     pending_layout := {| lay_uid := 0; lay_gid := 0; lay_mode := 0x1ed; lay_tag := 0;
                          lay_file := LayoutFile.Directory value |} |}.

#[global] Instance pending_blit_file : BlitFile PendingFile := {|
  kind := pending_kind;
  path := pending_path;
  id := pending_id;
  cloned_to := pending_cloned_to;
  from_path := pending_from;
|}.

(** A package and one of its layout records. *)
Abbreviation layout_row := (bytes * StonePayloadLayoutRecord)%type.

(** ** The tree of a set of packages *)

Section vfs.
Context {A : Arena (File PendingFile)}.

Definition push_layout (b : TreeBuilder PendingFile) (row : layout_row) : planned (TreeBuilder PendingFile) :=
  require_usr_relative_stone_layout row.1 row.2;;
  require_materializable_stone_layout row.1 row.2;;
  map_err from_stop (push b {| pending_id := row.1; pending_layout := row.2 |}).

Definition vfs (layouts : list layout_row) : planned (growth PendingFile) :=
  tbuild ← try_fold push_layout builder_new layouts;
  map_err from_stop (build_tree (bake tbuild)).
End vfs.

(** ** The clock *)

Definition timed (X : Type) : Type := (nat -> Z) -> nat -> planned X * nat.

Definition lift {X} (m : planned X) : timed X := fun _ k => (m, k).
#[global] Instance timed_ret : MRet timed := fun X x => lift (Ok x).
#[global] Instance timed_bind : MBind timed := fun X Y f m now k =>
  match m now k with
  | (Ok x, k') => f x now k'
  | (Err e, k') => (Err e, k')
  end.

Definition require_frozen_materialization_deadline (deadline : Z) : timed unit := fun now k =>
  (if (deadline <? now k)%Z then Err (PlanError.FrozenMaterializationTimeout FROZEN_MATERIALIZATION_TIMEOUT) else Ok tt, S k).

Definition require_blit_deadline (deadline : option Z) : timed unit :=
  match deadline with
  | Some deadline => require_frozen_materialization_deadline deadline
  | None => mret tt
  end.

Fixpoint fold_until {X S} (f : S -> X -> timed S) (s : S) (l : list X) : timed S :=
  match l with
  | [] => mret s
  | x :: l' => s' ← f s x; fold_until f s' l'
  end.

(** ** Entries of a frozen closure *)

Module FrozenLayoutPathPolicyError.
Inductive t :=
  | TooLong (actual : Z)
  | TooDeep (actual : Z).
End FrozenLayoutPathPolicyError.

Definition require_materialized_frozen_path_policy (path : bytes) : result FrozenLayoutPathPolicyError.t unit :=
  reject (FrozenLayoutPathPolicyError.TooLong (byte_len path)) when (MAX_FROZEN_EXECUTABLE_PATH_BYTES <? byte_len path)%Z;;
  let materialized_components := Z.of_nat (length (filter (fun component => component <> []) (split SLASH path))) in
  reject (FrozenLayoutPathPolicyError.TooDeep materialized_components)
    when (MAX_FROZEN_LAYOUT_PATH_COMPONENTS <? materialized_components)%Z.

Definition require_frozen_layout_symlink_target (package target : bytes) : planned unit :=
  reject (PlanError.FrozenLayoutSymlinkTargetTooLong package MAX_FROZEN_EXECUTABLE_SYMLINK_TARGET_BYTES (byte_len target))
    when (MAX_FROZEN_EXECUTABLE_SYMLINK_TARGET_BYTES <? byte_len target)%Z;;
  reject (PlanError.InvalidFrozenLayoutSymlinkTarget package (bstr "the target is empty")) when (bool_decide (target = []));;
  reject (PlanError.InvalidFrozenLayoutSymlinkTarget package (bstr "the target contains NUL")) when (contains x00 target).

Definition materialized_frozen_layout_path (raw_path : bytes) : bytes := bstr "/usr/" ++ raw_path.

Definition is_normalized_frozen_path (path : bytes) : bool :=
  bool_decide (is_Some (strip_prefix (bstr "/usr/") path))
  && negb (contains x00 path)
  && negb (ends_with SLASH path)
  && negb (contains_str [SLASH; SLASH] path)
  && negb (existsb is_dot (split SLASH path)).

(** Modes, written in octal in the source. *)
Definition S_IFMT : Z := 0xf000.
Definition S_IFREG : Z := 0x8000.
Definition S_IFDIR : Z := 0x4000.
Definition S_IFLNK : Z := 0xa000.

Record FrozenLayoutEntry := {
  entry_package : bytes;
  entry_layout : StonePayloadLayoutRecord;
  entry_path : bytes;
  package_order : nat;
  kind_order : nat;
  source_order : bytes;
}.

Definition expected_file_type (f : LayoutFile.t) : option Z :=
  match f with
  | LayoutFile.Regular _ _ => Some S_IFREG
  | LayoutFile.Directory _ => Some S_IFDIR
  | LayoutFile.Symlink _ _ => Some S_IFLNK
  | LayoutFile.CharacterDevice _ | LayoutFile.BlockDevice _ | LayoutFile.Fifo _ | LayoutFile.Socket _
  | LayoutFile.Unknown _ _ => None
  end.

Definition orders (f : LayoutFile.t) : option (nat * bytes) :=
  match f with
  | LayoutFile.Directory _ => Some (0%nat, [])
  | LayoutFile.Regular source _ => Some (1%nat, hex_digits 32 source)
  | LayoutFile.Symlink source _ => Some (2%nat, source)
  | LayoutFile.CharacterDevice _ | LayoutFile.BlockDevice _ | LayoutFile.Fifo _ | LayoutFile.Socket _
  | LayoutFile.Unknown _ _ => None
  end.

Definition unenforceable_mode (mode expected : Z) : bool :=
  negb (Z.land mode S_IFMT =? expected)%Z
  || negb (Z.ldiff mode (Z.lor S_IFMT 0xfff) =? 0)%Z
  || negb (negb (expected =? S_IFLNK)%Z || (Z.land mode 0xfff =? 0x1ff)%Z).

Definition frozen_layout_entry_new (package : bytes) (layout : StonePayloadLayoutRecord) (order : nat)
    : planned FrozenLayoutEntry :=
  raw_path ← require_usr_relative_stone_layout package layout;
  match lay_file layout with
  | LayoutFile.Symlink target _ => require_frozen_layout_symlink_target package target
  | _ => mret tt
  end;;
  let path := materialized_frozen_layout_path raw_path in
  reject (PlanError.InvalidFrozenLayoutPath package path) when (negb (is_normalized_frozen_path path));;
  reject (PlanError.UnsupportedFrozenOwnership package path (lay_uid layout) (lay_gid layout))
    when (negb (lay_uid layout =? 0)%Z || negb (lay_gid layout =? 0)%Z);;
  expected ← ok_or (expected_file_type (lay_file layout)) (PlanError.UnsupportedFrozenLayout package path);
  reject (PlanError.InvalidFrozenLayoutMode package path (lay_mode layout)) when (unenforceable_mode (lay_mode layout) expected);;
  kinds ← ok_or (orders (lay_file layout)) PlanError.Panic;
  mret {| entry_package := package; entry_layout := layout; entry_path := path; package_order := order;
          kind_order := kinds.1; source_order := kinds.2 |}.

Definition entry_is_directory (e : FrozenLayoutEntry) : bool :=
  match lay_file (entry_layout e) with LayoutFile.Directory _ => true | _ => false end.

Definition pending (e : FrozenLayoutEntry) : PendingFile :=
  {| pending_id := entry_package e; pending_layout := entry_layout e |}.

(** The comparison the entries are sorted by. *)
Definition entry_cmp : Cmp FrozenLayoutEntry := fun left right =>
  then_with (then_with (then_with (then_with (then_with (then_with (then_with
    (cmp (entry_path left) (entry_path right))
    (cmp (package_order left) (package_order right)))
    (cmp (kind_order left) (kind_order right)))
    (cmp (source_order left) (source_order right)))
    (cmp (lay_uid (entry_layout left)) (lay_uid (entry_layout right))))
    (cmp (lay_gid (entry_layout left)) (lay_gid (entry_layout right))))
    (cmp (lay_mode (entry_layout left)) (lay_mode (entry_layout right))))
    (cmp (lay_tag (entry_layout left)) (lay_tag (entry_layout right))).

Definition identical_directory_metadata (first second : FrozenLayoutEntry) : bool :=
  entry_is_directory first
  && entry_is_directory second
  && (lay_uid (entry_layout first) =? lay_uid (entry_layout second))%Z
  && (lay_gid (entry_layout first) =? lay_gid (entry_layout second))%Z
  && (lay_mode (entry_layout first) =? lay_mode (entry_layout second))%Z
  && (lay_tag (entry_layout first) =? lay_tag (entry_layout second))%Z.

Definition frozen_collision (path : bytes) (first second : FrozenLayoutEntry) : PlanError.t :=
  PlanError.FrozenPathCollision path (entry_package first) (entry_package second).

(** ** Collisions *)

(** [Path::parent] of a path without empty or dot components *)
Definition path_parent (p : bytes) : option bytes :=
  if bool_decide (p = [] \/ p = [SLASH]) then None
  else match rfind SLASH p with
       | Some 0%nat => Some [SLASH]
       | Some i => Some (take i p)
       | None => Some []
       end.

(** [while let Some(q) = parent { ..; parent = q.parent() }]: a parent is shorter. *)
Fixpoint while_parent {S} (fuel : nat) (f : S -> bytes -> timed S) (s : S) (parent : option bytes) : timed S :=
  match parent, fuel with
  | None, _ => mret s
  | Some _, 0%nat => lift (Err PlanError.Panic)
  | Some q, Datatypes.S fuel' => s' ← f s q; while_parent fuel' f s' (path_parent q)
  end.

Definition for_parents {S} (f : S -> bytes -> timed S) (s : S) (path : bytes) : timed S :=
  while_parent (length path) f s (path_parent path).

(** The directories found so far, in order, and the bytes of their paths. *)
Definition found : Type := list bytes * Z.

Definition insert_frozen_materialized_directory (max_paths max_bytes : Z) (d : found) (path : bytes) : planned found :=
  let '(directories, total_bytes) := d in
  if bool_decide (path ∈ directories) then mret d
  else
    let actual_paths := Z.min USIZE_MAX (Z.of_nat (length directories) + 1) in
    reject (PlanError.FrozenExecutableDirectoryLimit max_paths actual_paths) when (max_paths <? actual_paths)%Z;;
    let actual_bytes := add_or_max total_bytes (byte_len path) in
    reject (PlanError.FrozenExecutableDirectoryByteLimit max_bytes actual_bytes) when (max_bytes <? actual_bytes)%Z;;
    mret (set_insert path directories, actual_bytes).

Section collisions.
Context (entries : list FrozenLayoutEntry) (max_directory_paths max_directory_bytes : Z) (deadline : option Z).

Abbreviation insert_directory := (insert_frozen_materialized_directory max_directory_paths max_directory_bytes).

Definition explicit_entries : list (bytes * FrozenLayoutEntry) := map_collect ((fun e => (entry_path e, e)) <$> entries).

Definition find_parents : timed found :=
  fold_until (fun d entry =>
    require_blit_deadline deadline;;
    for_parents (fun d path => require_blit_deadline deadline;; lift (insert_directory d path)) d (entry_path entry))
    ([], 0%Z) entries.

Definition note_entry (d : found) (entry : FrozenLayoutEntry) : planned found :=
  if entry_is_directory entry then insert_directory d (entry_path entry)
  else if bool_decide (entry_path entry ∈ d.1) then
    mret (filter (fun p => p <> entry_path entry) d.1, Z.max 0 (d.2 - byte_len (entry_path entry)))
  else mret d.

Definition find_explicit (d : found) : timed found :=
  fold_until (fun d entry => require_blit_deadline deadline;; lift (note_entry d entry)) d entries.

(** Where a symbolic link leads. *)
Definition link_target (entry : FrozenLayoutEntry) (target : bytes) : planned bytes :=
  if starts_with SLASH target then mret target
  else parent ← ok_or (path_parent (entry_path entry)) PlanError.Panic; mret (join parent target).

Definition note_redirect (directories : list bytes) (redirects : list (bytes * bytes)) (entry : FrozenLayoutEntry)
    : planned (list (bytes * bytes)) :=
  match lay_file (entry_layout entry) with
  | LayoutFile.Symlink target _ =>
      target ← link_target entry target;
      mret (if bool_decide (target ∈ directories) then map_insert (entry_path entry) target redirects else redirects)
  | _ => mret redirects
  end.

Definition find_redirects (directories : list bytes) : timed (list (bytes * bytes)) :=
  fold_until (fun redirects entry => require_blit_deadline deadline;; lift (note_redirect directories redirects entry)) [] entries.

Definition refuse_redirect (redirects : list (bytes * bytes)) (entry : FrozenLayoutEntry) (redirect : bytes) : planned unit :=
  reject (PlanError.FrozenDirectorySymlinkDescendant (entry_package entry) (entry_path entry) redirect)
    when (match map_get redirect redirects with Some _ => true | None => false end).

Definition refuse_redirected (redirects : list (bytes * bytes)) : timed unit :=
  fold_until (fun _ entry =>
    require_blit_deadline deadline;;
    for_parents (fun _ redirect => require_blit_deadline deadline;; lift (refuse_redirect redirects entry redirect))
      tt (entry_path entry)) tt entries.

Definition refuse_parent (entry : FrozenLayoutEntry) (parent_name : bytes) : planned unit :=
  match map_get parent_name explicit_entries with
  | Some ancestor => reject (frozen_collision (entry_path entry) ancestor entry) when (negb (entry_is_directory ancestor))
  | None => mret tt
  end.

Definition refuse_nested : timed unit :=
  fold_until (fun _ entry =>
    require_blit_deadline deadline;;
    for_parents (fun _ parent_name => require_blit_deadline deadline;; lift (refuse_parent entry parent_name))
      tt (entry_path entry)) tt entries.

Definition validate_frozen_tree_collisions_with_limits_until : timed unit :=
  require_blit_deadline deadline;;
  d ← find_parents;
  d' ← find_explicit d;
  redirects ← find_redirects d'.1;
  refuse_redirected redirects;;
  refuse_nested;;
  require_blit_deadline deadline.
End collisions.

Definition validate_frozen_tree_collisions_until (entries : list FrozenLayoutEntry) (deadline : Z) : timed unit :=
  validate_frozen_tree_collisions_with_limits_until entries MAX_FROZEN_EXECUTABLE_DIRECTORY_PATHS
    MAX_TOTAL_FROZEN_EXECUTABLE_DIRECTORY_BYTES (Some deadline).

(** ** The tree of a frozen closure *)

Section frozen.
Context {A : Arena (File PendingFile)}.
Context (deadline : Z).

Abbreviation require_deadline := (require_frozen_materialization_deadline deadline).

Definition order_packages (packages : list bytes) : timed (list (bytes * nat)) :=
  fold_until (fun package_order p => require_deadline;; mret (map_insert p.2 p.1 package_order)) []
    (imap pair packages).

Definition read_entry (package_order : list (bytes * nat)) (row : layout_row) : planned FrozenLayoutEntry :=
  order ← ok_or (map_get row.1 package_order) (PlanError.UnexpectedFrozenLayoutPackage row.1);
  frozen_layout_entry_new row.1 row.2 order.

Definition read_entries (package_order : list (bytes * nat)) (layouts : list layout_row) : timed (list FrozenLayoutEntry) :=
  fold_until (fun entries row =>
    require_deadline;;
    entry ← lift (read_entry package_order row);
    mret (entries ++ [entry])) [] layouts.

Definition select_entry (selected : list FrozenLayoutEntry) (entry : FrozenLayoutEntry) : planned (list FrozenLayoutEntry) :=
  match last selected with
  | Some previous =>
      if bool_decide (entry_path previous = entry_path entry) then
        if identical_directory_metadata previous entry then mret selected
        else Err (frozen_collision (entry_path entry) previous entry)
      else mret (selected ++ [entry])
  | None => mret (selected ++ [entry])
  end.

Definition select_entries (entries : list FrozenLayoutEntry) : timed (list FrozenLayoutEntry) :=
  fold_until (fun selected entry => require_deadline;; lift (select_entry selected entry)) [] entries.

Definition frozen_vfs_until (packages : list bytes) (layouts : list layout_row) : timed (growth PendingFile) :=
  require_deadline;;
  package_order ← order_packages packages;
  entries ← read_entries package_order layouts;
  require_deadline;;
  let entries := @sort _ entry_cmp entries in
  require_deadline;;
  selected ← select_entries entries;
  validate_frozen_tree_collisions_until selected deadline;;
  builder ← fold_until (fun b entry => require_deadline;; lift (map_err from_stop (push b (pending entry)))) builder_new selected;
  require_deadline;;
  let builder := bake builder in
  require_deadline;;
  tree ← lift (map_err from_stop (build_tree builder));
  require_deadline;;
  mret tree.
End frozen.

(** ** The packages of a closure *)

Definition require_frozen_executable_package_count (actual : Z) : planned unit :=
  reject (PlanError.FrozenExecutablePackageLimit MAX_FROZEN_EXECUTABLE_PACKAGES actual)
    when (MAX_FROZEN_EXECUTABLE_PACKAGES <? actual)%Z.

Definition account_frozen_closure_id_bytes (total : Z) (package : bytes) : planned Z :=
  let actual := add_or_max total (byte_len package) in
  reject (PlanError.FrozenExecutableClosureIdByteLimit MAX_FROZEN_EXECUTABLE_CLOSURE_ID_BYTES actual)
    when (MAX_FROZEN_EXECUTABLE_CLOSURE_ID_BYTES <? actual)%Z;;
  mret actual.

Fixpoint refuse_duplicates (packages : list bytes) : planned unit :=
  match packages with
  | p :: ((q :: _) as packages') =>
      reject (PlanError.DuplicateFrozenPackage p) when (bool_decide (p = q));; refuse_duplicates packages'
  | _ => mret tt
  end.

Definition canonical_frozen_package_ids (packages : list bytes) : planned (list bytes) :=
  require_frozen_executable_package_count (Z.of_nat (length packages));;
  try_fold account_frozen_closure_id_bytes 0%Z packages;;
  let canonical := sort packages in
  reject PlanError.EmptyFrozenPackageClosure when (bool_decide (canonical = []));;
  refuse_duplicates canonical;;
  mret canonical.
