(* ===== verification/LayoutTrees.v ===== *)
(** * The targets a package may install

    [require_usr_relative_stone_target] admits exactly the joined forms of name lists:
    each admitted target is the one spelling of a path below [/usr]. *)

From S2P Require Import Prelude ByteStrings Ordered StoneRecords Registry Vfs VfsSpec LayoutPlanning VfsReading VfsBuilder VfsTrees.
Import Indextree.

(** One name of an admitted target. *)
Definition admitted_name (c : bytes) : Prop :=
  c <> [] /\ (SLASH ∉ c) /\ c <> DOT /\ c <> DOTDOT /\ (byte_len c <= 255)%Z
  /\ Forall (fun b => is_ascii_control b = false) c.

Definition reserved_names : list (list bytes) := split SLASH <$> reserved_targets.

Record admitted (cs : list bytes) : Prop := {
  admitted_nonempty : cs <> [];
  admitted_names : Forall admitted_name cs;
  admitted_length : (5 + byte_len (join_with SLASH cs) <= 4095)%Z;
  admitted_depth : (S (length cs) <= 128)%nat;
  admitted_free : forall rs, rs ∈ reserved_names -> ~ rs `prefix_of` cs;
}.

Lemma admitted_parts cs : Forall admitted_name cs -> Forall (fun c => SLASH ∉ c) cs.
Proof. intros H. eapply Forall_impl; [exact H|]. unfold admitted_name. tauto. Qed.

Lemma admitted_proper cs : Forall admitted_name cs -> proper cs.
Proof. intros H. eapply Forall_impl; [exact H|]. unfold admitted_name, proper_name. tauto. Qed.

Lemma check_components_ok k parts :
  (1 <= k <= 128)%Z ->
  check_components k parts = Ok tt
  <-> Forall (fun c => is_dot c = false /\ (byte_len c <= 255)%Z) parts /\ (k + Z.of_nat (length parts) <= 128)%Z.
Proof.
  revert k. induction parts as [|c parts IH]; intros k Hk; cbn [check_components length].
  { split; [intros _; split; [constructor|cbn; lia]|done]. }
  rewrite !seq_ok_iff, !reject_ok_iff, bind_ok_iff, Forall_cons, Z.ltb_ge.
  change MAX_STONE_LAYOUT_COMPONENT_BYTES with 255%Z.
  split.
  - intros (Hd & Hl & k' & Hk' & Hrest). apply ok_or_ok_iff, checked_add_Some in Hk' as [-> _].
    rewrite seq_ok_iff, reject_ok_iff, Z.ltb_ge in Hrest. destruct Hrest as [Hdeep Hrest].
    change MAX_FROZEN_LAYOUT_PATH_COMPONENTS with 128%Z in Hdeep. apply IH in Hrest; [|lia]. split; [tauto|lia].
  - intros [[[Hd Hl] Hf] Hlen]. split; [done|]. split; [done|]. exists (k + 1)%Z. split.
    + apply ok_or_ok_iff, checked_add_Some. split; [done|]. change (2 ^ 64)%Z with 18446744073709551616%Z. lia.
    + rewrite seq_ok_iff, reject_ok_iff, Z.ltb_ge. change MAX_FROZEN_LAYOUT_PATH_COMPONENTS with 128%Z.
      split; [lia|]. apply IH; [lia|]. split; [done|lia].
Qed.

Lemma is_dot_false c : is_dot c = false <-> c <> DOT /\ c <> DOTDOT.
Proof. unfold is_dot. by rewrite orb_false_iff, !bool_decide_eq_false. Qed.

Lemma Forall_join (P : byte -> Prop) ws : P SLASH -> Forall P (join_with SLASH ws) <-> Forall (Forall P) ws.
Proof.
  intros Hs. induction ws as [|w ws IH]; [split; constructor|]. rewrite Forall_cons, <- IH.
  destruct ws as [|w' ws]; cbn [join_with]; [split; [by split|tauto]|]. rewrite Forall_app, Forall_cons. tauto.
Qed.

Lemma existsb_false {X} (p : X -> bool) l : existsb p l = false <-> Forall (fun x => p x = false) l.
Proof. induction l as [|x l IH]; cbn; [by split|]. by rewrite orb_false_iff, Forall_cons, IH. Qed.

(** A target is reserved when its names start with reserved ones. *)
Lemma reserved_iff cs :
  cs <> [] -> Forall (fun c => SLASH ∉ c) cs ->
  is_reserved_usr_layout_target (join_with SLASH cs) = false <-> forall rs, rs ∈ reserved_names -> ~ rs `prefix_of` cs.
Proof.
  intros Hne Hcs. unfold is_reserved_usr_layout_target, reserved_names. rewrite existsb_false.
  transitivity (Forall (fun rs => ~ rs `prefix_of` cs) (split SLASH <$> reserved_targets)); [|by rewrite Forall_forall].
  rewrite Forall_fmap. apply Forall_iff. intros r. cbn. rewrite orb_false_iff, bool_decide_eq_false.
  split.
  - intros [Hn Hp] [es E]. destruct es as [|e es].
    + rewrite app_nil_r in E. apply Hn. by rewrite E, join_split.
    + rewrite E, join_with_app, join_split, strip_prefix_app in Hp by (done || apply split_nonempty).
      by rewrite bool_decide_eq_true_2 in Hp.
  - intros Hp. split.
    + intros E. apply Hp. exists []. by rewrite app_nil_r, <- E, split_join.
    + destruct (strip_prefix r (join_with SLASH cs)) as [[|b rest]|] eqn:E; [done| |done]. apply bool_decide_eq_false.
      intros ->. change "/"%byte with SLASH in E. apply Hp. apply strip_prefix_Some in E. exists (split SLASH rest). rewrite <- split_app, <- E. by rewrite split_join.
Qed.

Lemma render_join cs : cs <> [] -> render cs = SLASH :: join_with SLASH cs.
Proof.
  induction cs as [|c cs IH]; [done|]. intros _. destruct cs as [|d cs]; [cbn; by rewrite app_nil_r|].
  change (SLASH :: c ++ render (d :: cs) = SLASH :: c ++ SLASH :: join_with SLASH (d :: cs)). by rewrite IH.
Qed.

Lemma usr_render cs : cs <> [] -> render (bstr "usr" :: cs) = bstr "/usr/" ++ join_with SLASH cs.
Proof. intros Hne. rewrite render_join by done. by destruct cs. Qed.

Lemma usr_proper cs : Forall admitted_name cs -> proper (bstr "usr" :: cs).
Proof.
  intros Hc. constructor; [|by apply admitted_proper]. split; [done|]. apply contains_false. by vm_compute.
Qed.

Lemma target_ok_iff target raw :
  require_usr_relative_stone_target target = Ok raw <-> raw = target /\ admitted (split SLASH target).
Proof.
  unfold require_usr_relative_stone_target.
  rewrite !seq_ok_iff, !reject_ok_iff, bool_decide_eq_false, existsb_false, bind_ok_iff. split.
  - intros (He & Ha & Hc & Ht & Hd & n & Hn & Hrest). apply ok_or_ok_iff, checked_add_Some in Hn as [-> _].
    rewrite !seq_ok_iff, !reject_ok_iff, Z.ltb_ge in Hrest. destruct Hrest as (Hlen & Hcomp & Hres & [= <-]). split; [done|].
    destruct (nonempty_parts (split SLASH target)) as [Hp _].
    + apply split_nonempty.
    + apply split_parts.
    + rewrite join_split. cbn [contains_str]. rewrite Hd, orb_false_r. apply bool_decide_eq_false.
      intros [r Hr%strip_prefix_Some]. injection Hr as ->. by vm_compute in Ha.
    + rewrite join_split. apply bool_decide_eq_false in Ht. apply bool_decide_eq_false. by destruct target.
    + apply check_components_ok in Hcomp as [Hcomp Hdepth]; [|lia].
      rewrite <- (join_split SLASH target) in Hc. apply Forall_join in Hc; [|done].
      split; [apply split_nonempty| |by rewrite join_split|lia|].
      * apply Forall_forall. intros c Hin. rewrite Forall_forall in Hcomp. destruct (Hcomp c Hin) as [Hdot Hbl].
        apply is_dot_false in Hdot as [? ?]. eapply Forall_forall in Hp as [? ?]; [|done]. eapply Forall_forall in Hc; [|done].
        by split_and!.
      * apply reserved_iff; [apply split_nonempty|apply split_parts|by rewrite join_split].
  - intros [-> [Hne Hn Hl Hdepth Hfree]]. rewrite join_split in Hl.
    pose proof (admitted_parts _ Hn) as Hparts. pose proof (admitted_proper _ Hn) as Hp.
    assert (render (split SLASH target) = SLASH :: target) as Hr.
    { by rewrite render_join, join_split. }
    pose proof (render_single _ Hp) as Hd. rewrite Hr in Hd.
    assert (canonical (SLASH :: target) = true) as Hcan by (apply canonical_iff; by eexists).
    destruct target as [|b target]; [by apply Forall_inv in Hn as [? _]|].
    split_and!; [done|..].
    + apply bool_decide_eq_false. cbn. intros [= ->]. rewrite contains_str_false in Hd. by apply (Hd [] target).
    + rewrite <- (join_split SLASH (b :: target)). apply Forall_join; [done|]. eapply Forall_impl; [exact Hn|]. unfold admitted_name. tauto.
    + unfold canonical in Hcan. rewrite !andb_true_iff, orb_true_iff, bool_decide_eq_true in Hcan.
      destruct Hcan as [[_ [|Hcan]] _]; [done|]. apply negb_true_iff, bool_decide_eq_false in Hcan. by apply bool_decide_eq_false.
    + by apply (contains_str_app_r _ [SLASH]).
    + exists (5 + byte_len (b :: target))%Z. split; [apply ok_or_ok_iff, checked_add_Some; split; [done|]|].
      { change (byte_len (bstr "/usr/")) with 5%Z. change (2 ^ 64)%Z with 18446744073709551616%Z. lia. }
      rewrite !seq_ok_iff, !reject_ok_iff, Z.ltb_ge. split_and!; [done| | |done].
      * apply check_components_ok; [lia|]. split; [|lia]. eapply Forall_impl; [exact Hn|]. intros c Hc.
        split; [apply is_dot_false; split; apply Hc|apply Hc].
      * rewrite <- (join_split SLASH (b :: target)). by apply reserved_iff.
Qed.

(** A Stone target is admitted exactly when it is a nonempty list of names joined by
    single separators, none of them empty, a dot component, longer than NAME_MAX or with
    a control byte, within the limits on length and depth, and not at or below a target
    reserved for the system; the path it is materialised at is then the canonical path of
    [usr] and these names, so that different admitted targets are different paths. *)
Theorem target_admitted target raw :
  require_usr_relative_stone_target target = Ok raw
  <-> exists cs, admitted cs /\ target = join_with SLASH cs /\ raw = target
      /\ proper (bstr "usr" :: cs) /\ materialized_frozen_layout_path raw = render (bstr "usr" :: cs).
Proof.
  rewrite target_ok_iff. split.
  - intros [-> Had]. exists (split SLASH target). rewrite join_split. split_and!; [done|done|done|apply usr_proper, Had|].
    rewrite usr_render, join_split by apply Had. done.
  - intros (cs & Had & -> & -> & _). split; [done|]. rewrite split_join; [done|apply Had|apply admitted_parts, Had].
Qed.

(** ** The tree of a set of packages

    [vfs] either refuses a layout that is not admitted or cannot be materialised, or
    builds the tree of exactly the layouts. *)

#[global] Instance pending_blit_laws : BlitLaws PendingFile.
Proof.
  split; [done|]. intros p Hp. cbn. unfold pending_path, pending_from, join. cbn. by rewrite Hp.
Qed.

(** The files of layout rows. *)
Definition row_file (row : layout_row) : PendingFile := {| pending_id := row.1; pending_layout := row.2 |}.
Definition row_files (layouts : list layout_row) : list PendingFile := row_file <$> layouts.

(** The names of a target, below [usr]. *)
Definition target_names (layout : StonePayloadLayoutRecord) : list bytes :=
  bstr "usr" :: split SLASH (LayoutFile.target (lay_file layout)).

Lemma admitted_path row :
  admitted (split SLASH (LayoutFile.target (lay_file row.2))) ->
  path (row_file row) = render (target_names row.2) /\ proper (target_names row.2) /\ fits (row_file row)
  /\ path (row_file row) = materialized_frozen_layout_path (LayoutFile.target (lay_file row.2)).
Proof.
  intros Had. pose proof (usr_render _ (admitted_nonempty _ Had)) as Hr. rewrite join_split in Hr.
  pose proof (usr_proper _ (admitted_names _ Had)) as Hp.
  assert (path (row_file row) = bstr "/usr/" ++ LayoutFile.target (lay_file row.2)) as E.
  { cbn. unfold pending_path, join, row_file. cbn [pending_layout].
    destruct (starts_with SLASH (LayoutFile.target (lay_file row.2))) eqn:Es; [|done]. exfalso.
    apply starts_with_true in Es as [r Er]. pose proof (admitted_names _ Had) as Hn. rewrite Er in Hn.
    change (SLASH :: r) with ([] ++ SLASH :: r) in Hn. rewrite split_app in Hn. by apply Forall_inv in Hn as [? _]. }
  unfold target_names. rewrite Hr, <- E. split_and!; [done|done| |done]. split.
  - apply canonical_iff. exists (bstr "usr" :: split SLASH (LayoutFile.target (lay_file row.2))). by rewrite Hr.
  - unfold short. rewrite E, length_app. pose proof (admitted_length _ Had) as Hl. rewrite join_split in Hl.
    unfold byte_len in Hl. change (length (bstr "/usr/")) with 5%nat. change (2 ^ 32)%Z with 4294967296%Z. lia.
Qed.

Lemma layout_admitted package layout raw :
  require_usr_relative_stone_layout package layout = Ok raw
  <-> raw = LayoutFile.target (lay_file layout) /\ admitted (split SLASH (LayoutFile.target (lay_file layout))).
Proof. unfold require_usr_relative_stone_layout. by rewrite map_err_ok_iff, target_ok_iff. Qed.

(** A row [vfs] accepts, and the error it refuses another one with. *)
Definition accepted (row : layout_row) : Prop :=
  admitted (split SLASH (LayoutFile.target (lay_file row.2))) /\ require_materializable_stone_layout row.1 row.2 = Ok tt.
Definition refused (row : layout_row) (e : PlanError.t) : Prop :=
  require_usr_relative_stone_layout row.1 row.2 = Err e \/ require_materializable_stone_layout row.1 row.2 = Err e.

Section trees.
Context {A : Arena (File PendingFile)} {L : Laws (File PendingFile) A}.

Lemma push_layout_cases b row :
  (accepted row /\ push_layout b row = map_err from_stop (push b (row_file row)))
  \/ exists e, refused row e /\ push_layout b row = Err e.
Proof.
  unfold push_layout, refused, accepted. destruct (require_usr_relative_stone_layout row.1 row.2) as [raw|e] eqn:E1; [|right; eauto].
  destruct (require_materializable_stone_layout row.1 row.2) as [[]|e] eqn:E2; [|right; eauto].
  left. apply layout_admitted in E1. tauto.
Qed.

(** The loop pushes the files of its rows, or refuses one of them. *)
Lemma push_layouts_cases layouts : forall items b,
  pushed b items ->
  (Forall accepted layouts
   /\ exists b', try_fold push_layout b layouts = Ok b' /\ try_fold push b (row_files layouts) = Ok b')
  \/ exists row e, row ∈ layouts /\ refused row e /\ try_fold push_layout b layouts = Err e.
Proof.
  induction layouts as [|row layouts IH]; intros items b Hb; [left; split; [constructor|by exists b]|].
  cbn [try_fold row_files fmap list_fmap]. destruct (push_layout_cases b row) as [[Ha ->]|(e & He & ->)]; cycle 1.
  { right. exists row, e. split_and!; [left|done|done]. }
  destruct (push_pushes b items (row_file row) Hb) as (b' & -> & Hb'); [apply admitted_path, Ha|]. cbn [map_err mbind result_bind].
  destruct (IH _ b' Hb') as [(Hall & b'' & -> & Eb)|(row' & e & Hrow & He & ->)].
  - left. split; [by constructor|]. exists b''. split; [done|]. exact Eb.
  - right. exists row', e. split_and!; [by right|done|done].
Qed.

Lemma builder_new_pushed : pushed builder_new [].
Proof. split; cbn; [constructor|constructor|]. intros p. by rewrite bool_decide_eq_false_2 by apply not_elem_of_nil. Qed.

Lemma accepted_fit layouts : Forall accepted layouts -> Forall fits (row_files layouts).
Proof. intros Hall. apply Forall_fmap. eapply Forall_impl; [exact Hall|]. intros row Ha. by apply admitted_path, Ha. Qed.

(** C31: When only directories share a path or have others below them, [vfs] refuses
    exactly the sets of layouts with one that is not admitted or not of a kind it can
    materialise, with that layout's error and no other, and otherwise builds without a
    report a tree of exactly the layouts and the directories above them: for each path
    the last of its layouts, each once, after its parent, and found as an element at its
    own path. *)
Theorem vfs_exact layouts :
  unambiguous (row_files layouts) -> settled (row_files layouts) ->
  match vfs layouts with
  | Ok (t, reported) => Forall accepted layouts /\ reported = [] /\ tree_of (row_files layouts) t
  | Err e => exists row, row ∈ layouts /\ refused row e
  end.
Proof.
  intros Hu Hs. unfold vfs.
  destruct (push_layouts_cases layouts [] builder_new builder_new_pushed) as [(Hall & b & -> & Eb)|(row & e & Hrow & He & ->)]; [|by exists row].
  destruct (build_spec (row_files layouts) (accepted_fit _ Hall) Hu Hs) as (t & Et & Ht). unfold build in Et. rewrite Eb in Et.
  cbn [mbind result_bind] in *. by rewrite Et.
Qed.
End trees.
