(* ===== verification/LayoutCollisions.v ===== *)
(** * Computations with a deadline

    [gives m r]: the clock decides only whether [m] ends early.  It fails because a
    reading was past the deadline, or returns [r]. *)

From S2P Require Import Prelude ByteStrings Ordered StoneRecords Vfs VfsSpec LayoutPlanning VfsBuilder.

Section clock.
Context (deadline : Z).

Definition expired (now : nat -> Z) (k : nat) {X} (r : planned X * nat) : Prop :=
  r.1 = Err (PlanError.FrozenMaterializationTimeout FROZEN_MATERIALIZATION_TIMEOUT)
  /\ exists j, (k <= j < r.2)%nat /\ (deadline < now j)%Z.

Definition gives {X} (m : timed X) (r : planned X) : Prop :=
  forall now k, (k <= (m now k).2)%nat /\ ((m now k).1 = r \/ expired now k (m now k)).

Lemma gives_lift {X} (r : planned X) : gives (lift r) r.
Proof. intros now k. split; [done|by left]. Qed.

Lemma gives_ret {X} (x : X) : gives (mret x) (Ok x).
Proof. apply gives_lift. Qed.

Lemma gives_deadline : gives (require_frozen_materialization_deadline deadline) (Ok tt).
Proof.
  intros now k. unfold require_frozen_materialization_deadline, expired. cbn.
  split; [lia|]. destruct (Z.ltb_spec deadline (now k)); [right|by left]. split; [done|]. exists k. lia.
Qed.

Lemma gives_bind {X Y} (m : timed X) (f : X -> timed Y) r s :
  gives m r -> (forall x, r = Ok x -> gives (f x) (s x)) -> gives (m ≫= f) (r ≫= s).
Proof.
  intros Hm Hf now k. destruct (Hm now k) as [Hk H].
  assert ((m ≫= f) now k = match m now k with (Ok x, k') => f x now k' | (Err e, k') => (Err e, k') end) as -> by done.
  unfold expired in *. destruct (m now k) as [[x|e] k'] eqn:E; cbn [fst snd] in *.
  - destruct H as [<-|[H _]]; [|done]. cbn [mbind result_bind]. destruct (Hf x eq_refl now k') as [Hk' [->|(-> & j & Hj & Hd)]].
    + split; [lia|by left].
    + split; [lia|]. right. split; [done|]. exists j. lia.
  - split; [done|]. destruct H as [<-|([= ->] & j & Hj & Hd)]; [by left|]. right. split; [done|]. by exists j.
Qed.

(** A computation after a look at the clock. *)
Lemma gives_then {X} (m : timed X) r : gives m r -> gives (require_frozen_materialization_deadline deadline;; m) r.
Proof. intros Hm. apply (gives_bind _ (fun _ => m) (Ok tt) (fun _ => r)); [apply gives_deadline|done]. Qed.

Lemma gives_fold {X S} (f : S -> X -> timed S) g l :
  (forall s x, x ∈ l -> gives (f s x) (g s x)) -> forall s, gives (fold_until f s l) (try_fold g s l).
Proof.
  induction l as [|x l IH]; intros Hf s; cbn [fold_until try_fold]; [apply gives_ret|].
  apply gives_bind; [apply Hf; left|]. intros s' _. apply IH. intros s'' y Hy. apply Hf. by right.
Qed.

(** What a computation gives is what every run returns that does not end early. *)
Lemma gives_run {X} (m : timed X) r now k : gives m r -> (m now k).1 = r \/ expired now k (m now k).
Proof. intros Hm. apply Hm. Qed.
End clock.

(** ** Collisions in a frozen closure

    [validate_frozen_tree_collisions_until] accepts entries with paths of their own
    exactly when only directories have entries below them, as long as the directories
    stay within the limits. *)

(** ** Walking up *)

Lemma path_parent_root : path_parent (render []) = None.
Proof. unfold path_parent. by rewrite bool_decide_eq_true_2 by (by right). Qed.

Lemma path_parent_render cs c : proper_name c -> path_parent (render (cs ++ [c])) = Some (render cs).
Proof.
  intros [Hc Hs]. rewrite render_snoc. unfold path_parent.
  rewrite bool_decide_eq_false_2 by (intros [E|E]; apply (f_equal length) in E; rewrite length_app in E; by destruct c; [|cbn in E; lia]).
  rewrite rfind_last by done.
  destruct cs as [|d cs]; [done|]. cbn [render]. destruct (length (body (d :: cs))) eqn:E; [done|]. rewrite <- E.
  by rewrite take_app_length.
Qed.

Lemma length_render cs : proper cs -> (length cs <= length (render cs))%nat.
Proof.
  destruct cs as [|c cs]; [cbn; lia|]. intros Hp. cbn [render]. rewrite <- (count_body _ Hp). unfold count. apply length_filter.
Qed.

Section collisions.
Context (deadline : Z).

Lemma gives_while {S} (f : S -> bytes -> timed S) g cs :
  (forall s q, gives deadline (f s q) (g s q)) -> proper cs -> forall fuel s, (length cs <= fuel)%nat ->
  gives deadline (while_parent fuel f s (path_parent (render cs))) (try_fold g s (rev (above cs))).
Proof.
  intros Hf. induction cs as [|c cs IH] using rev_ind; intros Hp fuel s Hl.
  - rewrite path_parent_root. cbn. destruct fuel; apply gives_ret.
  - apply proper_snoc in Hp as [Hp Hc]. rewrite path_parent_render by done. rewrite length_app in Hl. cbn in Hl.
    destruct fuel as [|fuel]; [lia|]. cbn [while_parent]. rewrite above_snoc, rev_unit. cbn [try_fold].
    apply gives_bind; [done|]. intros s' _. apply IH; [done|lia].
Qed.

Lemma gives_parents {S} (f : S -> bytes -> timed S) g p s :
  (forall s q, gives deadline (f s q) (g s q)) -> canonical p = true ->
  gives deadline (for_parents f s p) (try_fold g s (rev (ancestors p))).
Proof.
  intros Hf (cs & Hp & ->)%canonical_iff. unfold for_parents, ancestors. rewrite names_render by done.
  apply gives_while; [done|done|by apply length_render].
Qed.
End collisions.

(** Loops of checks *)
Lemma try_fold_unit {E X} (f : X -> result E unit) l :
  try_fold (fun _ x => f x) tt l = Ok tt <-> forall x, x ∈ l -> f x = Ok tt.
Proof.
  induction l as [|x l IH]; cbn [try_fold]; [split; [by intros _ x ?%elem_of_nil|done]|].
  rewrite bind_ok_iff. split.
  - intros ([] & Hx & Hl). rewrite IH in Hl. intros y [-> |Hy]%elem_of_cons; [done|by apply Hl].
  - intros Hall. exists tt. split; [apply Hall; left|]. apply IH. intros y Hy. apply Hall. by right.
Qed.

Lemma try_fold_inv {E X S} (P : S -> Prop) (f : S -> X -> result E S) l :
  (forall s x, x ∈ l -> P s -> exists s', f s x = Ok s' /\ P s') -> forall s, P s -> exists s', try_fold f s l = Ok s' /\ P s'.
Proof.
  induction l as [|x l IH]; intros Hf s Hs; cbn [try_fold]; [by exists s|].
  destruct (Hf s x) as (s' & -> & Hs'); [left|done|]. apply (IH ltac:(intros; apply Hf; [by right|done]) s' Hs').
Qed.

(** ** The directories found *)

Fixpoint bytes_of (l : list bytes) : Z :=
  match l with
  | [] => 0
  | p :: l' => byte_len p + bytes_of l'
  end%Z.

Lemma bytes_of_app l k : bytes_of (l ++ k) = (bytes_of l + bytes_of k)%Z.
Proof. induction l as [|p l IH]; cbn; lia. Qed.

Lemma bytes_of_nonneg l : (0 <= bytes_of l)%Z.
Proof. induction l as [|p l IH]; cbn; [lia|]. unfold byte_len. lia. Qed.

#[global] Instance bytes_of_perm : Proper ((≡ₚ) ==> (=)) bytes_of.
Proof. induction 1; cbn; lia. Qed.

(** [some] directories among [all], and the bytes of their paths. *)
Definition found_among (all : list bytes) (d : found) : Prop :=
  NoDup d.1 /\ d.1 ⊆ all /\ d.2 = bytes_of d.1.

Lemma among_size all l : NoDup l -> l ⊆ all -> (length l <= length all)%nat /\ (bytes_of l <= bytes_of all)%Z.
Proof.
  intros Hn Hs. destruct (submseteq_Permutation l all (NoDup_submseteq _ _ Hn Hs)) as [k Hk].
  rewrite Hk, length_app, bytes_of_app. pose proof (bytes_of_nonneg k). lia.
Qed.

Lemma insert_found all max_paths max_bytes d p :
  (Z.of_nat (length all) <= max_paths < 2 ^ 64)%Z -> (bytes_of all <= max_bytes < 2 ^ 64)%Z ->
  found_among all d -> p ∈ all ->
  exists d', insert_frozen_materialized_directory max_paths max_bytes d p = Ok d' /\ found_among all d'.
Proof.
  intros Hp Hb (Hn & Hs & Ht) Hin. destruct d as [dirs total]. cbn in *. unfold insert_frozen_materialized_directory.
  case_bool_decide as Hd; [by eexists|]. destruct (among_size all (p :: dirs)) as [Hl Hbs]; [by constructor|set_solver|].
  cbn in Hl, Hbs. assert (0 <= total)%Z by (subst; apply bytes_of_nonneg). assert (0 <= byte_len p)%Z by (unfold byte_len; lia).
  unfold add_or_max. rewrite (proj2 (checked_add_Some 64 total (byte_len p) (total + byte_len p))) by (split; [done|lia]).
  cbn [default from_option Datatypes.id]. rewrite Z.min_r by (unfold USIZE_MAX; lia).
  replace (max_paths <? _)%Z with false by (symmetry; apply Z.ltb_ge; lia).
  replace (max_bytes <? _)%Z with false by (symmetry; apply Z.ltb_ge; lia). eexists. split; [done|].
  assert (set_insert p dirs ≡ₚ p :: dirs) as Hperm.
  { clear -Hd. induction dirs as [|q dirs IH]; cbn; [done|]. apply not_elem_of_cons in Hd as [Hq Hd].
    destruct (cmp p q) eqn:E; [by apply cmp_eq_iff in E|done|]. rewrite IH by done. apply perm_swap. }
  split_and!; cbn [fst snd]; [rewrite Hperm; by constructor|intros q; rewrite Hperm; set_solver|]. rewrite Hperm. cbn. lia.
Qed.

(** ** The verdict *)

Definition parents_up (e : FrozenLayoutEntry) : list bytes := rev (ancestors (entry_path e)).

(** What the validation decides when no reading of the clock is past the deadline. *)
Definition verdict (es : list FrozenLayoutEntry) (max_paths max_bytes : Z) : planned unit :=
  d ← try_fold (fun d e => try_fold (insert_frozen_materialized_directory max_paths max_bytes) d (parents_up e)) ([], 0%Z) es;
  d' ← try_fold (note_entry max_paths max_bytes) d es;
  redirects ← try_fold (note_redirect d'.1) [] es;
  try_fold (fun _ e => try_fold (fun _ => refuse_redirect redirects e) tt (parents_up e)) tt es;;
  try_fold (fun _ e => try_fold (fun _ => refuse_parent es e) tt (parents_up e)) tt es.

(** Only directories have entries below them. *)
Definition settled_entries (es : list FrozenLayoutEntry) : Prop :=
  forall x y, x ∈ es -> y ∈ es -> entry_path x ∈ ancestors (entry_path y) -> entry_is_directory x = true.

(** The directories of a closure: those above an entry and those among the entries. *)
Definition directories_of (es : list FrozenLayoutEntry) : list bytes :=
  set_collect ((es ≫= fun e => ancestors (entry_path e)) ++ (entry_path <$> filter (fun e => entry_is_directory e) es)).

Definition within (es : list FrozenLayoutEntry) (max_paths max_bytes : Z) : Prop :=
  (Z.of_nat (length (directories_of es)) <= max_paths)%Z /\ (bytes_of (directories_of es) <= max_bytes)%Z.

Section verdict.
Context (es : list FrozenLayoutEntry).
Context (Hsite : forall e, e ∈ es -> exists cs, proper cs /\ cs <> [] /\ entry_path e = render cs).

Lemma Hcan e : e ∈ es -> canonical (entry_path e) = true.
Proof. intros He. apply canonical_iff. destruct (Hsite e He) as (cs & Hp & _ & E). by exists cs. Qed.

Lemma then_done (r : planned unit) : (r ≫= fun _ => Ok tt) = r.
Proof. by destruct r as [[]|]. Qed.

Lemma gives_blit deadline {X} (m : timed X) r :
  gives deadline m r -> gives deadline (require_blit_deadline (Some deadline);; m) r.
Proof. apply gives_then. Qed.

Lemma gives_verdict deadline :
  gives deadline (validate_frozen_tree_collisions_until es deadline)
    (verdict es MAX_FROZEN_EXECUTABLE_DIRECTORY_PATHS MAX_TOTAL_FROZEN_EXECUTABLE_DIRECTORY_BYTES).
Proof.
  unfold validate_frozen_tree_collisions_until, validate_frozen_tree_collisions_with_limits_until, verdict.
  apply gives_blit. apply gives_bind.
  { apply gives_fold. intros d e He. apply gives_blit, gives_parents; [|by apply Hcan]. intros d' q. apply gives_blit, gives_lift. }
  intros d _. apply gives_bind; [apply gives_fold; intros d' e _; apply gives_blit, gives_lift|].
  intros d' _. apply gives_bind; [apply gives_fold; intros r e _; apply gives_blit, gives_lift|].
  intros redirects _. apply gives_bind.
  { apply gives_fold. intros [] e He. apply gives_blit, gives_parents; [|by apply Hcan]. intros [] q. apply gives_blit, gives_lift. }
  intros [] _. rewrite <- (then_done (try_fold (fun _ e => try_fold (fun _ => refuse_parent es e) tt (parents_up e)) tt es)).
  apply gives_bind; [|intros [] _; apply gives_deadline].
  apply gives_fold. intros [] e He. apply gives_blit, gives_parents; [|by apply Hcan]. intros [] q. apply gives_blit, gives_lift.
Qed.

Lemma refuse_parents_ok :
  try_fold (fun _ e => try_fold (fun _ => refuse_parent es e) tt (parents_up e)) tt es = Ok tt
  <-> forall e q, e ∈ es -> q ∈ ancestors (entry_path e) -> refuse_parent es e q = Ok tt.
Proof.
  rewrite try_fold_unit. split.
  - intros Hall e q He Hq. specialize (Hall e He). rewrite try_fold_unit in Hall. apply Hall. unfold parents_up.
    by rewrite <- Permutation_rev.
  - intros Hall e He. apply try_fold_unit. intros q Hq. apply Hall; [done|]. unfold parents_up in Hq. by rewrite <- Permutation_rev in Hq.
Qed.

Context (Hnd : NoDup (entry_path <$> es)).

Lemma explicit_get p e : map_get p (explicit_entries es) = Some e <-> e ∈ es /\ entry_path e = p.
Proof.
  unfold explicit_entries. rewrite map_collect_get by (by rewrite <- list_fmap_compose).
  rewrite (list_elem_of_fmap (fun e => (entry_path e, e))). naive_solver.
Qed.

Lemma verdict_settled max_paths max_bytes : verdict es max_paths max_bytes = Ok tt -> settled_entries es.
Proof.
  unfold verdict. intros H. inv_ok. rename select (try_fold (fun _ e => try_fold (fun _ => refuse_parent es e) tt _) tt es = Ok tt) into Hn.
  rewrite refuse_parents_ok in Hn. intros u v Hu Hv Ha. specialize (Hn v _ Hv Ha) as Hq.
  unfold refuse_parent in Hq. rewrite (proj2 (explicit_get (entry_path u) u)) in Hq by done.
  apply reject_ok_iff in Hq. by apply negb_false_iff.
Qed.

Lemma note_found max_paths max_bytes d e :
  (max_paths < 2 ^ 64)%Z -> (max_bytes < 2 ^ 64)%Z -> within es max_paths max_bytes -> e ∈ es ->
  found_among (directories_of es) d ->
  exists d', note_entry max_paths max_bytes d e = Ok d' /\ found_among (directories_of es) d'.
Proof.
  intros Hp Hb [Hwp Hwb] He Hd. unfold note_entry. destruct (entry_is_directory e) eqn:Ek.
  - apply insert_found; [lia|lia|done|]. unfold directories_of. rewrite elem_of_set_collect, elem_of_app. right.
    apply list_elem_of_fmap_2, list_elem_of_filter. split; [by rewrite Ek|done].
  - case_bool_decide as Hin; [|by eexists]. eexists. split; [done|]. destruct Hd as (Hn & Hs & Ht).
    assert (d.1 ≡ₚ entry_path e :: filter (fun p => p <> entry_path e) d.1) as Hperm.
    { apply NoDup_Permutation; [done|constructor; [|by apply NoDup_filter]|].
      - rewrite list_elem_of_filter. tauto.
      - intros q. rewrite elem_of_cons, list_elem_of_filter. destruct (decide (q = entry_path e)) as [-> |]; tauto. }
    split_and!; cbn [fst snd]; [by apply NoDup_filter|intros q [_ Hq]%list_elem_of_filter; by apply Hs|].
    rewrite Ht, Hperm at 1. cbn [bytes_of]. pose proof (bytes_of_nonneg (filter (fun p => p <> entry_path e) d.1)). lia.
Qed.

(** Only symbolic links are redirected. *)
Definition redirected_links (redirects : list (bytes * bytes)) : Prop :=
  forall q, is_Some (map_get q redirects) -> exists e, e ∈ es /\ entry_path e = q /\ entry_is_directory e = false.

Lemma note_redirect_links directories redirects e :
  e ∈ es -> redirected_links redirects ->
  exists redirects', note_redirect directories redirects e = Ok redirects' /\ redirected_links redirects'.
Proof.
  intros He Hr. unfold note_redirect. destruct (lay_file (entry_layout e)) eqn:Ef; try by eexists.
  assert (exists p, link_target e source = Ok p) as [p ->].
  { unfold link_target. destruct (starts_with SLASH source); [by eexists|].
    destruct (Hsite e He) as (cs & Hp & Hne & ->). destruct cs as [|c cs _] using rev_ind; [done|]. apply proper_snoc in Hp as [_ Hc]. rewrite path_parent_render by done. by eexists. }
  cbn [mbind result_bind]. eexists. split; [done|]. case_bool_decide; [|done]. intros q. rewrite map_get_insert.
  destruct (cmp q (entry_path e)) eqn:E; [|apply Hr|apply Hr]. apply cmp_eq_iff in E as ->. intros _. exists e.
  split_and!; [done|done|]. unfold entry_is_directory. by rewrite Ef.
Qed.

Lemma verdict_accepts max_paths max_bytes :
  (max_paths < 2 ^ 64)%Z -> (max_bytes < 2 ^ 64)%Z -> within es max_paths max_bytes -> settled_entries es ->
  verdict es max_paths max_bytes = Ok tt.
Proof.
  intros Hp Hb Hw Hs. unfold verdict.
  destruct (try_fold_inv (found_among (directories_of es))
    (fun d e => try_fold (insert_frozen_materialized_directory max_paths max_bytes) d (parents_up e)) es) with (s := ([], 0%Z) : found)
    as (d & -> & Hd).
  { intros d e He Hd. apply try_fold_inv; [|done]. intros d' q Hq Hd'. destruct Hw. apply insert_found; [lia|lia|done|].
    unfold directories_of. rewrite elem_of_set_collect, elem_of_app. left. apply list_elem_of_bind. exists e. split; [|done].
    unfold parents_up in Hq. by rewrite <- Permutation_rev in Hq. }
  { split_and!; [constructor|intros q ?%elem_of_nil; done|done]. }
  cbn [mbind result_bind].
  destruct (try_fold_inv (found_among (directories_of es)) (note_entry max_paths max_bytes) es) with (s := d) as (d' & -> & _);
    [intros d1 e He Hd1; by apply note_found|done|]. cbn [mbind result_bind].
  destruct (try_fold_inv redirected_links (note_redirect d'.1) es) with (s := @nil (bytes * bytes)) as (redirects & -> & Hr);
    [intros r e He Hr; by apply note_redirect_links|intros q []; done|]. cbn [mbind result_bind].
  apply seq_ok_iff. split.
  - apply try_fold_unit. intros e He. apply try_fold_unit. intros q Hq. unfold parents_up in Hq. rewrite <- Permutation_rev in Hq.
    unfold refuse_redirect. apply reject_ok_iff. destruct (map_get q redirects) eqn:E; [|done].
    destruct (Hr q) as (x & Hx & <- & Hk); [by eexists|]. by rewrite (Hs x e) in Hk.
  - apply refuse_parents_ok. intros e q He Hq. unfold refuse_parent. destruct (map_get q (explicit_entries es)) as [x|] eqn:E; [|done].
    apply explicit_get in E as [Hx <-]. by rewrite (Hs x e).
Qed.
End verdict.
