(* ===== verification/LayoutFrozen.v ===== *)
(** * The entries of a frozen closure

    The order the entries are sorted in, and the selection of one entry a path: it fails
    exactly when two entries of a path are not the same directory. *)

From stdpp Require Import sorting.
From S2P Require Import Prelude ByteStrings Ordered StoneRecords Vfs VfsSpec VfsBuilder VfsTrees LayoutPlanning LayoutTrees LayoutCollisions VfsReading.
Import Indextree.

(** ** The order *)

Definition entry_key (e : FrozenLayoutEntry) : bytes * (nat * (nat * (bytes * (Z * (Z * (Z * Z)))))) :=
  let l := entry_layout e in
  (entry_path e, (package_order e, (kind_order e, (source_order e, (lay_uid l, (lay_gid l, (lay_mode l, lay_tag l))))))).

Lemma then_with_assoc a b c : then_with (then_with a b) c = then_with a (then_with b c).
Proof. by destruct a. Qed.

Lemma entry_cmp_key a b : entry_cmp a b = cmp (entry_key a) (entry_key b).
Proof. unfold entry_cmp. by rewrite !then_with_assoc. Qed.

#[global] Instance entry_cmp_pre : @CmpPre FrozenLayoutEntry entry_cmp.
Proof.
  split.
  - intros a b. unfold cmp. rewrite !entry_cmp_key. apply cmp_opp.
  - intros a b c. unfold cmp. rewrite !entry_cmp_key. apply cmp_le_trans.
Qed.

(** Earlier entries have smaller paths, and of the same path smaller package orders. *)
Lemma entry_cmp_path a b : entry_cmp a b <> Gt -> cmp (entry_path a) (entry_path b) <> Gt.
Proof. rewrite entry_cmp_key. unfold cmp at 1, prod_cmp, then_with. cbn [fst entry_key]. by destruct (cmp (entry_path a) (entry_path b)). Qed.

Lemma entry_cmp_package a b : entry_cmp a b <> Gt -> entry_path a = entry_path b -> (package_order a <= package_order b)%nat.
Proof.
  rewrite entry_cmp_key. unfold cmp at 1, prod_cmp, then_with. cbn [fst snd entry_key]. intros H E. rewrite E, cmp_refl in H.
  unfold cmp at 1, prod_cmp, then_with in H. cbn [fst snd] in H. change (@cmp nat nat_cmp) with Nat.compare in H.
  destruct (Nat.compare_spec (package_order a) (package_order b)); [lia|lia|done].
Qed.

(** ** Entries of rows *)

Lemma entry_new_ok package layout order e :
  frozen_layout_entry_new package layout order = Ok e ->
  entry_package e = package /\ entry_layout e = layout /\ package_order e = order
  /\ entry_path e = path (row_file (package, layout)) /\ admitted (split SLASH (LayoutFile.target (lay_file layout)))
  /\ orders (lay_file layout) = Some (kind_order e, source_order e).
Proof.
  unfold frozen_layout_entry_new. intros H. apply bind_ok_iff in H as (raw & Hraw & H). apply layout_admitted in Hraw as [-> Had].
  inv_ok. cbn. destruct (admitted_path (package, layout) Had) as (_ & _ & _ & Hp). split_and!; [done..|].
  rename select (orders _ = Some _) into Ho. by rewrite Ho, <- surjective_pairing.
Qed.

(** Whether a row becomes an entry does not depend on the order of its package. *)
Lemma entry_new_order package layout order order' e :
  frozen_layout_entry_new package layout order = Ok e -> exists e', frozen_layout_entry_new package layout order' = Ok e'.
Proof.
  unfold frozen_layout_entry_new. intros H.
  repeat (let x := fresh in apply bind_ok_iff in H as (x & -> & H); cbn [mbind result_bind] in *). by eexists.
Qed.

(** An entry below [/usr]. *)
Definition placed (e : FrozenLayoutEntry) : Prop :=
  entry_path e = path (row_file (entry_package e, entry_layout e))
  /\ admitted (split SLASH (LayoutFile.target (lay_file (entry_layout e)))).

Lemma entry_new_placed package layout order e : frozen_layout_entry_new package layout order = Ok e -> placed e.
Proof. intros (<- & <- & _ & Hp & Had & _)%entry_new_ok. by split. Qed.

Lemma placed_site e : placed e -> exists cs, proper cs /\ cs <> [] /\ entry_path e = render cs.
Proof.
  intros [-> Had]. destruct (admitted_path (entry_package e, entry_layout e) Had) as (Hr & Hp & _). by exists (target_names (entry_layout e)).
Qed.

Lemma placed_target a b : placed a -> placed b -> entry_path a = entry_path b ->
  LayoutFile.target (lay_file (entry_layout a)) = LayoutFile.target (lay_file (entry_layout b)).
Proof.
  intros [Ha Haa] [Hb Hba] E. destruct (admitted_path (entry_package a, _) Haa) as (_ & _ & _ & Ea), (admitted_path (entry_package b, _) Hba) as (_ & _ & _ & Eb).
  rewrite Ha, Hb in E. cbn [snd] in *. rewrite Ea, Eb in E. by apply app_inv_head in E.
Qed.

Lemma identical_iff a b :
  placed a -> placed b -> entry_path a = entry_path b ->
  identical_directory_metadata a b = true
  <-> entry_is_directory a = true /\ entry_is_directory b = true /\ entry_layout a = entry_layout b.
Proof.
  intros Ha Hb E. pose proof (placed_target a b Ha Hb E) as Et. unfold identical_directory_metadata, entry_is_directory.
  rewrite !andb_true_iff, !Z.eqb_eq. destruct (entry_layout a) as [u1 g1 m1 t1 f1], (entry_layout b) as [u2 g2 m2 t2 f2]. cbn in *.
  destruct f1, f2; cbn in *; naive_solver.
Qed.

(** ** Selecting *)

(** At each path there is at most one entry, or only the same directory. *)
Definition coherent (l : list FrozenLayoutEntry) : Prop :=
  forall p, let here := filter (fun e => entry_path e = p) l in
  (length here <= 1)%nat \/ (forall x y, x ∈ here -> y ∈ here -> entry_is_directory x = true /\ entry_layout x = entry_layout y).

(** One entry a path: the first of it. *)
Record picked (l sel : list FrozenLayoutEntry) : Prop := {
  picked_paths : NoDup (entry_path <$> sel);
  picked_from e : e ∈ sel -> e ∈ l;
  picked_for e :
    e ∈ l -> exists s, s ∈ sel /\ entry_path s = entry_path e /\ entry_layout s = entry_layout e /\ entry_cmp s e <> Gt
                     /\ (s = e \/ entry_is_directory e = true);
  picked_last : entry_path <$> last sel = entry_path <$> last l;
}.

Lemma picked_unique l sel s s' : picked l sel -> s ∈ sel -> s' ∈ sel -> entry_path s = entry_path s' -> s = s'.
Proof.
  intros Hp (i & Hi)%list_elem_of_lookup_1 (j & Hj)%list_elem_of_lookup_1 E.
  assert (i = j) as ->; [|congruence]. eapply NoDup_lookup; [apply (picked_paths l sel Hp)|..]; rewrite list_lookup_fmap.
  - by rewrite Hi.
  - rewrite Hj. cbn. by rewrite E.
Qed.

Lemma coherent_init l e : coherent (l ++ [e]) -> coherent l.
Proof.
  intros Hc p. destruct (Hc p) as [Hl|Hd]; rewrite filter_app in *; [left; rewrite length_app in Hl; lia|].
  right. intros x y Hx Hy. apply Hd; apply elem_of_app; by left.
Qed.

Lemma coherent_fresh l e : coherent l -> (forall x, x ∈ l -> entry_path x <> entry_path e) -> coherent (l ++ [e]).
Proof.
  intros Hc Hf p. cbn. rewrite filter_app. destruct (decide (entry_path e = p)) as [<- |Hn].
  - left. replace (filter (fun x => entry_path x = entry_path e) l) with (@nil FrozenLayoutEntry).
    + rewrite filter_cons_True by done. cbn. lia.
    + symmetry. destruct (filter _ l) as [|x k] eqn:E; [done|].
      assert (x ∈ filter (fun x => entry_path x = entry_path e) l) as [? ?]%list_elem_of_filter by (rewrite E; left). by destruct (Hf x).
  - rewrite filter_cons_False, filter_nil, app_nil_r by done. apply Hc.
Qed.

Lemma coherent_same l e :
  coherent l -> (forall x, x ∈ l -> entry_path x = entry_path e -> entry_is_directory x = true /\ entry_layout x = entry_layout e) ->
  entry_is_directory e = true -> coherent (l ++ [e]).
Proof.
  intros Hc Hs He p. cbn. destruct (decide (entry_path e = p)) as [<- |Hn].
  - right. assert (forall x, x ∈ filter (fun x => entry_path x = entry_path e) (l ++ [e]) ->
      entry_is_directory x = true /\ entry_layout x = entry_layout e) as Hall.
    { intros x [Hp Hx]%list_elem_of_filter. apply elem_of_app in Hx as [Hx| ->%list_elem_of_singleton]; [by apply Hs|done]. }
    intros x y Hx%Hall Hy%Hall. naive_solver congruence.
  - rewrite filter_app, filter_cons_False, filter_nil, app_nil_r by done. apply Hc.
Qed.

Lemma entry_cmp_refl e : entry_cmp e e <> Gt.
Proof. by rewrite entry_cmp_key, cmp_refl. Qed.

Lemma picked_fresh l sel e :
  picked l sel -> (forall x, x ∈ l -> entry_path x <> entry_path e) -> picked (l ++ [e]) (sel ++ [e]).
Proof.
  intros [Hn Hf Hr Hl] Hx. split.
  - rewrite fmap_app. apply NoDup_app. split_and!; [done| |apply NoDup_singleton].
    intros p (s & -> & Hs)%list_elem_of_fmap Hp%list_elem_of_singleton. by apply (Hx s); [apply Hf|].
  - intros x [Hin| ->%list_elem_of_singleton]%elem_of_app; apply elem_of_app; [left; by apply Hf|right; by left].
  - intros x [Hin| ->%list_elem_of_singleton]%elem_of_app.
    + destruct (Hr x Hin) as (s & Hs & ?). exists s. split; [apply elem_of_app; by left|done].
    + exists e. split_and!; [apply elem_of_app; right; left|done|done|apply entry_cmp_refl|by left].
  - by rewrite !last_snoc.
Qed.

Lemma picked_same l sel prev e :
  picked l sel -> last sel = Some prev -> entry_path prev = entry_path e -> entry_layout prev = entry_layout e ->
  entry_is_directory e = true -> entry_cmp prev e <> Gt -> picked (l ++ [e]) sel.
Proof.
  intros [Hn Hf Hr Hl] Elast Ep Ela Hd Hcmp. split.
  - done.
  - intros x Hx. apply elem_of_app. left. by apply Hf.
  - intros x [Hin| ->%list_elem_of_singleton]%elem_of_app; [by apply Hr|].
    exists prev. split_and!; [by apply last_Some_elem_of|done|done|done|by right].
  - rewrite last_snoc, Elast. cbn. by rewrite Ep.
Qed.

(** The last pick has the largest path so far. *)
Lemma last_pick l sel prev x :
  picked l sel -> @ascending _ entry_cmp l -> last sel = Some prev -> x ∈ l -> cmp (entry_path x) (entry_path prev) <> Gt.
Proof.
  intros Hp Hasc El Hx. pose proof (picked_last l sel Hp) as Hl. rewrite El in Hl.
  destruct l as [|z l _] using rev_ind; [done|]. rewrite last_snoc in Hl. injection Hl as ->.
  apply StronglySorted_app in Hasc as (Hle & _ & _).
  apply elem_of_app in Hx as [Hx| ->%list_elem_of_singleton]; [|by rewrite cmp_refl].
  apply entry_cmp_path, Hle; [done|left].
Qed.

Lemma select_spec l :
  Forall placed l -> @ascending _ entry_cmp l ->
  match try_fold select_entry [] l with
  | Ok sel => coherent l /\ picked l sel
  | Err _ => ~ coherent l
  end.
Proof.
  induction l as [|e l IH] using rev_ind; intros Hpl Hasc.
  { cbn. split; [intros p; left; cbn; lia|]. split; [constructor|done|by intros e ?%elem_of_nil|done]. }
  apply Forall_app in Hpl as [Hpl He]. rewrite Forall_singleton in He. apply StronglySorted_app in Hasc as (Hle & Hasc & _).
  rewrite try_fold_app. specialize (IH Hpl Hasc). destruct (try_fold select_entry [] l) as [sel|err]; cbn [mbind result_bind try_fold]; cycle 1.
  { intros Hc. by apply IH, (coherent_init l e). }
  destruct IH as [Hc Hp]. unfold select_entry. destruct (last sel) as [prev|] eqn:El; cycle 1.
  { assert (forall x, x ∈ l -> entry_path x <> entry_path e) as Hf.
    { intros x (s & Hs & _)%(picked_for l sel Hp). apply last_None in El as ->. by apply elem_of_nil in Hs. }
    cbn [mbind result_bind]. split; [by apply coherent_fresh|by apply picked_fresh]. }
  assert (prev ∈ l) as Hprev by (by apply (picked_from l sel Hp), last_Some_elem_of).
  assert (placed prev) as Hpp by (by eapply Forall_forall). assert (entry_cmp prev e <> Gt) as Hcmp by (apply Hle; [done|left]).
  case_bool_decide as E; cycle 1.
  { assert (forall x, x ∈ l -> entry_path x <> entry_path e) as Hf.
    { intros x Hx Ex. pose proof (last_pick l sel prev x Hp Hasc El Hx) as H1. rewrite Ex in H1.
      pose proof (entry_cmp_path _ _ Hcmp) as H2. rewrite (cmp_opp (entry_path e) (entry_path prev)) in H2.
      destruct (cmp (entry_path e) (entry_path prev)) eqn:E'; [by apply cmp_eq_iff in E'|done|done]. }
    cbn [mbind result_bind]. split; [by apply coherent_fresh|by apply picked_fresh]. }
  pose proof (identical_iff prev e Hpp He E) as Hid. destruct (identical_directory_metadata prev e); cbn [mbind result_bind].
  - destruct (proj1 Hid eq_refl) as (Hd1 & Hd2 & Hlay). split; [|by eapply picked_same]. apply coherent_same; [done| |done].
    intros x Hx Ex. destruct (picked_for l sel Hp x Hx) as (s & Hs & Es & Els & _ & Hor).
    assert (s = prev) as -> by (eapply picked_unique; [done|done|by apply last_Some_elem_of|congruence]).
    split; [|congruence]. by destruct Hor as [<-|].
  - intros Hco. destruct (Hco (entry_path e)) as [Hl|Hall].
    + rewrite filter_app, length_app, (filter_cons_True _ e) in Hl by done.
      assert (prev ∈ filter (fun x => entry_path x = entry_path e) l) as Hin by (by apply list_elem_of_filter).
      destruct (filter _ l); [by apply elem_of_nil in Hin|]. cbn in Hl. lia.
    + assert (prev ∈ filter (fun x => entry_path x = entry_path e) (l ++ [e])) as H1 by (apply list_elem_of_filter; split; [done|set_solver]).
      assert (e ∈ filter (fun x => entry_path x = entry_path e) (l ++ [e])) as H2 by (apply list_elem_of_filter; split; [done|set_solver]).
      assert (false = true) as Hft; [|done]. apply Hid. destruct (Hall _ _ H1 H2), (Hall _ _ H2 H1). by split_and!.
Qed.

(** ** The tree of a frozen closure

    What [frozen_vfs_until] gives whenever it does not run out of time: the tree of
    exactly the layouts of the closure, when they do not collide. *)

(** The place of each package in the closure. *)
Definition order_of (packages : list bytes) : list (bytes * nat) := map_collect ((fun p => (p.2, p.1)) <$> imap pair packages).

Definition collect_entry (order : list (bytes * nat)) (es : list FrozenLayoutEntry) (row : layout_row) : planned (list FrozenLayoutEntry) :=
  e ← read_entry order row; mret (es ++ [e]).

(** ** Closures *)

Definition row_path (row : layout_row) : bytes := path (row_file row).
Definition row_is_directory (row : layout_row) : bool := Kind.is_directory (kind (row_file row)).

(** A row of one of the packages that can be materialised in a frozen root. *)
Definition row_fits (packages : list bytes) (row : layout_row) : Prop :=
  row.1 ∈ packages /\ exists e, frozen_layout_entry_new row.1 row.2 0 = Ok e.

(** No two rows collide: at each path there is at most one row, or the same directory of
    several packages, and only directories have rows below them. *)
Record collision_free (packages : list bytes) (layouts : list layout_row) : Prop := {
  free_fits row : row ∈ layouts -> row_fits packages row;
  free_paths p : let here := filter (fun row => row_path row = p) layouts in
    (length here <= 1)%nat \/ (forall x y, x ∈ here -> y ∈ here -> row_is_directory x = true /\ x.2 = y.2);
  free_settled : settled (row_files layouts);
}.

(** The directories of a closure stay within the limits. *)
Definition closure_directories (layouts : list layout_row) : list bytes :=
  set_collect (implied (row_files layouts) ++ (row_path <$> filter (fun row => row_is_directory row) layouts)).
Definition within_limits (layouts : list layout_row) : Prop :=
  (Z.of_nat (length (closure_directories layouts)) <= MAX_FROZEN_EXECUTABLE_DIRECTORY_PATHS)%Z
  /\ (bytes_of (closure_directories layouts) <= MAX_TOTAL_FROZEN_EXECUTABLE_DIRECTORY_BYTES)%Z.

(** A package that comes before another in the closure. *)
Definition precedes (packages : list bytes) (a b : bytes) : Prop :=
  forall i j, map_get a (order_of packages) = Some i -> map_get b (order_of packages) = Some j -> (i <= j)%nat.

(** A tree of exactly the rows of a closure and the directories above them, each once,
    after its parent and as an element at its own path; a directory of several packages
    belongs to the first of them. *)
Record closure_tree {A : Arena (File PendingFile)} (packages : list bytes) (layouts : list layout_row) (t : Tree PendingFile) : Prop := {
  closure_len : len t = length (iter t);
  closure_paths : NoDup (path <$> iter t);
  closure_rows row : row ∈ layouts ->
    exists x, x ∈ iter t /\ pending_layout x = row.2 /\ (pending_id x, row.2) ∈ layouts /\ precedes packages (pending_id x) row.1;
  closure_only x : x ∈ iter t ->
    (pending_id x, pending_layout x) ∈ layouts
    \/ exists p, x = pending_from p /\ p ∈ implied (row_files layouts) /\ forall row, row ∈ layouts -> row_path row <> p;
  closure_order l1 x l2 :
    iter t = l1 ++ x :: l2 -> path x = [SLASH] \/ exists y, y ∈ l1 /\ last (ancestors (path x)) = Some (path y);
  closure_elements : exists o, structured t = Ok o /\ from_option (occupies []) [] o = located <$> iter t;
}.

Section frozen.
Context {A : Arena (File PendingFile)} {L : Laws (File PendingFile) A}.

Definition push_entry (b : TreeBuilder PendingFile) (e : FrozenLayoutEntry) : planned (TreeBuilder PendingFile) :=
  map_err from_stop (push b (pending e)).

(** The plan without the clock. *)
Definition plan_in (order : list (bytes * nat)) (layouts : list layout_row) : planned (growth PendingFile) :=
  entries ← try_fold (collect_entry order) [] layouts;
  selected ← try_fold select_entry [] (@sort _ entry_cmp entries);
  verdict selected MAX_FROZEN_EXECUTABLE_DIRECTORY_PATHS MAX_TOTAL_FROZEN_EXECUTABLE_DIRECTORY_BYTES;;
  b ← try_fold push_entry builder_new selected;
  map_err from_stop (build_tree (bake b)).

Definition frozen_plan (packages : list bytes) : list layout_row -> planned (growth PendingFile) := plan_in (order_of packages).

(** ** Reading the rows *)

Lemma collect_entries order layouts : forall es,
  (exists new, try_fold (collect_entry order) es layouts = Ok (es ++ new)
     /\ Forall2 (fun row e => read_entry order row = Ok e) layouts new)
  \/ (exists err row, try_fold (collect_entry order) es layouts = Err err /\ row ∈ layouts /\ read_entry order row = Err err).
Proof.
  induction layouts as [|row layouts IH]; intros es; cbn [try_fold].
  { left. exists []. rewrite app_nil_r. split; [done|constructor]. }
  destruct (read_entry order row) as [e|err] eqn:E;
    [replace (collect_entry order es row) with (Ok (E := PlanError.t) (es ++ [e])) by (unfold collect_entry; by rewrite E)
    |replace (collect_entry order es row) with (Err (A := list FrozenLayoutEntry) err) by (unfold collect_entry; by rewrite E)];
    cbn [mbind result_bind].
  - destruct (IH (es ++ [e])) as [(new & -> & Hnew)|(err & row' & -> & Hin & Herr)].
    + left. exists (e :: new). rewrite <- app_assoc. split; [done|by constructor].
    + right. exists err, row'. split_and!; [done|by right|done].
  - right. exists err, row. split_and!; [done|left|done].
Qed.

Lemma read_entry_ok order row e :
  read_entry order row = Ok e ->
  placed e /\ entry_package e = row.1 /\ entry_layout e = row.2 /\ map_get row.1 order = Some (package_order e)
  /\ orders (lay_file row.2) = Some (kind_order e, source_order e).
Proof.
  unfold read_entry. intros (o & Ho & He)%bind_ok_iff. apply ok_or_ok_iff in Ho.
  pose proof (entry_new_placed _ _ _ _ He) as Hp. apply entry_new_ok in He as (E1 & E2 & E3 & _ & _ & E4). by rewrite Ho, E3.
Qed.

Lemma collected_placed order layouts es :
  Forall2 (fun row e => read_entry order row = Ok e) layouts es -> Forall placed es.
Proof. induction 1 as [|row e layouts es He _ IH]; constructor; [by eapply read_entry_ok|done]. Qed.

(** ** The clock *)

Lemma try_fold_pure {E X S} (f : S -> X -> S) l s : try_fold (E := E) (fun s x => Ok (f s x)) s l = Ok (foldl f s l).
Proof. revert s. induction l as [|x l IH]; intros s; [done|]. cbn. apply IH. Qed.

Lemma gives_order deadline packages : gives deadline (order_packages deadline packages) (Ok (order_of packages)).
Proof.
  replace (Ok (order_of packages))
    with (try_fold (E := PlanError.t) (fun m p => Ok (map_insert p.2 p.1 m)) [] (imap pair packages) : planned (list (bytes * nat))).
  - apply gives_fold. intros m p _. apply gives_then, gives_ret.
  - rewrite try_fold_pure. unfold order_of, map_collect. f_equal. generalize (@nil (bytes * nat)).
    generalize (imap pair packages). intros l. induction l as [|p l IH]; intros m; [done|]. cbn. apply IH.
Qed.

Lemma selected_sites order layouts entries selected :
  try_fold (collect_entry order) [] layouts = Ok entries -> try_fold select_entry [] (@sort _ entry_cmp entries) = Ok selected ->
  Forall placed entries /\ coherent (@sort _ entry_cmp entries) /\ picked (@sort _ entry_cmp entries) selected
  /\ Forall placed selected.
Proof.
  intros Ee Es. destruct (collect_entries order layouts []) as [(new & E & Hnew)|(err & row & E & _)]; rewrite E in Ee; [|done].
  injection Ee as <-. apply collected_placed in Hnew as Hpl. cbn [app] in *.
  assert (Forall placed (@sort _ entry_cmp new)) as Hps by (by rewrite sort_perm).
  pose proof (select_spec _ Hps (sort_ascending new)) as Hsel. rewrite Es in Hsel. destruct Hsel as [Hc Hp].
  split_and!; [done|done|done|]. apply Forall_forall. intros e He. eapply Forall_forall; [exact Hps|]. by apply (picked_from _ _ Hp).
Qed.

Lemma gives_frozen deadline packages layouts :
  gives deadline (frozen_vfs_until deadline packages layouts) (frozen_plan packages layouts).
Proof.
  unfold frozen_vfs_until. apply gives_then.
  change (frozen_plan packages layouts) with (Ok (order_of packages) ≫= fun o => plan_in o layouts).
  apply gives_bind; [apply gives_order|]. intros order _. unfold plan_in. apply gives_bind.
  { apply gives_fold. intros es row _. apply gives_then, gives_bind; [apply gives_lift|]. intros e _. apply gives_ret. }
  intros entries Ee. apply gives_then, gives_then. apply gives_bind.
  { apply gives_fold. intros sel e _. apply gives_then, gives_lift. }
  intros selected Es. destruct (selected_sites order layouts entries selected Ee Es) as (_ & _ & _ & Hpl). apply gives_bind.
  { apply gives_verdict. intros e He. apply placed_site. by eapply Forall_forall. }
  intros [] _. apply gives_bind; [apply gives_fold; intros b e _; apply gives_then, gives_lift|].
  intros b _. apply gives_then, gives_then.
  replace (map_err from_stop (build_tree (bake b))) with (map_err from_stop (build_tree (bake b)) ≫= fun t => Ok t : planned (growth PendingFile)) at 2
    by (by destruct (map_err _ _)).
  apply gives_bind; [apply gives_lift|]. intros t _. apply gives_then, gives_ret.
Qed.

(** ** Entries and rows *)

Section rows.
Context (packages : list bytes) (layouts : list layout_row) (es : list FrozenLayoutEntry).
Context (Hes : Forall2 (fun row e => read_entry (order_of packages) row = Ok e) layouts es).

Lemma row_entry row e : read_entry (order_of packages) row = Ok e -> row = (entry_package e, entry_layout e) /\ entry_path e = row_path row.
Proof.
  intros ([Hp _] & E1 & E2 & _)%read_entry_ok. assert (row = (entry_package e, entry_layout e)) as -> by (destruct row; cbn in *; congruence).
  by split.
Qed.

Lemma entry_of_row row : row ∈ layouts -> exists e, e ∈ es /\ read_entry (order_of packages) row = Ok e.
Proof.
  intros [i Hi]%list_elem_of_lookup_1. destruct (Forall2_lookup_l _ _ _ _ _ Hes Hi) as (e & He & E).
  exists e. split; [by eapply list_elem_of_lookup_2|done].
Qed.

Lemma row_of_entry e : e ∈ es -> (entry_package e, entry_layout e) ∈ layouts /\ read_entry (order_of packages) (entry_package e, entry_layout e) = Ok e.
Proof.
  intros [i Hi]%list_elem_of_lookup_1. destruct (Forall2_lookup_r _ _ _ _ _ Hes Hi) as (row & Hrow & E).
  destruct (row_entry row e E) as [-> _]. split; [by eapply list_elem_of_lookup_2|done].
Qed.

Lemma entry_row_path e : e ∈ es -> entry_path e = row_path (entry_package e, entry_layout e).
Proof. intros He. destruct (row_of_entry e He) as [_ E]. by apply row_entry in E as [_ ?]. Qed.

Lemma entry_row_directory e : entry_is_directory e = row_is_directory (entry_package e, entry_layout e).
Proof. unfold entry_is_directory, row_is_directory. cbn. unfold pending_kind. cbn. by destruct (lay_file (entry_layout e)). Qed.

Lemma filter_rows p :
  Forall2 (fun row e => row = (entry_package e, entry_layout e))
    (filter (fun row => row_path row = p) layouts) (filter (fun e => entry_path e = p) es).
Proof.
  induction Hes as [|r e l k He Hl IH]; [constructor|]. specialize (IH Hl). destruct (row_entry r e He) as [Er Ep]. rewrite !filter_cons, Ep.
  case_decide; [by constructor|done].
Qed.

Lemma coherent_rows :
  coherent es <-> forall p, let here := filter (fun row => row_path row = p) layouts in
    (length here <= 1)%nat \/ (forall x y, x ∈ here -> y ∈ here -> row_is_directory x = true /\ x.2 = y.2).
Proof.
  unfold coherent. cbn zeta. split; intros H p; specialize (H p); pose proof (filter_rows p) as Hf;
    pose proof (Forall2_length _ _ _ Hf) as El; (destruct H as [H|H]; [left; lia|right]).
  - intros x y Hx Hy. apply list_elem_of_lookup_1 in Hx as [i Hx], Hy as [j Hy].
    destruct (Forall2_lookup_l _ _ _ _ _ Hf Hx) as (ex & Hex & ->), (Forall2_lookup_l _ _ _ _ _ Hf Hy) as (ey & Hey & ->).
    rewrite <- entry_row_directory. apply H; by eapply list_elem_of_lookup_2.
  - intros x y Hx Hy. apply list_elem_of_lookup_1 in Hx as [i Hx], Hy as [j Hy].
    destruct (Forall2_lookup_r _ _ _ _ _ Hf Hx) as (ex & Hex & ->), (Forall2_lookup_r _ _ _ _ _ Hf Hy) as (ey & Hey & ->).
    rewrite entry_row_directory. apply (H (entry_package x, entry_layout x) (entry_package y, entry_layout y)); by eapply list_elem_of_lookup_2.
Qed.

Context (sel : list FrozenLayoutEntry) (Hpick : picked (@sort _ entry_cmp es) sel).

Lemma sel_from e : e ∈ sel -> e ∈ es.
Proof. intros He. apply (elem_of_sort (H := entry_cmp)). by apply (picked_from _ _ Hpick). Qed.

Lemma sel_for e : e ∈ es -> exists s, s ∈ sel /\ entry_path s = entry_path e /\ entry_layout s = entry_layout e /\ entry_cmp s e <> Gt.
Proof.
  intros He. destruct (picked_for _ _ Hpick e) as (s & Hs & Ep & El & Hc & _); [by apply elem_of_sort|]. by exists s.
Qed.

Lemma settled_rows : settled_entries sel <-> settled (row_files layouts).
Proof.
  split.
  - intros Hs x y Hx Hy Ha. apply list_elem_of_fmap in Hx as (rx & -> & Hx), Hy as (ry & -> & Hy).
    destruct (entry_of_row rx Hx) as (ex & Hex & Erx), (entry_of_row ry Hy) as (ey & Hey & Ery).
    destruct (row_entry rx ex Erx) as [-> Px], (row_entry ry ey Ery) as [-> Py].
    destruct (sel_for ex Hex) as (sx & Hsx & Epx & Elx & _), (sel_for ey Hey) as (sy & Hsy & Epy & _).
    specialize (Hs sx sy Hsx Hsy). rewrite Epx, Epy, Px, Py in Hs. specialize (Hs Ha).
    unfold entry_is_directory in Hs. rewrite Elx in Hs. cbn. unfold pending_kind. cbn. by destruct (lay_file (entry_layout ex)).
  - intros Hs x y Hx%sel_from Hy%sel_from Ha. rewrite !entry_row_path in Ha by done.
    rewrite entry_row_directory. unfold row_is_directory.
    rewrite (Hs (row_file (entry_package x, entry_layout x)) (row_file (entry_package y, entry_layout y))); [done|..|done];
      by apply list_elem_of_fmap_2, row_of_entry.
Qed.

Lemma within_rows :
  within_limits layouts -> within sel MAX_FROZEN_EXECUTABLE_DIRECTORY_PATHS MAX_TOTAL_FROZEN_EXECUTABLE_DIRECTORY_BYTES.
Proof.
  intros [Hp Hb]. destruct (among_size (closure_directories layouts) (directories_of sel)) as [H1 H2].
  - apply sorted_NoDup, set_collect_sorted.
  - intros p. unfold directories_of, closure_directories. rewrite !elem_of_set_collect, !elem_of_app. intros [Hq|Hq].
    + left. apply list_elem_of_bind in Hq as (e & Hq & He%sel_from). rewrite (entry_row_path e He) in Hq.
      apply list_elem_of_bind. exists (row_file (entry_package e, entry_layout e)). split; [done|]. by apply list_elem_of_fmap_2, row_of_entry.
    + right. apply list_elem_of_fmap in Hq as (e & -> & [Hd He%sel_from]%list_elem_of_filter). rewrite (entry_row_path e He).
      apply list_elem_of_fmap_2, list_elem_of_filter. rewrite <- entry_row_directory. split; [done|by apply row_of_entry].
  - split; lia.
Qed.
End rows.
End frozen.
