(* ===== verification/LayoutTheorems.v ===== *)
(** * Frozen closures: exactness and determinism *)

From S2P Require Import Prelude ByteStrings Ordered StoneRecords Vfs VfsSpec VfsReading VfsBuilder VfsTrees LayoutPlanning LayoutTrees LayoutCollisions LayoutFrozen VfsArena.
Import Indextree.

Section theorems.
Context {A : Arena (File PendingFile)} {L : Laws (File PendingFile) A}.

(** ** The selected entries as items *)

Lemma filter_unique {X} (f : X -> bytes) l p : NoDup (f <$> l) -> (length (filter (fun x => f x = p) l) <= 1)%nat.
Proof.
  induction l as [|x l IH]; [cbn; lia|]. cbn [fmap list_fmap]. intros [Hx Hl]%NoDup_cons. rewrite filter_cons.
  case_decide as E; [|by apply IH]. replace (filter (fun x => f x = p) l) with (@nil X); [cbn; lia|]. symmetry.
  destruct (filter _ l) as [|y k] eqn:Ey; [done|]. exfalso. apply Hx.
  assert (y ∈ filter (fun x => f x = p) l) as [Hy Hin]%list_elem_of_filter by (rewrite Ey; left).
  rewrite E, <- Hy. by apply list_elem_of_fmap_2.
Qed.

Lemma entry_unique (items : list PendingFile) x : NoDup (path <$> items) -> x ∈ items -> entry items (path x) = Some x.
Proof.
  intros Hn Hx. unfold entry. pose proof (filter_unique path items (path x) Hn) as Hl.
  assert (x ∈ filter (fun y => path y = path x) items) as Hin by (by apply list_elem_of_filter).
  destruct (filter _ items) as [|y [|z l]]; [by apply elem_of_nil in Hin| |cbn in Hl; lia].
  by apply list_elem_of_singleton in Hin as ->.
Qed.

Lemma push_entries sel b : try_fold push_entry b sel = map_err from_stop (try_fold push b (pending <$> sel)).
Proof.
  revert b. induction sel as [|e sel IH]; intros b; cbn [try_fold fmap list_fmap]; [done|].
  change (push_entry b e) with (map_err from_stop (push b (pending e))).
  destruct (push b (pending e)); cbn [map_err mbind result_bind]; [apply IH|done].
Qed.

Section selected.
Context (packages : list bytes) (layouts : list layout_row) (es : list FrozenLayoutEntry).
Context (Hes : Forall2 (fun row e => read_entry (order_of packages) row = Ok e) layouts es).
Context (sel : list FrozenLayoutEntry) (Hpick : picked (@sort _ entry_cmp es) sel) (Hset : settled_entries sel).

Lemma pending_path_of e : e ∈ es -> path (pending e) = entry_path e.
Proof. intros He. by rewrite (entry_row_path packages layouts es Hes e He). Qed.

Lemma sel_paths : path <$> (pending <$> sel) = entry_path <$> sel.
Proof.
  rewrite <- list_fmap_compose. apply list_fmap_ext. intros i e Hi. cbn [compose]. apply pending_path_of.
  eapply sel_from; [done|]. by eapply list_elem_of_lookup_2.
Qed.

Lemma sel_builds : exists t, build (pending <$> sel) = Ok (t, []) /\ tree_of (pending <$> sel) t.
Proof.
  apply build_spec.
  - apply Forall_fmap, Forall_forall. intros e He. eapply sel_from, row_of_entry in He as [_ He]; [|done|done].
    apply read_entry_ok in He as ([_ Had] & _). cbn. by apply (admitted_path (entry_package e, entry_layout e)).
  - intros p. left. apply filter_unique. rewrite sel_paths. apply (picked_paths _ _ Hpick).
  - intros x y Hx Hy Ha. apply list_elem_of_fmap in Hx as (ex & -> & Hx), Hy as (ey & -> & Hy).
    rewrite !pending_path_of in Ha by (by eapply sel_from). specialize (Hset ex ey Hx Hy Ha).
    unfold entry_is_directory in Hset. cbn. unfold pending_kind. cbn. by destruct (lay_file (entry_layout ex)).
Qed.

Lemma sel_closure t : tree_of (pending <$> sel) t -> closure_tree packages layouts t.
Proof.
  intros [Hlen Hpaths Hent Hord Hel]. split; [done|done| |..|done|done].
  - intros row Hrow. destruct (entry_of_row packages layouts es Hes row Hrow) as (e & He & Ee).
    destruct (sel_for es sel Hpick e He) as (s & Hs & Ep & El & Hc). exists (pending s).
    pose proof (sel_from es sel Hpick s Hs) as Hse. destruct (row_of_entry packages layouts es Hes s Hse) as [Hrs Ers].
    destruct (row_entry packages row e Ee) as [-> _]. cbn [snd fst pending pending_id pending_layout]. rewrite <- El. split_and!; [|done|done|].
    + apply Hent. exists (path (pending s)). apply entry_unique; [|by apply list_elem_of_fmap_2].
      rewrite sel_paths. apply (picked_paths _ _ Hpick).
    + intros i j Hi Hj. apply read_entry_ok in Ers as (_ & _ & _ & E1 & _), Ee as (_ & _ & _ & E2 & _). cbn in E1, E2.
      rewrite E1 in Hi. rewrite E2 in Hj. injection Hi as <-. injection Hj as <-. by apply entry_cmp_package.
  - intros x Hx. apply Hent in Hx as [p Hx]. apply entry_cases in Hx as [[Hx _]|(Hp & Hn & ->)].
    + left. apply list_elem_of_fmap in Hx as (s & -> & Hs). eapply row_of_entry; [done|]. by eapply sel_from.
    + right. exists p. split_and!; [done|..].
      * apply list_elem_of_bind in Hp as (x & Hp & Hx). apply list_elem_of_fmap in Hx as (s & -> & Hs).
        apply list_elem_of_bind. exists (row_file (entry_package s, entry_layout s)). split; [done|].
        apply list_elem_of_fmap_2. eapply row_of_entry; [done|]. by eapply sel_from.
      * intros row Hrow E. apply Hn. rewrite sel_paths. destruct (entry_of_row packages layouts es Hes row Hrow) as (e & He & Ee).
        destruct (sel_for es sel Hpick e He) as (s & Hs & Ep & _). destruct (row_entry packages row e Ee) as [_ Er].
        rewrite <- E, <- Er, <- Ep. by apply list_elem_of_fmap_2.
Qed.
End selected.

(** ** The plan *)

Lemma order_known packages p : is_Some (map_get p (order_of packages)) <-> p ∈ packages.
Proof.
  unfold order_of. rewrite map_get_key, map_collect_keys, elem_of_set_collect, <- list_fmap_compose.
  enough ((fst ∘ (fun p : nat * bytes => (p.2, p.1))) <$> imap pair packages = packages) as -> by done.
  rewrite fmap_imap. rewrite (imap_ext _ (fun _ x => x)) by done. by rewrite (imap_const (fun x => x)), list_fmap_id.
Qed.

Lemma row_fits_entry packages row :
  row_fits packages row <-> exists e, read_entry (order_of packages) row = Ok e.
Proof.
  unfold row_fits, read_entry. rewrite <- order_known. split.
  - intros [[o ->] [e He]]. cbn [ok_or mbind result_bind]. by eapply entry_new_order.
  - intros [e He]. apply bind_ok_iff in He as (o & Ho & He). apply ok_or_ok_iff in Ho. split; [by eexists|]. by eapply entry_new_order.
Qed.

Lemma coherent_perm es es' : es ≡ₚ es' -> coherent es -> coherent es'.
Proof.
  intros E H p. destruct (H p) as [Hl|Ha]; cbn zeta; [left; by rewrite <- E|right]. intros x y Hx Hy. rewrite <- E in Hx, Hy. by apply Ha.
Qed.

(** The plan gives the tree of a closure without collisions, and otherwise fails. *)
Lemma frozen_plan_cases packages layouts :
  match frozen_plan packages layouts with
  | Ok (t, reported) => reported = [] /\ collision_free packages layouts /\ closure_tree packages layouts t
  | Err _ => ~ (collision_free packages layouts /\ within_limits layouts)
  end.
Proof.
  unfold frozen_plan, plan_in. destruct (collect_entries (order_of packages) layouts []) as [(es & Ees & Hes)|(err & row & -> & Hrow & Herr)]; cycle 1.
  { intros [Hf _]. destruct (proj1 (row_fits_entry packages row) (free_fits _ _ Hf row Hrow)) as [e He]. by rewrite He in Herr. }
  assert (forall row, row ∈ layouts -> row_fits packages row) as Hfits.
  { intros row Hrow. apply row_fits_entry. destruct (entry_of_row _ _ _ Hes row Hrow) as (e & _ & He). by exists e. }
  rewrite Ees. cbn [mbind result_bind app]. assert (Forall placed (@sort _ entry_cmp es)) as Hpl by (rewrite sort_perm; by eapply collected_placed).
  pose proof (select_spec _ Hpl (sort_ascending es)) as Hsel. destruct (try_fold select_entry [] (sort es)) as [sel|err] eqn:Es; cycle 1.
  { intros [Hf _]. apply Hsel, (coherent_perm es); [by rewrite sort_perm|]. apply (coherent_rows _ _ _ Hes), (free_paths _ _ Hf). }
  destruct Hsel as [Hco Hpick]. cbn [mbind result_bind]. apply (coherent_perm _ es) in Hco; [|apply sort_perm].
  assert (forall e, e ∈ sel -> exists cs, proper cs /\ cs <> [] /\ entry_path e = render cs) as Hsite.
  { intros e He. apply placed_site. eapply Forall_forall; [exact Hpl|]. by apply (picked_from _ _ Hpick). }
  destruct (verdict sel _ _) as [[]|err] eqn:Ev; cbn [mbind result_bind]; cycle 1.
  { intros [Hf Hw]. rewrite (verdict_accepts sel) in Ev; [done|done|apply (picked_paths _ _ Hpick)|done|done|by eapply within_rows|].
    by apply (settled_rows _ _ _ Hes sel Hpick), (free_settled _ _ Hf). }
  pose proof (verdict_settled sel (picked_paths _ _ Hpick) _ _ Ev) as Hset.
  destruct (sel_builds packages layouts es Hes sel Hpick Hset) as (t & Et & Ht). unfold build in Et.
  rewrite push_entries. destruct (try_fold push builder_new (pending <$> sel)) as [b|]; [|done]. cbn [map_err mbind result_bind] in *.
  rewrite Et. cbn [map_err]. split_and!; [done| |by eapply sel_closure].
  split; [done|by apply (coherent_rows _ _ _ Hes)|by apply (settled_rows _ _ _ Hes sel Hpick)].
Qed.

(** C32: Whatever the clock shows, [frozen_vfs_until] ends because a reading was past the
    deadline, or refuses layouts that collide, do not fit a frozen root or have too many
    directories, or accepts layouts that do not collide and returns, without a report, a
    tree of exactly these layouts and the directories above them: nothing lost, nothing
    redirected, each at the path it declares. *)
Theorem frozen_exact deadline packages layouts now k :
  match (frozen_vfs_until deadline packages layouts now k).1 with
  | Ok (t, reported) => reported = [] /\ collision_free packages layouts /\ closure_tree packages layouts t
  | Err e =>
      (e = PlanError.FrozenMaterializationTimeout 600 /\ exists j, (k <= j)%nat /\ (deadline < now j)%Z)
      \/ ~ (collision_free packages layouts /\ within_limits layouts)
  end.
Proof.
  pose proof (frozen_plan_cases packages layouts) as Hp.
  destruct (gives_run deadline _ _ now k (gives_frozen deadline packages layouts)) as [->|(-> & j & Hj & Hd)].
  - destruct (frozen_plan packages layouts) as [[t reported]|e]; [done|by right].
  - left. split; [done|]. exists j. split; [lia|done].
Qed.

(** ** Determinism *)

(** Digests are 128 bits wide. *)
Definition digests_fit (layouts : list layout_row) : Prop :=
  forall row digest target, row ∈ layouts -> lay_file row.2 = LayoutFile.Regular digest target -> in_width 128 digest.

Lemma order_lookup packages p i : map_get p (order_of packages) = Some i -> packages !! i = Some p.
Proof.
  unfold order_of, map_collect. induction packages as [|q packages IH] using rev_ind; [done|].
  rewrite imap_app, fmap_app, foldl_app. cbn. rewrite map_get_insert. destruct (cmp p q) eqn:E.
  - apply cmp_eq_iff in E as ->. rewrite Nat.add_0_r. intros [= <-]. by rewrite lookup_app_r, Nat.sub_diag by lia.
  - intros Hi%IH. by apply lookup_app_l_Some.
  - intros Hi%IH. by apply lookup_app_l_Some.
Qed.

Lemma orders_inj f g kinds :
  orders f = Some kinds -> orders g = Some kinds -> LayoutFile.target f = LayoutFile.target g ->
  (forall digest target, f = LayoutFile.Regular digest target -> in_width 128 digest) ->
  (forall digest target, g = LayoutFile.Regular digest target -> in_width 128 digest) -> f = g.
Proof.
  intros Hf Hg Et Wf Wg. destruct f, g; cbn [orders LayoutFile.target] in *; try congruence. subst target0.
  specialize (Wf _ _ eq_refl). specialize (Wg _ _ eq_refl). f_equal.
  apply (hex_digits_inj 32); [exact Wf|exact Wg|congruence].
Qed.

Lemma entries_distinct packages layouts es x y :
  Forall2 (fun row e => read_entry (order_of packages) row = Ok e) layouts es -> digests_fit layouts ->
  x ∈ es -> y ∈ es -> entry_cmp x y = Eq -> x = y.
Proof.
  intros Hes Hd Hx Hy E. rewrite entry_cmp_key in E. apply cmp_eq_iff in E.
  destruct (row_of_entry _ _ _ Hes x Hx) as [Rx Ex], (row_of_entry _ _ _ Hes y Hy) as [Ry Ey].
  apply read_entry_ok in Ex as (Px & _ & _ & Ox & Kx), Ey as (Py & _ & _ & Oy & Ky).
  assert (entry_path x = entry_path y) as Ep by (unfold entry_key in E; congruence).
  pose proof (placed_target x y Px Py Ep) as Et. cbn [fst snd] in *.
  assert (lay_file (entry_layout x) = lay_file (entry_layout y)) as Ef.
  { apply (orders_inj _ _ (kind_order x, source_order x)); [done| |done|..].
    - rewrite Ky. unfold entry_key in E. congruence.
    - intros digest target. by apply (Hd _ digest target Rx).
    - intros digest target. by apply (Hd _ digest target Ry). }
  apply order_lookup in Ox, Oy. clear Px Py Kx Ky Rx Ry Hx Hy Hes Hd Et.
  destruct x as [px [u g m t f] pathx ox kx sx], y as [py [u' g' m' t' f'] pathy oy ky sy]. cbn in *.
  injection E as -> -> -> -> -> -> -> ->. subst f'. rewrite Ox in Oy. by injection Oy as ->.
Qed.

Lemma collected_omap order layouts es :
  Forall2 (fun row e => read_entry order row = Ok e) layouts es -> es = omap (fun row => result_ok (read_entry order row)) layouts.
Proof. induction 1 as [|row e layouts es He _ IH]; [done|]. cbn. by rewrite He, <- IH. Qed.

Lemma plan_perm packages layouts layouts' g :
  layouts ≡ₚ layouts' -> digests_fit layouts -> frozen_plan packages layouts = Ok g -> frozen_plan packages layouts' = Ok g.
Proof.
  intros Hperm Hd. unfold frozen_plan, plan_in.
  destruct (collect_entries (order_of packages) layouts []) as [(es & -> & Hes)|(err & row & -> & _)]; [|done].
  destruct (collect_entries (order_of packages) layouts' []) as [(es' & -> & Hes')|(err & row & -> & Hrow & Herr)]; cycle 1.
  { rewrite <- Hperm in Hrow. destruct (entry_of_row _ _ _ Hes row Hrow) as (e & _ & He). by rewrite He in Herr. }
  cbn [mbind result_bind app]. rewrite (sort_canonical (H := entry_cmp) es es'); [done| |].
  - intros x y Hx Hy. by apply (entries_distinct packages layouts es).
  - rewrite (collected_omap _ _ _ Hes), (collected_omap _ _ _ Hes'). by rewrite Hperm.
Qed.

Lemma account_one total p n :
  (0 <= total <= MAX_FROZEN_EXECUTABLE_CLOSURE_ID_BYTES)%Z ->
  account_frozen_closure_id_bytes total p = Ok n
  <-> n = (total + byte_len p)%Z /\ (total + byte_len p <= MAX_FROZEN_EXECUTABLE_CLOSURE_ID_BYTES)%Z.
Proof.
  intros Ht. assert (0 <= byte_len p)%Z by (unfold byte_len; lia). change MAX_FROZEN_EXECUTABLE_CLOSURE_ID_BYTES with 1048576%Z in *.
  unfold account_frozen_closure_id_bytes. rewrite seq_ok_iff, reject_ok_iff, Z.ltb_ge. unfold add_or_max.
  change MAX_FROZEN_EXECUTABLE_CLOSURE_ID_BYTES with 1048576%Z.
  destruct (checked_add 64 total (byte_len p)) as [m|] eqn:E.
  - apply checked_add_Some in E as [-> _]. cbn [default from_option]. unfold Datatypes.id.
    split; [intros [Hle [= <-]]; by split|]. intros [-> Hle]. by split.
  - split; [intros [Hle _]; cbn in Hle; unfold USIZE_MAX in Hle; lia|]. intros [_ Hle].
    rewrite (proj2 (checked_add_Some 64 total (byte_len p) (total + byte_len p))) in E; [done|].
    split; [done|]. change (2 ^ 64)%Z with 18446744073709551616%Z. lia.
Qed.

Lemma account_ok packages total :
  (0 <= total <= MAX_FROZEN_EXECUTABLE_CLOSURE_ID_BYTES)%Z ->
  is_ok (try_fold account_frozen_closure_id_bytes total packages) = true
  <-> (total + bytes_of packages <= MAX_FROZEN_EXECUTABLE_CLOSURE_ID_BYTES)%Z.
Proof.
  revert total. induction packages as [|p packages IH]; intros total Ht; cbn [try_fold bytes_of].
  { cbn [is_ok mret result_ret]. split; [lia|done]. }
  pose proof (bytes_of_nonneg packages). assert (0 <= byte_len p)%Z by (unfold byte_len; lia).
  pose proof (fun n => account_one total p n Ht) as H1. destruct (account_frozen_closure_id_bytes total p) as [n|]; cbn [mbind result_bind].
  - destruct (proj1 (H1 n) eq_refl) as [-> Hle]. rewrite IH by lia. lia.
  - cbn [is_ok]. split; [done|]. intros Hle. assert (total + byte_len p <= MAX_FROZEN_EXECUTABLE_CLOSURE_ID_BYTES)%Z as Hp by lia.
    by discriminate (proj2 (H1 (total + byte_len p)%Z) (conj eq_refl Hp)).
Qed.

Lemma canonical_perm packages packages' c :
  packages ≡ₚ packages' -> canonical_frozen_package_ids packages = Ok c -> canonical_frozen_package_ids packages' = Ok c.
Proof.
  intros Hperm. unfold canonical_frozen_package_ids. rewrite <- (Permutation_length Hperm).
  rewrite (sort_canonical packages packages') by (done || intros x y _ _; by apply cmp_eq_iff).
  destruct (require_frozen_executable_package_count _); [|done]. cbn [mbind result_bind].
  pose proof (account_ok packages 0 ltac:(done)) as Ha. pose proof (account_ok packages' 0 ltac:(done)) as Ha'.
  rewrite (bytes_of_perm _ _ Hperm) in Ha.
  destruct (try_fold account_frozen_closure_id_bytes 0%Z packages), (try_fold account_frozen_closure_id_bytes 0%Z packages'); cbn [is_ok mbind result_bind] in *;
    [done| |done|done]. exfalso. by discriminate (proj2 Ha' (proj1 Ha eq_refl)).
Qed.

(** C33: The tree of a frozen closure does not depend on the order the packages are named
    in, on the order their layouts are read in, nor on the clock: when one materialisation
    succeeds, every other of the same packages and layouts gives the same tree or runs out
    of time. *)
Theorem frozen_deterministic packages packages' layouts layouts' deadline deadline' now now' k k' g :
  packages ≡ₚ packages' -> layouts ≡ₚ layouts' -> digests_fit layouts ->
  ((ps ← lift (canonical_frozen_package_ids packages); frozen_vfs_until deadline ps layouts) now k).1 = Ok g ->
  let r := ((ps ← lift (canonical_frozen_package_ids packages'); frozen_vfs_until deadline' ps layouts') now' k').1 in
  r = Ok g \/ r = Err (PlanError.FrozenMaterializationTimeout 600).
Proof.
  intros Hp Hl Hd Hg r. unfold mbind, timed_bind, lift in Hg, r.
  destruct (canonical_frozen_package_ids packages) as [ps|] eqn:Ec; [|done].
  unfold r. rewrite (canonical_perm packages packages' ps Hp Ec).
  destruct (gives_run deadline _ _ now k (gives_frozen deadline ps layouts)) as [E|[E _]]; rewrite E in Hg; [|done].
  apply (plan_perm ps layouts layouts' g Hl Hd) in Hg. rewrite <- Hg.
  destruct (gives_run deadline' _ _ now' k' (gives_frozen deadline' ps layouts')) as [->|[-> _]]; [by left|by right].
Qed.
End theorems.

(** ** Two packages that share a directory

    The theorems on trees and frozen closures at a concrete closure, over the listing
    arena. *)

Definition row (package : bytes) (mode : Z) (file : LayoutFile.t) : layout_row :=
  (package, {| lay_uid := 0; lay_gid := 0; lay_mode := mode; lay_tag := 0; lay_file := file |}).

Definition nano : bytes := bstr "nano".
Definition docs : bytes := bstr "nano-docs".

Definition sample : list layout_row :=
  [row docs 0x41ed (LayoutFile.Directory (bstr "share/nano"));
   row docs 0x81a4 (LayoutFile.Regular 11 (bstr "share/nano/README"));
   row nano 0x81ed (LayoutFile.Regular 7 (bstr "bin/nano"));
   row nano 0xa1ff (LayoutFile.Symlink (bstr "nano") (bstr "bin/rnano"));
   row nano 0x41ed (LayoutFile.Directory (bstr "share/nano"))].

(** Deciding the conditions on items *)
Definition unambiguous_check {T} `{BlitFile T} (items : list T) : bool :=
  forallb (fun x => let l := filter (fun y => path y = path x) items in
    (length l <=? 1)%nat || forallb (fun y => Kind.is_directory (kind y)) l) items.

Definition settled_check {T} `{BlitFile T} (items : list T) : bool :=
  forallb (fun x => forallb (fun y => negb (bool_decide (path x ∈ ancestors (path y))) || Kind.is_directory (kind x)) items) items.

Lemma directory_kind k : Kind.is_directory k = true -> k = Kind.Directory.
Proof. by destruct k. Qed.

Lemma unambiguous_checked {T} `{BlitFile T} (items : list T) : unambiguous_check items = true -> unambiguous items.
Proof.
  intros Hc p. cbn zeta. destruct (filter (fun x => path x = p) items) as [|x l] eqn:E; [left; cbn; lia|]. rewrite <- E.
  assert (x ∈ filter (fun x => path x = p) items) as [<- Hx]%list_elem_of_filter by (rewrite E; left).
  unfold unambiguous_check in Hc. rewrite forallb_forall_iff, Forall_forall in Hc. specialize (Hc x Hx). cbn zeta in Hc.
  apply orb_true_iff in Hc as [Hl|Hd]; [left; by apply Nat.leb_le|right]. rewrite forallb_forall_iff in Hd.
  eapply Forall_impl; [exact Hd|]. intros y. apply directory_kind.
Qed.

Lemma settled_checked {T} `{BlitFile T} (items : list T) : settled_check items = true -> settled items.
Proof.
  intros Hc x y Hx Hy Ha. unfold settled_check in Hc. rewrite forallb_forall_iff, Forall_forall in Hc. specialize (Hc x Hx).
  rewrite forallb_forall_iff, Forall_forall in Hc. specialize (Hc y Hy). rewrite bool_decide_eq_true_2 in Hc by done. by apply directory_kind.
Qed.

Lemma sample_unambiguous : unambiguous (row_files sample).
Proof. apply unambiguous_checked. by vm_compute. Qed.

Lemma sample_settled : settled (row_files sample).
Proof. apply settled_checked. by vm_compute. Qed.

Lemma sample_digests : digests_fit sample.
Proof.
  intros r digest target Hr E. unfold in_width.
  assert (forallb (fun r => match lay_file r.2 with LayoutFile.Regular d _ => (0 <=? d)%Z && (d <? 2 ^ 128)%Z | _ => true end) sample = true) as Hall
    by (by vm_compute).
  rewrite forallb_forall_iff, Forall_forall in Hall. specialize (Hall r Hr). cbn beta in Hall. rewrite E in Hall. lia.
Qed.

Lemma vfs_exact_witness :
  unambiguous (row_files sample) /\ settled (row_files sample) /\ is_ok (vfs sample) = true
  /\ match vfs sample with
     | Ok (t, reported) => Forall accepted sample /\ reported = [] /\ tree_of (row_files sample) t
     | Err e => exists row, row ∈ sample /\ refused row e
     end.
Proof.
  split_and!; [apply sample_unambiguous|apply sample_settled|by vm_compute|].
  apply (vfs_exact sample); [apply sample_unambiguous|apply sample_settled].
Defined.

Definition steady_clock : nat -> Z := fun _ => 0%Z.

Lemma frozen_exact_witness :
  is_ok (frozen_vfs_until 60 [nano; docs] sample steady_clock 0).1 = true
  /\ match (frozen_vfs_until 60 [nano; docs] sample steady_clock 0).1 with
     | Ok (t, reported) => reported = [] /\ collision_free [nano; docs] sample /\ closure_tree [nano; docs] sample t
     | Err e =>
         (e = PlanError.FrozenMaterializationTimeout 600 /\ exists j, (0 <= j)%nat /\ (60 < steady_clock j)%Z)
         \/ ~ (collision_free [nano; docs] sample /\ within_limits sample)
     end.
Proof. split; [by vm_compute|]. exact (frozen_exact (A := listing_arena) (L := listing_laws) 60 [nano; docs] sample steady_clock 0). Defined.

Definition sample_run (packages : list bytes) (layouts : list layout_row) : planned (growth PendingFile) :=
  ((ps ← lift (canonical_frozen_package_ids packages); frozen_vfs_until 60 ps layouts) steady_clock 0%nat).1.

Lemma sample_runs : exists g, sample_run [nano; docs] sample = Ok g.
Proof. apply is_ok_iff. by vm_compute. Qed.

Lemma frozen_deterministic_witness :
  exists g, sample_run [nano; docs] sample = Ok g
    /\ (sample_run [docs; nano] (rev sample) = Ok g
        \/ sample_run [docs; nano] (rev sample) = Err (PlanError.FrozenMaterializationTimeout 600)).
Proof.
  destruct sample_runs as [g Hg]. exists g. split; [exact Hg|].
  apply (frozen_deterministic [nano; docs] [docs; nano] sample (rev sample) 60 60 steady_clock steady_clock 0 0 g).
  - apply perm_swap.
  - apply Permutation_rev.
  - apply sample_digests.
  - exact Hg.
Defined.

(** ** What the conditions exclude

    Outside them [vfs] can lose files.  [reparent] joins the target of a link with a
    suffix that starts with a separator, which [join] takes for an absolute path: a file
    below a link to a directory moves to the root.  [add_child_to_node] skips a second
    file of a path after [new_node] has made it the one its path leads to: what is below
    it hangs on a node that is not in the tree. *)

Lemma relocated_to_root source target rest : relocated source target (source ++ SLASH :: rest) = Ok (SLASH :: rest).
Proof. unfold relocated. by rewrite strip_prefix_app. Qed.

Definition below_a_link : list layout_row :=
  [row nano 0x41ed (LayoutFile.Directory (bstr "lib"));
   row nano 0xa1ff (LayoutFile.Symlink (bstr "lib") (bstr "lib64"));
   row docs 0x81ed (LayoutFile.Regular 7 (bstr "lib64/ld.so"))].

Example file_below_link_escapes :
  match vfs below_a_link with
  | Ok (t, []) => bool_decide (path <$> iter t = bstr <$> ["/"; "/usr"; "/usr/lib"; "/usr/lib64"; "/ld.so"])
  | _ => false
  end = true.
Proof. by vm_compute. Qed.

Definition link_over_directory : list layout_row :=
  [row nano 0x41ed (LayoutFile.Directory (bstr "a"));
   row docs 0xa1ff (LayoutFile.Symlink (bstr "x") (bstr "a"));
   row nano 0x81ed (LayoutFile.Regular 7 (bstr "a/b"))].

Example file_below_duplicate_lost :
  match vfs link_over_directory with
  | Ok (t, [TreeError.Duplicate _ _ _]) => bool_decide (path <$> iter t = bstr <$> ["/"; "/usr"; "/usr/a"]) && (len t =? 5)%nat
  | _ => false
  end = true.
Proof. by vm_compute. Qed.
