(* ===== verification/SqlTx.v ===== *)
(** * Transactions that survive their errors

    A connection of [crates/forge/src/db/mod.rs] over tables [T]: statements run one
    after the other, any of them may fail, and a commit may report an error although it
    took effect.  An operation returns its result together with the connection it
    leaves, so that operations which look at the database again after an error can be
    written as the code writes them.

    A body is [lawful] when faults can only end it early with an error:
    its behaviour is then its fault-free run ([run]) or an error, and the cases of a
    whole transaction follow ([exclusive_tx_cases]). *)

From S2P Require Import Prelude SqlDb.

(** What happens to a statement: it runs, it fails, or, for a commit, it takes effect
    and reports an error all the same. *)
Inductive fault := Runs | Fails | ReportsError.

(** [From<db::Error>] of the error types *)
Class FromDb (E : Type) := from_db : DbError.t -> E.
#[global] Instance from_db_refl : FromDb DbError.t := fun e => e.

Definition database_error {E} `{FromDb E} : E := from_db (DbError.Diesel Diesel.DatabaseError).

Definition conn (T : Type) : Type := T * list fault.
Definition tx (T E A : Type) : Type := conn T -> result E A * conn T.

#[global] Instance tx_ret T E : MRet (tx T E) := fun A a c => (Ok a, c).
#[global] Instance tx_bind T E : MBind (tx T E) := fun A B f m c =>
  match m c with (Ok a, c') => f a c' | (Err e, c') => (Err e, c') end.

Section combinators.
Context {T E : Type}.

Definition lift {A} (r : result E A) : tx T E A := fun c => (r, c).

Definition map_tx_err {E' A} (f : E -> E') (m : tx T E A) : tx T E' A := fun c =>
  let '(r, c') := m c in (map_err f r, c').

Fixpoint for_each {A} (f : A -> tx T E unit) (l : list A) : tx T E unit :=
  match l with
  | [] => mret tt
  | a :: l' => f a;; for_each f l'
  end.

Fixpoint map_each {A B} (f : A -> tx T E B) (l : list A) : tx T E (list B) :=
  match l with
  | [] => mret []
  | a :: l' => b ← f a; bs ← map_each f l'; mret (b :: bs)
  end.

Context `{FromDb E}.

Definition statement {A} (f : T -> result DbError.t (A * T)) : tx T E A := fun '(t, faults) =>
  match faults with
  | [] | Runs :: _ =>
      match f t with
      | Ok (a, t') => (Ok a, (t', tail faults))
      | Err e => (Err (from_db e), (t, tail faults))
      end
  | _ :: faults' => (Err database_error, (t, faults'))
  end.

Definition update (f : T -> T) : tx T E unit := statement (fun t => Ok (tt, f t)).
Definition select {A} (f : T -> A) : tx T E A := statement (fun t => Ok (f t, t)).

(** [COMMIT], and the rollback of the transaction begun at [t] when it fails *)
Definition commit {A} (t : T) (a : A) : tx T E A := fun '(t', faults) =>
  match faults with
  | [] | Runs :: _ => (Ok a, (t', tail faults))
  | Fails :: faults' => (Err database_error, (t, faults'))
  | ReportsError :: faults' => (Err database_error, (t', faults'))
  end.

(** [exclusive_transaction] *)
Definition exclusive_tx {A} (f : tx T E A) : tx T E A := fun '(t, faults) =>
  match faults with
  | [] | Runs :: _ =>
      match f (t, tail faults) with
      | (Ok a, c') => commit t a c'
      | (Err e, (_, faults')) => (Err e, (t, faults'))
      end
  | _ :: faults' => (Err database_error, (t, faults'))
  end.
End combinators.

(** ** The run without faults *)

Definition run {T E A} (m : tx T E A) (t : T) : result E A * T :=
  let '(r, (t', _)) := m (t, []) in (r, t').

Record lawful {T E A} (m : tx T E A) : Prop := {
  lawful_quiet t : (m (t, [])).2.2 = [];
  lawful_faults t faults :
    (exists faults', m (t, faults) = ((run m t).1, ((run m t).2, faults')))
    \/ (exists e t' faults', m (t, faults) = (Err e, (t', faults')));
}.

Create HintDb tx.

Section laws.
Context {T E : Type}.

Lemma run_quiet {A} (m : tx T E A) t : lawful m -> m (t, []) = ((run m t).1, ((run m t).2, [])).
Proof. intros [Hq _]. specialize (Hq t). unfold run. destruct (m (t, [])) as [r [t' fs]]. cbn in *. by subst. Qed.

Lemma lawful_ret {A} (a : A) : lawful (mret a : tx T E A).
Proof. split; [done|]. intros t fs. left. by exists fs. Qed.

Lemma lawful_lift {A} (r : result E A) : lawful (lift r : tx T E A).
Proof. split; [done|]. intros t fs. left. by exists fs. Qed.

Lemma run_ret {A} (a : A) t : run (mret a : tx T E A) t = (Ok a, t).
Proof. done. Qed.

Lemma run_lift {A} (r : result E A) t : run (lift r : tx T E A) t = (r, t).
Proof. done. Qed.

Lemma run_bind {A B} (m : tx T E A) (f : A -> tx T E B) t : lawful m ->
  run (m ≫= f) t = match run m t with (Ok a, t') => run (f a) t' | (Err e', t') => (Err e', t') end.
Proof.
  intros Hm. unfold run at 1, mbind, tx_bind. rewrite (run_quiet m t Hm).
  destruct (run m t) as [[a|e'] t']; reflexivity.
Qed.

Lemma lawful_bind {A B} (m : tx T E A) (f : A -> tx T E B) :
  lawful m -> (forall a, lawful (f a)) -> lawful (m ≫= f).
Proof.
  intros Hm Hf. split.
  - intros t. unfold mbind, tx_bind. rewrite (run_quiet m t Hm). destruct (run m t) as [[a|e'] t']; [apply Hf|done].
  - intros t fs. rewrite run_bind by done. unfold mbind, tx_bind.
    destruct (lawful_faults m Hm t fs) as [[fs' ->]|(e' & t' & fs' & ->)]; [|right; eauto].
    destruct (run m t) as [[a|e'] t']; [apply (Hf a)|left; eauto].
Qed.

Lemma lawful_map_err {E' A} (f : E -> E') (m : tx T E A) : lawful m -> lawful (map_tx_err f m).
Proof.
  intros Hm. split.
  - intros t. unfold map_tx_err. by rewrite (run_quiet m t Hm).
  - intros t fs. unfold map_tx_err, run. rewrite (run_quiet m t Hm). cbn.
    destruct (lawful_faults m Hm t fs) as [[fs' ->]|(e' & t' & fs' & ->)]; [left|right]; cbn; eauto.
Qed.

Lemma run_map_err {E' A} (f : E -> E') (m : tx T E A) t : lawful m ->
  run (map_tx_err f m) t = (map_err f (run m t).1, (run m t).2).
Proof. intros Hm. unfold map_tx_err, run at 1. by rewrite (run_quiet m t Hm). Qed.

Lemma lawful_for_each {A} (f : A -> tx T E unit) l : (forall a, lawful (f a)) -> lawful (for_each f l).
Proof.
  intros Hf. induction l; cbn [for_each]; [apply lawful_ret|]. by apply lawful_bind; [|intros []].
Qed.

Lemma lawful_map_each {A B} (f : A -> tx T E B) l : (forall a, lawful (f a)) -> lawful (map_each f l).
Proof.
  intros Hf. induction l; cbn [map_each]; [apply lawful_ret|].
  apply lawful_bind; [done|]. intros b. apply lawful_bind; [done|]. intros bs. apply lawful_ret.
Qed.

Context `{FromDb E}.

Lemma lawful_statement {A} (f : T -> result DbError.t (A * T)) : lawful (statement f : tx T E A).
Proof.
  split; [intros t; cbn; destruct (f t) as [[a t']|e]; done|]. intros t [|[] fs]; unfold run; cbn; [left|left|right|right];
    try destruct (f t) as [[a t']|e]; cbn; eauto.
Qed.

Lemma run_statement {A} (f : T -> result DbError.t (A * T)) t :
  run (statement f : tx T E A) t = match f t with Ok (a, t') => (Ok a, t') | Err e => (Err (from_db e), t) end.
Proof. unfold run. cbn. destruct (f t) as [[a t']|e]; done. Qed.

Lemma run_select {A} (f : T -> A) t : run (select f : tx T E A) t = (Ok (f t), t).
Proof. done. Qed.

Lemma run_update (f : T -> T) t : run (update f : tx T E unit) t = (Ok tt, f t).
Proof. done. Qed.

Lemma lawful_select {A} (f : T -> A) : lawful (select f : tx T E A).
Proof. apply lawful_statement. Qed.

Lemma lawful_update (f : T -> T) : lawful (update f : tx T E unit).
Proof. apply lawful_statement. Qed.

(** ** Transactions *)

(** A transaction runs its body without faults and keeps its tables exactly when it
    returns a value; or it reports an error and has done nothing; or, when the
    commit reported the error late, has done all of it. *)
Lemma exclusive_tx_cases {A} (m : tx T E A) t faults : lawful m ->
  exists faults',
    exclusive_tx m (t, faults) = ((run m t).1, (if (run m t).1 is Ok _ then (run m t).2 else t, faults'))
    \/ (exists e, exclusive_tx m (t, faults) = (Err e, (t, faults')))
    \/ (exists a, (run m t).1 = Ok a) /\ exclusive_tx m (t, faults) = (Err database_error, ((run m t).2, faults')).
Proof.
  intros Hm. assert (forall fs, exists fs',
    match m (t, fs) with (Ok a, c') => commit t a c' | (Err e, (_, fs')) => (Err e, (t, fs')) end
      = ((run m t).1, (if (run m t).1 is Ok _ then (run m t).2 else t, fs'))
    \/ (exists e, match m (t, fs) with (Ok a, c') => commit t a c' | (Err e, (_, fs')) => (Err e, (t, fs')) end
      = (Err e, (t, fs')))
    \/ (exists a, (run m t).1 = Ok a)
       /\ match m (t, fs) with (Ok a, c') => commit t a c' | (Err e, (_, fs')) => (Err e, (t, fs')) end
      = (Err database_error, ((run m t).2, fs'))) as Hb.
  { intros fs. destruct (lawful_faults m Hm t fs) as [[fs' ->]|(e' & t' & fs' & ->)]; [|eauto].
    destruct (run m t) as [[a|e] t']; cbn; [|eauto]. destruct fs' as [|[] fs']; cbn; eauto 6. }
  destruct faults as [|[] fs]; unfold exclusive_tx; cbn [tail]; [apply Hb|apply Hb|eauto|eauto].
Qed.

Lemma lawful_exclusive_quiet {A} (m : tx T E A) t : lawful m -> (exclusive_tx m (t, [])).2.2 = [].
Proof.
  intros Hm. unfold exclusive_tx. cbn [tail]. rewrite (run_quiet m t Hm). by destruct (run m t) as [[a|e] t'].
Qed.

(** A transaction followed by another step *)
Lemma run_exclusive_bind {A B} (m : tx T E A) (f : A -> tx T E B) t : lawful m ->
  run (exclusive_tx m ≫= f) t =
    match run m t with (Ok a, t') => run (f a) t' | (Err e, _) => (Err e, t) end.
Proof.
  intros Hm. unfold run at 1, mbind, tx_bind, exclusive_tx. cbn [tail]. rewrite (run_quiet m t Hm).
  by destruct (run m t) as [[a|e] t'].
Qed.

Lemma run_exclusive_tx {A} (m : tx T E A) t : lawful m ->
  run (exclusive_tx m) t = ((run m t).1, if (run m t).1 is Ok _ then (run m t).2 else t).
Proof.
  intros Hm. unfold exclusive_tx, run at 1. cbn [tail]. rewrite (run_quiet m t Hm).
  destruct (run m t) as [[a|e] t']; done.
Qed.
End laws.

#[export] Hint Resolve lawful_ret lawful_lift lawful_bind lawful_map_err lawful_for_each lawful_map_each
  lawful_statement lawful_select lawful_update : tx.

(** Prove that a body is lawful by its structure. *)
Ltac lawful := repeat first
  [ progress intros | apply lawful_bind | apply lawful_for_each | apply lawful_map_each | apply lawful_ret
  | apply lawful_lift | apply lawful_select | apply lawful_update | apply lawful_statement
  | match goal with
    | |- lawful (map_tx_err _ _) => apply lawful_map_err
    | |- lawful (match ?x with _ => _ end) => destruct x
    end
  | solve [auto with tx] ].

(** Step a fault-free run. *)
Ltac run_step := first
  [ rewrite run_bind by lawful
  | rewrite run_map_err by lawful
  | rewrite run_select | rewrite run_update | rewrite run_statement
  | rewrite run_ret | rewrite run_lift
  | progress cbn [fst snd] ].
