(* ===== verification/StateDb.v ===== *)
(** * The state database

    [crates/forge/src/state.rs] and [crates/forge/src/db/state]: states with their
    selections, the transition that owns a fresh state, the provenance of its generated
    metadata, and the catalog of migrated declarations.

    A table is the map of its rows by primary key, with the constraints the migrations
    declare.  [state.id] is [AUTOINCREMENT]: SQLite takes one more than the largest row
    identifier the table ever held.  Row identifiers above the range of [i32], rows that
    bypass the declared constraints, and other connections that write between two
    transactions are not modelled; chrono's range of timestamps, SHA-256, the order of
    rows without [ORDER BY] and the foreign-key pragma are parameters. *)

From S2P Require Import Prelude ByteStrings Ordered SqlDb SqlTx JournalModel.

(** ** States *)

Inductive Kind := Transaction.
#[global] Instance state_kind_eq_dec : EqDecision Kind.
Proof. solve_decision. Defined.

Definition Kind_to_string (k : Kind) : bytes := match k with Transaction => bstr "transaction" end.
Definition Kind_parse (value : bytes) : option Kind :=
  if bool_decide (value = bstr "transaction") then Some Transaction else None.

Record Selection := { package : bytes; is_explicit : bool; sel_reason : option bytes }.
#[global] Instance Selection_eq_dec : EqDecision Selection.
Proof. solve_decision. Defined.

Definition explicit (package : bytes) : Selection :=
  {| package := package; is_explicit := true; sel_reason := None |}.
Definition transitive (package : bytes) : Selection :=
  {| package := package; is_explicit := true; sel_reason := None |}.
Definition reason (self : Selection) (reason : bytes) : Selection :=
  {| package := package self; is_explicit := is_explicit self; sel_reason := Some reason |}.

Record State := {
  state_id : Z;
  state_summary : option bytes;
  state_description : option bytes;
  selections : list Selection;
  created : Z;
  state_kind : Kind;
}.
#[global] Instance State_eq_dec : EqDecision State.
Proof. solve_decision. Defined.

(** ** Tables *)

Record StateRow := {
  r_type : bytes;
  r_created : Z;
  r_summary : option bytes;
  r_description : option bytes;
  r_transition_id : option bytes;
}.

Record SelectionRow := { r_explicit : bool; r_reason : option bytes }.

(** [[u8; 32]] of the two labelled outputs *)
Record MetadataProvenance := { os_release_sha256 : bytes; system_model_sha256 : bytes }.
#[global] Instance MetadataProvenance_eq_dec : EqDecision MetadataProvenance.
Proof. solve_decision. Defined.

Record DeclarationMigrationRow := {
  dm_state_id : Z;
  dm_logical_slot : bytes;
  dm_catalog_schema_version : Z;
  dm_state_tree_marker : bytes;
  dm_original_language : bytes;
  dm_original_logical_path : bytes;
  dm_original_sha256 : bytes;
  dm_migrated_language : bytes;
  dm_migrated_blob_sha256 : bytes;
  dm_evaluation_identity : bytes;
}.
#[global] Instance DeclarationMigrationRow_eq_dec : EqDecision DeclarationMigrationRow.
Proof. solve_decision. Defined.

Record tables := {
  t_state : gmap Z StateRow;
  (** the row of [sqlite_sequence] *)
  t_sequence : Z;
  t_selections : gmap (Z * bytes) SelectionRow;
  t_provenance : gmap Z MetadataProvenance;
  t_migrations : gmap (Z * bytes) DeclarationMigrationRow;
}.

Definition empty_tables : tables :=
  {| t_state := ∅; t_sequence := 0; t_selections := ∅; t_provenance := ∅; t_migrations := ∅ |}.

Definition set_state (m : gmap Z StateRow) (t : tables) : tables :=
  {| t_state := m; t_sequence := t_sequence t; t_selections := t_selections t;
     t_provenance := t_provenance t; t_migrations := t_migrations t |}.
Definition set_selections (m : gmap (Z * bytes) SelectionRow) (t : tables) : tables :=
  {| t_state := t_state t; t_sequence := t_sequence t; t_selections := m;
     t_provenance := t_provenance t; t_migrations := t_migrations t |}.
Definition set_provenance (m : gmap Z MetadataProvenance) (t : tables) : tables :=
  {| t_state := t_state t; t_sequence := t_sequence t; t_selections := t_selections t;
     t_provenance := m; t_migrations := t_migrations t |}.
Definition set_migrations (m : gmap (Z * bytes) DeclarationMigrationRow) (t : tables) : tables :=
  {| t_state := t_state t; t_sequence := t_sequence t; t_selections := t_selections t;
     t_provenance := t_provenance t; t_migrations := m |}.

Definition DIGEST_BYTES : nat := 32.
Definition CATALOG_SCHEMA_VERSION : Z := 1.
Definition MAX_SELECTIONS_PER_STATE : Z := 32768.
Definition MAX_SELECTION_TEXT_BYTES : Z := 4 * 1024 * 1024.
Definition MAX_STATE_DATABASE_TEXT_FIELD_BYTES : Z := 64 * 1024.
Definition MAX_BOOT_HISTORY_STATES : nat := 4.

(** ** Errors *)

Inductive TransitionOwnership := Matching | Cleared | Missing | Foreign.
#[global] Instance TransitionOwnership_eq_dec : EqDecision TransitionOwnership.
Proof. solve_decision. Defined.

Record InFlightTransition := { in_flight_state : Z; in_flight_transition : TransitionId }.

Module TransitionMutationError.
Inductive t := Mismatch (state_id : Z) | Database (e : DbError.t).
End TransitionMutationError.

Module TransitionEvidenceError.
Inductive t :=
  | InvalidTransitionId (state_id : Z)
  | UnexpectedNullTransitionId (state_id : Z)
  | MultipleInFlightTransitions
  | Database (e : DbError.t).
End TransitionEvidenceError.

Module MetadataProvenanceError.
Inductive t :=
  | Missing (state_id : Z)
  | Mismatch (state_id : Z)
  | AlreadyExists (state_id : Z)
  | FreshTransitionMismatch (state_id : Z) (ownership : TransitionOwnership)
  | InvalidStoredDigestLength (state_id : Z) (field : bytes) (actual : Z)
  | TransitionEvidence (e : TransitionEvidenceError.t)
  | Database (e : DbError.t).
End MetadataProvenanceError.

Module DeclarationMigrationError.
Inductive t :=
  | Database (e : DbError.t)
  | Mismatch (state_id : Z) (logical_slot : bytes)
  | InsertRowMismatch (changed : Z).
End DeclarationMigrationError.

#[global] Instance from_db_mutation : FromDb TransitionMutationError.t := TransitionMutationError.Database.
#[global] Instance from_db_evidence : FromDb TransitionEvidenceError.t := TransitionEvidenceError.Database.
#[global] Instance from_db_provenance : FromDb MetadataProvenanceError.t := MetadataProvenanceError.Database.
#[global] Instance from_db_migration : FromDb DeclarationMigrationError.t := DeclarationMigrationError.Database.

(** [chrono::DateTime::from_timestamp] takes seconds of a limited range. *)
Class Chrono := { timestamp_in_range : Z -> bool }.

Definition Timestamp_try_from `{Chrono} (value : Z) : result DbError.t Z :=
  if timestamp_in_range value then Ok value else Err (DbError.InvalidTimestamp value).

(** [sha2::Sha256::digest] *)
Class Sha256 := { sha256_digest : bytes -> bytes }.
Class Sha256Laws (S : Sha256) : Prop := { sha256_length b : length (sha256_digest b) = DIGEST_BYTES }.

(** ** Reading states *)

(** [model::State] *)
Record StoredState := {
  stored_id : Z;
  stored_created : Z;
  stored_summary : option bytes;
  stored_description : option bytes;
  stored_kind : Kind;
  stored_transition_id : option bytes;
}.

Section state_db.
Context `{Sqlite} `{Chrono}.

Abbreviation db := (tx tables).

(** [as_select]: a conversion that fails is a deserialization error of Diesel. *)
Definition deserialize {A} (r : option A) : result DbError.t A :=
  ok_or r (DbError.Diesel Diesel.DeserializationError).

Definition stored_state (id : Z) (row : StateRow) : result DbError.t StoredState :=
  c ← deserialize (result_ok (Timestamp_try_from (r_created row)));
  k ← deserialize (Kind_parse (r_type row));
  Ok {| stored_id := id; stored_created := c; stored_summary := r_summary row;
        stored_description := r_description row; stored_kind := k;
        stored_transition_id := r_transition_id row |}.

(** [find(id).first().optional()] *)
Definition find_state {E} `{FromDb E} (id : Z) : db E (option StoredState) :=
  statement (fun t =>
    match t_state t !! id with
    | None => Ok (None, t)
    | Some row => s ← stored_state id row; Ok (Some s, t)
    end).

Definition selection_of (p : (Z * bytes) * SelectionRow) : Selection :=
  {| package := p.1.2; is_explicit := r_explicit p.2; sel_reason := r_reason p.2 |}.

(** The rows of [state_selections] of one state, in the order of the query. *)
Definition selection_rows (id : Z) (t : tables) : list ((Z * bytes) * SelectionRow) :=
  map_to_list (filter (fun p => p.1.1 = id) (t_selections t)).

Definition load_selected_state {E} `{FromDb E} (state : StoredState) : db E State :=
  rows ← select (fun t => scan (selection_rows (stored_id state) t));
  mret {| state_id := stored_id state; state_summary := stored_summary state;
          state_description := stored_description state; selections := selection_of <$> rows;
          created := stored_created state; state_kind := stored_kind state |}.

Definition load_state (id : Z) : db DbError.t State :=
  stored ← find_state id;
  match stored with
  | None => lift (Err (DbError.Diesel Diesel.NotFound))
  | Some state => load_selected_state state
  end.

Definition get (id : Z) : db DbError.t State := load_state id.

Definition list_ids : db DbError.t (list (Z * Z)) :=
  rows ← select (fun t => scan (map_to_list (t_state t)));
  lift (try_map (fun p : Z * StateRow =>
    c ← deserialize (result_ok (Timestamp_try_from (r_created p.2))); Ok (p.1, c)) rows).

(** [into_group_map] and [remove]: the selections of a state in the order of the rows *)
Definition grouped (rows : list ((Z * bytes) * SelectionRow)) (id : Z) : list Selection :=
  selection_of <$> filter (fun p => p.1.1 = id) rows.

Definition all : db DbError.t (list State) :=
  rows ← select (fun t => scan (map_to_list (t_state t)));
  states ← lift (try_map (fun p : Z * StateRow => stored_state p.1 p.2) rows);
  sels ← select (fun t => scan (map_to_list (t_selections t)));
  mret ((fun s => {| state_id := stored_id s; state_summary := stored_summary s;
          state_description := stored_description s; selections := grouped sels (stored_id s);
          created := stored_created s; state_kind := stored_kind s |}) <$> states).

(** ** Transition evidence *)

Definition parse_transition_evidence (id : Z) (raw : bytes) : result TransitionEvidenceError.t TransitionId :=
  ok_or (TransitionId_parse raw) (TransitionEvidenceError.InvalidTransitionId id).

Definition classify_ownership (id : Z) (transition : TransitionId) (stored : option (option bytes)) :
    result TransitionEvidenceError.t TransitionOwnership :=
  match stored with
  | None => Ok Missing
  | Some None => Ok Cleared
  | Some (Some raw) =>
      stored ← parse_transition_evidence id raw;
      Ok (if bool_decide (stored = transition) then Matching else Foreign)
  end.

Definition transition_ownership (id : Z) (transition : TransitionId) :
    db TransitionEvidenceError.t TransitionOwnership :=
  stored ← select (fun t => r_transition_id <$> t_state t !! id);
  lift (classify_ownership id transition stored).

(** [filter(transition_id.is_not_null()).order(id.asc()).limit(2)] *)
Definition in_flight_rows (t : tables) : list (Z * StateRow) :=
  map_to_list (filter (fun p => is_Some (r_transition_id p.2)) (t_state t)).
Definition in_flight_query (t : tables) : list (Z * option bytes) :=
  take 2 ((fun p => (p.1, r_transition_id p.2)) <$> @sort _ (cmp_on fst) (in_flight_rows t)).

Definition in_flight_of_row (p : Z * option bytes) : result TransitionEvidenceError.t InFlightTransition :=
  raw ← ok_or p.2 (TransitionEvidenceError.UnexpectedNullTransitionId p.1);
  transition ← parse_transition_evidence p.1 raw;
  Ok {| in_flight_state := p.1; in_flight_transition := transition |}.

Definition audit_in_flight_transition : db TransitionEvidenceError.t (option InFlightTransition) :=
  rows ← select in_flight_query;
  found ← lift (try_map in_flight_of_row rows);
  lift match found with
       | [] => Ok None
       | [f] => Ok (Some f)
       | _ => Err TransitionEvidenceError.MultipleInFlightTransitions
       end.

(** [filter(transition_id.eq(..)).first().optional()] *)
Definition rows_by_transition (transition : TransitionId) (t : tables) : list (Z * StateRow) :=
  scan (map_to_list (filter (fun p => r_transition_id p.2 = Some (transition_id_text transition)) (t_state t))).

Definition get_by_transition (transition : TransitionId) : db DbError.t (option State) :=
  found ← select (fun t => head (rows_by_transition transition t));
  match found with
  | None => mret None
  | Some (id, row) =>
      stored ← lift (stored_state id row);
      state ← load_selected_state stored;
      mret (Some state)
  end.

(** ** Adding a state *)

(** The [CHECK] of the column [transition_id] and its partial unique index *)
Definition transition_id_check (raw : option bytes) : bool :=
  match raw with
  | None => true
  | Some text => (length text =? 32)%nat && forallb is_lower_hex text
  end.

Definition transition_id_taken (raw : option bytes) (t : tables) : bool :=
  bool_decide (is_Some raw)
  && existsb (fun p => bool_decide (r_transition_id p.2 = raw)) (map_to_list (t_state t)).

(** [AUTOINCREMENT] *)
Definition next_row_id (t : tables) : Z := (foldr Z.max (t_sequence t) (map_to_list (t_state t)).*1 + 1)%Z.

Definition insert_state (row : StateRow) : db DbError.t Z :=
  statement (fun t =>
    reject (DbError.Diesel Diesel.CheckViolation) when (negb (transition_id_check (r_transition_id row)));;
    reject (DbError.Diesel Diesel.UniqueViolation) when (transition_id_taken (r_transition_id row) t);;
    let id := next_row_id t in
    Ok (id, {| t_state := <[id := row]> (t_state t); t_sequence := id; t_selections := t_selections t;
               t_provenance := t_provenance t; t_migrations := t_migrations t |})).

Fixpoint insert_selection_rows (id : Z) (chunk : list Selection) (m : gmap (Z * bytes) SelectionRow) :
    result DbError.t (gmap (Z * bytes) SelectionRow) :=
  match chunk with
  | [] => Ok m
  | s :: chunk' =>
      if bool_decide (is_Some (m !! (id, package s))) then Err (DbError.Diesel Diesel.UniqueViolation)
      else insert_selection_rows id chunk'
             (<[(id, package s) := {| r_explicit := is_explicit s; r_reason := sel_reason s |}]> m)
  end.

Definition insert_selections (id : Z) (chunk : list Selection) : db DbError.t unit :=
  statement (fun t =>
    reject (DbError.Diesel Diesel.ForeignKeyViolation) when
      (foreign_keys && negb (bool_decide (is_Some (t_state t !! id))));;
    m ← insert_selection_rows id chunk (t_selections t);
    Ok (tt, set_selections m t)).

(** [unixepoch()] is the default of the column [created]. *)
Definition new_state (unixepoch : Z) (summary description : option bytes) (transition : option TransitionId) : StateRow :=
  {| r_type := Kind_to_string Transaction; r_created := unixepoch; r_summary := summary;
     r_description := description; r_transition_id := transition_id_text <$> transition |}.

Definition add_rows (unixepoch : Z) (sels : list Selection) (summary description : option bytes)
    (transition : option TransitionId) : db DbError.t Z :=
  id ← insert_state (new_state unixepoch summary description transition);
  for_each (insert_selections id) (chunks (MAX_VARIABLE_NUMBER / 4) sels);;
  mret id.

Definition add_inner (unixepoch : Z) (sels : list Selection) (summary description : option bytes)
    (transition : option TransitionId) : db DbError.t State :=
  id ← exclusive_tx (add_rows unixepoch sels summary description transition);
  get id.

Definition add (unixepoch : Z) (sels : list Selection) (summary description : option bytes) : db DbError.t State :=
  add_inner unixepoch sels summary description None.

Definition add_with_transition (unixepoch : Z) (transition : TransitionId) (sels : list Selection)
    (summary description : option bytes) : db DbError.t State :=
  add_inner unixepoch sels summary description (Some transition).

(** ** Changing and removing states *)

(** [DELETE FROM state WHERE ..], which cascades when foreign keys are enforced *)
Definition delete_states (p : Z -> StateRow -> bool) (t : tables) : Z * tables :=
  let gone := filter (fun r => p r.1 r.2 = true) (t_state t) in
  let kept := filter (fun r => p r.1 r.2 = false) (t_state t) in
  let t1 := set_state kept t in
  (Z.of_nat (size gone),
   if foreign_keys then
     {| t_state := kept; t_sequence := t_sequence t;
        t_selections := filter (fun r => gone !! r.1.1 = None) (t_selections t);
        t_provenance := filter (fun r => gone !! r.1 = None) (t_provenance t);
        t_migrations := filter (fun r => gone !! r.1.1 = None) (t_migrations t) |}
   else t1).

Definition delete_state_rows {E} `{FromDb E} (p : Z -> StateRow -> bool) : db E Z :=
  statement (fun t => Ok (delete_states p t)).

Definition delete_metadata_provenance {E} `{FromDb E} (states : list Z) : db E unit :=
  update (fun t => set_provenance (filter (fun r => r.1 ∉ states) (t_provenance t)) t).

Definition delete_declaration_migrations {E} `{FromDb E} (states : list Z) : db E unit :=
  update (fun t => set_migrations (filter (fun r => r.1.1 ∉ states) (t_migrations t)) t).

Definition require_one_transition_row (changed state : Z) : result TransitionMutationError.t unit :=
  if (changed =? 1)%Z then Ok tt else Err (TransitionMutationError.Mismatch state).

(** The filter on both columns *)
Definition carries (state : Z) (transition : TransitionId) (id : Z) (row : StateRow) : bool :=
  (id =? state)%Z && bool_decide (r_transition_id row = Some (transition_id_text transition)).

Definition clear_row (row : StateRow) : StateRow :=
  {| r_type := r_type row; r_created := r_created row; r_summary := r_summary row;
     r_description := r_description row; r_transition_id := None |}.

Definition clear_transition_if_matches (state : Z) (transition : TransitionId) : db TransitionMutationError.t unit :=
  changed ← exclusive_tx (statement (fun t =>
    let hit := filter (fun r => carries state transition r.1 r.2 = true) (t_state t) in
    Ok (Z.of_nat (size hit),
        set_state (map_imap (fun id row => Some (if carries state transition id row then clear_row row else row))
                     (t_state t)) t)));
  lift (require_one_transition_row changed state).

Definition remove_transition_if_matches (state : Z) (transition : TransitionId) : db TransitionMutationError.t unit :=
  changed ← exclusive_tx (
    changed ← delete_state_rows (carries state transition);
    (if (changed =? 1)%Z then delete_metadata_provenance [state] else mret tt);;
    mret changed);
  lift (require_one_transition_row changed state).

Definition remove_chunk (chunk : list Z) : db DbError.t unit :=
  delete_state_rows (fun id _ => bool_decide (id ∈ chunk));;
  delete_metadata_provenance chunk;;
  delete_declaration_migrations chunk.

Definition batch_remove (states : list Z) : db DbError.t unit :=
  exclusive_tx (for_each remove_chunk (chunks MAX_VARIABLE_NUMBER states)).

Definition remove (state : Z) : db DbError.t unit := batch_remove [state].

(** ** Metadata provenance *)

Definition from_outputs `{Sha256} (os_release system_model : bytes) : MetadataProvenance :=
  {| os_release_sha256 := sha256_digest os_release; system_model_sha256 := sha256_digest system_model |}.

Definition matches_os_release `{Sha256} (self : MetadataProvenance) (b : bytes) : bool :=
  bool_decide (os_release_sha256 self = sha256_digest b).
Definition matches_system_model `{Sha256} (self : MetadataProvenance) (b : bytes) : bool :=
  bool_decide (system_model_sha256 self = sha256_digest b).

Definition require_outputs `{Sha256} (self : MetadataProvenance) (state : Z) (os_release system_model : bytes) :
    result MetadataProvenanceError.t unit :=
  if matches_os_release self os_release && matches_system_model self system_model then Ok tt
  else Err (MetadataProvenanceError.Mismatch state).

Definition decode_digest (state : Z) (field stored : bytes) : result MetadataProvenanceError.t bytes :=
  if (length stored =? DIGEST_BYTES)%nat then Ok stored
  else Err (MetadataProvenanceError.InvalidStoredDigestLength state field (Z.of_nat (length stored))).

Definition decode_provenance (state : Z) (stored : MetadataProvenance) :
    result MetadataProvenanceError.t MetadataProvenance :=
  o ← decode_digest state (bstr "os_release_sha256") (os_release_sha256 stored);
  s ← decode_digest state (bstr "system_model_sha256") (system_model_sha256 stored);
  Ok {| os_release_sha256 := o; system_model_sha256 := s |}.

Definition metadata_provenance_impl (state : Z) : db MetadataProvenanceError.t (option MetadataProvenance) :=
  stored ← select (fun t => t_provenance t !! state);
  match stored with
  | None => mret None
  | Some row => p ← lift (decode_provenance state row); mret (Some p)
  end.

Definition metadata_provenance (state : Z) : db MetadataProvenanceError.t (option MetadataProvenance) :=
  metadata_provenance_impl state.

Definition required_metadata_provenance (state : Z) : db MetadataProvenanceError.t MetadataProvenance :=
  p ← metadata_provenance state;
  lift (ok_or p (MetadataProvenanceError.Missing state)).

Definition require_exact_metadata_provenance (state : Z) (expected : MetadataProvenance) :
    db MetadataProvenanceError.t unit :=
  actual ← required_metadata_provenance state;
  lift (if bool_decide (actual = expected) then Ok tt else Err (MetadataProvenanceError.Mismatch state)).

Definition transition_ownership_impl (state : Z) (transition : TransitionId) :
    db MetadataProvenanceError.t TransitionOwnership :=
  stored ← select (fun t => r_transition_id <$> t_state t !! state);
  lift (map_err MetadataProvenanceError.TransitionEvidence (classify_ownership state transition stored)).

(** The [CHECK] constraints of the table *)
Definition provenance_checks (p : MetadataProvenance) : bool :=
  (length (os_release_sha256 p) =? 32)%nat && (length (system_model_sha256 p) =? 32)%nat.

Definition insert_metadata_provenance_row (state : Z) (p : MetadataProvenance) : db MetadataProvenanceError.t unit :=
  statement (fun t =>
    reject (DbError.Diesel Diesel.CheckViolation) when (negb (provenance_checks p));;
    reject (DbError.Diesel Diesel.UniqueViolation) when (bool_decide (is_Some (t_provenance t !! state)));;
    reject (DbError.Diesel Diesel.ForeignKeyViolation) when
      (foreign_keys && negb (bool_decide (is_Some (t_state t !! state))));;
    Ok (tt, set_provenance (<[state := p]> (t_provenance t)) t)).

Definition insert_fresh_body (state : Z) (transition : TransitionId) (p : MetadataProvenance) :
    db MetadataProvenanceError.t unit :=
  ownership ← transition_ownership_impl state transition;
  if negb (bool_decide (ownership = Matching)) then
    lift (Err (MetadataProvenanceError.FreshTransitionMismatch state ownership))
  else
    existing ← metadata_provenance_impl state;
    if bool_decide (is_Some existing) then lift (Err (MetadataProvenanceError.AlreadyExists state))
    else insert_metadata_provenance_row state p.

Definition insert_fresh_metadata_provenance_if_transition_matches (state : Z) (transition : TransitionId)
    (p : MetadataProvenance) : db MetadataProvenanceError.t unit :=
  exclusive_tx (insert_fresh_body state transition p).

(** ** Declaration migrations *)

Inductive DeclarationMigrationCommit := Committed | AlreadyPresent.

(** The [CHECK] constraints of the table; the columns of text are counted in characters,
    of which there are none exactly when there is no byte. *)
Definition migration_checks (row : DeclarationMigrationRow) : bool :=
  negb (bool_decide (dm_logical_slot row = [])) && (1 <=? dm_catalog_schema_version row)%Z
  && (length (dm_state_tree_marker row) =? 32)%nat && negb (bool_decide (dm_original_language row = []))
  && negb (bool_decide (dm_original_logical_path row = [])) && (length (dm_original_sha256 row) =? 32)%nat
  && negb (bool_decide (dm_migrated_language row = [])) && (length (dm_migrated_blob_sha256 row) =? 32)%nat
  && negb (bool_decide (dm_evaluation_identity row = [])).

Definition migration_key (row : DeclarationMigrationRow) : Z * bytes := (dm_state_id row, dm_logical_slot row).

(** An [INSERT] of one row changes one row. *)
Definition insert_migration (row : DeclarationMigrationRow) : db DeclarationMigrationError.t Z :=
  statement (fun t =>
    reject (DbError.Diesel Diesel.CheckViolation) when (negb (migration_checks row));;
    reject (DbError.Diesel Diesel.UniqueViolation) when (bool_decide (is_Some (t_migrations t !! migration_key row)));;
    reject (DbError.Diesel Diesel.ForeignKeyViolation) when
      (foreign_keys && negb (bool_decide (is_Some (t_state t !! dm_state_id row))));;
    Ok (1%Z, set_migrations (<[migration_key row := row]> (t_migrations t)) t)).

Definition commit_migration_body (row : DeclarationMigrationRow) :
    db DeclarationMigrationError.t DeclarationMigrationCommit :=
  existing ← select (fun t => t_migrations t !! migration_key row);
  match existing with
  | Some existing =>
      lift (if bool_decide (existing = row) then Ok AlreadyPresent
            else Err (DeclarationMigrationError.Mismatch (dm_state_id row) (dm_logical_slot row)))
  | None =>
      inserted ← insert_migration row;
      lift (if (inserted =? 1)%Z then Ok Committed else Err (DeclarationMigrationError.InsertRowMismatch inserted))
  end.

Definition commit_declaration_migration (row : DeclarationMigrationRow) :
    db DeclarationMigrationError.t DeclarationMigrationCommit :=
  exclusive_tx (commit_migration_body row).

(** [SELECT DISTINCT] *)
Definition referenced_migration_blobs : db DeclarationMigrationError.t (list bytes) :=
  select (fun t => scan (remove_dups ((fun p => dm_migrated_blob_sha256 p.2) <$> map_to_list (t_migrations t)))).

Definition declaration_migration (state : Z) (logical_slot : bytes) :
    db DeclarationMigrationError.t (option DeclarationMigrationRow) :=
  select (fun t => t_migrations t !! (state, logical_slot)).
End state_db.
