(* ===== verification/StateDbExact.v ===== *)
(** * Exact reads and removals of the state database

    [exact_archived_removal.rs], [exact_fresh_transition_removal.rs] and
    [frozen_boot_input.rs] of [crates/forge/src/db/state]: removals that compare every
    row with what the caller authenticated, look at the database again after a reported
    error, and say whether they were applied; and the bounded head and history from
    which a boot projection is made.  The faults only tests arm are left out. *)

From S2P Require Import Prelude ByteStrings Ordered SqlDb SqlTx JournalModel StateDb.

Abbreviation db := (tx tables).

(** ** Archived states *)

Module ExactArchivedRemovalError.
Inductive t :=
  | EmptyBatch
  | Duplicate (state_id : Z)
  | Changed (state_id : Z)
  | TransitionPresent (state_id : Z)
  | Ambiguous (state_id : Z) (source : t)
  | AmbiguousBatch (missing exact : nat) (source : t)
  | Reconciliation (source : t) (observation : DbError.t)
  | Database (e : DbError.t).
End ExactArchivedRemovalError.

#[global] Instance from_db_archived : FromDb ExactArchivedRemovalError.t := ExactArchivedRemovalError.Database.

Module ExactArchivedObservation.
Inductive t := Missing | Exact | Changed.
End ExactArchivedObservation.

Module ExactArchivedRemovalOutcome.
Inductive t := NotApplied | Ambiguous.
End ExactArchivedRemovalOutcome.

Definition archived_outcome (e : ExactArchivedRemovalError.t) : ExactArchivedRemovalOutcome.t :=
  match e with
  | ExactArchivedRemovalError.EmptyBatch | ExactArchivedRemovalError.Duplicate _
  | ExactArchivedRemovalError.Changed _ | ExactArchivedRemovalError.TransitionPresent _
  | ExactArchivedRemovalError.Database _ => ExactArchivedRemovalOutcome.NotApplied
  | ExactArchivedRemovalError.Ambiguous _ _ | ExactArchivedRemovalError.AmbiguousBatch _ _ _
  | ExactArchivedRemovalError.Reconciliation _ _ => ExactArchivedRemovalOutcome.Ambiguous
  end.

(** The first identifier inserted into the set a second time. *)
Fixpoint first_duplicate (unique : gset Z) (expected : list State) : option Z :=
  match expected with
  | [] => None
  | s :: expected' =>
      if bool_decide (state_id s ∈ unique) then Some (state_id s)
      else first_duplicate ({[state_id s]} ∪ unique) expected'
  end.

Section exact.
Context `{Sqlite} `{Chrono}.

Definition remove_one_archived (expected : State) : db ExactArchivedRemovalError.t unit :=
  let id := state_id expected in
  found ← find_state id;
  stored ← lift (ok_or found (ExactArchivedRemovalError.Changed id));
  if bool_decide (is_Some (stored_transition_id stored)) then
    lift (Err (ExactArchivedRemovalError.TransitionPresent id))
  else
    actual ← load_selected_state stored;
    if negb (bool_decide (actual = expected)) then lift (Err (ExactArchivedRemovalError.Changed id))
    else
      changed ← delete_state_rows (fun i row => (i =? id)%Z && bool_decide (r_transition_id row = None));
      if negb (changed =? 1)%Z then lift (Err (ExactArchivedRemovalError.Changed id))
      else delete_metadata_provenance [id].

Definition remove_archived_once (expected : list State) : db ExactArchivedRemovalError.t unit :=
  exclusive_tx (for_each remove_one_archived expected).

Definition observe_one_archived (expected : State) : db DbError.t ExactArchivedObservation.t :=
  found ← find_state (state_id expected);
  match found with
  | None => mret ExactArchivedObservation.Missing
  | Some stored =>
      if bool_decide (is_Some (stored_transition_id stored)) then mret ExactArchivedObservation.Changed
      else
        actual ← load_selected_state stored;
        mret (if bool_decide (actual = expected) then ExactArchivedObservation.Exact
              else ExactArchivedObservation.Changed)
  end.

Definition observe_exact_archived_batch (expected : list State) : db DbError.t (list ExactArchivedObservation.t) :=
  exclusive_tx (map_each observe_one_archived expected).

(** The loop over the observations: the state found changed, or the two counts. *)
Fixpoint count_observations (l : list (State * ExactArchivedObservation.t)) (missing exact : nat) : Z + nat * nat :=
  match l with
  | [] => inr (missing, exact)
  | (_, ExactArchivedObservation.Exact) :: l' => count_observations l' missing (S exact)
  | (_, ExactArchivedObservation.Missing) :: l' => count_observations l' (S missing) exact
  | (s, ExactArchivedObservation.Changed) :: _ => inl (state_id s)
  end.

Definition classify_archived (expected : list State) (source : ExactArchivedRemovalError.t)
    (observations : list ExactArchivedObservation.t) : result ExactArchivedRemovalError.t unit :=
  match count_observations (zip expected observations) 0 0 with
  | inl id => Err (ExactArchivedRemovalError.Ambiguous id source)
  | inr (missing, exact) =>
      if (missing =? length expected)%nat then Ok tt
      else if (exact =? length expected)%nat then Err source
      else Err (ExactArchivedRemovalError.AmbiguousBatch missing exact source)
  end.

(** Run a transaction whose error is a value. *)
Definition attempt {T E F A} (m : tx T E A) : tx T F (result E A) := fun c =>
  let '(r, c') := m c in (Ok r, c').

Definition reconcile_archived (expected : list State) (source : ExactArchivedRemovalError.t) :
    db ExactArchivedRemovalError.t unit :=
  observed ← attempt (observe_exact_archived_batch expected);
  lift match observed with
       | Err observation => Err (ExactArchivedRemovalError.Reconciliation source observation)
       | Ok observations => classify_archived expected source observations
       end.

Definition remove_exact_archived (expected : list State) : db ExactArchivedRemovalError.t unit :=
  match expected with
  | [] => lift (Err ExactArchivedRemovalError.EmptyBatch)
  | _ =>
    match first_duplicate ∅ expected with
    | Some id => lift (Err (ExactArchivedRemovalError.Duplicate id))
    | None =>
        outcome ← attempt (remove_archived_once expected);
        match outcome with
        | Ok _ => mret tt
        | Err (ExactArchivedRemovalError.Changed _ as source)
        | Err (ExactArchivedRemovalError.TransitionPresent _ as source) => lift (Err source)
        | Err source => reconcile_archived expected source
        end
    end
  end.
End exact.

(** ** Fresh transitions *)

(** [pre_database] and [abs_database] are the database instances the evidence is bound to. *)
Record ExactFreshTransitionPreimage := {
  pre_database : nat;
  pre_state : State;
  pre_transition_id : TransitionId;
  pre_metadata_provenance : MetadataProvenance;
}.
#[global] Instance ExactFreshTransitionPreimage_eq_dec : EqDecision ExactFreshTransitionPreimage.
Proof. solve_decision. Defined.

Record ExactFreshTransitionAbsence := {
  abs_database : nat;
  abs_state_id : Z;
  abs_transition_id : TransitionId;
}.
#[global] Instance ExactFreshTransitionAbsence_eq_dec : EqDecision ExactFreshTransitionAbsence.
Proof. solve_decision. Defined.

Module ExactFreshTransitionObservation.
Inductive t :=
  | Present (preimage : ExactFreshTransitionPreimage)
  | JointlyAbsent (absence : ExactFreshTransitionAbsence).
#[global] Instance t_eq_dec : EqDecision t.
Proof. solve_decision. Defined.
End ExactFreshTransitionObservation.
Import (notations) ExactFreshTransitionObservation.

Module FreshInspectionError.
Inductive t :=
  | ClearedTransition (state_id : Z)
  | ForeignTransition (state_id : Z) (expected actual : TransitionId)
  | UnexpectedInFlightTransition (expected_state : Z) (expected : TransitionId) (actual_state : Z) (actual : TransitionId)
  | MultipleInFlightTransitions (first second : Z)
  | UnexpectedNullTransition (state_id : Z)
  | MissingProvenance (state_id : Z)
  | OrphanProvenance (state_id : Z)
  | OrphanSelections (state_id : Z) (count : Z)
  | TransitionEvidence (e : TransitionEvidenceError.t)
  | MetadataProvenance (e : MetadataProvenanceError.t)
  | Database (e : DbError.t).
End FreshInspectionError.

Module FreshAttemptError.
Inductive t :=
  | DatabaseInstanceMismatch (state_id : Z)
  | PreimageChanged (state_id : Z)
  | AffectedRows (relation : bytes) (state_id expected actual : Z)
  | Inspection (e : FreshInspectionError.t)
  | Database (e : DbError.t).
End FreshAttemptError.

#[global] Instance from_db_inspection : FromDb FreshInspectionError.t := FreshInspectionError.Database.
#[global] Instance from_db_attempt : FromDb FreshAttemptError.t := FreshAttemptError.Database.

Definition rolled_back_or_not_started (e : FreshAttemptError.t) : bool :=
  match e with
  | FreshAttemptError.DatabaseInstanceMismatch _ | FreshAttemptError.PreimageChanged _
  | FreshAttemptError.AffectedRows _ _ _ _ | FreshAttemptError.Inspection _ => true
  | FreshAttemptError.Database _ => false
  end.

Module FreshReconciliation.
Inductive t :=
  | UncertainJointAbsence
  | ExactPreimageAfterUncertainAttempt
  | ChangedPreimage
  | Unobservable (e : FreshInspectionError.t).
End FreshReconciliation.

Module FreshRemovalError.
Inductive t :=
  | DefinitelyNotApplied (state_id : Z) (attempt : FreshAttemptError.t)
  | Ambiguous (state_id : Z) (attempt : option FreshAttemptError.t) (reconciliation : FreshReconciliation.t).
End FreshRemovalError.

Definition definitely_not_applied (e : FreshRemovalError.t) : bool :=
  match e with FreshRemovalError.DefinitelyNotApplied _ _ => true | FreshRemovalError.Ambiguous _ _ _ => false end.

Section fresh.
Context `{Sqlite} `{Chrono}.
Abbreviation observation := ExactFreshTransitionObservation.t.

Definition fresh_in_flight_of_row (p : Z * option bytes) : result FreshInspectionError.t (Z * TransitionId) :=
  raw ← ok_or p.2 (FreshInspectionError.UnexpectedNullTransition p.1);
  transition ← map_err FreshInspectionError.TransitionEvidence (parse_transition_evidence p.1 raw);
  Ok (p.1, transition).

(** The match on the at most two rows that are in flight. *)
Definition check_in_flight (id : Z) (transition : TransitionId) (l : list (Z * TransitionId)) :
    result FreshInspectionError.t unit :=
  match l with
  | [] => Ok tt
  | [(actual_id, actual)] =>
      if bool_decide (actual_id = id) && bool_decide (actual = transition) then Ok tt
      else if bool_decide (actual_id = id) then Err (FreshInspectionError.ForeignTransition id transition actual)
      else Err (FreshInspectionError.UnexpectedInFlightTransition id transition actual_id actual)
  | first :: second :: _ => Err (FreshInspectionError.MultipleInFlightTransitions first.1 second.1)
  end.

(** The transition of the stored row. *)
Definition stored_transition (id : Z) (transition : TransitionId) (stored : StoredState) :
    result FreshInspectionError.t TransitionId :=
  raw ← ok_or (stored_transition_id stored) (FreshInspectionError.ClearedTransition id);
  actual ← map_err FreshInspectionError.TransitionEvidence (parse_transition_evidence id raw);
  if negb (bool_decide (actual = transition)) then Err (FreshInspectionError.ForeignTransition id transition actual)
  else Ok actual.

Definition inspect_exact_fresh_transition_impl (self : nat) (id : Z) (transition : TransitionId) :
    db FreshInspectionError.t observation :=
  rows ← select in_flight_query;
  in_flight ← lift (try_map fresh_in_flight_of_row rows);
  lift (check_in_flight id transition in_flight);;
  stored ← find_state id;
  provenance ← map_tx_err FreshInspectionError.MetadataProvenance (metadata_provenance_impl id);
  count ← select (fun t => Z.of_nat (length (selection_rows id t)));
  match stored, provenance with
  | None, None =>
      if (count =? 0)%Z then
        mret (ExactFreshTransitionObservation.JointlyAbsent
          {| abs_database := self; abs_state_id := id; abs_transition_id := transition |})
      else lift (Err (FreshInspectionError.OrphanSelections id count))
  | None, Some _ =>
      lift (Err (if negb (count =? 0)%Z then FreshInspectionError.OrphanSelections id count
                 else FreshInspectionError.OrphanProvenance id))
  | Some _, None => lift (Err (FreshInspectionError.MissingProvenance id))
  | Some stored, Some provenance =>
      actual ← lift (stored_transition id transition stored);
      state ← load_selected_state stored;
      mret (ExactFreshTransitionObservation.Present
        {| pre_database := self; pre_state := state; pre_transition_id := actual;
           pre_metadata_provenance := provenance |})
  end.

Definition inspect_exact_fresh_transition (self : nat) (id : Z) (transition : TransitionId) :
    db FreshInspectionError.t observation :=
  exclusive_tx (inspect_exact_fresh_transition_impl self id transition).

(** Compare-and-delete of the provenance: the number of rows it removes. *)
Definition delete_exact_metadata_provenance (id : Z) (expected : MetadataProvenance) : db FreshAttemptError.t Z :=
  statement (fun t =>
    if bool_decide (t_provenance t !! id = Some expected)
    then Ok (1%Z, set_provenance (delete id (t_provenance t)) t)
    else Ok (0%Z, t)).

Definition delete_selections (id : Z) : db FreshAttemptError.t Z :=
  statement (fun t =>
    Ok (Z.of_nat (length (selection_rows id t)),
        set_selections (filter (fun p => p.1.1 <> id) (t_selections t)) t)).

Definition require_affected (relation : bytes) (id expected actual : Z) : db FreshAttemptError.t unit :=
  lift (if (actual =? expected)%Z then Ok tt else Err (FreshAttemptError.AffectedRows relation id expected actual)).

Definition remove_fresh_body (self : nat) (preimage : ExactFreshTransitionPreimage) : db FreshAttemptError.t unit :=
  let id := state_id (pre_state preimage) in
  observed ← map_tx_err FreshAttemptError.Inspection
    (inspect_exact_fresh_transition_impl self id (pre_transition_id preimage));
  lift match observed with
       | ExactFreshTransitionObservation.Present actual =>
           if bool_decide (actual = preimage) then Ok tt else Err (FreshAttemptError.PreimageChanged id)
       | ExactFreshTransitionObservation.JointlyAbsent _ => Err (FreshAttemptError.PreimageChanged id)
       end;;
  provenance_changed ← delete_exact_metadata_provenance id (pre_metadata_provenance preimage);
  require_affected (bstr "state_metadata_provenance") id 1 provenance_changed;;
  selections_changed ← delete_selections id;
  require_affected (bstr "state_selections") id (Z.of_nat (length (selections (pre_state preimage)))) selections_changed;;
  state_changed ← delete_state_rows (carries id (pre_transition_id preimage));
  require_affected (bstr "state") id 1 state_changed.

Definition remove_exact_fresh_transition_once (self : nat) (preimage : ExactFreshTransitionPreimage) :
    db FreshAttemptError.t unit :=
  exclusive_tx (remove_fresh_body self preimage).

Definition reconcile_fresh (preimage : ExactFreshTransitionPreimage)
    (observed : result FreshInspectionError.t observation) (error : option FreshAttemptError.t) :
    result FreshRemovalError.t ExactFreshTransitionAbsence :=
  let id := state_id (pre_state preimage) in
  match observed, error with
  | Ok (ExactFreshTransitionObservation.JointlyAbsent absence), None => Ok absence
  | Ok (ExactFreshTransitionObservation.JointlyAbsent _), Some source =>
      Err (if rolled_back_or_not_started source then FreshRemovalError.DefinitelyNotApplied id source
           else FreshRemovalError.Ambiguous id (Some source) FreshReconciliation.UncertainJointAbsence)
  | Ok (ExactFreshTransitionObservation.Present actual), error =>
      if bool_decide (actual = preimage) then
        Err match error with
            | Some source =>
                if rolled_back_or_not_started source then FreshRemovalError.DefinitelyNotApplied id source
                else FreshRemovalError.Ambiguous id error FreshReconciliation.ExactPreimageAfterUncertainAttempt
            | None => FreshRemovalError.Ambiguous id error FreshReconciliation.ExactPreimageAfterUncertainAttempt
            end
      else Err (FreshRemovalError.Ambiguous id error FreshReconciliation.ChangedPreimage)
  | Err source, error => Err (FreshRemovalError.Ambiguous id error (FreshReconciliation.Unobservable source))
  end.

Definition remove_exact_fresh_transition (self : nat) (preimage : ExactFreshTransitionPreimage) :
    db FreshRemovalError.t ExactFreshTransitionAbsence :=
  let id := state_id (pre_state preimage) in
  if negb (pre_database preimage =? self)%nat then
    lift (Err (FreshRemovalError.DefinitelyNotApplied id (FreshAttemptError.DatabaseInstanceMismatch id)))
  else
    tried ← attempt (remove_exact_fresh_transition_once self preimage);
    observed ← attempt (inspect_exact_fresh_transition self id (pre_transition_id preimage));
    lift (reconcile_fresh preimage observed (match tried with Ok _ => None | Err e => Some e end)).
End fresh.

(** ** The input of a boot projection *)

Module FrozenBootInputError.
Inductive t :=
  | MissingHead (state_id : Z)
  | SelectionCountLimit (state_id limit : Z)
  | SelectionTextByteLimit (state_id limit actual : Z)
  | StateTextByteLimit (state_id : Z) (field : bytes) (limit actual : Z)
  | InvalidStateKind (state_id : Z)
  | Database (e : DbError.t).
End FrozenBootInputError.

#[global] Instance from_db_frozen : FromDb FrozenBootInputError.t := FrozenBootInputError.Database.

Record FrozenBootInput := { frozen_states : list State }.

(** [order((created.desc(), id.desc()))] *)
Definition boot_key (p : Z * StateRow) : Z * Z := (- r_created p.2, - p.1)%Z.

Section frozen.
Context `{Chrono}.

Definition boot_history (head : Z) (t : tables) : list Z :=
  (take MAX_BOOT_HISTORY_STATES
    (@sort _ (cmp_on boot_key) (map_to_list (filter (fun p => p.1 <> head) (t_state t))))).*1.

(** The lengths are [length(CAST(.. AS BLOB))], which is never negative. *)
Definition validate_state_text_length (id : Z) (field : bytes) (length : option Z) (limit : Z) :
    result FrozenBootInputError.t unit :=
  match length with
  | None => Ok tt
  | Some actual =>
      if (limit <? actual)%Z then Err (FrozenBootInputError.StateTextByteLimit id field limit actual) else Ok tt
  end.

Definition byte_length (b : bytes) : Z := Z.of_nat (length b).

(** [order(package_id.asc())], as the bytes compare *)
Definition ordered_selections (id : Z) (t : tables) : list Selection :=
  selection_of <$> @sort _ (cmp_on (fun p => p.1.2)) (selection_rows id t).

Fixpoint check_selection_text (id limit : Z) (text_bytes : Z) (l : list (Z * option Z)) :
    result FrozenBootInputError.t unit :=
  match l with
  | [] => Ok tt
  | (package_bytes, reason_bytes) :: l' =>
      total ← ok_or (n ← checked_add 64 text_bytes package_bytes; checked_add 64 n (default 0%Z reason_bytes))
        (FrozenBootInputError.SelectionTextByteLimit id limit (2 ^ 64 - 1));
      if (limit <? total)%Z then Err (FrozenBootInputError.SelectionTextByteLimit id limit total)
      else check_selection_text id limit total l'
  end.

Definition load_bounded_selections (id count_limit text_limit : Z) : db FrozenBootInputError.t (list Selection) :=
  lengths ← select (fun t => take (Z.to_nat (count_limit + 1))
    ((fun s => (byte_length (package s), byte_length <$> sel_reason s)) <$> ordered_selections id t));
  if (count_limit <? Z.of_nat (length lengths))%Z then
    lift (Err (FrozenBootInputError.SelectionCountLimit id count_limit))
  else
    lift (check_selection_text id text_limit 0 lengths);;
    select (fun t => take (Z.to_nat count_limit) (ordered_selections id t)).

Definition find_row (id : Z) : db FrozenBootInputError.t StateRow :=
  statement (fun t => row ← ok_or (t_state t !! id) (DbError.Diesel Diesel.NotFound); Ok (row, t)).

Definition load_bounded_state (id count_limit text_limit field_limit : Z) : db FrozenBootInputError.t State :=
  shape ← find_row id;
  lift (validate_state_text_length id (bstr "summary") (byte_length <$> r_summary shape) field_limit);;
  lift (validate_state_text_length id (bstr "description") (byte_length <$> r_description shape) field_limit);;
  lift (validate_state_text_length id (bstr "type") (Some (byte_length (r_type shape))) field_limit);;
  row ← find_row id;
  c ← lift (map_err FrozenBootInputError.Database (Timestamp_try_from (r_created row)));
  k ← lift (ok_or (Kind_parse (r_type row)) (FrozenBootInputError.InvalidStateKind id));
  sels ← load_bounded_selections id count_limit text_limit;
  mret {| state_id := id; state_summary := r_summary row; state_description := r_description row;
          selections := sels; created := c; state_kind := k |}.

Definition frozen_boot_input_body (head count_limit text_limit field_limit : Z) :
    db FrozenBootInputError.t FrozenBootInput :=
  found ← select (fun t => t_state t !! head);
  lift (if bool_decide (is_Some found) then Ok tt else Err (FrozenBootInputError.MissingHead head));;
  history ← select (boot_history head);
  h ← load_bounded_state head count_limit text_limit field_limit;
  rest ← map_each (fun id => load_bounded_state id count_limit text_limit field_limit) history;
  mret {| frozen_states := h :: rest |}.

Definition frozen_boot_input (head : Z) : db FrozenBootInputError.t FrozenBootInput :=
  exclusive_tx (frozen_boot_input_body head MAX_SELECTIONS_PER_STATE MAX_SELECTION_TEXT_BYTES
    MAX_STATE_DATABASE_TEXT_FIELD_BYTES).
End frozen.
