(* ===== verification/StateDbInvariant.v ===== *)
(** * The constraints of the state database

    A predicate on tables that every statement keeps is kept by a whole operation,
    whatever statements fail and however a commit reports ([preserves]).  The constraints
    the migrations declare ([well_formed]) are kept by every operation that writes. *)

From S2P Require Import Prelude ByteStrings Ordered SqlDb SqlTx JournalModel StateDb StateDbExact.

(** ** Invariants through transactions *)

Definition preserves {T E A} (P : T -> Prop) (m : tx T E A) : Prop :=
  forall t faults, P t -> P (m (t, faults)).2.1.

Lemma preserves_iff {T E A} (P Q : T -> Prop) (m : tx T E A) :
  (forall t, P t <-> Q t) -> preserves P m -> preserves Q m.
Proof. intros HPQ Hm t fs Ht. apply HPQ, Hm, HPQ, Ht. Qed.

Section preserves.
Context {T E : Type} (P : T -> Prop).

Lemma preserves_ret {A} (a : A) : preserves P (mret a : tx T E A).
Proof. by intros t fs. Qed.

Lemma preserves_lift {A} (r : result E A) : preserves P (lift r : tx T E A).
Proof. by intros t fs. Qed.

Lemma preserves_bind {A B} (m : tx T E A) (f : A -> tx T E B) :
  preserves P m -> (forall a, preserves P (f a)) -> preserves P (m ≫= f).
Proof.
  intros Hm Hf t fs Ht. specialize (Hm t fs Ht). unfold mbind, tx_bind.
  destruct (m (t, fs)) as [[a|e] [t' fs']]; [by apply (Hf a)|done].
Qed.

(** The first step may establish what the second needs. *)
Lemma preserves_bind_post {A B} (Q : A -> T -> Prop) (m : tx T E A) (f : A -> tx T E B) :
  preserves P m -> (forall t fs a c, P t -> m (t, fs) = (Ok a, c) -> Q a c.1) ->
  (forall a, preserves (fun t => P t /\ Q a t) (f a)) -> preserves P (m ≫= f).
Proof.
  intros Hm HQ Hf t fs Ht. pose proof (Hm t fs Ht) as HP. pose proof (HQ t fs) as Hq. unfold mbind, tx_bind.
  destruct (m (t, fs)) as [[a|e] [t' fs']]; [|done]. apply (Hf a). split; [done|]. by apply (Hq a (t', fs') Ht).
Qed.

Lemma preserves_map_err {E' A} (f : E -> E') (m : tx T E A) : preserves P m -> preserves P (map_tx_err f m).
Proof. intros Hm t fs Ht. specialize (Hm t fs Ht). unfold map_tx_err. by destruct (m (t, fs)) as [r c]. Qed.

Lemma preserves_attempt {F A} (m : tx T E A) : preserves P m -> preserves P (attempt m : tx T F _).
Proof. intros Hm t fs Ht. specialize (Hm t fs Ht). unfold attempt. by destruct (m (t, fs)) as [r c]. Qed.

Lemma preserves_for_each {A} (f : A -> tx T E unit) l : (forall a, preserves P (f a)) -> preserves P (for_each f l).
Proof. intros Hf. induction l; cbn [for_each]; [apply preserves_ret|]. by apply preserves_bind; [|intros []]. Qed.

Lemma preserves_map_each {A B} (f : A -> tx T E B) l : (forall a, preserves P (f a)) -> preserves P (map_each f l).
Proof.
  intros Hf. induction l; cbn [map_each]; [apply preserves_ret|].
  apply preserves_bind; [done|]. intros b. apply preserves_bind; [done|]. intros bs. apply preserves_ret.
Qed.

Context `{FromDb E}.

Lemma preserves_statement {A} (f : T -> result DbError.t (A * T)) :
  (forall t a t', P t -> f t = Ok (a, t') -> P t') -> preserves P (statement f : tx T E A).
Proof. intros Hf t [|[] fs] Ht; cbn; try done; destruct (f t) as [[a t']|e] eqn:Ef; cbn; eauto. Qed.

Lemma preserves_select {A} (f : T -> A) : preserves P (select f : tx T E A).
Proof. apply preserves_statement. intros t a t' Ht [= _ <-]. done. Qed.

Lemma select_bind_ok {A B} (f : T -> A) (k : A -> tx T E B) t fs b c :
  (select f ≫= k) (t, fs) = (Ok b, c) -> exists fs', k (f t) (t, fs') = (Ok b, c).
Proof using Type. unfold mbind, tx_bind. destruct fs as [|[] fs]; cbn; eauto; done. Qed.

Lemma preserves_update (f : T -> T) : (forall t, P t -> P (f t)) -> preserves P (update f : tx T E unit).
Proof. intros Hf. apply preserves_statement. intros t a t' Ht [= _ <-]. auto. Qed.

Lemma preserves_exclusive {A} (m : tx T E A) : preserves P m -> preserves P (exclusive_tx m).
Proof.
  intros Hm t fs Ht. unfold exclusive_tx. assert (forall fs, P (match m (t, fs) with
    (Ok a, c') => commit t a c' | (Err e, (_, fs')) => (Err e, (t, fs')) end).2.1) as Hc.
  { intros fs'. specialize (Hm t fs' Ht). destruct (m (t, fs')) as [[a|e] [t' [|[] fs'']]]; done. }
  destruct fs as [|[] fs]; [apply Hc|apply Hc|done|done].
Qed.
End preserves.

Ltac preserved := repeat first
  [ progress intros | solve [eauto] | apply preserves_exclusive | apply preserves_bind | apply preserves_for_each
  | apply preserves_map_each | apply preserves_ret | apply preserves_lift | apply preserves_select
  | apply preserves_map_err | apply preserves_attempt
  | match goal with |- preserves _ (match ?x with _ => _ end) => destruct x end ].

(** ** The declared constraints *)

(** A row of a table with a foreign key to [state] *)
Definition has_parent `{Sqlite} (t : tables) (id : Z) : Prop := foreign_keys = true -> is_Some (t_state t !! id).

Record well_formed `{Sqlite} (t : tables) : Prop := {
  wf_sequence : (0 <= t_sequence t)%Z;
  wf_state id row : t_state t !! id = Some row ->
    (1 <= id <= t_sequence t)%Z /\ r_type row = bstr "transaction" /\ transition_id_check (r_transition_id row) = true;
  wf_transition id1 row1 id2 row2 : t_state t !! id1 = Some row1 -> t_state t !! id2 = Some row2 ->
    r_transition_id row1 = r_transition_id row2 -> is_Some (r_transition_id row1) -> id1 = id2;
  wf_selections key row : t_selections t !! key = Some row -> (key.1 <= t_sequence t)%Z /\ has_parent t key.1;
  wf_provenance id p : t_provenance t !! id = Some p ->
    (id <= t_sequence t)%Z /\ has_parent t id /\ provenance_checks p = true;
  wf_migrations key row : t_migrations t !! key = Some row ->
    key = migration_key row /\ has_parent t key.1 /\ migration_checks row = true;
}.

Section theorems.
Context `{Sqlite} `{Chrono}.

Lemma empty_well_formed : well_formed empty_tables.
Proof. split; cbn; try done; intros *; by rewrite lookup_empty. Qed.

Lemma foldr_max_bound (s : Z) (l : list Z) : (forall x, x ∈ l -> (x <= s)%Z) -> foldr Z.max s l = s.
Proof.
  induction l as [|x l IH]; intros Hl; cbn; [done|]. rewrite IH by (intros y Hy; apply Hl; by right).
  specialize (Hl x (list_elem_of_here _ _)). lia.
Qed.

Lemma next_row_id_sequence t : well_formed t -> next_row_id t = (t_sequence t + 1)%Z.
Proof.
  intros Hw. unfold next_row_id. rewrite foldr_max_bound; [done|]. intros x Hx.
  apply list_elem_of_fmap in Hx as ([id row] & -> & Hx). apply elem_of_map_to_list in Hx. cbn.
  by apply (wf_state t Hw) in Hx as [? _]; lia.
Qed.

Lemma next_row_fresh t : well_formed t -> t_state t !! (t_sequence t + 1)%Z = None.
Proof.
  intros Hw. destruct (t_state t !! _) eqn:E; [|done]. apply (wf_state t Hw) in E as [? _]. lia.
Qed.

Lemma transition_not_taken raw t : transition_id_taken raw t = false <->
  (is_Some raw -> forall id row, t_state t !! id = Some row -> r_transition_id row <> raw).
Proof.
  unfold transition_id_taken. rewrite andb_false_iff, bool_decide_eq_false, <- not_true_iff_false, existsb_exists.
  split.
  - intros [Hn|Hn] Hr id row Hrow Heq; [done|]. apply Hn. exists (id, row). split; [|by apply bool_decide_eq_true].
    apply list_elem_of_In. by apply elem_of_map_to_list.
  - intros Hn. destruct raw as [raw|]; [right|left; by intros [? ?]]. intros ([id row] & Hin & Heq).
    apply bool_decide_eq_true in Heq. apply list_elem_of_In, elem_of_map_to_list in Hin. by eapply Hn.
Qed.

Lemma has_parent_mono t t' : (forall i, is_Some (t_state t !! i) -> is_Some (t_state t' !! i)) ->
  forall id, has_parent t id -> has_parent t' id.
Proof. unfold has_parent. auto. Qed.

Lemma insert_state_preserves row : r_type row = bstr "transaction" ->
  preserves well_formed (insert_state row : tx tables DbError.t Z).
Proof.
  intros Hty. apply preserves_statement. intros t id t' Hw Hi. inv_ok. bool_prop.
  rewrite next_row_id_sequence in * by done. pose proof (next_row_fresh t Hw) as Hf.
  match goal with Hc : transition_id_taken _ _ = false |- _ => pose proof (proj1 (transition_not_taken _ _) Hc) as Hn end.
  pose proof (wf_sequence t Hw).
  injection Hr2 as <- <-. match goal with |- well_formed ?u => assert (forall i, has_parent t i -> has_parent u i) as Hp end.
  { apply has_parent_mono. intros i [r Hi]. cbn. destruct (decide (i = t_sequence t + 1)%Z) as [-> |]; simplify_map_eq; eauto. }
  split; cbn; [lia|..].
  - intros i r Hl. destruct (decide (i = t_sequence t + 1)%Z) as [-> |]; simplify_map_eq; [by split; [lia|]|].
    destruct (wf_state t Hw i r Hl) as (? & ? & ?). split; [lia|done].
  - intros i1 r1 i2 r2 Hl1 Hl2 Heq Hs. apply lookup_insert_Some in Hl1 as [[<- <-]|[Hi1 Hl1]];
      apply lookup_insert_Some in Hl2 as [[<- <-]|[Hi2 Hl2]]; [done| | |by eapply (wf_transition t Hw)].
    + by destruct (Hn Hs i2 r2 Hl2).
    + rewrite Heq in Hs. by destruct (Hn Hs i1 r1 Hl1).
  - intros key r Hl. destruct (wf_selections t Hw key r Hl) as [? Hpar]. split; [lia|by apply Hp].
  - intros i p Hl. destruct (wf_provenance t Hw i p Hl) as (? & Hpar & ?). by split_and!; [lia|apply Hp|].
  - intros key r Hl. destruct (wf_migrations t Hw key r Hl) as (? & Hpar & ?). by split_and!; [|apply Hp|].
Qed.

Lemma insert_selection_rows_lookup id chunk m m' : insert_selection_rows id chunk m = Ok m' ->
  forall key row, m' !! key = Some row -> m !! key = Some row \/ key.1 = id.
Proof.
  revert m. induction chunk as [|s chunk IH]; intros m Hi key row Hr; cbn in Hi; [injection Hi as <-; auto|].
  case_bool_decide; [done|]. destruct (IH _ Hi _ _ Hr) as [Hk|?]; [|auto].
  apply lookup_insert_Some in Hk as [[<- _]|[_ Hk]]; auto.
Qed.

Lemma insert_selections_preserves id chunk :
  preserves (fun t => well_formed t /\ (is_Some (t_state t !! id))) (insert_selections id chunk : tx tables DbError.t unit).
Proof.
  apply preserves_statement. intros t [] t' [Hw Hid] Hi. inv_ok. bool_prop. cbn. split; [|done].
  split; try apply Hw. cbn. intros key row Hk.
  destruct (insert_selection_rows_lookup _ _ _ _ ltac:(eassumption) _ _ Hk) as [Hold| ->]; [by apply (wf_selections t Hw _ row)|].
  destruct Hid as [r Hid]. split; [apply (wf_state t Hw) in Hid as [? _]; lia|]. by intros _; exists r.
Qed.

Lemma insert_state_present row t fs id c : insert_state row (t, fs) = (Ok id, c) -> is_Some (t_state c.1 !! id).
Proof.
  unfold insert_state, statement. destruct fs as [|[] fs]; try done;
    (destruct (reject_if _ _ ≫= _) as [[i t']|e] eqn:Ei; [|done]); intros [= -> <-]; inv_ok;
    cbn; rewrite lookup_insert_eq; eauto.
Qed.

Lemma add_rows_preserves now sels summary description transition :
  preserves well_formed (add_rows now sels summary description transition).
Proof.
  unfold add_rows. apply (preserves_bind_post _ (fun id t => is_Some (t_state t !! id))).
  - by apply insert_state_preserves.
  - intros t fs id c _. apply insert_state_present.
  - intros id. intros t fs Ht. apply (preserves_bind (fun t => well_formed t /\ is_Some (t_state t !! id))); [..|done].
    + apply preserves_for_each. intros chunk. apply insert_selections_preserves.
    + intros []. apply preserves_ret.
Qed.

Lemma add_inner_preserves now sels summary description transition :
  preserves well_formed (add_inner now sels summary description transition).
Proof.
  unfold add_inner. apply preserves_bind; [apply preserves_exclusive, add_rows_preserves|].
  intros id. unfold get, load_state, find_state, load_selected_state. preserved.
  apply preserves_statement. intros t a t' Ht Hf. destruct (t_state t !! id); inv_ok; by simplify_eq.
Qed.

(** Deleting rows of [state] keeps the constraints: a cascade leaves no orphans. *)
Lemma delete_states_well_formed p t : well_formed t -> well_formed (delete_states p t).2.
Proof.
  intros Hw. unfold delete_states. cbn [snd]. set (gone := filter (fun q : Z * StateRow => p q.1 q.2 = true) (t_state t)).
  assert (forall i r, filter (fun q : Z * StateRow => p q.1 q.2 = false) (t_state t) !! i = Some r -> t_state t !! i = Some r) as Hk.
  { intros i r. rewrite map_lookup_filter_Some. naive_solver. }
  assert (forall i, has_parent t i -> gone !! i = None -> foreign_keys = true ->
    is_Some (filter (fun q : Z * StateRow => p q.1 q.2 = false) (t_state t) !! i)) as Hpar.
  { intros i Hi Hg Hfk. destruct (Hi Hfk) as [r Hr]. exists r. apply map_lookup_filter_Some. split; [done|]. cbn.
    destruct (p i r) eqn:Ep; [|done]. assert (gone !! i = Some r) by (by apply map_lookup_filter_Some). congruence. }
  destruct foreign_keys eqn:Hfk; split; cbn; try apply Hw; intros *.
  - intros Hl%Hk. by apply (wf_state t Hw).
  - intros Hl1%Hk Hl2%Hk. by apply (wf_transition t Hw).
  - intros [Hl Hg]%map_lookup_filter_Some. destruct (wf_selections t Hw _ _ Hl). split; [done|]. intros _. auto.
  - intros [Hl Hg]%map_lookup_filter_Some. destruct (wf_provenance t Hw _ _ Hl) as (? & ? & ?). split_and!; try done. intros _. auto.
  - intros [Hl Hg]%map_lookup_filter_Some. destruct (wf_migrations t Hw _ _ Hl) as (? & ? & ?). split_and!; try done. intros _. auto.
  - intros Hl%Hk. by apply (wf_state t Hw).
  - intros Hl1%Hk Hl2%Hk. by apply (wf_transition t Hw).
  - intros Hl. destruct (wf_selections t Hw _ _ Hl). split; [done|]. intros ?; congruence.
  - intros Hl. destruct (wf_provenance t Hw _ _ Hl) as (? & ? & ?). split_and!; try done. intros ?; congruence.
  - intros Hl. destruct (wf_migrations t Hw _ _ Hl) as (? & ? & ?). split_and!; try done. intros ?; congruence.
Qed.

Lemma delete_state_rows_preserves {E} `{FromDb E} p : preserves well_formed (delete_state_rows p : tx tables E Z).
Proof. apply preserves_statement. intros t a t' Hw [= _ <-]. by apply delete_states_well_formed. Qed.

Lemma drop_provenance_well_formed m t : m ⊆ t_provenance t -> well_formed t -> well_formed (set_provenance m t).
Proof.
  intros Hm Hw. split; cbn; try apply Hw. intros id p Hl. by apply (wf_provenance t Hw), (lookup_weaken _ _ _ _ Hl).
Qed.

Lemma drop_migrations_well_formed m t : m ⊆ t_migrations t -> well_formed t -> well_formed (set_migrations m t).
Proof.
  intros Hm Hw. split; cbn; try apply Hw. intros key r Hl. by apply (wf_migrations t Hw), (lookup_weaken _ _ _ _ Hl).
Qed.

Lemma drop_selections_well_formed m t : m ⊆ t_selections t -> well_formed t -> well_formed (set_selections m t).
Proof.
  intros Hm Hw. split; cbn; try apply Hw. intros key r Hl. by apply (wf_selections t Hw _ r), (lookup_weaken _ _ _ _ Hl).
Qed.

Lemma delete_metadata_provenance_preserves {E} `{FromDb E} ids :
  preserves well_formed (delete_metadata_provenance ids : tx tables E unit).
Proof. apply preserves_update. intros t. apply drop_provenance_well_formed, map_filter_subseteq. Qed.

Lemma delete_declaration_migrations_preserves {E} `{FromDb E} ids :
  preserves well_formed (delete_declaration_migrations ids : tx tables E unit).
Proof. apply preserves_update. intros t. apply drop_migrations_well_formed, map_filter_subseteq. Qed.

Lemma find_state_preserves {E} `{FromDb E} P id : preserves P (find_state id : tx tables E _).
Proof. apply preserves_statement. intros t a t' Ht Hf. destruct (t_state t !! id); inv_ok; by simplify_eq. Qed.

Lemma load_selected_state_preserves {E} `{FromDb E} P s : preserves P (load_selected_state s : tx tables E _).
Proof. unfold load_selected_state. preserved. Qed.

Lemma clear_transition_preserves state transition : preserves well_formed (clear_transition_if_matches state transition).
Proof.
  unfold clear_transition_if_matches. preserved. apply preserves_statement. intros t n t' Hw [= <- <-].
  set (f := fun id row => Some (if carries state transition id row then clear_row row else row)).
  assert (forall i r, map_imap f (t_state t) !! i = Some r -> exists r0, t_state t !! i = Some r0
    /\ r_type r = r_type r0 /\ (r_transition_id r = r_transition_id r0 \/ r_transition_id r = None)) as Hm.
  { intros i r. rewrite map_lookup_imap. destruct (t_state t !! i) as [r0|]; [|done]. cbn. intros [= <-].
    exists r0. destruct (carries _ _ _ _); cbn; auto. }
  assert (forall i, has_parent t i -> has_parent (set_state (map_imap f (t_state t)) t) i) as Hp.
  { apply has_parent_mono. intros i [r Hi]. cbn. rewrite map_lookup_imap, Hi. cbn. eauto. }
  split; cbn; try apply Hw.
  - intros i r (r0 & Hl & -> & Ht)%Hm. destruct (wf_state t Hw i r0 Hl) as (? & ? & ?). split_and!; try done; try lia.
    by destruct Ht as [-> | ->].
  - intros i1 r1 i2 r2 (r01 & Hl1 & _ & Ht1)%Hm (r02 & Hl2 & _ & Ht2)%Hm Heq Hs.
    destruct Ht1 as [Ht1|Ht1]; [|rewrite Ht1 in Hs; by destruct Hs].
    destruct Ht2 as [Ht2|Ht2]; [|rewrite Heq, Ht2 in Hs; by destruct Hs].
    apply (wf_transition t Hw i1 r01 i2 r02); try done; [congruence|by rewrite <- Ht1].
  - intros key r Hl. destruct (wf_selections t Hw _ _ Hl). auto.
  - intros i q Hl. destruct (wf_provenance t Hw _ _ Hl) as (? & ? & ?). auto.
  - intros key r Hl. destruct (wf_migrations t Hw _ _ Hl) as (? & ? & ?). auto.
Qed.

Lemma remove_transition_preserves state transition : preserves well_formed (remove_transition_if_matches state transition).
Proof.
  pose proof @delete_state_rows_preserves. pose proof @delete_metadata_provenance_preserves.
  unfold remove_transition_if_matches. preserved.
Qed.

Lemma batch_remove_preserves states : preserves well_formed (batch_remove states).
Proof.
  pose proof @delete_state_rows_preserves. pose proof @delete_metadata_provenance_preserves.
  pose proof @delete_declaration_migrations_preserves. unfold batch_remove, remove_chunk. preserved.
Qed.

Lemma classify_matching id transition stored : classify_ownership id transition stored = Ok Matching <->
  stored = Some (Some (transition_id_text transition)) /\ TransitionId_parse (transition_id_text transition) = Some transition.
Proof.
  unfold classify_ownership, parse_transition_evidence. destruct stored as [[raw|]|]; [|naive_solver..].
  unfold TransitionId_parse. split.
  - intros Hc. inv_ok. destruct (negb _ || negb _) eqn:Eb; simplify_eq. case_bool_decide; [|done]. subst. cbn. by rewrite Eb.
  - intros [[= ->] Hp]. destruct (negb _ || negb _) eqn:Eb; [done|]. cbn. rewrite bool_decide_eq_true_2; [done|]. by injection Hp.
Qed.

Lemma ownership_matching state transition t fs c :
  transition_ownership_impl state transition (t, fs) = (Ok Matching, c) -> c.1 = t /\ is_Some (t_state t !! state).
Proof.
  intros [fs' Ho]%select_bind_ok. injection Ho as Ho <-. split; [done|].
  destruct (t_state t !! state) eqn:Ec; [by eexists|]. cbn in Ho. done.
Qed.

Lemma insert_provenance_preserves state p :
  preserves (fun t => well_formed t /\ is_Some (t_state t !! state)) (insert_metadata_provenance_row state p).
Proof.
  apply preserves_statement. intros t [] t' [Hw [row Hrow]] Hi. inv_ok. bool_prop. cbn. split; [|by exists row].
  split; cbn; try apply Hw. intros id q [[<- <-]|[_ Hl]]%lookup_insert_Some; [|by apply (wf_provenance t Hw)].
  split_and!; [apply (wf_state t Hw) in Hrow as [? _]; lia|by intros _; exists row|done].
Qed.

Lemma insert_fresh_preserves state transition p :
  preserves well_formed (insert_fresh_metadata_provenance_if_transition_matches state transition p).
Proof.
  unfold insert_fresh_metadata_provenance_if_transition_matches, insert_fresh_body. apply preserves_exclusive.
  apply (preserves_bind_post _ (fun o t => o = Matching -> is_Some (t_state t !! state))).
  { unfold transition_ownership_impl. preserved. }
  { intros t fs o c _ Ho ->. by apply ownership_matching in Ho as [-> ?]. }
  intros o. destruct (decide (o = Matching)) as [-> |Hne]; [|rewrite bool_decide_eq_false_2 by done; apply preserves_lift].
  rewrite bool_decide_eq_true_2 by done. cbn.
  apply (preserves_iff (fun t => well_formed t /\ is_Some (t_state t !! state))); [naive_solver|]. apply preserves_bind.
  - unfold metadata_provenance_impl. preserved.
  - intros existing. preserved. apply insert_provenance_preserves.
Qed.

Lemma commit_migration_preserves row : preserves well_formed (commit_declaration_migration row).
Proof.
  unfold commit_declaration_migration, commit_migration_body. preserved.
  apply preserves_statement. intros t n t' Hw Hi. inv_ok. bool_prop. split; cbn; try apply Hw.
  intros key r [[<- <-]|[_ Hl]]%lookup_insert_Some; [|by apply (wf_migrations t Hw)].
  split_and!; [done| |done]. unfold has_parent. cbn. intros Hfk. rewrite Hfk in *. cbn in *. by bool_prop.
Qed.

Lemma remove_exact_archived_preserves expected : preserves well_formed (remove_exact_archived expected).
Proof.
  pose proof @delete_state_rows_preserves. pose proof @delete_metadata_provenance_preserves.
  pose proof @find_state_preserves. pose proof @load_selected_state_preserves.
  unfold remove_exact_archived, remove_archived_once, remove_one_archived, reconcile_archived,
    observe_exact_archived_batch, observe_one_archived. preserved.
Qed.

Lemma inspect_impl_preserves P self id transition : preserves P (inspect_exact_fresh_transition_impl self id transition).
Proof.
  pose proof @find_state_preserves. pose proof @load_selected_state_preserves.
  unfold inspect_exact_fresh_transition_impl, metadata_provenance_impl. preserved.
Qed.

Lemma remove_exact_fresh_preserves self preimage : preserves well_formed (remove_exact_fresh_transition self preimage).
Proof.
  pose proof @delete_state_rows_preserves. pose proof inspect_impl_preserves.
  unfold remove_exact_fresh_transition, remove_exact_fresh_transition_once, remove_fresh_body,
    inspect_exact_fresh_transition, require_affected, delete_exact_metadata_provenance, delete_selections.
  preserved; apply preserves_statement.
  - intros t n t' Hw. destruct (bool_decide _); intros [= <- <-]; [|done]. by apply drop_provenance_well_formed; [apply delete_subseteq|].
  - intros t n t' Hw [= <- <-]. by apply drop_selections_well_formed; [apply map_filter_subseteq|].
Qed.
End theorems.

(** ** Sequences of operations *)

(** The operations that write, with their arguments; [unixepoch] is the time of the call
    and [self] the database instance. *)
Inductive db_operation :=
  | Add (unixepoch : Z) (sels : list Selection) (summary description : option bytes) (transition : option TransitionId)
  | ClearTransition (state : Z) (transition : TransitionId)
  | RemoveTransition (state : Z) (transition : TransitionId)
  | BatchRemove (states : list Z)
  | InsertProvenance (state : Z) (transition : TransitionId) (p : MetadataProvenance)
  | CommitMigration (row : DeclarationMigrationRow)
  | RemoveArchived (expected : list State)
  | RemoveFresh (self : nat) (preimage : ExactFreshTransitionPreimage).

Definition perform `{Sqlite} `{Chrono} (c : conn tables) (o : db_operation) : conn tables :=
  match o with
  | Add now sels summary description transition => (add_inner now sels summary description transition c).2
  | ClearTransition state transition => (clear_transition_if_matches state transition c).2
  | RemoveTransition state transition => (remove_transition_if_matches state transition c).2
  | BatchRemove states => (batch_remove states c).2
  | InsertProvenance state transition p => (insert_fresh_metadata_provenance_if_transition_matches state transition p c).2
  | CommitMigration row => (commit_declaration_migration row c).2
  | RemoveArchived expected => (remove_exact_archived expected c).2
  | RemoveFresh self preimage => (remove_exact_fresh_transition self preimage c).2
  end.

Lemma perform_well_formed `{Sqlite} `{Chrono} c o : well_formed c.1 -> well_formed (perform c o).1.
Proof.
  destruct c as [t fs]. cbn [fst]. intros Hw. destruct o; cbn [perform].
  - by apply add_inner_preserves.
  - by apply clear_transition_preserves.
  - by apply remove_transition_preserves.
  - by apply batch_remove_preserves.
  - by apply insert_fresh_preserves.
  - by apply commit_migration_preserves.
  - by apply remove_exact_archived_preserves.
  - by apply remove_exact_fresh_preserves.
Qed.

