(* ===== verification/StateDbTheorems.v ===== *)
(** * Theorems about the state database

    Adding a state adds exactly that state ([add_exact]); the audit finds exactly the
    transitions in flight ([audit_exact]); and the exact removals answer truthfully: a
    removal that reports success has removed, one that reports that nothing was applied
    has applied nothing, and no other state is ever touched ([fresh_removal_truthful],
    [archived_removal_truthful]). *)

From S2P Require Import Prelude ByteStrings Ordered SqlDb SqlTx JournalModel StateDb StateDbExact StateDbInvariant.

(** ** Reads *)

Section reads.
Context {T E : Type}.

(** A read leaves the tables as they are, faults or not. *)
Definition reads {A} (m : tx T E A) : Prop := forall u, preserves (fun t => t = u) m.

Lemma reads_tables {A} (m : tx T E A) t faults : reads m -> (m (t, faults)).2.1 = t.
Proof. intros Hm. by apply Hm. Qed.

Lemma reads_run {A} (m : tx T E A) t : reads m -> (run m t).2 = t.
Proof. intros Hm. pose proof (Hm t t []) as Ht. unfold run. destruct (m (t, [])) as [r [t' fs]]. by apply Ht. Qed.
End reads.

(** ** What an operation leaves untouched *)

Definition same_state (id : Z) (t t' : tables) : Prop :=
  t_state t' !! id = t_state t !! id
  /\ (forall p, t_selections t' !! (id, p) = t_selections t !! (id, p))
  /\ t_provenance t' !! id = t_provenance t !! id
  /\ (forall slot, t_migrations t' !! (id, slot) = t_migrations t !! (id, slot)).

#[global] Instance same_state_equivalence id : Equivalence (same_state id).
Proof.
  split; unfold same_state.
  - by intros t.
  - intros t u (? & ? & ? & ?). by split_and!.
  - intros t u v (? & ? & ? & ?) (? & ? & ? & ?). split_and!; intros; congruence.
Qed.

Section theorems.
Context `{Sqlite} `{Chrono}.

Lemma selection_rows_same id t t' : same_state id t t' -> selection_rows id t' = selection_rows id t.
Proof.
  intros (_ & Hs & _). unfold selection_rows. f_equal. apply map_eq. intros [i p].
  apply option_eq. intros row. rewrite !map_lookup_filter_Some. cbn.
  split; intros [Hl <-]; (split; [|done]); [by rewrite <- Hs|by rewrite Hs].
Qed.

Lemma elem_of_selection_rows id t p row :
  (p, row) ∈ selection_rows id t <-> t_selections t !! p = Some row /\ p.1 = id.
Proof. unfold selection_rows. by rewrite elem_of_map_to_list, map_lookup_filter_Some. Qed.

Lemma find_state_lawful {E} `{FromDb E} id : lawful (find_state id : tx tables E _).
Proof. apply lawful_statement. Qed.

Lemma load_selected_lawful {E} `{FromDb E} s : lawful (load_selected_state s : tx tables E _).
Proof. unfold load_selected_state. lawful. Qed.
#[local] Hint Resolve find_state_lawful load_selected_lawful : tx.

Lemma run_find_state {E} `{FromDb E} id t : run (find_state id : tx tables E _) t =
  (match t_state t !! id with
   | None => Ok None
   | Some row => match stored_state id row with Ok s => Ok (Some s) | Err e => Err (from_db e) end
   end, t).
Proof.
  unfold find_state. rewrite run_statement. destruct (t_state t !! id) as [row|]; [|done].
  destruct (stored_state id row); done.
Qed.

Definition selected (s : StoredState) (t : tables) : State :=
  {| state_id := stored_id s; state_summary := stored_summary s; state_description := stored_description s;
     selections := selection_of <$> scan (selection_rows (stored_id s) t); created := stored_created s;
     state_kind := stored_kind s |}.

Lemma run_load_selected {E} `{FromDb E} s t : run (load_selected_state s : tx tables E _) t = (Ok (selected s t), t).
Proof. done. Qed.

Lemma selected_same s t t' : same_state (stored_id s) t t' -> selected s t' = selected s t.
Proof. intros Hs. unfold selected. by rewrite (selection_rows_same _ _ _ Hs). Qed.

Lemma stored_state_id id row s : stored_state id row = Ok s -> stored_id s = id.
Proof. unfold stored_state. intros Hs. by inv_ok. Qed.

Lemma stored_state_transition id row s : stored_state id row = Ok s -> stored_transition_id s = r_transition_id row.
Proof. unfold stored_state. intros Hs. by inv_ok. Qed.

(** ** Adding *)

Definition row_of (s : Selection) : SelectionRow := {| r_explicit := is_explicit s; r_reason := sel_reason s |}.

Definition selection_entries (id : Z) (sels : list Selection) : list ((Z * bytes) * SelectionRow) :=
  (fun s => ((id, package s), row_of s)) <$> sels.

Lemma insert_selection_rows_app id a b m :
  insert_selection_rows id (a ++ b) m = (m' ← insert_selection_rows id a m; insert_selection_rows id b m').
Proof. revert m. induction a as [|s a IH]; intros m; cbn; [done|]. case_bool_decide; [done|]. apply IH. Qed.

Lemma insert_selection_rows_spec id sels m : NoDup (package <$> sels) ->
  (forall p, m !! (id, p) = None) ->
  insert_selection_rows id sels m = Ok (list_to_map (selection_entries id sels) ∪ m).
Proof.
  intros Hn Hm. assert (forall s, s ∈ sels -> m !! (id, package s) = None) as Hs by auto. clear Hm. revert m Hs.
  induction sels as [|s sels IH]; intros m Hs; cbn [insert_selection_rows]; [f_equal; symmetry; apply (left_id_L ∅ (∪))|].
  apply NoDup_cons in Hn as [Hni Hn]. rewrite bool_decide_eq_false_2 by (rewrite Hs by left; by intros []).
  rewrite IH; [|done|]. 
  - f_equal. cbn. by rewrite <- insert_union_l, insert_union_r; [|apply not_elem_of_list_to_map_1; set_solver].
  - intros s' Hs'. rewrite lookup_insert_ne; [apply Hs; by right|]. intros [= Heq]. apply Hni. rewrite Heq. set_solver.
Qed.

Definition with_state (t : tables) (row : StateRow) (sels : list Selection) : tables :=
  let id := (t_sequence t + 1)%Z in
  {| t_state := <[id := row]> (t_state t); t_sequence := id;
     t_selections := list_to_map (selection_entries id sels) ∪ t_selections t;
     t_provenance := t_provenance t; t_migrations := t_migrations t |}.

Lemma add_rows_lawful now sels s d tr : lawful (add_rows now sels s d tr).
Proof. unfold add_rows, insert_state, insert_selections. lawful. Qed.

(** The chunks insert what one statement for all of them would. *)
Lemma run_insert_chunks id (ll : list (list Selection)) t : is_Some (t_state t !! id) ->
  forall m, insert_selection_rows id (concat ll) (t_selections t) = Ok m ->
  run (for_each (insert_selections id) ll) t = (Ok tt, set_selections m t).
Proof.
  intros Hid. revert t Hid. induction ll as [|c ll IH]; intros t Hid m Hm; cbn [concat for_each] in *.
  { injection Hm as <-. by destruct t. }
  rewrite insert_selection_rows_app in Hm. apply bind_ok_iff in Hm as (m1 & Hc & Hm).
  rewrite run_bind by (unfold insert_selections; lawful). unfold insert_selections at 1.
  rewrite run_statement, (bool_decide_eq_true_2 _ Hid), andb_false_r, Hc. cbn.
  rewrite (IH (set_selections m1 t) Hid m Hm). done.
Qed.

(** A transition another row does not carry, in canonical text. *)
Definition transition_free (tr : option TransitionId) (t : tables) : Prop :=
  forall id, tr = Some id -> TransitionId_parse (transition_id_text id) = Some id
    /\ forall i row, t_state t !! i = Some row -> r_transition_id row <> Some (transition_id_text id).

Lemma canonical_check id : TransitionId_parse (transition_id_text id) = Some id ->
  transition_id_check (Some (transition_id_text id)) = true.
Proof.
  unfold TransitionId_parse, transition_id_check, TransitionId_TEXT_LENGTH. destruct (length _ =? 32)%nat; [|done].
  by destruct (forallb _ _).
Qed.

Lemma check_canonical raw : transition_id_check (Some raw) = true ->
  TransitionId_parse raw = Some {| transition_id_text := raw |}.
Proof.
  unfold TransitionId_parse, transition_id_check, TransitionId_TEXT_LENGTH. destruct (length _ =? 32)%nat; [|done].
  cbn. by intros ->.
Qed.

Lemma chunk_size : (0 < MAX_VARIABLE_NUMBER / 4)%nat /\ (0 < MAX_VARIABLE_NUMBER)%nat.
Proof. rewrite <- !Nat.ltb_lt. by vm_compute. Qed.

Lemma run_add_rows now sels s d tr t : well_formed t -> NoDup (package <$> sels) -> transition_free tr t ->
  run (add_rows now sels s d tr) t = (Ok (t_sequence t + 1)%Z, with_state t (new_state now s d tr) sels).
Proof.
  intros Hw Hn Htr. unfold add_rows. rewrite run_bind by apply lawful_statement.
  unfold insert_state. rewrite run_statement. cbn zeta. rewrite next_row_id_sequence by done.
  assert (transition_id_check (r_transition_id (new_state now s d tr)) = true) as ->.
  { destruct tr as [id|]; [|done]. apply (canonical_check id), (Htr id eq_refl). }
  rewrite (proj2 (transition_not_taken _ _)); [cbn|].
  - set (t1 := {| t_state := _; t_sequence := _ |}).
    rewrite run_bind by (unfold insert_selections; lawful).
    rewrite (run_insert_chunks (t_sequence t + 1)%Z _ t1 ltac:(cbn; rewrite lookup_insert_eq; eauto)
      (list_to_map (selection_entries (t_sequence t + 1)%Z sels) ∪ t_selections t)); [done|].
    rewrite chunks_concat by apply chunk_size. apply insert_selection_rows_spec; [done|]. intros p.
    apply eq_None_not_Some. intros [r Es]. apply (wf_selections t Hw) in Es as [Hle _]. cbn in Hle. lia.
  - destruct tr as [id|]; [|by intros []]. intros _ i row Hl. by apply (Htr id eq_refl) in Hl.
Qed.

Lemma with_state_selections t row sels : well_formed t -> NoDup (package <$> sels) ->
  selection_of <$> selection_rows (t_sequence t + 1)%Z (with_state t row sels) ≡ₚ sels.
Proof.
  intros Hw Hn. transitivity (selection_of <$> selection_entries (t_sequence t + 1)%Z sels).
  - apply fmap_Permutation. unfold selection_rows. rewrite <- (map_to_list_to_map (selection_entries _ sels)).
    + apply Permutation_refl', (f_equal map_to_list), map_eq. intros [i p]. apply option_eq. intros r.
      rewrite map_lookup_filter_Some. cbn [t_selections with_state fst]. rewrite lookup_union_Some_raw. split.
      * intros [[Hl|[_ Hl]] ->]; [done|]. apply (wf_selections t Hw) in Hl as [Hle _]. cbn in Hle. lia.
      * intros Hl. split; [by left|]. apply elem_of_list_to_map_2, list_elem_of_fmap in Hl as (s & Heq & _). by injection Heq.
    + unfold selection_entries. rewrite <- list_fmap_compose. apply NoDup_fmap_2_strong with (f := pair (t_sequence t + 1)%Z) in Hn;
        [|by intros ?? _ _ [=]]. by rewrite <- list_fmap_compose in Hn.
  - unfold selection_entries. rewrite <- list_fmap_compose. apply Permutation_refl'. induction sels as [|[] sels IH]; [done|].
    apply NoDup_cons in Hn as [_ Hn]. cbn. f_equal. by apply IH.
Qed.

Lemma with_state_same t row sels i : i <> (t_sequence t + 1)%Z -> same_state i t (with_state t row sels).
Proof.
  intros Hi. split_and!; cbn; [by rewrite lookup_insert_ne| |done..]. intros p. apply option_eq. intros r.
  rewrite lookup_union_Some_raw. split; [|intros Hl; right; split; [|done]].
  - intros [Hl|[_ Hl]]; [|done]. apply elem_of_list_to_map_2, list_elem_of_fmap in Hl as (? & Heq & _). by injection Heq.
  - apply not_elem_of_list_to_map_1. intros Hin. apply list_elem_of_fmap in Hin as (e & Heq & He).
    apply list_elem_of_fmap in He as (? & -> & _). by injection Heq.
Qed.

Lemma get_lawful id : lawful (get id).
Proof. unfold get, load_state. lawful. Qed.

Lemma get_reads id : reads (get id).
Proof.
  intros u. pose proof @find_state_preserves. pose proof @load_selected_state_preserves. unfold get, load_state. preserved.
Qed.

Lemma run_get id t : run (get id) t =
  (match t_state t !! id with
   | None => Err (DbError.Diesel Diesel.NotFound)
   | Some row => s ← stored_state id row; Ok (selected s t)
   end, t).
Proof.
  unfold get, load_state. rewrite run_bind by lawful. rewrite run_find_state.
  destruct (t_state t !! id) as [row|]; [|done]. by destruct (stored_state id row).
Qed.

(** C37: adding a state, with or without the transition that owns it, adds exactly that
    state under an identifier never used before: reading it back gives the selections
    that were added, in some order, and every other state keeps its row, selections,
    provenance and migrations.  A statement or commit that fails leaves the database as
    it was, or with the whole state added when the error came after the commit. *)
Theorem add_exact `{!SqliteLaws _} now sels s d tr t faults :
  well_formed t -> NoDup (package <$> sels) -> transition_free tr t -> timestamp_in_range now = true ->
  let id := (t_sequence t + 1)%Z in
  let t' := with_state t (new_state now s d tr) sels in
  exists state,
    state_id state = id /\ state_summary state = s /\ state_description state = d /\ created state = now
    /\ selections state ≡ₚ sels
    /\ run (add_inner now sels s d tr) t = (Ok state, t')
    /\ run (get id) t' = (Ok state, t')
    /\ (forall i, i <> id -> same_state i t t')
    /\ exists faults', add_inner now sels s d tr (t, faults) = (Ok state, (t', faults'))
         \/ exists e u, (u = t \/ u = t') /\ add_inner now sels s d tr (t, faults) = (Err e, (u, faults')).
Proof.
  intros Hw Hn Htr Hts id t'. pose proof (run_add_rows now sels s d tr t Hw Hn Htr) as Hrun.
  set (stored := {| stored_id := id; stored_created := now; stored_summary := s; stored_description := d;
    stored_kind := Transaction; stored_transition_id := transition_id_text <$> tr |}).
  assert (run (get id) t' = (Ok (selected stored t'), t')) as Hget.
  { rewrite run_get. cbn [t' t_state with_state]. unfold id. rewrite lookup_insert_eq. unfold stored_state, Timestamp_try_from.
    cbn. by rewrite Hts. }
  exists (selected stored t'). split_and!; [done..| | |done| |].
  - cbn. rewrite scan_perm. by apply with_state_selections.
  - unfold add_inner. by rewrite run_exclusive_bind, Hrun by apply add_rows_lawful.
  - intros i Hi. by apply with_state_same.
  - unfold add_inner, mbind, tx_bind.
    destruct (exclusive_tx_cases _ t faults (add_rows_lawful now sels s d tr)) as (fs & [-> |[[e ->]|[_ ->]]]);
      rewrite ?Hrun; cbn [fst snd]; [|exists fs; right; eauto..].
    destruct (lawful_faults _ (get_lawful id) t' fs) as [[fs' Hg]|(e & u & fs' & Hg)]; rewrite ?Hget in Hg; exists fs'; [by left|].
    right. exists e, t'. split; [by right|]. pose proof (reads_tables (get id) t' fs (get_reads id)) as Hu.
    fold id t'. rewrite Hg in Hu. cbn in Hu. by subst u.
Qed.

(** ** Transitions in flight *)

Definition carried (t : tables) (id : Z) (raw : bytes) : Prop :=
  exists row, t_state t !! id = Some row /\ r_transition_id row = Some raw.

Lemma sorted_in_flight t (l := @sort _ (cmp_on fst) (in_flight_rows t)) :
  NoDup l.*1 /\ forall id row, (id, row) ∈ l <-> t_state t !! id = Some row /\ is_Some (r_transition_id row).
Proof.
  split.
  - unfold l. rewrite sort_perm. apply NoDup_fst_map_to_list.
  - intros id row. unfold l. rewrite elem_of_sort. unfold in_flight_rows. by rewrite elem_of_map_to_list, map_lookup_filter_Some.
Qed.

(** The bounded query sees none, one or at least two transitions in flight. *)
Lemma in_flight_cases t :
  (in_flight_query t = [] /\ forall id raw, ~ carried t id raw)
  \/ (exists id raw, in_flight_query t = [(id, Some raw)] /\ carried t id raw
       /\ forall id' raw', carried t id' raw' -> id' = id)
  \/ (exists id1 raw1 id2 raw2, in_flight_query t = [(id1, Some raw1); (id2, Some raw2)] /\ id1 <> id2
       /\ carried t id1 raw1 /\ carried t id2 raw2).
Proof.
  destruct (sorted_in_flight t) as [Hn Hl]. unfold in_flight_query. revert Hn Hl.
  generalize (@sort _ (cmp_on fst) (in_flight_rows t)). intros l Hn Hl.
  assert (forall id raw, carried t id raw -> exists row, (id, row) ∈ l /\ r_transition_id row = Some raw) as Hc.
  { intros id raw (row & Hr & Ht). exists row. rewrite Hl. split; [|done]. rewrite Ht. eauto. }
  assert (forall id row, (id, row) ∈ l -> exists raw, r_transition_id row = Some raw /\ carried t id raw) as Hi.
  { intros id row [Hr [raw Ht]]%Hl. exists raw. split; [done|]. by exists row. }
  destruct l as [|[id1 r1] [|[id2 r2] l]]; cbn.
  - left. split; [done|]. intros id raw (row & Hin & _)%Hc. by apply elem_of_nil in Hin.
  - right; left. destruct (Hi id1 r1 ltac:(set_solver)) as (raw & Ht & Hcar). exists id1, raw. rewrite Ht. split_and!; try done.
    intros id' raw' (row & [= -> _]%list_elem_of_singleton & _)%Hc. done.
  - right; right. destruct (Hi id1 r1 ltac:(set_solver)) as (raw1 & Ht1 & Hc1).
    destruct (Hi id2 r2 ltac:(set_solver)) as (raw2 & Ht2 & Hc2). exists id1, raw1, id2, raw2. rewrite Ht1, Ht2.
    split_and!; try done. cbn in Hn. apply NoDup_cons in Hn as [Hn _]. set_solver.
Qed.

Lemma carried_canonical t id raw : well_formed t -> carried t id raw ->
  TransitionId_parse raw = Some {| transition_id_text := raw |}.
Proof.
  intros Hw (row & Hr & Ht). apply check_canonical. rewrite <- Ht. by apply (wf_state t Hw) in Hr as (_ & _ & ?).
Qed.

Lemma run_audit t : run audit_in_flight_transition t =
  (found ← try_map in_flight_of_row (in_flight_query t);
   match found with
   | [] => Ok None
   | [f] => Ok (Some f)
   | _ => Err TransitionEvidenceError.MultipleInFlightTransitions
   end, t).
Proof.
  unfold audit_in_flight_transition. rewrite run_bind, run_select, run_bind, run_lift by lawful.
  by destruct (try_map _ _).
Qed.

(** The audit of the database finds the transition in flight exactly when there is
    exactly one. *)
Theorem audit_exact t : well_formed t ->
  match run audit_in_flight_transition t with
  | (Ok None, u) => u = t /\ forall id raw, ~ carried t id raw
  | (Ok (Some f), u) => u = t /\ carried t (in_flight_state f) (transition_id_text (in_flight_transition f))
      /\ forall id raw, carried t id raw -> id = in_flight_state f
  | (Err TransitionEvidenceError.MultipleInFlightTransitions, u) => u = t
      /\ exists id1 raw1 id2 raw2, id1 <> id2 /\ carried t id1 raw1 /\ carried t id2 raw2
  | (Err _, _) => False
  end.
Proof.
  intros Hw. rewrite run_audit.
  destruct (in_flight_cases t) as [[-> Hn]|[(id & raw & -> & Hc & Hu)|(id1 & raw1 & id2 & raw2 & -> & Hne & Hc1 & Hc2)]]; cbn; [done|..].
  - unfold in_flight_of_row, parse_transition_evidence. cbn. by rewrite (carried_canonical t id raw).
  - unfold in_flight_of_row, parse_transition_evidence. cbn.
    rewrite (carried_canonical t id1 raw1), (carried_canonical t id2 raw2) by done. cbn. split; [done|].
    by exists id1, raw1, id2, raw2.
Qed.
End theorems.
