(* ===== verification/StateDbRemoval.v ===== *)
(** * Exact removals of the state database

    [remove_exact_fresh_transition] and [remove_exact_archived] against what they leave
    in the tables, for every run: with any statement failing and any commit reporting an
    error after it took effect. *)

From S2P Require Import Prelude ByteStrings Ordered SqlDb SqlTx JournalModel StateDb StateDbExact StateDbInvariant StateDbTheorems.

Section fresh.
Context `{Sqlite} `{Chrono}.

(** The tables without one state, as [DELETE] leaves them. *)
Definition erased (id : Z) (t : tables) : tables :=
  {| t_state := delete id (t_state t); t_sequence := t_sequence t;
     t_selections := filter (fun p => p.1.1 <> id) (t_selections t);
     t_provenance := delete id (t_provenance t);
     t_migrations := if foreign_keys then filter (fun p => p.1.1 <> id) (t_migrations t) else t_migrations t |}.

Lemma lookup_filter_key {A} (m : gmap (Z * bytes) A) (P : (Z * bytes) * A -> Prop) `{forall x, Decision (P x)} key :
  (forall v, m !! key = Some v -> P (key, v)) -> filter P m !! key = m !! key.
Proof.
  intros HP. apply option_eq. intros v. rewrite map_lookup_filter_Some. split; [naive_solver|]. intros Hv. auto.
Qed.

Lemma erased_same id i t : i <> id -> same_state i t (erased id t).
Proof.
  intros Hi. split_and!; cbn; [by rewrite lookup_delete_ne| |by rewrite lookup_delete_ne|].
  - intros p. by apply lookup_filter_key.
  - intros slot. destruct foreign_keys; [|done]. by apply lookup_filter_key.
Qed.

Lemma erased_gone id t : t_state (erased id t) !! id = None /\ t_provenance (erased id t) !! id = None
  /\ selection_rows id (erased id t) = [].
Proof.
  split_and!; cbn; [apply lookup_delete_eq..|]. unfold selection_rows. rewrite <- map_to_list_empty. f_equal.
  apply map_eq. intros [i p]. rewrite lookup_empty. apply map_lookup_filter_None. right. cbn. intros r Hr.
  apply map_lookup_filter_Some in Hr as [_ ?]. done.
Qed.

(** ** Inspection *)

Definition inspected (self : nat) (id : Z) (tr : TransitionId) (t : tables) :
    result FreshInspectionError.t ExactFreshTransitionObservation.t :=
  in_flight ← try_map fresh_in_flight_of_row (in_flight_query t);
  check_in_flight id tr in_flight;;
  stored ← (match t_state t !! id with
            | None => Ok None
            | Some row => map_err FreshInspectionError.Database (s ← stored_state id row; Ok (Some s))
            end);
  provenance ← (match t_provenance t !! id with
                | None => Ok None
                | Some p => map_err FreshInspectionError.MetadataProvenance (q ← decode_provenance id p; Ok (Some q))
                end);
  let count := Z.of_nat (length (selection_rows id t)) in
  match stored, provenance with
  | None, None =>
      if (count =? 0)%Z then
        Ok (ExactFreshTransitionObservation.JointlyAbsent
          {| abs_database := self; abs_state_id := id; abs_transition_id := tr |})
      else Err (FreshInspectionError.OrphanSelections id count)
  | None, Some _ =>
      Err (if negb (count =? 0)%Z then FreshInspectionError.OrphanSelections id count
           else FreshInspectionError.OrphanProvenance id)
  | Some _, None => Err (FreshInspectionError.MissingProvenance id)
  | Some stored, Some provenance =>
      actual ← stored_transition id tr stored;
      Ok (ExactFreshTransitionObservation.Present
        {| pre_database := self; pre_state := selected stored t; pre_transition_id := actual;
           pre_metadata_provenance := provenance |})
  end.

Lemma provenance_lawful id : lawful (metadata_provenance_impl id).
Proof. unfold metadata_provenance_impl. lawful. Qed.

#[local] Hint Resolve find_state_lawful load_selected_lawful provenance_lawful : tx.

Lemma run_provenance id t : run (metadata_provenance_impl id) t =
  (match t_provenance t !! id with None => Ok None | Some p => q ← decode_provenance id p; Ok (Some q) end, t).
Proof.
  unfold metadata_provenance_impl. rewrite run_bind, run_select by lawful.
  destruct (t_provenance t !! id) as [p|]; [|done].
  rewrite run_bind, run_lift by lawful. by destruct (decode_provenance id p).
Qed.

Lemma inspect_lawful self id tr : lawful (inspect_exact_fresh_transition_impl self id tr).
Proof.
  unfold inspect_exact_fresh_transition_impl. lawful.
Qed.

Lemma run_inspect self id tr t : run (inspect_exact_fresh_transition_impl self id tr) t = (inspected self id tr t, t).
Proof.
  unfold inspect_exact_fresh_transition_impl, inspected.
  rewrite run_bind, run_select by lawful.
  rewrite run_bind, run_lift by lawful. destruct (try_map _ _) as [l|]; [cbn|done].
  rewrite run_bind, run_lift by lawful. destruct (check_in_flight id tr l) as [[]|]; [cbn|done].
  rewrite run_bind, run_find_state by lawful.
  destruct (t_state t !! id) as [row|]; [destruct (stored_state id row) as [s|]; [|done]|]; cbn;
    (rewrite run_bind, run_map_err, run_provenance by lawful);
    (destruct (t_provenance t !! id) as [p|]; [destruct (decode_provenance id p) as [q|]; [|done]|]); cbn;
    rewrite run_bind, run_select by lawful; try done.
  - rewrite run_bind, run_lift by lawful. by destruct (stored_transition id tr s).
  - by destruct (_ =? 0)%Z.
Qed.

(** What [Present] says about the tables. *)
Record present_in (self : nat) (id : Z) (tr : TransitionId) (t : tables) (pre : ExactFreshTransitionPreimage) : Prop := {
  present_database : pre_database pre = self;
  present_state : state_id (pre_state pre) = id;
  present_transition : pre_transition_id pre = tr;
  present_carried : carried t id (transition_id_text tr);
  present_only id' raw : carried t id' raw -> id' = id;
  present_provenance : t_provenance t !! id = Some (pre_metadata_provenance pre);
  present_selections : selections (pre_state pre) = selection_of <$> scan (selection_rows id t);
}.

Lemma decode_provenance_ok id p q : decode_provenance id p = Ok q -> q = p.
Proof.
  unfold decode_provenance, decode_digest. destruct p as [a b]. cbn. intros Hd.
  destruct (length a =? DIGEST_BYTES)%nat; [|done]. destruct (length b =? DIGEST_BYTES)%nat; [|done]. by injection Hd as <-.
Qed.

Lemma parse_text raw id : TransitionId_parse raw = Some id -> raw = transition_id_text id.
Proof. unfold TransitionId_parse. by destruct (_ || _); [|intros [= <-]]. Qed.

(** A transition in flight that passed the check is the one asked for. *)
Lemma checked_only id tr t l : try_map fresh_in_flight_of_row (in_flight_query t) = Ok l ->
  check_in_flight id tr l = Ok tt -> forall id' raw, carried t id' raw -> id' = id.
Proof.
  intros Hl Hc. destruct (in_flight_cases t) as [[_ Hn]|[(i & raw & Hq & _ & Hu)|(i1 & r1 & i2 & r2 & Hq & _)]].
  - intros id' raw' Hc'. by destruct (Hn id' raw').
  - rewrite Hq in Hl. cbn in Hl. inv_ok. cbn in Hc. repeat case_bool_decide; cbn in *; try done. subst i. by eapply Hu.
  - rewrite Hq in Hl. cbn in Hl. inv_ok. by cbn in Hc.
Qed.

Lemma stored_transition_ok id tr st actual : stored_transition id tr st = Ok actual ->
  actual = tr /\ stored_transition_id st = Some (transition_id_text tr).
Proof.
  unfold stored_transition, parse_transition_evidence. destruct (stored_transition_id st) as [raw|]; [cbn|done].
  destruct (TransitionId_parse raw) as [id'|] eqn:Ep; [cbn|done]. case_bool_decide as He; cbn; [|done]. intros [= <-].
  split; [done|]. f_equal. subst. by apply parse_text.
Qed.

Lemma inspected_present self id tr t pre :
  inspected self id tr t = Ok (ExactFreshTransitionObservation.Present pre) -> present_in self id tr t pre.
Proof.
  unfold inspected. intros Hi. apply bind_ok_iff in Hi as (l & Hl & Hi). apply seq_ok_iff in Hi as [Hc Hi].
  destruct (t_state t !! id) as [row|] eqn:Hrow; [destruct (stored_state id row) as [st|] eqn:Hst; [|done]|];
    (destruct (t_provenance t !! id) as [p|] eqn:Hp; [destruct (decode_provenance id p) as [q|] eqn:Hq; [|done]|]); cbn in Hi;
    try done; [|by destruct (_ =? 0)%Z].
  destruct (stored_transition id tr st) as [actual|] eqn:Ha; [|done]. injection Hi as <-. cbn.
  assert (r_transition_id row = stored_transition_id st /\ stored_id st = id) as [Hrt Hid]
    by (unfold stored_state in Hst; by inv_ok).
  destruct (stored_transition_ok _ _ _ _ Ha) as [-> Hs].
  split; cbn; try done.
  - exists row. split; [done|congruence].
  - by apply (checked_only id tr t l).
  - by rewrite (decode_provenance_ok _ _ _ Hq).
  - by rewrite Hid.
Qed.

Lemma inspected_absent self id tr t a :
  inspected self id tr t = Ok (ExactFreshTransitionObservation.JointlyAbsent a) ->
  a = {| abs_database := self; abs_state_id := id; abs_transition_id := tr |}
  /\ t_state t !! id = None /\ t_provenance t !! id = None /\ selection_rows id t = [] /\ forall i raw, ~ carried t i raw.
Proof.
  unfold inspected. intros Hi. apply bind_ok_iff in Hi as (l & Hl & Hi). apply seq_ok_iff in Hi as [Hc Hi].
  destruct (t_state t !! id) as [row|] eqn:Hrow; [destruct (stored_state id row) as [st|] eqn:Hst; [|done]|];
    (destruct (t_provenance t !! id) as [p|] eqn:Hp; [destruct (decode_provenance id p) as [q|] eqn:Hq; [|done]|]); cbn in Hi;
    try done; [by destruct (stored_transition id tr st)|].
  destruct (_ =? 0)%Z eqn:En; [|done]. injection Hi as <-. split_and!; try done.
  - apply Z.eqb_eq in En. apply nil_length_inv. lia.
  - intros i raw Hcar. rewrite (checked_only id tr t l Hl Hc i raw Hcar) in Hcar. destruct Hcar as (row & Hr & _). congruence.
Qed.

(** ** Removal *)

(** [DELETE] of exactly one row *)
Definition without_row (id : Z) (t : tables) : tables :=
  if foreign_keys then erased id t else set_state (delete id (t_state t)) t.

Lemma delete_one p id row t : t_state t !! id = Some row ->
  (forall i r, t_state t !! i = Some r -> p i r = bool_decide (i = id)) -> delete_states p t = (1%Z, without_row id t).
Proof.
  intros Hrow Hp. unfold delete_states, without_row, erased.
  assert (filter (fun r : Z * StateRow => p r.1 r.2 = true) (t_state t) = {[id := row]}) as Hgone.
  { apply map_eq. intros i. apply option_eq. intros r. rewrite map_lookup_filter_Some, lookup_singleton_Some. cbn. split.
    - intros [Hl Ht]. rewrite (Hp i r Hl) in Ht. apply bool_decide_eq_true in Ht as ->. split; congruence.
    - intros [<- <-]. split; [done|]. rewrite (Hp id row Hrow). by apply bool_decide_eq_true. }
  assert (filter (fun r : Z * StateRow => p r.1 r.2 = false) (t_state t) = delete id (t_state t)) as ->.
  { apply map_eq. intros i. apply option_eq. intros r. rewrite map_lookup_filter_Some, lookup_delete_Some. cbn. split.
    - intros [Hl Ht]. rewrite (Hp i r Hl) in Ht. apply bool_decide_eq_false in Ht. done.
    - intros [Hne Hl]. split; [done|]. rewrite (Hp i r Hl). by apply bool_decide_eq_false. }
  rewrite Hgone, map_size_singleton. destruct foreign_keys; [|done]. f_equal. f_equal.
  - apply map_filter_ext. intros [i q] r _. cbn. rewrite lookup_singleton_None. done.
  - apply map_eq. intros i. apply option_eq. intros q. rewrite map_lookup_filter_Some, lookup_delete_Some. cbn.
    rewrite lookup_singleton_None. naive_solver.
  - apply map_filter_ext. intros [i q] r _. cbn. rewrite lookup_singleton_None. done.
Qed.

Lemma remove_fresh_lawful self pre : lawful (remove_fresh_body self pre).
Proof.
  pose proof inspect_lawful. unfold remove_fresh_body, require_affected, delete_exact_metadata_provenance, delete_selections, delete_state_rows.
  lawful.
Qed.

Lemma erase_present id t : without_row id (set_selections (filter (fun p => p.1.1 <> id) (t_selections t))
  (set_provenance (delete id (t_provenance t)) t)) = erased id t.
Proof.
  unfold without_row, erased. destruct foreign_keys eqn:Hfk; cbn; [|done]. f_equal; [|apply delete_delete_eq].
  apply map_eq. intros key. apply option_eq. intros r. rewrite !map_lookup_filter_Some. naive_solver.
Qed.

(** The body removes the preimage when it finds it and otherwise fails. *)
Lemma run_remove_fresh `{!SqliteLaws _} self pre t (id := state_id (pre_state pre)) :
  match inspected self id (pre_transition_id pre) t with
  | Ok (ExactFreshTransitionObservation.Present actual) =>
      if bool_decide (actual = pre) then run (remove_fresh_body self pre) t = (Ok tt, erased id t)
      else exists e, run (remove_fresh_body self pre) t = (Err e, t)
  | _ => exists e, run (remove_fresh_body self pre) t = (Err e, t)
  end.
Proof.
  unfold remove_fresh_body. fold id.
  rewrite run_bind by (pose proof inspect_lawful; lawful). rewrite run_map_err, run_inspect by apply inspect_lawful. cbn [fst snd].
  destruct (inspected self id (pre_transition_id pre) t) as [[actual|absent]|e] eqn:Hi; [|eexists; reflexivity..].
  cbn [map_err]. rewrite run_bind, run_lift by lawful. case_bool_decide as Heq; [subst actual|eexists; reflexivity].
  apply inspected_present in Hi as [_ _ _ (row & Hrow & Htr) _ Hprov Hsel].
  unfold delete_exact_metadata_provenance, require_affected, delete_selections, delete_state_rows.
  rewrite run_bind, run_statement, bool_decide_eq_true_2 by (lawful || done).
  rewrite run_bind, run_lift by lawful. cbn [Z.eqb Pos.eqb].
  rewrite run_bind, run_statement by lawful. rewrite run_bind, run_lift by lawful.
  rewrite Hsel, length_fmap, scan_perm. unfold selection_rows at 1 2. cbn [set_provenance t_selections]. rewrite Z.eqb_refl.
  rewrite run_bind, run_statement by lawful. 
  rewrite (delete_one _ id row); [|done|].
  - rewrite run_lift. cbn [Z.eqb Pos.eqb]. by rewrite erase_present.
  - intros i r Hl. unfold carries. cbn in Hl. destruct (decide (i = id)) as [-> |Hi].
    + rewrite Hrow in Hl. injection Hl as <-. by rewrite Z.eqb_refl, !bool_decide_eq_true_2.
    + by rewrite (bool_decide_eq_false_2 (i = id)), (proj2 (Z.eqb_neq i id)).
Qed.

Lemma inspect_reads self id tr : reads (inspect_exact_fresh_transition self id tr).
Proof. intros u. apply preserves_exclusive, inspect_impl_preserves. Qed.

Lemma erased_absent self id tr t : (forall i raw, carried t i raw -> i = id) ->
  inspected self id tr (erased id t) = Ok (ExactFreshTransitionObservation.JointlyAbsent
    {| abs_database := self; abs_state_id := id; abs_transition_id := tr |}).
Proof.
  intros Hu. destruct (erased_gone id t) as (Hs & Hp & Hr). unfold inspected. rewrite Hs, Hp, Hr.
  assert (forall i raw, ~ carried (erased id t) i raw) as Hn.
  { intros i raw (row & Hl & Ht). cbn in Hl. apply lookup_delete_Some in Hl as [Hne Hl]. apply Hne. symmetry. apply (Hu i raw). by exists row. }
  destruct (in_flight_cases (erased id t)) as [[-> _]|[(i & raw & _ & Hc & _)|(i & raw & _ & _ & _ & _ & Hc & _)]];
    [done|by destruct (Hn i raw)..].
Qed.

(** The one attempt: applied, not applied, or applied and reported as an error of the
    database. *)
Lemma remove_once_cases `{!SqliteLaws _} self pre t faults (id := state_id (pre_state pre)) :
  exists r t1 fs, remove_exact_fresh_transition_once self pre (t, faults) = (r, (t1, fs))
    /\ (t1 = erased id t /\ present_in self id (pre_transition_id pre) t pre /\ (r = Ok tt \/ r = Err database_error)
        \/ t1 = t /\ exists e, r = Err e).
Proof.
  pose proof (run_remove_fresh self pre t) as Hrun. cbv zeta in Hrun. fold id in Hrun.
  unfold remove_exact_fresh_transition_once.
  assert (run (remove_fresh_body self pre) t = (Ok tt, erased id t) /\ present_in self id (pre_transition_id pre) t pre
    \/ exists e, run (remove_fresh_body self pre) t = (Err e, t)) as [[Hr Hp]|[e Hr]].
  { destruct (inspected self id _ t) as [[actual|]|] eqn:Hi; [|by right..]. case_bool_decide; [subst actual|by right].
    left. split; [done|]. by apply inspected_present. }
  - destruct (exclusive_tx_cases _ t faults (remove_fresh_lawful self pre)) as (fs & [-> |[[e ->]|[_ ->]]]);
      rewrite ?Hr; eexists _, _, fs; (split; [done|]); [left|right|left]; eauto.
  - destruct (exclusive_tx_cases _ t faults (remove_fresh_lawful self pre)) as (fs & [-> |[[e' ->]|[[? Hok] _]]]);
      [| |by rewrite Hr in Hok]; rewrite ?Hr; eexists _, _, fs; (split; [done|]); right; eauto.
Qed.

Lemma inspect_cases self id tr t faults : exists o fs, inspect_exact_fresh_transition self id tr (t, faults) = (o, (t, fs))
  /\ (forall x, o = Ok x -> inspected self id tr t = Ok x).
Proof.
  unfold inspect_exact_fresh_transition.
  destruct (exclusive_tx_cases _ t faults (inspect_lawful self id tr)) as (fs & [-> |[[e ->]|[_ ->]]]);
    rewrite ?run_inspect; cbn [fst snd]; [|by eexists _, fs..].
  exists (inspected self id tr t), fs. split; [by destruct (inspected self id tr t)|done].
Qed.

Lemma fresh_removal_cases `{!SqliteLaws _} self pre t faults (id := state_id (pre_state pre)) :
  let '(answer, (t', _)) := remove_exact_fresh_transition self pre (t, faults) in
  (match answer with
   | Ok absence =>
       present_in self id (pre_transition_id pre) t pre /\ t' = erased id t
       /\ absence = {| abs_database := self; abs_state_id := id; abs_transition_id := pre_transition_id pre |}
   | Err e => if definitely_not_applied e then t' = t else t' = t \/ t' = erased id t
   end)
  /\ (forall i, i <> id -> same_state i t t')
  /\ (faults = [] -> inspected self id (pre_transition_id pre) t = Ok (ExactFreshTransitionObservation.Present pre) ->
      exists absence, answer = Ok absence).
Proof.
  unfold remove_exact_fresh_transition. fold id. destruct (pre_database pre =? self)%nat eqn:Hself; cbn.
  2: { split_and!; [done|done|]. intros _ Hp%inspected_present. apply Nat.eqb_neq in Hself. by destruct Hp. }
  unfold mbind, tx_bind, attempt. destruct (remove_once_cases self pre t faults) as (r & t1 & fs & Hr & Hcase). rewrite Hr.
  destruct (inspect_cases self id (pre_transition_id pre) t1 fs) as (o & fs' & Ho & Hins). fold id in Hcase. rewrite Ho. cbn.
  split_and!.
  - destruct Hcase as [(-> & Hp & [-> | ->])|(-> & e & ->)]; cbn [reconcile_fresh].
    + destruct o as [[actual|absence]|e]; cbn; [case_bool_decide; cbn; auto| |auto]. split_and!; try done.
      by apply (inspected_absent _ _ _ _ _ (Hins _ eq_refl)).
    + destruct o as [[actual|absence]|e]; cbn; [case_bool_decide; cbn; auto|auto..].
    + destruct o as [[actual|absence]|e']; cbn; [case_bool_decide; cbn|..]; try destruct (rolled_back_or_not_started e); cbn; auto.
  - intros i Hi. destruct Hcase as [[-> _]|[-> _]]; [by apply erased_same|done].
  - intros -> Hp. pose proof (run_remove_fresh self pre t) as Hrun. cbv zeta in Hrun. fold id in Hrun.
    rewrite Hp, bool_decide_eq_true_2 in Hrun by done.
    unfold remove_exact_fresh_transition_once, exclusive_tx in Hr. cbn [tail] in Hr.
    rewrite (run_quiet _ _ (remove_fresh_lawful self pre)), Hrun in Hr. cbn in Hr. injection Hr as <- <- <-.
    unfold inspect_exact_fresh_transition, exclusive_tx in Ho. cbn [tail] in Ho.
    rewrite (run_quiet _ _ (inspect_lawful self id _)), run_inspect, erased_absent in Ho by apply (inspected_present _ _ _ _ _ Hp).
    cbn in Ho. injection Ho as <- <-. cbn. eauto.
Qed.

(** C8: the removal of a fresh transition answers truthfully.  Whatever statements fail
    and however its commit reports, an answer of success means that exactly the
    authenticated preimage was in the database and is now gone, an answer of definitely
    not applied means that the database is as it was, and otherwise it is one of the two;
    no other state is touched.  Without faults the preimage an inspection returned is
    removed. *)
Theorem fresh_removal_truthful `{!SqliteLaws _} self pre t faults (id := state_id (pre_state pre)) :
  let '(answer, (t', _)) := remove_exact_fresh_transition self pre (t, faults) in
  (match answer with
   | Ok absence =>
       present_in self id (pre_transition_id pre) t pre /\ t' = erased id t
       /\ absence = {| abs_database := self; abs_state_id := id; abs_transition_id := pre_transition_id pre |}
   | Err e => if definitely_not_applied e then t' = t else t' = t \/ t' = erased id t
   end)
  /\ (forall i, i <> id -> same_state i t t')
  /\ (faults = [] -> inspected self id (pre_transition_id pre) t = Ok (ExactFreshTransitionObservation.Present pre) ->
      exists absence, answer = Ok absence).
Proof. apply fresh_removal_cases. Qed.
End fresh.

(** ** Archived states *)

Section archived.
Context `{Sqlite} `{Chrono}.

#[local] Hint Resolve find_state_lawful load_selected_lawful : tx.

(** The tables without one archived state, and without all of a batch. *)
Definition pruned_one (id : Z) (t : tables) : tables :=
  set_provenance (filter (fun r => r.1 ∉ [id]) (t_provenance (without_row id t))) (without_row id t).
Definition pruned (expected : list State) (t : tables) : tables :=
  foldl (fun t s => pruned_one (state_id s) t) t expected.

Lemma pruned_one_same id i t : i <> id -> same_state i t (pruned_one id t).
Proof.
  intros Hi. transitivity (without_row id t).
  - unfold without_row. destruct foreign_keys; [by apply erased_same|]. split_and!; cbn; try done. by apply lookup_delete_ne.
  - split_and!; try done. cbn. apply option_eq. intros p. rewrite map_lookup_filter_Some. cbn. set_solver.
Qed.

Lemma pruned_one_gone id t : t_state (pruned_one id t) !! id = None /\ t_provenance (pruned_one id t) !! id = None.
Proof.
  split; cbn.
  - unfold without_row. destruct foreign_keys; cbn; apply lookup_delete_eq.
  - apply map_lookup_filter_None. right. cbn. set_solver.
Qed.

Lemma pruned_same expected i t : i ∉ state_id <$> expected -> same_state i t (pruned expected t).
Proof.
  revert t. induction expected as [|s l IH]; intros t Hi; cbn; [done|].
  transitivity (pruned_one (state_id s) t); [apply pruned_one_same; set_solver|apply IH; set_solver].
Qed.

Lemma pruned_state_mono expected i t : t_state t !! i = None -> t_state (pruned expected t) !! i = None.
Proof.
  revert t. induction expected as [|s l IH]; intros t Hi; cbn; [done|]. apply IH.
  destruct (decide (i = state_id s)) as [-> |Hne]; [apply pruned_one_gone|].
  by destruct (pruned_one_same (state_id s) i t Hne) as [-> _].
Qed.

Lemma pruned_gone expected t s : s ∈ expected -> t_state (pruned expected t) !! state_id s = None.
Proof.
  revert t. induction expected as [|s' l IH]; intros t Hs; [by apply elem_of_nil in Hs|].
  apply elem_of_cons in Hs as [<- |Hs]; cbn; [apply pruned_state_mono, pruned_one_gone|by apply IH].
Qed.

Lemma remove_one_lawful s : lawful (remove_one_archived s).
Proof. unfold remove_one_archived, delete_state_rows, delete_metadata_provenance. lawful. Qed.

(** The database holds exactly this state and no transition owns it. *)
Definition archived (t : tables) (s : State) : Prop :=
  exists row st, t_state t !! state_id s = Some row /\ r_transition_id row = None
    /\ stored_state (state_id s) row = Ok st /\ selected st t = s.

Lemma archived_same t t' s : same_state (state_id s) t t' -> archived t s -> archived t' s.
Proof.
  intros Hs (row & st & Hrow & Htr & Hst & Hsel). exists row, st. pose proof Hs as [Hr _]. rewrite Hr. split_and!; try done.
  rewrite <- Hsel. apply selected_same. by rewrite (stored_state_id _ _ _ Hst).
Qed.

Lemma run_remove_archived s t : archived t s -> run (remove_one_archived s) t = (Ok tt, pruned_one (state_id s) t).
Proof.
  intros (row & st & Hrow & Htr & Hst & Hsel). unfold remove_one_archived. rewrite run_bind, run_find_state by lawful.
  rewrite Hrow, Hst. rewrite run_bind, run_lift by (unfold delete_state_rows, delete_metadata_provenance; lawful). cbn.
  assert (stored_transition_id st = None) as -> by (by rewrite (stored_state_transition _ _ _ Hst)).
  rewrite bool_decide_eq_false_2 by (by intros []).
  rewrite run_bind, run_load_selected by (unfold delete_state_rows, delete_metadata_provenance; lawful).
  rewrite bool_decide_eq_true_2 by done. cbn [negb]. rewrite run_bind by apply lawful_statement.
  unfold delete_state_rows. rewrite run_statement, (delete_one _ (state_id s) row); [done|done|].
  intros i r Hl. destruct (decide (i = state_id s)) as [-> |Hi].
  - rewrite Hrow in Hl. injection Hl as <-. by rewrite Z.eqb_refl, !bool_decide_eq_true_2.
  - by rewrite (bool_decide_eq_false_2 (i = _)), (proj2 (Z.eqb_neq i _)).
Qed.

Lemma run_remove_all expected t : NoDup (state_id <$> expected) -> Forall (archived t) expected ->
  run (for_each remove_one_archived expected) t = (Ok tt, pruned expected t).
Proof.
  revert t. induction expected as [|s l IH]; intros t Hn Ha; cbn [for_each]; [done|].
  apply NoDup_cons in Hn as [Hni Hn]. apply Forall_cons in Ha as [Hs Ha].
  rewrite run_bind, run_remove_archived by (apply remove_one_lawful || done). apply (IH (pruned_one (state_id s) t)); [done|].
  rewrite Forall_forall in Ha |- *. intros s' Hs'. apply (archived_same t); [|by apply Ha].
  apply pruned_one_same. intros Heq. apply Hni. rewrite <- Heq. apply list_elem_of_fmap. eauto.
Qed.

Lemma first_duplicate_none expected : forall unique, NoDup (state_id <$> expected) ->
  (forall s, s ∈ expected -> state_id s ∉ unique) -> first_duplicate unique expected = None.
Proof.
  induction expected as [|s l IH]; intros unique Hn Hu; cbn; [done|]. apply NoDup_cons in Hn as [Hni Hn].
  rewrite bool_decide_eq_false_2 by (apply Hu; left). apply IH; [done|]. intros s' Hs' [Heq%elem_of_singleton|Hin]%elem_of_union.
  - apply Hni. rewrite <- Heq. apply list_elem_of_fmap. eauto.
  - apply (Hu s'); [by right|done].
Qed.

Lemma run_remove_one s t t' : run (remove_one_archived s) t = (Ok tt, t') -> t' = pruned_one (state_id s) t.
Proof.
  unfold remove_one_archived. rewrite run_bind, run_find_state by lawful.
  destruct (t_state t !! state_id s) as [row|] eqn:Hrow; cbn.
  2: { rewrite run_bind, run_lift by (unfold delete_state_rows, delete_metadata_provenance; lawful). done. }
  destruct (stored_state (state_id s) row) as [st|] eqn:Hst; [|done].
  rewrite run_bind, run_lift by (unfold delete_state_rows, delete_metadata_provenance; lawful). cbn.
  case_bool_decide as Htr; [done|].
  rewrite run_bind, run_load_selected by (unfold delete_state_rows, delete_metadata_provenance; lawful).
  destruct (negb _) eqn:Eq; [done|]. rewrite run_bind by apply lawful_statement.
  unfold delete_state_rows. rewrite run_statement. rewrite (delete_one _ (state_id s) row); [|done|].
  - cbn [Z.eqb Pos.eqb negb]. intros [= <-]. done.
  - intros i r Hl. destruct (decide (i = state_id s)) as [-> |Hi].
    + rewrite Z.eqb_refl, !bool_decide_eq_true_2; [done..|]. rewrite Hrow in Hl. injection Hl as <-.
      unfold stored_state in Hst. inv_ok. cbn in Htr. by apply eq_None_not_Some.
    + by rewrite (bool_decide_eq_false_2 (i = _)), (proj2 (Z.eqb_neq i _)).
Qed.

Lemma run_remove_batch expected t t' : run (for_each remove_one_archived expected) t = (Ok tt, t') -> t' = pruned expected t.
Proof.
  revert t. induction expected as [|s l IH]; intros t; cbn [for_each]; [by intros [= <-]|].
  rewrite run_bind by apply remove_one_lawful. destruct (run (remove_one_archived s) t) as [[[]|e] t1] eqn:Hr; [|done].
  apply run_remove_one in Hr as ->. apply IH.
Qed.

Lemma archived_once_cases expected t faults : exists r t1 fs,
  remove_archived_once expected (t, faults) = (r, (t1, fs))
  /\ (t1 = pruned expected t /\ (r = Ok tt \/ r = Err database_error) \/ t1 = t /\ exists e, r = Err e).
Proof.
  unfold remove_archived_once. assert (lawful (for_each remove_one_archived expected)) as Hl.
  { apply lawful_for_each, remove_one_lawful. }
  destruct (exclusive_tx_cases _ t faults Hl) as (fs & [-> |[[e ->]|[[[] Hok] ->]]]);
    (destruct (run (for_each remove_one_archived expected) t) as [[[]|e'] t'] eqn:Hr; [apply run_remove_batch in Hr as ->|]);
    cbn; eexists _, _, fs; (split; [done|]); eauto; by cbn in Hok.
Qed.

(** ** Observation *)

Definition observes (t : tables) (s : State) (o : ExactArchivedObservation.t) : Prop :=
  match o with
  | ExactArchivedObservation.Missing => t_state t !! state_id s = None
  | ExactArchivedObservation.Exact => is_Some (t_state t !! state_id s)
  | ExactArchivedObservation.Changed => True
  end.

Lemma observe_one_lawful s : lawful (observe_one_archived s).
Proof. unfold observe_one_archived. lawful. Qed.

Lemma run_observe_one s t o u : run (observe_one_archived s) t = (Ok o, u) -> u = t /\ observes t s o.
Proof.
  unfold observe_one_archived. rewrite run_bind, run_find_state by lawful. unfold observes.
  destruct (t_state t !! state_id s) as [row|]; [|by intros [= <- <-]].
  destruct (stored_state _ row) as [st|]; [cbn|done]. destruct (bool_decide _); [by intros [= <- <-]|].
  rewrite run_bind, run_load_selected by lawful. destruct (bool_decide _); intros [= <- <-]; cbn; eauto.
Qed.

Lemma run_observe_batch expected t os u : run (map_each observe_one_archived expected) t = (Ok os, u) ->
  u = t /\ Forall2 (observes t) expected os.
Proof.
  revert os u. induction expected as [|s l IH]; intros os u; cbn [map_each]; [intros [= <- <-]; by split|].
  rewrite run_bind by apply observe_one_lawful. destruct (run (observe_one_archived s) t) as [[o|e] t1] eqn:Ho; [|done].
  apply run_observe_one in Ho as [-> Ho]. rewrite run_bind by (apply lawful_map_each, observe_one_lawful).
  destruct (run (map_each observe_one_archived l) t) as [[os'|e] t1]; [|done]. destruct (IH os' t1 eq_refl) as [-> Hf].
  intros [= <- <-]. split; [done|]. by constructor.
Qed.

Lemma observe_batch_cases expected t faults : exists o fs,
  observe_exact_archived_batch expected (t, faults) = (o, (t, fs)) /\ forall os, o = Ok os -> Forall2 (observes t) expected os.
Proof.
  unfold observe_exact_archived_batch. assert (lawful (map_each observe_one_archived expected)) as Hl.
  { apply lawful_map_each, observe_one_lawful. }
  assert (exists fs o, exclusive_tx (map_each observe_one_archived expected) (t, faults) = (o, (t, fs))
    /\ (o = (run (map_each observe_one_archived expected) t).1 \/ exists e, o = Err e)) as (fs & o & He & Ho).
  { destruct (exclusive_tx_cases _ t faults Hl) as (fs & Hcase). exists fs.
    destruct (run (map_each observe_one_archived expected) t) as [[os|e'] u] eqn:Hr; cbn in Hcase |- *;
      [apply run_observe_batch in Hr as [-> _]|]; destruct Hcase as [-> |[[e ->]|[[a Hok] ->]]]; eauto; done. }
  exists o, fs. split; [done|]. intros os ->. destruct Ho as [Ho|[e [=]]].
  destruct (run (map_each observe_one_archived expected) t) as [r u] eqn:Hr. cbn in Ho. subst r.
  by apply run_observe_batch in Hr as [_ ?].
Qed.

Lemma count_spec l : forall m e m' e', count_observations l m e = inr (m', e') ->
  (m' <= m + length l)%nat /\ (e' <= e + length l)%nat
  /\ (m' = m + length l -> Forall (fun p => p.2 = ExactArchivedObservation.Missing) l)%nat
  /\ (e' = e + length l -> Forall (fun p => p.2 = ExactArchivedObservation.Exact) l)%nat.
Proof.
  induction l as [|[s []] l IH]; intros m e m' e'; cbn; [|intros (? & ? & Hm & He)%IH..|done].
  - intros [= <- <-]. split_and!; auto; lia.
  - split_and!; [lia|lia|intros; constructor; [done|apply Hm; lia]|intros; lia].
  - split_and!; [lia|lia|intros; lia|intros; constructor; [done|apply He; lia]].
Qed.

(** After an error: success means that every state of the batch is gone, and the error
    comes back as it was only when they are all there. *)
Lemma classify_spec expected source os t : Forall2 (observes t) expected os -> expected <> [] ->
  match classify_archived expected source os with
  | Ok _ => forall s, s ∈ expected -> t_state t !! state_id s = None
  | Err e => archived_outcome e = ExactArchivedRemovalOutcome.NotApplied -> exists s, s ∈ expected /\ is_Some (t_state t !! state_id s)
  end.
Proof.
  intros Hf Hne. unfold classify_archived.
  assert (length (zip expected os) = length expected) as Hz by (rewrite length_zip; apply Forall2_length in Hf; lia).
  assert (forall o, Forall (fun p : State * _ => p.2 = o) (zip expected os) -> forall s, s ∈ expected -> observes t s o) as Hall.
  { intros o Ho s [i Hs]%list_elem_of_lookup. destruct (Forall2_lookup_l _ _ _ _ _ Hf Hs) as (o' & Ho' & Hob).
    rewrite Forall_lookup in Ho. specialize (Ho i (s, o')). rewrite lookup_zip_with, Hs, Ho' in Ho. cbn in Ho. by rewrite <- Ho. }
  destruct (count_observations _ 0 0) as [id|[m e]] eqn:Hc; [done|]. apply count_spec in Hc as (_ & _ & Hm & He).
  rewrite Hz in Hm, He. cbn in Hm, He. destruct (m =? _)%nat eqn:Em; [|destruct (e =? _)%nat eqn:Ee; [|done]].
  - apply Nat.eqb_eq in Em. exact (Hall _ (Hm Em)).
  - intros _. apply Nat.eqb_eq in Ee. destruct expected as [|s l]; [done|]. exists s. split; [left|]. exact (Hall _ (He Ee) s ltac:(left)).
Qed.

Lemma reconcile_cases expected source t faults : expected <> [] -> exists answer fs,
  reconcile_archived expected source (t, faults) = (answer, (t, fs))
  /\ match answer with
     | Ok _ => forall s, s ∈ expected -> t_state t !! state_id s = None
     | Err e => archived_outcome e = ExactArchivedRemovalOutcome.NotApplied ->
         exists s, s ∈ expected /\ is_Some (t_state t !! state_id s)
     end.
Proof.
  intros Hne. unfold reconcile_archived, mbind, tx_bind, attempt.
  destruct (observe_batch_cases expected t faults) as (o & fs & -> & Hos). eexists _, fs. split; [done|].
  destruct o as [os|e]; [|done]. by apply classify_spec; [apply Hos|].
Qed.

(** C15: the removal of archived states answers truthfully.  Whatever statements fail and
    however its commit reports, success means that every state of the batch is gone, an
    error with the outcome not applied means that the database is as it was, and
    otherwise the whole batch was removed or nothing; states outside the batch keep their
    row, selections, provenance and migrations.  Without faults a batch of distinct states
    that the database holds as given, owned by no transition, is removed. *)
Theorem archived_removal_truthful (expected : list State) t faults :
  let '(answer, (t', _)) := remove_exact_archived expected (t, faults) in
  match answer with
  | Ok _ => forall s, s ∈ expected -> t_state t' !! state_id s = None
  | Err e => archived_outcome e = ExactArchivedRemovalOutcome.NotApplied -> t' = t
  end
  /\ (t' = t \/ t' = pruned expected t)
  /\ (forall i, i ∉ state_id <$> expected -> same_state i t t')
  /\ (faults = [] -> expected <> [] -> NoDup (state_id <$> expected) -> Forall (archived t) expected -> answer = Ok tt).
Proof.
  assert (forall t', t' = t \/ t' = pruned expected t -> forall i, i ∉ state_id <$> expected -> same_state i t t') as Hsame.
  { intros t' [-> | ->] i Hi; [done|by apply pruned_same]. }
  destruct expected as [|s0 l]; [by cbn; split_and!; auto|]. unfold remove_exact_archived.
  destruct (first_duplicate ∅ (s0 :: l)) as [id|] eqn:Hdup.
  { cbn. split_and!; auto. intros _ _ Hn _. rewrite first_duplicate_none in Hdup; [done|done|set_solver]. }
  clear Hdup. remember (s0 :: l) as expected eqn:Hexp.
  unfold mbind, tx_bind, attempt. destruct (archived_once_cases expected t faults) as (r & t1 & fs & Hr & Hcase).
  assert (faults = [] -> expected <> [] -> NoDup (state_id <$> expected) -> Forall (archived t) expected -> r = Ok tt) as Hok.
  { intros -> _ Hn Ha. unfold remove_archived_once, exclusive_tx in Hr. cbn [tail] in Hr.
    rewrite (run_quiet _ _ (lawful_for_each _ _ remove_one_lawful)), run_remove_all in Hr by done. by injection Hr. }
  rewrite Hr. clear Hr. destruct Hcase as [[-> [-> | ->]]|[-> [e ->]]]; cbn.
  - split_and!; auto. intros s. apply pruned_gone.
  - destruct (reconcile_cases expected database_error (pruned expected t) fs) as (answer & fs' & -> & Ha); [by subst|].
    split_and!; auto; [|intros H1 H2 H3 H4; by specialize (Hok H1 H2 H3 H4)]. destruct answer as [|e]; [done|]. intros (s & Hs & Hp)%Ha. rewrite pruned_gone in Hp by done. by destruct Hp.
  - destruct (reconcile_cases expected e t fs) as (answer & fs' & Hr & Ha); [by subst|].
    destruct e; cbn; rewrite ?Hr; split_and!; auto; try (intros H1 H2 H3 H4; by specialize (Hok H1 H2 H3 H4)); by destruct answer.
Qed.
End archived.
