(* ===== verification/StartupEvidence.v ===== *)
(** * Database evidence at startup

    [crates/forge/src/client/startup_reconciliation/database_evidence.rs] and
    [metadata_provenance.rs]: what startup reads from the state database about the
    transition the journal records, and whether that is what the transition can have
    left there. *)

From S2P Require Import Prelude ByteStrings Ordered SqlDb SqlTx JournalModel JournalValidation JournalMachine StateDb.

Record ExistingStateEvidence := { ev_state : Z; ev_ownership : TransitionOwnership }.
#[global] Instance ExistingStateEvidence_eq_dec : EqDecision ExistingStateEvidence.
Proof. solve_decision. Defined.

Module DatabaseConflict.
Inductive t :=
  | UnexpectedForExistingCandidate (state : Z) (transition : TransitionId)
  | UnexpectedBeforeAllocationIntent (state : Z)
  | ForeignTransition (state : Z) (transition : TransitionId)
  | CandidateStateMismatch (expected actual : Z)
  | InconsistentAuditOwnership (state : Z) (audit_present : bool) (ownership : TransitionOwnership).
#[global] Instance t_eq_dec : EqDecision t.
Proof. solve_decision. Defined.
End DatabaseConflict.

Module DatabaseEvidence.
Inductive t :=
  | AllocationNotObserved (previous : option ExistingStateEvidence)
  | AllocationCommittedBehindJournal (state : Z) (provenance : option MetadataProvenance)
      (previous : option ExistingStateEvidence)
  | CandidateOwnership (state : Z) (ownership : TransitionOwnership) (provenance : option MetadataProvenance)
      (previous : option ExistingStateEvidence)
  | ExistingCandidate (candidate : ExistingStateEvidence) (provenance : option MetadataProvenance)
      (previous : option ExistingStateEvidence)
  | Conflict (conflict : DatabaseConflict.t).
#[global] Instance t_eq_dec : EqDecision t.
Proof. solve_decision. Defined.
End DatabaseEvidence.

(** The errors of [InspectionError] that the database raises. *)
Module InspectionError.
Inductive t :=
  | Database (e : TransitionEvidenceError.t)
  | MetadataProvenance (e : MetadataProvenanceError.t).
End InspectionError.

Abbreviation inspection := (tx tables InspectionError.t).

Definition ownership_of (state : Z) (record : TransitionRecord) : inspection TransitionOwnership :=
  map_tx_err InspectionError.Database (transition_ownership state (transition_id record)).
Definition provenance_of (state : Z) : inspection (option MetadataProvenance) :=
  map_tx_err InspectionError.MetadataProvenance (metadata_provenance state).

Definition inspect_previous_state (record : TransitionRecord) (candidate : option Z) :
    inspection (option ExistingStateEvidence) :=
  match prev_id (previous record) with
  | None => mret None
  | Some prev =>
      if bool_decide (Some prev = candidate) then mret None
      else
        ownership ← ownership_of prev record;
        mret (Some {| ev_state := prev; ev_ownership := ownership |})
  end.

(** An operation on a candidate that exists already; [record.candidate.id.expect] *)
Definition inspect_existing (record : TransitionRecord) (in_flight : option InFlightTransition) :
    inspection DatabaseEvidence.t :=
  match in_flight with
  | Some row =>
      mret (DatabaseEvidence.Conflict
        (DatabaseConflict.UnexpectedForExistingCandidate (in_flight_state row) (in_flight_transition row)))
  | None =>
      let id := default 0%Z (cand_id (candidate record)) in
      ownership ← ownership_of id record;
      provenance ← provenance_of id;
      prev ← inspect_previous_state record (Some id);
      mret (DatabaseEvidence.ExistingCandidate {| ev_state := id; ev_ownership := ownership |} provenance prev)
  end.

(** A fresh state whose identifier the journal does not know *)
Definition inspect_unallocated (record : TransitionRecord) (in_flight : option InFlightTransition) :
    inspection DatabaseEvidence.t :=
  prev ← inspect_previous_state record None;
  match in_flight with
  | None => mret (DatabaseEvidence.AllocationNotObserved prev)
  | Some row =>
      if negb (bool_decide (in_flight_transition row = transition_id record)) then
        mret (DatabaseEvidence.Conflict
          (DatabaseConflict.ForeignTransition (in_flight_state row) (in_flight_transition row)))
      else if negb (bool_decide (phase record = Phase.FreshStateAllocating)) then
        mret (DatabaseEvidence.Conflict (DatabaseConflict.UnexpectedBeforeAllocationIntent (in_flight_state row)))
      else
        provenance ← provenance_of (in_flight_state row);
        mret (DatabaseEvidence.AllocationCommittedBehindJournal (in_flight_state row) provenance prev)
  end.

Definition audit_conflict (record : TransitionRecord) (id : Z) (in_flight : option InFlightTransition) :
    option DatabaseConflict.t :=
  match in_flight with
  | None => None
  | Some row =>
      if negb (bool_decide (in_flight_transition row = transition_id record)) then
        Some (DatabaseConflict.ForeignTransition (in_flight_state row) (in_flight_transition row))
      else if negb (bool_decide (in_flight_state row = id)) then
        Some (DatabaseConflict.CandidateStateMismatch id (in_flight_state row))
      else None
  end.

Definition inspect_allocated (record : TransitionRecord) (id : Z) (in_flight : option InFlightTransition) :
    inspection DatabaseEvidence.t :=
  match audit_conflict record id in_flight with
  | Some conflict => mret (DatabaseEvidence.Conflict conflict)
  | None =>
      let audit_present := bool_decide (is_Some in_flight) in
      ownership ← ownership_of id record;
      let ownership_consistent :=
        if audit_present then bool_decide (ownership = Matching)
        else bool_decide (ownership = Cleared) || bool_decide (ownership = Missing) in
      if negb ownership_consistent then
        mret (DatabaseEvidence.Conflict (DatabaseConflict.InconsistentAuditOwnership id audit_present ownership))
      else
        prev ← inspect_previous_state record (Some id);
        provenance ← provenance_of id;
        mret (DatabaseEvidence.CandidateOwnership id ownership provenance prev)
  end.

Definition inspect_database (record : TransitionRecord) (in_flight : option InFlightTransition) :
    inspection DatabaseEvidence.t :=
  if negb (bool_decide (operation record = NewState)) then inspect_existing record in_flight
  else match cand_id (candidate record) with
       | None => inspect_unallocated record in_flight
       | Some id => inspect_allocated record id in_flight
       end.

(** ** Compatibility *)

Module FreshDatabaseExpectation.
Inductive t := Matching | MatchingOrCleared | Cleared | MatchingOrMissing | Missing.
End FreshDatabaseExpectation.

Definition fresh_database_expectation (record : TransitionRecord) : FreshDatabaseExpectation.t :=
  match rollback record with
  | None =>
      match phase record with
      | Phase.CommitDecided => FreshDatabaseExpectation.MatchingOrCleared
      | Phase.CommitCleanupComplete | Phase.Complete => FreshDatabaseExpectation.Cleared
      | _ => FreshDatabaseExpectation.Matching
      end
  | Some plan =>
      match rp_fresh_db plan with
      | RollbackAction.Pending =>
          if bool_decide (phase record = Phase.FreshDbInvalidationIntent)
          then FreshDatabaseExpectation.MatchingOrMissing else FreshDatabaseExpectation.Matching
      | RollbackAction.Applied | RollbackAction.AlreadySatisfied => FreshDatabaseExpectation.Missing
      | RollbackAction.NotRequired => FreshDatabaseExpectation.Matching
      end
  end.

Definition previous_state_compatible (previous : option ExistingStateEvidence) : bool :=
  match previous with
  | None => true
  | Some previous => bool_decide (ev_ownership previous = Cleared)
  end.

Definition ownership_expected (e : FreshDatabaseExpectation.t) (ownership : TransitionOwnership) : bool :=
  match e with
  | FreshDatabaseExpectation.Matching => bool_decide (ownership = Matching)
  | FreshDatabaseExpectation.MatchingOrCleared =>
      bool_decide (ownership = Matching) || bool_decide (ownership = Cleared)
  | FreshDatabaseExpectation.Cleared => bool_decide (ownership = Cleared)
  | FreshDatabaseExpectation.MatchingOrMissing =>
      bool_decide (ownership = Matching) || bool_decide (ownership = Missing)
  | FreshDatabaseExpectation.Missing => bool_decide (ownership = Missing)
  end.

Definition database_ownership_evidence_compatible (record : TransitionRecord) (evidence : DatabaseEvidence.t) : bool :=
  match evidence with
  | DatabaseEvidence.AllocationNotObserved prev =>
      previous_state_compatible prev
      && bool_decide (cand_id (candidate record) = None)
      && (bool_decide (phase record = Phase.Preparing \/ phase record = Phase.FreshStateAllocating)
          || match rollback record with
             | None => false
             | Some plan =>
                 bool_decide (rp_fresh_db plan = RollbackAction.NotRequired
                              \/ rp_fresh_db plan = RollbackAction.AlreadySatisfied)
             end)
  | DatabaseEvidence.AllocationCommittedBehindJournal _ _ prev =>
      previous_state_compatible prev && bool_decide (phase record = Phase.FreshStateAllocating)
  | DatabaseEvidence.CandidateOwnership _ ownership _ prev =>
      previous_state_compatible prev && ownership_expected (fresh_database_expectation record) ownership
  | DatabaseEvidence.ExistingCandidate candidate _ prev =>
      bool_decide (ev_ownership candidate = Cleared)
      && match prev with None => true | Some prev => bool_decide (ev_ownership prev = Cleared) end
  | DatabaseEvidence.Conflict _ => false
  end.

Module FreshProvenanceExpectation.
Inductive t := Absent | Optional | Present.
End FreshProvenanceExpectation.

Definition forward_provenance_expectation (phase : ForwardPhase.t) : FreshProvenanceExpectation.t :=
  match phase with
  | ForwardPhase.Preparing | ForwardPhase.FreshStateAllocating | ForwardPhase.FreshStateAllocated =>
      FreshProvenanceExpectation.Absent
  | ForwardPhase.CandidatePrepareStarted => FreshProvenanceExpectation.Optional
  | _ => FreshProvenanceExpectation.Present
  end.

Definition fresh_provenance_expectation (record : TransitionRecord) : FreshProvenanceExpectation.t :=
  match rollback record with
  | Some plan =>
      match rp_fresh_db plan with
      | RollbackAction.Applied | RollbackAction.AlreadySatisfied => FreshProvenanceExpectation.Absent
      | RollbackAction.Pending | RollbackAction.NotRequired => forward_provenance_expectation (rp_source plan)
      end
  | None =>
      match phase record with
      | Phase.Preparing | Phase.FreshStateAllocating | Phase.FreshStateAllocated => FreshProvenanceExpectation.Absent
      | Phase.CandidatePrepareStarted => FreshProvenanceExpectation.Optional
      | _ => FreshProvenanceExpectation.Present
      end
  end.

Definition provenance_expected (e : FreshProvenanceExpectation.t) (provenance : option MetadataProvenance) : bool :=
  match e with
  | FreshProvenanceExpectation.Absent => bool_decide (provenance = None)
  | FreshProvenanceExpectation.Optional => true
  | FreshProvenanceExpectation.Present => bool_decide (is_Some provenance)
  end.

Definition metadata_provenance_evidence_compatible (record : TransitionRecord) (evidence : DatabaseEvidence.t) : bool :=
  match evidence with
  | DatabaseEvidence.AllocationNotObserved _ => true
  | DatabaseEvidence.AllocationCommittedBehindJournal _ provenance _ => bool_decide (provenance = None)
  | DatabaseEvidence.CandidateOwnership _ ownership provenance _ =>
      if bool_decide (ownership = Missing) then bool_decide (provenance = None)
      else provenance_expected (fresh_provenance_expectation record) provenance
  | DatabaseEvidence.ExistingCandidate _ provenance _ => bool_decide (is_Some provenance)
  | DatabaseEvidence.Conflict _ => false
  end.

(** ** Startup's question to the database

    [CleanSystemStartup::enter] audits the transitions in flight and hands the answer to
    [inspect_database] ([startup_gate.rs], [PendingSystemTransition::inspect]). *)
Definition inspect_startup (record : TransitionRecord) : inspection DatabaseEvidence.t :=
  in_flight ← map_tx_err InspectionError.Database audit_in_flight_transition;
  inspect_database record in_flight.

(** Neither [DatabaseConflict] nor [MetadataProvenanceConflict] blocks recovery. *)
Definition database_admits (record : TransitionRecord) (t : tables) : bool :=
  match run (inspect_startup record) t with
  | (Ok evidence, _) =>
      database_ownership_evidence_compatible record evidence && metadata_provenance_evidence_compatible record evidence
  | (Err _, _) => false
  end.
