(* ===== verification/StartupEvidenceTheorems.v ===== *)
(** * What the database evidence means

    Startup admits a database for the record of a journal exactly when the rows are those
    the transition can have left at that record ([admits_iff]). *)

From S2P Require Import Prelude ByteStrings Ordered SqlDb SqlTx JournalModel JournalValidation JournalMachine StateDb StateDbExact StateDbInvariant StateDbTheorems StartupEvidence.

(** ** The rows a transition leaves *)

(** A state that no transition owns *)
Definition settled_row (t : tables) (id : Z) : Prop := exists row, t_state t !! id = Some row /\ r_transition_id row = None.

Definition none_in_flight (t : tables) : Prop := forall i raw, ~ carried t i raw.

(** The transition of [r] owns exactly the state [id]. *)
Definition owns (r : TransitionRecord) (t : tables) (id : Z) : Prop :=
  carried t id (transition_id_text (transition_id r)) /\ forall i raw, carried t i raw -> i = id.

(** The rows of the candidate [id] under an expectation *)
Definition candidate_rows (r : TransitionRecord) (t : tables) (id : Z) (e : FreshDatabaseExpectation.t) : Prop :=
  let present := provenance_expected (fresh_provenance_expectation r) (t_provenance t !! id) = true in
  let matching := owns r t id /\ present in
  let cleared := none_in_flight t /\ settled_row t id /\ present in
  let missing := none_in_flight t /\ t_state t !! id = None /\ t_provenance t !! id = None in
  match e with
  | FreshDatabaseExpectation.Matching => matching
  | FreshDatabaseExpectation.MatchingOrCleared => matching \/ cleared
  | FreshDatabaseExpectation.Cleared => cleared
  | FreshDatabaseExpectation.MatchingOrMissing => matching \/ missing
  | FreshDatabaseExpectation.Missing => missing
  end.

Definition allocation_open (r : TransitionRecord) : Prop :=
  phase r = Phase.Preparing \/ phase r = Phase.FreshStateAllocating
  \/ exists plan, rollback r = Some plan
       /\ (rp_fresh_db plan = RollbackAction.NotRequired \/ rp_fresh_db plan = RollbackAction.AlreadySatisfied).

Definition tracks (r : TransitionRecord) (t : tables) : Prop :=
  (forall p, prev_id (previous r) = Some p -> cand_id (candidate r) <> Some p -> settled_row t p)
  /\ match operation r, cand_id (candidate r) with
     | NewState, None =>
         none_in_flight t /\ allocation_open r
         \/ phase r = Phase.FreshStateAllocating /\ exists id, owns r t id /\ t_provenance t !! id = None
     | NewState, Some id => candidate_rows r t id (fresh_database_expectation r)
     | _, id =>
         none_in_flight t /\ settled_row t (default 0%Z id) /\ is_Some (t_provenance t !! default 0%Z id)
     end.

(** ** Reading *)

Section reading.
Context `{Sqlite} `{Chrono}.

Lemma run_ownership id tr t : run (transition_ownership id tr) t =
  (classify_ownership id tr (r_transition_id <$> t_state t !! id), t).
Proof. unfold transition_ownership. by rewrite run_bind, run_select, run_lift by lawful. Qed.

Lemma ownership_lawful id r : lawful (ownership_of id r).
Proof. unfold ownership_of, transition_ownership. lawful. Qed.

Lemma provenance_of_lawful id : lawful (provenance_of id).
Proof. unfold provenance_of, metadata_provenance, metadata_provenance_impl. lawful. Qed.

Definition canonical (tr : TransitionId) : Prop := TransitionId_parse (transition_id_text tr) = Some tr.

(** The ownership of a state as a value, in well-formed tables *)
Definition ownership_at (t : tables) (id : Z) (tr : TransitionId) : TransitionOwnership :=
  match t_state t !! id with
  | None => Missing
  | Some row =>
      match r_transition_id row with
      | None => Cleared
      | Some raw => if bool_decide (raw = transition_id_text tr) then Matching else Foreign
      end
  end.

Lemma run_ownership_of id r t : well_formed t -> canonical (transition_id r) ->
  run (ownership_of id r) t = (Ok (ownership_at t id (transition_id r)), t).
Proof.
  intros Hw Hc. unfold ownership_of, ownership_at. rewrite run_map_err, run_ownership by (unfold transition_ownership; lawful).
  destruct (t_state t !! id) as [row|] eqn:Hrow; [cbn|done]. destruct (r_transition_id row) as [raw|] eqn:Hraw; [cbn|done].
  unfold parse_transition_evidence. rewrite (carried_canonical t id raw Hw) by (by exists row). cbn.
  do 2 f_equal. unfold canonical in Hc. case_bool_decide as He; case_bool_decide as Hr; try done.
  - destruct Hr. by rewrite <- He.
  - destruct He. subst raw. by destruct (transition_id r).
Qed.

Lemma run_provenance_of id t : well_formed t -> run (provenance_of id) t = (Ok (t_provenance t !! id), t).
Proof.
  intros Hw. unfold provenance_of, metadata_provenance, metadata_provenance_impl.
  rewrite run_map_err, run_bind, run_select by lawful. destruct (t_provenance t !! id) as [p|] eqn:Hp; [|done].
  rewrite run_bind, run_lift by lawful. apply (wf_provenance t Hw) in Hp as (_ & _ & Hck). unfold provenance_checks in Hck.
  apply andb_true_iff in Hck as [H1 H2]. unfold decode_provenance, decode_digest, DIGEST_BYTES. rewrite H1, H2. by destruct p.
Qed.

Lemma ownership_cleared t id tr : ownership_at t id tr = Cleared <-> settled_row t id.
Proof.
  unfold ownership_at, settled_row. destruct (t_state t !! id) as [row|]; [|naive_solver].
  destruct (r_transition_id row) as [raw|] eqn:Hr; [case_bool_decide|]; naive_solver congruence.
Qed.

Lemma ownership_missing t id tr : ownership_at t id tr = Missing <-> t_state t !! id = None.
Proof.
  unfold ownership_at. destruct (t_state t !! id) as [row|]; [|done].
  destruct (r_transition_id row) as [raw|]; [case_bool_decide|]; done.
Qed.

Lemma ownership_matching_iff t id tr : ownership_at t id tr = Matching <-> carried t id (transition_id_text tr).
Proof.
  unfold ownership_at, carried. destruct (t_state t !! id) as [row|]; [|naive_solver].
  destruct (r_transition_id row) as [raw|] eqn:Hr; [case_bool_decide|]; naive_solver congruence.
Qed.

Definition previous_at (r : TransitionRecord) (cand : option Z) (t : tables) : option ExistingStateEvidence :=
  match prev_id (previous r) with
  | None => None
  | Some p =>
      if bool_decide (Some p = cand) then None
      else Some {| ev_state := p; ev_ownership := ownership_at t p (transition_id r) |}
  end.

Lemma run_previous r cand t : well_formed t -> canonical (transition_id r) ->
  run (inspect_previous_state r cand) t = (Ok (previous_at r cand t), t).
Proof.
  intros Hw Hc. unfold inspect_previous_state, previous_at. destruct (prev_id (previous r)) as [p|]; [|done].
  destruct (bool_decide _); [done|]. by rewrite run_bind, run_ownership_of by (done || apply ownership_lawful).
Qed.

Lemma previous_lawful r cand : lawful (inspect_previous_state r cand).
Proof. pose proof ownership_lawful. unfold inspect_previous_state. lawful. Qed.

Lemma previous_compatible_iff r cand t : previous_state_compatible (previous_at r cand t) = true <->
  (forall p, prev_id (previous r) = Some p -> cand <> Some p -> settled_row t p).
Proof.
  unfold previous_at, previous_state_compatible. destruct (prev_id (previous r)) as [p|]; [|naive_solver].
  case_bool_decide as He; [naive_solver|]. cbn. rewrite bool_decide_eq_true, ownership_cleared. naive_solver.
Qed.

(** ** The three kinds of records *)

Lemma run_startup_audit r t : well_formed t ->
  run (inspect_startup r) t =
  match run audit_in_flight_transition t with
  | (Ok f, _) => run (inspect_database r f) t
  | (Err e, _) => (Err (InspectionError.Database e), t)
  end.
Proof.
  intros Hw. unfold inspect_startup. assert (lawful audit_in_flight_transition) as Hl by (unfold audit_in_flight_transition; lawful).
  rewrite run_bind, run_map_err by (try apply lawful_map_err; done). rewrite run_audit. cbn.
  by destruct (x ← try_map _ _; _).
Qed.

(** What the audit hands to the inspection *)
Lemma audit_cases t : well_formed t ->
  (run audit_in_flight_transition t = (Ok None, t) /\ none_in_flight t)
  \/ (exists f, run audit_in_flight_transition t = (Ok (Some f), t)
       /\ carried t (in_flight_state f) (transition_id_text (in_flight_transition f))
       /\ (forall i raw, carried t i raw -> i = in_flight_state f))
  \/ (exists e i1 raw1 i2 raw2, run audit_in_flight_transition t = (Err e, t) /\ i1 <> i2 /\ carried t i1 raw1 /\ carried t i2 raw2).
Proof.
  intros Hw. pose proof (audit_exact t Hw) as Ha. destruct (run audit_in_flight_transition t) as [[[f|]|[]] u]; try done.
  - destruct Ha as (-> & Hc & Hu). eauto 6.
  - destruct Ha as [-> Hn]. auto.
  - destruct Ha as (-> & i1 & raw1 & i2 & raw2 & Ha). right; right. eexists _, i1, raw1, i2, raw2. eauto.
Qed.

Lemma carried_same t id raw raw' : carried t id raw -> carried t id raw' -> raw = raw'.
Proof. intros (r1 & H1 & H2) (r2 & H3 & H4). congruence. Qed.

Lemma text_inj (a b : TransitionId) : transition_id_text a = transition_id_text b -> a = b.
Proof. by destruct a, b; intros [= ->]. Qed.

Lemma owns_in_flight r t id f : carried t (in_flight_state f) (transition_id_text (in_flight_transition f)) ->
  owns r t id -> in_flight_state f = id /\ in_flight_transition f = transition_id r.
Proof.
  intros Hf [Hc Hu]. pose proof (Hu _ _ Hf) as E. split; [done|]. apply text_inj. rewrite E in Hf. by eapply carried_same.
Qed.

Lemma in_flight_not_none f t : carried t (in_flight_state f) (transition_id_text (in_flight_transition f)) -> ~ none_in_flight t.
Proof. intros Hc Hn. by eapply Hn. Qed.

Lemma allocation_open_iff r :
  (bool_decide (phase r = Phase.Preparing \/ phase r = Phase.FreshStateAllocating)
   || match rollback r with
      | None => false
      | Some plan => bool_decide (rp_fresh_db plan = RollbackAction.NotRequired \/ rp_fresh_db plan = RollbackAction.AlreadySatisfied)
      end) = true <-> allocation_open r.
Proof.
  unfold allocation_open. rewrite orb_true_iff, bool_decide_eq_true. destruct (rollback r) as [plan|]; rewrite ?bool_decide_eq_true; naive_solver.
Qed.

Lemma existing_candidate r : valid r -> operation r <> NewState -> is_Some (cand_id (candidate r)).
Proof.
  intros [lp F]%valid_iff_facts Hop. pose proof (vf_candidate r lp F) as Hv. unfold validate_candidate_layout in Hv.
  destruct (operation r); [done|..]; inv_ok; bool_prop; destruct (cand_id (candidate r)); naive_solver.
Qed.

Lemma admits_existing r t : well_formed t -> canonical (transition_id r) -> valid r -> operation r <> NewState ->
  database_admits r t = true <-> tracks r t.
Proof.
  intros Hw Hc Hv Hop. unfold database_admits, tracks. rewrite run_startup_audit by done. set (id := default 0%Z (cand_id (candidate r))).
  assert (match operation r, cand_id (candidate r) with
    | NewState, None => none_in_flight t /\ allocation_open r \/ phase r = Phase.FreshStateAllocating /\ exists id, owns r t id /\ t_provenance t !! id = None
    | NewState, Some id => candidate_rows r t id (fresh_database_expectation r)
    | _, _ => none_in_flight t /\ settled_row t id /\ is_Some (t_provenance t !! id)
    end <-> none_in_flight t /\ settled_row t id /\ is_Some (t_provenance t !! id)) as -> by (by destruct (operation r)).
  unfold inspect_database. rewrite bool_decide_eq_false_2 by done. cbn [negb].
  destruct (audit_cases t Hw) as [[-> Hn]|[(f & -> & Hf & _)|(e & i1 & raw1 & i2 & raw2 & -> & _ & Hc1 & _)]]; cbn [inspect_existing].
  2: { split; [done|]. intros (_ & Hn & _). by destruct (in_flight_not_none f t). }
  2: { split; [done|]. intros (_ & Hn & _). by destruct (Hn i1 raw1). }
  fold id. rewrite run_bind, run_ownership_of by (done || apply ownership_lawful).
  rewrite run_bind, run_provenance_of by (done || apply provenance_of_lawful).
  rewrite run_bind, run_previous by (done || apply previous_lawful). cbn.
  change (match previous_at r (Some id) t with Some prev => bool_decide (ev_ownership prev = Cleared) | None => true end)
    with (previous_state_compatible (previous_at r (Some id) t)).
  rewrite !andb_true_iff, previous_compatible_iff, !bool_decide_eq_true, ownership_cleared.
  assert (cand_id (candidate r) = Some id) as Hid.
  { destruct (existing_candidate r Hv Hop) as [i Hi]. unfold id. by rewrite Hi. }
  rewrite Hid. tauto.
Qed.

Lemma admits_unallocated r t : well_formed t -> canonical (transition_id r) -> operation r = NewState ->
  cand_id (candidate r) = None -> database_admits r t = true <-> tracks r t.
Proof.
  intros Hw Hc Hop Hid. unfold database_admits, tracks. rewrite run_startup_audit, Hop, Hid by done.
  unfold inspect_database. rewrite bool_decide_eq_true_2, Hid by done. cbn [negb]. unfold inspect_unallocated.
  destruct (audit_cases t Hw) as [[-> Hn]|[(f & -> & Hf & Hu)|(e & i1 & raw1 & i2 & raw2 & -> & Hne & Hc1 & Hc2)]].
  - rewrite run_bind, run_previous by (done || apply previous_lawful). cbn [database_ownership_evidence_compatible
      metadata_provenance_evidence_compatible]. rewrite run_ret, andb_true_r. cbn.
    rewrite !andb_true_iff, allocation_open_iff, previous_compatible_iff, bool_decide_eq_true.
    split; [tauto|]. intros [Hp [[_ Ho]|(_ & id & [Hcar _] & _)]]; [done|by destruct (Hn _ _ Hcar)].
  - rewrite run_bind, run_previous by (done || apply previous_lawful).
    assert (forall id, owns r t id -> id = in_flight_state f /\ in_flight_transition f = transition_id r) as Ho.
    { intros id Hown. destruct (owns_in_flight r t id f Hf Hown). done. }
    pose proof (in_flight_not_none f t Hf) as Hnn.
    case_bool_decide as Htr; cbn [negb].
    2: { split; [done|]. intros [_ [[Hn _]|(_ & id & Hown & _)]]; [done|by apply Ho in Hown as [_ ?]]. }
    case_bool_decide as Hph; cbn [negb].
    2: { split; [done|]. intros [_ [[Hn _]|(? & _)]]; done. }
    rewrite run_bind, run_provenance_of by (done || apply provenance_of_lawful). rewrite run_ret. cbn.
    rewrite !andb_true_iff, previous_compatible_iff, !bool_decide_eq_true. rewrite Htr in Hf.
    split.
    + intros [[Hp _] Hprov]. split; [done|]. right. split; [done|]. exists (in_flight_state f). by split.
    + intros [Hp [[Hn _]|(_ & id & Hown & Hprov)]]; [done|]. destruct (Ho id Hown) as [-> _]. done.
  - split; [done|]. intros [_ [[Hn _]|(_ & id & [_ Hu] & _)]]; [by destruct (Hn _ _ Hc1)|].
    apply Hu in Hc1. apply Hu in Hc2. congruence.
Qed.

Lemma none_in_flight_ownership t id tr : none_in_flight t -> ownership_at t id tr = Cleared \/ ownership_at t id tr = Missing.
Proof.
  intros Hn. unfold ownership_at. destruct (t_state t !! id) as [row|] eqn:Hr; [|by right].
  destruct (r_transition_id row) as [raw|] eqn:Ht; [|by left]. destruct (Hn id raw). by exists row.
Qed.

Lemma ownership_expected_iff e o : ownership_expected e o = true <->
  match e with
  | FreshDatabaseExpectation.Matching => o = Matching
  | FreshDatabaseExpectation.MatchingOrCleared => o = Matching \/ o = Cleared
  | FreshDatabaseExpectation.Cleared => o = Cleared
  | FreshDatabaseExpectation.MatchingOrMissing => o = Matching \/ o = Missing
  | FreshDatabaseExpectation.Missing => o = Missing
  end.
Proof. destruct e; cbn; by rewrite ?orb_true_iff, ?bool_decide_eq_true. Qed.

(** The evidence of a candidate, as the rows it stands for *)
Lemma candidate_rows_iff r t id (o := ownership_at t id (transition_id r)) :
  (owns r t id \/ none_in_flight t) ->
  (ownership_expected (fresh_database_expectation r) o = true
   /\ (if bool_decide (o = Missing) then bool_decide (t_provenance t !! id = None)
       else provenance_expected (fresh_provenance_expectation r) (t_provenance t !! id)) = true)
  <-> candidate_rows r t id (fresh_database_expectation r).
Proof.
  intros Hor. unfold candidate_rows.
  assert (owns r t id -> o = Matching /\ ~ none_in_flight t) as Hmatch.
  { intros [Hc _]. split; [by apply ownership_matching_iff|]. intros Hn. by eapply Hn. }
  assert (o = Missing <-> t_state t !! id = None) as Hmiss by apply ownership_missing.
  assert (o = Cleared <-> settled_row t id) as Hclear by apply ownership_cleared.
  assert (none_in_flight t -> o <> Matching) as Hnm.
  { intros Hn Ho%ownership_matching_iff. by eapply Hn. }
  rewrite ownership_expected_iff. destruct Hor as [Ho|Hn].
  - destruct (Hmatch Ho) as [-> Hnn]. rewrite bool_decide_eq_false_2 by done.
    destruct (fresh_database_expectation r); intuition congruence.
  - assert (~ owns r t id) as Hno by (intros Ho; by destruct (Hmatch Ho)).
    destruct (none_in_flight_ownership t id (transition_id r) Hn) as [Eo|Eo]; fold o in Eo; rewrite Eo in *.
    + rewrite bool_decide_eq_false_2 by done. destruct (fresh_database_expectation r); intuition congruence.
    + rewrite bool_decide_eq_true_2 by done. rewrite bool_decide_eq_true.
      destruct (fresh_database_expectation r); intuition congruence.
Qed.

Lemma admits_allocated r t id : well_formed t -> canonical (transition_id r) -> operation r = NewState ->
  cand_id (candidate r) = Some id -> database_admits r t = true <-> tracks r t.
Proof.
  intros Hw Hc Hop Hid. unfold database_admits, tracks. rewrite run_startup_audit, Hop, Hid by done.
  unfold inspect_database. rewrite bool_decide_eq_true_2, Hid by done. cbn [negb]. unfold inspect_allocated.
  assert (candidate_rows r t id (fresh_database_expectation r) -> owns r t id \/ none_in_flight t) as Hrows.
  { unfold candidate_rows. destruct (fresh_database_expectation r); tauto. }
  destruct (audit_cases t Hw) as [[-> Hn]|[(f & -> & Hf & Hu)|(e & i1 & raw1 & i2 & raw2 & -> & Hne & Hc1 & Hc2)]]; cbn [audit_conflict].
  - rewrite (bool_decide_eq_false_2 (is_Some None)) by (by intros []).
    rewrite run_bind, run_ownership_of by (done || apply ownership_lawful).
    destruct (negb _) eqn:En.
    { exfalso. destruct (none_in_flight_ownership t id (transition_id r) Hn) as [Eo|Eo]; rewrite Eo in En; done. }
    rewrite run_bind, run_previous by (done || apply previous_lawful).
    rewrite run_bind, run_provenance_of by (done || apply provenance_of_lawful). cbn.
    rewrite !andb_true_iff, previous_compatible_iff, <- (candidate_rows_iff r t id) by auto. tauto.
  - pose proof (in_flight_not_none f t Hf) as Hnn.
    assert (owns r t id -> in_flight_state f = id /\ in_flight_transition f = transition_id r) as Ho by (by apply owns_in_flight).
    case_bool_decide as Htr; cbn [negb].
    2: { split; [done|]. intros [_ [Hown|?]%Hrows]; [by destruct (Ho Hown)|done]. }
    case_bool_decide as Hst; cbn [negb].
    2: { split; [done|]. intros [_ [Hown|?]%Hrows]; [by destruct (Ho Hown)|done]. }
    rewrite Htr, Hst in Hf. assert (owns r t id) as Hown by (split; [done|]; intros i raw Hi; by rewrite (Hu i raw Hi)).
    rewrite (bool_decide_eq_true_2 (is_Some (Some f))) by done.
    rewrite run_bind, run_ownership_of by (done || apply ownership_lawful).
    rewrite (proj2 (ownership_matching_iff t id (transition_id r))) by done. cbn [negb].
    rewrite (bool_decide_eq_true_2 (Matching = Matching)) by done. cbn [negb].
    rewrite run_bind, run_previous by (done || apply previous_lawful).
    rewrite run_bind, run_provenance_of by (done || apply provenance_of_lawful). cbn [database_ownership_evidence_compatible
      metadata_provenance_evidence_compatible]. rewrite run_ret. cbn.
    rewrite <- (candidate_rows_iff r t id), (proj2 (ownership_matching_iff t id (transition_id r))) by auto.
    rewrite (bool_decide_eq_false_2 (Matching = Missing)) by done. rewrite !andb_true_iff, previous_compatible_iff. tauto.
  - split; [done|]. intros [_ [[_ Hu]|Hn]%Hrows]; [|by destruct (Hn _ _ Hc1)]. apply Hu in Hc1. apply Hu in Hc2. congruence.
Qed.

Lemma admits_tracks r t : well_formed t -> canonical (transition_id r) -> valid r ->
  database_admits r t = true <-> tracks r t.
Proof.
  intros Hw Hc Hv. destruct (decide (operation r = NewState)) as [Hop|Hop]; [|by apply admits_existing].
  destruct (cand_id (candidate r)) as [id|] eqn:Hid; [by eapply admits_allocated|by apply admits_unallocated].
Qed.

End reading.
