(* ===== verification/StateDbSamples.v ===== *)
(** * A state database

    Instances of the libraries below the database, tables with an active state and the row
    of a transition, and the witnesses of the theorems on the state database. *)

From S2P Require Import Prelude ByteStrings Ordered SqlDb SqlTx JournalModel JournalValidation JournalMachine JournalSuccessors StateDb StateDbExact StateDbInvariant StateDbTheorems StateDbRemoval StartupEvidence StartupEvidenceTheorems.

(** ** The libraries *)

#[export] Instance plain_sqlite : Sqlite := {| foreign_keys := true; scan := fun A l => rev l; like := fun _ _ => true |}.
#[export] Instance plain_sqlite_laws : SqliteLaws plain_sqlite.
Proof. split. intros A l. symmetry. apply Permutation_rev. Qed.

#[export] Instance plain_chrono : Chrono := {| timestamp_in_range := fun z => (0 <=? z)%Z |}.

(** ** Tables *)

(** An active state, and the row of a transition to its successor *)
Definition sample_row (id : option bytes) : StateRow :=
  {| r_type := bstr "transaction"; r_created := 1700000000; r_summary := None; r_description := None; r_transition_id := id |}.

Definition sample_tables : tables :=
  {| t_state := {[6%Z := sample_row None; 7%Z := sample_row (Some (transition_id_text (transition_id sample)))]}; t_sequence := 7;
     t_selections := {[(7%Z, bstr "pkg") := {| r_explicit := true; r_reason := None |}]};
     t_provenance := {[7%Z := {| os_release_sha256 := repeat x11 32; system_model_sha256 := repeat x22 32 |}]};
     t_migrations := ∅ |}.

Lemma sample_tables_well_formed : well_formed sample_tables.
Proof.
  assert (forall id row, t_state sample_tables !! id = Some row ->
    id = 6%Z /\ row = sample_row None \/ id = 7%Z /\ row = sample_row (Some (transition_id_text (transition_id sample)))) as Hs.
  { intros id row. cbn. rewrite lookup_insert_Some, lookup_singleton_Some. naive_solver. }
  split; try done.
  - intros id row [[-> ->]|[-> ->]]%Hs; (split; [cbn; lia|done]).
  - intros id1 row1 id2 row2 [[-> ->]|[-> ->]]%Hs [[-> ->]|[-> ->]]%Hs; done.
  - intros key row. cbn. intros [<- <-]%lookup_singleton_Some. split; [done|]. by eexists.
  - intros id p. cbn. intros [<- <-]%lookup_singleton_Some. split_and!; [done|by eexists|by vm_compute].
Qed.

(** ** The witnesses *)

Lemma add_exact_witness : exists state,
  run (add_inner 1700000001 [explicit (bstr "pkg"); explicit (bstr "lib")] None None None) sample_tables
    = (Ok state, with_state sample_tables (new_state 1700000001 None None None) [explicit (bstr "pkg"); explicit (bstr "lib")])
  /\ state_id state = 8%Z.
Proof.
  destruct (add_exact 1700000001 [explicit (bstr "pkg"); explicit (bstr "lib")] None None None sample_tables [])
    as (state & Hid & _ & _ & _ & _ & Hrun & _).
  - apply sample_tables_well_formed.
  - repeat constructor; set_solver.
  - intros id [=].
  - reflexivity.
  - exists state. split; [exact Hrun|exact Hid].
Defined.

Lemma fresh_removal_truthful_witness : exists pre absence,
  (remove_exact_fresh_transition 0 pre (sample_tables, [])).1 = Ok absence.
Proof.
  assert (exists pre, inspected 0 7 (transition_id sample) sample_tables = Ok (ExactFreshTransitionObservation.Present pre)
    /\ state_id (pre_state pre) = 7%Z /\ pre_transition_id pre = transition_id sample) as (pre & Hpre & Hid & Htr).
  { eexists. split; [vm_compute; reflexivity|]. split; reflexivity. }
  exists pre. pose proof (fresh_removal_truthful 0 pre sample_tables []) as Ht.
  destruct (remove_exact_fresh_transition 0 pre (sample_tables, [])) as [answer [t' fs]]. destruct Ht as (_ & _ & Ht).
  apply Ht; [reflexivity|]. rewrite Hid, Htr. exact Hpre.
Defined.

(** The record that finds the row: the intent of the exchange *)
Definition sample_intent : TransitionRecord := with_step 8 Phase.UsrExchangeIntent None None (Some 7%Z) sample.

