(* ===== verification/Coordinator.v ===== *)
(** * The transition coordinator

    [crates/forge/src/transition_identity/journal_coordinator]: [mod.rs], [request.rs]
    and [candidate_preparation.rs], and the prefix of [new_state_forward.rs] that ends
    with a prepared candidate.  The coordinator owns a transition from its first durable
    record on and writes two stores, the journal and the state database; between the
    writes it reads both again and revalidates the descriptors it retains.

    The world holds both stores.  The journal is the register that its store implements
    over the file system; creating or advancing it may fail, before or after the record
    is durable, like a commit of the database.  What retained descriptors, procfs and the
    random number generator answer is an input of a run ([environment]): a check of a
    tree that is not answered is refused. *)

From S2P Require Import Prelude ByteStrings Ordered SqlDb SqlTx JournalModel JournalValidation JournalMachine JournalSuccessors StateDb.

(** ** Requests *)

Module NewStatePrevious.
Inductive t := Active (state : Z) | SynthesizedEmpty | Unmanaged.
End NewStatePrevious.

Module Request.
Inductive t :=
  | NewState (previous : NewStatePrevious.t) (run_system_triggers run_boot_sync : bool)
  | ActivateArchived (candidate previous : Z) (run_system_triggers run_boot_sync : bool)
  | ActiveReblit (state : Z) (run_system_triggers run_boot_sync : bool).
End Request.

Record RequestParts := {
  rq_operation : Operation;
  rq_candidate_id : option Z;
  rq_previous_id : option Z;
  rq_previous_origin : PreviousOrigin.t;
  rq_run_system_triggers : bool;
  rq_run_boot_sync : bool;
}.

Definition parts (self : Request.t) : RequestParts :=
  match self with
  | Request.NewState prev st bs =>
      let '(id, origin) :=
        match prev with
        | NewStatePrevious.Active state => (Some state, PreviousOrigin.ActiveState)
        | NewStatePrevious.SynthesizedEmpty => (None, PreviousOrigin.SynthesizedEmpty)
        | NewStatePrevious.Unmanaged => (None, PreviousOrigin.Unmanaged)
        end in
      {| rq_operation := NewState; rq_candidate_id := None; rq_previous_id := id; rq_previous_origin := origin;
         rq_run_system_triggers := st; rq_run_boot_sync := bs |}
  | Request.ActivateArchived cand prev st bs =>
      {| rq_operation := ActivateArchived; rq_candidate_id := Some cand; rq_previous_id := Some prev;
         rq_previous_origin := PreviousOrigin.ActiveState; rq_run_system_triggers := st; rq_run_boot_sync := bs |}
  | Request.ActiveReblit state st bs =>
      {| rq_operation := ActiveReblit; rq_candidate_id := Some state; rq_previous_id := Some state;
         rq_previous_origin := PreviousOrigin.ActiveReblitCorrupt; rq_run_system_triggers := st;
         rq_run_boot_sync := bs |}
  end.

(** ** The coordinator and its world *)

Module RetainedCandidateStateId.
Inductive t := UnknownIdAbsent | KnownIdAbsent (state : Z) | ExistingId (state : Z).
End RetainedCandidateStateId.

Module RetainedPreviousClassification.
Inductive t := Active (state : Z) | SynthesizedEmpty.
End RetainedPreviousClassification.

(** [StatefulTreeIdentity]; [state_database] is the instance of the database. *)
Record Identity := {
  state_database : nat;
  candidate_marker : TreeToken;
  previous_marker : TreeToken;
  candidate_state_id : RetainedCandidateStateId.t;
  previous_classification : RetainedPreviousClassification.t;
}.

Record Coordinator := { identity : Identity; record : TransitionRecord }.

Record CapturedRuntimeEvidence := {
  captured_epoch : RuntimeEpoch;
  captured_candidate : RuntimeTreeIdentity;
  captured_previous : RuntimeTreeIdentity;
}.

(** The answers still to come: of checks of retained trees, of captures of runtime
    evidence ([None] when a capture fails), of reads of [os-info.json] and of
    [getrandom]. *)
Record environment := {
  checks : list bool;
  captures : list (option CapturedRuntimeEvidence);
  os_infos : list (option (option bytes));
  random : list bytes;
}.

Record world := { journal : option TransitionRecord; database : tables; answers : environment }.

Module CoordinatorError.
Inductive t :=
  | GenerateTransitionId
  | RuntimeEvidence
  | RuntimeEpochChanged
  | RuntimeTreeIdentityChanged (tree : bytes)
  | Identity
  | Record (e : CodecError.t)
  | Journal
  | CanonicalRecordChanged
  | CandidateMetadata
  | MetadataProvenance (e : MetadataProvenanceError.t)
  | UnexpectedOperation (expected actual : Operation)
  | UnexpectedPhase (expected actual : Phase.t)
  | CandidateAuthorityMismatch
  | CandidateStateMissing (phase : Phase.t)
  | PreviousClassificationMismatch
  | UnmanagedPreviousUnsupported
  | StateDatabaseCapabilityMismatch
  | StateEvidence (e : TransitionEvidenceError.t)
  | FreshAllocationOwnershipMismatch (state : Z) (ownership : TransitionOwnership)
  | ExistingCandidateOwnershipMismatch (state : Z) (ownership : TransitionOwnership)
  | PreviousStateOwnershipMismatch (state : Z) (ownership : TransitionOwnership)
  | TransitionAuditMismatch
  | StateIdPublication
  (** an error of [add_with_transition], which [execute_new_state_forward] reports *)
  | Database (e : DbError.t).
End CoordinatorError.

Abbreviation coordination := (tx world CoordinatorError.t).

Definition with_journal (j : option TransitionRecord) (w : world) : world :=
  {| journal := j; database := database w; answers := answers w |}.
Definition with_database (t : tables) (w : world) : world :=
  {| journal := journal w; database := t; answers := answers w |}.
Definition with_answers (e : environment) (w : world) : world :=
  {| journal := journal w; database := database w; answers := e |}.

(** An operation of the database *)
Definition on_database {E A} (f : E -> CoordinatorError.t) (m : tx tables E A) : coordination A := fun '(w, fs) =>
  let '(r, (t, fs')) := m (database w, fs) in (map_err f r, (with_database t w, fs')).

(** A check of a retained tree, by its descriptors or its name *)
Definition tree_check (e : CoordinatorError.t) : coordination unit := fun '(w, fs) =>
  let env := answers w in
  match checks env with
  | [] => (Err e, (w, fs))
  | answer :: rest =>
      (if answer then Ok tt else Err e,
       (with_answers {| checks := rest; captures := captures env; os_infos := os_infos env; random := random env |} w, fs))
  end.

Definition capture_runtime_evidence : coordination CapturedRuntimeEvidence := fun '(w, fs) =>
  let env := answers w in
  match captures env with
  | [] => (Err CoordinatorError.RuntimeEvidence, (w, fs))
  | answer :: rest =>
      (ok_or answer CoordinatorError.RuntimeEvidence,
       (with_answers {| checks := checks env; captures := rest; os_infos := os_infos env; random := random env |} w, fs))
  end.

Definition read_optional_os_info : coordination (option bytes) := fun '(w, fs) =>
  let env := answers w in
  match os_infos env with
  | [] => (Err CoordinatorError.CandidateMetadata, (w, fs))
  | answer :: rest =>
      (ok_or answer CoordinatorError.CandidateMetadata,
       (with_answers {| checks := checks env; captures := captures env; os_infos := rest; random := random env |} w, fs))
  end.

Definition generate_transition_id : coordination TransitionId := fun '(w, fs) =>
  let env := answers w in
  match random env with
  | [] => (Err CoordinatorError.GenerateTransitionId, (w, fs))
  | bytes :: rest =>
      (ok_or (TransitionId_generate bytes) CoordinatorError.GenerateTransitionId,
       (with_answers {| checks := checks env; captures := captures env; os_infos := os_infos env; random := rest |} w, fs))
  end.

(** ** The journal *)

Definition journal_write (guard : world -> bool) (next : TransitionRecord) : coordination unit := fun '(w, fs) =>
  if negb (guard w) then (Err CoordinatorError.Journal, (w, fs))
  else match fs with
       | [] | Runs :: _ => (Ok tt, (with_journal (Some next) w, tail fs))
       | Fails :: fs' => (Err CoordinatorError.Journal, (w, fs'))
       | ReportsError :: fs' => (Err CoordinatorError.Journal, (with_journal (Some next) w, fs'))
       end.

Definition journal_load : coordination (option TransitionRecord) := fun '(w, fs) =>
  match fs with
  | [] | Runs :: _ => (Ok (journal w), (w, tail fs))
  | _ :: fs' => (Err CoordinatorError.Journal, (w, fs'))
  end.

Definition journal_create (r : TransitionRecord) : coordination unit :=
  journal_write (fun w => bool_decide (journal w = None) && bool_decide (generation r = 1%Z)
    && bool_decide (phase r = Phase.Preparing) && bool_decide (rollback r = None) && is_ok (validate r)) r.

Definition journal_advance (expected next : TransitionRecord) : coordination unit :=
  journal_write (fun w => bool_decide (journal w = Some expected) && is_ok (validate_advance expected next)) next.

Definition require_no_journal : coordination unit :=
  found ← journal_load;
  lift (if bool_decide (is_Some found) then Err CoordinatorError.Identity else Ok tt).

(** ** Retained authority *)

(** [verify_initial] and [verify_candidate_store_with_state_id] are checks of the tree. *)
Definition require_unknown_id_absent (self : Identity) : coordination unit :=
  match candidate_state_id self with
  | RetainedCandidateStateId.UnknownIdAbsent => tree_check CoordinatorError.Identity
  | _ => lift (Err CoordinatorError.CandidateAuthorityMismatch)
  end.

Definition require_known_id_absent (self : Identity) (expected : Z) : coordination unit :=
  match candidate_state_id self with
  | RetainedCandidateStateId.KnownIdAbsent actual =>
      if bool_decide (actual = expected) then tree_check CoordinatorError.Identity
      else lift (Err CoordinatorError.CandidateAuthorityMismatch)
  | _ => lift (Err CoordinatorError.CandidateAuthorityMismatch)
  end.

Definition require_existing_candidate_id (self : Identity) (expected : Z) : coordination unit :=
  match candidate_state_id self with
  | RetainedCandidateStateId.ExistingId actual =>
      if bool_decide (actual = expected) then tree_check CoordinatorError.Identity
      else lift (Err CoordinatorError.CandidateAuthorityMismatch)
  | _ => lift (Err CoordinatorError.CandidateAuthorityMismatch)
  end.

Definition require_request_candidate (self : Identity) (p : RequestParts) : coordination unit :=
  match rq_operation p, rq_candidate_id p with
  | NewState, None => require_unknown_id_absent self
  | ActivateArchived, Some id => require_existing_candidate_id self id
  | ActiveReblit, Some id => require_known_id_absent self id
  | _, _ => lift (Err CoordinatorError.CandidateAuthorityMismatch)
  end.

Definition require_request_previous (self : Identity) (p : RequestParts) : result CoordinatorError.t unit :=
  if bool_decide (rq_previous_origin p = PreviousOrigin.Unmanaged) then
    Err CoordinatorError.UnmanagedPreviousUnsupported
  else
    let matches :=
      match rq_operation p, previous_classification self with
      | NewState, RetainedPreviousClassification.Active state
      | ActivateArchived, RetainedPreviousClassification.Active state =>
          bool_decide (rq_previous_origin p = PreviousOrigin.ActiveState)
          && bool_decide (rq_previous_id p = Some state)
      | NewState, RetainedPreviousClassification.SynthesizedEmpty =>
          bool_decide (rq_previous_origin p = PreviousOrigin.SynthesizedEmpty)
          && bool_decide (rq_previous_id p = None)
      | ActiveReblit, RetainedPreviousClassification.Active state =>
          bool_decide (rq_previous_origin p = PreviousOrigin.ActiveReblitCorrupt)
          && bool_decide (rq_previous_id p = Some state) && bool_decide (rq_candidate_id p = Some state)
      | _, RetainedPreviousClassification.SynthesizedEmpty => false
      end in
    if matches then Ok tt else Err CoordinatorError.PreviousClassificationMismatch.

(** ** Evidence of the database *)

Section evidence.
Context `{Sqlite} `{Chrono} `{Sha256}.

Definition ownership (state : Z) (transition : TransitionId) : coordination TransitionOwnership :=
  on_database CoordinatorError.StateEvidence (transition_ownership state transition).

Definition require_existing_candidate_database_ownership (state : Z) (transition : TransitionId) : coordination unit :=
  o ← ownership state transition;
  lift (if bool_decide (o = Cleared) then Ok tt
        else Err (CoordinatorError.ExistingCandidateOwnershipMismatch state o)).

Definition require_previous_state_database_ownership (previous candidate : option Z) (transition : TransitionId) :
    coordination unit :=
  match previous with
  | None => mret tt
  | Some prev =>
      if bool_decide (Some prev = candidate) then mret tt
      else
        o ← ownership prev transition;
        lift (if bool_decide (o = Cleared) then Ok tt
              else Err (CoordinatorError.PreviousStateOwnershipMismatch prev o))
  end.

Definition require_global_transition_audit (expected : option (Z * TransitionId)) : coordination unit :=
  actual ← on_database CoordinatorError.StateEvidence audit_in_flight_transition;
  lift (match expected, actual with
        | None, None => Ok tt
        | Some (state, transition), Some found =>
            if bool_decide (in_flight_state found = state) && bool_decide (in_flight_transition found = transition)
            then Ok tt else Err CoordinatorError.TransitionAuditMismatch
        | _, _ => Err CoordinatorError.TransitionAuditMismatch
        end).

Definition require_fresh_allocation_ownership (state : Z) (transition : TransitionId) : coordination unit :=
  o ← ownership state transition;
  lift (if bool_decide (o = Matching) then Ok tt
        else Err (CoordinatorError.FreshAllocationOwnershipMismatch state o)).

(** ** Beginning a transition *)

Definition require_record_runtime_evidence (r : TransitionRecord) : coordination unit :=
  actual ← capture_runtime_evidence;
  lift (if negb (bool_decide (captured_epoch actual = creation_epoch r)) then
          Err CoordinatorError.RuntimeEpochChanged
        else if negb (bool_decide (captured_candidate actual = cand_usr_runtime_identity (candidate r))) then
          Err (CoordinatorError.RuntimeTreeIdentityChanged (bstr "candidate"))
        else if negb (bool_decide (captured_previous actual = prev_usr_runtime_identity (previous r))) then
          Err (CoordinatorError.RuntimeTreeIdentityChanged (bstr "previous"))
        else Ok tt).

Definition transition_quarantine_name (transition : TransitionId) : result CoordinatorError.t QuarantineName :=
  map_err CoordinatorError.Record (QuarantineName_parse (bstr "failed-transition-" ++ transition_id_text transition)).

(** The database evidence [begin_transition] requires, twice. *)
Definition require_begin_ownership (p : RequestParts) (transition : TransitionId) : coordination unit :=
  match rq_candidate_id p with
  | None => mret tt
  | Some id => require_existing_candidate_database_ownership id transition
  end;;
  require_previous_state_database_ownership (rq_previous_id p) (rq_candidate_id p) transition;;
  require_global_transition_audit None.

Definition begin_transition (self : Identity) (request : Request.t) : coordination Coordinator :=
  require_no_journal;;
  let p := parts request in
  lift (require_request_previous self p);;
  require_request_candidate self p;;
  runtime ← capture_runtime_evidence;
  transition ← generate_transition_id;
  require_begin_ownership p transition;;
  name ← lift (transition_quarantine_name transition);
  r ← lift (map_err CoordinatorError.Record
    (preparing transition (captured_epoch runtime) (rq_operation p) (rq_candidate_id p) (candidate_marker self)
       (captured_candidate runtime)
       {| prev_id := rq_previous_id p; prev_tree_token := previous_marker self;
          prev_usr_runtime_identity := captured_previous runtime; prev_origin := rq_previous_origin p |}
       (rq_run_system_triggers p) (rq_run_boot_sync p) name));
  require_record_runtime_evidence r;;
  require_request_candidate self p;;
  require_begin_ownership p transition;;
  require_no_journal;;
  journal_create r;;
  mret {| identity := self; record := r |}.

(** ** Advancing *)

Definition require_operation (self : Coordinator) (expected : Operation) : result CoordinatorError.t unit :=
  if bool_decide (operation (record self) = expected) then Ok tt
  else Err (CoordinatorError.UnexpectedOperation expected (operation (record self))).

Definition require_phase (self : Coordinator) (expected : Phase.t) : result CoordinatorError.t unit :=
  if bool_decide (phase (record self) = expected) then Ok tt
  else Err (CoordinatorError.UnexpectedPhase expected (phase (record self))).

Definition advance (self : Coordinator) (candidate : option Z) : coordination Coordinator :=
  next ← lift (map_err CoordinatorError.Record (forward_successor candidate (record self)));
  journal_advance (record self) next;;
  mret {| identity := identity self; record := next |}.

Definition begin_fresh_allocation (self : Coordinator) : coordination Coordinator :=
  lift (require_operation self NewState);;
  lift (require_phase self Phase.Preparing);;
  require_unknown_id_absent (identity self);;
  require_record_runtime_evidence (record self);;
  require_unknown_id_absent (identity self);;
  advance self None.

Definition transition_id_for_allocation (self : Coordinator) : result CoordinatorError.t TransitionId :=
  require_operation self NewState;;
  require_phase self Phase.FreshStateAllocating;;
  Ok (transition_id (record self)).

Definition with_candidate (s : RetainedCandidateStateId.t) (self : Coordinator) : Coordinator :=
  let i := identity self in
  {| identity := {| state_database := state_database i; candidate_marker := candidate_marker i;
                    previous_marker := previous_marker i; candidate_state_id := s;
                    previous_classification := previous_classification i |};
     record := record self |}.

Definition finish_fresh_allocation (self : Coordinator) (database : nat) (state : Z) : coordination Coordinator :=
  lift (require_operation self NewState);;
  lift (require_phase self Phase.FreshStateAllocating);;
  lift (if (state_database (identity self) =? database)%nat then Ok tt
        else Err CoordinatorError.StateDatabaseCapabilityMismatch);;
  require_unknown_id_absent (identity self);;
  require_record_runtime_evidence (record self);;
  require_fresh_allocation_ownership state (transition_id (record self));;
  require_record_runtime_evidence (record self);;
  require_unknown_id_absent (identity self);;
  require_fresh_allocation_ownership state (transition_id (record self));;
  next ← advance self (Some state);
  mret (with_candidate (RetainedCandidateStateId.KnownIdAbsent state) next).

Definition candidate_state (self : Coordinator) : result CoordinatorError.t Z :=
  ok_or (cand_id (candidate (record self))) (CoordinatorError.CandidateStateMissing (phase (record self))).

Definition require_candidate_before_publication (self : Coordinator) (id : Z) : coordination unit :=
  match operation (record self) with
  | NewState | ActiveReblit => require_known_id_absent (identity self) id
  | ActivateArchived => require_existing_candidate_id (identity self) id
  end.

Definition begin_candidate_prepare (self : Coordinator) : coordination Coordinator :=
  let transition := transition_id (record self) in
  lift (require_phase self (match operation (record self) with
                            | NewState => Phase.FreshStateAllocated
                            | ActivateArchived | ActiveReblit => Phase.Preparing
                            end));;
  id ← lift (candidate_state self);
  require_candidate_before_publication self id;;
  require_record_runtime_evidence (record self);;
  require_candidate_before_publication self id;;
  match operation (record self) with
  | NewState =>
      require_fresh_allocation_ownership id transition;;
      require_record_runtime_evidence (record self);;
      require_known_id_absent (identity self) id;;
      require_fresh_allocation_ownership id transition
  | ActivateArchived | ActiveReblit => require_existing_candidate_database_ownership id transition
  end;;
  advance self None.

(** ** Candidate preparation *)

Definition require_canonical_record (self : Coordinator) : coordination unit :=
  actual ← journal_load;
  lift (if bool_decide (actual = Some (record self)) then Ok tt else Err CoordinatorError.CanonicalRecordChanged).

Definition require_candidate_tree_names (self : Coordinator) (id : Z) (state_id_published : bool) : coordination unit :=
  let existing := state_id_published || bool_decide (operation (record self) = ActivateArchived) in
  if existing then
    require_existing_candidate_id (identity self) id;;
    tree_check CoordinatorError.Identity;;
    tree_check CoordinatorError.Identity;;
    tree_check CoordinatorError.Identity
  else
    require_known_id_absent (identity self) id;;
    tree_check CoordinatorError.Identity;;
    tree_check CoordinatorError.Identity;;
    tree_check CoordinatorError.Identity;;
    tree_check CoordinatorError.Identity.

Definition require_candidate_database_evidence (self : Coordinator) (id : Z) : coordination unit :=
  let transition := transition_id (record self) in
  match operation (record self) with
  | NewState => require_fresh_allocation_ownership id transition
  | ActivateArchived | ActiveReblit => require_existing_candidate_database_ownership id transition
  end;;
  require_previous_state_database_ownership (prev_id (previous (record self))) (Some id) transition;;
  require_global_transition_audit
    match operation (record self) with
    | NewState => Some (id, transition)
    | ActivateArchived | ActiveReblit => None
    end.

(** [require_candidate_prepare_started_evidence] with the state identifier still absent,
    [require_prepared_candidate_evidence] with it published *)
Definition require_candidate_evidence (self : Coordinator) (id : Z) (state_id_published : bool) : coordination unit :=
  require_canonical_record self;;
  require_record_runtime_evidence (record self);;
  require_candidate_tree_names self id state_id_published;;
  require_candidate_database_evidence self id;;
  require_record_runtime_evidence (record self);;
  require_candidate_tree_names self id state_id_published;;
  require_candidate_database_evidence self id;;
  require_canonical_record self.

Definition provenance_db {A} (m : tx tables MetadataProvenanceError.t A) : coordination A :=
  on_database CoordinatorError.MetadataProvenance m.

(** [CandidateMetadataPublication] and [CandidateMetadataVerification]: beginning,
    publishing or proving and comparing the candidate are checks of its tree. *)
Definition metadata_check : coordination unit := tree_check CoordinatorError.CandidateMetadata.

(** The outputs the caller derives from [os-info.json]: the bytes of both files *)
Definition derive := option bytes -> option (bytes * bytes).

Definition derive_outputs (derive_metadata : derive) : coordination (bytes * bytes) :=
  os_info ← read_optional_os_info;
  lift (ok_or (derive_metadata os_info) CoordinatorError.CandidateMetadata).

Definition require_matching_outputs (p : MetadataProvenance) (id : Z) (outputs : bytes * bytes) : coordination unit :=
  lift (map_err CoordinatorError.MetadataProvenance (require_outputs p id outputs.1 outputs.2)).

Definition bind_metadata (self : Coordinator) (id : Z) (derive_metadata : derive) :
    coordination (MetadataProvenance * (bytes * bytes)) :=
  match operation (record self) with
  | ActivateArchived | ActiveReblit =>
      p ← provenance_db (required_metadata_provenance id);
      metadata_check;;
      outputs ← derive_outputs derive_metadata;
      require_matching_outputs p id outputs;;
      metadata_check;;
      provenance_db (require_exact_metadata_provenance id p);;
      mret (p, outputs)
  | NewState =>
      metadata_check;;
      outputs ← derive_outputs derive_metadata;
      let p := from_outputs outputs.1 outputs.2 in
      provenance_db (insert_fresh_metadata_provenance_if_transition_matches id (transition_id (record self)) p);;
      metadata_check;;
      provenance_db (require_exact_metadata_provenance id p);;
      mret (p, outputs)
  end.

(** [require_prepared_metadata_sandwich] ([transaction_triggers.rs]) *)
Definition prepared_metadata_half (self : Coordinator) (id : Z) (p : MetadataProvenance) (outputs : bytes * bytes) :
    coordination unit :=
  require_candidate_evidence self id true;;
  provenance_db (require_exact_metadata_provenance id p);;
  metadata_check;;
  require_matching_outputs p id outputs.

Definition require_prepared_metadata_sandwich (self : Coordinator) (id : Z) (p : MetadataProvenance)
    (outputs : bytes * bytes) : coordination unit :=
  prepared_metadata_half self id p outputs;;
  prepared_metadata_half self id p outputs.

Definition finish_candidate_prepare (self : Coordinator) (derive_metadata : derive) : coordination Coordinator :=
  lift (require_phase self Phase.CandidatePrepareStarted);;
  id ← lift (candidate_state self);
  require_candidate_evidence self id false;;
  bound ← bind_metadata self id derive_metadata;
  metadata_check;;
  require_candidate_evidence self id false;;
  metadata_check;;
  published ← match operation (record self) with
              | NewState | ActiveReblit =>
                  tree_check CoordinatorError.StateIdPublication;;
                  mret (with_candidate (RetainedCandidateStateId.ExistingId id) self)
              | ActivateArchived => mret self
              end;
  require_prepared_metadata_sandwich published id bound.1 bound.2;;
  advance published None.

(** The start of [execute_new_state_forward], to a prepared candidate; [db_instance] is
    the database the caller passes. *)
Definition execute_new_state_prepare (self : Identity) (db_instance : nat) (previous : NewStatePrevious.t)
    (sels : list Selection) (summary : bytes) (run_boot_sync : bool) (unixepoch : Z) (derive_metadata : derive) :
    coordination (Coordinator * Z) :=
  c ← begin_transition self (Request.NewState previous true run_boot_sync);
  c ← begin_fresh_allocation c;
  transition ← lift (transition_id_for_allocation c);
  state ← on_database CoordinatorError.Database (add_with_transition unixepoch transition sels (Some summary) None);
  let allocated := state_id state in
  c ← finish_fresh_allocation c db_instance allocated;
  c ← begin_candidate_prepare c;
  c ← finish_candidate_prepare c derive_metadata;
  mret (c, allocated).
End evidence.
