(* ===== verification/CoordinatorTheorems.v ===== *)
(** * Crashes of the coordinator

    The two stores of a transition agree at every point of the coordinator's run: wherever
    it stops, by an error, a failed write or a crash, startup finds a journal and a
    database it admits ([coordinator_crash_consistent]). *)

From S2P Require Import Prelude ByteStrings Ordered SqlDb SqlTx JournalModel JournalValidation JournalMachine JournalSuccessors StateDb StateDbExact StateDbInvariant StateDbTheorems StartupEvidence StartupEvidenceTheorems Coordinator StateDbRemoval StateDbSamples.

(** ** Runs that may stop anywhere *)

(** The stores agree: an empty journal leaves no transition in flight, a record tracks the
    rows of its transition. *)
Definition consistent `{Sqlite} (j : option TransitionRecord) (t : tables) : Prop :=
  well_formed t /\ match j with
                   | None => none_in_flight t
                   | Some r => valid r /\ canonical (transition_id r) /\ tracks r t
                   end.

Abbreviation stores := (option TransitionRecord -> tables -> Prop).

(** From stores in [P] the run ends in [Q], or stops with stores in [X]. *)
Definition runs {A} (X P : stores) (m : coordination A) (Q : A -> stores) : Prop :=
  forall w faults, P (journal w) (database w) ->
  match m (w, faults) with
  | (Ok a, (w', _)) => Q a (journal w') (database w')
  | (Err _, (w', _)) => X (journal w') (database w')
  end.

(** A run that stops with consistent stores *)
Abbreviation triple := (runs consistent).

(** A step that reads: stores as they were *)
Definition inert {A} (m : coordination A) : Prop :=
  forall w faults, journal (m (w, faults)).2.1 = journal w /\ database (m (w, faults)).2.1 = database w.

Section triples.
Implicit Types X P : stores.

Lemma hoare_ret {A} X P (a : A) (Q : A -> stores) : (forall j t, P j t -> Q a j t) -> runs X P (mret a) Q.
Proof. intros HQ w fs Hp. by apply HQ. Qed.

Lemma hoare_bind {A B} X P (m : coordination A) (f : A -> coordination B) (Q : A -> stores) (R : B -> stores) :
  runs X P m Q -> (forall a, runs X (Q a) (f a) R) -> runs X P (m ≫= f) R.
Proof.
  intros Hm Hf w fs Hp. specialize (Hm w fs Hp). unfold mbind, tx_bind.
  destruct (m (w, fs)) as [[a|e] [w' fs']]; [|done]. by apply (Hf a).
Qed.

Lemma hoare_pre {A} X P P' (m : coordination A) (Q : A -> stores) :
  (forall j t, P j t -> P' j t) -> runs X P' m Q -> runs X P m Q.
Proof. intros HP Hm w fs Hp. by apply Hm, HP. Qed.

Lemma hoare_post {A} X P (m : coordination A) (Q Q' : A -> stores) :
  (forall a j t, Q a j t -> Q' a j t) -> runs X P m Q -> runs X P m Q'.
Proof. intros HQ Hm w fs Hp. specialize (Hm w fs Hp). destruct (m (w, fs)) as [[a|e] [w' fs']]; [by apply HQ|done]. Qed.

Lemma hoare_lift {A} X P (r : result CoordinatorError.t A) :
  (forall j t, P j t -> X j t) -> runs X P (lift r) (fun a j t => P j t /\ r = Ok a).
Proof. intros HP w fs Hp. destruct r; cbn; [done|by apply HP]. Qed.

Lemma hoare_inert {A} X P (m : coordination A) :
  inert m -> (forall j t, P j t -> X j t) -> runs X P m (fun _ => P).
Proof.
  intros Hm HP w fs Hp. destruct (Hm w fs) as [Hj Ht].
  destruct (m (w, fs)) as [[a|e] [w' fs']]; cbn in *; rewrite Hj, Ht; [done|by apply HP].
Qed.

(** A pure fact carried through *)
Lemma hoare_pure {A} X P (m : coordination A) (Q : A -> stores) (F : Prop) :
  (F -> runs X P m Q) -> runs X (fun j t => P j t /\ F) m Q.
Proof. intros Hm w fs [Hp Hf]. by apply Hm. Qed.

Lemma still_lift {A} (r : result CoordinatorError.t A) : inert (lift r).
Proof. by intros w fs. Qed.

Lemma still_ret {A} (a : A) : inert (mret a : coordination A).
Proof. by intros w fs. Qed.

Lemma still_bind {A B} (m : coordination A) (f : A -> coordination B) :
  inert m -> (forall a, inert (f a)) -> inert (m ≫= f).
Proof.
  intros Hm Hf w fs. specialize (Hm w fs). unfold mbind, tx_bind. destruct (m (w, fs)) as [[a|e] [w' fs']]; cbn in *; [|done].
  destruct (Hf a w' fs') as [-> ->]. done.
Qed.

Lemma still_check e : inert (tree_check e).
Proof. intros w fs. unfold tree_check. by destruct (checks (answers w)). Qed.

Lemma still_capture : inert capture_runtime_evidence.
Proof. intros w fs. unfold capture_runtime_evidence. by destruct (captures (answers w)). Qed.

Lemma still_os_info : inert read_optional_os_info.
Proof. intros w fs. unfold read_optional_os_info. by destruct (os_infos (answers w)). Qed.

Lemma still_random : inert generate_transition_id.
Proof. intros w fs. unfold generate_transition_id. by destruct (random (answers w)). Qed.

Lemma still_load : inert journal_load.
Proof. intros w fs. unfold journal_load. by destruct fs as [|[] fs]. Qed.

Lemma still_database {E A} (f : E -> CoordinatorError.t) (m : tx tables E A) : reads m -> inert (on_database f m).
Proof.
  intros Hm w fs. pose proof (reads_tables m (database w) fs Hm) as Ht. unfold on_database.
  destruct (m (database w, fs)) as [r [t fs']]. cbn in *. by subst.
Qed.

(** A lawful read that returns, returns what its fault-free run returns. *)
Lemma hoare_read {E A} (f : E -> CoordinatorError.t) X P (m : tx tables E A) : lawful m -> reads m ->
  (forall j t, P j t -> X j t) ->
  runs X P (on_database f m) (fun a j t => P j t /\ (run m t).1 = Ok a).
Proof.
  intros Hl Hr HP w fs Hp. pose proof (reads_tables m (database w) fs Hr) as Ht. unfold on_database.
  destruct (lawful_faults m Hl (database w) fs) as [[fs' E']|(e & t' & fs' & E')]; rewrite E' in *; cbn in *.
  - rewrite (reads_run m _ Hr). destruct (run m (database w)).1 eqn:Er; cbn; [done|]. by apply HP.
  - rewrite Ht. by apply HP.
Qed.

(** A journal write that fails early or late *)
Lemma hoare_write X P guard next :
  (forall j t, P j t -> X j t) ->
  (forall w, guard w = true -> P (journal w) (database w) -> X (Some next) (database w)) ->
  runs X P (journal_write guard next) (fun _ j t => j = Some next /\ exists w, guard w = true /\ database w = t /\ P (journal w) t).
Proof.
  intros HP Hn w fs Hp. unfold journal_write. destruct (guard w) eqn:Hg; cbn; [|by apply HP].
  destruct fs as [|[] fs]; cbn; eauto 10.
Qed.
End triples.

#[export] Hint Resolve still_lift still_ret still_check still_capture still_os_info still_random still_load : tx.

(** Prove that a step reads only, by its structure. *)
Ltac inert := repeat first
  [ progress intros | solve [eauto with tx] | apply still_bind | apply still_database
  | match goal with |- inert (match ?x with _ => _ end) => destruct x end ].

(** ** Records *)

(** What a forward successor changes *)
Record successor_facts (id : option Z) (r next : TransitionRecord) : Prop := {
  sf_valid : valid next;
  sf_transition : transition_id next = transition_id r;
  sf_operation : operation next = operation r;
  sf_previous : previous next = previous r;
  sf_rollback : rollback next = rollback r;
  sf_phase : exists current p, forward (phase r) = Some current /\ next_forward_phase r current = Some p
    /\ phase next = Phase_from p;
  sf_candidate : cand_id (candidate next) =
    if bool_decide (phase r = Phase.FreshStateAllocating) then id else cand_id (candidate r);
}.

Lemma forward_successor_facts id r next : forward_successor id r = Ok next -> successor_facts id r next.
Proof.
  unfold forward_successor. intros Hs. inv_ok.
  match goal with Hv : validate_advance _ _ = Ok ?u |- _ => destruct u; pose proof (proj2 (advances_valid _ _ Hv)) as Hvalid end.
  split; cbn; try done.
  - eexists _, _. split_and!; [done..|]. reflexivity.
  - match goal with Hf : forward (phase r) = Some ?c |- _ => rename Hf into Hcur; destruct (phase r) eqn:Hp; cbn in Hcur; try done end;
      injection Hcur as <-; cbn in *; simplify_eq; try done.
    all: repeat case_bool_decide; simplify_eq; try done.
Qed.

Lemma new_state_candidate r : valid r -> operation r = NewState -> rollback r = None ->
  phase r = Phase.Preparing \/ phase r = Phase.FreshStateAllocating -> cand_id (candidate r) = None.
Proof.
  intros [lp F]%valid_iff_facts Hop Hrb Hph. pose proof (vf_candidate r lp F) as Hv. pose proof (vf_layout r lp F) as Hl.
  unfold validate_candidate_layout in Hv. rewrite Hop in Hv. unfold record_layout_phase in Hl.
  destruct Hph as [Hph|Hph]; rewrite Hph in Hl; cbn in Hl; inv_ok; rewrite ?Hrb in *; simplify_eq; cbn in Hv; rewrite ?Hrb in Hv;
    unfold require_option_presence in Hv; destruct (cand_id (candidate r)); done.
Qed.

(** ** What the writes of the database leave *)

(** A state that [tr] owns has come to the rows. *)
Definition added `{Sqlite} (t t' : tables) (tr : TransitionId) (id : Z) : Prop :=
  well_formed t' /\ t_state t !! id = None /\ t_provenance t' = t_provenance t /\ t_provenance t !! id = None
  /\ exists row, t_state t' = <[id := row]> (t_state t) /\ r_transition_id row = Some (transition_id_text tr).

Section writes.
Context `{Sqlite} `{Chrono}.

Lemma insert_selections_keep id ll (s : gmap Z StateRow) (p : gmap Z MetadataProvenance) :
  preserves (fun u => t_state u = s /\ t_provenance u = p) (for_each (insert_selections id) ll).
Proof.
  apply preserves_for_each. intros chunk. unfold insert_selections. apply preserves_statement.
  intros t a t' Hs Hf. by inv_ok.
Qed.

Lemma add_rows_wf now sels s d tr t : well_formed t -> well_formed (run (add_rows now sels s d tr) t).2.
Proof.
  intros Hw. pose proof (add_rows_preserves now sels s d tr t [] Hw) as Hp. unfold run.
  by destruct (add_rows _ _ _ _ _ (t, [])) as [r [t' fs]].
Qed.

Lemma add_rows_added now sels s d tr t id : well_formed t ->
  (run (add_rows now sels s d (Some tr)) t).1 = Ok id -> added t (run (add_rows now sels s d (Some tr)) t).2 tr id.
Proof.
  intros Hw. pose proof (add_rows_wf now sels s d (Some tr) t Hw) as Hwf. revert Hwf.
  unfold add_rows. rewrite run_bind by apply lawful_statement. unfold insert_state. rewrite run_statement.
  cbn zeta. rewrite next_row_id_sequence by done.
  set (row := new_state _ _ _ _). set (new := (t_sequence t + 1)%Z). set (t1 := {| t_state := _; t_sequence := _ |}).
  destruct (reject_if _ _ ≫= _) as [[i t2]|e] eqn:Ei; [|done].
  assert (i = new /\ t2 = t1) as [-> ->] by (clear -Ei; by inv_ok). clear Ei.
  rewrite run_bind by (unfold insert_selections; lawful).
  pose proof (insert_selections_keep new (chunks (MAX_VARIABLE_NUMBER / 4) sels) (t_state t1) (t_provenance t1) t1 [] (conj eq_refl eq_refl)) as Hk.
  unfold run in *. destruct (for_each _ _ (t1, [])) as [[[]|e] [t2 fs]]; cbn in *; [|done]. destruct Hk as [Hs Hp].
  intros Hwf [= <-]. split_and!; [done|by apply next_row_fresh|done| |].
  - apply eq_None_not_Some. intros [p Hl]. apply (wf_provenance t Hw) in Hl as [Hle _]. unfold new in Hle. lia.
  - exists row. done.
Qed.

(** Adding a state under faults *)
Lemma add_with_transition_cases now tr sels s d t faults : well_formed t ->
  match add_with_transition now tr sels s d (t, faults) with
  | (Ok state, (t', _)) => added t t' tr (state_id state)
  | (Err _, (t', _)) => t' = t \/ exists id, added t t' tr id
  end.
Proof.
  intros Hw. unfold add_with_transition, add_inner, mbind, tx_bind.
  pose proof (add_rows_added now sels s d tr t) as Ha. set (m := add_rows _ _ _ _ _) in *.
  destruct (exclusive_tx_cases m t faults (add_rows_lawful _ _ _ _ _)) as [fs [->|[[e ->]|[[id Hid] ->]]]]; [|by left|by right; eauto].
  destruct (run m t) as [[id|e] t']; cbn in *; [|by left]. specialize (Ha id Hw eq_refl).
  pose proof (reads_tables (get id) t' fs (get_reads id)) as Hr.
  destruct (lawful_faults (get id) (get_lawful id) t' fs) as [[fs' E]|(e & t2 & fs' & E)]; rewrite E in *; cbn in *; subst.
  - rewrite run_get in *. cbn in *. destruct (t_state t' !! id) as [row|]; [|by right; eauto].
    destruct (stored_state id row) as [st|e] eqn:Hst; cbn; [|by right; eauto]. by rewrite (stored_state_id _ _ _ Hst).
  - right; eauto.
Qed.

(** The provenance of an owned state, under faults *)
Lemma insert_fresh_provenance_cases id tr p t faults : well_formed t ->
  match insert_fresh_metadata_provenance_if_transition_matches id tr p (t, faults) with
  | (Ok _, (t', _)) => t' = set_provenance (<[id := p]> (t_provenance t)) t /\ well_formed t'
  | (Err _, (t', _)) => t' = t \/ t' = set_provenance (<[id := p]> (t_provenance t)) t /\ well_formed t'
  end.
Proof.
  intros Hw. pose proof (insert_fresh_preserves id tr p t faults Hw) as Hwf. revert Hwf.
  unfold insert_fresh_metadata_provenance_if_transition_matches.
  assert (lawful (insert_fresh_body id tr p)) as Hl.
  { unfold insert_fresh_body, transition_ownership_impl, metadata_provenance_impl, insert_metadata_provenance_row. lawful. }
  assert (forall u, (run (insert_fresh_body id tr p) t).1 = Ok u ->
    (run (insert_fresh_body id tr p) t).2 = set_provenance (<[id := p]> (t_provenance t)) t) as Hrun.
  { intros u. unfold insert_fresh_body, insert_metadata_provenance_row.
    assert (lawful (transition_ownership_impl id tr)) by (unfold transition_ownership_impl; lawful).
    assert (lawful (metadata_provenance_impl id)) by (unfold metadata_provenance_impl; lawful).
    rewrite run_bind by done. unfold transition_ownership_impl. rewrite run_bind, run_select, run_lift by lawful.
    destruct (map_err _ _) as [o|e]; [|done]. destruct (negb _); [done|].
    rewrite run_bind by done. unfold metadata_provenance_impl. rewrite run_bind, run_select by lawful.
    destruct (t_provenance t !! id) as [q|]; [rewrite run_bind, run_lift by lawful; by destruct (decode_provenance _ _)|].
    rewrite run_ret. cbn [bool_decide]. rewrite bool_decide_eq_false_2 by (by intros []). rewrite run_statement.
    destruct (reject_if _ _ ≫= _) as [[[] t']|e] eqn:Ei; [|done]. by inv_ok. }
  destruct (exclusive_tx_cases _ t faults Hl) as [fs [->|[[e ->]|[[u Hu] ->]]]]; cbn; [|by left|].
  - destruct (run _ t) as [[u|e] t']; cbn in *; [|by left]. intros Hwf. by rewrite <- (Hrun u eq_refl).
  - intros Hwf. right. by rewrite <- (Hrun u Hu).
Qed.
End writes.

(** ** The steps of the coordinator *)

(** A forward record of a new state *)
Record fresh (r : TransitionRecord) (p : Phase.t) : Prop := {
  fr_operation : operation r = NewState;
  fr_phase : phase r = p;
  fr_rollback : rollback r = None;
}.

Definition at_record `{Sqlite} (r : TransitionRecord) (F : tables -> Prop) : stores := fun j t =>
  j = Some r /\ consistent j t /\ F t.

(** The previous state keeps its row without a transition. *)
Definition previous_settled (r : TransitionRecord) (t : tables) : Prop :=
  forall p, prev_id (previous r) = Some p -> cand_id (candidate r) <> Some p -> settled_row t p.

Section steps.
Context `{Sqlite} `{Chrono} `{Sha256}.

Lemma at_record_consistent r F j t : at_record r F j t -> consistent j t.
Proof. by intros (_ & Hc & _). Qed.
#[local] Hint Resolve at_record_consistent : tx.

Lemma at_record_tracks r F j t : at_record r F j t -> well_formed t /\ valid r /\ canonical (transition_id r) /\ tracks r t /\ F t.
Proof. intros (-> & (Hw & Hv & Hc & Ht) & Hf). done. Qed.

Lemma hoare_advance c id (F : tables -> Prop) :
  (forall next t, successor_facts id (record c) next -> at_record (record c) F (Some (record c)) t -> tracks next t) ->
  triple (at_record (record c) F) (advance c id)
    (fun c' j t => at_record (record c') F j t /\ identity c' = identity c /\ successor_facts id (record c) (record c')).
Proof.
  intros Ht. unfold advance. eapply hoare_bind; [apply hoare_lift; eauto with tx|]. intros next. apply hoare_pure. intros Hs.
  assert (forward_successor id (record c) = Ok next) as Hn by (by destruct (forward_successor id (record c)); cbn in Hs; simplify_eq).
  apply forward_successor_facts in Hn.
  assert (forall t, at_record (record c) F (Some (record c)) t -> at_record next F (Some next) t) as Hnext.
  { intros t Hp. specialize (Ht next t Hn Hp). apply at_record_tracks in Hp as (Hw & Hv & Hc & _ & Hf).
    split_and!; [done| |done]. split_and!; [done|apply Hn|by rewrite (sf_transition _ _ _ Hn)|done]. }
  eapply hoare_bind; [apply hoare_write; [eauto with tx|]|].
  - intros w Hg Hp. apply andb_true_iff in Hg as [Hj%bool_decide_eq_true _]. rewrite Hj in Hp.
    by apply Hnext in Hp as (_ & Hcons & _).
  - intros []. apply hoare_ret. intros j t (-> & w & Hg & <- & Hp).
    apply andb_true_iff in Hg as [Hj%bool_decide_eq_true _]. rewrite Hj in Hp. split; [by apply Hnext|done].
Qed.

(** The successor of a fresh record *)
Lemma fresh_successor id r p next : fresh r p -> successor_facts id r next ->
  match p with
  | Phase.Preparing => fresh next Phase.FreshStateAllocating
  | Phase.FreshStateAllocating => fresh next Phase.FreshStateAllocated
  | Phase.FreshStateAllocated => fresh next Phase.CandidatePrepareStarted
  | Phase.CandidatePrepareStarted => fresh next Phase.CandidatePrepared
  | _ => True
  end.
Proof.
  intros [Hop Hph Hrb] S. destruct (sf_phase _ _ _ S) as (cur & q & Hc & Hq & Hp). rewrite Hph in Hc.
  destruct p; try done; cbn in Hc; injection Hc as <-; cbn in Hq; rewrite ?Hop in Hq; try rewrite bool_decide_eq_true_2 in Hq by done; injection Hq as <-;
    (split; [by rewrite (sf_operation _ _ _ S)|by rewrite ?Hp|by rewrite (sf_rollback _ _ _ S)]).
Qed.

Lemma fresh_unallocated r p : valid r -> fresh r p -> p = Phase.Preparing \/ p = Phase.FreshStateAllocating ->
  cand_id (candidate r) = None.
Proof. intros Hv [Hop <- Hrb] Hp. by apply new_state_candidate. Qed.

Lemma hoare_begin_fresh c :
  triple (fun j t => at_record (record c) none_in_flight j t /\ fresh (record c) Phase.Preparing) (begin_fresh_allocation c)
    (fun c' j t => at_record (record c') none_in_flight j t /\ fresh (record c') Phase.FreshStateAllocating).
Proof.
  apply hoare_pure. intros Hf. unfold begin_fresh_allocation.
  assert (inert (require_unknown_id_absent (identity c))) by (unfold require_unknown_id_absent; inert).
  assert (inert (require_record_runtime_evidence (record c))) by (unfold require_record_runtime_evidence; inert).
  do 5 (eapply hoare_bind; [apply hoare_inert; [solve [eauto with tx]|eauto with tx]|intros []]).
  eapply hoare_post; [|apply hoare_advance].
  - intros c' j t (Hp & _ & Hs). split; [done|]. by apply (fresh_successor _ _ _ _ Hf Hs).
  - intros next t Hs Hp. apply at_record_tracks in Hp as (_ & Hv & _ & [Hprev _] & Hn).
    assert (cand_id (candidate (record c)) = None) as Hid by (eapply fresh_unallocated; eauto).
    assert (cand_id (candidate next) = None) as Hid' by (rewrite (sf_candidate _ _ _ Hs); by destruct (bool_decide _)).
    pose proof (fresh_successor _ _ _ _ Hf Hs) as [Hop Hph _].
    split; [by rewrite (sf_previous _ _ _ Hs), Hid', <- Hid|]. rewrite Hop, Hid'. left. split; [done|]. right; by left.
Qed.

(** *** Beginning *)

Lemma hoare_ownership P id tr : (forall j t, P j t -> consistent j t) ->
  triple P (ownership id tr) (fun o j t => P j t /\ classify_ownership id tr (r_transition_id <$> t_state t !! id) = Ok o).
Proof.
  intros HP. eapply hoare_post; [|apply hoare_read; [..|done]]; [|unfold transition_ownership; lawful|intros u; unfold transition_ownership; preserved].
  intros o j t [Hp Ho]. by rewrite run_ownership in Ho.
Qed.

Lemma classify_cleared t id tr : classify_ownership id tr (r_transition_id <$> t_state t !! id) = Ok Cleared -> settled_row t id.
Proof.
  unfold settled_row. destruct (t_state t !! id) as [row|]; cbn; [|done]. destruct (r_transition_id row) eqn:Hr; [|eauto].
  intros Hc. inv_ok. by destruct (bool_decide _).
Qed.

Lemma still_ownership id tr : inert (ownership id tr).
Proof. unfold ownership. apply still_database. intros u. unfold transition_ownership. preserved. Qed.
#[local] Hint Resolve still_ownership : tx.

Lemma still_existing id tr : inert (require_existing_candidate_database_ownership id tr).
Proof. unfold require_existing_candidate_database_ownership. inert. Qed.

Lemma still_fresh_ownership id tr : inert (require_fresh_allocation_ownership id tr).
Proof. unfold require_fresh_allocation_ownership. inert. Qed.

Lemma still_previous prev cand tr : inert (require_previous_state_database_ownership prev cand tr).
Proof. unfold require_previous_state_database_ownership. inert. Qed.

Lemma still_audit expected : inert (require_global_transition_audit expected).
Proof.
  unfold require_global_transition_audit. apply still_bind; [|inert]. apply still_database. intros u.
  unfold audit_in_flight_transition. preserved.
Qed.

Lemma still_runtime r : inert (require_record_runtime_evidence r).
Proof. unfold require_record_runtime_evidence. inert. Qed.

Lemma still_unknown i : inert (require_unknown_id_absent i).
Proof. unfold require_unknown_id_absent. inert. Qed.

Lemma still_known i id : inert (require_known_id_absent i id).
Proof. unfold require_known_id_absent. inert. Qed.

Lemma still_existing_id i id : inert (require_existing_candidate_id i id).
Proof. unfold require_existing_candidate_id. inert. Qed.
#[local] Hint Resolve still_existing still_fresh_ownership still_previous still_audit still_runtime still_unknown still_known
  still_existing_id : tx.

Lemma still_request_candidate i p : inert (require_request_candidate i p).
Proof. unfold require_request_candidate. inert. Qed.

Lemma still_no_journal : inert require_no_journal.
Proof. unfold require_no_journal. inert. Qed.

Lemma still_begin_ownership p tr : inert (require_begin_ownership p tr).
Proof. unfold require_begin_ownership. inert. Qed.
#[local] Hint Resolve still_request_candidate still_no_journal still_begin_ownership : tx.

Definition request_settled (p : RequestParts) (t : tables) : Prop :=
  forall prev, rq_previous_id p = Some prev -> rq_candidate_id p <> Some prev -> settled_row t prev.

Lemma hoare_begin_ownership p tr :
  triple consistent (require_begin_ownership p tr) (fun _ j t => consistent j t /\ request_settled p t).
Proof.
  unfold require_begin_ownership. eapply hoare_bind; [apply hoare_inert; [destruct (rq_candidate_id p); solve [eauto with tx]|done]|].
  intros []. eapply (hoare_bind _ _ _ _ (fun _ j t => consistent j t /\ request_settled p t)).
  - unfold require_previous_state_database_ownership, request_settled. destruct (rq_previous_id p) as [prev|].
    2: { apply hoare_ret. intros j t Hc. split; [done|]. by intros. }
    case_bool_decide as Hd.
    { apply hoare_ret. intros j t Hc. split; [done|]. intros q [= <-] Hn. by destruct Hn. }
    eapply hoare_bind; [by apply hoare_ownership|]. intros o. eapply hoare_post; [|apply hoare_lift; by intros j t []].
    cbn. intros [] j t [[Hc Ho] Hl]. split; [done|]. intros q [= <-] _.
    case_bool_decide; [subst|done]. by eapply classify_cleared.
  - intros []. apply hoare_inert; [eauto with tx|]. by intros j t [].
Qed.

Lemma hoare_generate P : (forall j t, P j t -> consistent j t) ->
  triple P generate_transition_id (fun tr j t => P j t /\ canonical tr).
Proof.
  intros HP w fs Hp. unfold generate_transition_id. destruct (random (answers w)) as [|b rest]; cbn; [by apply HP|].
  destruct (TransitionId_generate b) as [tr|] eqn:Hg; cbn; [|by apply HP]. split; [done|].
  unfold canonical. unfold TransitionId_generate, TransitionId_parse in Hg.
  destruct (_ || _) eqn:Hb in Hg; [done|]. injection Hg as <-. unfold TransitionId_parse. cbn [transition_id_text]. by rewrite Hb.
Qed.

Lemma hoare_begin self prev st bs :
  triple consistent (begin_transition self (Request.NewState prev st bs))
    (fun c j t => at_record (record c) none_in_flight j t /\ fresh (record c) Phase.Preparing).
Proof.
  unfold begin_transition. set (p := parts _).
  assert (rq_operation p = NewState /\ rq_candidate_id p = None) as [Hop Hid] by (by destruct prev).
  do 4 (eapply hoare_bind; [apply hoare_inert; [solve [eauto with tx]|done]|intros ?]).
  eapply hoare_bind; [by apply hoare_generate|]. intros tr. apply hoare_pure. intros Htr.
  eapply hoare_bind; [apply hoare_begin_ownership|]. intros [].
  set (P := fun j t => consistent j t /\ request_settled p t).
  assert (forall j t, P j t -> consistent j t) as HP by (by intros j t []).
  eapply hoare_bind; [apply hoare_inert; [solve [eauto with tx]|done]|]. intros name.
  eapply hoare_bind; [by apply hoare_lift|]. intros r. apply hoare_pure. intros Hr.
  rewrite Hop, Hid in Hr. unfold preparing in Hr. set (r0 := {| format := _ |}) in Hr.
  destruct (validate r0) as [[]|e] eqn:Hv; cbn in Hr; [injection Hr as <-|done].
  do 4 (eapply hoare_bind; [apply hoare_inert; [solve [eauto with tx]|done]|intros ?]).
  assert (forall t, P None t -> consistent (Some r0) t /\ none_in_flight t) as Hn.
  { intros t [[Hw Hnone] Hs]. split; [|done]. split_and!; [done..|]. split; [unfold request_settled in Hs; by rewrite Hid in Hs|].
    left. split; [done|]. by left. }
  eapply hoare_bind; [apply hoare_write; [done|]|].
  - intros w Hg Hp. rewrite !andb_true_iff in Hg. destruct Hg as [[[[Hj%bool_decide_eq_true _] _] _] _].
    rewrite Hj in Hp. by apply Hn.
  - intros []. apply hoare_ret. intros j t (-> & w & Hg & <- & Hp). rewrite !andb_true_iff in Hg.
    destruct Hg as [[[[Hj%bool_decide_eq_true _] _] _] _]. rewrite Hj in Hp. apply Hn in Hp as [Hc Hnone]. by split.
Qed.

(** *** Allocating *)

Definition allocated (r : TransitionRecord) (id : Z) (t : tables) : Prop := owns r t id /\ t_provenance t !! id = None.

Lemma added_owns r t t' id : added t t' (transition_id r) id -> none_in_flight t -> allocated r id t'.
Proof.
  intros (_ & Hnew & Hp & Hnp & row & Hs & Htr) Hn. split; [|by rewrite Hp]. split.
  - exists row. by rewrite Hs, lookup_insert_eq.
  - intros i raw (row' & Hl & Hr). rewrite Hs in Hl. destruct (decide (i = id)) as [|Hne]; [done|].
    rewrite lookup_insert_ne in Hl by done. destruct (Hn i raw). by exists row'.
Qed.

Lemma added_settled r t t' id p : added t t' (transition_id r) id -> settled_row t p -> settled_row t' p.
Proof.
  intros (_ & Hnew & _ & _ & row & Hs & _) (row' & Hl & Hr). exists row'. rewrite Hs, lookup_insert_ne; [done|congruence].
Qed.

Lemma added_at_record r t t' id : at_record r none_in_flight (Some r) t -> fresh r Phase.FreshStateAllocating ->
  added t t' (transition_id r) id -> at_record r (allocated r id) (Some r) t'.
Proof.
  intros (Hw & Hv & Hc & [Hprev _] & Hn)%at_record_tracks Hf Ha. pose proof (added_owns r t t' id Ha Hn) as Hal.
  split_and!; [done| |done]. split_and!; [by apply Ha|done..|]. split; [intros p Hp Hcp; eapply added_settled; eauto|].
  rewrite (fr_operation _ _ Hf), (fresh_unallocated r _ Hv Hf) by auto. right. split; [apply Hf|]. by exists id.
Qed.

Lemma hoare_add now r sels s d : fresh r Phase.FreshStateAllocating ->
  triple (at_record r none_in_flight) (on_database CoordinatorError.Database (add_with_transition now (transition_id r) sels s d))
    (fun state => at_record r (allocated r (state_id state))).
Proof.
  intros Hf w fs Hp. pose proof Hp as (Hj & [Hw _] & _). rewrite Hj in Hp. unfold on_database.
  pose proof (add_with_transition_cases now (transition_id r) sels s d (database w) fs Hw) as Ha.
  destruct (add_with_transition _ _ _ _ _ _) as [[st|e] [t' fs']]; cbn; rewrite Hj.
  - by eapply added_at_record.
  - destruct Ha as [->|[id Ha]]; [by apply Hp|]. eapply at_record_consistent, added_at_record; eauto.
Qed.

Lemma classify_carried t id tr : classify_ownership id tr (r_transition_id <$> t_state t !! id) = Ok Matching ->
  carried t id (transition_id_text tr).
Proof. intros Hc. apply classify_matching in Hc. unfold carried. destruct (t_state t !! id) as [row|]; cbn in Hc; naive_solver. Qed.

(** Ownership that matches tells the state, whichever the caller asked about. *)
Lemma hoare_fresh_ownership r id id' :
  triple (at_record r (allocated r id)) (require_fresh_allocation_ownership id' (transition_id r))
    (fun _ j t => at_record r (allocated r id) j t /\ id' = id).
Proof.
  unfold require_fresh_allocation_ownership. eapply hoare_bind; [apply hoare_ownership; eauto with tx|]. intros o.
  eapply hoare_post; [|apply hoare_lift; intros j t []; eauto with tx]. cbn. intros [] j t [[Hp Ho] Hl]. split; [done|].
  case_bool_decide; [subst o|done]. destruct Hp as (_ & _ & [_ Hu] & _). eapply Hu. by apply classify_carried.
Qed.

Lemma fresh_tracks r p t id : fresh r p -> cand_id (candidate r) = Some id ->
  p <> Phase.CommitDecided -> p <> Phase.CommitCleanupComplete -> p <> Phase.Complete ->
  tracks r t <-> previous_settled r t /\ owns r t id
    /\ provenance_expected (fresh_provenance_expectation r) (t_provenance t !! id) = true.
Proof.
  intros [Hop Hph Hrb] Hid ???. unfold tracks, previous_settled. rewrite Hop, Hid. unfold candidate_rows.
  assert (fresh_database_expectation r = FreshDatabaseExpectation.Matching) as ->
    by (unfold fresh_database_expectation; rewrite Hrb, Hph; by destruct p).
  tauto.
Qed.

Lemma fresh_provenance r p : fresh r p -> fresh_provenance_expectation r =
  match p with
  | Phase.Preparing | Phase.FreshStateAllocating | Phase.FreshStateAllocated => FreshProvenanceExpectation.Absent
  | Phase.CandidatePrepareStarted => FreshProvenanceExpectation.Optional
  | _ => FreshProvenanceExpectation.Present
  end.
Proof. intros [_ Hph Hrb]. unfold fresh_provenance_expectation. by rewrite Hrb, Hph. Qed.

Lemma owns_same r next t id : transition_id next = transition_id r -> owns r t id -> owns next t id.
Proof. unfold owns. by intros ->. Qed.

Lemma hoare_finish_fresh c db state id : fresh (record c) Phase.FreshStateAllocating ->
  triple (at_record (record c) (allocated (record c) id)) (finish_fresh_allocation c db state)
    (fun c' j t => at_record (record c') (fun t => t_provenance t !! state = None) j t
       /\ fresh (record c') Phase.FreshStateAllocated /\ cand_id (candidate (record c')) = Some state).
Proof.
  intros Hf. unfold finish_fresh_allocation.
  do 5 (eapply hoare_bind; [apply hoare_inert; [solve [eauto with tx]|eauto with tx]|intros []]).
  eapply hoare_bind; [apply hoare_fresh_ownership|]. intros []. apply hoare_pure. intros ->.
  do 3 (eapply hoare_bind; [apply hoare_inert; [solve [eauto with tx]|eauto with tx]|intros []]).
  assert (forall next, successor_facts (Some id) (record c) next -> cand_id (candidate next) = Some id) as Hc.
  { intros next Hs. rewrite (sf_candidate _ _ _ Hs). by rewrite bool_decide_eq_true_2 by apply Hf. }
  eapply hoare_bind; [apply hoare_advance|].
  - intros next t Hs (_ & Hv & _ & [Hprev _] & Ho & Hp)%at_record_tracks. pose proof (fresh_successor _ _ _ _ Hf Hs) as Hf'.
    apply (fresh_tracks next _ t id Hf'); [by apply Hc|done..|]. rewrite (fresh_provenance _ _ Hf'). split_and!.
    + intros p Hpp _. apply Hprev; [by rewrite <- (sf_previous _ _ _ Hs)|]. by rewrite (fresh_unallocated _ _ Hv Hf) by auto.
    + eapply owns_same; [|done]. apply Hs.
    + cbn. by rewrite bool_decide_eq_true_2.
  - intros c'. apply hoare_ret. intros j t ((Hj & Hcon & _ & Hp) & _ & Hs). split_and!; [done..| |by apply Hc].
    apply (fresh_successor _ _ _ _ Hf Hs).
Qed.

Lemma still_before_publication c id : inert (require_candidate_before_publication c id).
Proof. unfold require_candidate_before_publication. inert. Qed.
#[local] Hint Resolve still_before_publication : tx.

(** *** Preparing the candidate *)

Lemma hoare_begin_candidate c id : fresh (record c) Phase.FreshStateAllocated -> cand_id (candidate (record c)) = Some id ->
  triple (at_record (record c) (fun t => t_provenance t !! id = None)) (begin_candidate_prepare c)
    (fun c' j t => at_record (record c') (fun _ => True) j t
       /\ fresh (record c') Phase.CandidatePrepareStarted /\ cand_id (candidate (record c')) = Some id).
Proof.
  intros Hf Hid. unfold begin_candidate_prepare.
  do 5 (eapply hoare_bind; [apply hoare_inert; [solve [eauto with tx]|eauto with tx]|intros ?]).
  eapply hoare_bind; [apply hoare_inert; [destruct (operation (record c)); inert|eauto with tx]|intros []].
  assert (forall next, successor_facts None (record c) next -> cand_id (candidate next) = Some id) as Hc.
  { intros next Hs. rewrite (sf_candidate _ _ _ Hs), bool_decide_eq_false_2; [done|]. by rewrite (fr_phase _ _ Hf). }
  eapply hoare_post; [|apply hoare_advance].
  - intros c' j t ((Hj & Hcon & _) & _ & Hs). split_and!; [done..| |by apply Hc]. apply (fresh_successor _ _ _ _ Hf Hs).
  - intros next t Hs (_ & Hv & _ & Ht & Hp)%at_record_tracks. pose proof (fresh_successor _ _ _ _ Hf Hs) as Hf'.
    apply (fresh_tracks _ _ t id Hf Hid) in Ht as (Hprev & Ho & _); [|done..].
    apply (fresh_tracks next _ t id Hf'); [by apply Hc|done..|]. rewrite (fresh_provenance _ _ Hf'). split_and!; [|by eapply owns_same; [apply Hs|]|done].
    intros p Hpp Hcp. apply Hprev; [by rewrite <- (sf_previous _ _ _ Hs)|]. by rewrite Hid, <- (Hc next Hs).
Qed.

Lemma still_provenance {A} (m : tx tables MetadataProvenanceError.t A) : reads m -> inert (provenance_db m).
Proof. apply still_database. Qed.

Lemma required_reads id : reads (required_metadata_provenance id).
Proof. intros u. unfold required_metadata_provenance, metadata_provenance, metadata_provenance_impl. preserved. Qed.

Lemma required_lawful id : lawful (required_metadata_provenance id).
Proof. unfold required_metadata_provenance, metadata_provenance, metadata_provenance_impl. lawful. Qed.

Lemma run_required id t : t_provenance t !! id = None ->
  (run (required_metadata_provenance id) t).1 = Err (MetadataProvenanceError.Missing id).
Proof.
  intros Hp. unfold required_metadata_provenance, metadata_provenance, metadata_provenance_impl.
  rewrite run_bind by lawful. by rewrite run_bind, run_select, Hp by lawful.
Qed.

Lemma exact_reads id p : reads (require_exact_metadata_provenance id p).
Proof. intros u. unfold require_exact_metadata_provenance. pose proof (required_reads id u). preserved. Qed.

Lemma still_exact id p : inert (provenance_db (require_exact_metadata_provenance id p)).
Proof. apply still_provenance, exact_reads. Qed.

Lemma still_canonical c : inert (require_canonical_record c).
Proof. unfold require_canonical_record. inert. Qed.

Lemma still_tree_names c id b : inert (require_candidate_tree_names c id b).
Proof. unfold require_candidate_tree_names. inert. Qed.

Lemma still_database_evidence c id : inert (require_candidate_database_evidence c id).
Proof. unfold require_candidate_database_evidence. inert. Qed.
#[local] Hint Resolve still_exact still_canonical still_tree_names still_database_evidence : tx.

Lemma still_evidence c id b : inert (require_candidate_evidence c id b).
Proof. unfold require_candidate_evidence. inert. Qed.

Lemma still_metadata_check : inert metadata_check.
Proof. apply still_check. Qed.

Lemma still_derive d : inert (derive_outputs d).
Proof. unfold derive_outputs. inert. Qed.
#[local] Hint Resolve still_evidence still_metadata_check still_derive : tx.

Lemma still_sandwich c id p o : inert (require_prepared_metadata_sandwich c id p o).
Proof. unfold require_prepared_metadata_sandwich, prepared_metadata_half, require_matching_outputs. inert. Qed.
#[local] Hint Resolve still_sandwich : tx.

(** A provenance written while its record is being prepared *)
Lemma provenance_at_record r id p t : fresh r Phase.CandidatePrepareStarted -> cand_id (candidate r) = Some id ->
  at_record r (fun _ => True) (Some r) t -> well_formed (set_provenance (<[id := p]> (t_provenance t)) t) ->
  at_record r (fun t => is_Some (t_provenance t !! id)) (Some r) (set_provenance (<[id := p]> (t_provenance t)) t).
Proof.
  intros Hf Hid (_ & Hv & Hc & Ht & _)%at_record_tracks Hw. split_and!; [done| |cbn; rewrite lookup_insert_eq; eauto].
  split_and!; [done..|]. apply (fresh_tracks _ _ _ id Hf Hid) in Ht as (Hprev & Ho & _); [|done..].
  apply (fresh_tracks _ _ _ id Hf Hid); [done..|]. by rewrite (fresh_provenance _ _ Hf).
Qed.

Lemma hoare_insert_provenance r id p : fresh r Phase.CandidatePrepareStarted -> cand_id (candidate r) = Some id ->
  triple (at_record r (fun _ => True))
    (provenance_db (insert_fresh_metadata_provenance_if_transition_matches id (transition_id r) p))
    (fun _ => at_record r (fun t => is_Some (t_provenance t !! id))).
Proof.
  intros Hf Hid w fs Hp. pose proof Hp as (Hj & [Hw _] & _). rewrite Hj in Hp. unfold provenance_db, on_database.
  pose proof (insert_fresh_provenance_cases id (transition_id r) p (database w) fs Hw) as Hc.
  destruct (insert_fresh_metadata_provenance_if_transition_matches _ _ _ _) as [[st|e] [t' fs']]; cbn; rewrite Hj.
  - destruct Hc as [-> Hw']. by apply provenance_at_record.
  - destruct Hc as [->|[-> Hw']]; [by apply Hp|]. by eapply at_record_consistent, provenance_at_record.
Qed.

Lemma hoare_bind_metadata c id d : fresh (record c) Phase.CandidatePrepareStarted -> cand_id (candidate (record c)) = Some id ->
  triple (at_record (record c) (fun _ => True)) (bind_metadata c id d)
    (fun _ => at_record (record c) (fun t => is_Some (t_provenance t !! id))).
Proof.
  intros Hf Hid. unfold bind_metadata. rewrite (fr_operation _ _ Hf).
  do 2 (eapply hoare_bind; [apply hoare_inert; [solve [eauto with tx]|eauto with tx]|intros ?]).
  eapply hoare_bind; [by apply hoare_insert_provenance|]. intros [].
  apply hoare_inert; [inert|eauto with tx].
Qed.

Lemma hoare_finish_candidate c d id : fresh (record c) Phase.CandidatePrepareStarted -> cand_id (candidate (record c)) = Some id ->
  triple (at_record (record c) (fun _ => True)) (finish_candidate_prepare c d)
    (fun c' j t => at_record (record c') (fun _ => True) j t
       /\ fresh (record c') Phase.CandidatePrepared /\ cand_id (candidate (record c')) = Some id).
Proof.
  intros Hf Hid. unfold finish_candidate_prepare, candidate_state. rewrite (fr_operation _ _ Hf), Hid.
  eapply hoare_bind; [apply hoare_inert; eauto with tx|]. intros [].
  eapply hoare_bind; [apply hoare_lift; eauto with tx|]. intros id'. apply hoare_pure. intros [= <-].
  eapply hoare_bind; [apply hoare_inert; eauto with tx|]. intros [].
  eapply hoare_bind; [by apply hoare_bind_metadata|]. intros bound.
  do 3 (eapply hoare_bind; [apply hoare_inert; [solve [eauto with tx]|eauto with tx]|intros ?]).
  eapply (hoare_bind _ _ _ _ (fun c' j t => at_record (record c) (fun t => is_Some (t_provenance t !! id)) j t /\ record c' = record c)).
  { eapply hoare_bind; [apply hoare_inert; eauto with tx|]. intros []. by apply hoare_ret. }
  intros c'. apply hoare_pure. intros Hr. rewrite <- Hr in Hf, Hid |- *.
  eapply hoare_bind; [apply hoare_inert; eauto with tx|]. intros [].
  assert (forall next, successor_facts None (record c') next -> cand_id (candidate next) = Some id) as Hc.
  { intros next Hs. rewrite (sf_candidate _ _ _ Hs), bool_decide_eq_false_2; [done|]. by rewrite (fr_phase _ _ Hf). }
  eapply hoare_post; [|apply hoare_advance].
  - intros c2 j t ((Hj & Hcon & _) & _ & Hs). split_and!; [done..| |by apply Hc]. apply (fresh_successor _ _ _ _ Hf Hs).
  - intros next t Hs (_ & Hv & _ & Ht & Hp)%at_record_tracks. pose proof (fresh_successor _ _ _ _ Hf Hs) as Hf'.
    apply (fresh_tracks _ _ t id Hf Hid) in Ht as (Hprev & Ho & _); [|done..].
    apply (fresh_tracks next _ t id Hf'); [by apply Hc|done..|]. rewrite (fresh_provenance _ _ Hf').
    split_and!; [|by eapply owns_same; [apply Hs|]|by cbn; rewrite bool_decide_eq_true_2].
    intros p Hpp Hcp. apply Hprev; [by rewrite <- (sf_previous _ _ _ Hs)|]. by rewrite Hid, <- (Hc next Hs).
Qed.

Lemma hoare_execute self db prev sels summary bs now d :
  triple consistent (execute_new_state_prepare self db prev sels summary bs now d)
    (fun '(c, id) j t => at_record (record c) (fun _ => True) j t
       /\ fresh (record c) Phase.CandidatePrepared /\ cand_id (candidate (record c)) = Some id).
Proof.
  unfold execute_new_state_prepare. eapply hoare_bind; [apply hoare_begin|]. intros c1.
  eapply hoare_bind; [apply hoare_begin_fresh|]. intros c2. apply hoare_pure. intros Hf.
  eapply hoare_bind; [apply hoare_lift; eauto with tx|]. intros tr. apply hoare_pure. intros Htr.
  unfold transition_id_for_allocation in Htr. inv_ok.
  eapply hoare_bind; [by apply hoare_add|]. intros st.
  eapply hoare_bind; [by apply hoare_finish_fresh|]. intros c3. apply hoare_pure. intros [Hf3 Hid3].
  eapply hoare_bind; [by apply hoare_begin_candidate|]. intros c4. apply hoare_pure. intros [Hf4 Hid4].
  eapply hoare_bind; [by apply hoare_finish_candidate|]. intros c5. by apply hoare_ret.
Qed.

(** What startup asks of the two stores before anything else *)
Definition startup_admits (j : option TransitionRecord) (t : tables) : Prop :=
  match j with
  | None => (run audit_in_flight_transition t).1 = Ok None
  | Some r => database_admits r t = true
  end.

Lemma consistent_admits j t : consistent j t -> startup_admits j t.
Proof.
  intros [Hw Hj]. destruct j as [r|]; cbn.
  - destruct Hj as (Hv & Hc & Ht). by apply admits_tracks.
  - destruct (audit_cases t Hw) as [[-> _]|[(f & _ & Hf & _)|(e & i1 & raw1 & i2 & raw2 & _ & _ & Hf & _)]]; [done|..];
      by destruct (Hj _ _ Hf).
Qed.

(** C5: wherever the preparation of a new state stops - an error, a failed write of the
    journal or the database, a commit that reports failure after it happened, or a crash,
    which is the error of the write it interrupts - startup finds a journal and a database
    that agree: without a record no transition is in flight, and with one the database
    holds exactly the rows that record admits.  A run that returns leaves the prepared
    candidate it returns. *)
Theorem coordinator_crash_consistent self db prev sels summary bs now d w faults :
  well_formed (database w) -> startup_admits None (database w) -> journal w = None ->
  match execute_new_state_prepare self db prev sels summary bs now d (w, faults) with
  | (Ok (c, id), (w', _)) =>
      well_formed (database w') /\ startup_admits (journal w') (database w') /\ journal w' = Some (record c)
      /\ phase (record c) = Phase.CandidatePrepared /\ cand_id (candidate (record c)) = Some id
      /\ carried (database w') id (transition_id_text (transition_id (record c)))
      /\ is_Some (t_provenance (database w') !! id)
  | (Err _, (w', _)) => well_formed (database w') /\ startup_admits (journal w') (database w')
  end.
Proof.
  intros Hw Ha Hj. assert (consistent (journal w) (database w)) as Hc.
  { rewrite Hj. split; [done|]. cbn in Ha. destruct (audit_cases _ Hw) as [[_ Hn]|[(f & E & _)|(e & ? & ? & ? & ? & E & _)]]; [done|..];
      by rewrite E in Ha. }
  pose proof (hoare_execute self db prev sels summary bs now d w faults Hc) as Ht.
  destruct (execute_new_state_prepare _ _ _ _ _ _ _ _ _) as [[[c id]|e] [w' fs]].
  - destruct Ht as ((Hj' & Hc' & _) & Hf & Hid). pose proof Hc' as [Hw' Htr]. rewrite Hj' in Htr. destruct Htr as (_ & _ & Htr).
    apply (fresh_tracks _ _ _ id Hf Hid) in Htr as (_ & [Ho _] & Hp); [|done..]. rewrite (fresh_provenance _ _ Hf) in Hp.
    apply bool_decide_eq_true in Hp. split_and!; try done; [by apply consistent_admits|apply Hf].
  - split; [apply Ht|by apply consistent_admits].
Qed.

(** ** Candidates without provenance *)

(** C35: [begin_transition] makes a record durable for an existing state without looking
    at its metadata provenance, and a state added outside a transition has none.  The
    preparation of such a candidate never finishes: every run stops with an error and
    leaves both stores as they are, and startup admits no record of that candidate, so
    the journal keeps blocking the root. *)
Theorem missing_provenance_strands c d id w faults :
  operation (record c) <> NewState -> cand_id (candidate (record c)) = Some id ->
  t_provenance (database w) !! id = None -> well_formed (database w) ->
  valid (record c) -> canonical (transition_id (record c)) ->
  (exists e w' faults', finish_candidate_prepare c d (w, faults) = (Err e, (w', faults'))
     /\ journal w' = journal w /\ database w' = database w)
  /\ database_admits (record c) (database w) = false.
Proof.
  intros Hop Hid Hp Hw Hv Hc. split.
  - set (here := fun j t => j = journal w /\ t = database w).
    assert (runs here here (finish_candidate_prepare c d) (fun _ _ _ => False)) as Hr.
    { unfold finish_candidate_prepare, candidate_state. rewrite Hid.
      eapply hoare_bind; [apply hoare_inert; eauto with tx|]. intros [].
      eapply hoare_bind; [apply hoare_lift; eauto with tx|]. intros id'. apply hoare_pure. intros [= <-].
      eapply hoare_bind; [apply hoare_inert; eauto with tx|]. intros [].
      eapply (hoare_bind _ _ _ _ (fun _ _ _ => False)); [|by intros a w' fs []].
      unfold bind_metadata. destruct (operation (record c)); [done|..];
        (eapply (hoare_bind _ _ _ _ (fun _ _ _ => False)); [|by intros a w' fs []]);
        (eapply hoare_post; [|apply hoare_read; [apply required_lawful|apply required_reads|done]]);
        intros a j t [[-> ->] Hrun]; by rewrite run_required in Hrun. }
    specialize (Hr w faults (conj eq_refl eq_refl)).
    destruct (finish_candidate_prepare c d (w, faults)) as [[a|e] [w' fs']]; [done|]. destruct Hr. eauto 6.
  - apply not_true_iff_false. rewrite admits_tracks by done. intros [_ Ht]. rewrite Hid in Ht. cbn in Ht.
    destruct (operation (record c)); [done|..]; destruct Ht as (_ & _ & [q Hq]); congruence.
Qed.
End steps.

(** ** A run of the coordinator

    A new state prepared from an active state on the sample database: every check of a
    tree passes and the run returns the prepared candidate.  And a state that was added
    outside a transition, whose activation is stranded. *)

#[export] Instance plain_sha256 : Sha256 := {| sha256_digest := fun b => repeat (default x00 (head b)) 32 |}.

(** An archived and the active state, added outside a transition *)
Definition settled_tables : tables :=
  {| t_state := {[5%Z := sample_row None; 6%Z := sample_row None]}; t_sequence := 6; t_selections := ∅; t_provenance := ∅; t_migrations := ∅ |}.

Lemma settled_tables_well_formed : well_formed settled_tables.
Proof.
  assert (forall id row, t_state settled_tables !! id = Some row -> (id = 5%Z \/ id = 6%Z) /\ row = sample_row None) as Hs.
  { intros id row. cbn. rewrite lookup_insert_Some, lookup_singleton_Some. naive_solver. }
  split; try done.
  - intros id row [[-> | ->] ->]%Hs; (split; [cbn; lia|done]).
  - intros id1 row1 id2 row2 [_ ->]%Hs [_ ->]%Hs. by intros _ [].
Qed.

Definition sample_capture : CapturedRuntimeEvidence :=
  {| captured_epoch := sample_epoch; captured_candidate := sample_tree 977; captured_previous := sample_tree 131 |}.

Definition sample_world : world :=
  {| journal := None; database := settled_tables;
     answers := {| checks := repeat true 100; captures := repeat (Some sample_capture) 100; os_infos := repeat (Some None) 10;
                   random := [repeat x5a 16] |} |}.

Definition sample_identity : Identity :=
  {| state_database := 0; candidate_marker := cand_tree_token (candidate sample); previous_marker := prev_tree_token sample_previous;
     candidate_state_id := RetainedCandidateStateId.UnknownIdAbsent; previous_classification := RetainedPreviousClassification.Active 6 |}.

Definition sample_derive : derive := fun _ => Some (bstr "ID=cast", bstr "{}").

Definition sample_run := execute_new_state_prepare sample_identity 0 (NewStatePrevious.Active 6) [explicit (bstr "pkg")] (bstr "install") true
  1700000001 sample_derive.

Lemma coordinator_crash_consistent_witness : exists c w',
  sample_run (sample_world, []) = (Ok (c, 7%Z), (w', [])) /\ startup_admits (journal w') (database w').
Proof.
  pose proof (coordinator_crash_consistent sample_identity 0 (NewStatePrevious.Active 6) [explicit (bstr "pkg")] (bstr "install") true
    1700000001 sample_derive sample_world [] settled_tables_well_formed eq_refl eq_refl) as Ht. fold sample_run in Ht.
  assert (exists c w', sample_run (sample_world, []) = (Ok (c, 7%Z), (w', []))) as (c & w' & E).
  { eexists _, _. vm_compute. reflexivity. }
  exists c, w'. rewrite E in Ht. split; [exact E|]. apply Ht.
Defined.

(** The activation of an archived state without provenance *)
Definition sample_activation : TransitionRecord :=
  {| format := PAYLOAD_FORMAT; version := PAYLOAD_VERSION; generation := 2; transition_id := transition_id sample;
     creation_epoch := sample_epoch; operation := ActivateArchived; phase := Phase.CandidatePrepareStarted;
     rollback := None; boot_publication_receipts := None;
     candidate := {| cand_id := Some 5%Z; cand_origin := CandidateOrigin.Archived;
       cand_tree_token := cand_tree_token (candidate sample); cand_usr_runtime_identity := sample_tree 977 |};
     previous := sample_previous; options := options sample; quarantine_name := quarantine_name sample |}.

Lemma missing_provenance_strands_witness :
  database_admits sample_activation settled_tables = false.
Proof.
  refine (proj2 (missing_provenance_strands {| identity := sample_identity; record := sample_activation |} sample_derive 5 sample_world []
    _ _ _ settled_tables_well_formed _ _)); [discriminate|reflexivity|reflexivity|vm_compute; reflexivity..].
Defined.
