(* ===== verification/Namespace.v ===== *)
(** * The activation namespace

    [crates/forge/src/client/startup_reconciliation/activation_namespace]: what startup
    reads of an installation's trees ([capture/model.rs]), which arrangement of the
    candidate and the previous tree each journal record authorises ([policy.rs]), and the
    two movements recovery makes: exchanging [/usr] back ([capture/reverse_exchange.rs])
    and preserving the candidate of a new state ([capture/new_state_candidate_preserve.rs],
    [candidate_preserve_proof.rs]).

    A snapshot is the fingerprint a capture takes; descriptors kept beside it only serve
    to detect that a file changed in between. *)

From S2P Require Import Prelude ByteStrings JournalModel JournalValidation JournalMachine JournalSuccessors.

(** ** Fingerprints *)

Record InodeWitness := {
  w_device : Z;
  w_inode : Z;
  w_mode : Z;
  w_owner : Z;
  w_group : Z;
  w_links : Z;
  w_length : Z;
  w_modified_seconds : Z;
  w_modified_nanoseconds : Z;
  w_changed_seconds : Z;
  w_changed_nanoseconds : Z;
}.
#[global] Instance InodeWitness_eq_dec : EqDecision InodeWitness.
Proof. solve_decision. Defined.

Module TreeLocation.
Inductive t :=
  | Live
  | Staging
  | State (state : Z)
  | ArchivedCandidateParking (state : Z) (token : bytes) (index : Z)
  | PreviousParking (state : Z) (index : Z)
  | TransitionQuarantine
  | ActiveReblitWrapper (state : Z) (index : Z)
  | AmbientQuarantine (name : bytes).
#[global] Instance t_eq_dec : EqDecision t.
Proof. solve_decision. Defined.
End TreeLocation.

Module StateIdObservation.
Inductive t := Absent | Canonical (state : Z) | Corrupt.
#[global] Instance t_eq_dec : EqDecision t.
Proof. solve_decision. Defined.
End StateIdObservation.

Module StateIdCorruption.
Inductive t := TemporaryName | UnsafeMetadata | InvalidContent.
#[global] Instance t_eq_dec : EqDecision t.
Proof. solve_decision. Defined.
End StateIdCorruption.

Module StateIdFingerprint.
Inductive t :=
  | Absent
  | Canonical (state : Z) (witness : InodeWitness) (content : bytes)
  | Corrupt (reason : StateIdCorruption.t) (state temporary : option InodeWitness) (content : option bytes).
#[global] Instance t_eq_dec : EqDecision t.
Proof. solve_decision. Defined.

Definition observation (self : t) : StateIdObservation.t :=
  match self with
  | Absent => StateIdObservation.Absent
  | Canonical state _ _ => StateIdObservation.Canonical state
  | Corrupt _ _ _ _ => StateIdObservation.Corrupt
  end.
End StateIdFingerprint.

Record SlotFingerprint := { slot_state : Z; slot_token : bytes; slot_witness : InodeWitness }.
#[global] Instance SlotFingerprint_eq_dec : EqDecision SlotFingerprint.
Proof. solve_decision. Defined.

Record UsrFingerprint := {
  location : TreeLocation.t;
  token : bytes;
  directory : InodeWitness;
  marker : InodeWitness;
  usr_state_id : StateIdFingerprint.t;
  runtime : RuntimeTreeIdentity;
}.
#[global] Instance UsrFingerprint_eq_dec : EqDecision UsrFingerprint.
Proof. solve_decision. Defined.

Definition state_id_observation (self : UsrFingerprint) : StateIdObservation.t := StateIdFingerprint.observation (usr_state_id self).

Record WrapperFingerprint := {
  name : bytes;
  witness : InodeWitness;
  role : TreeLocation.t;
  entries : list (bytes * InodeWitness);
  usr : option UsrFingerprint;
  slot : option SlotFingerprint;
}.
#[global] Instance WrapperFingerprint_eq_dec : EqDecision WrapperFingerprint.
Proof. solve_decision. Defined.

Definition slot_identity (self : WrapperFingerprint) : option (Z * bytes) :=
  (fun s => (slot_state s, slot_token s)) <$> slot self.

(** [0o7777] and [0o700] *)
Definition has_exact_private_permissions (self : WrapperFingerprint) : bool :=
  (Z.land (w_mode (witness self)) 4095 =? 448)%Z.

Record RootAbiLinkFingerprint := { link_name : bytes; link_target : bytes; link_witness : InodeWitness }.
#[global] Instance RootAbiLinkFingerprint_eq_dec : EqDecision RootAbiLinkFingerprint.
Proof. solve_decision. Defined.

(** [RootAbiFingerprint] *)
Abbreviation RootAbi := (list (option RootAbiLinkFingerprint)).

Definition is_complete (self : RootAbi) : bool := forallb (fun l => bool_decide (is_Some l)) self.

Record RootEntryFingerprint := { re_name : bytes; re_device : Z; re_inode : Z; re_kind : Z }.
#[global] Instance RootEntryFingerprint_eq_dec : EqDecision RootEntryFingerprint.
Proof. solve_decision. Defined.

Record TargetResidueFingerprint := { residue_name : bytes; residue_witness : InodeWitness }.
#[global] Instance TargetResidueFingerprint_eq_dec : EqDecision TargetResidueFingerprint.
Proof. solve_decision. Defined.

Record NamespaceFingerprint := {
  root : InodeWitness;
  root_entries : list RootEntryFingerprint;
  roots : InodeWitness;
  quarantine : InodeWitness;
  epoch : RuntimeEpoch;
  live : UsrFingerprint;
  root_abi : RootAbi;
  isolation_abi : RootAbi;
  roots_entries : list WrapperFingerprint;
  quarantine_entries : list WrapperFingerprint;
  new_state_target_residue : option TargetResidueFingerprint;
}.
#[global] Instance NamespaceFingerprint_eq_dec : EqDecision NamespaceFingerprint.
Proof. solve_decision. Defined.

Definition wrappers (self : NamespaceFingerprint) : list WrapperFingerprint := roots_entries self ++ quarantine_entries self.

Definition trees (self : NamespaceFingerprint) : list UsrFingerprint := live self :: omap usr (wrappers self).

(** [admits_only_root_abi_growth]: nothing changed but timestamps of the root and links
    that were absent *)
Definition root_stable (before after : InodeWitness) : bool :=
  (w_device before =? w_device after)%Z && (w_inode before =? w_inode after)%Z && (w_mode before =? w_mode after)%Z
  && (w_owner before =? w_owner after)%Z && (w_group before =? w_group after)%Z && (w_links before =? w_links after)%Z.

Definition link_grows (before after : option RootAbiLinkFingerprint) : bool :=
  match before, after with
  | Some b, Some a => bool_decide (b = a)
  | None, _ => true
  | Some _, None => false
  end.

Definition admits_only_root_abi_growth (before after : NamespaceFingerprint) : bool :=
  root_stable (root before) (root after)
  && (bool_decide (roots before = roots after) && bool_decide (root_entries before = root_entries after)
      && bool_decide (quarantine before = quarantine after) && bool_decide (epoch before = epoch after)
      && bool_decide (live before = live after) && bool_decide (isolation_abi before = isolation_abi after)
      && bool_decide (roots_entries before = roots_entries after)
      && bool_decide (quarantine_entries before = quarantine_entries after)
      && bool_decide (new_state_target_residue before = new_state_target_residue after))
  && ((length (root_abi before) =? length (root_abi after))%nat
      && forallb (fun p => link_grows p.1 p.2) (zip (root_abi before) (root_abi after))).

(** ** Policy *)

Module CandidatePlace.
Inductive t := Live | Staging | Destination.
#[global] Instance t_eq_dec : EqDecision t.
Proof. solve_decision. Defined.
End CandidatePlace.

Module PreviousPlace.
Inductive t := Live | Staging | Archived | TransitionQuarantine | ActiveReblitWrapper | Absent.
#[global] Instance t_eq_dec : EqDecision t.
Proof. solve_decision. Defined.
End PreviousPlace.

Record LayoutAlternative := { candidate_place : CandidatePlace.t; previous_place : PreviousPlace.t }.
#[global] Instance LayoutAlternative_eq_dec : EqDecision LayoutAlternative.
Proof. solve_decision. Defined.

Module UsrExchangeLayout.
Inductive t := Pre | Post.
#[global] Instance t_eq_dec : EqDecision t.
Proof. solve_decision. Defined.
End UsrExchangeLayout.

Definition PRE_EXCHANGE : LayoutAlternative :=
  {| candidate_place := CandidatePlace.Staging; previous_place := PreviousPlace.Live |}.
Definition POST_EXCHANGE : LayoutAlternative :=
  {| candidate_place := CandidatePlace.Live; previous_place := PreviousPlace.Staging |}.
Definition PREVIOUS_ARCHIVED : LayoutAlternative :=
  {| candidate_place := CandidatePlace.Live; previous_place := PreviousPlace.Archived |}.
(** the local [preserved] of [rollback_layouts] *)
Definition PRESERVED : LayoutAlternative :=
  {| candidate_place := CandidatePlace.Destination; previous_place := PreviousPlace.Live |}.

Definition usr_exchange_layout (self : LayoutAlternative) : option UsrExchangeLayout.t :=
  if bool_decide (self = PRE_EXCHANGE) then Some UsrExchangeLayout.Pre
  else if bool_decide (self = POST_EXCHANGE) then Some UsrExchangeLayout.Post
  else None.

Definition rollback_usr_exchange_layout (self : LayoutAlternative) : option UsrExchangeLayout.t :=
  if bool_decide (self = PREVIOUS_ARCHIVED) then Some UsrExchangeLayout.Post else usr_exchange_layout self.

Module StateIdExpectation.
Inductive t := Absent | Optional (state : Z) | Present (state : Z) | MarkerOnly.
End StateIdExpectation.

Module PreviousStateIdExpectation.
Inductive t := Exact (state : option Z) | ActiveReblitCorrupt (state : Z).
End PreviousStateIdExpectation.

Module NamespacePolicyConflict.
Inductive t :=
  | CandidateCount (actual : nat)
  | PreviousCount (actual : nat)
  | PhaseLayout (candidate : TreeLocation.t) (previous : option TreeLocation.t)
  | RollbackActions
  | StagingWrapper
  | TransitionQuarantine
  | ActiveReblitWrapper
  | ActiveReblitPreviousSlot
  | CandidateStateId (expected : StateIdExpectation.t) (actual : StateIdObservation.t)
  | PreviousStateId (expected : PreviousStateIdExpectation.t) (actual : StateIdObservation.t)
  | CandidateRuntime
  | PreviousRuntime
  | RootAbiIncomplete
  | IsolationAbiIncomplete.
End NamespacePolicyConflict.

Abbreviation policy := (result NamespacePolicyConflict.t).

Definition forward_ordinal (p : ForwardPhase.t) : Z :=
  match p with
  | ForwardPhase.Preparing => 0
  | ForwardPhase.FreshStateAllocating => 1
  | ForwardPhase.FreshStateAllocated => 2
  | ForwardPhase.CandidatePrepareStarted => 3
  | ForwardPhase.CandidatePrepared => 4
  | ForwardPhase.TransactionTriggersStarted => 5
  | ForwardPhase.TransactionTriggersComplete => 6
  | ForwardPhase.UsrExchangeIntent => 7
  | ForwardPhase.UsrExchanged => 8
  | ForwardPhase.RootLinksComplete => 9
  | ForwardPhase.SystemTriggersStarted => 10
  | ForwardPhase.SystemTriggersComplete => 11
  | ForwardPhase.PreviousArchiveIntent => 12
  | ForwardPhase.PreviousArchived => 13
  | ForwardPhase.BootSyncStarted => 14
  | ForwardPhase.BootSyncComplete => 15
  | ForwardPhase.CommitDecided => 16
  | ForwardPhase.CommitCleanupComplete => 17
  | ForwardPhase.Complete => 18
  end.

(** [18] for every rollback phase *)
Definition forward_phase_ordinal (p : Phase.t) : Z :=
  match forward p with Some f => forward_ordinal f | None => 18 end.

(** The ordinal of the phase the forward path stopped in *)
Definition source_ordinal (record : TransitionRecord) : Z :=
  match rollback record with
  | Some plan => forward_ordinal (rp_source plan)
  | None => forward_phase_ordinal (phase record)
  end.

Definition commit_layouts (record : TransitionRecord) (intent : bool) : list LayoutAlternative :=
  let completed :=
    {| candidate_place := CandidatePlace.Live;
       previous_place := match prev_origin (previous record) with
                         | PreviousOrigin.ActiveState => PreviousPlace.Archived
                         | PreviousOrigin.ActiveReblitCorrupt => PreviousPlace.ActiveReblitWrapper
                         | PreviousOrigin.SynthesizedEmpty => PreviousPlace.Absent
                         | PreviousOrigin.Unmanaged => PreviousPlace.TransitionQuarantine
                         end |} in
  if intent && negb (bool_decide (prev_origin (previous record) = PreviousOrigin.ActiveState))
     && negb (bool_decide (completed = POST_EXCHANGE))
  then [POST_EXCHANGE; completed] else [completed].

Definition forward_layouts (record : TransitionRecord) : list LayoutAlternative :=
  match phase record with
  | Phase.Preparing | Phase.FreshStateAllocating | Phase.FreshStateAllocated | Phase.CandidatePrepareStarted
  | Phase.CandidatePrepared | Phase.TransactionTriggersStarted | Phase.TransactionTriggersComplete => [PRE_EXCHANGE]
  | Phase.UsrExchangeIntent => [PRE_EXCHANGE; POST_EXCHANGE]
  | Phase.UsrExchanged | Phase.RootLinksComplete | Phase.SystemTriggersStarted | Phase.SystemTriggersComplete =>
      [POST_EXCHANGE]
  | Phase.PreviousArchiveIntent => [POST_EXCHANGE; PREVIOUS_ARCHIVED]
  | Phase.PreviousArchived => [PREVIOUS_ARCHIVED]
  | Phase.BootSyncStarted | Phase.BootSyncComplete =>
      if archive_previous (options record) then [PREVIOUS_ARCHIVED] else [POST_EXCHANGE]
  | Phase.CommitDecided => commit_layouts record true
  | Phase.CommitCleanupComplete | Phase.Complete => commit_layouts record false
  | _ => []
  end.

Definition layout_at_rollback_decision (plan : RollbackPlan) : policy LayoutAlternative :=
  let previous_pending := bool_decide (rp_previous_archive plan = RollbackAction.Pending) in
  let usr_pending := bool_decide (rp_usr_exchange plan = RollbackAction.Pending) in
  let candidate_pending := bool_decide (cr_action (rp_candidate plan) = RollbackAction.Pending) in
  if (previous_pending && negb usr_pending) || (usr_pending && negb candidate_pending) then
    Err NamespacePolicyConflict.RollbackActions
  else if previous_pending then Ok PREVIOUS_ARCHIVED
  else if usr_pending then Ok POST_EXCHANGE
  else if candidate_pending then Ok PRE_EXCHANGE
  else Ok PRESERVED.

Definition rollback_layouts (record : TransitionRecord) (plan : RollbackPlan) : policy (list LayoutAlternative) :=
  match phase record with
  | Phase.RollbackDecided => l ← layout_at_rollback_decision plan; Ok [l]
  | Phase.PreviousRestoreIntent => Ok [PREVIOUS_ARCHIVED; POST_EXCHANGE]
  | Phase.PreviousRestoredToStaging => Ok [POST_EXCHANGE]
  | Phase.ReverseExchangeIntent => Ok [POST_EXCHANGE; PRE_EXCHANGE]
  | Phase.UsrRestored => Ok [PRE_EXCHANGE]
  | Phase.CandidatePreserveIntent => Ok [PRE_EXCHANGE; PRESERVED]
  | Phase.CandidatePreserved | Phase.FreshDbInvalidationIntent | Phase.FreshDbInvalidated | Phase.BootRepairRequired
  | Phase.BootRepairStarted | Phase.BootRepairComplete | Phase.BootRepairUnverified | Phase.RollbackComplete =>
      Ok [PRESERVED]
  | _ => Ok []
  end.

Definition expected_layouts (record : TransitionRecord) : policy (list LayoutAlternative) :=
  match rollback record with
  | Some plan => rollback_layouts record plan
  | None => Ok (forward_layouts record)
  end.

Definition candidate_destination (record : TransitionRecord) (actual : TreeLocation.t) : bool :=
  let disposition := (fun p => cr_disposition (rp_candidate p)) <$> rollback record in
  match operation record with
  | ActivateArchived =>
      if bool_decide (disposition = Some AbortDisposition.Quarantine) then
        bool_decide (actual = TreeLocation.TransitionQuarantine)
      else match cand_id (candidate record) with
           | Some id => bool_decide (actual = TreeLocation.State id)
           | None => false
           end
  | NewState => bool_decide (actual = TreeLocation.TransitionQuarantine)
  | ActiveReblit =>
      bool_decide (actual = TreeLocation.TransitionQuarantine)
      || match actual with
         | TreeLocation.ActiveReblitWrapper state _ => bool_decide (prev_id (previous record) = Some state)
         | _ => false
         end
  end.

Definition candidate_place_matches (record : TransitionRecord) (expected : CandidatePlace.t) (actual : TreeLocation.t) : bool :=
  match expected with
  | CandidatePlace.Live => bool_decide (actual = TreeLocation.Live)
  | CandidatePlace.Staging => bool_decide (actual = TreeLocation.Staging)
  | CandidatePlace.Destination => candidate_destination record actual
  end.

Definition previous_place_matches (record : TransitionRecord) (expected : PreviousPlace.t) (actual : option TreeLocation.t) : bool :=
  match expected, actual with
  | PreviousPlace.Absent, None => true
  | PreviousPlace.Live, Some TreeLocation.Live => true
  | PreviousPlace.Staging, Some TreeLocation.Staging => true
  | PreviousPlace.Archived, Some (TreeLocation.State actual) => bool_decide (prev_id (previous record) = Some actual)
  | PreviousPlace.TransitionQuarantine, Some TreeLocation.TransitionQuarantine => true
  | PreviousPlace.ActiveReblitWrapper, Some (TreeLocation.ActiveReblitWrapper state _) =>
      bool_decide (prev_id (previous record) = Some state)
  | _, _ => false
  end.

(** ** Wrappers *)

Definition candidate_token (record : TransitionRecord) : bytes := tree_token_text (cand_tree_token (candidate record)).
Definition previous_token (record : TransitionRecord) : bytes := tree_token_text (prev_tree_token (previous record)).

Definition wrapper_tree_token (self : WrapperFingerprint) : option bytes := token <$> usr self.

Definition expected_token_at (layout : LayoutAlternative) (c : CandidatePlace.t) (p : PreviousPlace.t)
    (record : TransitionRecord) : option bytes :=
  if bool_decide (candidate_place layout = c) then Some (candidate_token record)
  else if bool_decide (previous_place layout = p) then Some (previous_token record)
  else None.

Module ActiveReblitReservation.
Inductive t := Absent | Optional | Required.
#[global] Instance t_eq_dec : EqDecision t.
Proof. solve_decision. Defined.
End ActiveReblitReservation.

Definition active_reblit_reservation (record : TransitionRecord) : ActiveReblitReservation.t :=
  if (source_ordinal record <=? 3)%Z then ActiveReblitReservation.Absent
  else if (source_ordinal record =? 4)%Z then ActiveReblitReservation.Optional
  else ActiveReblitReservation.Required.

Definition is_reblit_wrapper (w : WrapperFingerprint) : bool :=
  match role w with TreeLocation.ActiveReblitWrapper _ _ => true | _ => false end.
Definition is_parking (w : WrapperFingerprint) : bool :=
  match role w with TreeLocation.ArchivedCandidateParking _ _ _ | TreeLocation.PreviousParking _ _ => true | _ => false end.

Definition require_active_reblit_previous_slot_layout (record : TransitionRecord) (snapshot : NamespaceFingerprint)
    (replacement_present : bool) : policy unit :=
  (* the [expect]: a valid record of an active reblit has a previous state *)
  let previous_state := default 0%Z (prev_id (previous record)) in
  let token := previous_token record in
  let previous_slots := filter (fun w => slot_identity w = Some (previous_state, token)) (wrappers snapshot) in
  reject NamespacePolicyConflict.ActiveReblitPreviousSlot when (1 <? length previous_slots)%nat;;
  let slot := head previous_slots in
  let parked := match slot with
                | Some w => match role w with
                            | TreeLocation.ArchivedCandidateParking state t _ =>
                                bool_decide (state = previous_state) && bool_decide (t = token)
                            | _ => false
                            end
                | None => false
                end in
  let canonical := match slot with
                   | Some w => bool_decide (role w = TreeLocation.State previous_state)
                   | None => false
                   end in
  reject NamespacePolicyConflict.ActiveReblitPreviousSlot when
    (bool_decide (is_Some slot) && negb canonical && negb parked);;
  let parking_wrappers := List.filter is_parking (wrappers snapshot) in
  let parking_shape_is_exact :=
    if parked then (length parking_wrappers =? 1)%nat && bool_decide (slot = head parking_wrappers)
    else bool_decide (parking_wrappers = []) in
  reject NamespacePolicyConflict.ActiveReblitPreviousSlot when (negb parking_shape_is_exact);;
  match active_reblit_reservation record with
  | ActiveReblitReservation.Absent => reject NamespacePolicyConflict.ActiveReblitPreviousSlot when parked
  | ActiveReblitReservation.Optional =>
      reject NamespacePolicyConflict.ActiveReblitPreviousSlot when (parked && negb replacement_present)
  | ActiveReblitReservation.Required => reject NamespacePolicyConflict.ActiveReblitPreviousSlot when canonical
  end.

(** The wrappers an active reblit reserves *)
Definition require_reblit_wrappers (record : TransitionRecord) (snapshot : NamespaceFingerprint)
    (layout : LayoutAlternative) (candidate : UsrFingerprint) : policy unit :=
  let ws := List.filter is_reblit_wrapper (wrappers snapshot) in
  reject NamespacePolicyConflict.ActiveReblitWrapper when
    existsb (fun w => match role w with
                      | TreeLocation.ActiveReblitWrapper state _ => negb (bool_decide (Some state = prev_id (previous record)))
                      | _ => true
                      end) ws;;
  let at_destination := bool_decide (candidate_place layout = CandidatePlace.Destination) in
  let candidate_in_reserved := at_destination
    && match location candidate with TreeLocation.ActiveReblitWrapper _ _ => true | _ => false end in
  let candidate_in_transition := at_destination && bool_decide (location candidate = TreeLocation.TransitionQuarantine) in
  let previous_reserved := bool_decide (previous_place layout = PreviousPlace.ActiveReblitWrapper) in
  let expected := if candidate_in_reserved then Some (candidate_token record)
                  else if previous_reserved then Some (previous_token record) else None in
  let exact_contents := head ws ≫= wrapper_tree_token in
  let reservation := active_reblit_reservation record in
  let one_empty := (length ws =? 1)%nat && bool_decide (exact_contents = None) in
  let shape_matches :=
    if candidate_in_reserved || previous_reserved then
      negb (bool_decide (reservation = ActiveReblitReservation.Absent)) && (length ws =? 1)%nat
      && bool_decide (exact_contents = expected)
    else if candidate_in_transition then
      negb (bool_decide (reservation = ActiveReblitReservation.Required)) && bool_decide (ws = [])
    else match reservation with
         | ActiveReblitReservation.Absent => bool_decide (ws = [])
         | ActiveReblitReservation.Optional => bool_decide (ws = []) || one_empty
         | ActiveReblitReservation.Required => one_empty
         end in
  reject NamespacePolicyConflict.ActiveReblitWrapper when (negb shape_matches);;
  require_active_reblit_previous_slot_layout record snapshot (negb (bool_decide (ws = []))).

Definition require_fixed_wrapper_layout (record : TransitionRecord) (snapshot : NamespaceFingerprint)
    (layout : LayoutAlternative) (candidate : UsrFingerprint) : policy unit :=
  (* the [expect]: a capture requires the staging wrapper *)
  staging ← ok_or (List.find (fun w => bool_decide (role w = TreeLocation.Staging)) (wrappers snapshot))
    NamespacePolicyConflict.StagingWrapper;
  let expected_staging := expected_token_at layout CandidatePlace.Staging PreviousPlace.Staging record in
  reject NamespacePolicyConflict.StagingWrapper when (negb (bool_decide (wrapper_tree_token staging = expected_staging)));;
  let transition_wrappers :=
    List.filter (fun w => bool_decide (role w = TreeLocation.TransitionQuarantine)) (wrappers snapshot) in
  let expected_transition :=
    if bool_decide (candidate_place layout = CandidatePlace.Destination)
       && bool_decide (location candidate = TreeLocation.TransitionQuarantine) then Some (candidate_token record)
    else if bool_decide (previous_place layout = PreviousPlace.TransitionQuarantine) then Some (previous_token record)
    else None in
  reject NamespacePolicyConflict.TransitionQuarantine when
    ((1 <? length transition_wrappers)%nat
     || negb (bool_decide (head transition_wrappers ≫= wrapper_tree_token = expected_transition))
     || (bool_decide (is_Some expected_transition) && bool_decide (transition_wrappers = [])));;
  if bool_decide (operation record = ActiveReblit) then require_reblit_wrappers record snapshot layout candidate
  else Ok tt.

(** ** State identifiers and links *)

Definition candidate_state_id_expectation (record : TransitionRecord) : StateIdExpectation.t :=
  let begins_rollback :=
    match recovery_disposition record with RecoveryDisposition.BeginRollback _ => true | _ => false end in
  if bool_decide (is_Some (rollback record)) || begins_rollback then StateIdExpectation.MarkerOnly
  else match cand_id (candidate record) with
       | None => StateIdExpectation.Absent
       | Some id =>
           if bool_decide (operation record = ActivateArchived) then StateIdExpectation.Present id
           else if (source_ordinal record <=? 2)%Z then StateIdExpectation.Absent
           else if (source_ordinal record =? 3)%Z then StateIdExpectation.Optional id
           else StateIdExpectation.Present id
       end.

Definition previous_state_id_expectation (record : TransitionRecord) : PreviousStateIdExpectation.t :=
  if bool_decide (operation record = ActiveReblit) then
    PreviousStateIdExpectation.ActiveReblitCorrupt (default 0%Z (prev_id (previous record)))
  else PreviousStateIdExpectation.Exact (prev_id (previous record)).

Definition state_id_matches (expected : StateIdExpectation.t) (actual : StateIdObservation.t) : bool :=
  match expected with
  | StateIdExpectation.Absent => bool_decide (actual = StateIdObservation.Absent)
  | StateIdExpectation.Optional state =>
      bool_decide (actual = StateIdObservation.Absent) || bool_decide (actual = StateIdObservation.Canonical state)
  | StateIdExpectation.Present state => bool_decide (actual = StateIdObservation.Canonical state)
  | StateIdExpectation.MarkerOnly => true
  end.

Definition previous_state_id_matches (expected : PreviousStateIdExpectation.t) (actual : StateIdObservation.t) : bool :=
  match expected with
  | PreviousStateIdExpectation.Exact state =>
      bool_decide (actual = match state with Some s => StateIdObservation.Canonical s | None => StateIdObservation.Absent end)
  | PreviousStateIdExpectation.ActiveReblitCorrupt state =>
      bool_decide (actual = StateIdObservation.Absent \/ actual = StateIdObservation.Corrupt)
      || bool_decide (actual = StateIdObservation.Canonical state)
  end.

Definition root_abi_must_be_complete (record : TransitionRecord) : bool :=
  match rollback record with
  | Some plan =>
      let source := forward_ordinal (rp_source plan) in
      (9 <=? source)%Z || ((8 <=? source)%Z && bool_decide (phase record = Phase.RollbackComplete))
  | None => (9 <=? forward_phase_ordinal (phase record))%Z
  end.

Definition isolation_abi_must_be_complete (record : TransitionRecord) : bool :=
  (bool_decide (operation record = NewState \/ operation record = ActiveReblit) && (5 <=? source_ordinal record)%Z)
  || (run_system_triggers (options record) && (10 <=? source_ordinal record)%Z).

(** ** The assessment *)

Definition trees_for_token (snapshot : NamespaceFingerprint) (t : bytes) : list UsrFingerprint :=
  filter (fun tree => token tree = t) (trees snapshot).

Definition require_state_ids (record : TransitionRecord) (candidate : UsrFingerprint) (previous : option UsrFingerprint) :
    policy unit :=
  let expected := candidate_state_id_expectation record in
  reject (NamespacePolicyConflict.CandidateStateId expected (state_id_observation candidate)) when
    (negb (state_id_matches expected (state_id_observation candidate)));;
  match previous with
  | None => Ok tt
  | Some tree =>
      let expected := previous_state_id_expectation record in
      reject (NamespacePolicyConflict.PreviousStateId expected (state_id_observation tree)) when
        (negb (previous_state_id_matches expected (state_id_observation tree)))
  end.

(** Runtime identities are compared in the epoch that wrote them. *)
Definition require_runtime (record : TransitionRecord) (snapshot : NamespaceFingerprint) (candidate : UsrFingerprint)
    (previous : option UsrFingerprint) : policy unit :=
  if bool_decide (epoch snapshot = creation_epoch record) then
    reject NamespacePolicyConflict.CandidateRuntime when
      (negb (bool_decide (runtime candidate = cand_usr_runtime_identity (JournalModel.candidate record))));;
    match previous with
    | Some tree =>
        reject NamespacePolicyConflict.PreviousRuntime when
          (negb (bool_decide (runtime tree = prev_usr_runtime_identity (JournalModel.previous record))))
    | None => Ok tt
    end
  else Ok tt.

Definition layout_matches (record : TransitionRecord) (candidate : UsrFingerprint) (previous : option UsrFingerprint)
    (layout : LayoutAlternative) : bool :=
  candidate_place_matches record (candidate_place layout) (location candidate)
  && previous_place_matches record (previous_place layout) (location <$> previous).

Definition assess_snapshot_layout (record : TransitionRecord) (snapshot : NamespaceFingerprint) : policy LayoutAlternative :=
  let candidates := trees_for_token snapshot (candidate_token record) in
  reject (NamespacePolicyConflict.CandidateCount (length candidates)) when (negb (length candidates =? 1)%nat);;
  let previouses := trees_for_token snapshot (previous_token record) in
  alternatives ← expected_layouts record;
  let previous_may_be_absent :=
    existsb (fun l => bool_decide (previous_place l = PreviousPlace.Absent)) alternatives in
  reject (NamespacePolicyConflict.PreviousCount (length previouses)) when
    ((1 <? length previouses)%nat || (bool_decide (previouses = []) && negb previous_may_be_absent));;
  (* [candidate[0]]: there is one *)
  candidate ← ok_or (head candidates) (NamespacePolicyConflict.CandidateCount 0);
  let previous := head previouses in
  selected ← ok_or (List.find (layout_matches record candidate previous) alternatives)
    (NamespacePolicyConflict.PhaseLayout (location candidate) (location <$> previous));
  require_fixed_wrapper_layout record snapshot selected candidate;;
  require_state_ids record candidate previous;;
  require_runtime record snapshot candidate previous;;
  reject NamespacePolicyConflict.RootAbiIncomplete when
    (root_abi_must_be_complete record && negb (is_complete (root_abi snapshot)));;
  reject NamespacePolicyConflict.IsolationAbiIncomplete when
    (isolation_abi_must_be_complete record && negb (is_complete (isolation_abi snapshot)));;
  Ok selected.
