(* ===== verification/NamespaceMoves.v ===== *)
(** * The movements of recovery

    The evidence that one movement, and nothing else, happened between two snapshots:
    exchanging [/usr] back ([capture/reverse_exchange.rs]), creating the quarantine of a
    new state ([capture/new_state_candidate_target_preparation.rs]) and moving the
    candidate there ([capture/new_state_candidate_preserve.rs]); and the topologies
    [candidate_preserve_proof.rs] recognises. *)

From S2P Require Import Prelude ByteStrings JournalModel JournalValidation JournalMachine JournalSuccessors Namespace.

(** ** The reverse exchange *)

Record ExchangeStableInode := {
  es_device : Z; es_inode : Z; es_mode : Z; es_owner : Z; es_group : Z; es_links : Z; es_length : Z;
}.
#[global] Instance ExchangeStableInode_eq_dec : EqDecision ExchangeStableInode.
Proof. solve_decision. Defined.

Definition stable_inode (w : InodeWitness) : ExchangeStableInode :=
  {| es_device := w_device w; es_inode := w_inode w; es_mode := w_mode w; es_owner := w_owner w;
     es_group := w_group w; es_links := w_links w; es_length := w_length w |}.

Record MovedUsrInode := { mu_stable : ExchangeStableInode; mu_seconds : Z; mu_nanoseconds : Z }.
#[global] Instance MovedUsrInode_eq_dec : EqDecision MovedUsrInode.
Proof. solve_decision. Defined.

Definition moved_inode (w : InodeWitness) : MovedUsrInode :=
  {| mu_stable := stable_inode w; mu_seconds := w_modified_seconds w; mu_nanoseconds := w_modified_nanoseconds w |}.

(** A tree without its place *)
Record SemanticUsrFingerprint := {
  su_token : bytes;
  su_directory : MovedUsrInode;
  su_marker : InodeWitness;
  su_state_id : StateIdFingerprint.t;
  su_runtime : RuntimeTreeIdentity;
}.
#[global] Instance SemanticUsrFingerprint_eq_dec : EqDecision SemanticUsrFingerprint.
Proof. solve_decision. Defined.

Definition semantic_usr (tree : UsrFingerprint) : SemanticUsrFingerprint :=
  {| su_token := token tree; su_directory := moved_inode (directory tree); su_marker := marker tree;
     su_state_id := usr_state_id tree; su_runtime := runtime tree |}.

Record ReverseExchangeProjection := {
  rx_root_parent : ExchangeStableInode;
  rx_staging_parent : ExchangeStableInode;
  rx_roots : InodeWitness;
  rx_quarantine : InodeWitness;
  rx_epoch : RuntimeEpoch;
  rx_candidate : SemanticUsrFingerprint;
  rx_previous : SemanticUsrFingerprint;
  rx_root_abi : RootAbi;
  rx_isolation_abi : RootAbi;
  rx_other_root_wrappers : list WrapperFingerprint;
  rx_quarantine_wrappers : list WrapperFingerprint;
}.
#[global] Instance ReverseExchangeProjection_eq_dec : EqDecision ReverseExchangeProjection.
Proof. solve_decision. Defined.

Record ProjectedReverseNamespace := { rx_layout : UsrExchangeLayout.t; rx_invariant : ReverseExchangeProjection }.
#[global] Instance ProjectedReverseNamespace_eq_dec : EqDecision ProjectedReverseNamespace.
Proof. solve_decision. Defined.

Module ReverseExchangeError.
Inductive t :=
  | TreeTokensEqual
  | TreeCount (role : bytes) (actual : nat)
  | StagingCount (actual : nat)
  | InvalidStagingRole
  | InvalidStagingShape
  | InvalidFixedLocations
  | NotPreOrPost
  | NotPostToPre (before after : UsrExchangeLayout.t)
  | InvariantChanged.
End ReverseExchangeError.

Definition exact_tree_for_token (s : NamespaceFingerprint) (t role : bytes) : result ReverseExchangeError.t UsrFingerprint :=
  match trees_for_token s t with
  | [tree] => Ok tree
  | l => Err (ReverseExchangeError.TreeCount role (length l))
  end.

Definition is_named_staging (w : WrapperFingerprint) : bool := bool_decide (name w = bstr "staging").

Definition exact_staging_wrapper (s : NamespaceFingerprint) : result ReverseExchangeError.t WrapperFingerprint :=
  match List.filter is_named_staging (roots_entries s) with
  | [w] => if bool_decide (role w = TreeLocation.Staging) then Ok w else Err ReverseExchangeError.InvalidStagingRole
  | l => Err (ReverseExchangeError.StagingCount (length l))
  end.

Definition exact_staging_usr (staging : WrapperFingerprint) : result ReverseExchangeError.t UsrFingerprint :=
  match usr staging, entries staging with
  | Some tree, [(n, w)] =>
      if negb (bool_decide (n = bstr "usr")) || negb (bool_decide (w = directory tree)) || bool_decide (is_Some (slot staging))
      then Err ReverseExchangeError.InvalidStagingShape else Ok tree
  | _, _ => Err ReverseExchangeError.InvalidStagingShape
  end.

(** [ProjectedReverseNamespace::from_fingerprint] *)
Definition project_reverse (s : NamespaceFingerprint) (record : TransitionRecord) :
    result ReverseExchangeError.t ProjectedReverseNamespace :=
  let c := candidate_token record in
  let p := previous_token record in
  reject ReverseExchangeError.TreeTokensEqual when (bool_decide (c = p));;
  cand ← exact_tree_for_token s c (bstr "candidate");
  prev ← exact_tree_for_token s p (bstr "previous");
  staging ← exact_staging_wrapper s;
  staged ← exact_staging_usr staging;
  reject ReverseExchangeError.InvalidFixedLocations when
    (negb (bool_decide (location (live s) = TreeLocation.Live)) || negb (bool_decide (location staged = TreeLocation.Staging)));;
  layout ← if bool_decide (token (live s) = c /\ token staged = p) then Ok UsrExchangeLayout.Post
           else if bool_decide (token (live s) = p /\ token staged = c) then Ok UsrExchangeLayout.Pre
           else Err ReverseExchangeError.NotPreOrPost;
  Ok {| rx_layout := layout;
        rx_invariant :=
          {| rx_root_parent := stable_inode (root s); rx_staging_parent := stable_inode (witness staging);
             rx_roots := roots s; rx_quarantine := quarantine s; rx_epoch := epoch s;
             rx_candidate := semantic_usr cand; rx_previous := semantic_usr prev;
             rx_root_abi := root_abi s; rx_isolation_abi := isolation_abi s;
             rx_other_root_wrappers := List.filter (fun w => negb (is_named_staging w)) (roots_entries s);
             rx_quarantine_wrappers := quarantine_entries s |} |}.

Definition require_post_to_pre (self after : ProjectedReverseNamespace) : result ReverseExchangeError.t unit :=
  reject (ReverseExchangeError.NotPostToPre (rx_layout self) (rx_layout after)) when
    (negb (bool_decide (rx_layout self = UsrExchangeLayout.Post)) || negb (bool_decide (rx_layout after = UsrExchangeLayout.Pre)));;
  reject ReverseExchangeError.InvariantChanged when (negb (bool_decide (rx_invariant self = rx_invariant after))).

(** ** Preserving the candidate of a new state *)

Record MutableParentIdentity := { mp_device : Z; mp_inode : Z; mp_mode : Z; mp_owner : Z; mp_group : Z }.
#[global] Instance MutableParentIdentity_eq_dec : EqDecision MutableParentIdentity.
Proof. solve_decision. Defined.

Definition mutable_parent (w : InodeWitness) : MutableParentIdentity :=
  {| mp_device := w_device w; mp_inode := w_inode w; mp_mode := w_mode w; mp_owner := w_owner w; mp_group := w_group w |}.

Module NewStatePreserveLayout.
Inductive t := StagedWithEmptyQuarantine | Preserved.
#[global] Instance t_eq_dec : EqDecision t.
Proof. solve_decision. Defined.
End NewStatePreserveLayout.

Record NewStatePreserveInvariant := {
  np_root : InodeWitness;
  np_roots : InodeWitness;
  np_quarantine : InodeWitness;
  np_epoch : RuntimeEpoch;
  np_live : UsrFingerprint;
  np_root_abi : RootAbi;
  np_isolation_abi : RootAbi;
  np_candidate : SemanticUsrFingerprint;
  np_staging_parent : MutableParentIdentity;
  np_target_parent : MutableParentIdentity;
  np_other_root_wrappers : list WrapperFingerprint;
  np_other_quarantine_wrappers : list WrapperFingerprint;
}.
#[global] Instance NewStatePreserveInvariant_eq_dec : EqDecision NewStatePreserveInvariant.
Proof. solve_decision. Defined.

Record ProjectedNewStatePreserve := { np_layout : NewStatePreserveLayout.t; np_invariant : NewStatePreserveInvariant }.

Module NewStatePreserveError.
Inductive t :=
  | WrongOperation
  | WrongPhase
  | CandidateCount (actual : nat)
  | CandidateMarkerLinks (actual : Z)
  | StagingCount (actual : nat)
  | TargetCount (actual : nat)
  | WrongTargetName
  | TargetPermissions
  | NotMoveLayout
  | NotStagedToPreserved (before after : NewStatePreserveLayout.t)
  | InvariantChanged.
End NewStatePreserveError.

Definition exact_wrapper (ws : list WrapperFingerprint) (predicate : WrapperFingerprint -> bool)
    (error : nat -> NewStatePreserveError.t) : result NewStatePreserveError.t WrapperFingerprint :=
  match List.filter predicate ws with
  | [w] => Ok w
  | l => Err (error (length l))
  end.

Definition is_role (r : TreeLocation.t) (w : WrapperFingerprint) : bool := bool_decide (role w = r).

Definition wrapper_is_bare (w : WrapperFingerprint) : bool :=
  bool_decide (entries w = []) && bool_decide (usr w = None) && bool_decide (slot w = None).

Definition wrapper_contains_only (w : WrapperFingerprint) (tree : UsrFingerprint) : bool :=
  bool_decide (slot w = None) && bool_decide (usr w = Some tree)
  && match entries w with
     | [(n, witness)] => bool_decide (n = bstr "usr") && bool_decide (witness = directory tree)
     | _ => false
     end.

(** [ProjectedNewStateCandidatePreserveNamespace::capture] *)
Definition project_preserve (s : NamespaceFingerprint) (record : TransitionRecord) :
    result NewStatePreserveError.t ProjectedNewStatePreserve :=
  reject NewStatePreserveError.WrongOperation when (negb (bool_decide (operation record = NewState)));;
  reject NewStatePreserveError.WrongPhase when (negb (bool_decide (phase record = Phase.CandidatePreserveIntent)));;
  tree ← match trees_for_token s (candidate_token record) with
         | [tree] => Ok tree
         | l => Err (NewStatePreserveError.CandidateCount (length l))
         end;
  reject (NewStatePreserveError.CandidateMarkerLinks (w_links (marker tree))) when (negb (w_links (marker tree) =? 1)%Z);;
  staging ← exact_wrapper (roots_entries s) (is_role TreeLocation.Staging) NewStatePreserveError.StagingCount;
  target ← exact_wrapper (quarantine_entries s) (is_role TreeLocation.TransitionQuarantine) NewStatePreserveError.TargetCount;
  reject NewStatePreserveError.WrongTargetName when
    (negb (bool_decide (name target = quarantine_text (quarantine_name record))));;
  reject NewStatePreserveError.TargetPermissions when (negb (has_exact_private_permissions target));;
  layout ←
    if bool_decide (location tree = TreeLocation.Staging) && wrapper_contains_only staging tree && wrapper_is_bare target
    then Ok NewStatePreserveLayout.StagedWithEmptyQuarantine
    else if bool_decide (location tree = TreeLocation.TransitionQuarantine) && wrapper_is_bare staging
            && wrapper_contains_only target tree
    then Ok NewStatePreserveLayout.Preserved
    else Err NewStatePreserveError.NotMoveLayout;
  Ok {| np_layout := layout;
        np_invariant :=
          {| np_root := root s; np_roots := roots s; np_quarantine := quarantine s; np_epoch := epoch s;
             np_live := live s; np_root_abi := root_abi s; np_isolation_abi := isolation_abi s;
             np_candidate := semantic_usr tree; np_staging_parent := mutable_parent (witness staging);
             np_target_parent := mutable_parent (witness target);
             np_other_root_wrappers := List.filter (fun w => negb (is_role TreeLocation.Staging w)) (roots_entries s);
             np_other_quarantine_wrappers :=
               List.filter (fun w => negb (is_role TreeLocation.TransitionQuarantine w)) (quarantine_entries s) |} |}.

Definition require_staged_to_preserved (self after : ProjectedNewStatePreserve) : result NewStatePreserveError.t unit :=
  reject (NewStatePreserveError.NotStagedToPreserved (np_layout self) (np_layout after)) when
    (negb (bool_decide (np_layout self = NewStatePreserveLayout.StagedWithEmptyQuarantine))
     || negb (bool_decide (np_layout after = NewStatePreserveLayout.Preserved)));;
  reject NewStatePreserveError.InvariantChanged when (negb (bool_decide (np_invariant self = np_invariant after))).

(** ** Preparing the quarantine *)

Record StableResidueIdentity := {
  sr_device : Z; sr_inode : Z; sr_kind : Z; sr_owner : Z; sr_group : Z; sr_links : Z; sr_length : Z;
  sr_seconds : Z; sr_nanoseconds : Z;
}.
#[global] Instance StableResidueIdentity_eq_dec : EqDecision StableResidueIdentity.
Proof. solve_decision. Defined.

(** [S_IFMT] is [0o170000]. *)
Definition inode_kind (w : InodeWitness) : Z := Z.land (w_mode w) 61440.

Definition stable_residue (w : InodeWitness) : StableResidueIdentity :=
  {| sr_device := w_device w; sr_inode := w_inode w; sr_kind := inode_kind w; sr_owner := w_owner w;
     sr_group := w_group w; sr_links := w_links w; sr_length := w_length w;
     sr_seconds := w_modified_seconds w; sr_nanoseconds := w_modified_nanoseconds w |}.

Record CommonNonTargetInvariant := {
  cn_root : InodeWitness;
  cn_roots : InodeWitness;
  cn_epoch : RuntimeEpoch;
  cn_live : UsrFingerprint;
  cn_root_abi : RootAbi;
  cn_isolation_abi : RootAbi;
  cn_root_wrappers : list WrapperFingerprint;
  cn_other_quarantine_wrappers : list WrapperFingerprint;
}.
#[global] Instance CommonNonTargetInvariant_eq_dec : EqDecision CommonNonTargetInvariant.
Proof. solve_decision. Defined.

Definition non_target_invariant (s : NamespaceFingerprint) : CommonNonTargetInvariant :=
  {| cn_root := root s; cn_roots := roots s; cn_epoch := epoch s; cn_live := live s; cn_root_abi := root_abi s;
     cn_isolation_abi := isolation_abi s; cn_root_wrappers := roots_entries s;
     cn_other_quarantine_wrappers :=
       List.filter (fun w => negb (is_role TreeLocation.TransitionQuarantine w)) (quarantine_entries s) |}.

Module TargetLayout.
Inductive t := Absent | RestrictiveResidue | EmptyPrivate.
#[global] Instance t_eq_dec : EqDecision t.
Proof. solve_decision. Defined.
End TargetLayout.

Module TargetError.
Inductive t :=
  | WrongOperation
  | WrongPhase
  | NotTargetLayout
  | NotAbsentToPrepared (before after : TargetLayout.t)
  | NotResidueToPrivate (before after : TargetLayout.t)
  | InvariantChanged.
End TargetError.

Definition require_new_state_candidate_preserve (record : TransitionRecord) : result TargetError.t unit :=
  reject TargetError.WrongOperation when (negb (bool_decide (operation record = NewState)));;
  reject TargetError.WrongPhase when (negb (bool_decide (phase record = Phase.CandidatePreserveIntent))).

(** The quarantine of the record, in both projections *)
Definition target_layout (s : NamespaceFingerprint) (record : TransitionRecord) : result TargetError.t (TargetLayout.t * option InodeWitness) :=
  let expected := quarantine_text (quarantine_name record) in
  match new_state_target_residue s, List.filter (is_role TreeLocation.TransitionQuarantine) (quarantine_entries s) with
  | None, [] => Ok (TargetLayout.Absent, None)
  | Some residue, [] =>
      if bool_decide (residue_name residue = expected) then Ok (TargetLayout.RestrictiveResidue, Some (residue_witness residue))
      else Err TargetError.NotTargetLayout
  | None, [target] =>
      if bool_decide (name target = expected) && has_exact_private_permissions target && wrapper_is_bare target
      then Ok (TargetLayout.EmptyPrivate, Some (witness target)) else Err TargetError.NotTargetLayout
  | _, _ => Err TargetError.NotTargetLayout
  end.

Record ProjectedTargetCreate := {
  tc_layout : TargetLayout.t;
  tc_quarantine : MutableParentIdentity;
  tc_invariant : CommonNonTargetInvariant;
}.

(** [ProjectedNewStateTargetCreateNamespace::capture]; the target name is the record's. *)
Definition project_target_create (s : NamespaceFingerprint) (record : TransitionRecord) : result TargetError.t ProjectedTargetCreate :=
  require_new_state_candidate_preserve record;;
  found ← target_layout s record;
  Ok {| tc_layout := found.1; tc_quarantine := mutable_parent (quarantine s); tc_invariant := non_target_invariant s |}.

Definition require_absent_to_prepared (self after : ProjectedTargetCreate) : result TargetError.t unit :=
  reject (TargetError.NotAbsentToPrepared (tc_layout self) (tc_layout after)) when
    (negb (bool_decide (tc_layout self = TargetLayout.Absent)) || bool_decide (tc_layout after = TargetLayout.Absent));;
  reject TargetError.InvariantChanged when
    (negb (bool_decide (tc_quarantine self = tc_quarantine after)) || negb (bool_decide (tc_invariant self = tc_invariant after))).

Record ProjectedTargetNormalize := {
  tn_layout : TargetLayout.t;
  tn_quarantine : InodeWitness;
  tn_target : StableResidueIdentity;
  tn_invariant : CommonNonTargetInvariant;
}.

(** [ProjectedNewStateTargetNormalizeNamespace::capture] *)
Definition project_target_normalize (s : NamespaceFingerprint) (record : TransitionRecord) :
    result TargetError.t ProjectedTargetNormalize :=
  require_new_state_candidate_preserve record;;
  found ← target_layout s record;
  target ← ok_or found.2 TargetError.NotTargetLayout;
  Ok {| tn_layout := found.1; tn_quarantine := quarantine s; tn_target := stable_residue target;
        tn_invariant := non_target_invariant s |}.

Definition require_residue_to_empty_private (self after : ProjectedTargetNormalize) : result TargetError.t unit :=
  reject (TargetError.NotResidueToPrivate (tn_layout self) (tn_layout after)) when
    (negb (bool_decide (tn_layout self = TargetLayout.RestrictiveResidue))
     || negb (bool_decide (tn_layout after = TargetLayout.EmptyPrivate)));;
  reject TargetError.InvariantChanged when
    (negb (bool_decide (tn_quarantine self = tn_quarantine after)) || negb (bool_decide (tn_target self = tn_target after))
     || negb (bool_decide (tn_invariant self = tn_invariant after))).

(** ** Topologies *)

Module Topology.
Inductive t :=
  | NewStateStaged
  | NewStateStagedWithTargetResidue
  | NewStateStagedWithEmptyQuarantine
  | NewStatePreserved
  | ArchivedStagedWithCanonicalSlot
  | ArchivedPreserved
  | ActiveReblitStaged (wrapper_index : Z)
  | ActiveReblitPreserved (wrapper_index : Z).
#[global] Instance t_eq_dec : EqDecision t.
Proof. solve_decision. Defined.

Definition is_preserved (self : t) : bool :=
  match self with
  | NewStatePreserved | ArchivedPreserved | ActiveReblitPreserved _ => true
  | _ => false
  end.
End Topology.

Module TopologyError.
Inductive t :=
  | Policy (e : NamespacePolicyConflict.t)
  | WrongPhase
  | UnexpectedParkingWrapper
  | UnexpectedCurrentStateWrapper (state : Z)
  | CandidateMissing
  | StagingMissing
  | CandidateStateMissing
  | PreviousStateMissing
  | CandidateWrapperMissing
  | ActiveReblitWrapperMissing
  | DuplicateWrapper
  | MarkerLinks (expected actual : Z)
  | TopologyMismatch.
End TopologyError.

Abbreviation topology_of := (result TopologyError.t Topology.t).

Definition one_wrapper (s : NamespaceFingerprint) (predicate : WrapperFingerprint -> bool) :
    result TopologyError.t (option WrapperFingerprint) :=
  match List.filter predicate (wrappers s) with
  | [] => Ok None
  | [w] => Ok (Some w)
  | _ => Err TopologyError.DuplicateWrapper
  end.

Definition wrapper_contains (w : WrapperFingerprint) (tree : UsrFingerprint) : bool := bool_decide (usr w = Some tree).

(** [wrapper_is_empty] of [candidate_preserve_proof.rs] *)
Definition wrapper_is_empty (w : WrapperFingerprint) : bool :=
  bool_decide (usr w = None) && bool_decide (slot_identity w = None).

(** The state a wrapper aliases outside its destination *)
Definition current_state_alias (record : TransitionRecord) (w : WrapperFingerprint) : option Z :=
  match role w with
  | TreeLocation.State state =>
      if bool_decide (prev_id (previous record) = Some state)
         || (bool_decide (cand_id (candidate record) = Some state) && negb (bool_decide (operation record = ActivateArchived)))
      then Some state else None
  | _ => None
  end.

Definition require_current_state_wrapper_scope (record : TransitionRecord) (s : NamespaceFingerprint) : result TopologyError.t unit :=
  match head (omap (current_state_alias record) (wrappers s)) with
  | Some state => Err (TopologyError.UnexpectedCurrentStateWrapper state)
  | None => Ok tt
  end.

Definition new_state_topology (candidate : UsrFingerprint) (staging : WrapperFingerprint)
    (transition : option WrapperFingerprint) (target_residue : bool) : topology_of :=
  reject (TopologyError.MarkerLinks 1 (w_links (marker candidate))) when (negb (w_links (marker candidate) =? 1)%Z);;
  if bool_decide (location candidate = TreeLocation.Staging) && wrapper_contains staging candidate
     && bool_decide (slot_identity staging = None) then
    match transition, target_residue with
    | None, false => Ok Topology.NewStateStaged
    | None, true => Ok Topology.NewStateStagedWithTargetResidue
    | Some w, false =>
        if wrapper_is_empty w && has_exact_private_permissions w then Ok Topology.NewStateStagedWithEmptyQuarantine
        else Err TopologyError.TopologyMismatch
    | Some _, true => Err TopologyError.TopologyMismatch
    end
  else if bool_decide (location candidate = TreeLocation.TransitionQuarantine) && wrapper_is_empty staging
          && negb target_residue
          && match transition with
             | Some w => wrapper_contains w candidate && bool_decide (slot_identity w = None) && has_exact_private_permissions w
             | None => false
             end
  then Ok Topology.NewStatePreserved
  else Err TopologyError.TopologyMismatch.

Definition archived_topology (record : TransitionRecord) (s : NamespaceFingerprint) (tree : UsrFingerprint)
    (staging : WrapperFingerprint) (transition : option WrapperFingerprint) : topology_of :=
  reject TopologyError.TopologyMismatch when (bool_decide (is_Some transition));;
  reject (TopologyError.MarkerLinks 2 (w_links (marker tree))) when (negb (w_links (marker tree) =? 2)%Z);;
  state ← ok_or (cand_id (candidate record)) TopologyError.CandidateStateMissing;
  found ← one_wrapper s (is_role (TreeLocation.State state));
  canonical ← ok_or found TopologyError.CandidateWrapperMissing;
  let exact_slot := bool_decide (slot_identity canonical = Some (state, candidate_token record)) in
  if bool_decide (location tree = TreeLocation.Staging) && wrapper_contains staging tree
     && bool_decide (slot_identity staging = None) && bool_decide (usr canonical = None) && exact_slot
  then Ok Topology.ArchivedStagedWithCanonicalSlot
  else if bool_decide (location tree = TreeLocation.State state) && wrapper_is_empty staging
          && wrapper_contains canonical tree && exact_slot
  then Ok Topology.ArchivedPreserved
  else Err TopologyError.TopologyMismatch.

Definition active_reblit_topology (record : TransitionRecord) (s : NamespaceFingerprint) (tree : UsrFingerprint)
    (staging : WrapperFingerprint) (transition : option WrapperFingerprint) : topology_of :=
  reject TopologyError.TopologyMismatch when (bool_decide (is_Some transition));;
  reject (TopologyError.MarkerLinks 1 (w_links (marker tree))) when (negb (w_links (marker tree) =? 1)%Z);;
  state ← ok_or (prev_id (previous record)) TopologyError.PreviousStateMissing;
  found ← one_wrapper s (fun w => match role w with
                                  | TreeLocation.ActiveReblitWrapper actual _ => bool_decide (actual = state)
                                  | _ => false
                                  end);
  replacement ← ok_or found TopologyError.ActiveReblitWrapperMissing;
  match role replacement with
  | TreeLocation.ActiveReblitWrapper _ index =>
      if bool_decide (location tree = TreeLocation.Staging) && wrapper_contains staging tree
         && bool_decide (slot_identity staging = None) && wrapper_is_empty replacement
         && has_exact_private_permissions replacement
      then Ok (Topology.ActiveReblitStaged index)
      else if bool_decide (location tree = TreeLocation.ActiveReblitWrapper state index) && wrapper_is_empty staging
              && has_exact_private_permissions staging && wrapper_contains replacement tree
              && bool_decide (slot_identity replacement = None)
      then Ok (Topology.ActiveReblitPreserved index)
      else Err TopologyError.TopologyMismatch
  | _ => Err TopologyError.TopologyMismatch  (* [unreachable!]: selected by its role *)
  end.

(** [candidate_preserve_topology_after_phase] *)
Definition topology (record : TransitionRecord) (s : NamespaceFingerprint) : topology_of :=
  map_err TopologyError.Policy (assess_snapshot_layout record s);;
  reject TopologyError.UnexpectedParkingWrapper when
    (negb (bool_decide (operation record = ActiveReblit)) && existsb is_parking (wrappers s));;
  require_current_state_wrapper_scope record s;;
  tree ← ok_or (List.find (fun t => bool_decide (token t = candidate_token record)) (trees s)) TopologyError.CandidateMissing;
  found ← one_wrapper s (is_role TreeLocation.Staging);
  staging ← ok_or found TopologyError.StagingMissing;
  transition ← one_wrapper s (is_role TreeLocation.TransitionQuarantine);
  let residue := bool_decide (is_Some (new_state_target_residue s)) in
  match operation record with
  | NewState => new_state_topology tree staging transition residue
  | ActivateArchived =>
      if residue then Err TopologyError.TopologyMismatch else archived_topology record s tree staging transition
  | ActiveReblit =>
      if residue then Err TopologyError.TopologyMismatch else active_reblit_topology record s tree staging transition
  end.

(** [candidate_preserve_topology] *)
Definition candidate_preserve_topology (record : TransitionRecord) (s : NamespaceFingerprint) : topology_of :=
  reject TopologyError.WrongPhase when (negb (bool_decide (phase record = Phase.CandidatePreserveIntent)));;
  topology record s.

(** ** What the policy accepts

    A tree is in at most one place, so that a snapshot matches at most one of the
    arrangements a record allows ([layout_unique]); the policy as the facts it establishes
    ([accepted], [assess_iff]). *)

(** ** Places *)

Definition place_of (l : TreeLocation.t) : CandidatePlace.t :=
  match l with
  | TreeLocation.Live => CandidatePlace.Live
  | TreeLocation.Staging => CandidatePlace.Staging
  | _ => CandidatePlace.Destination
  end.

Definition previous_place_of (l : option TreeLocation.t) : PreviousPlace.t :=
  match l with
  | None => PreviousPlace.Absent
  | Some TreeLocation.Live => PreviousPlace.Live
  | Some TreeLocation.Staging => PreviousPlace.Staging
  | Some (TreeLocation.State _) => PreviousPlace.Archived
  | Some TreeLocation.TransitionQuarantine => PreviousPlace.TransitionQuarantine
  | Some _ => PreviousPlace.ActiveReblitWrapper
  end.

Lemma destination_place r l : candidate_destination r l = true -> place_of l = CandidatePlace.Destination.
Proof.
  unfold candidate_destination. destruct l, (operation r); cbn; try done.
  all: case_bool_decide; cbn; try done; try (case_bool_decide; done).
  all: destruct (cand_id _); cbn; try done; case_bool_decide; done.
Qed.

Lemma candidate_place_unique r p l : candidate_place_matches r p l = true -> p = place_of l.
Proof.
  destruct p; cbn; intros Hm; try (apply bool_decide_eq_true in Hm; by subst).
  symmetry. by apply (destination_place r).
Qed.

Lemma previous_place_unique r p l : previous_place_matches r p l = true -> p = previous_place_of l.
Proof. destruct p, l as [[]|]; done. Qed.

(** Two arrangements cannot both match. *)
Lemma layout_unique r c p l : layout_matches r c p l = true ->
  l = {| candidate_place := place_of (location c); previous_place := previous_place_of (location <$> p) |}.
Proof.
  intros [Hc%candidate_place_unique Hp%previous_place_unique]%andb_true_iff. destruct l. cbn in *. by subst.
Qed.

(** ** Acceptance as facts *)

Record accepted (r : TransitionRecord) (s : NamespaceFingerprint) (l : LayoutAlternative) (c : UsrFingerprint)
    (p : option UsrFingerprint) : Prop := {
  acc_candidate : trees_for_token s (candidate_token r) = [c];
  acc_previous : trees_for_token s (previous_token r) = option_list p;
  acc_layout : exists alts, expected_layouts r = Ok alts /\ l ∈ alts;
  acc_matches : layout_matches r c p l = true;
  acc_wrappers : require_fixed_wrapper_layout r s l c = Ok tt;
  acc_state_ids : require_state_ids r c p = Ok tt;
  acc_runtime : require_runtime r s c p = Ok tt;
  acc_root_abi : root_abi_must_be_complete r = true -> is_complete (root_abi s) = true;
  acc_isolation_abi : isolation_abi_must_be_complete r = true -> is_complete (isolation_abi s) = true;
}.

Lemma ok_unit {E} (x : result E unit) u : x = Ok u -> x = Ok tt.
Proof. by destruct u. Qed.

Lemma must_be_complete a b : a && negb b = false <-> (a = true -> b = true).
Proof. destruct a, b; naive_solver. Qed.

Lemma assess_accepted r s l : assess_snapshot_layout r s = Ok l -> exists c p, accepted r s l c p.
Proof.
  unfold assess_snapshot_layout. intros Ha. inv_ok.
  match goal with H : List.find _ _ = Some _ |- _ => apply find_some in H as [Hin Hm] end.
  destruct (trees_for_token s (candidate_token r)) as [|c [|]] eqn:Hc; simplify_eq/=.
  match type of Hc with _ = [?c] => exists c, (head (trees_for_token s (previous_token r))) end. split; try done.
  - apply orb_false_iff in Hr0 as [Hn _]. by destruct (trees_for_token s (previous_token r)) as [|? [|]].
  - eexists. split; [done|]. by apply list_elem_of_In.
  - by apply must_be_complete.
  - by apply must_be_complete.
Qed.

Lemma accepted_assess r s l c p : accepted r s l c p -> assess_snapshot_layout r s = Ok l.
Proof.
  intros [Hc Hp (alts & Ha & Hin) Hm Hw Hi Hr Hroot Hiso]. unfold assess_snapshot_layout. rewrite Hc, Ha, Hp.
  cbn [length Nat.eqb negb reject_if mbind result_bind ok_or head].
  assert (existsb (fun l => bool_decide (previous_place l = PreviousPlace.Absent)) alts = true \/ is_Some p) as Hq.
  { destruct p; [eauto|]. left. apply existsb_exists. exists l. split; [by apply list_elem_of_In|].
    apply bool_decide_eq_true. apply layout_unique in Hm. by subst l. }
  replace (head (option_list p)) with p by (by destruct p).
  assert ((1 <? length (option_list p)) || bool_decide (option_list p = [])
    && negb (existsb (fun l => bool_decide (previous_place l = PreviousPlace.Absent)) alts) = false) as ->.
  { destruct p; cbn; [done|]. destruct Hq as [->|[? ?]]; done. }
  cbn [reject_if mbind result_bind]. destruct (List.find (layout_matches r c p) alts) as [l'|] eqn:Hf.
  2: { pose proof (find_none _ _ Hf l) as Hn. rewrite Hn in Hm; [done|by apply list_elem_of_In]. }
  apply find_some in Hf as [_ Hm']. apply layout_unique in Hm'. apply layout_unique in Hm as Hm2. rewrite <- Hm2 in Hm'. subst l'.
  cbn. rewrite Hw. cbn. rewrite Hi. cbn. rewrite Hr. cbn.
  rewrite (proj2 (must_be_complete _ _) Hroot), (proj2 (must_be_complete _ _) Hiso). done.
Qed.

Lemma assess_iff r s l : assess_snapshot_layout r s = Ok l <-> exists c p, accepted r s l c p.
Proof. split; [apply assess_accepted|]. intros (c & p & Ha). by eapply accepted_assess. Qed.
