(* ===== verification/StartupMachine.v ===== *)
(** * The machine startup recovers

    What the modules of [crates/forge/src/client/startup_reconciliation] and
    [crates/forge/src/client/startup_recovery] share.  Startup holds the journal, the
    state database and the activation namespace; it reads them, moves at most one thing
    and publishes at most one record per entry.

    The machine keeps the namespace a capture sees, and the earlier ones a crash may still
    leave: a movement adds to these, and they are gone once every directory it changed has
    been synchronised.  Every read may fail, every movement may happen or not happen
    whatever it reports, and a record may be durable although its publication failed. *)

From S2P Require Import Prelude ByteStrings Ordered SqlDb SqlTx JournalModel JournalValidation JournalMachine JournalSuccessors StateDb StateDbExact StartupEvidence Namespace NamespaceMoves.

(** ** Errors *)

Module DurableRecord.
Inductive t := Source | Successor.
End DurableRecord.

Module RecoveryError.
Inductive t :=
  | Installation
  | Journal
  | Capture
  | Sync
  | JournalRecordBindingMismatch
  | JournalChanged
  | EvidenceMismatch
  | Inspection (e : InspectionError.t)
  | ExactInspection (e : FreshInspectionError.t)
  | DatabaseIncompatible
  | DatabaseChanged
  | Policy (e : NamespacePolicyConflict.t)
  | Topology (e : TopologyError.t)
  | ReverseProjection (e : ReverseExchangeError.t)
  | PreserveProjection (e : NewStatePreserveError.t)
  | TargetProjection (e : TargetError.t)
  | NotExchangeLayout
  | PrematureTransitionQuarantine
  | NamespaceChanged
  | ProjectionChanged
  | LayoutChanged
  | UnexpectedDelta
  | PublicationFailed
  | SuccessorConstruction (e : CodecError.t)
  | UnexpectedSuccessor (phase : Phase.t)
  | Advance (durable : DurableRecord.t)
  | AdvanceAndReopen
  | SuccessorRecordBinding (durable : DurableRecord.t)
  | SuccessorRecordBindingAndReopen
  | ReopenAfterSuccessfulAdvance
  | NotApplied
  | Ambiguous
  | Unsupported
  | Delete
  | PostDelete
  | OrphanTransitionRow (state : Z) (transition : TransitionId)
  | CanonicalTransitionAppearedDuringCleanAdmission.
End RecoveryError.

(** ** The machine *)

(** The directories recovery synchronises *)
Module Directory.
Inductive t := InstallationRoot | Staging | QuarantineParent | TransitionTarget | CandidateTree.
#[global] Instance t_eq_dec : EqDecision t.
Proof. solve_decision. Defined.
End Directory.

Record machine := {
  m_journal : option TransitionRecord;
  m_database : tables;
  visible : NamespaceFingerprint;
  survivors : list NamespaceFingerprint;
  unsynced : list Directory.t;
}.

Definition with_journal (j : option TransitionRecord) (m : machine) : machine :=
  {| m_journal := j; m_database := m_database m; visible := visible m; survivors := survivors m; unsynced := unsynced m |}.
Definition with_database (t : tables) (m : machine) : machine :=
  {| m_journal := m_journal m; m_database := t; visible := visible m; survivors := survivors m; unsynced := unsynced m |}.

(** A movement that changed some directories *)
Definition moved (dirs : list Directory.t) (s : NamespaceFingerprint) (m : machine) : machine :=
  {| m_journal := m_journal m; m_database := m_database m; visible := s;
     survivors := visible m :: survivors m; unsynced := dirs ++ unsynced m |}.

(** A directory that was synchronised: when it was the last, nothing older survives. *)
Definition synced (d : Directory.t) (m : machine) : machine :=
  let rest := List.filter (fun d' => negb (bool_decide (d' = d))) (unsynced m) in
  {| m_journal := m_journal m; m_database := m_database m; visible := visible m;
     survivors := if bool_decide (rest = []) then [] else survivors m; unsynced := rest |}.

(** What is left after the machine stops: the journal, the database, and the namespace as
    it is or as it was before some movement that was not yet durable *)
Definition rebooted (s : NamespaceFingerprint) (m : machine) : machine :=
  {| m_journal := m_journal m; m_database := m_database m; visible := s; survivors := []; unsynced := [] |}.

Definition crashes (m m' : machine) : Prop := exists s, s ∈ visible m :: survivors m /\ m' = rebooted s m.

Abbreviation recovery := (tx machine RecoveryError.t).

(** ** Steps *)

(** A read, which may fail *)
Definition observe {A} (e : RecoveryError.t) (f : machine -> A) : recovery A := fun '(m, fs) =>
  match fs with
  | [] | Runs :: _ => (Ok (f m), (m, tail fs))
  | _ :: fs' => (Err e, (m, fs'))
  end.

(** A movement in the namespace: that it reports a failure says nothing about whether it
    happened. *)
Definition move_once (dirs : list Directory.t) (f : NamespaceFingerprint -> NamespaceFingerprint) : recovery bool := fun '(m, fs) =>
  match fs with
  | [] | Runs :: _ => (Ok true, (moved dirs (f (visible m)) m, tail fs))
  | Fails :: fs' => (Ok false, (m, fs'))
  | ReportsError :: fs' => (Ok false, (moved dirs (f (visible m)) m, fs'))
  end.

Definition write (e : RecoveryError.t) (f : machine -> machine) : recovery unit := fun '(m, fs) =>
  match fs with
  | [] | Runs :: _ => (Ok tt, (f m, tail fs))
  | Fails :: fs' => (Err e, (m, fs'))
  | ReportsError :: fs' => (Err e, (f m, fs'))
  end.

Definition sync (d : Directory.t) : recovery unit := write RecoveryError.Sync (synced d).

(** [Installation::revalidate_mutable_namespace] *)
Definition revalidate_mutable_namespace : recovery unit := observe RecoveryError.Installation (fun _ => tt).

Definition capture_snapshot : recovery NamespaceFingerprint := observe RecoveryError.Capture visible.

Definition load : recovery (option TransitionRecord) := observe RecoveryError.Journal m_journal.

Definition on_database {E A} (f : E -> RecoveryError.t) (m : tx tables E A) : recovery A := fun '(w, fs) =>
  let '(r, (t, fs')) := m (m_database w, fs) in (map_err f r, (with_database t w, fs')).

Definition require (b : bool) (e : RecoveryError.t) : recovery unit := lift (if b then Ok tt else Err e).

Definition require_exact_journal (e : RecoveryError.t) (r : TransitionRecord) : recovery unit :=
  found ← load; require (bool_decide (found = Some r)) e.

(** [record_binding], [has_record_binding]: the canonical record, at its inode *)
Definition require_journal_record_binding (r : TransitionRecord) : recovery unit :=
  require_exact_journal RecoveryError.JournalRecordBindingMismatch r.

(** The database as [PendingSystemTransition::inspect] reads it *)
Definition audit_in_flight : recovery (option InFlightTransition) :=
  on_database (fun e => RecoveryError.Inspection (InspectionError.Database e)) audit_in_flight_transition.

Definition inspect_with (r : TransitionRecord) (in_flight : option InFlightTransition) : recovery DatabaseEvidence.t :=
  on_database RecoveryError.Inspection (inspect_database r in_flight).

Definition inspect (r : TransitionRecord) : recovery DatabaseEvidence.t :=
  in_flight ← audit_in_flight; inspect_with r in_flight.

Definition database_is_compatible (r : TransitionRecord) (e : DatabaseEvidence.t) : bool :=
  database_ownership_evidence_compatible r e && metadata_provenance_evidence_compatible r e.

(** ** Publication

    [advance_record_binding] and [reopen_canonical_journal]. *)

Definition journal_advance (expected next : TransitionRecord) : recovery unit := fun '(m, fs) =>
  if bool_decide (m_journal m = Some expected) && is_ok (validate_advance expected next)
  then write RecoveryError.Journal (with_journal (Some next)) (m, fs)
  else (Err RecoveryError.Journal, (m, fs)).

Definition journal_delete (expected : TransitionRecord) : recovery unit := fun '(m, fs) =>
  if bool_decide (m_journal m = Some expected) && is_ok (validate expected) && deletable (phase expected)
  then write RecoveryError.Delete (with_journal None) (m, fs)
  else (Err RecoveryError.Delete, (m, fs)).

Definition reopen_canonical_journal : recovery (option TransitionRecord) :=
  revalidate_mutable_namespace;;
  revalidate_mutable_namespace;;
  found ← load;
  revalidate_mutable_namespace;;
  mret found.

Module AdvanceOutcome.
Inductive t := Published | StorageFailed | SuccessorBindingFailed.
End AdvanceOutcome.

Definition advance_outcome (source next : TransitionRecord) : recovery AdvanceOutcome.t :=
  advanced ← attempt (journal_advance source next);
  match advanced with
  | Err _ => mret AdvanceOutcome.StorageFailed
  | Ok _ =>
      exact ← attempt (require_journal_record_binding next);
      mret (if is_ok exact then AdvanceOutcome.Published else AdvanceOutcome.SuccessorBindingFailed)
  end.

(** Which record survived a publication that failed *)
Definition surviving (source next : TransitionRecord) (reopened : result RecoveryError.t (option TransitionRecord)) :
    option DurableRecord.t :=
  match reopened with
  | Ok (Some actual) =>
      if bool_decide (actual = source) then Some DurableRecord.Source
      else if bool_decide (actual = next) then Some DurableRecord.Successor else None
  | _ => None
  end.

Definition publish_and_reopen (source next : TransitionRecord) : recovery TransitionRecord :=
  outcome ← advance_outcome source next;
  reopened ← attempt reopen_canonical_journal;
  match outcome with
  | AdvanceOutcome.Published =>
      require (match reopened with Ok found => bool_decide (found = Some next) | Err _ => false end)
        RecoveryError.ReopenAfterSuccessfulAdvance;;
      exact ← attempt (revalidate_mutable_namespace;; require_journal_record_binding next;; revalidate_mutable_namespace);
      require (is_ok exact) (RecoveryError.SuccessorRecordBinding DurableRecord.Successor);;
      mret next
  | AdvanceOutcome.StorageFailed =>
      lift (Err match surviving source next reopened with
                | Some record => RecoveryError.Advance record
                | None => RecoveryError.AdvanceAndReopen
                end)
  | AdvanceOutcome.SuccessorBindingFailed =>
      lift (Err match surviving source next reopened with
                | Some record => RecoveryError.SuccessorRecordBinding record
                | None => RecoveryError.SuccessorRecordBindingAndReopen
                end)
  end.

(** ** Evidence and authority

    An authority retains the record, the database evidence and the snapshot it was
    granted for.  [read] and [exact] read the database and recognise its evidence,
    [assess] recognises the snapshot, [plan] the record; [proof_journal] is the journal
    check of the namespace proof, which the reverse proof leaves to its authority. *)

Record authority (D N : Type) := { a_database : D; a_snapshot : NamespaceFingerprint; a_namespace : N }.
Arguments a_database {D N}.
Arguments a_snapshot {D N}.
Arguments a_namespace {D N}.

Module Admission.
Inductive t (A : Type) := NotApplicable | Deferred | Ready (a : A).
Arguments NotApplicable {A}.
Arguments Deferred {A}.
Arguments Ready {A}.
End Admission.

Section authority.
Context {D N : Type} `{EqDecision D} `{EqDecision N}.
Context (r : TransitionRecord) (read : recovery D) (exact : D -> bool)
  (assess : NamespaceFingerprint -> result RecoveryError.t N) (plan : N -> bool) (proof_journal : recovery unit).

(** [begin] and [finish] of the namespace inspections; the proofs of a topology assess
    the first snapshot at once. *)
Definition inspection_begin (early : bool) : recovery NamespaceFingerprint :=
  proof_journal;;
  before ← capture_snapshot;
  (if early then lift (assess before);; mret tt else mret tt);;
  mret before.

Definition inspection_finish (before : NamespaceFingerprint) : recovery N :=
  after ← capture_snapshot;
  require (bool_decide (before = after)) RecoveryError.NamespaceChanged;;
  first ← lift (assess before);
  second ← lift (assess after);
  require (bool_decide (first = second)) RecoveryError.LayoutChanged;;
  proof_journal;;
  revalidate_mutable_namespace;;
  mret second.

Definition require_bound : recovery unit :=
  revalidate_mutable_namespace;; require_journal_record_binding r;; revalidate_mutable_namespace.

(** [capture] of the authorities that read the namespace first; [first] reads the
    database with the transition in flight that startup found when it was entered. *)
Definition capture_namespace_first (early : bool) (first : recovery D) : recovery (Admission.t (authority D N)) :=
  require_bound;;
  begun ← attempt (inspection_begin early);
  match begun with
  | Err _ => mret Admission.Deferred
  | Ok before =>
      database ← first;
      if negb (exact database) then mret Admission.Deferred
      else
        database_after ← read;
        if negb (exact database_after) || negb (bool_decide (database = database_after)) then mret Admission.Deferred
        else
          finished ← attempt (inspection_finish before);
          match finished with
          | Err _ => mret Admission.Deferred
          | Ok found =>
              if negb (plan found) then mret Admission.Deferred
              else
                require_bound;;
                mret (Admission.Ready {| a_database := database; a_snapshot := before; a_namespace := found |})
          end
  end.

(** [capture] of the authorities that read the database first *)
Definition capture_database_first : recovery (Admission.t (authority D N)) :=
  require_bound;;
  database ← read;
  if negb (exact database) then mret Admission.Deferred
  else
    begun ← attempt (inspection_begin true);
    match begun with
    | Err _ => mret Admission.Deferred
    | Ok before =>
        finished ← attempt (inspection_finish before);
        match finished with
        | Err _ => mret Admission.Deferred
        | Ok found =>
            database_after ← read;
            if negb (exact database_after) || negb (bool_decide (database = database_after)) || negb (plan found)
            then mret Admission.Deferred
            else
              require_bound;;
              mret (Admission.Ready {| a_database := database_after; a_snapshot := before; a_namespace := found |})
        end
    end.

Definition require_exact_database (expected : D) : recovery unit :=
  actual ← read;
  require (exact actual) RecoveryError.DatabaseIncompatible;;
  require (bool_decide (expected = actual)) RecoveryError.DatabaseChanged.

(** [revalidate] of a namespace proof *)
Definition revalidate_namespace (snapshot : NamespaceFingerprint) (found : N) : recovery unit :=
  revalidate_mutable_namespace;;
  proof_journal;;
  fresh ← capture_snapshot;
  require (bool_decide (snapshot = fresh)) RecoveryError.NamespaceChanged;;
  actual ← lift (assess fresh);
  require (bool_decide (actual = found)) RecoveryError.LayoutChanged;;
  proof_journal;;
  revalidate_mutable_namespace.

(** [revalidate] of an authority: database, namespace, database *)
Definition revalidate (a : authority D N) : recovery unit :=
  require_journal_record_binding r;;
  revalidate_mutable_namespace;;
  require_exact_database (a_database a);;
  revalidate_namespace (a_snapshot a) (a_namespace a);;
  require_exact_database (a_database a);;
  require (plan (a_namespace a)) RecoveryError.EvidenceMismatch;;
  require_journal_record_binding r;;
  revalidate_mutable_namespace.

(** [require_pre_namespace_evidence], [require_post_namespace_evidence] and
    [effect_evidence.rs]: everything but the namespace, around a movement *)
Definition surrounding_evidence (a : authority D N) : recovery unit :=
  require_journal_record_binding r;;
  revalidate_mutable_namespace;;
  require_exact_database (a_database a);;
  require (plan (a_namespace a)) RecoveryError.EvidenceMismatch;;
  revalidate_mutable_namespace;;
  require_journal_record_binding r;;
  revalidate_mutable_namespace.

(** The [persist_…_and_reopen] of a decision or a route *)
Definition persist_and_reopen (a : authority D N) (construct : codec TransitionRecord) (expected : Phase.t -> bool) :
    recovery TransitionRecord :=
  revalidate a;;
  next ← lift (map_err RecoveryError.SuccessorConstruction construct);
  require (expected (phase next)) (RecoveryError.UnexpectedSuccessor (phase next));;
  revalidate a;;
  publish_and_reopen r next.

(** ** Movements

    A movement is attempted once, between two readings of the surrounding evidence, and
    what it did is read off a fresh capture; then its directories are synchronised, and
    the outcome it leaves is published.  [proof] recognises the snapshot it leaves. *)

Context (proof : NamespaceFingerprint -> result RecoveryError.t unit).

Definition confirm (snapshot : NamespaceFingerprint) : recovery unit :=
  revalidate_mutable_namespace;;
  fresh ← capture_snapshot;
  require (bool_decide (snapshot = fresh)) RecoveryError.NamespaceChanged;;
  lift (proof fresh);;
  revalidate_mutable_namespace.

Fixpoint barriers (dirs : list Directory.t) (snapshot : NamespaceFingerprint) : recovery unit :=
  confirm snapshot;;
  match dirs with
  | [] => mret tt
  | d :: dirs => sync d;; barriers dirs snapshot
  end.

(** Evidence, a step in the namespace, evidence: the step's error comes first. *)
Definition surrounded {A} (a : authority D N) (step : recovery A) : recovery A :=
  require_journal_record_binding r;;
  surrounding_evidence a;;
  stepped ← attempt step;
  trailing ← attempt (surrounding_evidence a);
  result ← lift stepped;
  lift trailing;;
  mret result.

(** An attempt prepared in the namespace: evidence, preparation, evidence again,
    the attempt, evidence *)
Definition surrounded_attempt {A B} (a : authority D N) (prepare : recovery A) (step : A -> recovery B) : recovery B :=
  require_journal_record_binding r;;
  surrounding_evidence a;;
  prepared ← attempt prepare;
  match prepared with
  | Err e => attempt (surrounding_evidence a);; lift (Err e)
  | Ok x => surrounded a (step x)
  end.

(** [complete_…_durability] *)
Definition complete_durability (dirs : list Directory.t) (a : authority D N) (snapshot : NamespaceFingerprint) : recovery unit :=
  surrounded a (barriers dirs snapshot).

Definition revalidate_durable (a : authority D N) (snapshot : NamespaceFingerprint) : recovery unit :=
  surrounded a (confirm snapshot).

(** The [persist_…_and_reopen] of a movement *)
Definition persist_outcome_and_reopen (a : authority D N) (snapshot : NamespaceFingerprint)
    (outcome : RollbackActionOutcome.t) (expected : Phase.t) : recovery TransitionRecord :=
  revalidate_durable a snapshot;;
  revalidate_durable a snapshot;;
  next ← lift (map_err RecoveryError.SuccessorConstruction (rollback_successor (Some outcome) r));
  require (bool_decide (phase next = expected)) (RecoveryError.UnexpectedSuccessor (phase next));;
  publish_and_reopen r next.
End authority.

(** What a fresh capture says about one attempt *)
Module Reconciliation.
Inductive t := Applied (snapshot : NamespaceFingerprint) | NotApplied | Ambiguous.
End Reconciliation.

(** [classify_fresh_namespace] of the movements, and [reconcile] of the preparations:
    [admits] is what the projections before and after must satisfy. *)
Definition classify (baseline : NamespaceFingerprint) (admits : NamespaceFingerprint -> bool)
    (fresh : result RecoveryError.t NamespaceFingerprint) : Reconciliation.t :=
  match fresh with
  | Err _ => Reconciliation.Ambiguous
  | Ok fresh =>
      if bool_decide (fresh = baseline) then Reconciliation.NotApplied
      else if admits fresh then Reconciliation.Applied fresh else Reconciliation.Ambiguous
  end.

Definition attempt_once (dirs : list Directory.t) (move : NamespaceFingerprint -> NamespaceFingerprint)
    (baseline : NamespaceFingerprint) (admits : NamespaceFingerprint -> bool) : recovery Reconciliation.t :=
  move_once dirs move;;
  fresh ← attempt capture_snapshot;
  mret (classify baseline admits fresh).
