(* ===== verification/StartupPlans.v ===== *)
(** * The checkpoints of a rollback

    Which records each step of recovery takes: the predicates on records and on database
    evidence of the authorities in [crates/forge/src/client/startup_reconciliation], and
    the snapshots their namespace proofs recognise. *)

From S2P Require Import Prelude ByteStrings Ordered SqlDb SqlTx JournalModel JournalValidation JournalMachine JournalSuccessors StateDb StateDbExact StartupEvidence Namespace NamespaceMoves StartupMachine.

(** ** Sources *)

(** The phases around the exchange of [/usr], which every operation may roll back from *)
Definition is_exchange_source (source : ForwardPhase.t) : bool :=
  match source with
  | ForwardPhase.UsrExchangeIntent | ForwardPhase.UsrExchanged | ForwardPhase.RootLinksComplete => true
  | _ => false
  end.

Definition rollback_decision_source_is_supported (record : TransitionRecord) : bool :=
  match phase record with
  | Phase.UsrExchangeIntent | Phase.UsrExchanged | Phase.RootLinksComplete => true
  | _ => false
  end
  || match operation record, phase record with
     | NewState, Phase.SystemTriggersStarted => (generation record =? 11)%Z
     | NewState, Phase.SystemTriggersComplete => (generation record =? 12)%Z
     | NewState, Phase.PreviousArchived => (generation record =? 14)%Z
     | ActiveReblit, Phase.SystemTriggersStarted => (generation record =? 9)%Z
     | ActiveReblit, Phase.SystemTriggersComplete => (generation record =? 10)%Z
     | ActiveReblit, Phase.BootSyncStarted => true
     | _, _ => false
     end.

Definition is_usr_exchange_rollback_source (record : TransitionRecord) : bool :=
  match rollback record with
  | None => false
  | Some plan =>
      is_exchange_source (rp_source plan)
      || match operation record, phase record, rp_source plan with
         | NewState, Phase.RollbackDecided, ForwardPhase.SystemTriggersStarted => (generation record =? 12)%Z
         | NewState, Phase.RollbackDecided, ForwardPhase.SystemTriggersComplete => (generation record =? 13)%Z
         | NewState, Phase.RollbackDecided, ForwardPhase.PreviousArchived => (generation record =? 15)%Z
         | NewState, Phase.UsrRestored, ForwardPhase.SystemTriggersStarted => (generation record =? 14)%Z
         | NewState, Phase.UsrRestored, ForwardPhase.SystemTriggersComplete => (generation record =? 15)%Z
         | ActiveReblit, Phase.RollbackDecided, ForwardPhase.SystemTriggersStarted => (generation record =? 10)%Z
         | ActiveReblit, Phase.RollbackDecided, ForwardPhase.SystemTriggersComplete => (generation record =? 11)%Z
         | ActiveReblit, Phase.UsrRestored, ForwardPhase.SystemTriggersStarted => (generation record =? 12)%Z
         | ActiveReblit, Phase.UsrRestored, ForwardPhase.SystemTriggersComplete => (generation record =? 13)%Z
         | ActiveReblit, _, ForwardPhase.BootSyncStarted => true
         | _, _, _ => false
         end
  end.

(** ** Plans *)

Definition boot_source (record : TransitionRecord) (plan : RollbackPlan) : bool :=
  bool_decide (operation record = ActiveReblit) && bool_decide (rp_source plan = ForwardPhase.BootSyncStarted).

Definition boot_is_exact (record : TransitionRecord) (plan : RollbackPlan) : bool :=
  bool_decide (rp_boot plan = if boot_source record plan then BootRollback.PendingUnverifiable else BootRollback.NotRequired).

(** The fresh row, the disposition of the candidate and the effects outside, by operation *)
Definition pending_plan_is_exact (record : TransitionRecord) (plan : RollbackPlan) : bool :=
  bool_decide (rp_fresh_db plan = match operation record with
                                  | NewState => RollbackAction.Pending
                                  | _ => RollbackAction.NotRequired
                                  end)
  && bool_decide (cr_disposition (rp_candidate plan) = match operation record with
                                                       | ActivateArchived => AbortDisposition.Rearchive
                                                       | _ => AbortDisposition.Quarantine
                                                       end)
  && Bool.eqb (rp_external_effects_may_remain plan) (negb (bool_decide (operation record = ActivateArchived))).

Definition is_settled (a : RollbackAction.t) : bool :=
  match a with RollbackAction.Applied | RollbackAction.AlreadySatisfied => true | _ => false end.

Definition route_evidence_is_exact (record : TransitionRecord) (layout : UsrExchangeLayout.t) : bool :=
  match rollback record with
  | None => false
  | Some plan =>
      (bool_decide (rp_previous_archive plan = RollbackAction.NotRequired)
       || bool_decide (operation record = NewState) && bool_decide (rp_previous_archive plan = RollbackAction.Pending))
      && bool_decide (cr_action (rp_candidate plan) = RollbackAction.Pending)
      && boot_is_exact record plan
      && pending_plan_is_exact record plan
      && match phase record, rp_usr_exchange plan, layout with
         | Phase.RollbackDecided, RollbackAction.Pending, UsrExchangeLayout.Post
         | Phase.RollbackDecided, RollbackAction.AlreadySatisfied, UsrExchangeLayout.Pre
         | Phase.UsrRestored, RollbackAction.Applied, UsrExchangeLayout.Pre
         | Phase.UsrRestored, RollbackAction.AlreadySatisfied, UsrExchangeLayout.Pre => true
         | _, _, _ => false
         end
  end.

Definition reverse_plan_is_exact (record : TransitionRecord) : bool :=
  match rollback record with
  | None => false
  | Some plan =>
      bool_decide (phase record = Phase.ReverseExchangeIntent)
      && (is_exchange_source (rp_source plan)
          || match operation record, rp_source plan with
             | NewState, ForwardPhase.SystemTriggersStarted => (generation record =? 13)%Z
             | NewState, ForwardPhase.SystemTriggersComplete => (generation record =? 14)%Z
             | ActiveReblit, ForwardPhase.SystemTriggersStarted => (generation record =? 11)%Z
             | ActiveReblit, ForwardPhase.SystemTriggersComplete => (generation record =? 12)%Z
             | _, _ => false
             end
          || boot_source record plan)
      && bool_decide (rp_previous_archive plan = RollbackAction.NotRequired)
      && bool_decide (rp_usr_exchange plan = RollbackAction.Pending)
      && bool_decide (cr_action (rp_candidate plan) = RollbackAction.Pending)
      && boot_is_exact record plan
      && pending_plan_is_exact record plan
  end.

Definition system_trigger_candidate_preserve_source_is_exact (record : TransitionRecord) : bool :=
  match rollback record with
  | None => false
  | Some plan =>
      match operation record, phase record, rp_source plan with
      | NewState, Phase.CandidatePreserveIntent, ForwardPhase.SystemTriggersStarted => (generation record =? 15)%Z
      | NewState, Phase.CandidatePreserveIntent, ForwardPhase.SystemTriggersComplete => (generation record =? 16)%Z
      | ActiveReblit, Phase.CandidatePreserveIntent, ForwardPhase.SystemTriggersStarted => (generation record =? 13)%Z
      | ActiveReblit, Phase.CandidatePreserveIntent, ForwardPhase.SystemTriggersComplete => (generation record =? 14)%Z
      | _, _, _ => false
      end
  end.

Definition candidate_preserve_source_is_exact (record : TransitionRecord) (plan : RollbackPlan) : bool :=
  is_exchange_source (rp_source plan) || system_trigger_candidate_preserve_source_is_exact record || boot_source record plan.

Definition candidate_preserve_plan_is_exact (record : TransitionRecord) : bool :=
  match rollback record with
  | None => false
  | Some plan =>
      bool_decide (phase record = Phase.CandidatePreserveIntent)
      && candidate_preserve_source_is_exact record plan
      && bool_decide (rp_previous_archive plan = RollbackAction.NotRequired)
      && is_settled (rp_usr_exchange plan)
      && bool_decide (cr_action (rp_candidate plan) = RollbackAction.Pending)
      && boot_is_exact record plan
      && pending_plan_is_exact record plan
  end.

(** The plan of a new state whose candidate is preserved *)
Definition preserved_plan_is_exact (plan : RollbackPlan) : bool :=
  bool_decide (rp_previous_archive plan = RollbackAction.NotRequired)
  && is_settled (rp_usr_exchange plan)
  && is_settled (cr_action (rp_candidate plan))
  && bool_decide (cr_disposition (rp_candidate plan) = AbortDisposition.Quarantine)
  && bool_decide (rp_boot plan = BootRollback.NotRequired)
  && rp_external_effects_may_remain plan.

Definition system_trigger_candidate_preserved_source_is_exact (record : TransitionRecord) : bool :=
  match rollback record with
  | None => false
  | Some plan =>
      match operation record, phase record, rp_source plan with
      | NewState, Phase.CandidatePreserved, ForwardPhase.SystemTriggersStarted => (generation record =? 16)%Z
      | NewState, Phase.CandidatePreserved, ForwardPhase.SystemTriggersComplete => (generation record =? 17)%Z
      | _, _, _ => false
      end
  end.

(** [route_plan_is_exact] of the fresh-database route *)
Definition fresh_db_route_plan_is_exact (record : TransitionRecord) : bool :=
  match rollback record with
  | None => false
  | Some plan =>
      bool_decide (operation record = NewState)
      && bool_decide (phase record = Phase.CandidatePreserved)
      && (is_exchange_source (rp_source plan) || system_trigger_candidate_preserved_source_is_exact record)
      && preserved_plan_is_exact plan
      && bool_decide (rp_fresh_db plan = RollbackAction.Pending)
  end.

Definition fresh_db_invalidation_plan_is_exact (record : TransitionRecord) : bool :=
  match rollback record with
  | None => false
  | Some plan =>
      bool_decide (operation record = NewState)
      && bool_decide (phase record = Phase.FreshDbInvalidationIntent)
      && bool_decide (is_Some (cand_id (candidate record)))
      && (is_exchange_source (rp_source plan)
          || match rp_source plan with
             | ForwardPhase.SystemTriggersStarted => (generation record =? 17)%Z
             | ForwardPhase.SystemTriggersComplete => (generation record =? 18)%Z
             | _ => false
             end)
      && preserved_plan_is_exact plan
      && bool_decide (rp_fresh_db plan = RollbackAction.Pending)
  end.

Definition rollback_complete_route_plan_is_exact (record : TransitionRecord) : bool :=
  match rollback record with
  | None => false
  | Some plan =>
      bool_decide (operation record = NewState)
      && bool_decide (phase record = Phase.FreshDbInvalidated)
      && bool_decide (is_Some (cand_id (candidate record)))
      && (is_exchange_source (rp_source plan)
          || match rp_source plan with
             | ForwardPhase.SystemTriggersStarted => (generation record =? 18)%Z
             | ForwardPhase.SystemTriggersComplete => (generation record =? 19)%Z
             | _ => false
             end)
      && preserved_plan_is_exact plan
      && is_settled (rp_fresh_db plan)
  end.

Definition rollback_finalization_plan_is_exact (record : TransitionRecord) : bool :=
  match rollback record with
  | None => false
  | Some plan =>
      bool_decide (operation record = NewState)
      && bool_decide (phase record = Phase.RollbackComplete)
      && bool_decide (is_Some (cand_id (candidate record)))
      && match rp_source plan with
         | ForwardPhase.UsrExchangeIntent | ForwardPhase.UsrExchanged => true
         | ForwardPhase.RootLinksComplete => (generation record =? 18)%Z
         | ForwardPhase.SystemTriggersStarted => (generation record =? 19)%Z
         | ForwardPhase.SystemTriggersComplete => (generation record =? 20)%Z
         | _ => false
         end
      && preserved_plan_is_exact plan
      && is_settled (rp_fresh_db plan)
  end.

(** ** Decisions *)

(** What the layout says about the exchange: nothing when it contradicts the phase
    ([None]), or that the parents must be made durable first ([Some None]) *)
Definition usr_exchange_observation (phase : Phase.t) (layout : UsrExchangeLayout.t) :
    option (option InitialRollbackAction.t) :=
  match phase, layout with
  | Phase.UsrExchangeIntent, UsrExchangeLayout.Pre => Some (Some InitialRollbackAction.AlreadySatisfied)
  | Phase.UsrExchangeIntent, UsrExchangeLayout.Post => Some None
  | _, UsrExchangeLayout.Post => Some (Some InitialRollbackAction.Pending)
  | _, UsrExchangeLayout.Pre => None
  end.

Definition previous_archive_observation (phase : Phase.t) : option InitialRollbackAction.t :=
  if bool_decide (phase = Phase.PreviousArchived) then Some InitialRollbackAction.Pending else None.

Definition rollback_observations (op : Operation) (usr_exchange : InitialRollbackAction.t)
    (previous_archive : option InitialRollbackAction.t) : RollbackObservations :=
  {| obs_allocated_candidate_id := None;
     obs_previous_archive := previous_archive;
     obs_usr_exchange := Some usr_exchange;
     obs_candidate := InitialRollbackAction.Pending;
     obs_fresh_db := if bool_decide (op = NewState) then Some InitialRollbackAction.Pending else None |}.

(** ** Database evidence *)

Definition candidate_matches (evidence : DatabaseEvidence.t) : bool :=
  match evidence with
  | DatabaseEvidence.CandidateOwnership _ ownership (Some _) _ => bool_decide (ownership = Matching)
  | _ => false
  end.

(** [database_is_exact] of the fresh-database route *)
Definition fresh_db_route_database_is_exact (record : TransitionRecord) (evidence : DatabaseEvidence.t) : bool :=
  candidate_matches evidence && database_is_compatible record evidence.

(** The startup context paired with the exact observation of the fresh transition *)
Abbreviation fresh_evidence := (DatabaseEvidence.t * ExactFreshTransitionObservation.t)%type.

Definition database_pair_is_exact (record : TransitionRecord) (evidence : fresh_evidence) : bool :=
  database_is_compatible record evidence.1
  && match cand_id (candidate record), evidence with
     | Some id, (DatabaseEvidence.CandidateOwnership state ownership (Some provenance) _,
                 ExactFreshTransitionObservation.Present preimage) =>
         bool_decide (state = id) && bool_decide (ownership = Matching)
         && bool_decide (provenance = pre_metadata_provenance preimage)
         && bool_decide (state_id (pre_state preimage) = id)
         && bool_decide (pre_transition_id preimage = transition_id record)
     | Some id, (DatabaseEvidence.CandidateOwnership state ownership None _,
                 ExactFreshTransitionObservation.JointlyAbsent absence) =>
         bool_decide (state = id) && bool_decide (ownership = Missing)
         && bool_decide (abs_state_id absence = id) && bool_decide (abs_transition_id absence = transition_id record)
     | _, _ => false
     end.

Definition is_absent (evidence : fresh_evidence) : bool :=
  match evidence.2 with
  | ExactFreshTransitionObservation.JointlyAbsent _ => true
  | ExactFreshTransitionObservation.Present _ => false
  end.

(** [database_pair_is_exact] of the completion route and of the finalization *)
Definition absent_pair_is_exact (record : TransitionRecord) (evidence : fresh_evidence) : bool :=
  is_absent evidence && database_pair_is_exact record evidence.

(** ** Snapshots *)

Definition exchange_layout (record : TransitionRecord) (s : NamespaceFingerprint) : result RecoveryError.t UsrExchangeLayout.t :=
  layout ← map_err RecoveryError.Policy (assess_snapshot_layout record s);
  ok_or (rollback_usr_exchange_layout layout) RecoveryError.NotExchangeLayout.

(** [exchange_layout] of [resume_route_proof.rs] *)
Definition route_layout (record : TransitionRecord) (s : NamespaceFingerprint) : result RecoveryError.t UsrExchangeLayout.t :=
  if bool_decide (phase record = Phase.UsrRestored) && existsb (is_role TreeLocation.TransitionQuarantine) (wrappers s)
  then Err RecoveryError.PrematureTransitionQuarantine
  else exchange_layout record s.

(** The layout and the projection of [rollback_reverse_proof.rs] *)
Definition reverse_evidence (record : TransitionRecord) (s : NamespaceFingerprint) :
    result RecoveryError.t (UsrExchangeLayout.t * ProjectedReverseNamespace) :=
  layout ← map_err RecoveryError.Policy (assess_snapshot_layout record s);
  exchange ← ok_or (usr_exchange_layout layout) RecoveryError.NotExchangeLayout;
  projection ← map_err RecoveryError.ReverseProjection (project_reverse s record);
  Ok (exchange, projection).

Definition preserve_evidence (record : TransitionRecord) (s : NamespaceFingerprint) : result RecoveryError.t Topology.t :=
  map_err RecoveryError.Topology (candidate_preserve_topology record s).

(** [require_exact_new_state_…_topology]: the preserved candidate of a new state at one
    checkpoint *)
Definition require_preserved_at (at_phase : Phase.t) (record : TransitionRecord) (s : NamespaceFingerprint) :
    result RecoveryError.t unit :=
  if negb (bool_decide (phase record = at_phase)) || negb (bool_decide (operation record = NewState))
  then Err (RecoveryError.Topology TopologyError.WrongPhase)
  else
    found ← map_err RecoveryError.Topology (topology record s);
    if bool_decide (found = Topology.NewStatePreserved) then Ok tt
    else Err (RecoveryError.Topology TopologyError.TopologyMismatch).

(** [require_usr_exchanged_post] *)
Definition require_usr_exchanged_post (record : TransitionRecord) (s : NamespaceFingerprint) : result RecoveryError.t unit :=
  if negb (bool_decide (phase record = Phase.UsrExchanged)) || bool_decide (is_Some (rollback record))
  then Err RecoveryError.EvidenceMismatch
  else
    layout ← map_err RecoveryError.Policy (assess_snapshot_layout record s);
    exchange ← ok_or (usr_exchange_layout layout) RecoveryError.EvidenceMismatch;
    if bool_decide (exchange = UsrExchangeLayout.Post) then Ok tt else Err RecoveryError.LayoutChanged.

(** *** What a movement must leave *)

Definition is_pre (record : TransitionRecord) (s : NamespaceFingerprint) : result RecoveryError.t unit :=
  p ← map_err RecoveryError.ReverseProjection (project_reverse s record);
  if bool_decide (rx_layout p = UsrExchangeLayout.Pre) then Ok tt else Err RecoveryError.ProjectionChanged.

Definition is_preserve (record : TransitionRecord) (layout : NewStatePreserveLayout.t) (s : NamespaceFingerprint) :
    result RecoveryError.t unit :=
  p ← map_err RecoveryError.PreserveProjection (project_preserve s record);
  if bool_decide (np_layout p = layout) then Ok tt else Err RecoveryError.ProjectionChanged.

Definition is_target (record : TransitionRecord) (layout : TargetLayout.t) (s : NamespaceFingerprint) :
    result RecoveryError.t unit :=
  p ← map_err RecoveryError.TargetProjection (project_target_create s record);
  if bool_decide (tc_layout p = layout) then Ok tt else Err RecoveryError.ProjectionChanged.

Definition admits_reverse (record : TransitionRecord) (before after : NamespaceFingerprint) : bool :=
  match project_reverse before record, project_reverse after record with
  | Ok b, Ok a => is_ok (require_post_to_pre b a)
  | _, _ => false
  end.

Definition admits_creation (record : TransitionRecord) (before after : NamespaceFingerprint) : bool :=
  match project_target_create before record, project_target_create after record with
  | Ok b, Ok a => is_ok (require_absent_to_prepared b a)
  | _, _ => false
  end.

Definition admits_normalization (record : TransitionRecord) (before after : NamespaceFingerprint) : bool :=
  match project_target_normalize before record, project_target_normalize after record with
  | Ok b, Ok a => is_ok (require_residue_to_empty_private b a)
  | _, _ => false
  end.

Definition admits_preservation (record : TransitionRecord) (before after : NamespaceFingerprint) : bool :=
  match project_preserve before record, project_preserve after record with
  | Ok b, Ok a => is_ok (require_staged_to_preserved b a)
  | _, _ => false
  end.
