(* ===== verification/StartupHandlers.v ===== *)
(** * Recovering a new state at startup

    [CleanSystemStartup::enter] ([crates/forge/src/client/startup_gate.rs]) for the record
    of a new state: normalising the links of the root, deciding to roll back, routing,
    exchanging [/usr] back, preserving the candidate in quarantine, invalidating its row,
    and removing the record.  An entry handles at most one checkpoint.

    The dispatchers that take only active reblits or activations of archived states, which
    leave a record of a new state untouched, are left out, and so are these operations.
    The file system is a parameter: the five movements, each a function of what a capture
    sees. *)

From S2P Require Import Prelude ByteStrings Ordered SqlDb SqlTx JournalModel JournalValidation JournalMachine JournalSuccessors StateDb StateDbExact StartupEvidence Namespace NamespaceMoves StartupMachine StartupPlans.

(** [renameat2(RENAME_EXCHANGE)] of the two [usr], [mkdirat] and [chmod] of the quarantine,
    [renameat2(RENAME_NOREPLACE)] of the candidate, and [symlinkat] of the links *)
Class FileSystem := {
  exchange_usr : NamespaceFingerprint -> NamespaceFingerprint;
  make_target : bytes -> NamespaceFingerprint -> NamespaceFingerprint;
  normalize_target : NamespaceFingerprint -> NamespaceFingerprint;
  move_candidate : bytes -> NamespaceFingerprint -> NamespaceFingerprint;
  link_root : nat -> NamespaceFingerprint -> NamespaceFingerprint;
}.

(** How an entry ends *)
Module Entry.
Inductive t :=
  | Clean
  | RecoveryPending (record : TransitionRecord)
  | OtherOperation (record : TransitionRecord).
End Entry.

Section handlers.
Context `{Sqlite} `{Chrono} `{FileSystem}.
(** the database instance *)
Context (self : nat).

Abbreviation binding := (fun r => require_journal_record_binding r).

(** ** Links of the root *)

Definition root_abi_revalidate_source (r : TransitionRecord) (source : NamespaceFingerprint) : recovery unit :=
  require_exact_journal RecoveryError.JournalChanged r;;
  revalidate_mutable_namespace;;
  fresh ← capture_snapshot;
  require (bool_decide (source = fresh)) RecoveryError.NamespaceChanged;;
  lift (require_usr_exchanged_post r fresh);;
  require_exact_journal RecoveryError.JournalChanged r;;
  revalidate_mutable_namespace.

Definition current_database (r : TransitionRecord) (expected : DatabaseEvidence.t) : recovery unit :=
  require_exact_database (inspect r) (database_is_compatible r) expected.

Definition revalidate_database_and_binding (r : TransitionRecord) (database : DatabaseEvidence.t) : recovery unit :=
  binding r;;
  revalidate_mutable_namespace;;
  current_database r database;;
  current_database r database;;
  revalidate_mutable_namespace;;
  binding r.

(** [RetainedUsrExchangedRootAbiAuthority::revalidate] *)
Definition root_abi_revalidate (r : TransitionRecord) (a : authority DatabaseEvidence.t unit) : recovery unit :=
  binding r;;
  revalidate_mutable_namespace;;
  current_database r (a_database a);;
  root_abi_revalidate_source r (a_snapshot a);;
  current_database r (a_database a);;
  revalidate_mutable_namespace;;
  binding r.

Definition root_abi_inspection (r : TransitionRecord) : recovery NamespaceFingerprint :=
  let post := require_usr_exchanged_post r in
  let journal := require_exact_journal RecoveryError.JournalChanged r in
  before ← inspection_begin post journal true;
  inspection_finish post journal before;;
  mret before.

Definition root_abi_capture (r : TransitionRecord) (in_flight : option InFlightTransition) :
    recovery (Admission.t (authority DatabaseEvidence.t unit)) :=
  if negb (bool_decide (phase r = Phase.UsrExchanged)) || bool_decide (is_Some (rollback r)) then mret Admission.NotApplicable
  else
    binding r;;
    revalidate_mutable_namespace;;
    database ← inspect_with r in_flight;
    if negb (database_is_compatible r database) then mret Admission.Deferred
    else
      inspected ← attempt (root_abi_inspection r);
      match inspected with
      | Err _ => mret Admission.Deferred
      | Ok before =>
          database_after ← inspect r;
          require (database_is_compatible r database_after) RecoveryError.DatabaseIncompatible;;
          if negb (bool_decide (database = database_after)) then mret Admission.Deferred
          else
            revalidate_mutable_namespace;;
            binding r;;
            mret (Admission.Ready {| a_database := database; a_snapshot := before; a_namespace := tt |})
      end.

Definition absent_links (abi : RootAbi) : list nat :=
  List.filter (fun i => bool_decide (abi !! i = Some None)) (seq 0 (length abi)).

(** [create_root_links_retained]: the absent links in order, then the directory *)
Definition create_root_links_retained : recovery unit :=
  pinned ← capture_snapshot;
  for_each (fun i => created ← move_once [Directory.InstallationRoot] (link_root i);
                     require created RecoveryError.PublicationFailed) (absent_links (root_abi pinned));;
  sync Directory.InstallationRoot.

Definition reconcile_after_publication (r : TransitionRecord) (before : NamespaceFingerprint) : recovery NamespaceFingerprint :=
  completed ← capture_snapshot;
  lift (require_usr_exchanged_post r completed);;
  require (admits_only_root_abi_growth before completed) RecoveryError.UnexpectedDelta;;
  require_exact_journal RecoveryError.JournalChanged r;;
  revalidate_mutable_namespace;;
  mret completed.

(** [revalidate_final] *)
Definition root_abi_final (r : TransitionRecord) (completed : NamespaceFingerprint) : recovery unit :=
  root_abi_revalidate_source r completed.

Definition normalize_usr_exchanged_root_abi (r : TransitionRecord) (a : authority DatabaseEvidence.t unit) : recovery unit :=
  root_abi_revalidate r a;;
  root_abi_revalidate_source r (a_snapshot a);;
  root_abi_revalidate_source r (a_snapshot a);;
  revalidate_database_and_binding r (a_database a);;
  publication ← attempt create_root_links_retained;
  reconciliation ← attempt (reconcile_after_publication r (a_snapshot a));
  completed ← lift (match publication with Ok _ => reconciliation | Err e => Err e end);
  require (is_complete (root_abi completed)) RecoveryError.PublicationFailed;;
  revalidate_database_and_binding r (a_database a);;
  root_abi_final r completed.

Definition synchronize_usr_exchanged_root_abi (r : TransitionRecord) (a : authority DatabaseEvidence.t unit) : recovery unit :=
  root_abi_revalidate r a;;
  root_abi_revalidate_source r (a_snapshot a);;
  root_abi_revalidate_source r (a_snapshot a);;
  revalidate_database_and_binding r (a_database a);;
  synced ← attempt (sync Directory.InstallationRoot);
  reconciliation ← attempt (root_abi_revalidate_source r (a_snapshot a));
  lift synced;;
  lift reconciliation;;
  revalidate_database_and_binding r (a_database a);;
  root_abi_final r (a_snapshot a).

(** Whether the entry goes on to the decision, and with which transition in flight *)
Definition root_abi_step (r : TransitionRecord) (in_flight : option InFlightTransition) :
    recovery (option (option InFlightTransition)) :=
  admission ← root_abi_capture r in_flight;
  match admission with
  | Admission.NotApplicable => mret (Some in_flight)
  | Admission.Deferred => mret None
  | Admission.Ready a =>
      if is_complete (root_abi (a_snapshot a)) then
        synchronize_usr_exchanged_root_abi r a;;
        again ← audit_in_flight;
        mret (Some again)
      else
        normalize_usr_exchanged_root_abi r a;;
        mret None
  end.

(** ** The decision *)

Definition journal_check (r : TransitionRecord) : recovery unit := require_exact_journal RecoveryError.JournalChanged r.

Definition decision_plan (r : TransitionRecord) (layout : UsrExchangeLayout.t) : bool :=
  bool_decide (is_Some (usr_exchange_observation (phase r) layout)).

Definition decision_revalidate (r : TransitionRecord) (a : authority DatabaseEvidence.t UsrExchangeLayout.t) : recovery unit :=
  revalidate r (inspect r) (database_is_compatible r) (exchange_layout r) (decision_plan r) (journal_check r) a.

(** [normalize_usr_exchange_parent_durability] *)
Definition parent_durability (r : TransitionRecord) (a : authority DatabaseEvidence.t UsrExchangeLayout.t) : recovery unit :=
  decision_revalidate r a;;
  sync Directory.Staging;;
  sync Directory.InstallationRoot;;
  revalidate_mutable_namespace;;
  decision_revalidate r a.

Definition persist_decision (r : TransitionRecord) (a : authority DatabaseEvidence.t UsrExchangeLayout.t)
    (usr_exchange : InitialRollbackAction.t) (previous_archive : option InitialRollbackAction.t) : recovery TransitionRecord :=
  persist_and_reopen r (inspect r) (database_is_compatible r) (exchange_layout r) (decision_plan r) (journal_check r) a
    (rollback_decision (rollback_observations (operation r) usr_exchange previous_archive) r) (fun _ => true).

Definition decision (r : TransitionRecord) (in_flight : option InFlightTransition) : recovery (option TransitionRecord) :=
  if negb (rollback_decision_source_is_supported r) then mret None
  else
    admission ← capture_namespace_first r (inspect r) (database_is_compatible r) (exchange_layout r) (decision_plan r)
      (journal_check r) false (inspect_with r in_flight);
    match admission with
    | Admission.Ready a =>
        match usr_exchange_observation (phase r) (a_namespace a) with
        | Some (Some usr_exchange) =>
            next ← persist_decision r a usr_exchange (previous_archive_observation (phase r)); mret (Some next)
        | Some None =>
            parent_durability r a;;
            next ← persist_decision r a InitialRollbackAction.Pending None; mret (Some next)
        | None => mret None
        end
    | _ => mret None
    end.

(** ** The route *)

Definition is_resume_successor (p : Phase.t) : bool :=
  bool_decide (p = Phase.PreviousRestoreIntent) || bool_decide (p = Phase.ReverseExchangeIntent)
  || bool_decide (p = Phase.CandidatePreserveIntent).

Definition resume_route (r : TransitionRecord) (in_flight : option InFlightTransition) : recovery (option TransitionRecord) :=
  if negb (bool_decide (phase r = Phase.RollbackDecided \/ phase r = Phase.UsrRestored))
     || negb (is_usr_exchange_rollback_source r)
  then mret None
  else
    admission ← capture_namespace_first r (inspect r) (database_is_compatible r) (route_layout r) (route_evidence_is_exact r)
      (journal_check r) false (inspect_with r in_flight);
    match admission with
    | Admission.Ready a =>
        next ← persist_and_reopen r (inspect r) (database_is_compatible r) (route_layout r) (route_evidence_is_exact r)
          (journal_check r) a (rollback_successor None r) is_resume_successor;
        mret (Some next)
    | _ => mret None
    end.

(** ** The reverse exchange *)

Abbreviation reverse_namespace := (UsrExchangeLayout.t * ProjectedReverseNamespace)%type.

Section reverse.
Context (r : TransitionRecord).
Let read := inspect r.
Let exact := database_is_compatible r.
Let plan (_ : reverse_namespace) := reverse_plan_is_exact r.
Let assess := reverse_evidence r.
(** the proof leaves the journal to its authority *)
Let no_journal : recovery unit := mret tt.

Definition reverse_capture (in_flight : option InFlightTransition) :
    recovery (Admission.t (authority DatabaseEvidence.t reverse_namespace)) :=
  if negb (bool_decide (phase r = Phase.ReverseExchangeIntent)) then mret Admission.NotApplicable
  else
    capture_namespace_first r read (fun e => exact e && reverse_plan_is_exact r) assess (fun _ => true) no_journal false
      (inspect_with r in_flight).

(** [into_effect_lease], and the last look at the namespace *)
Definition reverse_lease (a : authority DatabaseEvidence.t reverse_namespace) : recovery unit :=
  revalidate r read exact assess plan no_journal a;;
  require (bool_decide (rx_layout (a_namespace a).2 = (a_namespace a).1)) RecoveryError.LayoutChanged;;
  require_bound r.

Definition reverse_final (a : authority DatabaseEvidence.t reverse_namespace) : recovery unit :=
  revalidate_namespace assess no_journal (a_snapshot a) (a_namespace a).

(** The snapshot the exchange leaves, and who left it *)
Definition reverse_reconcile (a : authority DatabaseEvidence.t reverse_namespace) :
    recovery (NamespaceFingerprint * RollbackActionOutcome.t) :=
  match (a_namespace a).1 with
  | UsrExchangeLayout.Post =>
      outcome ← surrounded r read exact plan a
        (reverse_final a;;
         attempt_once [Directory.Staging; Directory.InstallationRoot] exchange_usr (a_snapshot a)
           (admits_reverse r (a_snapshot a)));
      match outcome with
      | Reconciliation.Applied fresh => mret (fresh, RollbackActionOutcome.Applied)
      | Reconciliation.NotApplied => lift (Err RecoveryError.NotApplied)
      | Reconciliation.Ambiguous => lift (Err RecoveryError.Ambiguous)
      end
  | UsrExchangeLayout.Pre =>
      surrounded r read exact plan a (reverse_final a);;
      mret (a_snapshot a, RollbackActionOutcome.AlreadySatisfied)
  end.

Definition reverse (in_flight : option InFlightTransition) : recovery (option TransitionRecord) :=
  admission ← reverse_capture in_flight;
  match admission with
  | Admission.Ready a =>
      reverse_lease a;;
      effect ← reverse_reconcile a;
      complete_durability r read exact plan (is_pre r) [Directory.Staging; Directory.InstallationRoot] a effect.1;;
      next ← persist_outcome_and_reopen r read exact plan (is_pre r) a effect.1 effect.2 Phase.UsrRestored;
      mret (Some next)
  | _ => mret None
  end.
End reverse.

(** ** Preserving the candidate *)

Section preserve.
Context (r : TransitionRecord).
Let read := inspect r.
Let exact := database_is_compatible r.
Let plan (_ : Topology.t) := candidate_preserve_plan_is_exact r.
(** [require_exact_new_state_candidate_preserve_plan] *)
Let new_state_plan (_ : Topology.t) := bool_decide (operation r = NewState) && candidate_preserve_plan_is_exact r.
Let assess := preserve_evidence r.

Definition preserve_capture (in_flight : option InFlightTransition) :
    recovery (Admission.t (authority DatabaseEvidence.t Topology.t)) :=
  if negb (bool_decide (phase r = Phase.CandidatePreserveIntent)) then mret Admission.NotApplicable
  else match rollback r with
       | None => mret Admission.Deferred
       | Some p =>
           if negb (candidate_preserve_source_is_exact r p) then mret Admission.NotApplicable
           else
             capture_namespace_first r read (fun e => exact e && candidate_preserve_plan_is_exact r) assess (fun _ => true)
               (journal_check r) true (inspect_with r in_flight)
       end.

Definition exact_source_record : recovery unit :=
  binding r;; revalidate_mutable_namespace;; revalidate_mutable_namespace;; binding r;; revalidate_mutable_namespace.

(** [into_apply_effect_selection], [into_post_move_durability_selection]; then the
    projection of the effect selected *)
Definition preserve_lease (a : authority DatabaseEvidence.t Topology.t)
    (project : NamespaceFingerprint -> result RecoveryError.t unit) : recovery unit :=
  revalidate r read exact assess plan (journal_check r) a;;
  lift (project (a_snapshot a)).

(** [into_exact_source_record]: the record stays as it is *)
Definition restart (a : authority DatabaseEvidence.t Topology.t) : recovery TransitionRecord :=
  surrounding_evidence r read exact plan a;; mret r.

Definition reconciled (outcome : Reconciliation.t) : recovery NamespaceFingerprint :=
  lift match outcome with
       | Reconciliation.Applied fresh => Ok fresh
       | Reconciliation.NotApplied => Err RecoveryError.NotApplied
       | Reconciliation.Ambiguous => Err RecoveryError.Ambiguous
       end.

(** [prepare_target_creation], [prepare_target_normalization] *)
Definition prepare_target (a : authority DatabaseEvidence.t Topology.t) : recovery unit :=
  revalidate_namespace assess (mret tt) (a_snapshot a) (a_namespace a).

Definition create_target (a : authority DatabaseEvidence.t Topology.t) : recovery TransitionRecord :=
  preserve_lease a (is_target r TargetLayout.Absent);;
  outcome ← surrounded_attempt r read exact new_state_plan a (prepare_target a) (fun _ =>
    attempt_once [Directory.QuarantineParent; Directory.TransitionTarget] (make_target (quarantine_text (quarantine_name r)))
      (a_snapshot a) (admits_creation r (a_snapshot a)));
  reconciled outcome;;
  restart a.

(** The mode is changed once, reconciled, and synchronised at once. *)
Definition normalize_once (a : authority DatabaseEvidence.t Topology.t) : recovery Reconciliation.t :=
  outcome ← attempt_once [Directory.TransitionTarget] normalize_target (a_snapshot a) (admits_normalization r (a_snapshot a));
  match outcome with
  | Reconciliation.Applied fresh =>
      durable ← attempt (barriers (is_target r TargetLayout.EmptyPrivate)
        [Directory.TransitionTarget; Directory.QuarantineParent] fresh);
      mret (if is_ok durable then outcome else Reconciliation.Ambiguous)
  | _ => mret outcome
  end.

Definition normalize (a : authority DatabaseEvidence.t Topology.t) : recovery TransitionRecord :=
  preserve_lease a (is_target r TargetLayout.RestrictiveResidue);;
  outcome ← surrounded_attempt r read exact new_state_plan a (prepare_target a) (fun _ => normalize_once a);
  reconciled outcome;;
  restart a.

(** [prepare_move]: the candidate, the target and its parent *)
Definition prepare_move (a : authority DatabaseEvidence.t Topology.t) : recovery unit :=
  revalidate_namespace assess (mret tt) (a_snapshot a) (a_namespace a);;
  sync Directory.CandidateTree;;
  barriers (is_preserve r NewStatePreserveLayout.StagedWithEmptyQuarantine)
    [Directory.TransitionTarget; Directory.QuarantineParent] (a_snapshot a).

Definition finish_preserve (a : authority DatabaseEvidence.t Topology.t) (fresh : NamespaceFingerprint)
    (origin : RollbackActionOutcome.t) : recovery TransitionRecord :=
  let preserved := is_preserve r NewStatePreserveLayout.Preserved in
  complete_durability r read exact new_state_plan preserved
    [Directory.CandidateTree; Directory.Staging; Directory.TransitionTarget; Directory.QuarantineParent] a fresh;;
  persist_outcome_and_reopen r read exact new_state_plan preserved a fresh origin Phase.CandidatePreserved.

Definition move_staged (a : authority DatabaseEvidence.t Topology.t) : recovery TransitionRecord :=
  let staged := is_preserve r NewStatePreserveLayout.StagedWithEmptyQuarantine in
  preserve_lease a staged;;
  outcome ← surrounded_attempt r read exact new_state_plan a (prepare_move a) (fun _ =>
    confirm staged (a_snapshot a);;
    attempt_once [Directory.Staging; Directory.TransitionTarget] (move_candidate (quarantine_text (quarantine_name r)))
      (a_snapshot a) (admits_preservation r (a_snapshot a)));
  fresh ← reconciled outcome;
  finish_preserve a fresh RollbackActionOutcome.Applied.

Definition preserve (in_flight : option InFlightTransition) : recovery (option TransitionRecord) :=
  admission ← preserve_capture in_flight;
  match admission with
  | Admission.Ready a =>
      exact_source_record;;
      next ← match a_namespace a with
             | Topology.NewStateStaged => create_target a
             | Topology.NewStateStagedWithTargetResidue => normalize a
             | Topology.NewStateStagedWithEmptyQuarantine => move_staged a
             | Topology.NewStatePreserved =>
                 preserve_lease a (is_preserve r NewStatePreserveLayout.Preserved);;
                 finish_preserve a (a_snapshot a) RollbackActionOutcome.AlreadySatisfied
             | _ => lift (Err RecoveryError.Unsupported)  (* other operations *)
             end;
      mret (Some next)
  | _ => mret None
  end.
End preserve.

(** ** The row of the candidate *)

Definition fresh_db_route (r : TransitionRecord) (in_flight : option InFlightTransition) : recovery (option TransitionRecord) :=
  match rollback r with
  | Some p =>
      if negb (bool_decide (phase r = Phase.CandidatePreserved) && bool_decide (operation r = NewState)
               && (is_exchange_source (rp_source p) || system_trigger_candidate_preserved_source_is_exact r))
      then mret None
      else
        let exact e := fresh_db_route_database_is_exact r e && fresh_db_route_plan_is_exact r in
        let assess := require_preserved_at Phase.CandidatePreserved r in
        admission ← capture_namespace_first r (inspect r) exact assess (fun _ => true) (journal_check r) true (inspect_with r in_flight);
        match admission with
        | Admission.Ready a =>
            next ← persist_and_reopen r (inspect r) exact assess (fun _ => true) (journal_check r) a
              (rollback_successor None r) (fun p => bool_decide (p = Phase.FreshDbInvalidationIntent));
            mret (Some next)
        | _ => mret None
        end
  | None => mret None
  end.

(** [inspect_current_database]: the startup evidence between two exact observations *)
Definition inspect_fresh (r : TransitionRecord) : recovery fresh_evidence :=
  match cand_id (candidate r) with
  | None => lift (Err RecoveryError.EvidenceMismatch)
  | Some id =>
      let observe_exact := on_database RecoveryError.ExactInspection (inspect_exact_fresh_transition self id (transition_id r)) in
      exact_before ← observe_exact;
      context ← inspect r;
      exact_after ← observe_exact;
      require (bool_decide (exact_before = exact_after)) RecoveryError.DatabaseChanged;;
      mret (context, exact_after)
  end.

Section invalidation.
Context (r : TransitionRecord).
Let read := inspect_fresh r.
Let exact := database_pair_is_exact r.
Let plan (_ : unit) := fresh_db_invalidation_plan_is_exact r.
Let assess := require_preserved_at Phase.FreshDbInvalidationIntent r.

(** [require_joint_absence] *)
Definition require_joint_absence (absence : ExactFreshTransitionAbsence) : recovery fresh_evidence :=
  actual ← read;
  require (exact actual) RecoveryError.DatabaseIncompatible;;
  require (bool_decide (actual.2 = ExactFreshTransitionObservation.JointlyAbsent absence)) RecoveryError.DatabaseChanged;;
  mret actual.

Definition capture_bound_absence (a : authority fresh_evidence unit) (absence : ExactFreshTransitionAbsence) :
    recovery (authority fresh_evidence unit) :=
  binding r;;
  revalidate_mutable_namespace;;
  before ← require_joint_absence absence;
  revalidate_namespace assess (journal_check r) (a_snapshot a) (a_namespace a);;
  after ← require_joint_absence absence;
  require (bool_decide (before = after) && fresh_db_invalidation_plan_is_exact r) RecoveryError.EvidenceMismatch;;
  binding r;;
  revalidate_mutable_namespace;;
  mret {| a_database := after; a_snapshot := a_snapshot a; a_namespace := a_namespace a |}.

Definition revalidate_trailing_non_database (a : authority fresh_evidence unit) : recovery unit :=
  binding r;;
  revalidate_mutable_namespace;;
  revalidate_namespace assess (journal_check r) (a_snapshot a) (a_namespace a);;
  require (fresh_db_invalidation_plan_is_exact r) RecoveryError.EvidenceMismatch;;
  binding r;;
  revalidate_mutable_namespace.

Definition remove_row (preimage : ExactFreshTransitionPreimage) :
    recovery (result FreshRemovalError.t ExactFreshTransitionAbsence) := fun '(m, fs) =>
  let '(removed, (t, fs')) := remove_exact_fresh_transition self preimage (m_database m, fs) in
  (Ok removed, (with_database t m, fs')).

Definition invalidation_reconcile (a : authority fresh_evidence unit) :
    recovery (authority fresh_evidence unit * RollbackActionOutcome.t) :=
  binding r;;
  revalidate r read exact assess plan (journal_check r) a;;
  match (a_database a).2 with
  | ExactFreshTransitionObservation.Present preimage =>
      removed ← remove_row preimage;
      match removed with
      | Ok absence => a' ← capture_bound_absence a absence; mret (a', RollbackActionOutcome.Applied)
      | Err source =>
          revalidate_trailing_non_database a;;
          lift (Err (if definitely_not_applied source then RecoveryError.NotApplied else RecoveryError.Ambiguous))
      end
  | ExactFreshTransitionObservation.JointlyAbsent _ => mret (a, RollbackActionOutcome.AlreadySatisfied)
  end.

Definition fresh_db_invalidation : recovery (option TransitionRecord) :=
  if negb (bool_decide (phase r = Phase.FreshDbInvalidationIntent)) || negb (bool_decide (operation r = NewState))
     || negb (fresh_db_invalidation_plan_is_exact r)
  then mret None
  else
    admission ← capture_database_first r read exact assess plan (journal_check r);
    match admission with
    | Admission.Ready a =>
        effect ← invalidation_reconcile a;
        next ← persist_and_reopen r read exact assess plan (journal_check r) effect.1
          (rollback_successor (Some effect.2) r) (fun p => bool_decide (p = Phase.FreshDbInvalidated));
        mret (Some next)
    | _ => mret None
    end.
End invalidation.

Definition complete_route (r : TransitionRecord) : recovery (option TransitionRecord) :=
  if negb (bool_decide (phase r = Phase.FreshDbInvalidated)) || negb (bool_decide (operation r = NewState))
     || negb (rollback_complete_route_plan_is_exact r)
  then mret None
  else
    let plan (_ : unit) := rollback_complete_route_plan_is_exact r in
    let assess := require_preserved_at Phase.FreshDbInvalidated r in
    admission ← capture_database_first r (inspect_fresh r) (absent_pair_is_exact r) assess plan (journal_check r);
    match admission with
    | Admission.Ready a =>
        next ← persist_and_reopen r (inspect_fresh r) (absent_pair_is_exact r) assess plan (journal_check r) a
          (rollback_successor None r) (fun p => bool_decide (p = Phase.RollbackComplete));
        mret (Some next)
    | _ => mret None
    end.

(** ** The end *)

Section finalization.
Context (r : TransitionRecord).
Let read := inspect_fresh r.
Let exact := absent_pair_is_exact r.
Let plan (_ : unit) := rollback_finalization_plan_is_exact r.
Let assess := require_preserved_at Phase.RollbackComplete r.

Definition require_exact_public_journal_absence : recovery unit :=
  found ← load; require (bool_decide (found = None)) RecoveryError.JournalChanged.

Definition revalidate_after_journal_delete (a : authority fresh_evidence unit) : recovery unit :=
  revalidate_mutable_namespace;;
  require_exact_database read exact (a_database a);;
  revalidate_namespace assess require_exact_public_journal_absence (a_snapshot a) (a_namespace a);;
  require_exact_database read exact (a_database a);;
  require (rollback_finalization_plan_is_exact r) RecoveryError.EvidenceMismatch;;
  revalidate_mutable_namespace.

(** [finalize_usr_rollback]; a deletion that failed is an error even when the record is gone. *)
Definition finalize_usr_rollback (a : authority fresh_evidence unit) : recovery unit :=
  revalidate r read exact assess plan (journal_check r) a;;
  revalidate r read exact assess plan (journal_check r) a;;
  deleted ← attempt (journal_delete r);
  match deleted with
  | Ok _ => map_tx_err (fun _ => RecoveryError.PostDelete) (revalidate_after_journal_delete a)
  | Err e => lift (Err e)
  end.

(** Whether the record is gone *)
Definition finalization : recovery bool :=
  if negb (bool_decide (phase r = Phase.RollbackComplete)) || negb (bool_decide (operation r = NewState))
     || negb (rollback_finalization_plan_is_exact r)
  then mret false
  else
    admission ← capture_database_first r read exact assess plan (journal_check r);
    match admission with
    | Admission.Ready a => finalize_usr_rollback a;; mret true
    | _ => mret false
    end.
End finalization.

(** [admit_clean]; the audit of prune residue reads the quarantine. *)
Definition admit_clean (in_flight : option InFlightTransition) : recovery Entry.t :=
  match in_flight with
  | Some orphan => lift (Err (RecoveryError.OrphanTransitionRow (in_flight_state orphan) (in_flight_transition orphan)))
  | None =>
      capture_snapshot;;
      revalidate_mutable_namespace;;
      revalidate_mutable_namespace;;
      canonical ← load;
      revalidate_mutable_namespace;;
      require (bool_decide (canonical = None)) RecoveryError.CanonicalTransitionAppearedDuringCleanAdmission;;
      mret Entry.Clean
  end.

Definition admit_clean_after_terminal_finalization : recovery Entry.t :=
  revalidate_mutable_namespace;;
  in_flight ← audit_in_flight;
  revalidate_mutable_namespace;;
  admit_clean in_flight.

(** ** An entry *)

(** [PendingSystemTransition::inspect]: what it reads can fail, what it finds is reported *)
Definition pending (r : TransitionRecord) (in_flight : option InFlightTransition) : recovery Entry.t :=
  inspect_with r in_flight;;
  revalidate_mutable_namespace;;
  revalidate_mutable_namespace;;
  inspect r;;
  revalidate_mutable_namespace;;
  revalidate_mutable_namespace;;
  mret (Entry.RecoveryPending r).

Definition handled (r : TransitionRecord) : recovery Entry.t :=
  in_flight ← audit_in_flight; pending r in_flight.

(** [usr_rollback_new_state::dispatch] *)
Definition dispatch_new_state (r : TransitionRecord) (in_flight : option InFlightTransition) : recovery Entry.t :=
  match phase r with
  | Phase.RollbackComplete =>
      finalized ← finalization r;
      match finalized with
      | true => admit_clean_after_terminal_finalization
      | false => pending r in_flight
      end
  | p =>
      taken ← match p with
              | Phase.CandidatePreserveIntent => preserve r in_flight
              | Phase.CandidatePreserved => fresh_db_route r in_flight
              | Phase.FreshDbInvalidationIntent => fresh_db_invalidation r
              | Phase.FreshDbInvalidated => complete_route r
              | _ => mret None
              end;
      match taken with
      | Some next => handled next
      | None => pending r in_flight
      end
  end.

(** The checkpoints in the order the entry tries them *)
Definition recover (r : TransitionRecord) (in_flight : option InFlightTransition) : recovery Entry.t :=
  normalized ← root_abi_step r in_flight;
  match normalized with
  | None => handled r
  | Some decision_in_flight =>
      decided ← decision r decision_in_flight;
      match decided with
      | Some next => handled next
      | None =>
          routed ← resume_route r in_flight;
          match routed with
          | Some next => handled next
          | None =>
              reversed ← reverse r in_flight;
              match reversed with
              | Some next => handled next
              | None => dispatch_new_state r in_flight
              end
          end
      end
  end.

Definition enter : recovery Entry.t :=
  revalidate_mutable_namespace;;
  revalidate_mutable_namespace;;
  record ← load;
  revalidate_mutable_namespace;;
  in_flight ← audit_in_flight;
  revalidate_mutable_namespace;;
  match record with
  | None => admit_clean in_flight
  | Some r => if bool_decide (operation r = NewState) then recover r in_flight else mret (Entry.OtherOperation r)
  end.
End handlers.
