(* ===== verification/StartupLogic.v ===== *)
(** * Reasoning about recovery

    Three judgements on the steps of [StartupMachine]: a step that only looks and what it
    then knows, whatever fails ([looks]); what holds of the machine when a step ends or
    stops ([triple]); and the run in which nothing fails ([quiet]). *)

From S2P Require Import Prelude ByteStrings Ordered SqlDb SqlTx JournalModel JournalValidation JournalMachine JournalSuccessors StateDb StateDbExact StateDbInvariant StateDbTheorems StateDbRemoval StartupEvidence StartupEvidenceTheorems Namespace NamespaceMoves StartupMachine.

Create HintDb recovery.

(** ** Looking *)

Definition looks {A} (m : recovery A) (R : machine -> A -> Prop) : Prop :=
  forall w fs, (m (w, fs)).2.1 = w /\ forall a, (m (w, fs)).1 = Ok a -> R w a.

Abbreviation inert m := (looks m (fun _ _ => True)).

Lemma looks_weaken {A} (m : recovery A) (R R' : machine -> A -> Prop) :
  looks m R -> (forall w a, R w a -> R' w a) -> looks m R'.
Proof. intros Hm HR w fs. destruct (Hm w fs). eauto. Qed.

Lemma looks_conj {A} (m : recovery A) (R R' : machine -> A -> Prop) :
  looks m R -> looks m R' -> looks m (fun w a => R w a /\ R' w a).
Proof. intros Hm Hm' w fs. destruct (Hm w fs), (Hm' w fs). split; [done|]. intros a Ha. split; auto. Qed.

Lemma looks_inert {A} (m : recovery A) R : looks m R -> inert m.
Proof. intros Hm. by eapply looks_weaken. Qed.

Lemma looks_ret {A} (a : A) R : (forall w, R w a) -> looks (mret a) R.
Proof. intros HR w fs. split; [done|]. by intros ? [= <-]. Qed.

Lemma looks_lift {A} (r : result RecoveryError.t A) : looks (lift r) (fun _ a => r = Ok a).
Proof. intros w fs. by split. Qed.

Lemma looks_bind {A B} (m : recovery A) (f : A -> recovery B) R S :
  looks m R -> (forall a, looks (f a) (fun w b => R w a -> S w b)) -> looks (m ≫= f) S.
Proof.
  intros Hm Hf w fs. destruct (Hm w fs) as [Hw HR]. unfold mbind, tx_bind.
  destruct (m (w, fs)) as [[a|e] [w' fs']]; cbn in *; [|done]. subst w'. destruct (Hf a w fs') as [Hw' HS]. eauto.
Qed.

Lemma looks_then {A B} (m : recovery A) (k : recovery B) R S :
  looks m R -> looks k S -> looks (m;; k) (fun w b => S w b /\ exists a, R w a).
Proof.
  intros Hm Hk. eapply looks_bind; [exact Hm|]. intros a. cbn. eapply looks_weaken; [exact Hk|]. cbn. eauto.
Qed.

Lemma looks_observe {A} e (f : machine -> A) : looks (observe e f) (fun w a => a = f w).
Proof. intros w [|[] fs]; split; try done; by intros a [= <-]. Qed.

Lemma looks_attempt {A} (m : recovery A) R :
  looks m R -> looks (attempt m : recovery (result RecoveryError.t A)) (fun w r => forall a, r = Ok a -> R w a).
Proof.
  intros Hm w fs. destruct (Hm w fs) as [Hw HR]. unfold attempt. destruct (m (w, fs)) as [r c]. cbn in *.
  split; [done|]. intros ? [= <-]. done.
Qed.

Lemma looks_require b e : looks (require b e) (fun _ _ => b = true).
Proof. intros w fs. split; [done|]. by destruct b. Qed.

Lemma looks_map_err {A} f (m : recovery A) R : looks m R -> looks (map_tx_err f m) R.
Proof.
  intros Hm w fs. destruct (Hm w fs) as [Hw HR]. unfold map_tx_err. destruct (m (w, fs)) as [[a|e] c]; cbn in *; [|done].
  split; [done|]. intros ? [= <-]. by apply HR.
Qed.

Lemma with_own_database w : with_database (m_database w) w = w.
Proof. by destruct w. Qed.

Lemma looks_database {E A} (f : E -> RecoveryError.t) (m : tx tables E A) :
  reads m -> inert (on_database f m).
Proof.
  intros Hm w fs. pose proof (reads_tables m (m_database w) fs Hm) as Ht. unfold on_database.
  destruct (m (m_database w, fs)) as [r [t fs']]. cbn in *. subst t. by rewrite with_own_database.
Qed.

#[export] Hint Resolve looks_ret looks_lift looks_observe looks_require looks_map_err : recovery.

(** ** Ending or stopping *)

Definition triple {A} (X P : machine -> Prop) (m : recovery A) (Q : A -> machine -> Prop) : Prop :=
  forall w fs, P w -> match m (w, fs) with
                      | (Ok a, (w', _)) => Q a w'
                      | (Err _, (w', _)) => X w'
                      end.

(** Exactly one machine *)
Abbreviation at_machine w := (fun w' : machine => w' = w).

Section triples.
Implicit Types X P : machine -> Prop.

Lemma triple_ret {A} X P (a : A) (Q : A -> machine -> Prop) : (forall w, P w -> Q a w) -> triple X P (mret a) Q.
Proof. intros HQ w fs Hp. by apply HQ. Qed.

Lemma triple_fail {A} X P e (Q : A -> machine -> Prop) : (forall w, P w -> X w) -> triple X P (lift (Err e)) Q.
Proof. intros HX w fs Hp. by apply HX. Qed.

Lemma triple_bind {A B} X P (m : recovery A) (f : A -> recovery B) (Q : A -> machine -> Prop) (R : B -> machine -> Prop) :
  triple X P m Q -> (forall a, triple X (Q a) (f a) R) -> triple X P (m ≫= f) R.
Proof.
  intros Hm Hf w fs Hp. specialize (Hm w fs Hp). unfold mbind, tx_bind.
  destruct (m (w, fs)) as [[a|e] [w' fs']]; [|done]. by apply (Hf a).
Qed.

Lemma triple_conseq {A} X P P' (m : recovery A) (Q Q' : A -> machine -> Prop) :
  triple X P' m Q' -> (forall w, P w -> P' w) -> (forall a w, Q' a w -> Q a w) -> triple X P m Q.
Proof.
  intros Hm HP HQ w fs Hp. specialize (Hm w fs (HP w Hp)). destruct (m (w, fs)) as [[a|e] [w' fs']]; [by apply HQ|done].
Qed.

Lemma triple_pre {A} X P P' (m : recovery A) (Q : A -> machine -> Prop) :
  triple X P' m Q -> (forall w, P w -> P' w) -> triple X P m Q.
Proof. intros Hm HP. by eapply triple_conseq. Qed.

(** A step that looks keeps what holds, and adds what it found. *)
Lemma triple_looks {A} X P (m : recovery A) R : looks m R -> (forall w, P w -> X w) ->
  triple X P m (fun a w => P w /\ R w a).
Proof.
  intros Hm HX w fs Hp. destruct (Hm w fs) as [Hw HR]. destruct (m (w, fs)) as [[a|e] [w' fs']]; cbn in *; subst w'; eauto.
Qed.

Lemma triple_looks_then {A B} X P (m : recovery A) (f : A -> recovery B) R (Q : B -> machine -> Prop) :
  looks m R -> (forall w, P w -> X w) -> (forall a, triple X (fun w => P w /\ R w a) (f a) Q) -> triple X P (m ≫= f) Q.
Proof. intros Hm HX Hf. eapply triple_bind; [by apply (triple_looks X P m R)|]. done. Qed.

(** The answer of a step matters, not its error. *)
Lemma triple_attempt {A} X Y P (m : recovery A) (Q : A -> machine -> Prop) :
  triple Y P m Q ->
  triple X P (attempt m : recovery (result RecoveryError.t A)) (fun r w => match r with Ok a => Q a w | Err _ => Y w end).
Proof.
  intros Hm w fs Hp. specialize (Hm w fs Hp). unfold attempt. by destruct (m (w, fs)) as [[a|e] [w' fs']].
Qed.

Lemma triple_observe_state {A} X P (m : recovery A) (Q : A -> machine -> Prop) :
  (forall w, P w -> triple X (fun w' => w' = w) m Q) -> triple X P m Q.
Proof. intros Hm w fs Hp. by apply (Hm w Hp). Qed.

Lemma triple_pure {A} X P (F : Prop) (m : recovery A) (Q : A -> machine -> Prop) :
  (F -> triple X P m Q) -> triple X (fun w => P w /\ F) m Q.
Proof. intros Hm w fs [Hp Hf]. by apply Hm. Qed.

Lemma triple_write X P e f : (forall w, P w -> X w) -> (forall w, P w -> X (f w)) ->
  triple X P (write e f) (fun _ w => exists w0, P w0 /\ w = f w0).
Proof. intros H1 H2 w [|[] fs] Hp; cbn; eauto. Qed.

Lemma triple_move X P dirs f :
  triple X P (move_once dirs f) (fun _ w => P w \/ exists w0, P w0 /\ w = moved dirs (f (visible w0)) w0).
Proof. intros w [|[] fs] Hp; cbn; eauto. Qed.

Lemma triple_error {A} X Y P (m : recovery A) (Q : A -> machine -> Prop) :
  (forall w, Y w -> X w) -> triple Y P m Q -> triple X P m Q.
Proof. intros HX Hm w fs Hp. specialize (Hm w fs Hp). destruct (m (w, fs)) as [[a|e] [w' fs']]; auto. Qed.

(** *** From one machine *)

Lemma at_looks {A B} X w (m : recovery A) (f : A -> recovery B) R (Q : B -> machine -> Prop) : looks m R -> X w ->
  (forall a, R w a -> triple X (at_machine w) (f a) Q) -> triple X (at_machine w) (m ≫= f) Q.
Proof.
  intros Hm HX Hf. eapply triple_looks_then; [exact Hm|by intros ? ->|]. intros a w' fs [-> Hr]. by apply Hf.
Qed.

Lemma at_inert {A} X w (m : recovery A) : looks m (fun _ _ => True) -> X w -> triple X (at_machine w) m (fun _ => X).
Proof. intros Hm HX. eapply triple_conseq; [apply (triple_looks X (at_machine w)); [exact Hm|by intros ? ->]|done|]. by intros ? ? [-> _]. Qed.

Lemma at_stays {A} X w (m : recovery A) : looks m (fun _ _ => True) -> X w -> triple X (at_machine w) m (fun _ => at_machine w).
Proof. intros Hm HX. eapply triple_conseq; [apply (triple_looks X (at_machine w)); [exact Hm|by intros ? ->]|done|]. by intros ? ? [-> _]. Qed.

Lemma at_ret {A} X w (a : A) (Q : A -> machine -> Prop) : Q a w -> triple X (at_machine w) (mret a) Q.
Proof. intros HQ. apply triple_ret. by intros ? ->. Qed.

Lemma at_fail {A} X w e (Q : A -> machine -> Prop) : X w -> triple X (at_machine w) (lift (Err e)) Q.
Proof. intros HX. apply triple_fail. by intros ? ->. Qed.

Lemma at_write {B} X w e g (f : unit -> recovery B) (Q : B -> machine -> Prop) : X w -> X (g w) ->
  triple X (at_machine (g w)) (f tt) Q -> triple X (at_machine w) (write e g ≫= f) Q.
Proof.
  intros HX Hg Hf. eapply triple_bind; [apply triple_write; by intros ? ->|]. intros []. eapply triple_pre; [exact Hf|].
  by intros w' (? & -> & ->).
Qed.

(** What a step leaves is known up to a property. *)
Lemma at_bind {A B} X w (m : recovery A) (f : A -> recovery B) (Q : A -> machine -> Prop) (R : B -> machine -> Prop) :
  triple X (at_machine w) m Q -> (forall a w', Q a w' -> triple X (at_machine w') (f a) R) -> triple X (at_machine w) (m ≫= f) R.
Proof. intros Hm Hf. eapply triple_bind; [exact Hm|]. intros a. apply triple_observe_state. auto. Qed.
End triples.

(** ** Nothing fails *)

Definition quiet {A} (m : recovery A) (w : machine) (a : A) (w' : machine) : Prop := m (w, []) = (Ok a, (w', [])).

Section quiet.
Lemma quiet_ret {A} (a : A) w : quiet (mret a) w a w.
Proof. done. Qed.

Lemma quiet_lift {A} (r : result RecoveryError.t A) a w : r = Ok a -> quiet (lift r) w a w.
Proof. by intros ->. Qed.

Lemma quiet_bind {A B} (m : recovery A) (f : A -> recovery B) w a w' b w'' :
  quiet m w a w' -> quiet (f a) w' b w'' -> quiet (m ≫= f) w b w''.
Proof. unfold quiet, mbind, tx_bind. by intros ->. Qed.

Lemma quiet_observe {A} e (f : machine -> A) w : quiet (observe e f) w (f w) w.
Proof. done. Qed.

Lemma quiet_require b e w : b = true -> quiet (require b e) w tt w.
Proof. by intros ->. Qed.

Lemma quiet_attempt {A} (m : recovery A) w a w' :
  quiet m w a w' -> quiet (attempt m : recovery (result RecoveryError.t A)) w (Ok a) w'.
Proof. unfold quiet, attempt. by intros ->. Qed.

Lemma quiet_map_err {A} f (m : recovery A) w a w' : quiet m w a w' -> quiet (map_tx_err f m) w a w'.
Proof. unfold quiet, map_tx_err. by intros ->. Qed.

Lemma quiet_write e f w : quiet (write e f) w tt (f w).
Proof. done. Qed.

Lemma quiet_move dirs f w : quiet (move_once dirs f) w true (moved dirs (f (visible w)) w).
Proof. done. Qed.

Lemma quiet_database {E A} (f : E -> RecoveryError.t) (m : tx tables E A) w a :
  m (m_database w, []) = (Ok a, (m_database w, [])) -> quiet (on_database f m) w a w.
Proof. unfold quiet, on_database. intros ->. cbn. by rewrite with_own_database. Qed.

Lemma quiet_deterministic {A} (m : recovery A) w a1 w1 a2 w2 :
  quiet m w a1 w1 -> quiet m w a2 w2 -> a1 = a2 /\ w1 = w2.
Proof. unfold quiet. intros -> [= -> ->]. done. Qed.
End quiet.

#[export] Hint Resolve quiet_ret quiet_lift quiet_observe quiet_require quiet_attempt quiet_write quiet_move : recovery.

(** ** The steps of the machine *)

Lemma inert_bind {A B} (m : recovery A) (f : A -> recovery B) :
  inert m -> (forall a, inert (f a)) -> inert (m ≫= f).
Proof. intros Hm Hf. eapply looks_bind; [exact Hm|]. intros a. eapply looks_weaken; [apply Hf|done]. Qed.

Lemma inert_lift {A} (r : result RecoveryError.t A) : inert (lift r).
Proof. by intros w fs. Qed.

Lemma inert_ret {A} (a : A) : inert (mret a : recovery A).
Proof. by intros w fs. Qed.

Lemma inert_observe {A} e (f : machine -> A) : inert (observe e f).
Proof. eapply looks_inert, looks_observe. Qed.

Lemma inert_require b e : inert (require b e).
Proof. apply inert_lift. Qed.

Lemma inert_attempt {A} (m : recovery A) : inert m -> inert (attempt m : recovery (result RecoveryError.t A)).
Proof. intros Hm. eapply looks_inert, looks_attempt, Hm. Qed.

#[export] Hint Resolve inert_lift inert_ret inert_observe inert_require : recovery.

(** Prove that a step only looks, by its structure. *)
Ltac inert := repeat first
  [ progress intros | solve [eauto with recovery] | apply inert_bind | apply inert_attempt | apply looks_map_err
  | match goal with
    | |- looks (if ?x then _ else _) _ => destruct x
    | |- looks (match ?x with _ => _ end) _ => destruct x
    end ].

Lemma inert_namespace : inert revalidate_mutable_namespace.
Proof. apply inert_observe. Qed.

Lemma inert_snapshot : inert capture_snapshot.
Proof. apply inert_observe. Qed.

Lemma inert_load : inert load.
Proof. apply inert_observe. Qed.

#[export] Hint Resolve inert_namespace inert_snapshot inert_load : recovery.

Lemma inert_journal e r : inert (require_exact_journal e r).
Proof. unfold require_exact_journal. inert. Qed.

Lemma inert_binding r : inert (require_journal_record_binding r).
Proof. apply inert_journal. Qed.

Lemma inert_reopen : inert reopen_canonical_journal.
Proof. unfold reopen_canonical_journal. inert. Qed.

#[export] Hint Resolve inert_journal inert_binding inert_reopen : recovery.

Lemma inert_bound r : inert (require_bound r).
Proof. unfold require_bound. inert. Qed.

#[export] Hint Resolve inert_bound : recovery.

Lemma quiet_journal e r w : m_journal w = Some r -> quiet (require_exact_journal e r) w tt w.
Proof.
  intros Hj. eapply quiet_bind; [apply quiet_observe|]. rewrite Hj. apply quiet_require. by apply bool_decide_eq_true.
Qed.

Lemma quiet_binding r w : m_journal w = Some r -> quiet (require_journal_record_binding r) w tt w.
Proof. apply quiet_journal. Qed.

Lemma quiet_namespace w : quiet revalidate_mutable_namespace w tt w.
Proof. done. Qed.

Lemma quiet_snapshot w : quiet capture_snapshot w (visible w) w.
Proof. done. Qed.

#[export] Hint Resolve quiet_journal quiet_binding quiet_namespace quiet_snapshot : recovery.

(** Run a step without faults, by its structure. *)
Ltac quiet_step := first
  [ solve [eauto with recovery] | eapply quiet_bind; [solve [eauto with recovery]|] | eapply quiet_attempt
  | apply quiet_require; apply bool_decide_eq_true; reflexivity ].
Ltac quiet := cbn beta; repeat quiet_step.

Lemma quiet_bound r w : m_journal w = Some r -> quiet (require_bound r) w tt w.
Proof. intros Hj. unfold require_bound. quiet. Qed.

#[export] Hint Resolve quiet_bound : recovery.

(** *** Publication *)

Lemma quiet_advance r next w : m_journal w = Some r -> advances r next ->
  quiet (journal_advance r next) w tt (with_journal (Some next) w).
Proof.
  intros Hj Had. unfold quiet, journal_advance. rewrite Hj, bool_decide_eq_true_2 by done. by rewrite Had.
Qed.

Lemma quiet_publish r next w : m_journal w = Some r -> advances r next ->
  quiet (publish_and_reopen r next) w next (with_journal (Some next) w).
Proof.
  intros Hj Had. set (w' := with_journal (Some next) w).
  assert (m_journal w' = Some next) as Hj' by done.
  eapply quiet_bind.
  { eapply quiet_bind; [by apply quiet_attempt, quiet_advance|]. cbn beta iota.
    eapply quiet_bind; [apply quiet_attempt; by apply quiet_binding|]. apply quiet_ret. }
  cbn [is_ok]. eapply quiet_bind.
  { apply quiet_attempt. unfold reopen_canonical_journal, load. quiet. }
  cbn beta iota. eapply quiet_bind; [apply quiet_require; by apply bool_decide_eq_true|].
  eapply quiet_bind; [apply quiet_attempt; quiet|]. quiet.
Qed.

(** A publication that ends or stops left the record, or its successor. *)
Lemma triple_publish X (P : machine -> Prop) r next : (forall w, P w -> X w) ->
  (forall w, P w -> m_journal w = Some r -> advances r next -> X (with_journal (Some next) w)) ->
  triple X P (publish_and_reopen r next) (fun _ w => X w).
Proof.
  intros HP Hn. assert (triple X P (advance_outcome r next) (fun _ => X)) as Ho.
  { eapply (triple_bind _ _ _ _ (fun _ => X)).
    - intros w fs Hp. unfold attempt, journal_advance.
      destruct (bool_decide (m_journal w = Some r) && is_ok (validate_advance r next)) eqn:Hg; [|by apply HP].
      apply andb_true_iff in Hg as [Hj%bool_decide_eq_true Hv].
      assert (advances r next) as Had by (by destruct (validate_advance r next) as [[]|]).
      destruct fs as [|[] fs]; cbn; auto.
    - intros [[]|e]; [|by apply triple_ret].
      eapply triple_conseq; [apply (triple_looks X X _ (fun _ _ => True)); [|done]|done|by intros ? ? []]. inert. }
  eapply triple_bind; [exact Ho|]. intros o. cbn beta.
  eapply triple_conseq; [apply (triple_looks X X _ (fun _ _ => True)); [|done]|done|by intros ? ? []].
  inert.
Qed.

(** *** Authorities *)

Section authority.
Context {D N : Type} `{EqDecision D} `{EqDecision N}.
Context (r : TransitionRecord) (read : recovery D) (exact : D -> bool)
  (assess : NamespaceFingerprint -> result RecoveryError.t N) (plan : N -> bool) (proof_journal : recovery unit).
Context (Hread : inert read) (Hjournal : inert proof_journal).

#[local] Hint Resolve Hread Hjournal : recovery.

(** An authority that was granted holds the snapshot, as it was recognised. *)
Definition granted (w : machine) (admission : Admission.t (authority D N)) : Prop :=
  match admission with
  | Admission.Ready a =>
      a_snapshot a = visible w /\ assess (visible w) = Ok (a_namespace a) /\ plan (a_namespace a) = true
      /\ exact (a_database a) = true
  | _ => True
  end.

Lemma looks_inspection_begin early : looks (inspection_begin assess proof_journal early) (fun w s => s = visible w).
Proof using Hjournal.
  unfold inspection_begin. eapply looks_bind; [exact Hjournal|]. intros ?.
  eapply looks_bind; [apply looks_observe|]. intros s.
  eapply looks_weaken; [apply looks_then; [|apply (looks_ret s (fun _ s' => s' = s)); done]|].
  - instantiate (1 := fun _ _ => True). destruct early; inert.
  - cbn. intros w ? [-> _] -> _. done.
Qed.

Lemma looks_inspection_finish before :
  looks (inspection_finish assess proof_journal before) (fun w n => before = visible w /\ assess before = Ok n).
Proof using Hjournal.
  unfold inspection_finish. eapply looks_bind; [apply looks_observe|]. intros after.
  eapply looks_bind; [apply looks_require|]. intros ?.
  eapply looks_bind; [apply looks_lift|]. intros first.
  eapply looks_bind; [apply looks_lift|]. intros second.
  eapply looks_bind; [apply looks_require|]. intros ?.
  eapply looks_weaken; [apply looks_then; [exact Hjournal|apply looks_then; [apply inert_namespace|]]|].
  - apply (looks_ret second (fun _ n => n = second)). done.
  - cbn. intros w n ((-> & _) & _) Hs H2 H1 Hb ->. apply bool_decide_eq_true in Hs. apply bool_decide_eq_true in Hb. by subst.
Qed.

Lemma looks_capture_namespace_first early first : inert first ->
  looks (capture_namespace_first r read exact assess plan proof_journal early first) granted.
Proof using Hread Hjournal.
  intros Hfirst. unfold capture_namespace_first. eapply looks_bind; [apply inert_bound|]. intros ?.
  eapply looks_bind; [apply looks_attempt, looks_inspection_begin|]. intros [before|e]; [|by apply looks_ret].
  eapply looks_bind; [exact Hfirst|]. intros database.
  destruct (exact database) eqn:Hex; cbn [negb]; [|by apply looks_ret].
  eapply looks_bind; [exact Hread|]. intros after. destruct (_ || _); [by apply looks_ret|].
  eapply looks_bind; [apply looks_attempt, looks_inspection_finish|]. intros [found|e]; [|by apply looks_ret].
  destruct (plan found) eqn:Hplan; cbn [negb]; [|by apply looks_ret].
  eapply looks_bind; [apply inert_bound|]. intros ?. apply looks_ret. cbn.
  intros w _ Hf _ _ _ _. destruct (Hf found eq_refl) as [Hs Ha]. by rewrite <- Hs.
Qed.

Lemma looks_capture_database_first :
  looks (capture_database_first r read exact assess plan proof_journal) granted.
Proof using Hread Hjournal.
  unfold capture_database_first. eapply looks_bind; [apply inert_bound|]. intros ?.
  eapply looks_bind; [exact Hread|]. intros database. destruct (negb _); [by apply looks_ret|].
  eapply looks_bind; [apply looks_attempt, looks_inspection_begin|]. intros [before|e]; [|by apply looks_ret].
  eapply looks_bind; [apply looks_attempt, looks_inspection_finish|]. intros [found|e]; [|by apply looks_ret].
  eapply looks_bind; [exact Hread|]. intros after. destruct (exact after) eqn:Hex; cbn [negb orb]; [|by apply looks_ret].
  destruct (negb (bool_decide _)); cbn [orb]; [by apply looks_ret|].
  destruct (plan found) eqn:Hplan; cbn [negb]; [|by apply looks_ret].
  eapply looks_bind; [apply inert_bound|]. intros ?. apply looks_ret. cbn.
  intros w _ _ Hf _ _ _. destruct (Hf found eq_refl) as [Hs Ha]. by rewrite <- Hs.
Qed.

(** The database evidence an authority keeps was read. *)
Lemma looks_capture_read (R : machine -> D -> Prop) : looks read R ->
  looks (capture_database_first r read exact assess plan proof_journal) (fun w admission =>
    match admission with Admission.Ready a => R w (a_database a) | _ => True end).
Proof using Hjournal.
  intros HR. unfold capture_database_first. eapply looks_bind; [apply inert_bound|]. intros ?.
  eapply looks_bind; [eapply looks_inert, HR|]. intros database. destruct (negb _); [by apply looks_ret|].
  eapply looks_bind; [eapply looks_attempt, looks_inert, looks_inspection_begin|]. intros [before|e]; [|by apply looks_ret].
  eapply looks_bind; [eapply looks_attempt, looks_inert, looks_inspection_finish|]. intros [found|e]; [|by apply looks_ret].
  eapply looks_bind; [exact HR|]. intros after. destruct (_ || _); [by apply looks_ret|].
  eapply looks_bind; [apply inert_bound|]. intros ?. apply looks_ret. cbn. tauto.
Qed.

Lemma inert_exact_database d : inert (require_exact_database read exact d).
Proof using Hread. unfold require_exact_database. inert. Qed.

Lemma inert_revalidate_namespace s n : inert (revalidate_namespace assess proof_journal s n).
Proof using Hjournal. unfold revalidate_namespace. inert. Qed.

#[local] Hint Resolve inert_exact_database inert_revalidate_namespace : recovery.

Lemma inert_revalidate a : inert (revalidate r read exact assess plan proof_journal a).
Proof using Hread Hjournal. unfold revalidate. inert. Qed.

Lemma inert_surrounding a : inert (surrounding_evidence r read exact plan a).
Proof using Hread. unfold surrounding_evidence. inert. Qed.

#[local] Hint Resolve inert_surrounding inert_revalidate : recovery.

(** Evidence around a step keeps what the step establishes. *)
Lemma triple_surrounded {A} X (P : machine -> Prop) a (step : recovery A) (Q : A -> machine -> Prop) :
  (forall w, P w -> X w) -> (forall x w, Q x w -> X w) -> triple X P step Q ->
  triple X P (surrounded r read exact plan a step) Q.
Proof using Hread.
  intros HX HQ Hstep. unfold surrounded.
  eapply triple_looks_then; [apply inert_binding|done|]. intros ?.
  eapply triple_looks_then; [apply inert_surrounding|by intros w [Hp _]; apply HX|]. intros ?.
  eapply triple_bind. { eapply triple_attempt, triple_pre; [exact Hstep|]. by intros w [[]]. }
  intros [x|e]; cbn beta iota.
  - eapply triple_looks_then; [apply looks_attempt, inert_surrounding|by intros; eapply HQ|]. intros trailing.
    eapply triple_looks_then; [apply looks_lift|by intros w [Hq _]; eapply HQ|]. intros y.
    eapply triple_looks_then; [apply looks_lift|by intros w [[Hq _] _]; eapply HQ|]. intros [].
    apply triple_ret. by intros w (((Hq & _) & [= <-]) & _).
  - eapply triple_looks_then; [apply looks_attempt, inert_surrounding|done|]. intros trailing. cbn beta iota.
    eapply (triple_bind _ _ _ _ (fun _ _ => False)); [apply triple_fail; by intros w []|]. by intros ? w fs [].
Qed.

Lemma triple_surrounded_attempt {A B} X (P : machine -> Prop) a (prepare : recovery A) (step : A -> recovery B)
    (R : A -> machine -> Prop) (Q : B -> machine -> Prop) :
  (forall w, P w -> X w) -> (forall x w, R x w -> X w) -> (forall x w, Q x w -> X w) ->
  triple X P prepare R -> (forall x, triple X (R x) (step x) Q) ->
  triple X P (surrounded_attempt r read exact plan a prepare step) Q.
Proof using Hread.
  intros HX HR HQ Hprep Hstep. unfold surrounded_attempt.
  eapply triple_looks_then; [apply inert_binding|done|]. intros ?.
  eapply triple_looks_then; [apply inert_surrounding|by intros w [Hp _]; apply HX|]. intros ?.
  eapply triple_bind. { eapply triple_attempt, triple_pre; [exact Hprep|]. by intros w [[]]. }
  intros [x|e]; cbn beta iota.
  - apply triple_surrounded; [by intros; eapply HR|done|]. apply Hstep.
  - eapply triple_looks_then; [apply looks_attempt, inert_surrounding|done|]. intros ?. apply triple_fail. by intros w [].
Qed.

Lemma triple_persist X (P : machine -> Prop) a construct expected : (forall w, P w -> X w) ->
  (forall w next, P w -> construct = Ok next -> expected (phase next) = true -> m_journal w = Some r -> advances r next ->
    X (with_journal (Some next) w)) ->
  triple X P (persist_and_reopen r read exact assess plan proof_journal a construct expected) (fun _ w => X w).
Proof using Hread Hjournal.
  intros HP Hn. unfold persist_and_reopen.
  eapply triple_looks_then; [apply inert_revalidate|done|]. intros ?.
  eapply triple_looks_then; [apply looks_lift|by intros w [Hp _]; apply HP|]. intros next.
  eapply triple_looks_then; [apply looks_require|by intros w [[Hp _] _]; apply HP|]. intros ?.
  eapply triple_looks_then; [apply inert_revalidate|by intros w [[[Hp _] _] _]; apply HP|]. intros ?.
  apply triple_publish; [by intros w [[[[Hp _] _] _] _]; apply HP|].
  intros w ((((Hp & _) & Hc) & He) & _) Hj Had. apply Hn; try done. by destruct construct; simplify_eq/=.
Qed.

(** *** Without faults *)

Context (w : machine) (d : D) (n : N).
Context (Hj : m_journal w = Some r) (Hd : quiet read w d w) (Hx : exact d = true)
  (Ha : assess (visible w) = Ok n) (Hp : plan n = true) (Hq : quiet proof_journal w tt w).

Let granted_authority := {| a_database := d; a_snapshot := visible w; a_namespace := n |}.

#[local] Hint Resolve Hd Hq : recovery.

Lemma quiet_inspection_begin early : quiet (inspection_begin assess proof_journal early) w (visible w) w.
Proof using Ha Hq.
  unfold inspection_begin. quiet. eapply quiet_bind; [|quiet].
  destruct early; [|apply quiet_ret]. eapply quiet_bind; [by apply quiet_lift|]. quiet.
Qed.

Lemma quiet_inspection_finish : quiet (inspection_finish assess proof_journal (visible w)) w n w.
Proof using Ha Hq.
  unfold inspection_finish. quiet.
  eapply quiet_bind; [apply quiet_require; by apply bool_decide_eq_true|].
  eapply quiet_bind; [by apply quiet_lift|]. eapply quiet_bind; [by apply quiet_lift|].
  eapply quiet_bind; [apply quiet_require; by apply bool_decide_eq_true|]. quiet.
Qed.

Lemma quiet_capture_namespace_first early first : quiet first w d w ->
  quiet (capture_namespace_first r read exact assess plan proof_journal early first) w (Admission.Ready granted_authority) w.
Proof using Hj Hd Hx Ha Hp Hq.
  intros Hf. unfold capture_namespace_first. quiet.
  eapply quiet_bind; [apply quiet_attempt, quiet_inspection_begin|]. cbn beta iota.
  eapply quiet_bind; [exact Hf|]. rewrite Hx. cbn [negb]. eapply quiet_bind; [exact Hd|].
  rewrite Hx, bool_decide_eq_true_2 by done. cbn [negb orb].
  eapply quiet_bind; [apply quiet_attempt, quiet_inspection_finish|]. cbn beta iota. rewrite Hp. cbn [negb]. quiet.
Qed.

Lemma quiet_capture_database_first :
  quiet (capture_database_first r read exact assess plan proof_journal) w (Admission.Ready granted_authority) w.
Proof using Hj Hd Hx Ha Hp Hq.
  unfold capture_database_first. quiet. rewrite Hx. cbn [negb].
  eapply quiet_bind; [apply quiet_attempt, quiet_inspection_begin|]. cbn beta iota.
  eapply quiet_bind; [apply quiet_attempt, quiet_inspection_finish|]. cbn beta iota.
  eapply quiet_bind; [exact Hd|]. rewrite Hx, bool_decide_eq_true_2, Hp by done. cbn [negb orb]. quiet.
Qed.

Lemma quiet_exact_database : quiet (require_exact_database read exact d) w tt w.
Proof using Hd Hx.
  unfold require_exact_database. eapply quiet_bind; [exact Hd|]. eapply quiet_bind; [by apply quiet_require|].
  apply quiet_require. by apply bool_decide_eq_true.
Qed.

Lemma quiet_revalidate_namespace : quiet (revalidate_namespace assess proof_journal (visible w) n) w tt w.
Proof using Ha Hq.
  unfold revalidate_namespace. quiet.
  eapply quiet_bind; [apply quiet_require; by apply bool_decide_eq_true|].
  eapply quiet_bind; [by apply quiet_lift|].
  eapply quiet_bind; [apply quiet_require; by apply bool_decide_eq_true|]. quiet.
Qed.

#[local] Hint Resolve quiet_exact_database quiet_revalidate_namespace : recovery.

Lemma quiet_revalidate : quiet (revalidate r read exact assess plan proof_journal granted_authority) w tt w.
Proof using Hj Hd Hx Ha Hp Hq. unfold revalidate. cbn [a_database a_snapshot a_namespace granted_authority]. quiet. Qed.

Lemma quiet_surrounding s : quiet (surrounding_evidence r read exact plan {| a_database := d; a_snapshot := s; a_namespace := n |}) w tt w.
Proof using Hj Hd Hx Hp. unfold surrounding_evidence. cbn [a_database a_snapshot a_namespace]. quiet. Qed.

Lemma quiet_persist construct next expected : construct = Ok next -> expected (phase next) = true -> advances r next ->
  quiet (persist_and_reopen r read exact assess plan proof_journal granted_authority construct expected) w next (with_journal (Some next) w).
Proof using Hj Hd Hx Ha Hp Hq.
  intros -> He Had. unfold persist_and_reopen. eapply quiet_bind; [apply quiet_revalidate|].
  eapply quiet_bind; [by apply quiet_lift|]. eapply quiet_bind; [by apply quiet_require|].
  eapply quiet_bind; [apply quiet_revalidate|]. by apply quiet_publish.
Qed.
End authority.

(** *** Movements *)

Definition syncs (dirs : list Directory.t) (w : machine) : machine := foldl (fun w d => synced d w) w dirs.

Lemma syncs_keeps dirs w :
  m_journal (syncs dirs w) = m_journal w /\ m_database (syncs dirs w) = m_database w /\ visible (syncs dirs w) = visible w.
Proof. revert w. induction dirs as [|d dirs IH]; intros w; [done|]. exact (IH (synced d w)). Qed.

(** What was left unsynchronised shrinks, and so do the survivors. *)
Lemma syncs_shrinks dirs w :
  (forall d, d ∈ unsynced (syncs dirs w) <-> d ∈ unsynced w /\ d ∉ dirs)
  /\ (forall s, s ∈ survivors (syncs dirs w) -> s ∈ survivors w).
Proof.
  revert w. induction dirs as [|d dirs IH]; intros w; [split; [set_solver|done]|].
  destruct (IH (synced d w)) as [Hu Hs]. cbn [syncs foldl]. fold (syncs dirs (synced d w)). split.
  - intros d'. rewrite Hu. cbn [synced unsynced]. rewrite list_elem_of_In, filter_In, <- list_elem_of_In, not_elem_of_cons.
    destruct (decide (d' = d)) as [->|Hd]; [rewrite bool_decide_eq_true_2 by done|rewrite bool_decide_eq_false_2 by done]; cbn; naive_solver.
  - intros s Hin. apply Hs in Hin. cbn in Hin. case_bool_decide; [set_solver|done].
Qed.

Lemma syncs_clears dirs w : dirs <> [] -> (forall d, d ∈ unsynced w -> d ∈ dirs) ->
  survivors (syncs dirs w) = [] /\ unsynced (syncs dirs w) = [].
Proof.
  intros Hne Hsub. destruct (syncs_shrinks dirs w) as [Hu _].
  assert (unsynced (syncs dirs w) = []) as Hnil.
  { destruct (unsynced (syncs dirs w)) as [|d l] eqn:E; [done|]. exfalso.
    destruct (proj1 (Hu d) ltac:(left)) as [H1 H2]. by apply H2, Hsub. }
  split; [|done]. destruct dirs as [|d dirs _] using rev_ind; [done|].
  unfold syncs in *. rewrite foldl_app in *. cbn in *. by rewrite Hnil, bool_decide_eq_true_2.
Qed.

Lemma inert_confirm proof s : inert (confirm proof s).
Proof. unfold confirm. inert. Qed.

Lemma looks_confirm proof s : looks (confirm proof s) (fun w _ => visible w = s /\ proof s = Ok tt).
Proof.
  unfold confirm. eapply looks_bind; [apply inert_namespace|]. intros ?.
  eapply looks_bind; [apply looks_observe|]. intros fresh.
  eapply looks_bind; [apply looks_require|]. intros ?.
  eapply looks_bind; [apply looks_lift|]. intros [].
  eapply looks_weaken; [apply inert_namespace|]. intros w ? _ Hp Hs%bool_decide_eq_true -> _. by subst s.
Qed.

#[export] Hint Resolve inert_confirm : recovery.

Lemma triple_barriers X proof dirs s : forall P : machine -> Prop,
  (forall w l, P w -> X (syncs l w)) ->
  triple X P (barriers proof dirs s) (fun _ w => exists w0, P w0 /\ w = syncs dirs w0 /\ visible w = s /\ proof s = Ok tt).
Proof.
  induction dirs as [|d dirs IH]; intros P HX; cbn [barriers].
  - eapply triple_looks_then; [apply looks_confirm|intros w Hp; apply (HX w [] Hp)|]. intros [].
    apply triple_ret. intros w (Hp & Hv & Hs). eauto.
  - eapply triple_looks_then; [apply looks_confirm|intros w Hp; apply (HX w [] Hp)|]. intros [].
    eapply triple_bind; [apply triple_write|].
    + intros w [Hp _]. apply (HX w [] Hp).
    + intros w [Hp _]. apply (HX w [d] Hp).
    + intros []. eapply triple_conseq; [apply (IH (fun w => exists w0, P w0 /\ w = synced d w0))| |].
      * intros w l (w0 & Hp & ->). apply (HX w0 (d :: l) Hp).
      * intros w (w0 & [Hp _] & ->). eauto.
      * intros [] w (w1 & (w0 & Hp & ->) & -> & Hv & Hs). eauto.
Qed.

Lemma quiet_confirm proof w : proof (visible w) = Ok tt -> quiet (confirm proof (visible w)) w tt w.
Proof.
  intros Hp. unfold confirm. quiet. eapply quiet_bind; [apply quiet_require; by apply bool_decide_eq_true|].
  eapply quiet_bind; [by apply quiet_lift|]. quiet.
Qed.

Lemma quiet_barriers proof dirs w s : s = visible w -> proof s = Ok tt -> quiet (barriers proof dirs s) w tt (syncs dirs w).
Proof.
  revert w. induction dirs as [|d dirs IH]; intros w -> Hp; cbn [barriers].
  - eapply quiet_bind; [by apply quiet_confirm|]. apply quiet_ret.
  - eapply quiet_bind; [by apply quiet_confirm|]. eapply quiet_bind; [apply quiet_write|]. by apply IH.
Qed.

Lemma triple_attempt_once X (P : machine -> Prop) dirs move base admits :
  (forall w, P w -> X w) -> (forall w, P w -> X (moved dirs (move (visible w)) w)) ->
  triple X P (attempt_once dirs move base admits) (fun o w =>
    X w /\ match o with
           | Reconciliation.Applied fresh =>
               fresh = visible w /\ fresh <> base /\ admits fresh = true /\ (P w \/ exists w0, P w0 /\ w = moved dirs (move (visible w0)) w0)
           | _ => True
           end).
Proof.
  intros HX Hm. unfold attempt_once. eapply triple_bind; [apply triple_move|]. intros ?.
  assert (forall w, P w \/ (exists w0, P w0 /\ w = moved dirs (move (visible w0)) w0) -> X w) as HX'.
  { intros w [Hp|(w0 & Hp & ->)]; auto. }
  eapply triple_looks_then; [apply looks_attempt, looks_observe|done|]. intros fresh.
  apply triple_ret. intros w [Hp Hf]. split; [by apply HX'|]. unfold classify. destruct fresh as [s|e]; [|done].
  rewrite (Hf s eq_refl) in *. case_bool_decide as Hs; [done|]. by destruct (admits _) eqn:?.
Qed.

Lemma quiet_attempt_once dirs move base admits w :
  move (visible w) <> base -> admits (move (visible w)) = true ->
  quiet (attempt_once dirs move base admits) w (Reconciliation.Applied (move (visible w))) (moved dirs (move (visible w)) w).
Proof.
  intros Hne Ha. unfold attempt_once. quiet. unfold classify. cbn [moved visible]. rewrite bool_decide_eq_false_2 by done. rewrite Ha. apply quiet_ret.
Qed.

Section effects.
Context {D N : Type} `{EqDecision D} `{EqDecision N}.
Context (r : TransitionRecord) (read : recovery D) (exact : D -> bool) (plan : N -> bool)
  (proof : NamespaceFingerprint -> result RecoveryError.t unit).
Context (Hread : inert read).

Lemma triple_complete_durability X (P : machine -> Prop) dirs a s : (forall w l, P w -> X (syncs l w)) ->
  triple X P (complete_durability r read exact plan proof dirs a s)
    (fun _ w => exists w0, P w0 /\ w = syncs dirs w0 /\ visible w = s /\ proof s = Ok tt).
Proof using Hread.
  intros HX. apply triple_surrounded; [done|intros w Hp; apply (HX w [] Hp)| |by apply triple_barriers].
  intros [] w (w0 & Hp & -> & _). by apply HX.
Qed.

Lemma triple_persist_outcome X (P : machine -> Prop) a s outcome expected : (forall w, P w -> X w) ->
  (forall w next, P w -> rollback_successor (Some outcome) r = Ok next -> phase next = expected -> m_journal w = Some r ->
    advances r next -> X (with_journal (Some next) w)) ->
  triple X P (persist_outcome_and_reopen r read exact plan proof a s outcome expected) (fun _ w => X w).
Proof using Hread.
  intros HP Hn. unfold persist_outcome_and_reopen.
  assert (triple X P (revalidate_durable r read exact plan proof a s) (fun _ => P)) as Hrev.
  { apply triple_surrounded; [done|done|by intros ? ?; apply HP|].
    eapply triple_conseq; [apply (triple_looks X P); [apply inert_confirm|done]|done|by intros ? ? []]. }
  eapply triple_bind; [exact Hrev|]. intros [].
  eapply triple_bind; [exact Hrev|]. intros [].
  eapply triple_looks_then; [apply looks_lift|done|]. intros next.
  eapply triple_looks_then; [apply looks_require|by intros w [Hp _]; apply HP|]. intros ?.
  apply triple_publish; [by intros w [[Hp _] _]; apply HP|].
  intros w ((Hp & Hc) & He) Hj Had. apply bool_decide_eq_true in He. apply Hn; try done.
  by destruct (rollback_successor _ _); simplify_eq/=.
Qed.

Context (w : machine) (d : D) (n : N) (s : NamespaceFingerprint).
Context (Hj : m_journal w = Some r) (Hx : exact d = true) (Hp : plan n = true).
(** the database is read the same by a machine that only moved *)
Context (Hd : forall w', m_journal w' = m_journal w -> m_database w' = m_database w -> quiet read w' d w').

Let a := {| a_database := d; a_snapshot := s; a_namespace := n |}.

Lemma quiet_surrounded {A} (step : recovery A) w1 x w2 :
  m_journal w1 = m_journal w -> m_database w1 = m_database w -> m_journal w2 = m_journal w -> m_database w2 = m_database w ->
  quiet step w1 x w2 -> quiet (surrounded r read exact plan a step) w1 x w2.
Proof using Hj Hx Hp Hd.
  intros Hj1 Hd1 Hj2 Hd2 Hstep. unfold surrounded.
  eapply quiet_bind; [apply quiet_binding; congruence|].
  eapply quiet_bind; [apply quiet_surrounding; try done; [congruence|by apply Hd]|].
  eapply quiet_bind; [by apply quiet_attempt|].
  eapply quiet_bind; [apply quiet_attempt, quiet_surrounding; try done; [congruence|by apply Hd]|].
  eapply quiet_bind; [by apply quiet_lift|]. eapply quiet_bind; [by apply quiet_lift|]. apply quiet_ret.
Qed.

Lemma quiet_surrounded_attempt {A B} (prepare : recovery A) (step : A -> recovery B) w1 x w2 y w3 :
  m_journal w1 = m_journal w -> m_database w1 = m_database w -> m_journal w2 = m_journal w -> m_database w2 = m_database w ->
  m_journal w3 = m_journal w -> m_database w3 = m_database w ->
  quiet prepare w1 x w2 -> quiet (step x) w2 y w3 ->
  quiet (surrounded_attempt r read exact plan a prepare step) w1 y w3.
Proof using Hj Hx Hp Hd.
  intros Hj1 Hd1 Hj2 Hd2 Hj3 Hd3 Hprep Hstep. unfold surrounded_attempt.
  eapply quiet_bind; [apply quiet_binding; congruence|].
  eapply quiet_bind; [apply quiet_surrounding; try done; [congruence|by apply Hd]|].
  eapply quiet_bind; [by apply quiet_attempt|]. by apply quiet_surrounded.
Qed.

Lemma quiet_complete_durability dirs fresh w1 :
  m_journal w1 = m_journal w -> m_database w1 = m_database w -> fresh = visible w1 -> proof fresh = Ok tt ->
  quiet (complete_durability r read exact plan proof dirs a fresh) w1 tt (syncs dirs w1).
Proof using Hj Hx Hp Hd.
  intros Hj1 Hd1 Hf Hpr. destruct (syncs_keeps dirs w1) as (E1 & E2 & _).
  apply quiet_surrounded; try congruence. by apply quiet_barriers.
Qed.

Lemma quiet_persist_outcome fresh w1 outcome next :
  m_journal w1 = m_journal w -> m_database w1 = m_database w -> fresh = visible w1 -> proof fresh = Ok tt ->
  rollback_successor (Some outcome) r = Ok next -> advances r next ->
  quiet (persist_outcome_and_reopen r read exact plan proof a fresh outcome (phase next)) w1 next (with_journal (Some next) w1).
Proof using Hj Hx Hp Hd.
  intros Hj1 Hd1 -> Hpr Hs Had. unfold persist_outcome_and_reopen.
  assert (quiet (revalidate_durable r read exact plan proof a (visible w1)) w1 tt w1) as Hrev.
  { apply quiet_surrounded; try congruence. by apply quiet_confirm. }
  eapply quiet_bind; [exact Hrev|]. eapply quiet_bind; [exact Hrev|]. rewrite Hs.
  eapply quiet_bind; [by apply quiet_lift|]. eapply quiet_bind; [apply quiet_require; by apply bool_decide_eq_true|].
  apply quiet_publish; [congruence|done].
Qed.
End effects.
