(* ===== verification/Arrangements.v ===== *)
(** * Arrangements of the two trees

    The arrangements a new state and its rollback leave: exchanged, staged with or without
    a quarantine, preserved; and what each part of recovery makes of them.  A snapshot is
    split at the staging wrapper and at the quarantine of the transition; every other
    wrapper is a stranger to the transition. *)

From S2P Require Import Prelude ByteStrings JournalModel JournalValidation JournalMachine JournalSuccessors Namespace NamespaceMoves StartupMachine StartupPlans.

(** ** Arrangements *)

Module Quarantine.
Inductive t := Missing | Residue | Empty.
#[global] Instance t_eq_dec : EqDecision t.
Proof. solve_decision. Defined.
End Quarantine.

Module Arrangement.
Inductive t := Exchanged | Staged (quarantine : Quarantine.t) | Preserved.
#[global] Instance t_eq_dec : EqDecision t.
Proof. solve_decision. Defined.
End Arrangement.

(** A wrapper that has nothing to do with the transition *)
Record stranger (r : TransitionRecord) (w : WrapperFingerprint) : Prop := {
  sg_staging : role w <> TreeLocation.Staging;
  sg_quarantine : role w <> TreeLocation.TransitionQuarantine;
  sg_name : name w <> bstr "staging";
  sg_trees : forall u, usr w = Some u -> token u <> candidate_token r /\ token u <> previous_token r;
  sg_parking : is_parking w = false;
  sg_alias : current_state_alias r w = None;
}.

Record parts := {
  before_staging : list WrapperFingerprint;
  staging : WrapperFingerprint;
  after_staging : list WrapperFingerprint;
  before_target : list WrapperFingerprint;
  target : option WrapperFingerprint;
  after_target : list WrapperFingerprint;
  the_candidate : UsrFingerprint;
  the_previous : UsrFingerprint;
}.

(** A wrapper that holds nothing, or only a tree *)
Definition bare (w : WrapperFingerprint) : Prop := usr w = None /\ entries w = [].
Definition holds (w : WrapperFingerprint) (u : UsrFingerprint) : Prop :=
  usr w = Some u /\ entries w = [(bstr "usr", directory u)].

Definition placed (a : Arrangement.t) (s : NamespaceFingerprint) (x : parts) : Prop :=
  match a with
  | Arrangement.Exchanged =>
      live s = the_candidate x /\ holds (staging x) (the_previous x)
      /\ location (the_candidate x) = TreeLocation.Live /\ location (the_previous x) = TreeLocation.Staging
      /\ target x = None /\ new_state_target_residue s = None
  | Arrangement.Staged q =>
      live s = the_previous x /\ holds (staging x) (the_candidate x)
      /\ location (the_candidate x) = TreeLocation.Staging /\ location (the_previous x) = TreeLocation.Live
      /\ match q with
         | Quarantine.Missing => target x = None /\ new_state_target_residue s = None
         | Quarantine.Residue => target x = None /\ is_Some (new_state_target_residue s)
         | Quarantine.Empty => (exists t, target x = Some t /\ bare t) /\ new_state_target_residue s = None
         end
  | Arrangement.Preserved =>
      live s = the_previous x /\ bare (staging x)
      /\ location (the_candidate x) = TreeLocation.TransitionQuarantine /\ location (the_previous x) = TreeLocation.Live
      /\ (exists t, target x = Some t /\ holds t (the_candidate x)) /\ new_state_target_residue s = None
  end.

(** The quarantine of a transition *)
Record quarantined (r : TransitionRecord) (t : WrapperFingerprint) : Prop := {
  qt_role : role t = TreeLocation.TransitionQuarantine;
  qt_name : name t = quarantine_text (quarantine_name r);
  qt_private : has_exact_private_permissions t = true;
  qt_slot : slot t = None;
}.

(** The trees the record names *)
Record named (r : TransitionRecord) (s : NamespaceFingerprint) (c p : UsrFingerprint) : Prop := {
  nm_candidate : token c = candidate_token r;
  nm_previous : token p = previous_token r;
  nm_links : w_links (marker c) = 1%Z;
  nm_state : previous_state_id_matches (PreviousStateIdExpectation.Exact (prev_id (previous r))) (state_id_observation p) = true;
  nm_runtime : epoch s = creation_epoch r ->
    runtime c = cand_usr_runtime_identity (candidate r) /\ runtime p = prev_usr_runtime_identity (previous r);
}.

Record arranged (r : TransitionRecord) (a : Arrangement.t) (s : NamespaceFingerprint) (x : parts) : Prop := {
  ar_roots : roots_entries s = before_staging x ++ staging x :: after_staging x;
  ar_quarantine : quarantine_entries s = before_target x ++ option_list (target x) ++ after_target x;
  ar_roots_strangers : Forall (stranger r) (before_staging x ++ after_staging x);
  ar_quarantine_strangers : Forall (stranger r) (before_target x ++ after_target x);
  ar_staging : role (staging x) = TreeLocation.Staging /\ name (staging x) = bstr "staging" /\ slot (staging x) = None;
  ar_target : forall t, target x = Some t -> quarantined r t;
  ar_residue : forall e, new_state_target_residue s = Some e -> residue_name e = quarantine_text (quarantine_name r);
  ar_placed : placed a s x;
  ar_named : named r s (the_candidate x) (the_previous x);
  ar_isolation : is_complete (isolation_abi s) = true;
}.

(** ** Lists *)

Lemma filter_all_false {A} (f : A -> bool) l : Forall (fun x => f x = false) l -> List.filter f l = [].
Proof. induction 1 as [|x l Hx _ IH]; [done|]. cbn. by rewrite Hx. Qed.

Lemma filter_every {A} (f : A -> bool) l : Forall (fun x => f x = true) l -> List.filter f l = l.
Proof. induction 1 as [|x l Hx _ IH]; [done|]. cbn. by rewrite Hx, IH. Qed.

Lemma existsb_none {A} (f : A -> bool) l : Forall (fun x => f x = false) l -> existsb f l = false.
Proof. induction 1 as [|x l Hx _ IH]; [done|]. cbn. by rewrite Hx. Qed.

Lemma find_filter {A} (f : A -> bool) l : List.find f l = head (List.filter f l).
Proof. induction l as [|x l IH]; [done|]. cbn. by destruct (f x). Qed.

Lemma omap_app {A B} (f : A -> option B) l k : omap f (l ++ k) = omap f l ++ omap f k.
Proof. induction l as [|x l IH]; [done|]. cbn. rewrite IH. by destruct (f x). Qed.

Lemma omap_all_none {A B} (f : A -> option B) l : Forall (fun x => f x = None) l -> omap f l = [].
Proof. induction 1 as [|x l Hx _ IH]; [done|]. cbn. by rewrite Hx. Qed.

Lemma filter_decide {A} (P : A -> Prop) `{forall x, Decision (P x)} l : List.filter (fun x => bool_decide (P x)) l = filter P l.
Proof. induction l as [|x l IH]; [done|]. rewrite filter_cons. cbn. case_bool_decide; case_decide; by rewrite ?IH. Qed.

(** Decide what is plain. *)
Ltac decide_plain := cbn; repeat (match goal with
  | |- context [bool_decide ?P] => first
      [ rewrite (bool_decide_eq_true_2 P) by (done || eauto) | rewrite (bool_decide_eq_false_2 P) by done ]
  end; cbn).

(** ** Strangers *)

Section arranged.
Context (r : TransitionRecord) (a : Arrangement.t) (s : NamespaceFingerprint) (x : parts).
Context (Ha : arranged r a s x).

Abbreviation l1 := (before_staging x).
Abbreviation l2 := (after_staging x).
Abbreviation q1 := (before_target x).
Abbreviation q2 := (after_target x).

Lemma strangers_each : Forall (stranger r) l1 /\ Forall (stranger r) l2 /\ Forall (stranger r) q1 /\ Forall (stranger r) q2.
Proof using Ha.
  pose proof (ar_roots_strangers _ _ _ _ Ha) as [? ?]%Forall_app.
  pose proof (ar_quarantine_strangers _ _ _ _ Ha) as [? ?]%Forall_app. done.
Qed.

Lemma wrappers_split : wrappers s = l1 ++ staging x :: l2 ++ q1 ++ option_list (target x) ++ q2.
Proof using Ha. unfold wrappers. rewrite (ar_roots _ _ _ _ Ha), (ar_quarantine _ _ _ _ Ha), <- app_assoc. done. Qed.

(** A predicate that strangers fail selects among the two wrappers of the transition. *)
Lemma filter_wrappers f : (forall w, stranger r w -> f w = false) ->
  List.filter f (wrappers s) = List.filter f [staging x] ++ List.filter f (option_list (target x)).
Proof using Ha.
  intros Hf. destruct strangers_each as (H1 & H2 & H3 & H4). rewrite wrappers_split.
  assert (forall l, Forall (stranger r) l -> List.filter f l = []) as Hn.
  { intros l Hl. apply filter_all_false. eapply Forall_impl; [exact Hl|done]. }
  rewrite List.filter_app. cbn [List.filter]. rewrite !List.filter_app, (Hn l1), (Hn l2), (Hn q1), (Hn q2) by done. cbn.
  rewrite app_nil_r. by destruct (f (staging x)).
Qed.

Lemma filter_quarantine f : (forall w, stranger r w -> f w = false) ->
  List.filter f (quarantine_entries s) = List.filter f (option_list (target x)).
Proof using Ha.
  intros Hf. destruct strangers_each as (_ & _ & H3 & H4). rewrite (ar_quarantine _ _ _ _ Ha), !List.filter_app.
  rewrite (filter_all_false f q1), (filter_all_false f q2) by (eapply Forall_impl; [eassumption|done]). by rewrite app_nil_r.
Qed.

Lemma filter_roots f : (forall w, stranger r w -> f w = false) ->
  List.filter f (roots_entries s) = List.filter f [staging x].
Proof using Ha.
  intros Hf. destruct strangers_each as (H1 & H2 & _). rewrite (ar_roots _ _ _ _ Ha), List.filter_app. cbn.
  rewrite (filter_all_false f l1), (filter_all_false f l2) by (eapply Forall_impl; [eassumption|done]). done.
Qed.

(** What is left without the wrappers of the transition *)
Lemma others_quarantine f : (forall w, stranger r w -> f w = true) -> (forall t, target x = Some t -> f t = false) ->
  List.filter f (quarantine_entries s) = q1 ++ q2.
Proof using Ha.
  intros Hf Ht. destruct strangers_each as (_ & _ & H3 & H4). rewrite (ar_quarantine _ _ _ _ Ha), !List.filter_app.
  rewrite (filter_every f q1), (filter_every f q2) by (eapply Forall_impl; [eassumption|done]).
  destruct (target x) as [t|]; [|done]. cbn. by rewrite (Ht t).
Qed.

Lemma others_roots f : (forall w, stranger r w -> f w = true) -> f (staging x) = false ->
  List.filter f (roots_entries s) = l1 ++ l2.
Proof using Ha.
  intros Hf Ht. destruct strangers_each as (H1 & H2 & _). rewrite (ar_roots _ _ _ _ Ha), List.filter_app. cbn. rewrite Ht.
  rewrite (filter_every f l1), (filter_every f l2) by (eapply Forall_impl; [eassumption|done]). done.
Qed.

Lemma trees_of_strangers l t : Forall (stranger r) l -> t = candidate_token r \/ t = previous_token r ->
  filter (fun u => token u = t) (omap usr l) = [].
Proof using.
  intros Hl Ht.
  induction Hl as [|w l Hw _ IH]; [done|]. cbn. destruct (usr w) as [u|] eqn:Hu; [|done].
  destruct (sg_trees _ _ Hw u Hu). rewrite filter_cons_False; [done|]. intros E. destruct Ht; congruence.
Qed.

(** Every tree with a token of the transition is live, staged, or in its quarantine. *)
Lemma trees_for t : t = candidate_token r \/ t = previous_token r ->
  trees_for_token s t =
  filter (fun u => token u = t) (live s :: option_list (usr (staging x)) ++ option_list (target x ≫= usr)).
Proof using Ha.
  intros Ht. destruct strangers_each as (H1 & H2 & H3 & H4). unfold trees_for_token, trees. rewrite wrappers_split.
  assert (omap usr (l1 ++ staging x :: l2 ++ q1 ++ option_list (target x) ++ q2)
    = omap usr l1 ++ option_list (usr (staging x)) ++ omap usr l2 ++ omap usr q1 ++ option_list (target x ≫= usr) ++ omap usr q2) as ->.
  { rewrite omap_app. f_equal. cbn. rewrite !omap_app. destruct (usr (staging x)), (target x) as [w|]; try done; cbn; by destruct (usr w). }
  rewrite !filter_cons, !filter_app, (trees_of_strangers l1), (trees_of_strangers l2), (trees_of_strangers q1), (trees_of_strangers q2) by done.
  cbn [app]. by rewrite app_nil_r.
Qed.

(** ** The two trees *)

Context (Hdistinct : candidate_token r <> previous_token r).

(** The trees of the transition, in the order of the capture *)
Definition pair_of : list UsrFingerprint :=
  match a with
  | Arrangement.Exchanged => [the_candidate x; the_previous x]
  | _ => [the_previous x; the_candidate x]
  end.

Lemma trees_pair : live s :: option_list (usr (staging x)) ++ option_list (target x ≫= usr) = pair_of.
Proof using Ha.
  pose proof (ar_placed _ _ _ _ Ha) as Hp. unfold pair_of. destruct a as [|q|]; cbn in Hp.
  - destruct Hp as (-> & [-> _] & _ & _ & -> & _). done.
  - destruct Hp as (-> & [-> _] & _ & _ & Hq). destruct q; [destruct Hq as [-> _]; done..|].
    destruct Hq as [(t & -> & Ht & _) _]. cbn. by rewrite Ht.
  - destruct Hp as (-> & [-> _] & _ & _ & (t & -> & Ht & _) & _). cbn. by rewrite Ht.
Qed.

Lemma trees_candidate : trees_for_token s (candidate_token r) = [the_candidate x].
Proof using Ha Hdistinct.
  destruct (ar_named _ _ _ _ Ha) as [Hc Hp _ _ _]. rewrite trees_for, trees_pair by auto. unfold pair_of.
  destruct a; rewrite !filter_cons, Hc, Hp, filter_nil; repeat case_decide; congruence.
Qed.

Lemma trees_previous : trees_for_token s (previous_token r) = [the_previous x].
Proof using Ha Hdistinct.
  destruct (ar_named _ _ _ _ Ha) as [Hc Hp _ _ _]. rewrite trees_for, trees_pair by auto. unfold pair_of.
  destruct a; rewrite !filter_cons, Hc, Hp, filter_nil; repeat case_decide; congruence.
Qed.

(** ** Roles *)

Lemma stranger_is_role w : stranger r w ->
  is_role TreeLocation.Staging w = false /\ is_role TreeLocation.TransitionQuarantine w = false /\ is_named_staging w = false.
Proof using. intros []. unfold is_role, is_named_staging. rewrite !bool_decide_eq_false_2; done. Qed.

Lemma staging_is_role :
  is_role TreeLocation.Staging (staging x) = true /\ is_role TreeLocation.TransitionQuarantine (staging x) = false
  /\ is_named_staging (staging x) = true.
Proof using Ha. destruct (ar_staging _ _ _ _ Ha) as (E1 & E2 & _). unfold is_role, is_named_staging. by rewrite E1, E2. Qed.

Lemma target_is_role t : target x = Some t ->
  is_role TreeLocation.Staging t = false /\ is_role TreeLocation.TransitionQuarantine t = true.
Proof using Ha. intros Ht. destruct (ar_target _ _ _ _ Ha t Ht) as [E _ _ _]. unfold is_role. by rewrite E. Qed.

Lemma one_staging : List.filter (is_role TreeLocation.Staging) (wrappers s) = [staging x].
Proof using Ha.
  rewrite filter_wrappers by (intros w Hw; by apply stranger_is_role). cbn. rewrite (proj1 staging_is_role).
  destruct (target x) as [t|] eqn:Ht; [|done]. cbn. by rewrite (proj1 (target_is_role t Ht)).
Qed.

Lemma only_target : List.filter (is_role TreeLocation.TransitionQuarantine) (wrappers s) = option_list (target x).
Proof using Ha.
  rewrite filter_wrappers by (intros w Hw; by apply stranger_is_role). cbn. destruct staging_is_role as (_ & -> & _).
  destruct (target x) as [t|] eqn:Ht; [|done]. cbn. by rewrite (proj2 (target_is_role t Ht)).
Qed.

Lemma only_target_quarantine :
  List.filter (is_role TreeLocation.TransitionQuarantine) (quarantine_entries s) = option_list (target x).
Proof using Ha.
  rewrite filter_quarantine by (intros w Hw; by apply stranger_is_role).
  destruct (target x) as [t|] eqn:Ht; [|done]. cbn. by rewrite (proj2 (target_is_role t Ht)).
Qed.

Lemma no_quarantine : existsb (is_role TreeLocation.TransitionQuarantine) (wrappers s) = bool_decide (is_Some (target x)).
Proof using Ha.
  destruct (existsb _ _) eqn:E.
  - apply existsb_exists in E as (w & Hin & Hw). assert (w ∈ option_list (target x)) as Hin'.
    { rewrite <- only_target. apply list_elem_of_In, filter_In. done. }
    destruct (target x); [done|]. by apply not_elem_of_nil in Hin'.
  - destruct (target x) as [t|] eqn:Ht; [|done]. exfalso.
    assert (t ∈ List.filter (is_role TreeLocation.TransitionQuarantine) (wrappers s)) as Hin.
    { rewrite only_target, Ht. cbn. left. }
    apply list_elem_of_In, filter_In in Hin as [Hin Hr].
    assert (existsb (is_role TreeLocation.TransitionQuarantine) (wrappers s) = true) by (apply existsb_exists; eauto). congruence.
Qed.

(** ** The assessment *)

Context (Hop : operation r = NewState).

Definition layout_of (a : Arrangement.t) : LayoutAlternative :=
  match a with
  | Arrangement.Exchanged => POST_EXCHANGE
  | Arrangement.Staged _ => PRE_EXCHANGE
  | Arrangement.Preserved => PRESERVED
  end.

Lemma arranged_matches : layout_matches r (the_candidate x) (Some (the_previous x)) (layout_of a) = true.
Proof using Ha Hop.
  pose proof (ar_placed _ _ _ _ Ha) as Hp. unfold layout_matches. destruct a as [|q|]; cbn in Hp |- *.
  - by destruct Hp as (_ & _ & -> & -> & _).
  - by destruct Hp as (_ & _ & -> & -> & _).
  - unfold candidate_destination. rewrite Hop. by destruct Hp as (_ & _ & -> & -> & _).
Qed.

Lemma arranged_wrappers : require_fixed_wrapper_layout r s (layout_of a) (the_candidate x) = Ok tt.
Proof using Ha Hop.
  pose proof (ar_placed _ _ _ _ Ha) as Hp. destruct (ar_named _ _ _ _ Ha) as [Hc Hpr _ _ _].
  unfold require_fixed_wrapper_layout. rewrite (find_filter (fun w => bool_decide (role w = TreeLocation.Staging))).
  change (fun w => bool_decide (role w = TreeLocation.Staging)) with (is_role TreeLocation.Staging). rewrite one_staging.
  change (fun w => bool_decide (role w = TreeLocation.TransitionQuarantine)) with (is_role TreeLocation.TransitionQuarantine).
  rewrite only_target, Hop. cbn [head ok_or mbind result_bind]. unfold wrapper_tree_token.
  destruct a as [|q|]; cbn in Hp.
  - destruct Hp as (_ & [-> _] & -> & _ & -> & _). unfold expected_token_at. cbn. rewrite Hpr. by decide_plain.
  - destruct Hp as (_ & [-> _] & -> & _ & Hq). unfold expected_token_at. cbn. rewrite Hc.
    destruct q; [by destruct Hq as [-> _]; decide_plain..|]. destruct Hq as [(t & -> & Ht & _) _]. cbn. rewrite Ht. by decide_plain.
  - destruct Hp as (_ & [-> _] & -> & _ & (t & -> & Ht & _) & _). unfold expected_token_at. cbn. rewrite Ht. cbn. rewrite Hc.
    by decide_plain.
Qed.

(** The record begins or goes on with a rollback. *)
Definition rolls_back : Prop :=
  is_Some (rollback r) \/ exists p, recovery_disposition r = RecoveryDisposition.BeginRollback p.

Lemma arranged_assess alts : rolls_back -> expected_layouts r = Ok alts -> layout_of a ∈ alts ->
  (root_abi_must_be_complete r = true -> is_complete (root_abi s) = true) ->
  assess_snapshot_layout r s = Ok (layout_of a).
Proof using Ha Hop Hdistinct.
  intros Hrb Halts Hin Habi. eapply (accepted_assess _ _ _ (the_candidate x) (Some (the_previous x))). split.
  - apply trees_candidate.
  - apply trees_previous.
  - eauto.
  - apply arranged_matches.
  - apply arranged_wrappers.
  - unfold require_state_ids, candidate_state_id_expectation, previous_state_id_expectation. rewrite Hop.
    assert (bool_decide (is_Some (rollback r))
      || match recovery_disposition r with RecoveryDisposition.BeginRollback _ => true | _ => false end = true) as ->.
    { destruct Hrb as [Hs|(p & ->)]; [by rewrite bool_decide_eq_true_2|by rewrite orb_true_r]. }
    rewrite (bool_decide_eq_false_2 (NewState = ActiveReblit)) by done.
    cbn -[previous_state_id_matches]. by rewrite (nm_state _ _ _ _ (ar_named _ _ _ _ Ha)).
  - unfold require_runtime. case_bool_decide as He; [|done].
    destruct (nm_runtime _ _ _ _ (ar_named _ _ _ _ Ha) He) as [-> ->]. by rewrite !bool_decide_eq_true_2.
  - done.
  - intros _. apply (ar_isolation _ _ _ _ Ha).
Qed.

(** ** Topologies *)

Definition topology_in (q : Quarantine.t) : Topology.t :=
  match q with
  | Quarantine.Missing => Topology.NewStateStaged
  | Quarantine.Residue => Topology.NewStateStagedWithTargetResidue
  | Quarantine.Empty => Topology.NewStateStagedWithEmptyQuarantine
  end.

Definition topology_at (a : Arrangement.t) : option Topology.t :=
  match a with
  | Arrangement.Exchanged => None
  | Arrangement.Staged q => Some (topology_in q)
  | Arrangement.Preserved => Some Topology.NewStatePreserved
  end.

Lemma holds_contains w u : holds w u -> wrapper_contains w u = true.
Proof using. intros [Hu _]. unfold wrapper_contains. by rewrite bool_decide_eq_true_2. Qed.

Lemma no_slot w : slot w = None -> slot_identity w = None.
Proof using. unfold slot_identity. by intros ->. Qed.

Lemma bare_empty w : bare w -> slot w = None -> wrapper_is_empty w = true.
Proof using. intros [Hu _] Hs. unfold wrapper_is_empty. by rewrite Hu, no_slot. Qed.

Lemma arranged_new_state_topology : 
  ok_or (topology_at a) TopologyError.TopologyMismatch =
  new_state_topology (the_candidate x) (staging x) (target x) (bool_decide (is_Some (new_state_target_residue s))).
Proof using Ha.
  pose proof (ar_placed _ _ _ _ Ha) as Hp. destruct (ar_staging _ _ _ _ Ha) as (_ & _ & Hslot).
  unfold new_state_topology. rewrite (nm_links _ _ _ _ (ar_named _ _ _ _ Ha)). cbn -[bool_decide].
  rewrite (no_slot _ Hslot). destruct a as [|q|]; cbn in Hp.
  - by destruct Hp as (_ & _ & -> & _).
  - destruct Hp as (_ & Hh & -> & _ & Hq). rewrite (holds_contains _ _ Hh). destruct q; cbn.
    + by destruct Hq as [-> ->].
    + destruct Hq as [-> Hs]. by rewrite (bool_decide_eq_true_2 _ Hs).
    + destruct Hq as [(t & Ht & Hb) ->]. rewrite Ht. destruct (ar_target _ _ _ _ Ha t Ht) as [_ _ -> Hts].
      by rewrite bare_empty.
  - destruct Hp as (_ & Hb & -> & _ & (t & Ht & Hh) & ->). rewrite Ht, (bare_empty _ Hb Hslot), (holds_contains _ _ Hh).
    destruct (ar_target _ _ _ _ Ha t Ht) as [_ _ -> Hts]. by rewrite (no_slot _ Hts).
Qed.

Lemma wrappers_of_strangers (P : WrapperFingerprint -> Prop) :
  (forall w, stranger r w -> P w) -> P (staging x) -> (forall t, target x = Some t -> P t) -> Forall P (wrappers s).
Proof using Ha.
  intros Hf Hst Ht. destruct strangers_each as (H1 & H2 & H3 & H4). rewrite wrappers_split.
  apply Forall_app. split; [by eapply Forall_impl|]. apply Forall_cons. split; [done|]. rewrite !Forall_app.
  split_and!; try by eapply Forall_impl. destruct (target x); [|done]. apply Forall_cons. auto.
Qed.

Lemma find_candidate : List.find (fun t => bool_decide (token t = candidate_token r)) (trees s) = Some (the_candidate x).
Proof using Ha Hdistinct.
  rewrite find_filter, (filter_decide (fun t => token t = candidate_token r)).
  pose proof trees_candidate as Ht. unfold trees_for_token in Ht. by rewrite Ht.
Qed.

Lemma arranged_topology : is_ok (assess_snapshot_layout r s) = true ->
  topology r s = ok_or (topology_at a) TopologyError.TopologyMismatch.
Proof using Ha Hop Hdistinct.
  intros Hok. destruct (assess_snapshot_layout r s) as [l|] eqn:Hl; [|done]. clear Hok.
  rewrite arranged_new_state_topology. unfold topology. rewrite Hl, Hop. cbn -[bool_decide trees].
  destruct (ar_staging _ _ _ _ Ha) as (Hrole & _ & _).
  rewrite existsb_none; [|apply wrappers_of_strangers; [intros w Hw; exact (sg_parking _ _ Hw)|unfold is_parking; by rewrite Hrole|]].
  2: { intros t Ht. destruct (ar_target _ _ _ _ Ha t Ht) as [Et _ _ _]. unfold is_parking. by rewrite Et. }
  unfold require_current_state_wrapper_scope.
  rewrite (omap_all_none (current_state_alias r)); [|apply wrappers_of_strangers; [intros w Hw; exact (sg_alias _ _ Hw)|unfold current_state_alias; by rewrite Hrole|]].
  2: { intros t Ht. destruct (ar_target _ _ _ _ Ha t Ht) as [Et _ _ _]. unfold current_state_alias. by rewrite Et. }
  rewrite andb_false_r. cbn [reject_if mbind result_bind head].
  rewrite find_candidate. unfold one_wrapper. rewrite one_staging, only_target. by destruct (target x).
Qed.

(** ** The reverse exchange *)

Definition reverse_projection (layout : UsrExchangeLayout.t) : ProjectedReverseNamespace :=
  {| rx_layout := layout;
     rx_invariant :=
       {| rx_root_parent := stable_inode (root s); rx_staging_parent := stable_inode (witness (staging x));
          rx_roots := roots s; rx_quarantine := quarantine s; rx_epoch := epoch s;
          rx_candidate := semantic_usr (the_candidate x); rx_previous := semantic_usr (the_previous x);
          rx_root_abi := root_abi s; rx_isolation_abi := isolation_abi s;
          rx_other_root_wrappers := l1 ++ l2; rx_quarantine_wrappers := quarantine_entries s |} |}.

Definition exchange_of (a : Arrangement.t) : option UsrExchangeLayout.t :=
  match a with
  | Arrangement.Exchanged => Some UsrExchangeLayout.Post
  | Arrangement.Staged _ => Some UsrExchangeLayout.Pre
  | Arrangement.Preserved => None
  end.

Lemma arranged_reverse layout : exchange_of a = Some layout -> project_reverse s r = Ok (reverse_projection layout).
Proof using Ha Hdistinct.
  intros Hx. pose proof (ar_placed _ _ _ _ Ha) as Hp. destruct (ar_named _ _ _ _ Ha) as [Hc Hpr _ _ _].
  destruct (ar_staging _ _ _ _ Ha) as (Hrole & _ & Hslot). destruct staging_is_role as (_ & _ & Hname).
  unfold project_reverse, exact_tree_for_token, exact_staging_wrapper.
  rewrite trees_candidate, trees_previous, (bool_decide_eq_false_2 (candidate_token r = previous_token r)) by done.
  cbn [reject_if mbind result_bind].
  rewrite (filter_roots is_named_staging) by (intros w Hw; by apply stranger_is_role). cbn [List.filter]. rewrite Hname, Hrole.
  rewrite (others_roots (fun w => negb (is_named_staging w)))
    by (try (intros w Hw; apply stranger_is_role in Hw as (_ & _ & ->)); by rewrite ?Hname).
  rewrite (bool_decide_eq_true_2 (TreeLocation.Staging = TreeLocation.Staging)) by done.
  cbn [mbind result_bind]. unfold exact_staging_usr. destruct a as [|q|]; cbn in Hp, Hx; simplify_eq.
  - destruct Hp as (-> & [-> ->] & -> & Hl & _). rewrite Hslot. by decide_plain.
  - destruct Hp as (-> & [-> ->] & Hl & -> & _). rewrite Hslot. decide_plain.
    rewrite bool_decide_eq_false_2; [done|]. intros []. congruence.
Qed.

(** ** The quarantine *)

Lemma arranged_target q : a = Arrangement.Staged q ->
  target_layout s r =
  Ok match q with
     | Quarantine.Missing => (TargetLayout.Absent, None)
     | Quarantine.Residue => (TargetLayout.RestrictiveResidue, residue_witness <$> new_state_target_residue s)
     | Quarantine.Empty => (TargetLayout.EmptyPrivate, witness <$> target x)
     end.
Proof using Ha.
  intros E. pose proof (ar_placed _ _ _ _ Ha) as Hp. rewrite E in Hp. destruct Hp as (_ & _ & _ & _ & Hq).
  unfold target_layout. rewrite only_target_quarantine. destruct q.
  - by destruct Hq as [-> ->].
  - destruct Hq as [-> [e He]]. rewrite He. cbn. rewrite bool_decide_eq_true_2; [done|]. by apply (ar_residue _ _ _ _ Ha).
  - destruct Hq as [(t & Ht & Hu & He) ->]. rewrite Ht. cbn. destruct (ar_target _ _ _ _ Ha t Ht) as [_ -> -> Hs].
    unfold wrapper_is_bare. rewrite Hu, He, Hs. by rewrite !bool_decide_eq_true_2.
Qed.

Definition preserve_projection (layout : NewStatePreserveLayout.t) (t : WrapperFingerprint) : ProjectedNewStatePreserve :=
  {| np_layout := layout;
     np_invariant :=
       {| np_root := root s; np_roots := roots s; np_quarantine := quarantine s; np_epoch := epoch s;
          np_live := live s; np_root_abi := root_abi s; np_isolation_abi := isolation_abi s;
          np_candidate := semantic_usr (the_candidate x); np_staging_parent := mutable_parent (witness (staging x));
          np_target_parent := mutable_parent (witness t);
          np_other_root_wrappers := l1 ++ l2; np_other_quarantine_wrappers := q1 ++ q2 |} |}.

Definition preserve_layout_of (a : Arrangement.t) : option NewStatePreserveLayout.t :=
  match a with
  | Arrangement.Staged Quarantine.Empty => Some NewStatePreserveLayout.StagedWithEmptyQuarantine
  | Arrangement.Preserved => Some NewStatePreserveLayout.Preserved
  | _ => None
  end.

Lemma holds_only w u : holds w u -> slot w = None -> wrapper_contains_only w u = true.
Proof using. intros [Hu He] Hs. unfold wrapper_contains_only. rewrite Hu, He, Hs. by rewrite !bool_decide_eq_true_2. Qed.

Lemma bare_is_bare w : bare w -> slot w = None -> wrapper_is_bare w = true.
Proof using. intros [Hu He] Hs. unfold wrapper_is_bare. rewrite Hu, He, Hs. by rewrite !bool_decide_eq_true_2. Qed.

Lemma arranged_preserve layout : phase r = Phase.CandidatePreserveIntent -> preserve_layout_of a = Some layout ->
  exists t, target x = Some t /\ project_preserve s r = Ok (preserve_projection layout t).
Proof using Ha Hop Hdistinct.
  intros Hph Hl. pose proof (ar_placed _ _ _ _ Ha) as Hp. destruct (ar_staging _ _ _ _ Ha) as (Hrole & _ & Hslot).
  assert (exists t, target x = Some t) as [t Ht].
  { destruct a as [|[]|]; try done; [destruct Hp as (_ & _ & _ & _ & (t & Ht & _) & _)|destruct Hp as (_ & _ & _ & _ & (t & Ht & _) & _)]; eauto. }
  exists t. split; [done|]. destruct (ar_target _ _ _ _ Ha t Ht) as [Htr Htn Htp Hts].
  destruct staging_is_role as (Hs1 & _). destruct (target_is_role t Ht) as [_ Hs2].
  unfold project_preserve, exact_wrapper. rewrite trees_candidate, only_target_quarantine, Ht.
  rewrite (filter_roots (is_role TreeLocation.Staging)) by (intros w Hw; by apply stranger_is_role). cbn [List.filter]. rewrite Hs1.
  rewrite Hop, Hph. rewrite !(bool_decide_eq_true_2 (_ = _)) by done. cbn [negb reject_if mbind result_bind].
  rewrite (nm_links _ _ _ _ (ar_named _ _ _ _ Ha)). cbn [Z.eqb Pos.eqb negb reject_if mbind result_bind].
  change (option_list (Some t)) with [t]. cbn [mbind result_bind]. rewrite Htn, Htp.
  rewrite (others_roots (fun w => negb (is_role TreeLocation.Staging w)))
    by (try (intros w Hw; apply stranger_is_role in Hw as (-> & _)); by rewrite ?Hs1).
  rewrite (others_quarantine (fun w => negb (is_role TreeLocation.TransitionQuarantine w)));
    [|intros w Hw; by apply stranger_is_role in Hw as (_ & -> & _)|intros t' Ht'; by apply target_is_role in Ht' as [_ ->]].
  rewrite (bool_decide_eq_true_2 (quarantine_text _ = _)) by done. cbn -[bool_decide wrapper_contains_only wrapper_is_bare].
  destruct a as [|[]|]; simplify_eq/=.
  - destruct Hp as (_ & Hh & -> & _ & (t' & ? & Hb) & _). simplify_eq. rewrite holds_only, bare_is_bare by done. done.
  - destruct Hp as (_ & Hb & -> & _ & (t' & ? & Hh) & _). simplify_eq.
    rewrite (holds_only _ _ Hh), (bare_is_bare (staging x)) by done. done.
Qed.
End arranged.

(** A snapshot in an arrangement *)
Definition arrangement (r : TransitionRecord) (a : Arrangement.t) (s : NamespaceFingerprint) : Prop := exists x, arranged r a s x.

(** The arrangement is the same for every record of a transition whose candidate has its state. *)
Lemma arrangement_same r r' a s : same_transition r r' -> cand_id (candidate r) = cand_id (candidate r') ->
  arrangement r a s -> arrangement r' a s.
Proof.
  intros [] Hid (x & []). exists x.
  assert (candidate_token r = candidate_token r') as Hc by (unfold candidate_token; by rewrite st_candidate_token).
  assert (previous_token r = previous_token r') as Hp by (unfold previous_token; by rewrite st_previous).
  assert (forall w, stranger r w -> stranger r' w) as Hs.
  { intros w []. split; try done; rewrite <- ?Hc, <- ?Hp; try done. unfold current_state_alias in *. by rewrite <- st_previous, <- Hid, <- st_operation. }
  split; try done.
  - by eapply Forall_impl.
  - by eapply Forall_impl.
  - intros t Ht. destruct (ar_target0 t Ht). split; try done. by rewrite <- st_quarantine.
  - intros e He. rewrite <- st_quarantine. auto.
  - destruct ar_named0. split; rewrite <- ?Hc, <- ?Hp, <- ?st_previous, <- ?st_epoch, <- ?st_candidate_identity; done.
Qed.
