(* ===== verification/ArrangementMoves.v ===== *)
(** * What the movements do to an arrangement

    The documented effects of the system calls recovery makes, as laws of [FileSystem]: a
    movement changes the inodes and directories it names and nothing else, times apart.
    Under them every movement takes an arrangement to the next, and its evidence admits it. *)

From S2P Require Import Prelude ByteStrings JournalModel JournalValidation JournalMachine JournalSuccessors Namespace NamespaceMoves StartupMachine StartupPlans StartupHandlers Arrangements.

(** ** Effects *)

(** A wrapper that kept its name and role *)
Definition same_wrapper (w w' : WrapperFingerprint) : Prop := name w' = name w /\ role w' = role w /\ slot w' = slot w.

(** [renameat2(2)] with [RENAME_EXCHANGE] of [/usr] and the staged [usr] *)
Record exchange_effect (s : NamespaceFingerprint) l1 w l2 (u : UsrFingerprint) (s' : NamespaceFingerprint) : Prop := {
  xe_staging : exists w' v, roots_entries s' = l1 ++ w' :: l2 /\ same_wrapper w w' /\ holds w' v
    /\ stable_inode (witness w') = stable_inode (witness w)
    /\ semantic_usr v = semantic_usr (live s) /\ location v = TreeLocation.Staging;
  xe_live : semantic_usr (live s') = semantic_usr u /\ location (live s') = TreeLocation.Live;
  xe_root : stable_inode (root s') = stable_inode (root s);
  xe_roots : roots s' = roots s;
  xe_quarantine : quarantine s' = quarantine s /\ quarantine_entries s' = quarantine_entries s;
  xe_residue : new_state_target_residue s' = new_state_target_residue s;
  xe_epoch : epoch s' = epoch s;
  xe_abi : root_abi s' = root_abi s /\ isolation_abi s' = isolation_abi s;
}.

(** Everything but the quarantine *)
Record outside_quarantine (s s' : NamespaceFingerprint) : Prop := {
  oq_root : root s' = root s;
  oq_roots : roots s' = roots s;
  oq_epoch : epoch s' = epoch s;
  oq_live : live s' = live s;
  oq_abi : root_abi s' = root_abi s /\ isolation_abi s' = isolation_abi s;
}.

(** A quarantine as it is made *)
Record fresh_target (nm : bytes) (t : WrapperFingerprint) : Prop := {
  ft_role : role t = TreeLocation.TransitionQuarantine;
  ft_name : name t = nm;
  ft_private : has_exact_private_permissions t = true;
  ft_slot : slot t = None;
  ft_bare : bare t;
}.

(** [mkdirat(2)] with mode [0700], which the umask may restrict *)
Record creation_effect (nm : bytes) (s s' : NamespaceFingerprint) : Prop := {
  ce_target :
    (quarantine_entries s' = quarantine_entries s
     /\ exists e, new_state_target_residue s' = Some e /\ residue_name e = nm)
    \/ (new_state_target_residue s' = None
        /\ exists q1 t q2, quarantine_entries s = q1 ++ q2 /\ quarantine_entries s' = q1 ++ t :: q2 /\ fresh_target nm t);
  ce_quarantine : mutable_parent (quarantine s') = mutable_parent (quarantine s);
  ce_roots : roots_entries s' = roots_entries s;
  ce_outside : outside_quarantine s s';
}.

(** [fchmod(2)] of the residue *)
Record normalization_effect (e : TargetResidueFingerprint) (s s' : NamespaceFingerprint) : Prop := {
  ne_target : exists q1 t q2, quarantine_entries s = q1 ++ q2 /\ quarantine_entries s' = q1 ++ t :: q2
    /\ fresh_target (residue_name e) t /\ stable_residue (witness t) = stable_residue (residue_witness e);
  ne_residue : new_state_target_residue s' = None;
  ne_quarantine : quarantine s' = quarantine s;
  ne_roots : roots_entries s' = roots_entries s;
  ne_outside : outside_quarantine s s';
}.

(** [renameat2(2)] with [RENAME_NOREPLACE] of the staged [usr] into the quarantine *)
Record preservation_effect (s : NamespaceFingerprint) l1 w l2 (u : UsrFingerprint) q1 t q2 (s' : NamespaceFingerprint) : Prop := {
  pe_parts : exists w' t' v, roots_entries s' = l1 ++ w' :: l2 /\ quarantine_entries s' = q1 ++ t' :: q2
    /\ same_wrapper w w' /\ same_wrapper t t' /\ bare w' /\ holds t' v
    /\ mutable_parent (witness w') = mutable_parent (witness w) /\ mutable_parent (witness t') = mutable_parent (witness t)
    /\ semantic_usr v = semantic_usr u /\ location v = TreeLocation.TransitionQuarantine;
  pe_residue : new_state_target_residue s' = new_state_target_residue s;
  pe_quarantine : quarantine s' = quarantine s;
  pe_outside : outside_quarantine s s';
}.

(** [symlinkat(2)] of one link of the root *)
Record link_effect (i : nat) (s s' : NamespaceFingerprint) : Prop := {
  le_link : exists k, root_abi s' = <[i := Some k]> (root_abi s);
  le_root : root_stable (root s) (root s') = true;
  le_entries : root_entries s' = root_entries s /\ roots_entries s' = roots_entries s
    /\ quarantine_entries s' = quarantine_entries s /\ new_state_target_residue s' = new_state_target_residue s;
  le_rest : roots s' = roots s /\ quarantine s' = quarantine s /\ epoch s' = epoch s /\ live s' = live s
    /\ isolation_abi s' = isolation_abi s;
}.

Class FileSystemLaws `{FileSystem} : Prop := {
  exchange_usr_law s l1 w l2 u :
    roots_entries s = l1 ++ w :: l2 -> role w = TreeLocation.Staging ->
    Forall (fun w => role w <> TreeLocation.Staging) (l1 ++ l2) -> holds w u ->
    exchange_effect s l1 w l2 u (exchange_usr s);
  make_target_law nm s :
    Forall (fun w => role w <> TreeLocation.TransitionQuarantine) (quarantine_entries s) ->
    new_state_target_residue s = None -> creation_effect nm s (make_target nm s);
  normalize_target_law s e :
    Forall (fun w => role w <> TreeLocation.TransitionQuarantine) (quarantine_entries s) ->
    new_state_target_residue s = Some e -> normalization_effect e s (normalize_target s);
  move_candidate_law nm s l1 w l2 u q1 t q2 :
    roots_entries s = l1 ++ w :: l2 -> role w = TreeLocation.Staging ->
    Forall (fun w => role w <> TreeLocation.Staging) (l1 ++ l2) -> holds w u ->
    quarantine_entries s = q1 ++ t :: q2 -> role t = TreeLocation.TransitionQuarantine -> name t = nm ->
    Forall (fun w => role w <> TreeLocation.TransitionQuarantine) (q1 ++ q2) -> bare t ->
    preservation_effect s l1 w l2 u q1 t q2 (move_candidate nm s);
  link_root_law i s : root_abi s !! i = Some None -> link_effect i s (link_root i s);
}.

(** ** Trees that only moved *)

Lemma named_semantic r s s' c p c' p' : named r s c p -> epoch s' = epoch s ->
  semantic_usr c' = semantic_usr c -> semantic_usr p' = semantic_usr p -> named r s' c' p'.
Proof.
  intros [T1 T2 T3 T4 T5] He Hc Hp. unfold semantic_usr in *. simplify_eq. split; try congruence.
  - unfold state_id_observation in *. congruence.
  - rewrite He. intros Hx. destruct (T5 Hx). split; congruence.
Qed.

Section moves.
Context `{FileSystemLaws}.
Context (r : TransitionRecord) (Hop : operation r = NewState) (Hdistinct : candidate_token r <> previous_token r).

Lemma roles_of_strangers l : Forall (stranger r) l ->
  Forall (fun w => role w <> TreeLocation.Staging) l /\ Forall (fun w => role w <> TreeLocation.TransitionQuarantine) l.
Proof using. intros Hl. split; (eapply Forall_impl; [exact Hl|]); by intros w []. Qed.

(** *** The exchange *)

Lemma exchange_arranged s x : arranged r Arrangement.Exchanged s x ->
  exists x', arranged r (Arrangement.Staged Quarantine.Missing) (exchange_usr s) x'
    /\ rx_invariant (reverse_projection (exchange_usr s) x' UsrExchangeLayout.Pre)
       = rx_invariant (reverse_projection s x UsrExchangeLayout.Post).
Proof using H0.
  intros Ha. pose proof (ar_placed _ _ _ _ Ha) as (Hlive & Hh & Hlc & Hlp & Ht & Hres). pose proof Ha as [Hroots0 Hquar Hrst Hqst (Er & En & Es) Htgt Hrsd _ Hnm Hisol].
  destruct (exchange_usr_law s _ _ _ _ Hroots0 Er (proj1 (roles_of_strangers _ Hrst)) Hh)
    as [(w' & v & Hroots & (N1 & N2 & N3) & Hh' & Hw & Hv & Hlv) [Hl1 Hl2] Hroot Hrs [Hq1 Hq2] Hre He [Habi Hiso]].
  exists {| before_staging := before_staging x; staging := w'; after_staging := after_staging x;
            before_target := before_target x; target := None; after_target := after_target x;
            the_candidate := v; the_previous := live (exchange_usr s) |}. rewrite Hlive in Hv. split.
  - split; cbn; try done.
    + by rewrite Hq2, Hquar, Ht.
    + by rewrite N1, N2, N3.
    + intros e. by rewrite Hre, Hres.
    + by rewrite Hre.
    + by eapply named_semantic.
    + by rewrite Hiso.
  - cbn. congruence.
Qed.

Lemma exchange_admitted s : arrangement r Arrangement.Exchanged s ->
  arrangement r (Arrangement.Staged Quarantine.Missing) (exchange_usr s)
  /\ root_abi (exchange_usr s) = root_abi s /\ exchange_usr s <> s /\ admits_reverse r s (exchange_usr s) = true.
Proof using H0 Hdistinct.
  intros [x Ha]. destruct (exchange_arranged s x Ha) as (x' & Ha' & Hi).
  pose proof (arranged_reverse _ _ _ _ Ha Hdistinct _ eq_refl) as P1.
  pose proof (arranged_reverse _ _ _ _ Ha' Hdistinct _ eq_refl) as P2.
  split; [by exists x'|]. split; [cbn in Hi; congruence|]. split.
  - intros E. rewrite E, P1 in P2. done.
  - unfold admits_reverse, require_post_to_pre. rewrite P1, P2, Hi. cbn. by rewrite bool_decide_eq_true_2.
Qed.

(** *** The quarantine *)

Lemma quarantine_has_no_target a s x : arranged r a s x -> target x = None ->
  quarantine_entries s = before_target x ++ after_target x
  /\ Forall (fun w => role w <> TreeLocation.TransitionQuarantine) (quarantine_entries s).
Proof using.
  intros [_ Hq _ Hs _ _ _ _ _ _] Ht. rewrite Ht in Hq. cbn in Hq. rewrite Hq. split; [done|]. by apply roles_of_strangers.
Qed.

(** A staged candidate whose quarantine changed *)
Lemma staged_with q q' s s' x q1 t q2 : arranged r (Arrangement.Staged q) s x ->
  outside_quarantine s s' -> roots_entries s' = roots_entries s ->
  before_target x ++ after_target x = q1 ++ q2 -> quarantine_entries s' = q1 ++ option_list t ++ q2 ->
  (forall e, new_state_target_residue s' = Some e -> residue_name e = quarantine_text (quarantine_name r)) ->
  (forall w, t = Some w -> fresh_target (quarantine_text (quarantine_name r)) w) ->
  match q' with
  | Quarantine.Missing => t = None /\ new_state_target_residue s' = None
  | Quarantine.Residue => t = None /\ is_Some (new_state_target_residue s')
  | Quarantine.Empty => is_Some t /\ new_state_target_residue s' = None
  end ->
  exists x', arranged r (Arrangement.Staged q') s' x' /\ target x' = t
    /\ before_target x' ++ after_target x' = before_target x ++ after_target x.
Proof using.
  intros [Hroots Hquar Hrst Hqst Hst Htgt Hrsd Hpl Hnm Hisol] [O1 O2 O3 O4 [O5 O6]] Hr Hqq Hq' He Ht Hc.
  destruct Hpl as (P1 & P2 & P3 & P4 & _).
  exists {| before_staging := before_staging x; staging := staging x; after_staging := after_staging x;
            before_target := q1; target := t; after_target := q2;
            the_candidate := the_candidate x; the_previous := the_previous x |}.
  split; [|done]. split; cbn; try done; try congruence.
  - intros w Hw. destruct (Ht w Hw). by split.
  - rewrite O4. split_and!; try done. destruct q'; try done. destruct Hc as [[w Hw] Hn]. split; [|done].
    exists w. split; [done|]. apply (ft_bare _ _ (Ht w Hw)).
  - destruct Hnm as [N1 N2 N3 N4 N5]. split; try done. by rewrite O3.
Qed.

Lemma target_invariant a a' s s' x x' : arranged r a s x -> arranged r a' s' x' ->
  before_target x' ++ after_target x' = before_target x ++ after_target x ->
  outside_quarantine s s' -> roots_entries s' = roots_entries s -> non_target_invariant s = non_target_invariant s'.
Proof using.
  intros Ha Ha' Hq [O1 O2 O3 O4 [O5 O6]] Hr. unfold non_target_invariant.
  assert (forall a s x, arranged r a s x ->
    List.filter (fun w => negb (is_role TreeLocation.TransitionQuarantine w)) (quarantine_entries s)
    = before_target x ++ after_target x) as Hf.
  { intros a0 s0 x0 H0'. eapply others_quarantine; [exact H0'|intros w Hw; by apply stranger_is_role in Hw as (_ & -> & _)|].
    intros t Ht. by apply (target_is_role _ _ _ _ H0') in Ht as [_ ->]. }
  rewrite (Hf _ _ _ Ha), (Hf _ _ _ Ha'). congruence.
Qed.

Context (Hphase : phase r = Phase.CandidatePreserveIntent).

Lemma is_preserving : require_new_state_candidate_preserve r = Ok tt.
Proof using Hop Hphase. unfold require_new_state_candidate_preserve. by rewrite Hop, Hphase. Qed.

Abbreviation target_name := (quarantine_text (quarantine_name r)).

Lemma create_admitted s : arrangement r (Arrangement.Staged Quarantine.Missing) s ->
  (exists q, q <> Quarantine.Missing /\ arrangement r (Arrangement.Staged q) (make_target target_name s))
  /\ root_abi (make_target target_name s) = root_abi s /\ make_target target_name s <> s
  /\ admits_creation r s (make_target target_name s) = true.
Proof using H0 Hop Hphase.
  intros [x Ha]. pose proof (ar_placed _ _ _ _ Ha) as (_ & _ & _ & _ & Ht & Hres).
  destruct (quarantine_has_no_target _ _ _ Ha Ht) as [Hq Hnone].
  destruct (make_target_law target_name s Hnone Hres) as [Hc Hquar Hroots Hout].
  set (s' := make_target target_name s) in *.
  assert (exists q x', q <> Quarantine.Missing /\ arranged r (Arrangement.Staged q) s' x'
    /\ before_target x' ++ after_target x' = before_target x ++ after_target x) as (q & x' & Hne & Ha' & Hqq).
  { destruct Hc as [[Hq' (e & He & Hn)]|[He (q1 & t & q2 & E1 & E2 & Hf)]].
    - destruct (staged_with _ Quarantine.Residue s s' x (before_target x) None (after_target x) Ha Hout Hroots)
        as (x' & Ha' & _ & Hx'); try done; try congruence; [cbn; congruence|].
      by exists Quarantine.Residue, x'.
    - destruct (staged_with _ Quarantine.Empty s s' x q1 (Some t) q2 Ha Hout Hroots)
        as (x' & Ha' & _ & Hx'); try done; try congruence. by exists Quarantine.Empty, x'. }
  pose proof (arranged_target _ _ _ _ Ha _ eq_refl) as P1. pose proof (arranged_target _ _ _ _ Ha' _ eq_refl) as P2.
  split; [exists q; split; [done|]; by exists x'|]. split; [apply Hout|]. split.
  - intros E. rewrite E, P1 in P2. by destruct q.
  - unfold admits_creation, project_target_create. rewrite is_preserving. cbn [mbind result_bind]. rewrite P1, P2.
    unfold require_absent_to_prepared. cbn. rewrite Hquar, (target_invariant _ _ _ _ _ _ Ha Ha' Hqq Hout Hroots).
    destruct q; try done; decide_plain; done.
Qed.

Lemma normalize_admitted s : arrangement r (Arrangement.Staged Quarantine.Residue) s ->
  arrangement r (Arrangement.Staged Quarantine.Empty) (normalize_target s)
  /\ root_abi (normalize_target s) = root_abi s /\ normalize_target s <> s
  /\ admits_normalization r s (normalize_target s) = true.
Proof using H0 Hop Hphase.
  intros [x Ha]. pose proof (ar_placed _ _ _ _ Ha) as (_ & _ & _ & _ & Ht & [e Hres]).
  destruct (quarantine_has_no_target _ _ _ Ha Ht) as [Hq Hnone].
  destruct (normalize_target_law s e Hnone Hres) as [(q1 & t & q2 & E1 & E2 & Hf & Hst) He Hquar Hroots Hout].
  set (s' := normalize_target s) in *. rewrite (ar_residue _ _ _ _ Ha e Hres) in Hf.
  destruct (staged_with _ Quarantine.Empty s s' x q1 (Some t) q2 Ha Hout Hroots) as (x' & Ha' & Htx & Hqq);
    try done; try congruence.
  pose proof (arranged_target _ _ _ _ Ha _ eq_refl) as P1. pose proof (arranged_target _ _ _ _ Ha' _ eq_refl) as P2.
  split; [by exists x'|]. split; [apply Hout|]. split.
  - intros E. rewrite E, P1 in P2. done.
  - unfold admits_normalization, project_target_normalize. rewrite is_preserving. cbn [mbind result_bind]. rewrite P1, P2, Hres, Htx.
    unfold require_residue_to_empty_private. cbn.
    rewrite Hquar, Hst, (target_invariant _ _ _ _ _ _ Ha Ha' Hqq Hout Hroots). decide_plain. done.
Qed.

Lemma private_mode w w' : mutable_parent (witness w') = mutable_parent (witness w) ->
  has_exact_private_permissions w' = has_exact_private_permissions w.
Proof using. unfold has_exact_private_permissions, mutable_parent. intros [=]. congruence. Qed.

Lemma preserve_admitted s : arrangement r (Arrangement.Staged Quarantine.Empty) s ->
  arrangement r Arrangement.Preserved (move_candidate target_name s)
  /\ root_abi (move_candidate target_name s) = root_abi s /\ move_candidate target_name s <> s
  /\ admits_preservation r s (move_candidate target_name s) = true.
Proof using H0 Hop Hdistinct Hphase.
  intros [x Ha]. pose proof Ha as [Hroots Hquar Hrst Hqst (Er & En & Es) Htgt Hrsd Hpl Hnm Hisol].
  destruct Hpl as (P1 & P2 & P3 & P4 & (t & Ht & Hb) & P6). rewrite Ht in Hquar. cbn in Hquar.
  destruct (Htgt t Ht) as [Tr Tn Tp Ts].
  destruct (move_candidate_law target_name s _ _ _ _ _ _ _ Hroots Er (proj1 (roles_of_strangers _ Hrst)) P2
    Hquar Tr Tn (proj2 (roles_of_strangers _ Hqst)) Hb)
    as [(w' & t' & v & E1 & E2 & (N1 & N2 & N3) & (M1 & M2 & M3) & Hb' & Hh & Hw & Hm & Hv & Hlv) Hre Hq Hout].
  set (s' := move_candidate target_name s) in *. pose proof Hout as [O1 O2 O3 O4 [O5 O6]].
  set (x' := {| before_staging := before_staging x; staging := w'; after_staging := after_staging x;
            before_target := before_target x; target := Some t'; after_target := after_target x;
            the_candidate := v; the_previous := the_previous x |}).
  assert (arranged r Arrangement.Preserved s' x') as Ha'.
  { split; cbn; try done; try congruence.
    - by rewrite N1, N2, N3.
    - intros ? [= <-]. split; try congruence. by rewrite (private_mode t).
    - split_and!; try congruence. eauto.
    - by eapply named_semantic. }
  destruct (arranged_preserve _ _ _ _ Ha Hdistinct Hop _ Hphase eq_refl) as (t0 & Ht0 & Q1).
  destruct (arranged_preserve _ _ _ _ Ha' Hdistinct Hop _ Hphase eq_refl) as (t0' & Ht0' & Q2).
  injection Ht0' as <-. rewrite Ht in Ht0. injection Ht0 as <-. split; [by exists x'|]. split; [done|]. split.
  - intros E. rewrite E, Q1 in Q2. done.
  - unfold admits_preservation. rewrite Q1, Q2. unfold require_staged_to_preserved. cbn.
    rewrite O1, O2, O3, O4, O5, O6, Hq, Hv, Hw, Hm. decide_plain. done.
Qed.
End moves.

(** *** The links of the root *)

Section links.
Context `{FileSystemLaws}.

Lemma link_arranged r a i s : root_abi s !! i = Some None -> arrangement r a s -> arrangement r a (link_root i s).
Proof using H0.
  intros Hi [x [Hroots Hquar Hrst Hqst Hst Htgt Hrsd Hpl Hnm Hisol]].
  destruct (link_root_law i s Hi) as [_ _ (E1 & E2 & E3 & E4) (E5 & E6 & E7 & E8 & E9)].
  exists x. split; rewrite ?E2, ?E3, ?E4; try done; try congruence.
  - unfold placed in *. destruct a as [|[]|]; by rewrite E4, E8.
  - destruct Hnm as [N1 N2 N3 N4 N5]. split; try done. by rewrite E7.
Qed.
End links.
