(* ===== verification/StartupCheckpoints.v ===== *)
(** * The records of a rollback of a new state

    The records [StartupHandlers] takes, from the exchange of [/usr] to the end of the
    rollback: what each says, which record each step of recovery leads to, and that the
    predicates of [StartupPlans] recognise them. *)

From S2P Require Import Prelude ByteStrings JournalModel JournalValidation JournalMachine JournalSuccessors JournalLiveness JournalRollback Namespace NamespaceMoves StartupMachine StartupPlans StartupHandlers.

(** ** Stages *)

Module Stage.
Inductive t :=
  | Forward
  | DecidedExchanged
  | DecidedStaged
  | Reversing
  | Restored
  | Preserving
  | Preserved
  | Invalidating
  | Invalidated
  | Complete.
#[global] Instance t_eq_dec : EqDecision t.
Proof. solve_decision. Defined.
End Stage.

Definition stage_phase (src : ForwardPhase.t) (st : Stage.t) : Phase.t :=
  match st with
  | Stage.Forward => Phase_from src
  | Stage.DecidedExchanged | Stage.DecidedStaged => Phase.RollbackDecided
  | Stage.Reversing => Phase.ReverseExchangeIntent
  | Stage.Restored => Phase.UsrRestored
  | Stage.Preserving => Phase.CandidatePreserveIntent
  | Stage.Preserved => Phase.CandidatePreserved
  | Stage.Invalidating => Phase.FreshDbInvalidationIntent
  | Stage.Invalidated => Phase.FreshDbInvalidated
  | Stage.Complete => Phase.RollbackComplete
  end.

(** The steps since the source *)
Definition stage_offset (st : Stage.t) : Z :=
  match st with
  | Stage.Forward => 0
  | Stage.DecidedExchanged | Stage.DecidedStaged => 1
  | Stage.Reversing => 2
  | Stage.Restored => 3
  | Stage.Preserving => 4
  | Stage.Preserved => 5
  | Stage.Invalidating => 6
  | Stage.Invalidated => 7
  | Stage.Complete => 8
  end.

Definition next_stage (st : Stage.t) : Stage.t :=
  match st with
  | Stage.Forward | Stage.DecidedExchanged => Stage.Reversing
  | Stage.Reversing => Stage.Restored
  | Stage.DecidedStaged | Stage.Restored => Stage.Preserving
  | Stage.Preserving => Stage.Preserved
  | Stage.Preserved => Stage.Invalidating
  | Stage.Invalidating => Stage.Invalidated
  | Stage.Invalidated | Stage.Complete => Stage.Complete
  end.

(** The sources recovery takes back without the archive of the previous state *)
Definition recoverable (src : ForwardPhase.t) : bool :=
  match src with
  | ForwardPhase.UsrExchangeIntent | ForwardPhase.UsrExchanged | ForwardPhase.RootLinksComplete
  | ForwardPhase.SystemTriggersStarted | ForwardPhase.SystemTriggersComplete => true
  | _ => false
  end.

(** ** Plans *)

Definition usr_at (st : Stage.t) (a : RollbackAction.t) : Prop :=
  match st with
  | Stage.Forward | Stage.DecidedExchanged | Stage.Reversing => a = RollbackAction.Pending
  | Stage.DecidedStaged => a = RollbackAction.AlreadySatisfied
  | _ => is_settled a = true
  end.

Definition candidate_at (st : Stage.t) (a : RollbackAction.t) : Prop :=
  match st with
  | Stage.Preserved | Stage.Invalidating | Stage.Invalidated | Stage.Complete => is_settled a = true
  | _ => a = RollbackAction.Pending
  end.

Definition fresh_at (st : Stage.t) (a : RollbackAction.t) : Prop :=
  match st with
  | Stage.Invalidated | Stage.Complete => is_settled a = true
  | _ => a = RollbackAction.Pending
  end.

Record plan_at (src : ForwardPhase.t) (st : Stage.t) (plan : RollbackPlan) : Prop := {
  pl_source : rp_source plan = src;
  pl_previous : rp_previous_archive plan = RollbackAction.NotRequired;
  pl_usr : usr_at st (rp_usr_exchange plan);
  pl_candidate : candidate_at st (cr_action (rp_candidate plan));
  pl_disposition : cr_disposition (rp_candidate plan) = AbortDisposition.Quarantine;
  pl_fresh : fresh_at st (rp_fresh_db plan);
  pl_boot : rp_boot plan = BootRollback.NotRequired;
  pl_external : rp_external_effects_may_remain plan = true;
}.

(** Only the intent of the exchange can find it undone, and skips its reversal; from the
    other sources every step is taken. *)
Record checkpoint (r : TransitionRecord) (src : ForwardPhase.t) (st : Stage.t) : Prop := {
  cp_valid : valid r;
  cp_operation : operation r = NewState;
  cp_source : recoverable src = true;
  cp_phase : phase r = stage_phase src st;
  cp_plan : match st with
            | Stage.Forward => rollback r = None
            | _ => exists plan, rollback r = Some plan /\ plan_at src st plan
            end;
  cp_staged : st = Stage.DecidedStaged -> src = ForwardPhase.UsrExchangeIntent;
  cp_positive : (0 < generation r <= forward_ordinal src + 1 + stage_offset st)%Z;
  cp_generation : (9 <= forward_ordinal src)%Z -> generation r = (forward_ordinal src + 1 + stage_offset st)%Z;
}.

(** ** Facts of a record *)

Lemma checkpoint_room r src st : checkpoint r src st -> room 1 r.
Proof.
  intros []. split; [lia|]. assert (forward_ordinal src <= 18 /\ stage_offset st <= 8)%Z as [? ?] by (by destruct src, st).
  lia.
Qed.

Lemma checkpoint_layout r src st : checkpoint r src st -> valid_facts r src.
Proof.
  intros []. pose proof cp_valid0 as [lp V]%valid_iff_facts. destruct (decide (st = Stage.Forward)) as [->|Hst].
  - by rewrite <- (layout_phase_forward r src lp cp_phase0 (vf_layout _ _ V)).
  - assert (forward (phase r) = None) as Hf by (rewrite cp_phase0; by destruct st).
    assert (exists plan, rollback r = Some plan /\ plan_at src st plan) as (plan & Hr & Hp) by (by destruct st).
    destruct (rollback_facts r plan cp_valid0 Hf Hr) as [Hv _]. by rewrite (pl_source _ _ _ Hp) in Hv.
Qed.

Lemma checkpoint_candidate r src st : checkpoint r src st ->
  exists id, cand_id (candidate r) = Some id /\ prev_id (previous r) <> Some id.
Proof.
  intros Hc. pose proof (checkpoint_layout _ _ _ Hc) as V. destruct Hc.
  pose proof (vf_candidate _ _ V) as Hl. pose proof (vf_relationships _ _ V) as Hr.
  unfold validate_candidate_layout in Hl. rewrite cp_operation0 in Hl.
  assert (candidate_id_required r src = Some true) as Hreq by (by destruct src).
  rewrite Hreq in Hl. unfold require_option_presence in Hl. inv_ok. bool_prop. apply eqb_prop in Hl. bool_prop.
  destruct Hl as [id Hid]. exists id. split; [done|]. unfold validate_relationships, validate_operation_states in Hr.
  rewrite cp_operation0, Hid in Hr. inv_ok. intros E.
  match goal with Hn : _ && bool_decide (Some id = _) = false |- _ => rewrite E, !bool_decide_eq_true_2 in Hn by done end. done.
Qed.

Lemma checkpoint_distinct r src st : checkpoint r src st -> candidate_token r <> previous_token r.
Proof.
  intros Hc. pose proof (vf_relationships _ _ (checkpoint_layout _ _ _ Hc)) as Hr. unfold validate_relationships in Hr. inv_ok.
  bool_prop. unfold candidate_token, previous_token. intros E. apply Hr0.
  destruct (cand_tree_token _), (prev_tree_token _). cbn in E. by subst.
Qed.

(** A record that follows is of the same transition and the same candidate. *)
Lemma checkpoint_advances r src st next : checkpoint r src st -> advances r next ->
  same_transition r next /\ cand_id (candidate r) = cand_id (candidate next).
Proof.
  intros [] Had. pose proof Had as F%advances_iff_facts. destruct F. split; [done|].
  destruct af_candidate_id as [|(Hp & _)]; [done|]. rewrite cp_phase0 in Hp. by destruct src, st.
Qed.

(** ** The decision *)

Definition decided_stage (u : InitialRollbackAction.t) : Stage.t :=
  match u with
  | InitialRollbackAction.Pending => Stage.DecidedExchanged
  | InitialRollbackAction.AlreadySatisfied => Stage.DecidedStaged
  end.

Lemma decided_checkpoint r src u : checkpoint r src Stage.Forward ->
  (u = InitialRollbackAction.AlreadySatisfied -> src = ForwardPhase.UsrExchangeIntent) ->
  exists next, rollback_decision (rollback_observations (operation r) u None) r = Ok next
    /\ advances r next /\ checkpoint next src (decided_stage u).
Proof.
  intros Hc Hu. pose proof (checkpoint_layout _ _ _ Hc) as V. pose proof (checkpoint_room _ _ _ Hc) as Hroom.
  destruct (checkpoint_candidate _ _ _ Hc) as (id & Hid & _). pose proof Hc as [Hv Hop Hsrc Hph Hnone _ Hpos Hgen].
  set (obs := rollback_observations (operation r) u None).
  assert (observations_fit r src obs) as Hfit.
  { unfold observations_fit, previous_archive_possible, usr_exchange_possible, fresh_db_possible, obs, rollback_observations.
    rewrite Hop. cbn -[bool_decide ordinal]. destruct src; try done; split_and!; try done; by rewrite andb_false_r. }
  assert (rollback_allowed r src = true) as Hal by (by destruct src).
  pose proof (decide_progress r src obs V Hroom Hph Hal Hfit) as Hd. exists (decided r src obs).
  pose proof (successor_advances (Call.Decide obs) _ _ Hd) as Had. pose proof Had as F%advances_iff_facts.
  split; [done|]. split; [done|]. split.
  - apply F.
  - done.
  - done.
  - by destruct u.
  - assert (plan_at src (decided_stage u) (decided_plan r src obs)) as Hplan.
    { unfold decided_plan, obs, rollback_observations, external_effects, runs_transaction_triggers, candidate_disposition_for.
      rewrite Hop. cbn -[bool_decide ordinal]. split; try done; try by destruct u. all: by destruct src. }
    destruct u; cbn; eauto.
  - destruct u; cbn; [done|]. by intros _; apply Hu.
  - cbn. destruct u; cbn in *; lia.
  - intros H9. cbn. rewrite (Hgen H9). destruct u; cbn; lia.
Qed.

(** ** The successors *)

Lemma rollback_successor_inv o r next : rollback_successor o r = Ok next ->
  exists plan q plan', rollback r = Some plan /\ next_rollback_phase plan (phase r) = Some q
    /\ match o with
       | Some o => apply_outcome (phase r) q (RollbackActionOutcome.into o) plan
       | None => Ok plan
       end = Ok plan'
    /\ next = rolled r q plan'.
Proof.
  intros Hs. unfold rollback_successor in Hs. apply seq_ok_iff in Hs as [Hv Hs]. apply seq_ok_iff in Hs as [_ Hs].
  apply bind_ok_iff in Hs as (plan & Hp & Hs). apply bind_ok_iff in Hs as (q & Hq & Hs). apply seq_ok_iff in Hs as [_ Hs].
  apply bind_ok_iff in Hs as (g & Hg & Hs). apply bind_ok_iff in Hs as (plan' & Hp' & Hs). apply seq_ok_iff in Hs as [_ Hs].
  exists plan, q, plan'. unfold next_generation in Hg. apply ok_or_ok_iff in Hp, Hq, Hg. split_and!; try done.
  injection Hs as <-. unfold rolled. f_equal. apply checked_width_Some in Hg as [<- _]. done.
Qed.

(** Which outcome a stage records *)
Definition outcome_fits (st : Stage.t) (o : option RollbackActionOutcome.t) : bool :=
  match st with
  | Stage.Reversing | Stage.Preserving | Stage.Invalidating => bool_decide (is_Some o)
  | Stage.Forward | Stage.Complete => false
  | _ => bool_decide (o = None)
  end.

Lemma stage_next_phase src st plan : st <> Stage.Forward -> st <> Stage.Complete -> plan_at src st plan ->
  next_rollback_phase plan (stage_phase src st) = Some (stage_phase src (next_stage st)).
Proof.
  intros H1 H2 []. unfold next_rollback_phase, next_pending_phase, rollback_actions.
  destruct st; try done; cbn in *; rewrite ?pl_previous0, ?pl_usr0, ?pl_candidate0, ?pl_fresh0, ?pl_boot0; cbn; try done.
  all: destruct (rp_usr_exchange plan); try done; cbn.
  all: destruct (cr_action (rp_candidate plan)); try done; cbn.
  all: destruct (rp_fresh_db plan); try done; cbn; by rewrite ?pl_boot0.
Qed.

Lemma successor_checkpoint r src st o : checkpoint r src st -> outcome_fits st o = true ->
  exists next, rollback_successor o r = Ok next /\ advances r next /\ checkpoint next src (next_stage st).
Proof.
  intros Hc Ho. pose proof (checkpoint_room _ _ _ Hc) as Hroom. pose proof Hc as [Hv Hop Hsrc Hph Hplan Hst Hpos Hgen].
  assert (st <> Stage.Forward /\ st <> Stage.Complete) as [H1 H2] by (by destruct st).
  assert (exists plan, rollback r = Some plan /\ plan_at src st plan) as (plan & Hr & Hp) by (by destruct st).
  pose proof (stage_next_phase src st plan H1 H2 Hp) as Hn. rewrite <- Hph in Hn.
  assert (exists plan', rollback_successor o r = Ok (rolled r (stage_phase src (next_stage st)) plan')) as (plan' & Hs).
  { apply (rollback_progress r plan); try done; rewrite Hph; destruct st; try done; by destruct o. }
  exists (rolled r (stage_phase src (next_stage st)) plan').
  pose proof (successor_advances (Call.Rollback o) _ _ Hs) as Had. pose proof Had as F%advances_iff_facts.
  split; [done|]. split; [done|]. split.
  - apply F.
  - done.
  - done.
  - done.
  - destruct (rollback_successor_inv _ _ _ Hs) as (plan0 & q & plan1 & Hr0 & Hn0 & Happ & Heq).
    rewrite Hr in Hr0. injection Hr0 as <-. rewrite Hn in Hn0. injection Hn0 as <-. unfold rolled in Heq.
    injection Heq as ->. rewrite Hph in Happ. destruct Hp.
    assert (plan_at src (next_stage st) plan1) as Hp1.
    { destruct st; try done; destruct o as [o|]; try done; cbn in Happ; injection Happ as <-; split; cbn in *; try done;
        try (by rewrite pl_usr0); by destruct o. }
    destruct st; try done; cbn; eauto.
  - by destruct st.
  - cbn. destruct st; cbn in *; lia.
  - intros H9. cbn. rewrite (Hgen H9). destruct st; cbn; try lia; try done.
    rewrite (Hst eq_refl) in H9. by cbn in H9.
Qed.

(** ** Recognition *)

(** Read a predicate of [StartupPlans] off a checkpoint. *)
Ltac read_checkpoint Hc :=
  let plan := fresh "plan" in let Hr := fresh "Hr" in let Hgen := fresh "Hgen" in let Hph := fresh "Hph" in
  destruct Hc as [_ Hop Hsrc Hph (plan & Hr & []) Hst _ Hgen]; cbn [usr_at candidate_at fresh_at] in *; rewrite ?Hr, ?Hop, ?Hph;
  repeat match goal with H : rp_source plan = _ |- _ => rewrite H; clear H end;
  match goal with src : ForwardPhase.t |- _ => destruct src end; try done; cbn in Hgen |- *;
  try (rewrite Hgen by lia);
  repeat match goal with
  | H : ?x = _ |- context [?x] => rewrite H
  | H : is_settled (rp_usr_exchange plan) = true |- _ => destruct (rp_usr_exchange plan); try done; clear H
  | H : is_settled (cr_action (rp_candidate plan)) = true |- _ => destruct (cr_action (rp_candidate plan)); try done; clear H
  | H : is_settled (rp_fresh_db plan) = true |- _ => destruct (rp_fresh_db plan); try done; clear H
  end; try done.

Lemma forward_supported r src : checkpoint r src Stage.Forward ->
  rollback_decision_source_is_supported r = true /\ previous_archive_observation (phase r) = None.
Proof.
  intros [_ Hop Hsrc Hph _ _ _ Hgen]. unfold rollback_decision_source_is_supported, previous_archive_observation.
  rewrite Hop, Hph. destruct src; try done; cbn in Hgen |- *; rewrite Hgen by lia; done.
Qed.

Lemma rollback_not_supported r src st : checkpoint r src st -> st <> Stage.Forward ->
  rollback_decision_source_is_supported r = false.
Proof.
  intros [_ Hop _ Hph _ _ _ _] Hst. unfold rollback_decision_source_is_supported. rewrite Hop, Hph. by destruct st.
Qed.

Definition route_exchange (st : Stage.t) : option UsrExchangeLayout.t :=
  match st with
  | Stage.DecidedExchanged => Some UsrExchangeLayout.Post
  | Stage.DecidedStaged | Stage.Restored => Some UsrExchangeLayout.Pre
  | _ => None
  end.

Lemma route_recognised r src st layout : checkpoint r src st -> route_exchange st = Some layout ->
  is_usr_exchange_rollback_source r = true /\ route_evidence_is_exact r layout = true.
Proof.
  intros Hc Hl. unfold is_usr_exchange_rollback_source, route_evidence_is_exact, boot_is_exact, pending_plan_is_exact, boot_source.
  destruct st; try done; injection Hl as <-; (split; [read_checkpoint Hc|read_checkpoint Hc]).
Qed.

Lemma reverse_recognised r src : checkpoint r src Stage.Reversing -> reverse_plan_is_exact r = true.
Proof.
  intros Hc. unfold reverse_plan_is_exact, boot_is_exact, pending_plan_is_exact, boot_source. read_checkpoint Hc.
Qed.

Lemma preserve_recognised r src : checkpoint r src Stage.Preserving ->
  candidate_preserve_plan_is_exact r = true /\ forall plan, rollback r = Some plan -> candidate_preserve_source_is_exact r plan = true.
Proof.
  intros Hc. assert (candidate_preserve_plan_is_exact r = true) as He.
  { unfold candidate_preserve_plan_is_exact, candidate_preserve_source_is_exact, system_trigger_candidate_preserve_source_is_exact,
      boot_is_exact, pending_plan_is_exact, boot_source. read_checkpoint Hc. }
  split; [done|]. intros plan Hr. unfold candidate_preserve_plan_is_exact in He. rewrite Hr in He. by bool_prop.
Qed.

Lemma fresh_route_recognised r src : checkpoint r src Stage.Preserved ->
  fresh_db_route_plan_is_exact r = true
  /\ exists plan, rollback r = Some plan
     /\ is_exchange_source (rp_source plan) || system_trigger_candidate_preserved_source_is_exact r = true.
Proof.
  intros Hc. assert (fresh_db_route_plan_is_exact r = true) as He.
  { unfold fresh_db_route_plan_is_exact, system_trigger_candidate_preserved_source_is_exact, preserved_plan_is_exact. read_checkpoint Hc. }
  split; [done|]. pose proof (cp_plan _ _ _ Hc) as (plan & Hr & _). exists plan. split; [done|].
  unfold fresh_db_route_plan_is_exact in He. rewrite Hr in He. by bool_prop.
Qed.

Lemma candidate_known r src st : checkpoint r src st -> bool_decide (is_Some (cand_id (candidate r))) = true.
Proof. intros Hc. destruct (checkpoint_candidate _ _ _ Hc) as (id & -> & _). by apply bool_decide_eq_true. Qed.

Lemma invalidation_recognised r src : checkpoint r src Stage.Invalidating -> fresh_db_invalidation_plan_is_exact r = true.
Proof.
  intros Hc. unfold fresh_db_invalidation_plan_is_exact, preserved_plan_is_exact. rewrite (candidate_known _ _ _ Hc). read_checkpoint Hc.
Qed.

Lemma completion_recognised r src : checkpoint r src Stage.Invalidated -> rollback_complete_route_plan_is_exact r = true.
Proof.
  intros Hc. unfold rollback_complete_route_plan_is_exact, preserved_plan_is_exact. rewrite (candidate_known _ _ _ Hc). read_checkpoint Hc.
Qed.

Lemma finalization_recognised r src : checkpoint r src Stage.Complete -> rollback_finalization_plan_is_exact r = true.
Proof.
  intros Hc. unfold rollback_finalization_plan_is_exact, preserved_plan_is_exact. rewrite (candidate_known _ _ _ Hc). read_checkpoint Hc.
Qed.

(** ** The records of the coordinator *)

Lemma reachable_generation r p : reachable r -> phase r = Phase_from p ->
  exists r0, same_transition r0 r /\ generation r = Z.of_nat (length (path_between r0 ForwardPhase.Preparing p)).
Proof.
  intros (r0 & l & Hp & Hh) Hr. destruct (preparing_facts _ Hp) as (_ & H0 & Hg & _). exists r0. split; [by eapply history_same|].
  assert (record_layout_phase r = Ok p) as Hl.
  { destruct (history_valid _ _ _ Hh) as [_ [lp F]%valid_iff_facts]. rewrite (vf_layout _ _ F). f_equal.
    by eapply layout_phase_forward, (vf_layout _ _ F). }
  destruct (history_shape _ _ _ ForwardPhase.Preparing p Hh H0 Hl) as (_ & fwd & rb & -> & Hf & _ & Hrb).
  assert (rb = []) as -> by (apply Hrb; by rewrite Hr, (proj2 (forward_iff _ _) eq_refl)).
  destruct (history_progress _ _ _ Hh) as [Hn _]. rewrite app_nil_r in Hn. rewrite <- (length_fmap phase fwd), Hf, length_fmap in Hn. lia.
Qed.

(** Every record the coordinator makes durable around the exchange is one recovery takes. *)
Lemma reachable_checkpoint r src : reachable r -> operation r = NewState -> recoverable src = true -> phase r = Phase_from src ->
  checkpoint r src Stage.Forward.
Proof.
  intros Hr Hop Hsrc Hp. destruct (reachable_generation r src Hr Hp) as (r0 & Hs & Hg). pose proof Hr as (r1 & l & _ & Hh).
  destruct (history_valid _ _ _ Hh) as [_ Hv]. pose proof (valid_phase_enabled _ _ Hv Hp) as He.
  assert (operation r0 = NewState) as H0 by (destruct Hs; congruence).
  assert (options r0 = options r) as Ho by (by destruct Hs).
  unfold path_between, path_from, phase_enabled in Hg. unfold phase_enabled in He.
  assert (generation r = forward_ordinal src + 1)%Z as Hgen.
  { rewrite Hg. rewrite <- Ho in He. unfold runs_transaction_triggers. rewrite H0. by destruct src, (options r0) as [[] [] []]. }
  split; try done; rewrite ?Hgen; cbn; try lia.
  - destruct (proj1 (valid_iff_facts _) Hv) as [lp F]. pose proof (vf_layout _ _ F) as Hl. unfold record_layout_phase in Hl.
    rewrite Hp, (proj2 (forward_iff _ _) eq_refl) in Hl. by destruct (rollback r).
  - by destruct src.
Qed.
