(* ===== verification/StartupInvariant.v ===== *)
(** * What recovery keeps

    The invariant of [StartupSafety]: where the two trees may be at each record of a
    rollback, in the namespace that is visible and in every one a crash may bring back;
    which rows the database has; and which directories are yet to be synchronised. *)

From S2P Require Import Prelude ByteStrings Ordered SqlDb SqlTx JournalModel JournalValidation JournalMachine JournalSuccessors StateDb StateDbExact StateDbInvariant StateDbTheorems StateDbRemoval StartupEvidence StartupEvidenceTheorems Namespace NamespaceMoves StartupMachine StartupPlans StartupHandlers StartupLogic Arrangements StartupCheckpoints.

(** ** Arrangements by stage *)

Definition may_stand (src : ForwardPhase.t) (st : Stage.t) (a : Arrangement.t) : bool :=
  match st, a with
  | Stage.Forward, Arrangement.Exchanged => true
  | Stage.Forward, Arrangement.Staged Quarantine.Missing => bool_decide (src = ForwardPhase.UsrExchangeIntent)
  | Stage.DecidedExchanged, Arrangement.Exchanged => true
  | Stage.Reversing, (Arrangement.Exchanged | Arrangement.Staged Quarantine.Missing) => true
  | (Stage.DecidedStaged | Stage.Restored), Arrangement.Staged Quarantine.Missing => true
  | Stage.Preserving, (Arrangement.Staged _ | Arrangement.Preserved) => true
  | (Stage.Preserved | Stage.Invalidating | Stage.Invalidated | Stage.Complete), Arrangement.Preserved => true
  | _, _ => false
  end.

(** The links of the root are complete once the record says so, and before the decision
    to roll back an exchange. *)
Definition linked (src : ForwardPhase.t) (st : Stage.t) (s : NamespaceFingerprint) : Prop :=
  (match st with Stage.Forward => 9 | _ => 8 end <= forward_ordinal src)%Z -> is_complete (root_abi s) = true.

Definition standing (r : TransitionRecord) (src : ForwardPhase.t) (st : Stage.t) (s : NamespaceFingerprint) : Prop :=
  exists a, may_stand src st a = true /\ arrangement r a s /\ linked src st s.

Section stages.
Context (r : TransitionRecord) (src : ForwardPhase.t) (st : Stage.t) (Hc : checkpoint r src st).

Lemma stage_layouts a : may_stand src st a = true -> exists alts, expected_layouts r = Ok alts /\ layout_of a ∈ alts.
Proof using Hc.
  intros Ha. destruct Hc as [_ _ Hsrc Hph Hplan _ _ _]. unfold expected_layouts. destruct (decide (st = Stage.Forward)) as [->|Hst].
  - rewrite Hplan. unfold forward_layouts. rewrite Hph. eexists. split; [reflexivity|].
    destruct src, a as [|[]|]; try done; cbn; set_solver.
  - assert (exists plan, rollback r = Some plan /\ plan_at src st plan) as (plan & -> & []) by (by destruct st).
    unfold rollback_layouts, layout_at_rollback_decision. rewrite Hph.
    destruct st; try done; destruct a as [|[]|]; try done; cbn in *; rewrite ?pl_previous, ?pl_usr, ?pl_candidate; cbn;
      (eexists; split; [reflexivity|set_solver]).
Qed.

Lemma stage_rolls_back : rolls_back r.
Proof using Hc.
  destruct Hc as [_ _ Hsrc Hph Hplan _ _ _]. destruct (decide (st = Stage.Forward)) as [->|Hst].
  - right. unfold recovery_disposition. rewrite Hph. destruct src; try done; cbn; eauto.
  - left. assert (exists plan, rollback r = Some plan /\ plan_at src st plan) as (plan & -> & _) by (by destruct st). eauto.
Qed.

Lemma stage_abi s : linked src st s -> root_abi_must_be_complete r = true -> is_complete (root_abi s) = true.
Proof using Hc.
  intros Hl Hm. apply Hl. destruct Hc as [_ _ Hsrc Hph Hplan _ _ _]. unfold root_abi_must_be_complete in Hm.
  destruct (decide (st = Stage.Forward)) as [->|Hst].
  - rewrite Hplan, Hph in Hm. destruct src; try done; cbn in *; lia.
  - assert (exists plan, rollback r = Some plan /\ plan_at src st plan) as (plan & Hr & []) by (by destruct st).
    rewrite Hr in Hm. rewrite pl_source in Hm. destruct st; try done; destruct src; try done; cbn in *; try lia; by bool_prop.
Qed.

Context (s : NamespaceFingerprint) (a : Arrangement.t) (Hstand : may_stand src st a = true) (Ha : arrangement r a s) (Hl : linked src st s).

Let Hop := cp_operation _ _ _ Hc.
Let Hdistinct := checkpoint_distinct _ _ _ Hc.

Lemma stage_assess : assess_snapshot_layout r s = Ok (layout_of a).
Proof using Hc Hstand Ha Hl Hop Hdistinct.
  destruct Ha as [x Hx]. destruct (stage_layouts a Hstand) as (alts & Halts & Hin).
  eapply (arranged_assess r a s x Hx Hdistinct Hop); [apply stage_rolls_back|done..|by apply stage_abi].
Qed.

Lemma stage_exchange layout : exchange_of a = Some layout -> exchange_layout r s = Ok layout.
Proof using Hc Hstand Ha Hl Hop Hdistinct.
  intros Hx. unfold exchange_layout. rewrite stage_assess. by destruct a as [|[]|]; simplify_eq/=.
Qed.

Lemma stage_no_quarantine : exchange_of a <> None -> st <> Stage.Preserving ->
  existsb (is_role TreeLocation.TransitionQuarantine) (wrappers s) = false.
Proof using Hc Hstand Ha Hl.
  intros Hx Hne. destruct Ha as [x Hx']. rewrite (no_quarantine _ _ _ _ Hx'). pose proof (ar_placed _ _ _ _ Hx') as Hp.
  destruct a as [|[]|]; try done; cbn in Hp; try by destruct st.
  - by destruct Hp as (_ & _ & _ & _ & -> & _).
  - by destruct Hp as (_ & _ & _ & _ & -> & _).
Qed.

Lemma stage_route layout : exchange_of a = Some layout -> st <> Stage.Preserving -> route_layout r s = Ok layout.
Proof using Hc Hstand Ha Hl Hop Hdistinct.
  intros Hx Hne. unfold route_layout. rewrite stage_no_quarantine by (done || congruence). rewrite andb_false_r. by apply stage_exchange.
Qed.

Lemma stage_reverse layout : exchange_of a = Some layout ->
  exists p, rx_layout p = layout /\ project_reverse s r = Ok p /\ reverse_evidence r s = Ok (layout, p).
Proof using Hc Hstand Ha Hl Hop Hdistinct.
  intros Hx. destruct Ha as [x Hx']. eexists. split; [|split; [by apply (arranged_reverse r a s x Hx' Hdistinct)|]]; [done|].
  unfold reverse_evidence. rewrite stage_assess. rewrite (arranged_reverse r a s x Hx' Hdistinct layout Hx).
  by destruct a as [|[]|]; simplify_eq/=.
Qed.

Lemma stage_topology t : topology_at a = Some t -> topology r s = Ok t.
Proof using Hc Hstand Ha Hl Hop Hdistinct.
  intros Ht. destruct Ha as [x Hx]. rewrite (arranged_topology r a s x Hx Hdistinct Hop); [by rewrite Ht|]. by rewrite stage_assess.
Qed.
End stages.

(** ** Evidence *)

Section evidence.
Context `{Sqlite} `{Chrono} (self : nat).

Lemma reads_audit : reads audit_in_flight_transition.
Proof. intros u. unfold audit_in_flight_transition. preserved. Qed.

Lemma reads_inspect_database r f : reads (inspect_database r f).
Proof.
  intros u. unfold inspect_database, inspect_existing, inspect_unallocated, inspect_allocated, inspect_previous_state,
    ownership_of, provenance_of, transition_ownership, metadata_provenance, metadata_provenance_impl. preserved.
Qed.

Lemma inert_audit : inert audit_in_flight.
Proof. apply looks_database, reads_audit. Qed.

Lemma inert_inspect_with r f : inert (inspect_with r f).
Proof. apply looks_database, reads_inspect_database. Qed.

Lemma inert_inspect r : inert (inspect r).
Proof. unfold inspect. apply inert_bind; [apply inert_audit|]. intros f. apply inert_inspect_with. Qed.

Lemma inert_inspect_fresh r : inert (inspect_fresh self r).
Proof.
  assert (forall id, inert (on_database RecoveryError.ExactInspection (inspect_exact_fresh_transition self id (transition_id r)))) as Hi.
  { intros id. apply looks_database, inspect_reads. }
  pose proof (inert_inspect r). unfold inspect_fresh. inert.
Qed.

(** The exact observation a successful reading returns is that of the tables. *)
Lemma looks_inspect_fresh r : looks (inspect_fresh self r) (fun w e =>
  forall id, cand_id (candidate r) = Some id -> inspected self id (transition_id r) (m_database w) = Ok e.2).
Proof.
  unfold inspect_fresh. destruct (cand_id (candidate r)) as [id|]; [|eapply looks_weaken; [apply looks_lift|done]].
  eapply looks_bind; [apply looks_database, inspect_reads|]. intros before.
  eapply looks_bind; [apply inert_inspect|]. intros context.
  eapply looks_bind with (R := fun w o => inspected self id (transition_id r) (m_database w) = Ok o).
  - intros w fs. split; [apply (looks_database _ _ (inspect_reads self id (transition_id r)))|]. intros o.
    unfold on_database. destruct (inspect_cases self id (transition_id r) (m_database w) fs) as (o' & fs' & -> & Ho). cbn.
    intros Hok. apply Ho. by destruct o'; simplify_eq/=.
  - intros after. eapply looks_bind; [apply looks_require|]. intros ?. apply looks_ret. cbn. intros w _ Ha _ _ id' [= <-]. done.
Qed.

Lemma inspect_database_lawful r f : lawful (inspect_database r f).
Proof.
  pose proof ownership_lawful. pose proof provenance_of_lawful. pose proof previous_lawful.
  unfold inspect_database, inspect_existing, inspect_unallocated, inspect_allocated. lawful.
Qed.

(** *** As values *)

(** What the audit, the inspection and the exact inspection find for one row *)
Definition flight_of (o : ExactFreshTransitionObservation.t) : option InFlightTransition :=
  match o with
  | ExactFreshTransitionObservation.Present pre =>
      Some {| in_flight_state := state_id (pre_state pre); in_flight_transition := pre_transition_id pre |}
  | ExactFreshTransitionObservation.JointlyAbsent _ => None
  end.

Definition evidence_of (r : TransitionRecord) (t : tables) (o : ExactFreshTransitionObservation.t) : DatabaseEvidence.t :=
  match o with
  | ExactFreshTransitionObservation.Present pre =>
      DatabaseEvidence.CandidateOwnership (state_id (pre_state pre)) Matching (Some (pre_metadata_provenance pre))
        (previous_at r (Some (state_id (pre_state pre))) t)
  | ExactFreshTransitionObservation.JointlyAbsent a =>
      DatabaseEvidence.CandidateOwnership (abs_state_id a) Missing None (previous_at r (Some (abs_state_id a)) t)
  end.

Context (r : TransitionRecord) (t : tables) (id : Z) (o : ExactFreshTransitionObservation.t).
Context (Hw : well_formed t) (Hcanon : canonical (transition_id r)) (Hop : operation r = NewState).
Context (Hid : cand_id (candidate r) = Some id) (Ho : inspected self id (transition_id r) t = Ok o).

Lemma audit_value : run audit_in_flight_transition t = (Ok (flight_of o), t).
Proof using Hw Ho.
  destruct o as [pre|a].
  - destruct (inspected_present _ _ _ _ _ Ho) as [_ Hs Htr Hcar Honly _ _].
    destruct (audit_cases t Hw) as [[_ Hn]|[(f & -> & Hf & Hu)|(e & i1 & raw1 & i2 & raw2 & _ & Hne & H1 & H2)]].
    + by destruct (Hn _ _ Hcar).
    + do 3 f_equal. destruct (owns_in_flight r t id f Hf (conj Hcar Honly)) as [E1 E2]. destruct f. cbn in *. by rewrite Hs, Htr, E1, E2.
    + destruct Hne. by rewrite (Honly _ _ H1), (Honly _ _ H2).
  - destruct (inspected_absent _ _ _ _ _ Ho) as (_ & _ & _ & _ & Hn).
    destruct (audit_cases t Hw) as [[-> _]|[(f & _ & Hf & _)|(e & i1 & raw1 & _ & _ & _ & _ & H1 & _)]]; [done|by destruct (Hn _ _ Hf)|by destruct (Hn _ _ H1)].
Qed.

Lemma inspection_value : run (inspect_database r (flight_of o)) t = (Ok (evidence_of r t o), t).
Proof using Hw Hcanon Hop Hid Ho.
  unfold inspect_database. rewrite Hop, (bool_decide_eq_true_2 (NewState = NewState)), Hid by done. cbn [negb]. unfold inspect_allocated.
  destruct o as [pre|a]; cbn [flight_of audit_conflict].
  - destruct (inspected_present _ _ _ _ _ Ho) as [_ Hs Htr Hcar _ Hprov _]. cbn [in_flight_state in_flight_transition].
    rewrite Hs, Htr, !(bool_decide_eq_true_2 (_ = _)) by done. cbn [negb].
    rewrite (bool_decide_eq_true_2 (is_Some (Some _))) by done.
    rewrite run_bind, run_ownership_of by (done || apply ownership_lawful).
    rewrite (proj2 (ownership_matching_iff t id (transition_id r)) Hcar), (bool_decide_eq_true_2 (Matching = Matching)) by done. cbn [negb].
    rewrite run_bind, run_previous by (done || apply previous_lawful).
    rewrite run_bind, run_provenance_of, Hprov by (done || apply provenance_of_lawful). cbn. by rewrite Hs.
  - destruct (inspected_absent _ _ _ _ _ Ho) as (-> & Hs & Hp & _ & _).
    rewrite (bool_decide_eq_false_2 (is_Some None)) by (by intros []).
    rewrite run_bind, run_ownership_of by (done || apply ownership_lawful).
    rewrite (proj2 (ownership_missing t id (transition_id r)) Hs), (bool_decide_eq_true_2 (Missing = Missing)), orb_true_r by done. cbn [negb].
    rewrite run_bind, run_previous by (done || apply previous_lawful).
    rewrite run_bind, run_provenance_of, Hp by (done || apply provenance_of_lawful). done.
Qed.

Lemma quiet_run {E A} (f : E -> RecoveryError.t) (m : tx tables E A) w a :
  lawful m -> run m (m_database w) = (Ok a, m_database w) -> quiet (on_database f m) w a w.
Proof using. intros Hl Hr. apply quiet_database. by rewrite (run_quiet _ _ Hl), Hr. Qed.

Context (w : machine) (Hdb : m_database w = t).

Lemma quiet_audit : quiet audit_in_flight w (flight_of o) w.
Proof using Hw Ho Hdb. apply quiet_run; [unfold audit_in_flight_transition; lawful|]. rewrite Hdb. apply audit_value. Qed.

Lemma quiet_inspect_with : quiet (inspect_with r (flight_of o)) w (evidence_of r t o) w.
Proof using Hw Hcanon Hop Hid Ho Hdb. apply quiet_run; [apply inspect_database_lawful|]. rewrite Hdb. apply inspection_value. Qed.

Lemma quiet_inspect : quiet (inspect r) w (evidence_of r t o) w.
Proof using Hw Hcanon Hop Hid Ho Hdb. eapply quiet_bind; [apply quiet_audit|apply quiet_inspect_with]. Qed.

Lemma quiet_inspect_fresh : quiet (inspect_fresh self r) w (evidence_of r t o, o) w.
Proof using Hw Hcanon Hop Hid Ho Hdb.
  unfold inspect_fresh. rewrite Hid.
  assert (quiet (on_database RecoveryError.ExactInspection (inspect_exact_fresh_transition self id (transition_id r))) w o w) as Hq.
  { apply quiet_database. unfold inspect_exact_fresh_transition, exclusive_tx. cbn [tail].
    rewrite (run_quiet _ _ (inspect_lawful self id _)), run_inspect, Hdb, Ho. done. }
  eapply quiet_bind; [exact Hq|]. eapply quiet_bind; [apply quiet_inspect|]. eapply quiet_bind; [exact Hq|].
  eapply quiet_bind; [apply quiet_require; by apply bool_decide_eq_true|]. apply quiet_ret.
Qed.
End evidence.

#[export] Hint Resolve inert_audit inert_inspect_with inert_inspect inert_inspect_fresh : recovery.

(** ** Rows by stage *)

Definition observed_at (st : Stage.t) (o : ExactFreshTransitionObservation.t) : bool :=
  match st, o with
  | Stage.Invalidating, _ => true
  | (Stage.Invalidated | Stage.Complete), ExactFreshTransitionObservation.JointlyAbsent _ => true
  | (Stage.Invalidated | Stage.Complete), ExactFreshTransitionObservation.Present _ => false
  | _, ExactFreshTransitionObservation.Present _ => true
  | _, ExactFreshTransitionObservation.JointlyAbsent _ => false
  end.

Section rows.
Context `{Sqlite} `{Chrono} (self : nat).

(** The database has the row of the candidate, or no trace of it, and the previous state is
    settled. *)
Record rows (r : TransitionRecord) (t : tables) (id : Z) (o : ExactFreshTransitionObservation.t) : Prop := {
  rw_wf : well_formed t;
  rw_canonical : canonical (transition_id r);
  rw_candidate : cand_id (candidate r) = Some id;
  rw_previous : forall p, prev_id (previous r) = Some p -> settled_row t p;
  rw_observed : inspected self id (transition_id r) t = Ok o;
}.

Context (r : TransitionRecord) (src : ForwardPhase.t) (st : Stage.t) (Hc : checkpoint r src st).
Context (t : tables) (id : Z) (o : ExactFreshTransitionObservation.t) (Hr : rows r t id o) (Hs : observed_at st o = true).

Lemma rows_expected :
  ownership_expected (fresh_database_expectation r)
    (match o with ExactFreshTransitionObservation.Present _ => Matching | ExactFreshTransitionObservation.JointlyAbsent _ => Missing end) = true
  /\ (forall pre, o = ExactFreshTransitionObservation.Present pre ->
       provenance_expected (fresh_provenance_expectation r) (Some (pre_metadata_provenance pre)) = true).
Proof using Hc Hr Hs.
  destruct Hc as [_ _ Hsrc Hph Hplan _ _ _]. unfold fresh_database_expectation, fresh_provenance_expectation.
  destruct (decide (st = Stage.Forward)) as [->|Hst].
  - rewrite Hplan, Hph. destruct o; try done. destruct src; try done; split; try done; intros pre' _; cbn; by apply bool_decide_eq_true.
  - assert (exists plan, rollback r = Some plan /\ plan_at src st plan) as (plan & -> & []) by (by destruct st).
    rewrite pl_source, Hph. destruct st; try done; cbn in pl_fresh;
      rewrite ?pl_fresh; try (destruct (rp_fresh_db plan); try done); destruct o; try done;
      (split; [done|]); intros pre' ?; try done; destruct src; try done; cbn; by apply bool_decide_eq_true.
Qed.

Lemma rows_compatible : database_is_compatible r (evidence_of r t o) = true.
Proof using Hc Hr Hs.
  destruct rows_expected as [He Hp]. destruct Hr as [Hw Hcan Hid Hprev Hobs]. unfold database_is_compatible.
  assert (forall i, previous_state_compatible (previous_at r i t) = true) as Hpc.
  { intros i. apply previous_compatible_iff. intros p Hpid _. by apply Hprev. }
  destruct o as [pre|a]; cbn; rewrite Hpc, He; [|done]. cbn. by apply Hp.
Qed.

Lemma rows_pair : database_pair_is_exact r (evidence_of r t o, o) = true.
Proof using Hc Hr Hs.
  unfold database_pair_is_exact. cbn [fst]. rewrite rows_compatible. destruct Hr as [Hw Hcan Hid Hprev Hobs]. rewrite Hid.
  destruct o as [pre|a]; cbn -[bool_decide].
  - destruct (inspected_present _ _ _ _ _ Hobs) as [_ -> -> _ _ _ _]. by rewrite !bool_decide_eq_true_2.
  - destruct (inspected_absent _ _ _ _ _ Hobs) as (-> & _). cbn -[bool_decide]. by rewrite !bool_decide_eq_true_2.
Qed.

Lemma rows_matching : st <> Stage.Invalidating -> st <> Stage.Invalidated -> st <> Stage.Complete ->
  candidate_matches (evidence_of r t o) = true.
Proof using Hc Hr Hs. intros H1 H2 H3. destruct o; [by cbn|]. by destruct st. Qed.

Lemma rows_absent : st = Stage.Invalidated \/ st = Stage.Complete -> absent_pair_is_exact r (evidence_of r t o, o) = true.
Proof using Hc Hr Hs.
  intros Hst. unfold absent_pair_is_exact. rewrite rows_pair, andb_true_r. destruct o; [|done]. by destruct Hst as [-> | ->].
Qed.
End rows.

(** The rows are the same for every record of a transition. *)
Lemma rows_same `{Sqlite} `{Chrono} self r r' t id o : same_transition r r' -> cand_id (candidate r) = cand_id (candidate r') ->
  rows self r t id o -> rows self r' t id o.
Proof. intros [] Hid []. split; rewrite <- ?st_transition, <- ?st_previous, <- ?Hid; done. Qed.

(** ** The invariant *)

(** The parents of the exchange until it is recorded or taken back, the root while its
    links are made, and what preserving the candidate touches *)
Definition pending_dirs (src : ForwardPhase.t) (st : Stage.t) : list Directory.t :=
  match st with
  | Stage.Forward =>
      if bool_decide (src = ForwardPhase.UsrExchangeIntent) then [Directory.Staging; Directory.InstallationRoot]
      else [Directory.InstallationRoot]
  | Stage.DecidedExchanged | Stage.Reversing => [Directory.Staging; Directory.InstallationRoot]
  | Stage.Preserving =>
      [Directory.CandidateTree; Directory.Staging; Directory.TransitionTarget; Directory.QuarantineParent]
  | _ => []
  end.

Section invariant.
Context `{Sqlite} `{Chrono} (self : nat).

(** A machine whose journal holds the record of a rollback, or the one it starts from.  An
    exchange that was not made yet leaves nothing to synchronise. *)
Record at_stage (r : TransitionRecord) (src : ForwardPhase.t) (st : Stage.t) (w : machine) : Prop := {
  iv_checkpoint : checkpoint r src st;
  iv_journal : m_journal w = Some r;
  iv_rows : exists id o, rows self r (m_database w) id o /\ observed_at st o = true;
  iv_standing : forall s, s ∈ visible w :: survivors w -> standing r src st s;
  iv_unsynced : forall d, d ∈ unsynced w -> d ∈ pending_dirs src st;
  iv_staged : st = Stage.Forward -> arrangement r (Arrangement.Staged Quarantine.Missing) (visible w) ->
    survivors w = [] /\ unsynced w = [];
}.

(** The record is gone: so is the row of the candidate, and the candidate is in quarantine. *)
Record rolled_back (r : TransitionRecord) (w : machine) : Prop := {
  rb_journal : m_journal w = None;
  rb_rows : exists id o, rows self r (m_database w) id o /\ observed_at Stage.Complete o = true;
  rb_standing : forall s, s ∈ visible w :: survivors w -> arrangement r Arrangement.Preserved s;
}.

(** The machine is somewhere on the way from the record [r0] to the end of its rollback. *)
Definition recovering (r0 : TransitionRecord) (src : ForwardPhase.t) (w : machine) : Prop :=
  (exists r st, same_transition r0 r /\ cand_id (candidate r0) = cand_id (candidate r) /\ at_stage r src st w)
  \/ rolled_back r0 w.

Lemma at_stage_crash r src st w w' : at_stage r src st w -> crashes w w' -> at_stage r src st w'.
Proof.
  intros [? ? ? Hst ? ?] (s & Hs & ->). split; try done.
  - intros s' [->|?]%elem_of_cons; [by apply Hst|]. set_solver.
  - set_solver.
Qed.

Lemma rolled_back_crash r w w' : rolled_back r w -> crashes w w' -> rolled_back r w'.
Proof. intros [? ? Hst] (s & Hs & ->). split; try done. intros s' [->|?]%elem_of_cons; [by apply Hst|]. set_solver. Qed.

(** A crash does not lead off the way. *)
Lemma recovering_crash r0 src w w' : recovering r0 src w -> crashes w w' -> recovering r0 src w'.
Proof.
  intros [(r & st & Hs & Hid & Ha)|Hr] Hw; [left|right; by eapply rolled_back_crash].
  exists r, st. split_and!; [done..|by eapply at_stage_crash].
Qed.
End invariant.
