(* ===== verification/StartupSafety.v ===== *)
(** * Recovery is safe

    An entry keeps the machine on the way from the record it found to the end of the
    rollback, whatever reads, writes and movements fail or report a failure after taking
    effect; and so does a crash at any point.  The record never runs ahead of what is durable. *)

From S2P Require Import Prelude ByteStrings Ordered SqlDb SqlTx JournalModel JournalValidation JournalMachine JournalSuccessors StateDb StateDbExact StateDbInvariant StateDbTheorems StateDbRemoval StartupEvidence StartupEvidenceTheorems Namespace NamespaceMoves StartupMachine StartupPlans StartupHandlers StartupLogic Arrangements ArrangementMoves StartupCheckpoints StartupInvariant.

(** ** Idle handlers *)

(** A handler that does not take the record *)
Definition idles {A} (m : recovery A) (a : A) : Prop := forall c, m c = (Ok a, c).

Lemma idles_bind {A B} (m : recovery A) (f : A -> recovery B) a b : idles m a -> idles (f a) b -> idles (m ≫= f) b.
Proof. intros Hm Hf c. unfold mbind, tx_bind. rewrite Hm. destruct c. apply Hf. Qed.

Lemma triple_idles {A B} X P (m : recovery A) (f : A -> recovery B) a (Q : B -> machine -> Prop) :
  idles m a -> triple X P (f a) Q -> triple X P (m ≫= f) Q.
Proof. intros Hm Hf w fs Hp. unfold mbind, tx_bind. rewrite Hm. by apply Hf. Qed.

Lemma quiet_idles {A B} (m : recovery A) (f : A -> recovery B) a w b w' :
  idles m a -> quiet (f a) w b w' -> quiet (m ≫= f) w b w'.
Proof. intros Hm Hf. eapply quiet_bind; [|exact Hf]. apply Hm. Qed.

Section idle.
Context `{Sqlite} `{Chrono} `{FileSystem} (self : nat).
Context (r : TransitionRecord) (src : ForwardPhase.t) (st : Stage.t) (Hc : checkpoint r src st).

Lemma root_abi_idle f : stage_phase src st <> Phase.UsrExchanged -> idles (root_abi_step r f) (Some f).
Proof using Hc.
  intros Hp c. unfold root_abi_step, root_abi_capture. rewrite (cp_phase _ _ _ Hc), bool_decide_eq_false_2 by done. by destruct c.
Qed.

Lemma decision_idle f : st <> Stage.Forward -> idles (decision r f) None.
Proof using Hc. intros Hp c. unfold decision. by rewrite (rollback_not_supported _ _ _ Hc Hp). Qed.

Lemma route_idle f : stage_phase src st <> Phase.RollbackDecided -> stage_phase src st <> Phase.UsrRestored -> idles (resume_route r f) None.
Proof using Hc.
  intros N1 N2 c. unfold resume_route. rewrite (cp_phase _ _ _ Hc), bool_decide_eq_false_2; [done|]. by intros [].
Qed.

Lemma reverse_idle f : stage_phase src st <> Phase.ReverseExchangeIntent -> idles (reverse r f) None.
Proof using Hc.
  intros Hp c. unfold reverse, reverse_capture. rewrite (cp_phase _ _ _ Hc), bool_decide_eq_false_2 by done. by destruct c.
Qed.
End idle.

(** ** Keeping a stage *)

Section keeping.
Context `{Sqlite} `{Chrono} (self : nat).

Lemma at_stage_sync r src st w d : at_stage self r src st w -> at_stage self r src st (synced d w).
Proof.
  intros [Hc Hj Hrows Hst Hu Hstg]. assert (synced d w = syncs [d] w) as E by done.
  destruct (syncs_shrinks [d] w) as [Hu' Hs']. split; try done; rewrite ?E.
  - intros s [->|Hs]%elem_of_cons; [apply Hst; left|]. apply Hst. right. by apply Hs'.
  - intros d' Hd. apply Hu. by apply Hu' in Hd as [? _].
  - intros Hf Ha. destruct (Hstg Hf Ha) as [E1 E2]. cbn. rewrite E1, E2. by cbn.
Qed.

Lemma at_stage_syncs r src st w l : at_stage self r src st w -> at_stage self r src st (syncs l w).
Proof. revert w. induction l as [|d l IH]; intros w Ha; [done|]. apply IH. by apply at_stage_sync. Qed.

(** A movement to where the trees may be *)
Lemma at_stage_moved r src st w dirs s : at_stage self r src st w -> standing r src st s ->
  (forall d, d ∈ dirs -> d ∈ pending_dirs src st) ->
  (st = Stage.Forward -> ~ arrangement r (Arrangement.Staged Quarantine.Missing) s) ->
  at_stage self r src st (moved dirs s w).
Proof.
  intros [Hc Hj Hrows Hst Hu Hstg] Hs Hd Hf. split; try done.
  - intros s' [->|Hin]%elem_of_cons; [done|]. by apply Hst.
  - intros d [Hin|Hin]%elem_of_app; auto.
  - intros E Ha. by destruct (Hf E).
Qed.

Lemma exchanged_not_staged r src st q s : checkpoint r src st -> arrangement r Arrangement.Exchanged s ->
  ~ arrangement r (Arrangement.Staged q) s.
Proof.
  intros Hc [x Hx] [y Hy]. pose proof (ar_placed _ _ _ _ Hx) as (E1 & _). pose proof (ar_placed _ _ _ _ Hy) as (E2 & _).
  pose proof (nm_candidate _ _ _ _ (ar_named _ _ _ _ Hx)). pose proof (nm_previous _ _ _ _ (ar_named _ _ _ _ Hy)).
  apply (checkpoint_distinct _ _ _ Hc). congruence.
Qed.

Context (r0 : TransitionRecord) (src : ForwardPhase.t).

(** The record and its stage, on the way *)
Definition stage_of (r : TransitionRecord) (st : Stage.t) (w : machine) : Prop :=
  same_transition r0 r /\ cand_id (candidate r0) = cand_id (candidate r) /\ at_stage self r src st w.

Lemma stage_recovering r st w : stage_of r st w -> recovering self r0 src w.
Proof. intros Hs. left. by exists r, st. Qed.

(** Publishing a record that follows *)
Lemma publish_recovering r st w next st' : stage_of r st w -> advances r next -> checkpoint next src st' -> st' <> Stage.Forward ->
  (forall s, s ∈ visible w :: survivors w -> exists a, may_stand src st' a = true /\ arrangement r a s) ->
  (forall s, s ∈ visible w :: survivors w -> (8 <= forward_ordinal src)%Z -> is_complete (root_abi s) = true) ->
  (forall id o, rows self r (m_database w) id o -> observed_at st o = true -> observed_at st' o = true) ->
  (forall d, d ∈ unsynced w -> d ∈ pending_dirs src st') ->
  stage_of next st' (with_journal (Some next) w).
Proof.
  intros (Hs & Hid & [Hc Hj (id & o & Hrows & Ho) Hst Hu _]) Had Hc' Hf Ha Hl Hobs Hd.
  destruct (checkpoint_advances _ _ _ _ Hc Had) as [Hs' Hid']. split_and!; [by etrans|congruence|]. split; try done.
  - exists id, o. split; [by eapply rows_same|by eapply Hobs].
  - intros s Hin. destruct (Ha s Hin) as (a & Hm & Har). exists a. split_and!; [done|by eapply arrangement_same|].
    intros H8. apply (Hl s Hin). by destruct st'.
Qed.
End keeping.

Section safety.
Context `{SQ : Sqlite} `{CH : Chrono} `{FS : FileSystem} `{FL : !FileSystemLaws} (self : nat).
Context (r0 : TransitionRecord) (src : ForwardPhase.t).

Abbreviation X := (recovering self r0 src).
Abbreviation on_stage := (stage_of self r0 src).

Lemma inert_pending r f : inert (pending r f).
Proof using FL. unfold pending. inert. Qed.

Lemma inert_handled r : inert (handled r).
Proof using FL. pose proof (inert_pending r). unfold handled. inert. Qed.

Lemma inert_journal_check r : inert (journal_check r).
Proof using FL. apply inert_journal. Qed.

#[local] Hint Resolve inert_pending inert_handled inert_journal_check stage_recovering : recovery.

(** What is visible, by its arrangement *)
Lemma stage_visible r st w : on_stage r st w ->
  exists a, may_stand src st a = true /\ arrangement r a (visible w) /\ linked src st (visible w) /\ checkpoint r src st.
Proof using FL.
  intros (_ & _ & [Hc _ _ Hst _ _]). destruct (Hst (visible w)) as (a & Hm & Ha & Hl); [left|]. eauto 10.
Qed.

(** ** The decision *)

Lemma decided_publish r w next u : on_stage r Stage.Forward w ->
  rollback_decision (rollback_observations (operation r) u None) r = Ok next -> advances r next ->
  (u = InitialRollbackAction.AlreadySatisfied -> src = ForwardPhase.UsrExchangeIntent /\ unsynced w = []) ->
  (forall s, s ∈ visible w :: survivors w -> (8 <= forward_ordinal src)%Z -> is_complete (root_abi s) = true) ->
  (forall s, s ∈ visible w :: survivors w -> arrangement r (match u with
     | InitialRollbackAction.Pending => Arrangement.Exchanged
     | InitialRollbackAction.AlreadySatisfied => Arrangement.Staged Quarantine.Missing
     end) s) -> on_stage next (decided_stage u) (with_journal (Some next) w).
Proof using FL.
  intros Hst Hd Had Hu Hl Ha. pose proof Hst as (_ & _ & [Hc _ _ _ Huns _]).
  destruct (decided_checkpoint r src u Hc) as (next' & Hd' & _ & Hc'); [by intros E; apply Hu|].
  rewrite Hd in Hd'. injection Hd' as <-. eapply publish_recovering; try done.
  - by destruct u.
  - intros s Hs. eexists. split; [|by apply Ha]. by destruct u.
  - intros id o _. by destruct u, o.
  - destruct u; cbn.
    + intros d Hin%Huns. cbn in Hin. case_bool_decide; set_solver.
    + destruct (Hu eq_refl) as [_ ->]. set_solver.
Qed.

(** Before the decision the links of an exchange that was recorded are complete and durable. *)
Definition links_durable (w : machine) : Prop :=
  src = ForwardPhase.UsrExchanged -> survivors w = [] /\ is_complete (root_abi (visible w)) = true.

Lemma forward_linked r w : on_stage r Stage.Forward w -> links_durable w ->
  forall s, s ∈ visible w :: survivors w -> (8 <= forward_ordinal src)%Z -> is_complete (root_abi s) = true.
Proof using FL.
  intros (_ & _ & [Hc _ _ Hst _ _]) Hd s Hs H8. destruct (Hst s Hs) as (a & _ & _ & Hl).
  destruct (decide (src = ForwardPhase.UsrExchanged)) as [E|E].
  - destruct (Hd E) as [Hn Hv]. rewrite Hn in Hs. by apply list_elem_of_singleton in Hs as ->.
  - apply Hl. pose proof (cp_source _ _ _ Hc). destruct src; try done; cbn in *; lia.
Qed.

Lemma forward_exchanged r w : on_stage r Stage.Forward w -> src <> ForwardPhase.UsrExchangeIntent ->
  forall s, s ∈ visible w :: survivors w -> arrangement r Arrangement.Exchanged s.
Proof using FL.
  intros (_ & _ & [Hc _ _ Hst _ _]) Hne s Hs. destruct (Hst s Hs) as (a & Hm & Ha & _).
  destruct a as [|[]|]; try done. cbn in Hm. by case_bool_decide.
Qed.

Lemma inert_decision_revalidate r a : inert (decision_revalidate r a).
Proof using FL. apply inert_revalidate; eauto with recovery. Qed.

Lemma decision_persist_safe r w a u : on_stage r Stage.Forward w -> 
  (forall next, rollback_decision (rollback_observations (operation r) u None) r = Ok next -> advances r next -> X (with_journal (Some next) w)) ->
  triple X (at_machine w) (next ← persist_decision r a u None; mret (Some next)) (fun _ => X).
Proof using FL.
  intros Hst Hn. eapply at_bind; [apply triple_persist; eauto with recovery; [by intros ? ->; eauto with recovery|]|].
  - intros w' next -> Hd _ _ Had. by apply Hn.
  - intros next w' Hx. by apply at_ret.
Qed.

Lemma sync_stage r st w d : on_stage r st w -> on_stage r st (synced d w).
Proof using FL. intros (? & ? & Ha). split_and!; [done..|by apply at_stage_sync]. Qed.

Lemma parent_durability_safe r w a : on_stage r Stage.Forward w ->
  triple X (at_machine w) (parent_durability r a) (fun _ w' => w' = syncs [Directory.Staging; Directory.InstallationRoot] w).
Proof using FL.
  intros Hst. pose proof (sync_stage _ _ _ Directory.Staging Hst) as Hst1.
  pose proof (sync_stage _ _ _ Directory.InstallationRoot Hst1) as Hst2. unfold parent_durability.
  eapply at_looks; [apply inert_decision_revalidate|eauto with recovery|]. intros ? _.
  apply at_write; [eauto with recovery..|]. apply at_write; [eauto with recovery..|].
  eapply at_looks; [apply inert_namespace|eauto with recovery|]. intros ? _.
  apply at_stays; [apply inert_decision_revalidate|eauto with recovery].
Qed.

Lemma decision_safe r w f : on_stage r Stage.Forward w -> links_durable w ->
  triple X (at_machine w) (decision r f) (fun _ => X).
Proof using FL.
  intros Hst Hlinks. destruct (stage_visible _ _ _ Hst) as (a0 & Hm & Ha & Hl & Hc). unfold decision.
  destruct (forward_supported r src Hc) as [-> ->]. cbn [negb].
  eapply at_looks; [apply looks_capture_namespace_first; eauto with recovery|eauto with recovery|].
  intros [| |a] Hg; try (apply at_ret; eauto with recovery). destruct Hg as (_ & Hx & _ & _).
  assert (exists layout, exchange_of a0 = Some layout /\ a_namespace a = layout) as (layout & Hlay & ->).
  { destruct (exchange_of a0) as [l|] eqn:E; [|by destruct a0].
    rewrite (stage_exchange _ _ _ Hc _ _ Hm Ha Hl l E) in Hx. injection Hx as <-. eauto. }
  pose proof (forward_linked r w Hst Hlinks) as Hlk. rewrite (cp_phase _ _ _ Hc). cbn [stage_phase].
  destruct (decide (src = ForwardPhase.UsrExchangeIntent)) as [Hi|Hne].
  - assert (forall l, usr_exchange_observation (Phase_from src) l
      = Some (match l with UsrExchangeLayout.Pre => Some InitialRollbackAction.AlreadySatisfied | UsrExchangeLayout.Post => None end))
      as -> by (intros []; by rewrite Hi).
    destruct a0 as [|[]|]; try done; injection Hlay as <-; cbn beta iota.
    + eapply at_bind; [by apply parent_durability_safe|]. intros ? w' ->.
      pose proof (sync_stage _ _ _ Directory.InstallationRoot (sync_stage _ _ _ Directory.Staging Hst)) as Hst2.
      destruct (syncs_clears [Directory.Staging; Directory.InstallationRoot] w) as [Hn1 Hn2]; [done| |].
      { intros d Hd. pose proof Hst as (_ & _ & [_ _ _ _ Hu _]). apply Hu in Hd. cbn in Hd. by rewrite Hi in Hd. }
      apply decision_persist_safe; [done|]. intros next Hd Had. eapply stage_recovering, decided_publish; try done.
      * intros s Hs H8. by rewrite Hi in H8.
      * rewrite Hn1. intros s ->%list_elem_of_singleton. done.
    + pose proof Hst as (_ & _ & [_ _ _ _ _ Hstg]). destruct (Hstg eq_refl Ha) as [Hn1 Hn2].
      apply decision_persist_safe; [done|]. intros next Hd Had. eapply stage_recovering, decided_publish; try done.
      rewrite Hn1. intros s ->%list_elem_of_singleton. done.
  - assert (a0 = Arrangement.Exchanged) as ->.
    { destruct a0 as [|[]|]; try done. cbn in Hm. by case_bool_decide. }
    cbn in Hlay. injection Hlay as <-.
    assert (usr_exchange_observation (Phase_from src) UsrExchangeLayout.Post = Some (Some InitialRollbackAction.Pending)) as ->.
    { pose proof (cp_source _ _ _ Hc). by destruct src. }
    apply decision_persist_safe; [done|]. intros next Hd Had. eapply stage_recovering, decided_publish; try done. by apply forward_exchanged.
Qed.

(** ** The links of the root *)

Lemma inert_root_abi_source r s : inert (root_abi_revalidate_source r s).
Proof using FL. unfold root_abi_revalidate_source. inert. Qed.

Lemma inert_current_database r d : inert (current_database r d).
Proof using FL. apply inert_exact_database. eauto with recovery. Qed.

#[local] Hint Resolve inert_root_abi_source inert_current_database : recovery.

Lemma inert_database_and_binding r d : inert (revalidate_database_and_binding r d).
Proof using FL. unfold revalidate_database_and_binding. inert. Qed.

Lemma inert_root_abi_revalidate r a : inert (root_abi_revalidate r a).
Proof using FL. unfold root_abi_revalidate. inert. Qed.

Lemma inert_reconcile_publication r s : inert (reconcile_after_publication r s).
Proof using FL. unfold reconcile_after_publication. inert. Qed.

#[local] Hint Resolve inert_database_and_binding inert_root_abi_revalidate inert_reconcile_publication : recovery.

Lemma looks_root_abi_inspection r : looks (root_abi_inspection r) (fun w s => s = visible w).
Proof using FL.
  unfold root_abi_inspection. eapply looks_bind; [apply looks_inspection_begin; eauto with recovery|]. intros s.
  eapply looks_bind; [apply looks_inspection_finish; eauto with recovery|]. intros n. apply looks_ret. by intros w [-> _].
Qed.

Lemma looks_root_abi_capture r f : looks (root_abi_capture r f) (fun w admission =>
  match admission with
  | Admission.Ready a => a_snapshot a = visible w
  | Admission.Deferred => True
  | Admission.NotApplicable => negb (bool_decide (phase r = Phase.UsrExchanged)) || bool_decide (is_Some (rollback r)) = true
  end).
Proof using FL.
  unfold root_abi_capture. destruct (_ || _); [by apply looks_ret|].
  eapply looks_bind; [apply inert_binding|]. intros ?. eapply looks_bind; [apply inert_namespace|]. intros ?.
  eapply looks_bind; [apply inert_inspect_with|]. intros d. destruct (negb _); [by apply looks_ret|].
  eapply looks_bind; [apply looks_attempt, looks_root_abi_inspection|]. intros [s|e]; [|by apply looks_ret].
  eapply looks_bind; [apply inert_inspect|]. intros d'. eapply looks_bind; [apply looks_require|]. intros ?.
  destruct (negb _); [by apply looks_ret|]. eapply looks_bind; [apply inert_namespace|]. intros ?.
  eapply looks_bind; [apply inert_binding|]. intros ?. apply looks_ret. intros w _ _ _ _ Hs _ _ _. by apply Hs.
Qed.

Section links.
Context (r : TransitionRecord) (Hexch : src = ForwardPhase.UsrExchanged).
Abbreviation S := (on_stage r Stage.Forward).

Lemma link_stage w i : S w -> root_abi (visible w) !! i = Some None ->
  S (moved [Directory.InstallationRoot] (link_root i (visible w)) w).
Proof using FL Hexch.
  intros Hst Hi. destruct (stage_visible _ _ _ Hst) as (a & Hm & Ha & Hl & Hc). pose proof Hst as (Hs & Hid & Hat).
  assert (arrangement r Arrangement.Exchanged (link_root i (visible w))) as Hx.
  { apply link_arranged; [done|]. apply (forward_exchanged r w Hst); [by rewrite Hexch|left]. }
  split_and!; [done..|]. apply at_stage_moved; [done| | |].
  - exists Arrangement.Exchanged. split_and!; [done..|]. unfold linked. rewrite Hexch. cbn. lia.
  - intros d ->%list_elem_of_singleton. rewrite Hexch. cbn. set_solver.
  - intros _. by eapply exchanged_not_staged.
Qed.

Lemma absent_links_spec abi i : i ∈ absent_links abi -> abi !! i = Some None.
Proof using. unfold absent_links. intros [_ Hb]%list_elem_of_In%filter_In. by apply bool_decide_eq_true in Hb. Qed.

Lemma absent_links_nodup abi : NoDup (absent_links abi).
Proof using. unfold absent_links. apply NoDup_ListNoDup, List.NoDup_filter, seq_NoDup. Qed.

Lemma links_safe l : NoDup l -> forall w, S w -> (forall i, i ∈ l -> root_abi (visible w) !! i = Some None) ->
  triple S (at_machine w) (for_each (fun i => created ← move_once [Directory.InstallationRoot] (link_root i);
                                              require created RecoveryError.PublicationFailed) l) (fun _ => S).
Proof using FL Hexch.
  induction 1 as [|i l Hi Hnd IH]; intros w Hst Hl; cbn [for_each]; [by apply at_ret|].
  assert (root_abi (visible w) !! i = Some None) as Hn by (apply Hl; left).
  pose proof (link_stage w i Hst Hn) as Hst'. set (w1 := moved _ _ w) in *.
  assert (forall w', w' = w \/ w' = w1 -> S w') as HS by (by intros w' [-> | ->]).
  apply (triple_bind _ _ _ _ (fun _ w' => w' = w \/ w' = w1)).
  { eapply triple_bind; [apply triple_move|]. intros created. eapply triple_conseq;
      [apply (triple_looks _ (fun w' => w' = w \/ w' = w1)); [apply inert_require|exact HS]| |by intros ? w' [Hw _]].
    intros w' [->|(? & -> & ->)]; auto. }
  intros []. apply triple_observe_state. intros w' [-> | ->]; apply IH; try done.
  - intros j Hj. apply Hl. by right.
  - intros j Hj. cbn. destruct (link_root_law i (visible w) Hn) as [[k ->] _ _ _].
    rewrite list_lookup_insert_ne by (intros ->; done). apply Hl. by right.
Qed.

Lemma create_links_safe w : S w -> triple S (at_machine w) create_root_links_retained (fun _ => S).
Proof using FL Hexch.
  intros Hst. unfold create_root_links_retained. eapply at_looks; [apply looks_observe|done|]. intros s ->.
  eapply triple_bind; [apply links_safe; [apply absent_links_nodup|done|apply absent_links_spec]|]. intros [].
  apply triple_observe_state. intros w' Hst'. eapply (triple_conseq _ _ (at_machine w')); [apply triple_write|done|].
  - by intros ? ->.
  - intros ? ->. by apply sync_stage.
  - intros ? ? (? & -> & ->). by apply sync_stage.
Qed.

Lemma normalize_links_safe w a : S w -> triple X (at_machine w) (normalize_usr_exchanged_root_abi r a) (fun _ => S).
Proof using FL Hexch.
  intros Hst. unfold normalize_usr_exchanged_root_abi. pose proof (stage_recovering _ _ _ _ _ _ Hst) as HX.
  do 4 (eapply at_looks; [eauto with recovery|done|]; intros ? _).
  eapply at_bind; [eapply triple_attempt, create_links_safe, Hst|]. intros publication w' Hst'.
  assert (S w') as Hw by (by destruct publication). pose proof (stage_recovering _ _ _ _ _ _ Hw) as HX'.
  eapply at_looks; [apply looks_attempt; eauto with recovery|done|]. intros ? _.
  do 3 (eapply at_looks; [eauto with recovery|done|]; intros ? _).
  eapply triple_conseq; [apply at_stays; [apply inert_root_abi_source|exact HX']|done|by intros ? ? ->].
Qed.

Lemma synchronize_links_safe w a : S w ->
  triple X (at_machine w) (synchronize_usr_exchanged_root_abi r a) (fun _ w' => w' = synced Directory.InstallationRoot w).
Proof using FL Hexch.
  intros Hst. unfold synchronize_usr_exchanged_root_abi. pose proof (stage_recovering _ _ _ _ _ _ Hst) as HX.
  do 4 (eapply at_looks; [eauto with recovery|done|]; intros ? _).
  pose proof (sync_stage _ _ _ Directory.InstallationRoot Hst) as Hst1. pose proof (stage_recovering _ _ _ _ _ _ Hst1) as HX1.
  eapply at_bind.
  { eapply triple_attempt, (triple_conseq _ _ (at_machine w) _ (fun _ w' => w' = synced Directory.InstallationRoot w));
      [apply (triple_write S (at_machine w)); by intros ? ->|done|]. by intros ? w' (? & -> & ->). }
  intros [[]|e] w' Hw; cbn in Hw.
  - subst w'. eapply at_looks; [apply looks_attempt; eauto with recovery|done|]. intros ? _.
    do 3 (eapply at_looks; [eauto with recovery|done|]; intros ? _). apply at_stays; [apply inert_root_abi_source|done].
  - pose proof (stage_recovering _ _ _ _ _ _ Hw) as HX2.
    eapply at_looks; [apply looks_attempt; eauto with recovery|done|]. intros ? _.
    eapply (triple_bind _ _ _ _ (fun _ _ => False)); [apply triple_fail; by intros ? ->|]. by intros ? ? ? [].
Qed.
End links.

Lemma root_abi_safe r w f : on_stage r Stage.Forward w ->
  triple X (at_machine w) (root_abi_step r f) (fun res w' => on_stage r Stage.Forward w' /\ (is_Some res -> links_durable w')).
Proof using FL.
  intros Hst. destruct (stage_visible _ _ _ Hst) as (a0 & _ & _ & _ & Hc). pose proof (stage_recovering _ _ _ _ _ _ Hst) as HX.
  destruct (decide (src = ForwardPhase.UsrExchanged)) as [Hx|Hx].
  2: { assert (idles (root_abi_step r f) (Some f)) as Hi.
       { apply (root_abi_idle r src _ Hc). pose proof (cp_source _ _ _ Hc). by destruct src. }
       intros w' fs ->. rewrite Hi. split; [done|]. by intros _ ?. }
  unfold root_abi_step. eapply at_looks; [apply looks_root_abi_capture|done|]. intros [| |a] Ha.
  - rewrite (cp_phase _ _ _ Hc), (cp_plan _ _ _ Hc), Hx in Ha. done.
  - apply at_ret. split; [done|]. by intros [].
  - destruct (is_complete _) eqn:Hcomplete.
    + eapply at_bind; [by apply synchronize_links_safe|]. intros ? ? ->.
      pose proof (sync_stage _ _ _ Directory.InstallationRoot Hst) as Hst1.
      eapply at_looks; [apply inert_audit|eauto with recovery|]. intros again _. apply at_ret. split; [done|].
      intros _ _. rewrite Ha in Hcomplete. split; [|done].
      apply (syncs_clears [Directory.InstallationRoot] w); [done|]. pose proof Hst as (_ & _ & [_ _ _ _ Hu _]).
      intros d Hd%Hu. rewrite Hx in Hd. done.
    + eapply at_bind; [by apply normalize_links_safe|]. intros ? w' Hst'. apply at_ret. split; [done|]. by intros [].
Qed.
(** ** Routes *)

Lemma stage_linked r st w : on_stage r st w -> st <> Stage.Forward ->
  forall s, s ∈ visible w :: survivors w -> (8 <= forward_ordinal src)%Z -> is_complete (root_abi s) = true.
Proof using FL.
  intros (_ & _ & [_ _ _ Hst _ _]) Hne s Hs H8. destruct (Hst s Hs) as (a & _ & _ & Hl). apply Hl. by destruct st.
Qed.

(** A route changes nothing but the record. *)
Lemma route_publish r st w next : on_stage r st w -> outcome_fits st None = true -> rollback_successor None r = Ok next ->
  on_stage next (next_stage st) (with_journal (Some next) w).
Proof using FL.
  intros Hst Ho Hn. pose proof Hst as (_ & _ & [Hc _ _ Hs Hu _]).
  destruct (successor_checkpoint r src st None Hc Ho) as (next' & Hn' & Had & Hc'). rewrite Hn in Hn'. injection Hn' as <-.
  eapply publish_recovering; try done.
  - by destruct st.
  - intros s Hin. destruct (Hs s Hin) as (a & Hm & Ha & _). exists a. split; [|done]. by destruct st, a as [|[]|].
  - apply (stage_linked r st); [done|by destruct st].
  - intros id o _ Hob. by destruct st, o.
  - intros d Hd%Hu. destruct st; try done; cbn in *; set_solver.
Qed.

(** The outcome of a movement is published when nothing older survives. *)
Lemma outcome_publish r st w o next a : on_stage r st w -> outcome_fits st (Some o) = true -> rollback_successor (Some o) r = Ok next ->
  survivors w = [] -> unsynced w = [] -> may_stand src (next_stage st) a = true -> arrangement r a (visible w) ->
  (forall id o, rows self r (m_database w) id o -> observed_at st o = true -> observed_at (next_stage st) o = true) ->
  on_stage next (next_stage st) (with_journal (Some next) w).
Proof using FL.
  intros Hst Ho Hn Hsv Hun Hm Ha Hob. pose proof Hst as (_ & _ & [Hc _ _ Hs Hu _]).
  destruct (successor_checkpoint r src st (Some o) Hc Ho) as (next' & Hn' & Had & Hc'). rewrite Hn in Hn'. injection Hn' as <-.
  eapply publish_recovering; try done.
  - by destruct st.
  - rewrite Hsv. intros s ->%list_elem_of_singleton. eauto.
  - apply (stage_linked r st); [done|by destruct st].
  - rewrite Hun. set_solver.
Qed.

Lemma route_safe r st w f : on_stage r st w -> is_Some (route_exchange st) -> triple X (at_machine w) (resume_route r f) (fun _ => X).
Proof using FL.
  intros Hst Hr. pose proof (stage_recovering _ _ _ _ _ _ Hst) as HX. unfold resume_route.
  destruct (_ || _); [by apply at_ret|].
  eapply at_looks; [eapply looks_inert, looks_capture_namespace_first; eauto with recovery|done|]. intros [| |a] _; try by apply at_ret.
  eapply at_bind; [apply triple_persist; eauto with recovery; [by intros ? ->|]|].
  - intros ? next -> Hn _ _ _. eapply stage_recovering, route_publish; [exact Hst| |exact Hn]. destruct st; try done; by destruct Hr.
  - intros next w' Hx. by apply at_ret.
Qed.

(** ** The reverse exchange *)

Lemma inert_reverse_final r a : inert (reverse_final r a).
Proof using FL. unfold reverse_final. apply inert_revalidate_namespace. apply inert_ret. Qed.

Lemma inert_reverse_lease r a : inert (reverse_lease r a).
Proof using FL. pose proof (inert_ret tt). unfold reverse_lease. apply inert_bind; [apply inert_revalidate; eauto with recovery|]. inert. Qed.

#[local] Hint Resolve inert_reverse_final inert_reverse_lease : recovery.

(** The visible namespace is the one the reversal leads to, and is on the way. *)
Definition reversed (r : TransitionRecord) (w : machine) : Prop :=
  on_stage r Stage.Reversing w /\ arrangement r (Arrangement.Staged Quarantine.Missing) (visible w).

Lemma exchange_stage r w : on_stage r Stage.Reversing w -> arrangement r Arrangement.Exchanged (visible w) ->
  reversed r (moved [Directory.Staging; Directory.InstallationRoot] (exchange_usr (visible w)) w).
Proof using FL.
  intros Hst Ha. pose proof Hst as (Hs & Hid & Hat). destruct (stage_visible _ _ _ Hst) as (a0 & _ & _ & Hl & Hc).
  destruct (exchange_admitted r (checkpoint_distinct _ _ _ Hc) _ Ha) as (Hx & Habi & _).
  split; [|done]. split_and!; [done..|]. apply at_stage_moved; try done.
  exists (Arrangement.Staged Quarantine.Missing). split_and!; [done..|]. unfold linked in *. by rewrite Habi.
Qed.

Lemma reverse_reconcile_safe r w a : on_stage r Stage.Reversing w -> a_snapshot a = visible w ->
  reverse_evidence r (visible w) = Ok (a_namespace a) ->
  triple X (at_machine w) (reverse_reconcile r a) (fun e w' => reversed r w' /\ e.1 = visible w').
Proof using FL.
  intros Hst Hs He. pose proof (stage_recovering _ _ _ _ _ _ Hst) as HX.
  destruct (stage_visible _ _ _ Hst) as (a0 & Hm & Ha & Hl & Hc). unfold reverse_reconcile.
  assert (exists layout, exchange_of a0 = Some layout /\ (a_namespace a).1 = layout) as (layout & Hlay & ->).
  { destruct (exchange_of a0) as [l|] eqn:E; [|by destruct a0].
    destruct (stage_reverse _ _ _ Hc _ _ Hm Ha Hl l E) as (p & _ & _ & He'). rewrite He in He'. injection He' as ->. eauto. }
  destruct a0 as [|[]|]; try done; cbn in Hlay; injection Hlay as <-.
  - pose proof (exchange_stage r w Hst Ha) as [Hst' Ha']. pose proof (stage_recovering _ _ _ _ _ _ Hst') as HX'.
    set (w1 := moved _ _ w) in *. eapply at_bind.
    { eapply triple_surrounded; [eauto with recovery|by intros ? ->| |].
      2: { eapply at_looks; [apply inert_reverse_final|done|]. intros ? _. apply triple_attempt_once; by intros ? ->. }
      by intros o w' [? _]. }
    intros [fresh| |] w' [HXw Hw]; [|by apply at_fail..]. apply at_ret. destruct Hw as (-> & Hne & _ & [->|(? & -> & ->)]).
    + by destruct Hne.
    + done.
  - eapply at_bind.
    { eapply triple_surrounded; [eauto with recovery|by intros ? ->| |by apply at_stays; [apply inert_reverse_final|]]. by intros ? ? ->. }
    intros ? ? ->. apply at_ret. done.
Qed.

Lemma reverse_safe r w f : on_stage r Stage.Reversing w -> triple X (at_machine w) (reverse r f) (fun _ => X).
Proof using FL.
  intros Hst. pose proof (stage_recovering _ _ _ _ _ _ Hst) as HX. unfold reverse, reverse_capture.
  destruct (stage_visible _ _ _ Hst) as (_ & _ & _ & _ & Hc). rewrite (cp_phase _ _ _ Hc). rewrite bool_decide_eq_true_2 by done. cbn [negb].
  eapply at_looks; [apply looks_capture_namespace_first; eauto with recovery|done|].
  intros [| |a] Hg; try by apply at_ret. destruct Hg as (Hs & He & _ & _).
  eapply at_looks; [apply inert_reverse_lease|done|]. intros ? _.
  eapply at_bind; [apply reverse_reconcile_safe; done|]. intros [fresh o] w1 [[Hst1 Ha1] Hf]. cbn [fst snd] in *. subst fresh.
  eapply at_bind.
  { apply triple_complete_durability; [eauto with recovery|]. intros ? l ->. apply (stage_recovering _ _ _ r Stage.Reversing).
    destruct Hst1 as (? & ? & ?). split_and!; [done..|by apply at_stage_syncs]. }
  intros ? w2 (? & -> & -> & _). destruct (syncs_keeps [Directory.Staging; Directory.InstallationRoot] w1) as (_ & _ & Hv).
  destruct (syncs_clears [Directory.Staging; Directory.InstallationRoot] w1) as [Hn1 Hn2]; [done|by destruct Hst1 as (_ & _ & [_ _ _ _ Hu _])|].
  assert (on_stage r Stage.Reversing (syncs [Directory.Staging; Directory.InstallationRoot] w1)) as Hst2
    by (do 2 apply sync_stage; done). pose proof (stage_recovering _ _ _ _ _ _ Hst2) as HX2.
  eapply at_bind; [apply triple_persist_outcome; eauto with recovery; [by intros ? ->|]|].
  - intros ? next -> Hn _ _ _. eapply stage_recovering, (outcome_publish r Stage.Reversing _ o); try done; by rewrite ?Hv.
  - intros next w' Hx. by apply at_ret.
Qed.

(** ** Preserving the candidate *)

Section preserving.
Context (r : TransitionRecord).
Abbreviation Y := (on_stage r Stage.Preserving).

Lemma preserving_recovering w : Y w -> X w.
Proof using FL. apply stage_recovering. Qed.

Lemma syncs_preserving w l : Y w -> Y (syncs l w).
Proof using FL. intros (? & ? & ?). split_and!; [done..|by apply at_stage_syncs]. Qed.

Lemma move_preserving w dirs s a : Y w -> may_stand src Stage.Preserving a = true -> arrangement r a s ->
  root_abi s = root_abi (visible w) -> (forall d, d ∈ dirs -> d ∈ pending_dirs src Stage.Preserving) -> Y (moved dirs s w).
Proof using FL.
  intros Hst Hm Ha Habi Hd. pose proof Hst as (Hs & Hid & Hat). destruct (stage_visible _ _ _ Hst) as (_ & _ & _ & Hl & _).
  split_and!; [done..|]. apply at_stage_moved; try done. exists a. split_and!; [done..|]. unfold linked in *. by rewrite Habi.
Qed.

Lemma preserving_facts w : Y w ->
  operation r = NewState /\ candidate_token r <> previous_token r /\ phase r = Phase.CandidatePreserveIntent.
Proof using FL.
  intros Hst. destruct (stage_visible _ _ _ Hst) as (_ & _ & _ & _ & Hc). split_and!; [apply Hc|by eapply checkpoint_distinct|apply Hc].
Qed.

(** The arrangement a topology stands for *)
Lemma preserving_arrangement w t : Y w -> preserve_evidence r (visible w) = Ok t ->
  match t with
  | Topology.NewStateStaged => arrangement r (Arrangement.Staged Quarantine.Missing) (visible w)
  | Topology.NewStateStagedWithTargetResidue => arrangement r (Arrangement.Staged Quarantine.Residue) (visible w)
  | Topology.NewStateStagedWithEmptyQuarantine => arrangement r (Arrangement.Staged Quarantine.Empty) (visible w)
  | Topology.NewStatePreserved => arrangement r Arrangement.Preserved (visible w)
  | _ => True
  end.
Proof using FL.
  intros Hst Ht. destruct (stage_visible _ _ _ Hst) as (a0 & Hm & Ha & Hl & Hc). unfold preserve_evidence, candidate_preserve_topology in Ht.
  rewrite (cp_phase _ _ _ Hc), bool_decide_eq_true_2 in Ht by done. cbn [negb reject_if mbind result_bind] in Ht.
  destruct (topology_at a0) as [t'|] eqn:E; [|by destruct a0].
  rewrite (stage_topology _ _ _ Hc _ _ Hm Ha Hl t' E) in Ht. injection Ht as <-. by destruct a0 as [|[]|]; simplify_eq/=.
Qed.

Lemma inert_preserve_lease a p : inert (preserve_lease r a p).
Proof using FL. unfold preserve_lease. apply inert_bind; [apply inert_revalidate; eauto with recovery|]. inert. Qed.

Lemma inert_prepare_target a : inert (prepare_target r a).
Proof using FL. unfold prepare_target. apply inert_revalidate_namespace. apply inert_ret. Qed.

Lemma inert_restart a : inert (restart r a).
Proof using FL. unfold restart. apply inert_bind; [apply inert_surrounding; eauto with recovery|]. inert. Qed.

#[local] Hint Resolve inert_preserve_lease inert_prepare_target inert_restart preserving_recovering : recovery.

(** An attempt that leads to another place where the candidate may be *)
Lemma attempt_preserving w dirs move admits a : Y w -> may_stand src Stage.Preserving a = true -> arrangement r a (move (visible w)) ->
  root_abi (move (visible w)) = root_abi (visible w) -> (forall d, d ∈ dirs -> d ∈ pending_dirs src Stage.Preserving) ->
  triple X (at_machine w) (attempt_once dirs move (visible w) admits) (fun o w' => Y w' /\ forall fresh,
    o = Reconciliation.Applied fresh -> fresh = visible w' /\ w' = moved dirs (move (visible w)) w).
Proof using FL.
  intros Hst Hm Ha Habi Hd. pose proof (move_preserving w dirs _ a Hst Hm Ha Habi Hd) as Hst'.
  eapply triple_error; [exact preserving_recovering|]. eapply triple_conseq; [apply (triple_attempt_once _ (at_machine w))|done|].
  - by intros ? ->.
  - by intros ? ->.
  - intros o w' [Hy Ho]. split; [done|]. intros fresh ->. destruct Ho as (-> & Hne & _ & [->|(? & -> & ->)]); [done|]. done.
Qed.

Lemma reconciled_safe o w (Q : NamespaceFingerprint -> machine -> Prop) : Y w ->
  (forall fresh, o = Reconciliation.Applied fresh -> Q fresh w) -> triple X (at_machine w) (reconciled o) Q.
Proof using FL.
  intros Hst HQ. unfold reconciled. destruct o as [fresh| |]; [|by apply at_fail, preserving_recovering..].
  intros ? fs ->. by apply HQ.
Qed.

Lemma create_safe w a : Y w -> a_snapshot a = visible w -> arrangement r (Arrangement.Staged Quarantine.Missing) (visible w) ->
  triple X (at_machine w) (create_target r a) (fun _ => X).
Proof using FL.
  intros Hst Hs Ha. destruct (preserving_facts w Hst) as (Hop & Hd & Hph).
  destruct (create_admitted r Hop Hph _ Ha) as ((q & _ & Hq) & Habi & _). unfold create_target. rewrite Hs.
  eapply at_looks; [eauto with recovery|eauto with recovery|]. intros ? _. eapply at_bind.
  { eapply triple_surrounded_attempt with (R := fun _ => at_machine w);
      [eauto with recovery|by intros ? ->; eauto with recovery|by intros ? ? ->; eauto with recovery| |apply at_stays; eauto with recovery|].
    2: { intros ?. eapply (attempt_preserving w _ _ _ (Arrangement.Staged q)); try done; cbn; set_solver. }
    intros ? ? []. eauto with recovery. }
  intros o w' [Hst' _]. eapply at_bind; [by apply (reconciled_safe o w' (fun _ => at_machine w'))|]. intros ? ? ->.
  apply at_inert; eauto with recovery.
Qed.

Lemma barriers_preserving proof dirs w s : Y w ->
  triple X (at_machine w) (barriers proof dirs s) (fun _ w' => w' = syncs dirs w /\ visible w' = s).
Proof using FL.
  intros Hst. eapply triple_conseq; [apply (triple_barriers X _ _ _ (at_machine w))|done|].
  - intros ? l ->. by apply preserving_recovering, syncs_preserving.
  - intros ? ? (? & -> & -> & Hv & _). done.
Qed.

Lemma normalize_safe w a : Y w -> a_snapshot a = visible w -> arrangement r (Arrangement.Staged Quarantine.Residue) (visible w) ->
  triple X (at_machine w) (normalize r a) (fun _ => X).
Proof using FL.
  intros Hst Hs Ha. destruct (preserving_facts w Hst) as (Hop & Hd & Hph).
  destruct (normalize_admitted r Hop Hph _ Ha) as (Hq & Habi & _). unfold normalize, normalize_once. rewrite Hs.
  eapply at_looks; [eauto with recovery|eauto with recovery|]. intros ? _. eapply at_bind.
  { eapply triple_surrounded_attempt with (R := fun _ => at_machine w) (Q := fun _ => Y);
      [eauto with recovery|by intros ? ->; eauto with recovery|by intros ? ? ->; eauto with recovery|by intros; eauto with recovery
      |apply at_stays; eauto with recovery|].
    intros ?. eapply at_bind; [eapply (attempt_preserving w _ _ _ (Arrangement.Staged Quarantine.Empty)); try done; cbn; set_solver|].
    intros o w' [Hst' Ho]. destruct o as [fresh| |]; [|by apply at_ret..].
    eapply at_bind.
    - eapply triple_attempt, (triple_conseq _ _ (at_machine w') _ (fun _ => Y)); [|done|].
      + eapply (triple_barriers Y _ _ _ (at_machine w')). intros ? l ->. by apply syncs_preserving.
      + intros ? ? (? & -> & -> & _). by apply syncs_preserving.
    - intros durable w2 Hw2. apply at_ret. by destruct durable. }
  intros o w' Hst'. eapply at_bind; [by apply (reconciled_safe o w' (fun _ => at_machine w'))|]. intros ? ? ->.
  apply at_inert; eauto with recovery.
Qed.

Lemma finish_safe w a o : Y w -> arrangement r Arrangement.Preserved (visible w) ->
  triple X (at_machine w) (finish_preserve r a (visible w) o) (fun _ => X).
Proof using FL.
  intros Hst Ha. unfold finish_preserve. set (dirs := [_; _; _; _]). eapply at_bind.
  { apply triple_complete_durability; [eauto with recovery|]. intros ? l ->. by apply preserving_recovering, syncs_preserving. }
  intros ? w2 (? & -> & -> & _). destruct (syncs_keeps dirs w) as (_ & _ & Hv).
  destruct (syncs_clears dirs w) as [Hn1 Hn2]; [done|by destruct Hst as (_ & _ & [_ _ _ _ Hu _])|].
  pose proof (syncs_preserving w dirs Hst) as Hst2.
  apply triple_persist_outcome; [eauto with recovery|by intros ? ->; eauto with recovery|].
  intros ? next -> Hn _ _ _. eapply stage_recovering, (outcome_publish r Stage.Preserving _ o _ Arrangement.Preserved); try done; by rewrite ?Hv.
Qed.

Lemma prepare_move_safe w a : Y w -> a_snapshot a = visible w ->
  triple X (at_machine w) (prepare_move r a) (fun _ w' => Y w' /\ visible w' = visible w).
Proof using FL.
  intros Hst Hs. unfold prepare_move.
  eapply at_looks; [apply inert_revalidate_namespace, inert_ret|eauto with recovery|]. intros ? _.
  pose proof (sync_stage _ _ _ Directory.CandidateTree Hst) as Hst1. apply at_write; [eauto with recovery..|].
  eapply triple_conseq; [apply barriers_preserving, Hst1|done|]. intros ? w' [-> Hv]. split; [by apply syncs_preserving|]. congruence.
Qed.

Lemma move_staged_safe w a : Y w -> a_snapshot a = visible w -> arrangement r (Arrangement.Staged Quarantine.Empty) (visible w) ->
  triple X (at_machine w) (move_staged r a) (fun _ => X).
Proof using FL.
  intros Hst Hs Ha. destruct (preserving_facts w Hst) as (Hop & Hd & Hph).
  destruct (preserve_admitted r Hop Hd Hph _ Ha) as (Hq & Habi & _). unfold move_staged. rewrite Hs.
  set (move := move_candidate _) in *. eapply at_looks; [eauto with recovery|eauto with recovery|]. intros ? _. eapply at_bind.
  { eapply triple_surrounded_attempt with (R := fun _ w' => Y w' /\ visible w' = visible w)
      (Q := fun o w' => Y w' /\ forall fresh, o = Reconciliation.Applied fresh -> fresh = visible w' /\ arrangement r Arrangement.Preserved fresh);
      [eauto with recovery|by intros ? ->; eauto with recovery|intros ? ? []; eauto with recovery..|by apply prepare_move_safe|].
    intros ?. apply triple_observe_state. intros w1 [Hst1 Hv1].
    eapply at_looks; [apply inert_confirm|eauto with recovery|]. intros ? _. rewrite <- Hv1.
    eapply triple_conseq; [eapply (attempt_preserving w1 _ _ _ Arrangement.Preserved); rewrite ?Hv1; try done; cbn; set_solver|done|].
    intros o w' [Hy Ho]. split; [done|]. intros fresh Hf. destruct (Ho fresh Hf) as [-> ->]. split; [done|]. cbn. by rewrite Hv1. }
  intros o w' [Hst' Ho]. eapply at_bind.
  { apply (reconciled_safe o w' (fun fresh w'' => w'' = w' /\ fresh = visible w' /\ arrangement r Arrangement.Preserved fresh)); [done|].
    intros fresh Hf. by destruct (Ho fresh Hf). }
  intros fresh w'' (-> & -> & Hf). by apply finish_safe.
Qed.

Lemma preserve_safe w f : Y w -> triple X (at_machine w) (preserve r f) (fun _ => X).
Proof using FL.
  intros Hst. pose proof (preserving_recovering w Hst) as HX. destruct (preserving_facts w Hst) as (Hop & Hd & Hph).
  unfold preserve, preserve_capture. rewrite Hph, bool_decide_eq_true_2 by done. cbn [negb].
  eapply at_looks.
  { instantiate (1 := fun w admission => match admission with
      | Admission.Ready a => a_snapshot a = visible w /\ preserve_evidence r (visible w) = Ok (a_namespace a)
      | _ => True
      end). destruct (rollback r) as [p|]; [|by apply looks_ret]. destruct (negb _); [by apply looks_ret|].
    eapply looks_weaken; [apply looks_capture_namespace_first; eauto with recovery|]. intros ? [| |a]; try done. by intros (? & ? & _). }
  { done. }
  intros [| |a] Hg; try by apply at_ret. destruct Hg as [Hs He].
  eapply at_looks; [unfold exact_source_record; inert|done|]. intros ? _.
  pose proof (preserving_arrangement w _ Hst He) as Ha.
  eapply (at_bind _ _ _ _ (fun _ => X)); [|intros next w' Hx; by apply at_ret].
  destruct (a_namespace a); try by apply at_fail.
  - by apply create_safe.
  - by apply normalize_safe.
  - by apply move_staged_safe.
  - eapply at_looks; [eauto with recovery|done|]. intros ? _. rewrite Hs. by apply finish_safe.
Qed.
End preserving.

(** ** The row of the candidate *)

Lemma fresh_route_safe r w f : on_stage r Stage.Preserved w -> triple X (at_machine w) (fresh_db_route r f) (fun _ => X).
Proof using FL.
  intros Hst. pose proof (stage_recovering _ _ _ _ _ _ Hst) as HX. unfold fresh_db_route.
  destruct (rollback r) as [p|]; [|by apply at_ret]. destruct (negb _); [by apply at_ret|].
  eapply at_looks; [eapply looks_inert, looks_capture_namespace_first; eauto with recovery|done|]. intros [| |a] _; try by apply at_ret.
  eapply at_bind; [apply triple_persist; eauto with recovery; [by intros ? ->|]|].
  - intros ? next -> Hn _ _ _. by eapply stage_recovering, route_publish.
  - intros next w' Hx. by apply at_ret.
Qed.

Lemma completion_safe r w : on_stage r Stage.Invalidated w -> triple X (at_machine w) (complete_route self r) (fun _ => X).
Proof using FL.
  intros Hst. pose proof (stage_recovering _ _ _ _ _ _ Hst) as HX. unfold complete_route.
  destruct (_ || _); [by apply at_ret|].
  eapply at_looks; [eapply looks_inert, looks_capture_database_first; eauto with recovery|done|]. intros [| |a] _; try by apply at_ret.
  eapply at_bind; [apply triple_persist; eauto with recovery; [by intros ? ->|]|].
  - intros ? next -> Hn _ _ _. by eapply stage_recovering, route_publish.
  - intros next w' Hx. by apply at_ret.
Qed.

Section invalidating.
Context `{SL : !SqliteLaws SQ} (r : TransitionRecord).
Abbreviation G := (on_stage r Stage.Invalidating).

(** The row is gone. *)
Definition row_gone (w : machine) : Prop :=
  exists id a, rows self r (m_database w) id (ExactFreshTransitionObservation.JointlyAbsent a).

Lemma row_only t id o : rows self r t id o -> forall i raw, carried t i raw -> i = id.
Proof using.
  intros [_ _ _ _ Ho] i raw Hc. destruct o as [pre|a].
  - by eapply (present_only _ _ _ _ _ (inspected_present _ _ _ _ _ Ho)).
  - destruct (inspected_absent _ _ _ _ _ Ho) as (_ & _ & _ & _ & Hn). by destruct (Hn i raw).
Qed.

Lemma erased_rows t id o : rows self r t id o -> prev_id (previous r) <> Some id -> well_formed (erased id t) ->
  rows self r (erased id t) id (ExactFreshTransitionObservation.JointlyAbsent
    {| abs_database := self; abs_state_id := id; abs_transition_id := transition_id r |}).
Proof using.
  intros Hr Hne Hw. pose proof (row_only t id o Hr) as Hu. destruct Hr as [_ Hcan Hid Hprev _]. split; try done.
  - intros p Hp. destruct (Hprev p Hp) as (row & Hrow & Ht). exists row. split; [|done].
    cbn. rewrite lookup_delete_ne; [done|]. intros ->. done.
  - by apply erased_absent.
Qed.

(** Whatever the removal answers, the row is as it was or gone. *)
Lemma remove_row_stage w pre fs id : G w -> cand_id (candidate r) = Some id -> state_id (pre_state pre) = id ->
  let '(answer, (t', _)) := remove_exact_fresh_transition self pre (m_database w, fs) in
  G (with_database t' w) /\ (is_ok answer = true -> row_gone (with_database t' w)).
Proof using SL.
  intros Hst Hid Hpre. pose proof Hst as (Hs & Hcid & [Hc Hj (id' & o & Hrows & Ho) Hstand Hu Hstg]).
  assert (id' = id) as -> by (destruct Hrows; congruence). destruct (checkpoint_candidate _ _ _ Hc) as (id' & Hid' & Hne).
  assert (id' = id) as -> by congruence. pose proof (fresh_removal_cases self pre (m_database w) fs) as Hcases.
  pose proof (remove_exact_fresh_preserves self pre (m_database w) fs (rw_wf _ _ _ _ _ Hrows)) as Hwf. cbv zeta in Hcases. rewrite Hpre in Hcases.
  destruct (remove_exact_fresh_transition self pre (m_database w, fs)) as [answer [t' fs']]. cbn in Hwf. destruct Hcases as (Ha & _ & _).
  assert (t' = m_database w \/ t' = erased id (m_database w)) as Ht.
  { destruct answer as [absence|e]; [right; apply Ha|]. destruct (definitely_not_applied e); auto. }
  assert (t' = erased id (m_database w) -> exists a, rows self r t' id (ExactFreshTransitionObservation.JointlyAbsent a)) as Hgone.
  { intros ->. eexists. by eapply erased_rows. }
  split.
  - split_and!; [done..|]. split; try done. destruct Ht as [->|Ht]; [eauto|]. destruct (Hgone Ht) as [a Hr]. cbn. eauto.
  - intros Hok. destruct answer as [absence|e]; [|done]. destruct Ha as (_ & Ht' & _). destruct (Hgone Ht') as [a Hr]. by exists id, a.
Qed.

Lemma inert_joint_absence absence : inert (require_joint_absence self r absence).
Proof using FL. pose proof (inert_inspect_fresh self r). unfold require_joint_absence. inert. Qed.

Lemma inert_bound_absence a absence : inert (capture_bound_absence self r a absence).
Proof using FL.
  pose proof inert_joint_absence. unfold capture_bound_absence.
  assert (inert (revalidate_namespace (require_preserved_at Phase.FreshDbInvalidationIntent r) (journal_check r) (a_snapshot a) (a_namespace a)))
    by (apply inert_revalidate_namespace; eauto with recovery). inert.
Qed.

Lemma inert_trailing a : inert (revalidate_trailing_non_database r a).
Proof using FL.
  unfold revalidate_trailing_non_database.
  assert (inert (revalidate_namespace (require_preserved_at Phase.FreshDbInvalidationIntent r) (journal_check r) (a_snapshot a) (a_namespace a)))
    by (apply inert_revalidate_namespace; eauto with recovery). inert.
Qed.

Lemma remove_row_safe w pre id : G w -> cand_id (candidate r) = Some id -> state_id (pre_state pre) = id ->
  triple X (at_machine w) (remove_row self pre) (fun answer w' => G w' /\ (is_ok answer = true -> row_gone w')).
Proof using SL FL.
  intros Hst Hid Hpre w' fs ->. unfold remove_row. pose proof (remove_row_stage w pre fs id Hst Hid Hpre) as Hr.
  destruct (remove_exact_fresh_transition self pre (m_database w, fs)) as [answer [t' fs']]. done.
Qed.

Lemma invalidation_reconcile_safe w a : G w -> database_pair_is_exact r (a_database a) = true ->
  (forall id, cand_id (candidate r) = Some id -> inspected self id (transition_id r) (m_database w) = Ok (a_database a).2) ->
  triple X (at_machine w) (invalidation_reconcile self r a) (fun _ w' => G w' /\ row_gone w').
Proof using SL FL.
  intros Hst Hexact Hread. pose proof (stage_recovering _ _ _ _ _ _ Hst) as HX. unfold invalidation_reconcile.
  eapply at_looks; [eauto with recovery|done|]. intros ? _.
  eapply at_looks; [apply inert_revalidate; eauto with recovery|done|]. intros ? _.
  pose proof Hst as (_ & _ & [Hc _ (id & o & Hrows & _) _ _ _]). pose proof (rw_candidate _ _ _ _ _ Hrows) as Hid.
  unfold database_pair_is_exact in Hexact. rewrite Hid in Hexact. destruct (a_database a) as [ev [pre|abs]]; cbn [snd] in *.
  - assert (state_id (pre_state pre) = id) as Hpre.
    { destruct ev as [| |? ? [] ?| |]; try by rewrite andb_false_r in Hexact. by bool_prop. }
    eapply at_bind; [by eapply remove_row_safe|]. intros [absence|e] w' [Hst' Hgone]; pose proof (stage_recovering _ _ _ _ _ _ Hst') as HX'.
    + eapply at_looks; [apply inert_bound_absence|done|]. intros ? _. apply at_ret. auto.
    + eapply at_looks; [apply inert_trailing|done|]. intros ? _. by apply at_fail.
  - apply at_ret. split; [done|]. exists id, abs. destruct Hrows. split; try done. by apply Hread.
Qed.

Lemma invalidation_publish w o next : G w -> row_gone w -> rollback_successor (Some o) r = Ok next ->
  on_stage next Stage.Invalidated (with_journal (Some next) w).
Proof using FL.
  intros Hst (id & a & Hrows) Hn. pose proof Hst as (_ & _ & [Hc _ _ Hs Hu _]).
  destruct (successor_checkpoint r src Stage.Invalidating (Some o) Hc eq_refl) as (next' & Hn' & Had & Hc').
  rewrite Hn in Hn'. injection Hn' as <-. eapply publish_recovering; try done.
  - intros s Hin. destruct (Hs s Hin) as (b & Hm & Hb & _). exists b. split; [|done]. by destruct b.
  - by apply (stage_linked r Stage.Invalidating).
  - intros id' o' Hr' _. destruct Hrows as [_ _ E1 _ Hob], Hr' as [_ _ E2 _ Hob']. assert (id' = id) as -> by congruence.
    rewrite Hob in Hob'. by injection Hob' as <-.
Qed.

Lemma invalidation_safe w : G w -> triple X (at_machine w) (fresh_db_invalidation self r) (fun _ => X).
Proof using SL FL.
  intros Hst. pose proof (stage_recovering _ _ _ _ _ _ Hst) as HX. unfold fresh_db_invalidation.
  destruct (_ || _); [by apply at_ret|].
  eapply at_looks; [apply looks_conj; [apply looks_capture_database_first; eauto with recovery
    |apply looks_capture_read; [eauto with recovery|apply looks_inspect_fresh]]|done|].
  intros [| |a] [Hg Hread]; try by apply at_ret. destruct Hg as (_ & _ & _ & Hexact).
  eapply at_bind; [by apply invalidation_reconcile_safe|]. intros [a' o] w' [Hst' Hgone]. cbn [fst snd].
  eapply at_bind; [apply triple_persist; eauto with recovery; [by intros ? ->; eauto with recovery|]|].
  - intros ? next -> Hn _ _ _. by eapply stage_recovering, invalidation_publish.
  - intros next w'' Hx. by apply at_ret.
Qed.
End invalidating.

(** ** The end *)

Lemma deleted_recovering r w : on_stage r Stage.Complete w -> X (with_journal None w).
Proof using FL.
  intros (Hs & Hid & [Hc _ (id & o & Hr & Ho) Hst _ _]). right. split; [done| |].
  - exists id, o. split; [|done]. eapply rows_same; [by symmetry|congruence|done].
  - intros s Hin. destruct (Hst s Hin) as (a & Hm & Ha & _). eapply arrangement_same; [by symmetry|congruence|].
    by destruct a as [|[]|].
Qed.

Lemma inert_after_delete r a : inert (revalidate_after_journal_delete self r a).
Proof using FL.
  assert (inert require_exact_public_journal_absence) by (unfold require_exact_public_journal_absence; inert).
  pose proof (inert_exact_database (inspect_fresh self r) (absent_pair_is_exact r) (inert_inspect_fresh self r)).
  unfold revalidate_after_journal_delete.
  assert (inert (revalidate_namespace (require_preserved_at Phase.RollbackComplete r) require_exact_public_journal_absence
    (a_snapshot a) (a_namespace a))) by (by apply inert_revalidate_namespace). inert.
Qed.

Lemma finalization_safe r w : on_stage r Stage.Complete w -> triple X (at_machine w) (finalization self r) (fun _ => X).
Proof using FL.
  intros Hst. pose proof (stage_recovering _ _ _ _ _ _ Hst) as HX. pose proof (deleted_recovering _ _ Hst) as HX'. unfold finalization.
  destruct (_ || _); [by apply at_ret|].
  eapply at_looks; [eapply looks_inert, looks_capture_database_first; eauto with recovery|done|]. intros [| |a] _; try by apply at_ret.
  eapply (at_bind _ _ _ _ (fun _ => X)); [|intros ? w' Hx; by apply at_ret]. unfold finalize_usr_rollback.
  do 2 (eapply at_looks; [apply inert_revalidate; eauto with recovery|done|]; intros ? _).
  eapply (at_bind _ _ _ _ (fun _ => X)).
  - eapply triple_conseq; [eapply triple_attempt with (Y := X) (Q := fun _ => X) (P := at_machine w)|done|by intros [] ?].
    intros w' fs ->. unfold journal_delete. destruct (_ && _); [|done]. by destruct fs as [|[] fs].
  - intros [[]|e] w' Hx; [|by apply at_fail]. apply at_inert; [apply looks_map_err, inert_after_delete|done].
Qed.

(** ** An entry *)

Lemma inert_admit_clean f : inert (admit_clean f).
Proof using FL. unfold admit_clean. inert. Qed.

#[local] Hint Resolve inert_admit_clean : recovery.

Lemma inert_admit_after : inert admit_clean_after_terminal_finalization.
Proof using FL. unfold admit_clean_after_terminal_finalization. inert. Qed.

#[local] Hint Resolve inert_admit_after : recovery.

(** A handler whose record, if it takes one, is reported *)
Lemma handled_safe {A} P (m : recovery (option A)) next other : triple X P m (fun _ => X) ->
  (forall a, inert (next a)) -> inert other ->
  triple X P (taken ← m; match taken with Some a => next a | None => other end) (fun _ : Entry.t => X).
Proof using FL.
  intros Hm Hn Ho. eapply triple_bind; [exact Hm|]. intros [a|]; apply triple_observe_state; intros w HX; by apply at_inert.
Qed.

Lemma dispatch_safe `{SL : !SqliteLaws SQ} r st w f : on_stage r st w -> st <> Stage.Forward -> route_exchange st = None ->
  st <> Stage.Reversing -> triple X (at_machine w) (dispatch_new_state self r f) (fun _ => X).
Proof using FL.
  intros Hst Hf Hr Hrev. destruct (stage_visible _ _ _ Hst) as (_ & _ & _ & _ & Hc). unfold dispatch_new_state.
  rewrite (cp_phase _ _ _ Hc). destruct st; try done; cbn [stage_phase].
  1: apply handled_safe; [by apply preserve_safe|eauto with recovery..].
  1: apply handled_safe; [by apply fresh_route_safe|eauto with recovery..].
  1: apply handled_safe; [by apply invalidation_safe|eauto with recovery..].
  1: apply handled_safe; [by apply completion_safe|eauto with recovery..].
  eapply triple_bind; [by apply finalization_safe|]. intros []; apply triple_observe_state; intros w' HX; by apply at_inert; eauto with recovery.
Qed.

Lemma idle_dispatch r st w f : on_stage r st w -> is_Some (route_exchange st) \/ st = Stage.Reversing \/ st = Stage.Forward ->
  forall w', X w' -> triple X (at_machine w') (dispatch_new_state self r f) (fun _ => X).
Proof using FL.
  intros Hst Hc w' HX. destruct (stage_visible _ _ _ Hst) as (_ & _ & _ & _ & Hk). apply at_inert; [|done].
  unfold dispatch_new_state. rewrite (cp_phase _ _ _ Hk).
  pose proof (cp_source _ _ _ Hk) as Hsrc. destruct st; try (by destruct Hc as [[]|[]]); cbn [stage_phase]; try (by inert).
  destruct src; try done; cbn [Phase_from]; inert.
Qed.

Lemma recover_safe `{SL : !SqliteLaws SQ} r st w f : on_stage r st w -> triple X (at_machine w) (recover self r f) (fun _ => X).
Proof using FL.
  intros Hst. pose proof (stage_recovering _ _ _ _ _ _ Hst) as HX. destruct (stage_visible _ _ _ Hst) as (_ & _ & _ & _ & Hc).
  pose proof (idle_dispatch r st w f Hst) as Hidle. unfold recover. destruct (decide (st = Stage.Forward)) as [->|Hf].
  - eapply at_bind; [by apply root_abi_safe|]. intros [f'|] w1 [Hst1 Hl]; [|apply at_inert; eauto with recovery].
    eapply at_bind; [apply decision_safe; [done|by apply Hl]|]. intros [next|] w2 HX2; [apply at_inert; eauto with recovery|].
    pose proof (cp_source _ _ _ Hc) as Hsrc.
    eapply triple_idles; [apply (route_idle r src _ Hc); by destruct src|].
    eapply triple_idles; [apply (reverse_idle r src _ Hc); by destruct src|]. by apply Hidle; auto.
  - eapply triple_idles; [apply (root_abi_idle r src _ Hc); by destruct st|].
    eapply triple_idles; [by apply (decision_idle r src _ Hc)|].
    destruct (route_exchange st) as [l|] eqn:Hr.
    { eapply at_bind; [apply (route_safe r st); eauto|]. intros [next|] w1 HX1; [apply at_inert; eauto with recovery|].
      eapply triple_idles; [apply (reverse_idle r src _ Hc); by destruct st|]. apply Hidle; eauto. }
    eapply triple_idles; [apply (route_idle r src _ Hc); by destruct st|].
    destruct (decide (st = Stage.Reversing)) as [->|Hrev].
    { eapply at_bind; [by apply reverse_safe|]. intros [next|] w1 HX1; [apply at_inert; eauto with recovery|]. apply Hidle; auto. }
    eapply triple_idles; [apply (reverse_idle r src _ Hc); by destruct st|]. by apply (dispatch_safe r st).
Qed.

Lemma enter_safe `{SL : !SqliteLaws SQ} : triple X X (enter self) (fun _ => X).
Proof using FL.
  apply triple_observe_state. intros w HX. unfold enter. do 2 (eapply at_looks; [eauto with recovery|done|]; intros ? _).
  eapply at_looks; [apply looks_observe|done|]. intros record ->.
  eapply at_looks; [eauto with recovery|done|]. intros ? _. eapply at_looks; [apply inert_audit|done|]. intros f _.
  eapply at_looks; [eauto with recovery|done|]. intros ? _.
  pose proof HX as [(r & st & Hs & Hid & Hat)|Hrb].
  - rewrite (iv_journal _ _ _ _ _ Hat). destruct (bool_decide _); [|by apply at_ret]. apply (recover_safe r st). by split_and!.
  - rewrite (rb_journal _ _ _ Hrb). apply at_inert; eauto with recovery.
Qed.
End safety.

(** ** Entry after entry *)

Section restarts.
Context `{SQ : Sqlite} `{CH : Chrono} `{FS : FileSystem} (self : nat).

(** Entries with whatever faults, and crashes between them; a crash within an entry is an
    entry whose remaining steps fail. *)
Inductive restarts (w : machine) : machine -> Prop :=
  | restarts_none : restarts w w
  | restarts_entry w' faults : restarts w w' -> restarts w (enter self (w', faults)).2.1
  | restarts_crash w' w'' : restarts w w' -> crashes w' w'' -> restarts w w''.

(** A transition that stopped around the exchange: its last record is one the coordinator
    made durable, its row is the only one in flight and carries its provenance, and the two
    trees stand as the record allows, before or after an exchange that was only intended. *)
Record interrupted (r : TransitionRecord) (src : ForwardPhase.t) (w : machine) : Prop := {
  in_reachable : reachable r;
  in_operation : operation r = NewState;
  in_source : recoverable src = true;
  in_phase : phase r = Phase_from src;
  in_journal : m_journal w = Some r;
  in_row : exists id pre, rows self r (m_database w) id (ExactFreshTransitionObservation.Present pre);
  in_standing : forall s, s ∈ visible w :: survivors w -> standing r src Stage.Forward s;
  in_unsynced : forall d, d ∈ unsynced w -> d ∈ pending_dirs src Stage.Forward;
  in_staged : arrangement r (Arrangement.Staged Quarantine.Missing) (visible w) -> survivors w = [] /\ unsynced w = [];
}.

Lemma interrupted_recovering r src w : interrupted r src w -> recovering self r src w.
Proof using.
  intros [Hr Hop Hsrc Hp Hj (id & pre & Hrows) Hst Hu Hs]. left. exists r, Stage.Forward. split_and!; [done..|]. split; try done.
  - by apply reachable_checkpoint.
  - by eexists id, _.
Qed.

Context `{FL : !FileSystemLaws} `{SL : !SqliteLaws SQ}.

Lemma restarts_recovering r src w w' : recovering self r src w -> restarts w w' -> recovering self r src w'.
Proof using FL SL.
  intros Hw Hr. induction Hr as [|w' faults _ IH|w' w'' _ IH Hc]; [done| |by eapply recovering_crash].
  pose proof (enter_safe self r src w' faults IH) as He. by destruct (enter self (w', faults)) as [[e|e] [w1 fs]].
Qed.

Lemma recovering_trees r src w s : candidate_token r <> previous_token r -> recovering self r src w -> s ∈ visible w :: survivors w ->
  exists c p, trees_for_token s (candidate_token r) = [c] /\ trees_for_token s (previous_token r) = [p].
Proof using.
  intros Hd Hw Hs. assert (exists a x, arranged r a s x) as (a & x & Hx).
  { destruct Hw as [(r' & st & Hsame & Hid & Hat)|Hrb].
    - destruct (iv_standing _ _ _ _ _ Hat s Hs) as (a & _ & Ha & _). exists a. eapply arrangement_same; [by symmetry|by symmetry|done].
    - exists Arrangement.Preserved. by apply (rb_standing _ _ _ Hrb). }
  exists (the_candidate x), (the_previous x). split; [by eapply trees_candidate|by eapply trees_previous].
Qed.

End restarts.

(** ** What an entry leaves alone *)

(** The phases of a fresh state some handler of the entry takes *)
Definition attended (p : Phase.t) : bool :=
  match p with
  | Phase.UsrExchangeIntent | Phase.UsrExchanged | Phase.RootLinksComplete | Phase.SystemTriggersStarted
  | Phase.SystemTriggersComplete | Phase.PreviousArchived | Phase.RollbackDecided | Phase.ReverseExchangeIntent
  | Phase.UsrRestored | Phase.CandidatePreserveIntent | Phase.CandidatePreserved | Phase.FreshDbInvalidationIntent
  | Phase.FreshDbInvalidated | Phase.RollbackComplete => true
  | _ => false
  end.

Section unattended.
Context `{Sqlite} `{Chrono} `{FileSystem} (self : nat).
Context (r : TransitionRecord) (Hop : operation r = NewState) (Hph : attended (phase r) = false).

Lemma looks_idles {A B} (m : recovery A) (f : A -> recovery B) a R : idles m a -> looks (f a) R -> looks (m ≫= f) R.
Proof using. intros Hm Hf w fs. unfold mbind, tx_bind. rewrite (Hm (w, fs)). apply Hf. Qed.

Lemma looks_after {A B} (m : recovery A) (f : A -> recovery B) R : inert m -> (forall a, looks (f a) R) -> looks (m ≫= f) R.
Proof using. intros Hm Hf. eapply looks_bind; [exact Hm|]. intros a. eapply looks_weaken; [apply Hf|]. by cbn. Qed.

Lemma looks_pending f : looks (pending r f) (fun _ e => e = Entry.RecoveryPending r).
Proof using. unfold pending. do 6 (apply looks_after; [eauto with recovery|intros ?]). by apply looks_ret. Qed.

Lemma looks_recover f : looks (recover self r f) (fun _ e => e = Entry.RecoveryPending r).
Proof using Hop Hph.
  unfold recover. apply (looks_idles _ _ (Some f)).
  { intros c. unfold root_abi_step, root_abi_capture. rewrite bool_decide_eq_false_2 by (intros E; by rewrite E in Hph). by destruct c. }
  apply (looks_idles _ _ None).
  { intros c. unfold decision, rollback_decision_source_is_supported. rewrite Hop. by destruct (phase r). }
  apply (looks_idles _ _ None).
  { intros c. unfold resume_route. rewrite bool_decide_eq_false_2; [done|]. by intros [E|E]; rewrite E in Hph. }
  apply (looks_idles _ _ None).
  { intros c. unfold reverse, reverse_capture. rewrite bool_decide_eq_false_2 by (intros E; by rewrite E in Hph). by destruct c. }
  unfold dispatch_new_state. destruct (phase r); try done; apply (looks_idles _ _ None); (done || apply looks_pending).
Qed.

End unattended.
