(* ===== verification/StartupLiveness.v ===== *)
(** * Recovery completes

    An entry in which nothing fails takes the record to its next checkpoint, so that a
    bounded number of them takes it to the end: the record and the row of the candidate are
    gone, the previous tree is live and the candidate is in quarantine. *)

From S2P Require Import Prelude ByteStrings Ordered SqlDb SqlTx JournalModel JournalValidation JournalMachine JournalSuccessors StateDb StateDbExact StateDbInvariant StateDbTheorems StateDbRemoval StartupEvidence StartupEvidenceTheorems Namespace NamespaceMoves StartupMachine StartupPlans StartupHandlers StartupLogic Arrangements ArrangementMoves StartupCheckpoints StartupInvariant StartupSafety.

Section liveness.
Context `{SQ : Sqlite} `{CH : Chrono} `{FS : FileSystem} `{FL : !FileSystemLaws} (self : nat).
Context (r0 : TransitionRecord) (src : ForwardPhase.t).

Abbreviation on_stage := (stage_of self r0 src).

(** ** Reading *)

(** What every reading of the database returns for a record *)
Record reads_as (r : TransitionRecord) (t : tables) (o : ExactFreshTransitionObservation.t) : Prop := {
  ra_audit : forall w, m_database w = t -> quiet audit_in_flight w (flight_of o) w;
  ra_inspect_with : forall w, m_database w = t -> quiet (inspect_with r (flight_of o)) w (evidence_of r t o) w;
  ra_inspect : forall w, m_database w = t -> quiet (inspect r) w (evidence_of r t o) w;
  ra_fresh : forall w, m_database w = t -> quiet (inspect_fresh self r) w (evidence_of r t o, o) w;
}.

Lemma rows_read r src' st t id o : checkpoint r src' st -> rows self r t id o -> reads_as r t o.
Proof using FL.
  intros Hc []. pose proof (cp_operation _ _ _ Hc). split; intros w Hw.
  - by eapply quiet_audit.
  - by eapply quiet_inspect_with.
  - by eapply quiet_inspect.
  - by eapply quiet_inspect_fresh.
Qed.

Lemma stage_reads r st w : on_stage r st w ->
  exists id o, rows self r (m_database w) id o /\ observed_at st o = true /\ reads_as r (m_database w) o
    /\ database_is_compatible r (evidence_of r (m_database w) o) = true.
Proof using FL.
  intros (_ & _ & [Hc _ (id & o & Hr & Ho) _ _ _]). exists id, o. split_and!; [done..|by eapply rows_read|by eapply rows_compatible].
Qed.

Lemma stage_checkpoint r st w : on_stage r st w -> checkpoint r src st /\ m_journal w = Some r.
Proof using FL. by intros (_ & _ & []). Qed.

Lemma quiet_pending r t o w : reads_as r t o -> m_database w = t -> quiet (pending r (flight_of o)) w (Entry.RecoveryPending r) w.
Proof using FL.
  intros Hr Hw. unfold pending. eapply quiet_bind; [by apply ra_inspect_with|]. do 2 (eapply quiet_bind; [apply quiet_namespace|]).
  eapply quiet_bind; [by eapply ra_inspect|]. do 2 (eapply quiet_bind; [apply quiet_namespace|]). apply quiet_ret.
Qed.

(** A record that was published, or kept, is reported. *)
Lemma quiet_handled r st w : on_stage r st w -> quiet (handled r) w (Entry.RecoveryPending r) w.
Proof using FL.
  intros Hst. destruct (stage_reads _ _ _ Hst) as (id & o & _ & _ & Hr & _). unfold handled.
  eapply quiet_bind; [by eapply ra_audit|]. by eapply quiet_pending.
Qed.

Lemma quiet_journal_check r w : m_journal w = Some r -> quiet (journal_check r) w tt w.
Proof using FL. apply quiet_journal. Qed.

#[local] Hint Resolve quiet_journal_check : recovery.

(** ** Ranks *)

(** How many entries are left *)
Definition rank (st : Stage.t) (a : Arrangement.t) : nat :=
  match st, a with
  | Stage.Forward, _ => 11
  | Stage.DecidedExchanged, _ => 10
  | Stage.Reversing, _ => 9
  | (Stage.Restored | Stage.DecidedStaged), _ => 8
  | Stage.Preserving, Arrangement.Staged Quarantine.Missing => 7
  | Stage.Preserving, Arrangement.Staged Quarantine.Residue => 6
  | Stage.Preserving, _ => 5
  | Stage.Preserved, _ => 4
  | Stage.Invalidating, _ => 3
  | Stage.Invalidated, _ => 2
  | Stage.Complete, _ => 1
  end.

Definition unlinked (st : Stage.t) (s : NamespaceFingerprint) : Prop :=
  st = Stage.Forward /\ src = ForwardPhase.UsrExchanged /\ is_complete (root_abi s) = false.

Definition ranked (n : nat) (w : machine) : Prop :=
  (exists r st a, on_stage r st w /\ may_stand src st a = true /\ arrangement r a (visible w)
     /\ rank st a <= n /\ (unlinked st (visible w) -> 12 <= n))
  \/ rolled_back self r0 w.

Lemma recovering_ranked w : recovering self r0 src w -> ranked 12 w.
Proof using FL.
  intros [(r & st & Hs & Hid & Hat)|Hr]; [left|by right]. assert (on_stage r st w) as Hst by done.
  destruct (stage_visible _ _ _ _ _ _ Hst) as (a & Hm & Ha & _). exists r, st, a. split_and!; try done.
  destruct st, a as [|[]|]; cbn; lia.
Qed.

Lemma stage_ranked r st w n a : on_stage r st w -> st <> Stage.Forward -> may_stand src st a = true ->
  arrangement r a (visible w) -> rank st a <= n -> ranked n w.
Proof using FL. intros Hst Hf Hm Ha Hn. left. exists r, st, a. split_and!; try done. by intros [? _]. Qed.

(** One entry makes progress. *)
Definition progresses (n : nat) (w : machine) : Prop := exists e w', quiet (enter self) w e w' /\ ranked n w'.

Lemma quiet_enter r st w t o e w' : on_stage r st w -> m_database w = t -> reads_as r t o ->
  quiet (recover self r (flight_of o)) w e w' -> quiet (enter self) w e w'.
Proof using FL.
  intros Hst Ht Hr Hq. destruct (stage_checkpoint _ _ _ Hst) as [Hc Hj]. unfold enter.
  do 2 (eapply quiet_bind; [apply quiet_namespace|]). eapply quiet_bind; [apply quiet_observe|].
  eapply quiet_bind; [apply quiet_namespace|]. eapply quiet_bind; [by apply (ra_audit _ _ _ Hr)|].
  eapply quiet_bind; [apply quiet_namespace|]. rewrite Hj, (cp_operation _ _ _ Hc), bool_decide_eq_true_2 by done. exact Hq.
Qed.

(** ** The decision *)

Lemma quiet_decision_persist r w t o layout u next (a := {| a_database := evidence_of r t o; a_snapshot := visible w; a_namespace := layout |}) :
  m_journal w = Some r -> m_database w = t -> reads_as r t o -> database_is_compatible r (evidence_of r t o) = true ->
  exchange_layout r (visible w) = Ok layout -> decision_plan r layout = true ->
  rollback_decision (rollback_observations (operation r) u None) r = Ok next -> advances r next ->
  quiet (next ← persist_decision r a u None; mret (Some next)) w (Some next) (with_journal (Some next) w).
Proof using FL.
  intros Hj Ht Hr Hx Hl Hp Hd Had. eapply quiet_bind; [|apply quiet_ret]. unfold persist_decision, a.
  eapply quiet_persist; try done; [by apply ra_inspect|by apply quiet_journal_check].
Qed.

Lemma quiet_parent_durability r w t o layout (a := {| a_database := evidence_of r t o; a_snapshot := visible w; a_namespace := layout |}) :
  m_journal w = Some r -> m_database w = t -> reads_as r t o -> database_is_compatible r (evidence_of r t o) = true ->
  exchange_layout r (visible w) = Ok layout -> decision_plan r layout = true ->
  quiet (parent_durability r a) w tt (syncs [Directory.Staging; Directory.InstallationRoot] w).
Proof using FL.
  intros Hj Ht Hr Hx Hl Hp. assert (forall w', m_journal w' = Some r -> m_database w' = t -> visible w' = visible w ->
    quiet (decision_revalidate r a) w' tt w') as Hrev.
  { intros w' Hj' Ht' Hv'. unfold decision_revalidate, a. rewrite <- Hv'. apply quiet_revalidate; try done.
    - by apply ra_inspect.
    - by rewrite Hv'.
    - by apply quiet_journal_check. }
  unfold parent_durability. eapply quiet_bind; [by apply Hrev|]. do 2 (eapply quiet_bind; [apply quiet_write|]).
  eapply quiet_bind; [apply quiet_namespace|]. by apply Hrev.
Qed.

Lemma quiet_decision r w id o : on_stage r Stage.Forward w -> links_durable src w -> rows self r (m_database w) id o ->
  observed_at Stage.Forward o = true ->
  exists next u w', quiet (decision r (flight_of o)) w (Some next) w' /\ on_stage next (decided_stage u) w'.
Proof using FL.
  intros Hst Hlinks Hrows Hob. destruct (stage_visible _ _ _ _ _ _ Hst) as (a0 & Hm & Ha & Hl & Hc).
  destruct (stage_checkpoint _ _ _ Hst) as [_ Hj]. pose proof (rows_read _ _ _ _ _ _ Hc Hrows) as Hr.
  pose proof (rows_compatible _ _ _ _ Hc _ _ _ Hrows Hob) as Hx.
  assert (exists layout, exchange_of a0 = Some layout) as [layout Hlay] by (destruct a0; try done; cbn; eauto).
  pose proof (stage_exchange _ _ _ Hc _ _ Hm Ha Hl layout Hlay) as Hel.
  assert (exists u, usr_exchange_observation (phase r) layout = Some u
    /\ (u = None \/ u = Some InitialRollbackAction.AlreadySatisfied -> src = ForwardPhase.UsrExchangeIntent)
    /\ (u = Some InitialRollbackAction.AlreadySatisfied <-> layout = UsrExchangeLayout.Pre)
    /\ (u = Some InitialRollbackAction.Pending -> src <> ForwardPhase.UsrExchangeIntent)) as (u & Hu & Hi & Hpre & Hnot).
  { rewrite (cp_phase _ _ _ Hc). pose proof (cp_source _ _ _ Hc). destruct a0 as [|[]|]; try done; injection Hlay as <-;
      destruct src; try done; cbn; eexists; (split; [reflexivity|]); naive_solver. }
  assert (decision_plan r layout = true) as Hp by (unfold decision_plan; rewrite Hu; by apply bool_decide_eq_true).
  destruct (forward_supported r src Hc) as [Hsup Hprev]. unfold decision. rewrite Hsup, Hprev. cbn [negb].
  assert (forall K e w', quiet (K (Admission.Ready {| a_database := evidence_of r (m_database w) o; a_snapshot := visible w; a_namespace := layout |})) w e w' ->
    quiet (admission ← capture_namespace_first r (inspect r) (database_is_compatible r) (exchange_layout r) (decision_plan r)
      (journal_check r) false (inspect_with r (flight_of o)); K admission) w (e : option TransitionRecord) w') as Hcap.
  { intros K e w' HK. eapply quiet_bind; [|exact HK]. apply quiet_capture_namespace_first; try done.
    - by apply (ra_inspect _ _ _ Hr).
    - by apply quiet_journal_check.
    - by apply (ra_inspect_with _ _ _ Hr). }
  pose proof (forward_linked _ _ _ _ _ Hst Hlinks) as Hlk. destruct u as [u|].
  - destruct (decided_checkpoint r src u Hc) as (next & Hd & Had & _); [by intros ->; apply Hi; auto|].
    exists next, u, (with_journal (Some next) w). split.
    + apply Hcap. cbn [a_namespace]. rewrite Hu. by apply quiet_decision_persist.
    + eapply decided_publish; try done.
      * intros ->. split; [by apply Hi; auto|]. pose proof Hst as (_ & _ & [_ _ _ _ _ Hstg]). apply Hstg; [done|].
        pose proof (proj1 Hpre eq_refl) as ->. by destruct a0 as [|[]|].
      * destruct u; [by apply (forward_exchanged _ _ _ _ _ Hst), Hnot|].
        pose proof (proj1 Hpre eq_refl) as ->. destruct a0 as [|[]|]; try done.
        pose proof Hst as (_ & _ & [_ _ _ _ _ Hstg]). destruct (Hstg eq_refl Ha) as [-> _]. by intros s ->%list_elem_of_singleton.
  - assert (src = ForwardPhase.UsrExchangeIntent) as Hint by auto. set (dirs := [Directory.Staging; Directory.InstallationRoot]).
    destruct (decided_checkpoint r src InitialRollbackAction.Pending Hc) as (next & Hd & Had & _); [done|].
    exists next, InitialRollbackAction.Pending, (with_journal (Some next) (syncs dirs w)). split.
    + apply Hcap. cbn [a_namespace]. rewrite Hu. eapply quiet_bind; [by apply quiet_parent_durability|].
      by apply (quiet_decision_persist r (syncs dirs w)).
    + assert (on_stage r Stage.Forward (syncs dirs w)) as Hst2 by (do 2 apply sync_stage; done).
      destruct (syncs_clears dirs w) as [Hn1 Hn2]; [done| |].
      { intros d Hin. pose proof Hst as (_ & _ & [_ _ _ _ Huns _]). apply Huns in Hin. cbn in Hin. by rewrite Hint in Hin. }
      eapply decided_publish; try done.
      * intros s _ H8. by rewrite Hint in H8.
      * rewrite Hn1. intros s ->%list_elem_of_singleton. destruct a0 as [|[]|]; try done.
        exfalso. pose proof (proj2 Hpre). cbn in Hlay. injection Hlay as <-. naive_solver.
Qed.

(** ** The links of the root *)

Lemma grows_Forall2 (l k : RootAbi) :
  ((length l =? length k)%nat && forallb (fun p => link_grows p.1 p.2) (zip l k)) = true <->
  Forall2 (fun x y => link_grows x y = true) l k.
Proof using.
  split.
  - revert k. induction l as [|x l IH]; intros [|y k]; cbn; try done; try by constructor.
    intros [Hlen [Hx Hl]%andb_true_iff]%andb_true_iff. constructor; [done|]. apply IH. by rewrite Hlen, Hl.
  - induction 1 as [|x y l k Hx _ IH]; [done|]. cbn. apply andb_true_iff in IH as [-> ->]. by rewrite Hx.
Qed.

Lemma link_growth i s0 s s' : root_abi s !! i = Some None -> link_effect i s s' ->
  admits_only_root_abi_growth s0 s = true -> admits_only_root_abi_growth s0 s' = true.
Proof using.
  intros Hi [[k Hk] Hroot (E1 & E2 & E3 & E4) (E5 & E6 & E7 & E8 & E9)]. unfold admits_only_root_abi_growth.
  rewrite E1, E2, E3, E4, E5, E6, E7, E8, E9. intros [[Hr Hrest]%andb_true_iff Hg]%andb_true_iff. rewrite Hrest.
  assert (root_stable (root s0) (root s') = true) as ->.
  { unfold root_stable in *. rewrite !andb_true_iff, !Z.eqb_eq in *. intuition congruence. }
  cbn [andb]. apply grows_Forall2 in Hg. apply grows_Forall2. rewrite Hk. apply Forall2_same_length_lookup. split.
  { rewrite length_insert. by eapply Forall2_length. }
  intros j x y Hx Hy. destruct (decide (j = i)) as [->|Hne].
  - apply list_lookup_insert_Some in Hy as [(_ & <- & _)|[Hne _]]; [|done].
    pose proof (Forall2_lookup_lr _ _ _ _ _ _ Hg Hx Hi) as Hl. by destruct x.
  - rewrite list_lookup_insert_ne in Hy by done. by apply (Forall2_lookup_lr _ _ _ _ _ _ Hg Hx Hy).
Qed.

Lemma growth_refl s : admits_only_root_abi_growth s s = true.
Proof using.
  unfold admits_only_root_abi_growth. rewrite !bool_decide_eq_true_2 by done. unfold root_stable. rewrite !Z.eqb_refl. cbn [andb].
  apply grows_Forall2. apply Forall2_same_length_lookup. split; [done|]. intros i x y Hx Hy. rewrite Hx in Hy. injection Hy as <-.
  destruct x; [|done]. cbn. by apply bool_decide_eq_true.
Qed.

Section links.
Context (r : TransitionRecord) (Hexch : src = ForwardPhase.UsrExchanged).
Abbreviation S := (on_stage r Stage.Forward).

Lemma quiet_links s0 l : NoDup l -> forall w, S w -> (forall i, i ∈ l <-> root_abi (visible w) !! i = Some None) ->
  admits_only_root_abi_growth s0 (visible w) = true ->
  exists w', quiet (for_each (fun i => created ← move_once [Directory.InstallationRoot] (link_root i);
                                       require created RecoveryError.PublicationFailed) l) w tt w'
    /\ S w' /\ m_database w' = m_database w /\ is_complete (root_abi (visible w')) = true
    /\ admits_only_root_abi_growth s0 (visible w') = true.
Proof using FL Hexch.
  induction 1 as [|i l Hi Hnd IH]; intros w Hst Hl Hg; cbn [for_each].
  { exists w. split_and!; try done. unfold is_complete. apply forallb_forall. intros x Hx%list_elem_of_In.
    apply list_elem_of_lookup in Hx as [j Hj]. apply bool_decide_eq_true. destruct x; [by eexists|].
    apply Hl in Hj. by apply not_elem_of_nil in Hj. }
  assert (root_abi (visible w) !! i = Some None) as Hn by (apply Hl; left).
  pose proof (link_stage _ _ _ r Hexch w i Hst Hn) as Hst'. pose proof (link_root_law i (visible w) Hn) as Heff.
  destruct (IH _ Hst') as (w' & Hq & Hw').
  - intros j. cbn. destruct Heff as [[k ->] _ _ _]. destruct (decide (j = i)) as [->|Hne].
    + split; [done|]. intros [(_ & ? & _)|[? _]]%list_lookup_insert_Some; done.
    + rewrite list_lookup_insert_ne by done. rewrite <- Hl, elem_of_cons. naive_solver.
  - by eapply link_growth.
  - exists w'. split; [|done]. eapply quiet_bind; [|exact Hq]. eapply quiet_bind; [apply quiet_move|]. by apply quiet_require.
Qed.

Lemma absent_links_iff abi i : i ∈ absent_links abi <-> abi !! i = Some None.
Proof using.
  unfold absent_links. rewrite list_elem_of_In, filter_In, in_seq, bool_decide_eq_true. split; [tauto|]. intros Hi. split; [|done].
  apply lookup_lt_Some in Hi. lia.
Qed.

Lemma quiet_create_links w : S w ->
  exists w', quiet create_root_links_retained w tt w' /\ S w' /\ m_database w' = m_database w
    /\ is_complete (root_abi (visible w')) = true /\ admits_only_root_abi_growth (visible w) (visible w') = true.
Proof using FL Hexch.
  intros Hst. destruct (quiet_links (visible w) (absent_links (root_abi (visible w))) (absent_links_nodup _) w Hst)
    as (w' & Hq & Hst' & Hd & Hc & Hg); [apply absent_links_iff|apply growth_refl|].
  exists (synced Directory.InstallationRoot w'). split_and!; try done; [|by apply sync_stage].
  unfold create_root_links_retained. eapply quiet_bind; [apply quiet_snapshot|]. eapply quiet_bind; [exact Hq|]. apply quiet_write.
Qed.

Lemma exchanged_post w : S w -> require_usr_exchanged_post r (visible w) = Ok tt.
Proof using FL Hexch.
  intros Hst. destruct (stage_visible _ _ _ _ _ _ Hst) as (a0 & Hm & Ha & Hl & Hc). unfold require_usr_exchanged_post.
  rewrite (cp_phase _ _ _ Hc), (cp_plan _ _ _ Hc), (stage_assess _ _ _ Hc _ _ Hm Ha Hl).
  rewrite Hexch in Hm |- *. by destruct a0 as [|[]|].
Qed.

Context (id : Z) (o : ExactFreshTransitionObservation.t) (t : tables) (Hr : reads_as r t o)
  (Hx : database_is_compatible r (evidence_of r t o) = true).

Lemma quiet_root_abi_source w : S w -> quiet (root_abi_revalidate_source r (visible w)) w tt w.
Proof using FL Hexch.
  intros Hst. destruct (stage_checkpoint _ _ _ Hst) as [_ Hj]. pose proof (exchanged_post w Hst) as Hp.
  unfold root_abi_revalidate_source. eapply quiet_bind; [by apply quiet_journal|]. eapply quiet_bind; [apply quiet_namespace|].
  eapply quiet_bind; [apply quiet_snapshot|]. eapply quiet_bind; [apply quiet_require; by apply bool_decide_eq_true|].
  eapply quiet_bind; [by apply quiet_lift|]. eapply quiet_bind; [by apply quiet_journal|]. apply quiet_namespace.
Qed.

Lemma quiet_current_database w : m_database w = t -> quiet (current_database r (evidence_of r t o)) w tt w.
Proof using FL Hr Hx. intros Ht. apply quiet_exact_database; [by apply ra_inspect|done]. Qed.

Lemma quiet_database_and_binding w : S w -> m_database w = t -> quiet (revalidate_database_and_binding r (evidence_of r t o)) w tt w.
Proof using FL Hr Hx.
  intros Hst Ht. destruct (stage_checkpoint _ _ _ Hst) as [_ Hj]. pose proof (quiet_current_database w Ht) as Hc.
  unfold revalidate_database_and_binding. eapply quiet_bind; [by apply quiet_binding|]. eapply quiet_bind; [apply quiet_namespace|].
  do 2 (eapply quiet_bind; [exact Hc|]). eapply quiet_bind; [apply quiet_namespace|]. by apply quiet_binding.
Qed.

Lemma quiet_root_abi_revalidate w : S w -> m_database w = t ->
  quiet (root_abi_revalidate r {| a_database := evidence_of r t o; a_snapshot := visible w; a_namespace := tt |}) w tt w.
Proof using FL Hexch Hr Hx.
  intros Hst Ht. destruct (stage_checkpoint _ _ _ Hst) as [_ Hj]. pose proof (quiet_current_database w Ht) as Hc.
  unfold root_abi_revalidate. cbn [a_database a_snapshot]. eapply quiet_bind; [by apply quiet_binding|]. eapply quiet_bind; [apply quiet_namespace|].
  eapply quiet_bind; [exact Hc|]. eapply quiet_bind; [by apply quiet_root_abi_source|]. eapply quiet_bind; [exact Hc|].
  eapply quiet_bind; [apply quiet_namespace|]. by apply quiet_binding.
Qed.

Lemma quiet_root_abi_capture w : S w -> m_database w = t ->
  quiet (root_abi_capture r (flight_of o)) w
    (Admission.Ready {| a_database := evidence_of r t o; a_snapshot := visible w; a_namespace := tt |}) w.
Proof using FL Hexch Hr Hx.
  intros Hst Ht. destruct (stage_checkpoint _ _ _ Hst) as [Hc Hj]. pose proof (exchanged_post w Hst) as Hp. unfold root_abi_capture.
  rewrite (cp_phase _ _ _ Hc), (cp_plan _ _ _ Hc), Hexch. cbn [stage_phase Phase_from].
  rewrite (bool_decide_eq_true_2 (Phase.UsrExchanged = _)), (bool_decide_eq_false_2 (is_Some None)) by (done || by intros []). cbn [negb orb].
  eapply quiet_bind; [by apply quiet_binding|]. eapply quiet_bind; [apply quiet_namespace|].
  eapply quiet_bind; [by apply (ra_inspect_with _ _ _ Hr)|]. rewrite Hx. cbn [negb]. eapply quiet_bind.
  { apply quiet_attempt. unfold root_abi_inspection. eapply quiet_bind; [eapply quiet_inspection_begin; [done|by apply quiet_journal]|].
    eapply quiet_bind; [eapply quiet_inspection_finish; [done|by apply quiet_journal]|]. apply quiet_ret. }
  cbn beta iota. eapply quiet_bind; [by apply (ra_inspect _ _ _ Hr)|]. eapply quiet_bind; [by apply quiet_require|].
  rewrite bool_decide_eq_true_2 by done. cbn [negb]. eapply quiet_bind; [apply quiet_namespace|].
  eapply quiet_bind; [by apply quiet_binding|]. apply quiet_ret.
Qed.

Lemma quiet_synchronize w : S w -> m_database w = t ->
  quiet (synchronize_usr_exchanged_root_abi r {| a_database := evidence_of r t o; a_snapshot := visible w; a_namespace := tt |})
    w tt (synced Directory.InstallationRoot w).
Proof using FL Hexch Hr Hx.
  intros Hst Ht. unfold synchronize_usr_exchanged_root_abi. cbn [a_snapshot a_database].
  eapply quiet_bind; [by apply quiet_root_abi_revalidate|]. do 2 (eapply quiet_bind; [by apply quiet_root_abi_source|]).
  eapply quiet_bind; [by apply quiet_database_and_binding|]. eapply quiet_bind; [apply quiet_attempt, quiet_write|].
  pose proof (sync_stage _ _ _ _ _ _ Directory.InstallationRoot Hst) as Hst1.
  pose proof (quiet_root_abi_source _ Hst1) as Hs. cbn [synced visible] in Hs.
  eapply quiet_bind; [apply quiet_attempt, Hs|]. do 2 (eapply quiet_bind; [by apply quiet_lift|]).
  eapply quiet_bind; [by apply quiet_database_and_binding|]. exact Hs.
Qed.

Lemma quiet_normalize_links w : S w -> m_database w = t ->
  exists w', quiet (normalize_usr_exchanged_root_abi r {| a_database := evidence_of r t o; a_snapshot := visible w; a_namespace := tt |}) w tt w'
    /\ S w' /\ m_database w' = m_database w /\ is_complete (root_abi (visible w')) = true.
Proof using FL Hexch Hr Hx.
  intros Hst Ht. destruct (quiet_create_links w Hst) as (w' & Hq & Hst' & Hd & Hc & Hg). exists w'. split_and!; try done.
  unfold normalize_usr_exchanged_root_abi. cbn [a_snapshot a_database].
  eapply quiet_bind; [by apply quiet_root_abi_revalidate|]. do 2 (eapply quiet_bind; [by apply quiet_root_abi_source|]).
  eapply quiet_bind; [by apply quiet_database_and_binding|]. eapply quiet_bind; [apply quiet_attempt, Hq|].
  destruct (stage_checkpoint _ _ _ Hst') as [_ Hj']. eapply quiet_bind.
  { apply quiet_attempt. unfold reconcile_after_publication. eapply quiet_bind; [apply quiet_snapshot|].
    eapply quiet_bind; [apply quiet_lift, exchanged_post, Hst'|]. eapply quiet_bind; [by apply quiet_require|].
    eapply quiet_bind; [by apply quiet_journal|]. eapply quiet_bind; [apply quiet_namespace|]. apply quiet_ret. }
  eapply quiet_bind; [by apply quiet_lift|]. eapply quiet_bind; [by apply quiet_require|].
  eapply quiet_bind; [apply quiet_database_and_binding; [done|congruence]|]. by apply quiet_root_abi_source.
Qed.
End links.

Lemma decided_ranked next u w n : on_stage next (decided_stage u) w -> 10 <= n -> ranked n w.
Proof using FL.
  intros Hst Hn. destruct (stage_visible _ _ _ _ _ _ Hst) as (a & Hm & Ha & _).
  eapply stage_ranked; [exact Hst|by destruct u|done..|]. destruct u, a as [|[]|]; cbn; lia.
Qed.

Lemma on_forward_progress r w n : on_stage r Stage.Forward w -> 10 <= n -> (unlinked Stage.Forward (visible w) -> 11 <= n) -> progresses n w.
Proof using FL.
  intros Hst Hn Hun. destruct (stage_reads _ _ _ Hst) as (id & o & Hrows & Hob & Hr & Hx). destruct (stage_checkpoint _ _ _ Hst) as [Hc _].
  assert (forall w1, on_stage r Stage.Forward w1 -> m_database w1 = m_database w -> links_durable src w1 ->
    exists next u w2, quiet (decided ← decision r (flight_of o); match decided with Some next => handled next | None =>
      routed ← resume_route r (flight_of o); match routed with Some next => handled next | None =>
      reversed ← reverse r (flight_of o); match reversed with Some next => handled next | None => dispatch_new_state self r (flight_of o) end end end)
      w1 (Entry.RecoveryPending next) w2 /\ on_stage next (decided_stage u) w2) as Hdecide.
  { intros w1 Hst1 Ht1 Hl1. destruct (quiet_decision r w1 id o Hst1 Hl1) as (next & u & w2 & Hq & Hst2); [by rewrite Ht1|done|].
    exists next, u, w2. split; [|done]. eapply quiet_bind; [exact Hq|]. by eapply quiet_handled. }
  destruct (decide (src = ForwardPhase.UsrExchanged)) as [Hex|Hex].
  - destruct (is_complete (root_abi (visible w))) eqn:Hcomplete.
    + set (w1 := synced Directory.InstallationRoot w). assert (on_stage r Stage.Forward w1) as Hst1 by (by apply sync_stage).
      destruct (Hdecide w1) as (next & u & w2 & Hq & Hst2); [done..| |].
      { intros _. split; [|done]. apply (syncs_clears [Directory.InstallationRoot] w); [done|].
        pose proof Hst as (_ & _ & [_ _ _ _ Huns _]). intros d Hd%Huns. by rewrite Hex in Hd. }
      exists (Entry.RecoveryPending next), w2. split; [|by eapply decided_ranked].
      eapply (quiet_enter r Stage.Forward w (m_database w) o); [done..|]. unfold recover. eapply (quiet_bind _ _ _ (Some (flight_of o))); [|exact Hq]. unfold root_abi_step.
      eapply quiet_bind; [by apply quiet_root_abi_capture|]. cbn [a_snapshot]. rewrite Hcomplete.
      eapply quiet_bind; [by apply quiet_synchronize|]. eapply quiet_bind; [by apply (ra_audit _ _ _ Hr)|]. apply quiet_ret.
    + destruct (quiet_normalize_links r Hex o _ Hr Hx w Hst eq_refl) as (w1 & Hq & Hst1 & Ht1 & Hc1).
      exists (Entry.RecoveryPending r), w1. split.
      * eapply (quiet_enter r Stage.Forward w (m_database w) o); [done..|]. unfold recover. eapply (quiet_bind _ _ _ None); [|by eapply quiet_handled]. unfold root_abi_step.
        eapply quiet_bind; [by apply quiet_root_abi_capture|]. cbn [a_snapshot]. rewrite Hcomplete.
        eapply quiet_bind; [exact Hq|]. apply quiet_ret.
      * left. destruct (stage_visible _ _ _ _ _ _ Hst1) as (a & Hm & Ha & _). exists r, Stage.Forward, a. split_and!; try done.
        -- cbn. apply Hun. done.
        -- intros (_ & _ & ?). congruence.
  - destruct (Hdecide w) as (next & u & w2 & Hq & Hst2); [done..|].
    exists (Entry.RecoveryPending next), w2. split; [|by eapply decided_ranked].
    eapply (quiet_enter r Stage.Forward w (m_database w) o); [done..|]. unfold recover. eapply (quiet_idles _ _ (Some (flight_of o))); [|exact Hq]. apply (root_abi_idle r src _ Hc).
    pose proof (cp_source _ _ _ Hc). by destruct src.
Qed.

(** ** The route and the reversal *)

Lemma quiet_recover_rollback r st w f e w' : on_stage r st w -> st <> Stage.Forward ->
  quiet (routed ← resume_route r f; match routed with Some next => handled next | None =>
    reversed ← reverse r f; match reversed with Some next => handled next | None => dispatch_new_state self r f end end) w e w' ->
  quiet (recover self r f) w e w'.
Proof using FL.
  intros Hst Hf Hq. destruct (stage_checkpoint _ _ _ Hst) as [Hc _]. unfold recover.
  eapply quiet_idles; [apply (root_abi_idle r src _ Hc); by destruct st|]. eapply quiet_idles; [by apply (decision_idle r src _ Hc)|]. exact Hq.
Qed.

Lemma next_ranked next st w n : on_stage next (next_stage st) w -> st <> Stage.Complete ->
  (forall a, may_stand src (next_stage st) a = true -> arrangement next a (visible w) -> rank (next_stage st) a <= n) -> ranked n w.
Proof using FL.
  intros Hst Hc Hn. destruct (stage_visible _ _ _ _ _ _ Hst) as (a & Hm & Ha & _).
  eapply stage_ranked; [exact Hst|by destruct st|done..|by apply Hn].
Qed.

(** A staged candidate is in one arrangement only. *)
Lemma arrangement_topology r st w a a' : on_stage r st w -> may_stand src st a = true -> may_stand src st a' = true ->
  arrangement r a (visible w) -> arrangement r a' (visible w) -> layout_of a = layout_of a' /\ topology_at a = topology_at a'.
Proof using FL.
  intros Hst Hm Hm' Ha Ha'. destruct (stage_visible _ _ _ _ _ _ Hst) as (_ & _ & _ & Hl & Hc).
  pose proof (stage_assess _ _ _ Hc _ _ Hm Ha Hl) as E1. pose proof (stage_assess _ _ _ Hc _ _ Hm' Ha' Hl) as E2.
  rewrite E1 in E2. injection E2 as E. split; [done|].
  destruct (topology_at a) as [t|] eqn:T1, (topology_at a') as [t'|] eqn:T2; try done.
  - pose proof (stage_topology _ _ _ Hc _ _ Hm Ha Hl _ T1) as P1. pose proof (stage_topology _ _ _ Hc _ _ Hm' Ha' Hl _ T2) as P2. congruence.
  - by destruct a as [|[]|], a' as [|[]|].
  - by destruct a as [|[]|], a' as [|[]|].
Qed.

Lemma route_progress r st w n : on_stage r st w -> is_Some (route_exchange st) ->
  (forall a, may_stand src st a = true -> rank st a <= S n) -> progresses n w.
Proof using FL.
  intros Hst [layout Hroute] Hn. destruct (stage_reads _ _ _ Hst) as (id & o & Hrows & Hob & Hr & Hx).
  destruct (stage_visible _ _ _ _ _ _ Hst) as (a0 & Hm & Ha & Hl & Hc). destruct (stage_checkpoint _ _ _ Hst) as [_ Hj].
  destruct (route_recognised r src st layout Hc Hroute) as [Hsrc Hev].
  assert (exchange_of a0 = Some layout) as Hlay by (destruct st; try done; injection Hroute as <-; by destruct a0 as [|[]|]).
  pose proof (stage_route _ _ _ Hc _ _ Hm Ha Hl layout Hlay ltac:(by destruct st)) as Hrl.
  destruct (successor_checkpoint r src st None Hc) as (next & Hs & Had & Hc'); [by destruct st|].
  pose proof (route_publish _ _ _ _ _ _ _ Hst ltac:(by destruct st) Hs) as Hst'.
  exists (Entry.RecoveryPending next), (with_journal (Some next) w). split.
  - eapply (quiet_enter r st w (m_database w) o); [done..|]. eapply quiet_recover_rollback; [exact Hst|by destruct st|].
    eapply (quiet_bind _ _ _ (Some next)); [|by eapply quiet_handled]. unfold resume_route. rewrite Hsrc, (cp_phase _ _ _ Hc).
    rewrite bool_decide_eq_true_2 by (destruct st; try done; auto). cbn [negb orb].
    eapply quiet_bind; [apply quiet_capture_namespace_first; try done;
      [by apply (ra_inspect _ _ _ Hr)|by apply quiet_journal_check|by apply (ra_inspect_with _ _ _ Hr)]|]. cbn beta iota.
    eapply quiet_bind; [|apply quiet_ret]. eapply quiet_persist; try done.
    + by apply (ra_inspect _ _ _ Hr).
    + by apply quiet_journal_check.
    + rewrite (cp_phase _ _ _ Hc'). by destruct st.
  - apply (next_ranked next st); [done|by destruct st|]. intros a Hm' Ha'. specialize (Hn a0 Hm).
    assert (arrangement r a (visible w)) as Ha2.
    { destruct (checkpoint_advances _ _ _ _ Hc Had) as [Hsame Hid]. eapply arrangement_same; [by symmetry|by symmetry|done]. }
    destruct st; try done; destruct a0 as [|[]|]; try done; destruct a as [|[]|]; cbn in *; lia.
Qed.

Section reversing.
Context (r : TransitionRecord) (w : machine) (Hst : on_stage r Stage.Reversing w).
Context (o : ExactFreshTransitionObservation.t) (Hr : reads_as r (m_database w) o)
  (Hx : database_is_compatible r (evidence_of r (m_database w) o) = true).

Abbreviation ev := (evidence_of r (m_database w) o).
Abbreviation dirs := [Directory.Staging; Directory.InstallationRoot].

Lemma staged_is_pre w1 : reversed self r0 src r w1 -> is_pre r (visible w1) = Ok tt.
Proof using FL.
  intros [Hst1 Ha]. destruct (stage_visible _ _ _ _ _ _ Hst1) as (_ & _ & _ & Hl & Hc).
  destruct (stage_reverse _ _ _ Hc _ (Arrangement.Staged Quarantine.Missing) eq_refl Ha Hl UsrExchangeLayout.Pre eq_refl) as (p & Hp & Hpr & _).
  unfold is_pre. rewrite Hpr. cbn. by rewrite Hp, bool_decide_eq_true_2.
Qed.

(** The reversal, from either layout *)
Lemma quiet_reverse_reconcile n : reverse_evidence r (visible w) = Ok n ->
  exists w1 outcome, quiet (reverse_reconcile r {| a_database := ev; a_snapshot := visible w; a_namespace := n |}) w (visible w1, outcome) w1
    /\ reversed self r0 src r w1 /\ m_journal w1 = m_journal w /\ m_database w1 = m_database w.
Proof using FL Hst Hr Hx.
  intros He. destruct (stage_visible _ _ _ _ _ _ Hst) as (a0 & Hm & Ha & Hl & Hc). destruct (stage_checkpoint _ _ _ Hst) as [_ Hj].
  pose proof (reverse_recognised r src Hc) as Hplan.
  assert (exists layout, exchange_of a0 = Some layout) as [layout Hlay] by (destruct a0 as [|[]|]; try done; cbn; eauto).
  destruct (stage_reverse _ _ _ Hc _ _ Hm Ha Hl layout Hlay) as (p & Hp & Hpr & He'). rewrite He in He'. injection He' as ->.
  assert (forall w', m_journal w' = m_journal w -> m_database w' = m_database w -> quiet (inspect r) w' ev w') as Hread.
  { intros w' _ Hd'. by apply (ra_inspect _ _ _ Hr). }
  assert (quiet (reverse_final r {| a_database := ev; a_snapshot := visible w; a_namespace := (layout, p) |}) w tt w) as Hfin.
  { apply quiet_revalidate_namespace; [done|apply quiet_ret]. }
  unfold reverse_reconcile. cbn [a_namespace a_snapshot fst].
  destruct a0 as [|[]|]; try done; injection Hlay as <-.
  - set (w1 := moved dirs (exchange_usr (visible w)) w). exists w1, RollbackActionOutcome.Applied.
    destruct (exchange_admitted r (checkpoint_distinct _ _ _ Hc) _ Ha) as (_ & _ & Hne & Hadm).
    split_and!; [|by apply exchange_stage|done|done]. eapply quiet_bind.
    + eapply quiet_surrounded with (w := w) (w1 := w) (w2 := w1); try done. eapply quiet_bind; [exact Hfin|]. by apply quiet_attempt_once.
    + apply quiet_ret.
  - exists w, RollbackActionOutcome.AlreadySatisfied. split_and!; [|done..]. eapply quiet_bind; [|apply quiet_ret].
    by eapply quiet_surrounded with (w := w).
Qed.

Lemma reverse_progress n : 8 <= n -> progresses n w.
Proof using FL Hst Hr Hx.
  intros Hn. destruct (stage_visible _ _ _ _ _ _ Hst) as (a0 & Hm & Ha & Hl & Hc). destruct (stage_checkpoint _ _ _ Hst) as [_ Hj].
  pose proof (reverse_recognised r src Hc) as Hplan.
  assert (exists layout, exchange_of a0 = Some layout) as [layout Hlay] by (destruct a0 as [|[]|]; try done; cbn; eauto).
  destruct (stage_reverse _ _ _ Hc _ _ Hm Ha Hl layout Hlay) as (p & Hp & Hpr & He).
  destruct (quiet_reverse_reconcile _ He) as (w1 & outcome & Hq & [Hst1 Ha1] & Hj1 & Hd1).
  destruct (successor_checkpoint r src Stage.Reversing (Some outcome) Hc eq_refl) as (next & Hs & Had & Hc').
  destruct (syncs_keeps dirs w1) as (E1 & E2 & E3).
  destruct (syncs_clears dirs w1) as [Hn1 Hn2]; [done|by destruct Hst1 as (_ & _ & [_ _ _ _ Hu _])|].
  assert (on_stage next Stage.Restored (with_journal (Some next) (syncs dirs w1))) as Hst'.
  { eapply (outcome_publish _ _ _ r Stage.Reversing _ outcome _ (Arrangement.Staged Quarantine.Missing)); try done.
    do 2 apply sync_stage. done. }
  assert (forall w', m_journal w' = m_journal w -> m_database w' = m_database w -> quiet (inspect r) w' ev w') as Hread.
  { intros w' _ Hd'. by apply (ra_inspect _ _ _ Hr). }
  exists (Entry.RecoveryPending next), (with_journal (Some next) (syncs dirs w1)). split.
  - eapply (quiet_enter r Stage.Reversing w (m_database w) o); [done..|]. eapply quiet_recover_rollback; [exact Hst|done|].
    eapply quiet_idles; [by apply (route_idle r src _ Hc)|]. eapply (quiet_bind _ _ _ (Some next)); [|by eapply quiet_handled].
    unfold reverse, reverse_capture. rewrite (cp_phase _ _ _ Hc), bool_decide_eq_true_2 by done. cbn [negb].
    eapply quiet_bind; [apply quiet_capture_namespace_first; try done;
      [by apply (ra_inspect _ _ _ Hr)|by rewrite Hx|by apply (ra_inspect_with _ _ _ Hr)]|]. cbn beta iota.
    eapply quiet_bind.
    { unfold reverse_lease. eapply quiet_bind; [apply quiet_revalidate; try done; by apply (ra_inspect _ _ _ Hr)|].
      cbn [a_namespace fst snd]. eapply quiet_bind; [apply quiet_require; by apply bool_decide_eq_true|]. by apply quiet_bound. }
    eapply quiet_bind; [exact Hq|]. cbn [fst snd].
    eapply quiet_bind; [by eapply quiet_complete_durability with (w := w); try done; apply staged_is_pre|].
    eapply quiet_bind; [|apply quiet_ret]. replace Phase.UsrRestored with (phase next) by (by rewrite (cp_phase _ _ _ Hc')).
    eapply quiet_persist_outcome with (w := w); try done; [congruence..|]. rewrite ?E3. by apply staged_is_pre.
  - apply (next_ranked next Stage.Reversing); [done..|]. intros a Hm' _. by destruct a as [|[]|].
Qed.
End reversing.

(** ** Preserving the candidate *)

Definition target_of (q : Quarantine.t) : TargetLayout.t :=
  match q with
  | Quarantine.Missing => TargetLayout.Absent
  | Quarantine.Residue => TargetLayout.RestrictiveResidue
  | Quarantine.Empty => TargetLayout.EmptyPrivate
  end.

Section preserving.
Context (r : TransitionRecord).
Abbreviation Y := (on_stage r Stage.Preserving).

Lemma target_recognised w q s : Y w -> arrangement r (Arrangement.Staged q) s -> is_target r (target_of q) s = Ok tt.
Proof using FL.
  intros Hst [x Hx]. destruct (preserving_facts _ _ _ _ w Hst) as (Hop & _ & Hph). unfold is_target, project_target_create.
  rewrite (is_preserving r Hop Hph). cbn [mbind result_bind]. rewrite (arranged_target _ _ _ _ Hx q eq_refl). by destruct q.
Qed.

Lemma preserve_recognised_as w a layout s : Y w -> arrangement r a s -> preserve_layout_of a = Some layout -> is_preserve r layout s = Ok tt.
Proof using FL.
  intros Hst [x Hx] Hl. destruct (preserving_facts _ _ _ _ w Hst) as (Hop & Hd & Hph). unfold is_preserve.
  destruct (arranged_preserve _ _ _ _ Hx Hd Hop layout Hph Hl) as (t & _ & ->). cbn. by rewrite bool_decide_eq_true_2.
Qed.

Lemma topology_recognised w a t : Y w -> may_stand src Stage.Preserving a = true -> arrangement r a (visible w) ->
  topology_at a = Some t -> preserve_evidence r (visible w) = Ok t.
Proof using FL.
  intros Hst Hm Ha Ht. destruct (stage_visible _ _ _ _ _ _ Hst) as (_ & _ & _ & Hl & Hc). unfold preserve_evidence, candidate_preserve_topology.
  rewrite (cp_phase _ _ _ Hc), bool_decide_eq_true_2 by done. cbn [negb reject_if mbind result_bind].
  by rewrite (stage_topology _ _ _ Hc _ _ Hm Ha Hl t Ht).
Qed.

Context (w : machine) (Hst : Y w) (a0 : Arrangement.t) (t : Topology.t) (Hm : may_stand src Stage.Preserving a0 = true)
  (Ha : arrangement r a0 (visible w)) (Ht : topology_at a0 = Some t).
Context (o : ExactFreshTransitionObservation.t) (Hr : reads_as r (m_database w) o)
  (Hx : database_is_compatible r (evidence_of r (m_database w) o) = true).

Abbreviation ev := (evidence_of r (m_database w) o).
Abbreviation auth := ({| a_database := ev; a_snapshot := visible w; a_namespace := t |}).
Abbreviation new_state_plan := (fun _ : Topology.t => bool_decide (operation r = NewState) && candidate_preserve_plan_is_exact r).

Let Hread : forall w', m_journal w' = m_journal w -> m_database w' = m_database w -> quiet (inspect r) w' ev w'.
Proof. intros w' _ Hd. by apply (ra_inspect _ _ _ Hr). Qed.

Let Hjournal : m_journal w = Some r := proj2 (stage_checkpoint _ _ _ Hst).
Let Hc : checkpoint r src Stage.Preserving := proj1 (stage_checkpoint _ _ _ Hst).
Let Hplan : candidate_preserve_plan_is_exact r = true := proj1 (preserve_recognised r src Hc).
Let Hev : preserve_evidence r (visible w) = Ok t := topology_recognised w a0 t Hst Hm Ha Ht.

Lemma new_state_plan_exact : new_state_plan t = true.
Proof using Hst Hc Hplan FL. by rewrite (cp_operation _ _ _ Hc), Hplan. Qed.

Lemma quiet_preserve_capture : quiet (preserve_capture r (flight_of o)) w (Admission.Ready auth) w.
Proof using FL Hst Hm Ha Ht Hr Hx Hread Hjournal Hc Hplan Hev.
  unfold preserve_capture. rewrite (cp_phase _ _ _ Hc), bool_decide_eq_true_2 by done. cbn [negb].
  destruct (cp_plan _ _ _ Hc) as (p & Hp & _). rewrite Hp, (proj2 (preserve_recognised r src Hc) p Hp). cbn [negb].
  apply quiet_capture_namespace_first; try done.
  - by apply Hread.
  - by rewrite Hx, Hplan.
  - by apply quiet_journal_check.
  - by apply (ra_inspect_with _ _ _ Hr).
Qed.

Lemma quiet_preserve_lease project : project (visible w) = Ok tt -> quiet (preserve_lease r auth project) w tt w.
Proof using FL Hst Hm Ha Ht Hr Hx Hread Hjournal Hc Hplan Hev.
  intros Hp. unfold preserve_lease. eapply quiet_bind; [|by apply quiet_lift]. apply quiet_revalidate; try done.
  - by apply Hread.
  - by apply quiet_journal_check.
Qed.

Lemma quiet_prepare_target : quiet (prepare_target r auth) w tt w.
Proof using FL Hst Hm Ha Ht Hc Hev. apply quiet_revalidate_namespace; [done|apply quiet_ret]. Qed.

Lemma quiet_restart w' : m_journal w' = m_journal w -> m_database w' = m_database w -> quiet (restart r auth) w' r w'.
Proof using FL Hst Hx Hread Hjournal Hc Hplan.
  intros Hj Hd. unfold restart. eapply quiet_bind; [|apply quiet_ret]. apply quiet_surrounding; try done; [congruence|by apply Hread].
Qed.

(** One movement, between its evidence *)
Lemma quiet_surrounded_attempt_by {B} prepare (step : unit -> recovery B) w1 y w2 :
  m_journal w1 = m_journal w -> m_database w1 = m_database w -> m_journal w2 = m_journal w -> m_database w2 = m_database w ->
  quiet prepare w tt w1 -> quiet (step tt) w1 y w2 ->
  quiet (surrounded_attempt r (inspect r) (database_is_compatible r) new_state_plan auth prepare step) w y w2.
Proof using FL Hst Hx Hread Hjournal Hc Hplan.
  intros J1 D1 J2 D2 Hp Hs. eapply quiet_surrounded_attempt with (w := w) (w2 := w1) (x := tt); try done. by rewrite new_state_plan_exact.
Qed.

Lemma quiet_create : a0 = Arrangement.Staged Quarantine.Missing ->
  exists w' q, quiet (create_target r auth) w r w' /\ Y w' /\ q <> Quarantine.Missing /\ arrangement r (Arrangement.Staged q) (visible w').
Proof using FL Hst Hm Ha Ht Hr Hx Hread Hjournal Hc Hplan Hev.
  intros E. pose proof Ha as Ha'. rewrite E in Ha'. destruct (preserving_facts _ _ _ _ w Hst) as (Hop & Hd & Hph).
  destruct (create_admitted r Hop Hph _ Ha') as ((q & Hq & Haq) & Habi & Hne & Hadm).
  set (w1 := moved [Directory.QuarantineParent; Directory.TransitionTarget] (make_target (quarantine_text (quarantine_name r)) (visible w)) w).
  exists w1, q. split_and!; [|eapply (move_preserving _ _ _ _ w _ _ (Arrangement.Staged q)); try done; cbn; set_solver|done|done].
  unfold create_target. cbn [a_snapshot]. eapply quiet_bind; [by apply quiet_preserve_lease, (target_recognised w Quarantine.Missing)|].
  eapply quiet_bind; [apply (quiet_surrounded_attempt_by _ _ w _ w1); [done..|apply quiet_prepare_target|by apply quiet_attempt_once]|].
  eapply quiet_bind; [by apply quiet_lift|]. by apply quiet_restart.
Qed.

Lemma quiet_normalize : a0 = Arrangement.Staged Quarantine.Residue ->
  exists w', quiet (normalize r auth) w r w' /\ Y w' /\ arrangement r (Arrangement.Staged Quarantine.Empty) (visible w').
Proof using FL Hst Hm Ha Ht Hr Hx Hread Hjournal Hc Hplan Hev.
  intros E. pose proof Ha as Ha'. rewrite E in Ha'. destruct (preserving_facts _ _ _ _ w Hst) as (Hop & Hd & Hph).
  destruct (normalize_admitted r Hop Hph _ Ha') as (Haq & Habi & Hne & Hadm).
  set (w1 := moved [Directory.TransitionTarget] (normalize_target (visible w)) w).
  assert (Y w1) as Hst1 by (eapply (move_preserving _ _ _ _ w _ _ (Arrangement.Staged Quarantine.Empty)); try done; cbn; set_solver).
  set (dirs := [Directory.TransitionTarget; Directory.QuarantineParent]). destruct (syncs_keeps dirs w1) as (E1 & E2 & E3).
  exists (syncs dirs w1). split_and!; [|by apply syncs_preserving|by rewrite E3].
  unfold normalize. cbn [a_snapshot]. eapply quiet_bind; [by apply quiet_preserve_lease, (target_recognised w Quarantine.Residue)|].
  eapply quiet_bind.
  { apply (quiet_surrounded_attempt_by _ _ w _ (syncs dirs w1)); [done..|apply quiet_prepare_target|]. unfold normalize_once. cbn [a_snapshot].
    eapply quiet_bind; [by apply quiet_attempt_once|]. cbn beta iota.
    eapply quiet_bind; [apply quiet_attempt, (quiet_barriers _ _ w1); [done|by apply (target_recognised w Quarantine.Empty)]|]. apply quiet_ret. }
  cbn [is_ok]. eapply quiet_bind; [by apply quiet_lift|]. by apply quiet_restart.
Qed.

(** The candidate is in quarantine: the outcome is recorded. *)
Lemma quiet_finish w1 outcome : Y w1 -> m_journal w1 = m_journal w -> m_database w1 = m_database w ->
  arrangement r Arrangement.Preserved (visible w1) ->
  exists next w', quiet (finish_preserve r auth (visible w1) outcome) w1 next w' /\ on_stage next Stage.Preserved w'.
Proof using FL Hst Hx Hread Hjournal Hc Hplan.
  intros Hst1 Hj1 Hd1 Ha1. set (dirs := [Directory.CandidateTree; Directory.Staging; Directory.TransitionTarget; Directory.QuarantineParent]).
  destruct (successor_checkpoint r src Stage.Preserving (Some outcome) Hc eq_refl) as (next & Hs & Had & Hc').
  destruct (syncs_keeps dirs w1) as (E1 & E2 & E3).
  destruct (syncs_clears dirs w1) as [Hn1 Hn2]; [done|by destruct Hst1 as (_ & _ & [_ _ _ _ Hu _])|].
  pose proof (preserve_recognised_as w1 _ _ _ Hst1 Ha1 eq_refl) as Hp.
  exists next, (with_journal (Some next) (syncs dirs w1)). split.
  - unfold finish_preserve. eapply quiet_bind.
    { eapply quiet_complete_durability with (w := w); try done. by rewrite new_state_plan_exact. }
    replace Phase.CandidatePreserved with (phase next) by (by rewrite (cp_phase _ _ _ Hc')).
    eapply quiet_persist_outcome with (w := w); try done; [by rewrite new_state_plan_exact|congruence..].
  - eapply (outcome_publish _ _ _ r Stage.Preserving _ outcome _ Arrangement.Preserved); try done. by apply syncs_preserving.
Qed.

Lemma quiet_move_staged : a0 = Arrangement.Staged Quarantine.Empty ->
  exists next w', quiet (move_staged r auth) w next w' /\ on_stage next Stage.Preserved w'.
Proof using FL Hst Hm Ha Ht Hr Hx Hread Hjournal Hc Hplan Hev.
  intros E. pose proof Ha as Ha'. rewrite E in Ha'. destruct (preserving_facts _ _ _ _ w Hst) as (Hop & Hd & Hph).
  destruct (preserve_admitted r Hop Hd Hph _ Ha') as (Haq & Habi & Hne & Hadm).
  pose proof (preserve_recognised_as w _ _ _ Hst Ha' eq_refl) as Hp.
  set (w1 := syncs [Directory.CandidateTree; Directory.TransitionTarget; Directory.QuarantineParent] w).
  assert (Y w1) as Hst1 by (by apply syncs_preserving).
  set (w2 := moved [Directory.Staging; Directory.TransitionTarget] (move_candidate (quarantine_text (quarantine_name r)) (visible w)) w1).
  assert (Y w2) as Hst2 by (eapply (move_preserving _ _ _ _ w1 _ _ Arrangement.Preserved); try done; cbn; set_solver).
  destruct (quiet_finish w2 RollbackActionOutcome.Applied Hst2) as (next & w' & Hq & Hst'); [done..|].
  exists next, w'. split; [|done]. unfold move_staged. cbn [a_snapshot]. eapply quiet_bind; [by apply quiet_preserve_lease|].
  eapply quiet_bind.
  { apply (quiet_surrounded_attempt_by _ _ w1 _ w2); try done.
    - unfold prepare_move. eapply quiet_bind; [apply quiet_revalidate_namespace; [done|apply quiet_ret]|].
      eapply quiet_bind; [apply quiet_write|]. by apply quiet_barriers.
    - eapply quiet_bind; [by apply (quiet_confirm _ w1)|]. apply (quiet_attempt_once _ _ _ _ w1); done. }
  eapply quiet_bind; [by apply quiet_lift|]. exact Hq.
Qed.
End preserving.

(** A handler of the dispatch takes the record to the next stage, or keeps it. *)
Lemma dispatched_progress r st st' w o next w' n handler : on_stage r st w -> reads_as r (m_database w) o ->
  route_exchange st = None -> st <> Stage.Reversing -> st <> Stage.Forward ->
  dispatch_new_state self r (flight_of o)
    = (taken ← handler; match taken with Some next => handled next | None => pending r (flight_of o) end) ->
  quiet handler w (Some next) w' -> on_stage next st' w' -> ranked n w' -> progresses n w.
Proof using FL.
  intros Hst Hr Hroute Hrev Hf E Hq Hst' Hn. destruct (stage_checkpoint _ _ _ Hst) as [Hc _].
  exists (Entry.RecoveryPending next), w'. split; [|done].
  eapply (quiet_enter r st w (m_database w) o); [done..|]. eapply quiet_recover_rollback; [exact Hst|done|].
  eapply quiet_idles; [apply (route_idle r src _ Hc); by destruct st|].
  eapply quiet_idles; [apply (reverse_idle r src _ Hc); by destruct st|].
  rewrite E. eapply (quiet_bind _ _ _ (Some next)); [exact Hq|]. by eapply quiet_handled.
Qed.

Lemma quiet_exact_source_record r w : m_journal w = Some r -> quiet (exact_source_record r) w tt w.
Proof using FL.
  intros Hj. unfold exact_source_record. eapply quiet_bind; [by apply quiet_binding|].
  do 2 (eapply quiet_bind; [apply quiet_namespace|]). eapply quiet_bind; [by apply quiet_binding|]. apply quiet_namespace.
Qed.

Lemma preserve_progress r w a0 n : on_stage r Stage.Preserving w -> may_stand src Stage.Preserving a0 = true ->
  arrangement r a0 (visible w) -> rank Stage.Preserving a0 <= S n -> progresses n w.
Proof using FL.
  intros Hst Hm Ha Hn. destruct (stage_reads _ _ _ Hst) as (id & o & _ & _ & Hr & Hx). destruct (stage_checkpoint _ _ _ Hst) as [Hc Hj].
  assert (exists t, topology_at a0 = Some t) as [t Ht] by (destruct a0 as [|[]|]; try done; cbn; eauto).
  pose proof (quiet_preserve_capture r w Hst a0 t Hm Ha Ht o Hr Hx) as Hcap.
  assert (exists next w' st', quiet (preserve r (flight_of o)) w (Some next) w' /\ on_stage next st' w' /\ ranked n w')
    as (next & w' & st' & Hq & Hst' & Hrank).
  2: { eapply (dispatched_progress r Stage.Preserving st' w o next w'); try done. unfold dispatch_new_state. by rewrite (cp_phase _ _ _ Hc). }
  set (a := {| a_database := evidence_of r (m_database w) o; a_snapshot := visible w; a_namespace := t |}) in Hcap.
  assert (forall next w', quiet (match t with
    | Topology.NewStateStaged => create_target r a
    | Topology.NewStateStagedWithTargetResidue => normalize r a
    | Topology.NewStateStagedWithEmptyQuarantine => move_staged r a
    | Topology.NewStatePreserved =>
        preserve_lease r a (is_preserve r NewStatePreserveLayout.Preserved);;
        finish_preserve r a (visible w) RollbackActionOutcome.AlreadySatisfied
    | _ => lift (Err RecoveryError.Unsupported)
    end) w next w' -> quiet (preserve r (flight_of o)) w (Some next) w') as Hgo.
  { intros next w' Hq. unfold preserve. eapply quiet_bind; [exact Hcap|]. cbn beta iota.
    eapply quiet_bind; [by apply quiet_exact_source_record|]. eapply quiet_bind; [exact Hq|apply quiet_ret]. }
  destruct a0 as [|q|]; [done| |].
  - destruct q; injection Ht as <-.
    + destruct (quiet_create r w Hst _ _ Hm Ha eq_refl o Hr Hx eq_refl) as (w' & q & Hq & Hst' & Hne & Ha').
      exists r, w', Stage.Preserving. split_and!; [by apply Hgo|done|]. eapply (stage_ranked r _ w' n (Arrangement.Staged q)); try done. destruct q; cbn in *; [done|lia..].
    + destruct (quiet_normalize r w Hst _ _ Hm Ha eq_refl o Hr Hx eq_refl) as (w' & Hq & Hst' & Ha').
      exists r, w', Stage.Preserving. split_and!; [by apply Hgo|done|]. eapply (stage_ranked r _ w' n (Arrangement.Staged Quarantine.Empty)); try done. cbn in *. lia.
    + destruct (quiet_move_staged r w Hst _ _ Hm Ha eq_refl o Hr Hx eq_refl) as (next & w' & Hq & Hst').
      exists next, w', Stage.Preserved. split_and!; [by apply Hgo|done|]. apply (next_ranked next Stage.Preserving); [done..|]. intros ? _ _. cbn in *. lia.
  - injection Ht as <-. destruct (quiet_finish r w Hst Topology.NewStatePreserved o Hr Hx w RollbackActionOutcome.AlreadySatisfied Hst) as (next & w' & Hq & Hst'); [done..|].
    exists next, w', Stage.Preserved. split_and!; [|done|].
    + apply Hgo. eapply quiet_bind; [|exact Hq]. eapply quiet_preserve_lease; try done. by eapply preserve_recognised_as.
    + apply (next_ranked next Stage.Preserving); [done..|]. intros ? _ _. cbn in *. lia.
Qed.

(** ** The row of the candidate *)

(** From here on the candidate is in quarantine. *)
Lemma stage_preserved r st w : on_stage r st w -> (forall a, may_stand src st a = true -> a = Arrangement.Preserved) ->
  require_preserved_at (stage_phase src st) r (visible w) = Ok tt.
Proof using FL.
  intros Hst Ha. destruct (stage_visible _ _ _ _ _ _ Hst) as (a & Hm & Hstand & Hl & Hc). unfold require_preserved_at.
  rewrite (cp_phase _ _ _ Hc), (cp_operation _ _ _ Hc), !bool_decide_eq_true_2 by done. cbn [negb orb].
  pose proof (Ha _ Hm) as ->. by rewrite (stage_topology _ _ _ Hc _ _ Hm Hstand Hl _ eq_refl).
Qed.

Lemma fresh_route_progress r w n : on_stage r Stage.Preserved w -> 3 <= n -> progresses n w.
Proof using FL.
  intros Hst Hn. destruct (stage_reads _ _ _ Hst) as (id & o & Hrows & Hob & Hr & Hx). destruct (stage_checkpoint _ _ _ Hst) as [Hc Hj].
  destruct (fresh_route_recognised r src Hc) as (Hplan & p & Hp & Hsrc).
  pose proof (stage_preserved r _ w Hst ltac:(by intros [|[]|])) as Hpres. cbn [stage_phase] in Hpres.
  destruct (successor_checkpoint r src Stage.Preserved None Hc eq_refl) as (next & Hs & Had & Hc').
  pose proof (route_publish _ _ _ _ _ _ _ Hst eq_refl Hs) as Hst'. cbn [next_stage] in Hst'.
  assert (fresh_db_route_database_is_exact r (evidence_of r (m_database w) o) && fresh_db_route_plan_is_exact r = true) as Hexact.
  { unfold fresh_db_route_database_is_exact. by rewrite Hx, Hplan, (rows_matching _ _ _ _ Hc _ _ _ Hrows Hob). }
  eapply (dispatched_progress r Stage.Preserved Stage.Invalidating w o next (with_journal (Some next) w)); try done.
  - unfold dispatch_new_state. by rewrite (cp_phase _ _ _ Hc).
  - unfold fresh_db_route. rewrite Hp, (cp_phase _ _ _ Hc), (cp_operation _ _ _ Hc), !bool_decide_eq_true_2, Hsrc by done. cbn [andb negb].
    eapply quiet_bind; [apply quiet_capture_namespace_first; try done;
      [by apply (ra_inspect _ _ _ Hr)|by apply quiet_journal_check|by apply (ra_inspect_with _ _ _ Hr)]|]. cbn beta iota.
    eapply quiet_bind; [|apply quiet_ret]. eapply quiet_persist; try done.
    + by apply (ra_inspect _ _ _ Hr).
    + by apply quiet_journal_check.
    + by rewrite (cp_phase _ _ _ Hc').
  - by apply (next_ranked next Stage.Preserved).
Qed.

Lemma completion_progress r w n : on_stage r Stage.Invalidated w -> 1 <= n -> progresses n w.
Proof using FL.
  intros Hst Hn. destruct (stage_reads _ _ _ Hst) as (id & o & Hrows & Hob & Hr & Hx). destruct (stage_checkpoint _ _ _ Hst) as [Hc Hj].
  pose proof (completion_recognised r src Hc) as Hplan. pose proof (rows_absent _ _ _ _ Hc _ _ _ Hrows Hob ltac:(auto)) as Hexact.
  pose proof (stage_preserved r _ w Hst ltac:(by intros [|[]|])) as Hpres. cbn [stage_phase] in Hpres.
  destruct (successor_checkpoint r src Stage.Invalidated None Hc eq_refl) as (next & Hs & Had & Hc').
  pose proof (route_publish _ _ _ _ _ _ _ Hst eq_refl Hs) as Hst'. cbn [next_stage] in Hst'.
  eapply (dispatched_progress r Stage.Invalidated Stage.Complete w o next (with_journal (Some next) w)); try done.
  - unfold dispatch_new_state. by rewrite (cp_phase _ _ _ Hc).
  - unfold complete_route. rewrite (cp_phase _ _ _ Hc), (cp_operation _ _ _ Hc), !bool_decide_eq_true_2, Hplan by done. cbn [orb negb].
    eapply quiet_bind; [apply quiet_capture_database_first; try done;
      [by apply (ra_fresh _ _ _ Hr)|by apply quiet_journal_check]|]. cbn beta iota.
    eapply quiet_bind; [|apply quiet_ret]. eapply quiet_persist; try done.
    + by apply (ra_fresh _ _ _ Hr).
    + by apply quiet_journal_check.
    + by rewrite (cp_phase _ _ _ Hc').
  - by apply (next_ranked next Stage.Invalidated).
Qed.

Section invalidating.
Context `{SL : !SqliteLaws SQ} (r : TransitionRecord).
Abbreviation G := (on_stage r Stage.Invalidating).

Lemma remove_exact_fresh_quiet pre t : (remove_exact_fresh_transition self pre (t, [])).2.2 = [].
Proof using FL.
  unfold remove_exact_fresh_transition. destruct (negb _); [done|]. unfold mbind, tx_bind, attempt, remove_exact_fresh_transition_once.
  pose proof (lawful_exclusive_quiet _ t (remove_fresh_lawful self pre)) as H1.
  destruct (exclusive_tx _ (t, [])) as [x [t1 fs]]. cbn in H1. subst fs. cbn -[inspect_exact_fresh_transition].
  pose proof (lawful_exclusive_quiet _ t1 (inspect_lawful self (state_id (pre_state pre)) (pre_transition_id pre))) as H2.
  unfold inspect_exact_fresh_transition. destruct (exclusive_tx _ (t1, [])) as [y [t2 fs]]. by cbn in *.
Qed.

(** The removal takes the row, and says so. *)
Lemma quiet_remove_row w pre id : G w -> rows self r (m_database w) id (ExactFreshTransitionObservation.Present pre) ->
  exists t absence, let w' := with_database t w in
    quiet (remove_row self pre) w (Ok absence) w' /\ G w' /\ rows self r t id (ExactFreshTransitionObservation.JointlyAbsent absence).
Proof using SL FL.
  intros Hst Hrows. pose proof (rw_observed _ _ _ _ _ Hrows) as Hobs. pose proof (inspected_present _ _ _ _ _ Hobs) as [_ Hid Htr _ _ _ _].
  pose proof (remove_row_stage self r0 src r w pre [] id Hst (rw_candidate _ _ _ _ _ Hrows) Hid) as Hstage.
  pose proof (fresh_removal_cases self pre (m_database w) []) as Hcases. pose proof (remove_exact_fresh_quiet pre (m_database w)) as Hfs.
  unfold quiet, remove_row. cbv zeta in Hcases. rewrite Hid, Htr in Hcases.
  destruct (remove_exact_fresh_transition self pre (m_database w, [])) as [answer [t fs]]. cbn in Hfs. subst fs.
  destruct Hcases as (Ha & _ & Hok). destruct (Hok eq_refl Hobs) as [absence ->]. destruct Ha as (_ & Ht & Habs), Hstage as [Hst' Hgone].
  exists t, absence. split_and!; [done..|]. destruct (Hgone eq_refl) as (id' & abs & Hrows'). cbn [m_database with_database] in Hrows'.
  assert (id' = id) as -> by (destruct Hrows, Hrows'; congruence).
  destruct (inspected_absent _ _ _ _ _ (rw_observed _ _ _ _ _ Hrows')) as (-> & _). by rewrite Habs.
Qed.

Lemma quiet_joint_absence w id absence : G w -> rows self r (m_database w) id (ExactFreshTransitionObservation.JointlyAbsent absence) ->
  quiet (require_joint_absence self r absence) w
    (evidence_of r (m_database w) (ExactFreshTransitionObservation.JointlyAbsent absence), ExactFreshTransitionObservation.JointlyAbsent absence) w.
Proof using FL.
  intros Hst Hrows. destruct (stage_checkpoint _ _ _ Hst) as [Hc _]. unfold require_joint_absence.
  eapply quiet_bind; [by apply (ra_fresh _ _ _ (rows_read _ _ _ _ _ _ Hc Hrows))|].
  eapply quiet_bind; [apply quiet_require; by apply (rows_pair _ _ _ _ Hc _ _ _ Hrows)|].
  eapply quiet_bind; [apply quiet_require; by apply bool_decide_eq_true|]. apply quiet_ret.
Qed.

Lemma quiet_invalidation_reconcile w id o : G w -> rows self r (m_database w) id o ->
  exists w' outcome absence (o' := ExactFreshTransitionObservation.JointlyAbsent absence),
    quiet (invalidation_reconcile self r {| a_database := (evidence_of r (m_database w) o, o); a_snapshot := visible w; a_namespace := tt |}) w
      ({| a_database := (evidence_of r (m_database w') o', o'); a_snapshot := visible w'; a_namespace := tt |}, outcome) w'
    /\ G w' /\ rows self r (m_database w') id o'.
Proof using SL FL.
  intros Hst Hrows. destruct (stage_checkpoint _ _ _ Hst) as [Hc Hj]. pose proof (invalidation_recognised r src Hc) as Hplan.
  assert (observed_at Stage.Invalidating o = true) as Hob by (by destruct o).
  pose proof (rows_pair _ _ _ _ Hc _ _ _ Hrows Hob) as Hexact. pose proof (rows_read _ _ _ _ _ _ Hc Hrows) as Hr.
  pose proof (stage_preserved r _ w Hst ltac:(by intros [|[]|])) as Hpres. cbn [stage_phase] in Hpres.
  unfold invalidation_reconcile. destruct o as [pre|absence].
  - destruct (quiet_remove_row w pre id Hst Hrows) as (t & absence & Hq & Hst' & Hrows'). cbv zeta in *.
    exists (with_database t w), RollbackActionOutcome.Applied, absence. split_and!; [|done..].
    eapply quiet_bind; [by apply quiet_binding|].
    eapply quiet_bind; [apply quiet_revalidate; try done; [by apply (ra_fresh _ _ _ Hr)|by apply quiet_journal_check]|]. cbn [a_database snd].
    eapply quiet_bind; [exact Hq|]. cbn beta iota. eapply quiet_bind; [|apply quiet_ret]. unfold capture_bound_absence.
    eapply quiet_bind; [by apply quiet_binding|]. eapply quiet_bind; [apply quiet_namespace|].
    eapply quiet_bind; [by eapply quiet_joint_absence|].
    eapply quiet_bind; [apply (quiet_revalidate_namespace _ _ (with_database t w)); [done|by apply quiet_journal_check]|].
    eapply quiet_bind; [by eapply quiet_joint_absence|].
    eapply quiet_bind; [apply quiet_require; by rewrite Hplan, bool_decide_eq_true_2|].
    eapply quiet_bind; [by apply quiet_binding|]. eapply quiet_bind; [apply quiet_namespace|]. apply quiet_ret.
  - exists w, RollbackActionOutcome.AlreadySatisfied, absence. split_and!; [|done..].
    eapply quiet_bind; [by apply quiet_binding|].
    eapply quiet_bind; [apply quiet_revalidate; try done; [by apply (ra_fresh _ _ _ Hr)|by apply quiet_journal_check]|]. apply quiet_ret.
Qed.

Lemma invalidation_progress w n : G w -> 2 <= n -> progresses n w.
Proof using SL FL.
  intros Hst Hn. destruct (stage_reads _ _ _ Hst) as (id & o & Hrows & Hob & Hr & Hx). destruct (stage_checkpoint _ _ _ Hst) as [Hc Hj].
  pose proof (invalidation_recognised r src Hc) as Hplan. pose proof (rows_pair _ _ _ _ Hc _ _ _ Hrows Hob) as Hexact.
  pose proof (stage_preserved r _ w Hst ltac:(by intros [|[]|])) as Hpres. cbn [stage_phase] in Hpres.
  destruct (quiet_invalidation_reconcile w id o Hst Hrows) as (w1 & outcome & absence & Hq & Hst1 & Hrows1). cbv zeta in *.
  destruct (stage_checkpoint _ _ _ Hst1) as [_ Hj1].
  pose proof (stage_preserved r _ w1 Hst1 ltac:(by intros [|[]|])) as Hpres1. cbn [stage_phase] in Hpres1.
  destruct (successor_checkpoint r src Stage.Invalidating (Some outcome) Hc eq_refl) as (next & Hs & Had & Hc').
  assert (on_stage next Stage.Invalidated (with_journal (Some next) w1)) as Hst'.
  { eapply invalidation_publish; [exact Hst1|by exists id, absence|exact Hs]. }
  eapply (dispatched_progress r Stage.Invalidating Stage.Invalidated w o next (with_journal (Some next) w1)); try done.
  - unfold dispatch_new_state. by rewrite (cp_phase _ _ _ Hc).
  - unfold fresh_db_invalidation. rewrite (cp_phase _ _ _ Hc), (cp_operation _ _ _ Hc), !bool_decide_eq_true_2, Hplan by done. cbn [orb negb].
    eapply quiet_bind; [apply quiet_capture_database_first; try done;
      [by apply (ra_fresh _ _ _ Hr)|by apply quiet_journal_check]|]. cbn beta iota.
    eapply quiet_bind; [exact Hq|]. cbn [fst snd]. eapply quiet_bind; [|apply quiet_ret]. eapply quiet_persist; try done.
    + by apply (ra_fresh _ _ _ (rows_read _ _ _ _ _ _ Hc Hrows1)).
    + by apply (rows_pair _ _ _ _ Hc _ _ _ Hrows1).
    + by apply quiet_journal_check.
    + by rewrite (cp_phase _ _ _ Hc').
  - by apply (next_ranked next Stage.Invalidating).
Qed.
End invalidating.

(** ** The end *)

(** A journal without a record, and a database without a row in flight *)
Lemma quiet_admit_clean w : m_journal w = None -> quiet (admit_clean None) w Entry.Clean w.
Proof using FL.
  intros Hj. unfold admit_clean. eapply quiet_bind; [apply quiet_snapshot|]. do 2 (eapply quiet_bind; [apply quiet_namespace|]).
  eapply quiet_bind; [apply quiet_observe|]. eapply quiet_bind; [apply quiet_namespace|].
  eapply quiet_bind; [apply quiet_require; rewrite Hj; by apply bool_decide_eq_true|]. apply quiet_ret.
Qed.

Lemma quiet_delete r w : m_journal w = Some r -> valid r -> deletable (phase r) = true -> quiet (journal_delete r) w tt (with_journal None w).
Proof using FL. intros Hj Hv Hd. unfold quiet, journal_delete. rewrite Hj, bool_decide_eq_true_2, Hv, Hd by done. done. Qed.

Lemma quiet_after_delete r w d (w' := with_journal None w) :
  quiet (inspect_fresh self r) w' d w' -> absent_pair_is_exact r d = true -> rollback_finalization_plan_is_exact r = true ->
  require_preserved_at Phase.RollbackComplete r (visible w) = Ok tt ->
  quiet (revalidate_after_journal_delete self r {| a_database := d; a_snapshot := visible w; a_namespace := tt |}) w' tt w'.
Proof using FL.
  intros Hd Hexact Hplan Hpres. unfold revalidate_after_journal_delete. eapply quiet_bind; [apply quiet_namespace|].
  eapply quiet_bind; [by apply quiet_exact_database|].
  eapply quiet_bind.
  { apply (quiet_revalidate_namespace _ _ w'); [done|]. unfold require_exact_public_journal_absence.
    eapply quiet_bind; [apply quiet_observe|]. apply quiet_require. by apply bool_decide_eq_true. }
  eapply quiet_bind; [by apply quiet_exact_database|]. eapply quiet_bind; [by apply quiet_require|]. apply quiet_namespace.
Qed.

Lemma finalization_progress r w n : on_stage r Stage.Complete w -> progresses n w.
Proof using FL.
  intros Hst. destruct (stage_reads _ _ _ Hst) as (id & o & Hrows & Hob & Hr & Hx). destruct (stage_checkpoint _ _ _ Hst) as [Hc Hj].
  pose proof (finalization_recognised r src Hc) as Hplan. pose proof (rows_absent _ _ _ _ Hc _ _ _ Hrows Hob ltac:(auto)) as Hexact.
  pose proof (stage_preserved r _ w Hst ltac:(by intros [|[]|])) as Hpres. cbn [stage_phase] in Hpres.
  exists Entry.Clean, (with_journal None w). split.
  2: { destruct (deleted_recovering _ _ _ r w Hst) as [(r' & st' & _ & _ & Hat)|]; [|by right]. by pose proof (iv_journal _ _ _ _ _ Hat). }
  eapply (quiet_enter r _ w (m_database w) o); [done..|]. eapply quiet_recover_rollback; [exact Hst|done|].
  eapply quiet_idles; [by apply (route_idle r src _ Hc)|]. eapply quiet_idles; [by apply (reverse_idle r src _ Hc)|].
  unfold dispatch_new_state. rewrite (cp_phase _ _ _ Hc). cbn [stage_phase]. eapply (quiet_bind _ _ _ true).
  - unfold finalization. rewrite (cp_phase _ _ _ Hc), (cp_operation _ _ _ Hc), !bool_decide_eq_true_2, Hplan by done. cbn [orb negb].
    eapply quiet_bind; [apply quiet_capture_database_first; try done; [by apply (ra_fresh _ _ _ Hr)|by apply quiet_journal_check]|].
    cbn beta iota. eapply quiet_bind; [|apply quiet_ret]. unfold finalize_usr_rollback.
    do 2 (eapply quiet_bind; [apply quiet_revalidate; try done; [by apply (ra_fresh _ _ _ Hr)|by apply quiet_journal_check]|]).
    eapply quiet_bind; [apply quiet_attempt, quiet_delete; [done|apply Hc|by rewrite (cp_phase _ _ _ Hc)]|]. cbn beta iota.
    apply quiet_map_err, quiet_after_delete; try done. by apply (ra_fresh _ _ _ Hr).
  - unfold admit_clean_after_terminal_finalization. eapply quiet_bind; [apply quiet_namespace|].
    eapply quiet_bind; [by apply (ra_audit _ _ _ Hr)|]. eapply quiet_bind; [apply quiet_namespace|]. destruct o; [done|]. by apply quiet_admit_clean.
Qed.

Lemma rolled_back_clean w : rolled_back self r0 w -> quiet (enter self) w Entry.Clean w.
Proof using FL.
  intros [Hj (id & o & Hrows & Hob) _]. unfold enter. do 2 (eapply quiet_bind; [apply quiet_namespace|]).
  eapply quiet_bind; [apply quiet_observe|]. eapply quiet_bind; [apply quiet_namespace|].
  eapply quiet_bind; [destruct Hrows; by eapply quiet_audit|]. eapply quiet_bind; [apply quiet_namespace|].
  rewrite Hj. destruct o; [done|]. by apply quiet_admit_clean.
Qed.

(** ** All of it *)

Context `{SL : !SqliteLaws SQ}.

Lemma entry_progress w n : ranked (S n) w -> progresses n w.
Proof using SL FL.
  intros [(r & st & a & Hst & Hm & Ha & Hrank & Hun)|Hrb].
  2: { exists Entry.Clean, w. split; [by apply rolled_back_clean|by right]. }
  destruct st.
  - apply (on_forward_progress r); [done|cbn in Hrank; lia|]. intros Hu. specialize (Hun Hu). lia.
  - apply (route_progress r Stage.DecidedExchanged); eauto.
  - apply (route_progress r Stage.DecidedStaged); eauto.
  - destruct (stage_reads _ _ _ Hst) as (id & o & _ & _ & Hr & Hx). eapply (reverse_progress r); try done. cbn in Hrank. lia.
  - apply (route_progress r Stage.Restored); eauto.
  - by eapply preserve_progress.
  - apply (fresh_route_progress r); [done|cbn in Hrank; lia].
  - apply (invalidation_progress r); [done|cbn in Hrank; lia].
  - apply (completion_progress r); [done|cbn in Hrank; lia].
  - by apply (finalization_progress r).
Qed.

(** The machine after one more entry in which nothing fails *)
Definition entered (w : machine) : machine := (enter self (w, [])).2.1.

Lemma entries_finish n m w : ranked n w -> n <= m -> rolled_back self r0 (Nat.iter m entered w).
Proof using SL FL.
  revert n w. induction m as [|m IH]; intros n w Hr Hn.
  - destruct Hr as [(r & st & a & _ & _ & _ & Hrank & _)|]; [|done]. assert (n = 0) as -> by lia. by destruct st, a as [|[]|]; cbn in Hrank; lia.
  - rewrite Nat.iter_succ_r. destruct (entry_progress w m) as (e & w' & Hq & Hr').
    { destruct Hr as [(r & st & a & ? & ? & ? & ? & Hu)|]; [left|by right]. exists r, st, a. split_and!; try done; [lia|].
      intros Hx. specialize (Hu Hx). lia. }
    unfold entered at 2. rewrite Hq. by apply (IH m).
Qed.
End liveness.

