(* ===== verification/StartupSamples.v ===== *)
(** * A machine in the middle of a transition

    A file system with the documented effects, and a machine whose transition was
    interrupted at each of two points: the witnesses of the theorems on recovery evaluate
    the definitions on them. *)

From S2P Require Import Prelude ByteStrings Ordered SqlDb SqlTx JournalModel JournalValidation JournalMachine JournalSuccessors StateDb StateDbExact StateDbInvariant StateDbTheorems StateDbRemoval StartupEvidence StartupEvidenceTheorems StateDbSamples Namespace NamespaceMoves StartupMachine StartupPlans StartupHandlers StartupLogic Arrangements ArrangementMoves StartupCheckpoints StartupInvariant StartupSafety StartupLiveness.

(** ** A file system *)

Definition located (l : TreeLocation.t) (u : UsrFingerprint) : UsrFingerprint :=
  {| location := l; token := token u; directory := directory u; marker := marker u; usr_state_id := usr_state_id u; runtime := runtime u |}.

Definition filled (u : option UsrFingerprint) (w : WrapperFingerprint) : WrapperFingerprint :=
  {| name := name w; witness := witness w; role := role w; slot := slot w; usr := u;
     entries := match u with Some u => [(bstr "usr", directory u)] | None => [] end |}.

Definition is_role (l : TreeLocation.t) (w : WrapperFingerprint) : bool := bool_decide (role w = l).

Definition fill (l : TreeLocation.t) (u : option UsrFingerprint) (ws : list WrapperFingerprint) : list WrapperFingerprint :=
  map (fun w => if is_role l w then filled u w else w) ws.

Definition staged (s : NamespaceFingerprint) : option UsrFingerprint := List.find (is_role TreeLocation.Staging) (roots_entries s) ≫= usr.

(** [0o170000] and [0o700] *)
Definition private_mode (mode : Z) : Z := Z.lor (Z.land mode 61440) 448.

Definition private_inode (w : InodeWitness) : InodeWitness :=
  {| w_device := w_device w; w_inode := w_inode w; w_mode := private_mode (w_mode w); w_owner := w_owner w; w_group := w_group w;
     w_links := w_links w; w_length := w_length w; w_modified_seconds := w_modified_seconds w;
     w_modified_nanoseconds := w_modified_nanoseconds w; w_changed_seconds := w_changed_seconds w + 1;
     w_changed_nanoseconds := w_changed_nanoseconds w |}.

Definition inode (n mode : Z) : InodeWitness :=
  {| w_device := 66306; w_inode := n; w_mode := mode; w_owner := 0; w_group := 0; w_links := 1; w_length := 0;
     w_modified_seconds := 0; w_modified_nanoseconds := 0; w_changed_seconds := 0; w_changed_nanoseconds := 0 |}.

Definition with_namespace (s : NamespaceFingerprint) live abi rs qs residue : NamespaceFingerprint :=
  {| root := root s; root_entries := root_entries s; roots := roots s; quarantine := quarantine s; epoch := epoch s; live := live;
     root_abi := abi; isolation_abi := isolation_abi s; roots_entries := rs; quarantine_entries := qs; new_state_target_residue := residue |}.

Definition new_target (nm : bytes) (w : InodeWitness) : WrapperFingerprint :=
  {| name := nm; witness := w; role := TreeLocation.TransitionQuarantine; entries := []; usr := None; slot := None |}.

(** A directory is made under a umask that takes the owner's right to write. *)
#[export] Instance plain_files : FileSystem := {|
  exchange_usr s :=
    match staged s with
    | Some u => with_namespace s (located TreeLocation.Live u) (root_abi s)
        (fill TreeLocation.Staging (Some (located TreeLocation.Staging (live s))) (roots_entries s)) (quarantine_entries s) (new_state_target_residue s)
    | None => s
    end;
  make_target nm s := with_namespace s (live s) (root_abi s) (roots_entries s) (quarantine_entries s)
    (Some {| residue_name := nm; residue_witness := inode 4242 16704 |});
  normalize_target s :=
    match new_state_target_residue s with
    | Some e => with_namespace s (live s) (root_abi s) (roots_entries s)
        (quarantine_entries s ++ [new_target (residue_name e) (private_inode (residue_witness e))]) None
    | None => s
    end;
  move_candidate nm s :=
    with_namespace s (live s) (root_abi s) (fill TreeLocation.Staging None (roots_entries s))
      (fill TreeLocation.TransitionQuarantine (located TreeLocation.TransitionQuarantine <$> staged s) (quarantine_entries s))
      (new_state_target_residue s);
  link_root i s :=
    with_namespace s (live s) (<[i := Some {| link_name := bstr "bin"; link_target := bstr "usr/bin"; link_witness := inode 77 41471 |}]> (root_abi s))
      (roots_entries s) (quarantine_entries s) (new_state_target_residue s) |}.

Lemma fill_others l u ws : Forall (fun w => role w <> l) ws -> fill l u ws = ws.
Proof.
  induction 1 as [|w ws Hw _ IH]; [done|]. unfold fill in *. cbn. rewrite IH. unfold is_role. by rewrite bool_decide_eq_false_2.
Qed.

Lemma fill_split l u l1 w l2 : role w = l -> Forall (fun w => role w <> l) (l1 ++ l2) -> fill l u (l1 ++ w :: l2) = l1 ++ filled u w :: l2.
Proof.
  intros Hw [H1 H2]%Forall_app. unfold fill. rewrite map_app. cbn. fold (fill l u l1) (fill l u l2). rewrite !fill_others by done.
  unfold is_role. by rewrite bool_decide_eq_true_2.
Qed.

Lemma staged_split s l1 w l2 u : roots_entries s = l1 ++ w :: l2 -> role w = TreeLocation.Staging ->
  Forall (fun w => role w <> TreeLocation.Staging) (l1 ++ l2) -> holds w u -> staged s = Some u.
Proof.
  intros E Hw [H1 _]%Forall_app [Hu _]. unfold staged. rewrite E. clear E.
  induction H1 as [|w1 l1 Hr _ IH]; cbn; unfold is_role at 1.
  - by rewrite bool_decide_eq_true_2.
  - rewrite bool_decide_eq_false_2 by done. done.
Qed.

Lemma private_mode_kind m : Z.land (private_mode m) 61440 = Z.land m 61440.
Proof. unfold private_mode. rewrite Z.land_lor_distr_l, <- Z.land_assoc. change (Z.land 448 61440) with 0%Z. by rewrite Z.lor_0_r. Qed.

Lemma private_mode_permissions m : Z.land (private_mode m) 4095 = 448%Z.
Proof. unfold private_mode. rewrite Z.land_lor_distr_l, <- Z.land_assoc. change (Z.land 61440 4095) with 0%Z. by rewrite Z.land_0_r. Qed.

Lemma root_stable_refl w : root_stable w w = true.
Proof. unfold root_stable. by rewrite !Z.eqb_refl. Qed.

#[export] Instance plain_files_laws : FileSystemLaws.
Proof.
  split.
  - intros s l1 w l2 u E Hw Ho Hh. cbn. rewrite (staged_split _ _ _ _ _ E Hw Ho Hh), E.
    split; try done. exists (filled (Some (located TreeLocation.Staging (live s))) w), (located TreeLocation.Staging (live s)).
    split_and!; try done. by apply fill_split.
  - intros nm s Hq Hn. split; try done. left. cbn. eauto.
  - intros s e Hq Hn. cbn. rewrite Hn. split; try done. eexists _, _, []. rewrite app_nil_r. split_and!; try done.
    + split; try done. unfold has_exact_private_permissions. cbn. by rewrite private_mode_permissions.
    + unfold stable_residue, inode_kind. cbn. by rewrite private_mode_kind.
  - intros nm s l1 w l2 u q1 t q2 E Hw Ho Hh Eq Ht Hn Hq Hb. cbn. rewrite (staged_split _ _ _ _ _ E Hw Ho Hh), E, Eq. cbn.
    split; try done. eexists _, _, (located TreeLocation.TransitionQuarantine u).
    split; [cbn; by apply fill_split|]. split; [cbn; by apply fill_split|]. done.
  - intros i s Hi. split; try done; [cbn; eauto|apply root_stable_refl].
Qed.

(** ** A transition that stopped at the exchange *)

Definition intent_calls : list Call.t := [Call.Forward None; Call.Forward (Some 7%Z)] ++ repeat (Call.Forward None) 5.

Lemma sample_intent_reachable : reachable sample_intent.
Proof.
  destruct (run_calls intent_calls sample) as [l|e] eqn:E; [|by vm_compute in E].
  destruct (run_calls_history _ _ _ E) as (b & Hl & Hh). exists sample, l. split; [apply sample_preparing|].
  assert (b = sample_intent) as <-; [|done]. cut (Ok (last l) = (Ok (Some sample_intent) : codec _)); [rewrite Hl; by intros [= <-]|].
  transitivity (l ← run_calls intent_calls sample; Ok (last l)); [by rewrite E|]. vm_compute. reflexivity.
Qed.

Definition sample_usr (l : TreeLocation.t) (token : bytes) (n : Z) (id : StateIdFingerprint.t) : UsrFingerprint :=
  {| location := l; token := token; directory := inode n 16877; marker := inode (n + 1) 33060; usr_state_id := id; runtime := sample_tree n |}.

Definition sample_candidate (l : TreeLocation.t) : UsrFingerprint :=
  sample_usr l (candidate_token sample_intent) 977 (StateIdFingerprint.Canonical 7 (inode 980 33188) (bstr "7")).
Definition sample_old (l : TreeLocation.t) : UsrFingerprint :=
  sample_usr l (previous_token sample_intent) 131 (StateIdFingerprint.Canonical 6 (inode 140 33188) (bstr "6")).

Definition sample_staging (u : UsrFingerprint) : WrapperFingerprint :=
  {| name := bstr "staging"; witness := inode 50 16832; role := TreeLocation.Staging; entries := [(bstr "usr", directory u)];
     usr := Some u; slot := None |}.

Definition sample_link : option RootAbiLinkFingerprint :=
  Some {| link_name := bstr "bin"; link_target := bstr "usr/bin"; link_witness := inode 77 41471 |}.

Definition sample_namespace (live : UsrFingerprint) (u : UsrFingerprint) : NamespaceFingerprint :=
  {| root := inode 2 16877; root_entries := []; roots := inode 40 16832; quarantine := inode 41 16832; epoch := sample_epoch; live := live;
     root_abi := repeat sample_link 5; isolation_abi := repeat sample_link 5; roots_entries := [sample_staging u];
     quarantine_entries := []; new_state_target_residue := None |}.

Definition sample_exchanged : NamespaceFingerprint := sample_namespace (sample_candidate TreeLocation.Live) (sample_old TreeLocation.Staging).
Definition sample_staged : NamespaceFingerprint := sample_namespace (sample_old TreeLocation.Live) (sample_candidate TreeLocation.Staging).

Definition sample_parts (u c p : UsrFingerprint) : parts :=
  {| before_staging := []; staging := sample_staging u; after_staging := []; before_target := []; target := None; after_target := [];
     the_candidate := c; the_previous := p |}.

Lemma sample_exchanged_arranged : arrangement sample_intent Arrangement.Exchanged sample_exchanged.
Proof.
  exists (sample_parts (sample_old TreeLocation.Staging) (sample_candidate TreeLocation.Live) (sample_old TreeLocation.Staging)).
  split; try done; by split.
Qed.

Lemma sample_staged_arranged : arrangement sample_intent (Arrangement.Staged Quarantine.Missing) sample_staged.
Proof.
  exists (sample_parts (sample_candidate TreeLocation.Staging) (sample_candidate TreeLocation.Staging) (sample_old TreeLocation.Live)).
  split; try done; by split.
Qed.

(** ** Its database *)

Lemma sample_rows : exists pre, rows 0 sample_intent sample_tables 7 (ExactFreshTransitionObservation.Present pre).
Proof.
  assert (exists pre, inspected 0 7 (transition_id sample_intent) sample_tables = Ok (ExactFreshTransitionObservation.Present pre)) as [pre Hpre].
  { eexists. vm_compute. reflexivity. }
  exists pre. split; try done.
  - apply sample_tables_well_formed.
  - intros p [= <-]. by eexists.
Qed.

(** ** The witnesses *)

(** The exchange was made and is not durable. *)
Definition sample_machine : machine :=
  {| m_journal := Some sample_intent; m_database := sample_tables; visible := sample_exchanged; survivors := [sample_staged];
     unsynced := [Directory.Staging; Directory.InstallationRoot] |}.

Lemma sample_interrupted : interrupted 0 sample_intent ForwardPhase.UsrExchangeIntent sample_machine.
Proof.
  split; try done.
  - apply sample_intent_reachable.
  - destruct sample_rows as [pre Hr]. by exists 7%Z, pre.
  - intros s [->|[->|[]%elem_of_nil]%elem_of_cons]%elem_of_cons.
    + exists Arrangement.Exchanged. split_and!; [done|apply sample_exchanged_arranged|done].
    + exists (Arrangement.Staged Quarantine.Missing). split_and!; [done|apply sample_staged_arranged|done].
  - intros [x Hx]. pose proof (ar_placed _ _ _ _ Hx) as (_ & [Hh _] & _). cbn in Hh.
    pose proof (nm_candidate _ _ _ _ (ar_named _ _ _ _ Hx)) as Ht. pose proof (ar_roots _ _ _ _ Hx) as Hr. cbn in Hr.
    destruct (before_staging x) as [|? []]; [|done..]. injection Hr as Hs _. rewrite <- Hs in Hh. injection Hh as Hh. rewrite <- Hh in Ht. by vm_compute in Ht.
Qed.



(** A record of the phase before the intent *)
Definition sample_before : TransitionRecord := with_step 7 Phase.TransactionTriggersComplete None None (Some 7%Z) sample.


(** The eleven entries of this transition, one record each *)
Example sample_recovery :
  (fun n => phase <$> m_journal (Nat.iter n (entered 0) sample_machine)) <$> seq 0 12
  = [Some Phase.UsrExchangeIntent; Some Phase.RollbackDecided; Some Phase.ReverseExchangeIntent; Some Phase.UsrRestored;
     Some Phase.CandidatePreserveIntent; Some Phase.CandidatePreserveIntent; Some Phase.CandidatePreserveIntent;
     Some Phase.CandidatePreserved; Some Phase.FreshDbInvalidationIntent; Some Phase.FreshDbInvalidated; Some Phase.RollbackComplete; None].
Proof. vm_compute. reflexivity. Qed.
